(* ===== verification/_CoqProject ===== *)
-Q . S2P
Prelude.v
Status.v
Owners.v
LockTable.v
LockManager.v
LockInv.v
LockPrims.v
LockAlgo.v
LockGrant.v
LockOps.v
LockApi.v
LockTheorems.v
LockExamples.v
Acl.v
AclTheorems.v
Share.v
NlmShare.v
Grace.v
Lease.v
Session.v
Compound.v
SessionInv.v
CompoundInv.v
CompoundTheorems.v
Cidr.v
Netgroup.v
Clients.v
Exports.v
Creds.v
Admission.v
AccessOp.v
VfsHandle.v
FsIndex.v
Utf8.v
Rbtree.v
RbtreeX.v
RbtTree.v
Hashtable.v
HashtableInv.v
HashtableAll.v
HashtableTheorems.v
Dupreq.v
DupreqInv.v
DupreqTheorems.v
DrcRecycle.v
DrcRecycleInv.v
DrcExamples.v
StateTable.v
StateInv.v
StateOps.v
StateId.v
SeqidInv.v
SeqidTheorems.v
StateRefine.v
StateExamples.v
