(* ===== verification/Prelude.v ===== *)
(** * Verification of the state layer of an NFS-Ganesha server

    NFS-Ganesha (version 5.7, sources under [src/nfs-ganesha-5.7/src/]) is a user-space
    server for NFSv3, NFSv4 and 9P.  A request enters through the protocol layer
    ([Protocols/]), which checks it and calls the state abstraction layer ([SAL/]: locks,
    shares, leases, sessions, grace period) and a file system abstraction ([FSAL/]), under
    which the back ends do the work.  This library models the parts of these layers that
    carry the server's own logic, translates them function by function, and proves what
    makes them correct: the state layer, the duplicate request cache, and the checks of a
    request against the permissions of its export.

    ** How the code is modelled

    Functions of the source are definitions with the same names.  A C integer is a [Z]
    with its wrap-around written out ([wrapu], [wraps]).  Functions that change memory
    run in the state monad [M W A] of this file, over a record [W] that holds the
    objects of a component in finite maps from addresses; [undef] is undefined
    behaviour: a freed or missing object, an index out of bounds, a failed assertion.
    [wp m Q w] says that [m] runs from [w] without undefined behaviour and ends in [Q], so a
    [wp] theorem includes that the function returns.  Threads, where interleaving
    matters (grace period, leases, duplicate requests, netgroups), are steps of a relation; critical sections are
    single steps.  Elsewhere operations run one after another, as the mutexes of the
    source make them.  Code outside the component (answers of an FSAL, of the kernel,
    of RPC, configuration) is an argument of the definitions or a field of a class
    ([Env] in [LockManager], [OwnerMem] in [Owners], [Ops] in [Compound], [HostNames] in [Clients],
    [LowerLayer] in [StateTable], [RequestLayer] in [StateId] and [HashLaws] in [HashtableInv]).

    ** Files

    - [Prelude]: integers, the monad and its rules, list and counting lemmas.
    - [Status]: status codes and their conversions ([SAL/state_misc.c]).
    - [Owners]: lock owners and clients and their comparison ([SAL/nlm_owner.c],
      [SAL/9p_owner.c], [SAL/nfs4_owner.c], [SAL/state_misc.c]).
    - [LockTable], [LockManager]: the byte-range lock manager ([SAL/state_lock.c],
      [SAL/state_async.c]) and the NLM grant messages ([Protocols/NLM/nlm_util.c],
      [nlm_Granted_Res.c]): lists of lock entries, conflict, merge and subtraction of
      ranges, blocking and granting, cookies, polling, upcalls.  [LockInv] is the
      invariant of the heap of entries and cookies, [LockPrims], [LockAlgo], [LockGrant],
      [LockOps] and [LockApi] carry it through the functions bottom up, [LockTheorems]
      states the guarantees, [LockExamples] applies them and shows the defects.
    - [Acl], [AclTheorems]: access checks with modes and ACLs ([FSAL/access_check.c]),
      inheritance and conversion of ACLs ([FSAL/commonlib.c]).
    - [Share]: share reservations ([FSAL/commonlib.c]); [NlmShare]: NLM SHARE and
      UNSHARE ([SAL/state_share.c], [SAL/nlm_state.c], [Protocols/NLM/]).
    - [Grace]: the grace period ([SAL/nfs4_recovery.c]).
    - [Lease]: client leases ([SAL/nfs4_lease.c], [MainNFSD/nfs_reaper_thread.c]) and what the
      operations on client ids do to them ([SAL/nfs4_clientid.c]).
    - [Session], [Compound]: NFSv4.1 sessions and the COMPOUND procedure with its reply cache
      ([SAL/nfs41_session_id.c], [Protocols/NFS/nfs4_Compound.c], [nfs4_op_sequence.c],
      [nfs4_op_create_session.c], [nfs4_op_destroy_session.c]).  [SessionInv] is the
      invariant of responses, sessions and their references, [CompoundInv] carries it
      through a compound, [CompoundTheorems] has the guarantees.
    - [Cidr]: blocks of addresses ([cidr/]); [Netgroup]: the cache of netgroups
      ([support/netgroup_cache.c]); [Clients]: client lists and the cache of host names
      ([support/client_mgr.c], [support/nfs_ip_name.c]); [Exports]: the permissions of a client on an
      export ([support/exports.c]); [Creds]: the credentials of a request
      ([support/nfs_creds.c]); [Admission]: the checks of a request on its export
      ([support/nfs_creds.c], [MainNFSD/nfs_worker_thread.c]); [AccessOp]: ACCESS, which puts the
      access check of [Acl] under the permissions of the export.
    - [VfsHandle]: wire handles of the VFS back end ([FSAL/FSAL_VFS/os/linux/handle_syscalls.c],
      fsids in [FSAL/commonlib.c]); [FsIndex]: the index of file systems by fsid
      ([FSAL/localfs.c]).
    - [Utf8]: the scan of names from the wire ([Protocols/NFS/nfs_proto_tools.c]).
    - [Rbtree]: the red-black trees of libntirpc ([libntirpc/src/rbtree.c]); [RbtreeX]: trees in
      partitions with caches ([libntirpc/ntirpc/misc/rbtree_x.h]).  [Dupreq]: the duplicate request cache of a connection ([RPCAL/nfs_dupreq.c]) with the
      part of the worker that calls it ([MainNFSD/nfs_worker_thread.c]): start, finish, delete and
      release of a request, duplicates that wait, retirement of old entries.  [DupreqInv] is the
      invariant of counts, owners of entries and history, [DupreqTheorems] carries it through the
      steps and has the guarantees.  [DrcRecycle], [DrcRecycleInv]: the caches of all connections,
      found by address, counted, queued and freed.  [DrcExamples]: runs of requests.
    - [RbtTree]: red-black trees whose values may repeat ([include/rbt_tree.h]); [Hashtable]: the hash
      table on top of them, with partitions, locks, latches, caches and memory pools
      ([hashtable/hashtable.c], [include/hashtable.h]).  [HashtableInv] is its invariant,
      [HashtableAll] goes through the whole table, [HashtableTheorems] shows that it is a finite map.
      The other components use finite maps in its place.
    - [StateTable]: NFSv4 states, their hash tables, lists and references
      ([SAL/nfs4_state.c], [SAL/nfs4_state_id.c]).  [StateInv] is the invariant of the table,
      [StateOps] carries it through adding and deleting, [StateRefine] shows that the table is
      a map from stateids.
    - [StateId]: the check of stateids, the replay check of NFSv4.0 owners and the requests
      LOCKU, CLOSE, OPEN_CONFIRM and OPEN_DOWNGRADE ([SAL/nfs4_state_id.c],
      [SAL/nfs4_owner.c], [Protocols/NFS/nfs4_op_*.c]).  [SeqidInv] and [SeqidTheorems]: a
      request runs once; [StateExamples] puts the requests on the lock manager.

    ** What is proved

    - Locks (C1-C9): no request of any history of valid requests and scheduled grant attempts is
      undefined; granted locks of different owners do not conflict; lock, unlock and test
      do exactly what they promise to every byte of every owner; the list algorithms
      compute set difference, union and the first conflict; reference counts are exact.
      Attempts on locks that were cancelled after they were scheduled are left out of the
      histories: there the code uses a freed entry ([LockExamples]).
    - Access (C10-C12): an ACL check is the first-match semantics of NFSv4 ACLs; a mode and the ACL made from
      it grant the same; inheritance stays inside the array it allocates, puts in force what is to take
      effect and hands on what is to be inherited.
    - Exports (C13-C20): the permissions of a client are those of the first source that sets them, the
      credentials those of the caller as the export squashes them, also when a compound goes from
      one export to another; nobody is root where root is squashed; a request gets through exactly
      if it is allowed to; ACCESS grants what the ACL and the export allow (XAWRITE together with EXTEND apart); client lists are searched by first match,
      answers on netgroups are not stale.
    - Shares (C21-C23): share modes exclude each other; the counters decide conflicts;
      NLM shares with the modes of the protocol keep their lists, counts and references, and go when
      their export goes, up to the first whose file is stale.
    - Grace and leases (C24-C26): a grace status with a reference held is stable in every
      interleaving, and a requested change takes effect while other threads go on; a reserved lease
      keeps its client, unless the client id itself is replaced or removed.
    - Compounds (C27-C29): no response and no session leaks or is freed early, a request is
      executed once and its retries get the cached reply, a refused one does nothing.
    - Duplicate requests (C30-C33): in every interleaving the entries of the cache and the caches
      themselves live exactly as long as they are used, a request is answered with the result of
      its own execution and not executed after its answer.  The red-black trees under it are finite
      maps, balanced after every insertion and removal.
    - Hash table (C34): with any hash functions that respect the comparison of keys, any cache and any
      callers that hold latches, the table is a finite map; going through it visits each pair once,
      emptying it frees everything.
    - Handles and names (C35-C38): handles round trip, what is accepted from the wire
      is read inside the buffers, except for two kinds of forged handles that C36 names, the fsid index stays in order, the
      name scan accepts UTF-8.
    - NFSv4 states (C39, C40): a request ordered by owner sequence ids is executed at most
      once, CLOSE included, whose stateid is gone the second time, as long as the lease of the client
      can be used when the request is sent again; the state table refines a
      finite map, with exact references of states, owners, clients, files and exports.

    More theorems of the same kind stand beside these: completing a grant, the superuser's rights, the mask of
    allowed permissions, the conversion of a mode to an ACL and when it overflows, which clients may
    reclaim, which addresses a block contains, which compounds are cached and what becomes of duplicates that wait.

    The findings of the manifest are the places where the code does not do what it means
    to; those that a theorem bounds name it.

    ** Fuel and bounds

    - [glist_for_each_safe] walks a list that its body may change: it gets fuel for twice the
      list and one, and the theorems show that the walk ends within it.
    - [unshare_loop] gets one round per share of the export and one; C23 shows that it ends.
    - [dec_owner_ref] gets fuel for a lock owner and its open owner; C40 shows that it ends.
    - [remove_recolour] gets one round per ancestor of the node and two; C33 shows that it ends.
      [unlink_fix] of the hash table's trees gets the same; [locate_loop], [delall_loop] and
      [visit_loop] get one round per node of the partition (and one); C34 shows that they end.
    - [ng_clear_tree] gets one round per entry of the tree; C20 shows that it empties it.
    - All other recursion is structural.
    - [Grace]: the reference count is a bit field, exact for up to 2^30 threads; [Share]: the
      counters have 32 bits, exact for fewer than 2^31 opens of a file;
      [Dupreq], [DrcRecycle]: the counts have 32 bits, exact for fewer than 2^30 threads and 2^31
      connections.
    - Other reference counts of the source ([int32_t]) are unbounded integers here, each exactly the
      number of its holders: those of lock entries (at most two and the attempts scheduled, so 32 bits
      hold them below 2^31 - 2 attempts, C9), of responses and sessions ([Session]: replies under way,
      slots and tables), of states, owners, clients and files ([StateTable]).

    ** Assumptions

    The thread pool accepts the jobs it is given; where a scheduled attempt leaves it to the FSAL
    whether a blocked lock can be had, C2 takes it that the FSAL gives no lock that conflicts with one
    of another owner; compounds, lock requests and share requests
    each run one after another (the source serialises them per file and per slot); an operation
    of a compound that suspends is one that returns when it is resumed; the
    compound's operation table lists SEQUENCE with no permissions and a response that fits
    ([SequenceAdmitted]); the counter of session ids does not wrap (64 bits).  Of the layers
    below the state table the theorems use that lock entries hold no negative number of
    references and that closing a file in the FSAL takes no reference from them ([LowerLayer]).
    A duplicate request cache is freed only after the threads that leave it have unlocked its mutex
    ([drc_settled] in [DrcRecycle]), and addresses of clients are of one family.
    The clock of the netgroup cache does not go back; names and addresses of clients fit
    the buffers for them, and the resolver's answers do not change while a list is searched
    ([HostNames]); callers have IPv4 or IPv6 addresses; entries of client lists set no expiry
    time, as the code demands; [enable_rpc_cred_fallback] is off, and the FSAL's [is_superuser]
    is the default one.
    Keys of a hash table that compare equal have the same hashes, and a hash function names a
    partition that exists ([HashLaws]); a call that would wait for a latch of another caller is made when
    it need not wait; [hashtable_setlatched] gets a key equal to that of its latch.
    C39 is about owners that have made a request before, in states between requests, whose client has
    a usable lease at both requests ([client_usable]).  Of the part of [nfs_start_grace] behind its loop
    [Grace] has no step; the setting [graceless] does not change while the server runs.

    ** Not modelled

    Delegations and layouts; the release of all states of an owner or of an export; OPEN and
    LOCK; the other operations of NFSv3, NFSv4 and 9P,
    which decode a request, call the layers modelled here and encode the answer; attribute
    encoding and the generated XDR code; the RPC transport and the cache shared by UDP requests; the
    metadata cache, file descriptor LRU and the back ends, whose work is calls of system
    and vendor libraries; reading, adding and removing exports, configuration, logging, DBus, thread pools; the AVL
    trees, which are finite maps here. *)

From stdpp Require Export prelude gmap list sorting.
From Stdlib Require Export ZArith Lia.

#[export] Set Default Proof Using "Type".

Create HintDb gsh discriminated.

(** ** Machine integers

    A C integer of width [w] is a [Z].  [wrapu w] is the value an expression of
    an unsigned type of that width takes, [wraps w] the conversion to the
    signed type of that width. *)
Module Word.
Local Open Scope Z_scope.

Definition wrapu (w x : Z) : Z := x `mod` 2 ^ w.

Definition wraps (w x : Z) : Z :=
  let y := wrapu w x in if y <? 2 ^ (w - 1) then y else y - 2 ^ w.

Definition in_u (w x : Z) : Prop := 0 <= x < 2 ^ w.

Lemma wrapu_in_u w x : 0 <= w -> in_u w (wrapu w x).
Proof. intros Hw. unfold in_u, wrapu. apply Z.mod_pos_bound. lia. Qed.

Lemma wrapu_small w x : in_u w x -> wrapu w x = x.
Proof. unfold in_u, wrapu. intros. by apply Z.mod_small. Qed.

Lemma wrapu_wrapu w x : 0 <= w -> wrapu w (wrapu w x) = wrapu w x.
Proof. intros. by apply wrapu_small, wrapu_in_u. Qed.

End Word.
Export Word.

Definition UINT64_MAX : Z := 18446744073709551615.
Definition UINT32_MAX : Z := 4294967295.
Abbreviation u64 := (wrapu 64).
Abbreviation u32 := (wrapu 32).
Abbreviation u8 := (wrapu 8).
Abbreviation i32 := (wraps 32).

Section u64_lemmas.
Local Open Scope Z_scope.

Lemma u64_small x : 0 <= x <= UINT64_MAX -> u64 x = x.
Proof.
  intros. apply wrapu_small. unfold in_u, UINT64_MAX in *.
  change (2 ^ 64) with 18446744073709551616. lia.
Qed.

Lemma u64_max_succ : u64 (UINT64_MAX + 1) = 0.
Proof. reflexivity. Qed.

Lemma u64_range x : 0 <= u64 x <= UINT64_MAX.
Proof.
  pose proof (wrapu_in_u 64 x ltac:(lia)) as H.
  unfold in_u, UINT64_MAX in *.
  change (2 ^ 64) with 18446744073709551616 in H. lia.
Qed.

Lemma u32_small x : 0 <= x <= UINT32_MAX -> u32 x = x.
Proof.
  intros. apply wrapu_small. unfold in_u, UINT32_MAX in *.
  change (2 ^ 32) with 4294967296. lia.
Qed.

Lemma i32_small x : - 2 ^ 31 <= x < 2 ^ 31 -> i32 x = x.
Proof.
  intros Hx. unfold wraps, wrapu. change (2 ^ 32) with 4294967296. change (2 ^ (32 - 1)) with 2147483648.
  change (2 ^ 31) with 2147483648 in Hx. destruct (Z.ltb_spec (x mod 4294967296) 2147483648) as [H|H].
  - destruct (decide (0 <= x)); [by rewrite Z.mod_small by lia|].
    rewrite <- (Z.mod_add x 1) in H by lia. rewrite Z.mod_small in H by lia. lia.
  - destruct (decide (0 <= x)); [rewrite Z.mod_small in H by lia; lia|].
    rewrite <- (Z.mod_add x 1) by lia. rewrite Z.mod_small by lia. lia.
Qed.

Lemma u32_range x : 0 <= u32 x <= UINT32_MAX.
Proof.
  pose proof (wrapu_in_u 32 x ltac:(lia)) as H.
  unfold in_u, UINT32_MAX in *.
  change (2 ^ 32) with 4294967296 in H. lia.
Qed.

End u64_lemmas.

(** ** A state monad with undefined behaviour

    Stateful C code over a state of type [W] returning an [A].  [None] is the
    outcome of an execution the C program has no defined result for: reading
    through a dangling or NULL pointer, a failed [assert], a list walk through
    an unlinked node. *)
Definition M (W A : Type) : Type := W -> option (A * W).

#[export] Instance M_ret W : MRet (M W) := fun A a w => Some (a, w).
#[export] Instance M_bind W : MBind (M W) := fun A B f m w =>
  match m w with Some (a, w') => f a w' | None => None end.

Definition undef {W A} : M W A := fun _ => None.
Definition gets {W A} (f : W -> A) : M W A := fun w => Some (f w, w).
Definition modify {W} (f : W -> W) : M W unit := fun w => Some (tt, f w).
(** The value of an option that the C code dereferences without a test. *)
Definition deref {W A} (o : option A) : M W A :=
  match o with Some a => mret a | None => undef end.
Definition mwhen {W} (b : bool) (m : M W unit) : M W unit :=
  if b then m else mret tt.

(** Total-correctness weakest precondition: [m] run in [w] has a defined
    result, and that result satisfies [Q]. *)
Definition wp {W A} (m : M W A) (Q : A -> W -> Prop) (w : W) : Prop :=
  match m w with Some (a, w') => Q a w' | None => False end.

Section wp_rules.
Context {W : Type}.

Lemma wp_ret {A} (a : A) Q (w : W) : Q a w -> wp (mret a) Q w.
Proof. done. Qed.

Lemma wp_bind {A B} (m : M W A) (f : A -> M W B) Q w :
  wp m (fun a => wp (f a) Q) w -> wp (m ≫= f) Q w.
Proof. unfold wp, mbind, M_bind. by destruct (m w) as [[a w']|]. Qed.

Lemma wp_bind_inv {A B} (m : M W A) (f : A -> M W B) Q w :
  wp (m ≫= f) Q w -> wp m (fun a => wp (f a) Q) w.
Proof. unfold wp, mbind, M_bind. by destruct (m w) as [[a w']|]. Qed.

Lemma wp_mono {A} (m : M W A) (P Q : A -> W -> Prop) w :
  wp m P w -> (forall a w', P a w' -> Q a w') -> wp m Q w.
Proof. unfold wp. destruct (m w) as [[a w']|]; auto. Qed.

Lemma wp_and {A} (m : M W A) (P Q : A -> W -> Prop) w :
  wp m P w -> wp m Q w -> wp m (fun a w' => P a w' /\ Q a w') w.
Proof. unfold wp. destruct (m w) as [[a w']|]; auto. Qed.

Lemma wp_gets {A} (f : W -> A) Q w : Q (f w) w -> wp (gets f) Q w.
Proof. done. Qed.

Lemma wp_modify (f : W -> W) Q w : Q tt (f w) -> wp (modify f) Q w.
Proof. done. Qed.

Lemma wp_deref {A} (o : option A) a Q (w : W) : o = Some a -> Q a w -> wp (deref o) Q w.
Proof. by intros ->. Qed.

Lemma wp_mwhen b (m : M W unit) Q w :
  (b = true -> wp m Q w) -> (b = false -> Q tt w) -> wp (mwhen b m) Q w.
Proof. unfold mwhen. destruct b; intros; auto using wp_ret. Qed.

Lemma wp_run {A} (m : M W A) Q w :
  wp m Q w <-> exists a w', m w = Some (a, w') /\ Q a w'.
Proof.
  unfold wp. destruct (m w) as [[a w']|]; split; try naive_solver.
Qed.

End wp_rules.

(** One symbolic step of a [wp] goal. *)
Ltac wp_step :=
  lazymatch goal with
  | |- wp (mbind _ _) _ _ => apply wp_bind
  | |- wp (mret _) _ _ => apply wp_ret
  | |- wp (gets _) _ _ => apply wp_gets
  | |- wp (modify _) _ _ => apply wp_modify
  | |- wp (mwhen _ _) _ _ => apply wp_mwhen; intros ?
  | |- wp (deref (Some _)) _ _ => apply wp_ret
  | |- wp (match ?x with _ => _ end) _ _ => destruct x eqn:?
  end.
Ltac wp_go := repeat (wp_step; simpl).

(** ** List facts shared by the components *)
Section lists.
Context {A : Type} `{EqDecision A}.

(** [remove_id x l]: [glist_del] of the node [x] of the list [l]. *)
Definition remove_id (x : A) (l : list A) : list A := filter (fun y => y <> x) l.

Lemma elem_of_remove_id x y l : y ∈ remove_id x l <-> y ∈ l /\ y <> x.
Proof. unfold remove_id. rewrite list_elem_of_filter. naive_solver. Qed.

Lemma NoDup_remove_id x l : NoDup l -> NoDup (remove_id x l).
Proof. apply NoDup_filter. Qed.

Lemma remove_id_not_in x l : x ∉ l -> remove_id x l = l.
Proof.
  unfold remove_id. induction l as [|y l IH]; intros Hx; [done|].
  rewrite not_elem_of_cons in Hx. rewrite filter_cons_True by naive_solver.
  f_equal. naive_solver.
Qed.

Lemma remove_id_app x l k : remove_id x (l ++ k) = remove_id x l ++ remove_id x k.
Proof. apply filter_app. Qed.

Lemma remove_id_split x l k :
  NoDup (l ++ x :: k) -> remove_id x (l ++ x :: k) = l ++ k.
Proof.
  intros Hnd. apply NoDup_app in Hnd as (Hl & Hd & Hk). apply NoDup_cons in Hk as [Hx Hk].
  rewrite remove_id_app. rewrite (remove_id_not_in x l).
  2:{ intros Hin. apply (Hd x Hin). left. }
  f_equal. unfold remove_id. rewrite filter_cons_False by naive_solver.
  by apply remove_id_not_in.
Qed.

End lists.

#[export] Hint Resolve NoDup_remove_id : gsh.

(** ** Families of lists

    A structure that holds a [glist] of other structures, for every such structure:
    [list_at k m] is the list of the one at [k]. *)
Definition list_at (k : positive) (m : gmap positive (list positive)) : list positive :=
  default [] (m !! k).
Definition add_tail (k x : positive) (m : gmap positive (list positive)) :=
  <[k := list_at k m ++ [x]]> m.
Definition del_from (k x : positive) (m : gmap positive (list positive)) :=
  <[k := remove_id x (list_at k m)]> m.

Lemma list_at_insert k k' l m : list_at k (<[k' := l]> m) = if decide (k' = k) then l else list_at k m.
Proof. unfold list_at. rewrite lookup_insert. by case_decide. Qed.

(** [glist_del]: the node leaves whichever list of the family it is on. *)
Definition glist_del (x : positive) (m : gmap positive (list positive)) : gmap positive (list positive) :=
  remove_id x <$> m.

Lemma list_at_glist_del k x m : list_at k (glist_del x m) = remove_id x (list_at k m).
Proof. unfold list_at, glist_del. rewrite lookup_fmap. by destruct (m !! k). Qed.

(** ** Threads

    A state of threads maps a thread to its program point; a thread that is not in
    the map is at [idle].  [count_threads P m] is the number of threads at a point
    that satisfies [P]. *)
Section threads.
Local Open Scope Z_scope.
Context {PC : Type} (idle : PC) (P : PC -> bool).

Definition count_threads (m : gmap positive PC) : Z :=
  Z.of_nat (size (filter (fun kv => P kv.2 = true) m)).

Lemma count_threads_nonneg m : 0 <= count_threads m.
Proof. unfold count_threads. lia. Qed.

Lemma count_threads_bound (ts : gset positive) m : dom m ⊆ ts -> count_threads m <= Z.of_nat (size ts).
Proof.
  intros Hd. unfold count_threads. rewrite <- size_dom. apply inj_le, subseteq_size.
  etrans; [apply dom_filter_subseteq|done].
Qed.

Lemma count_threads_insert t pc m :
  P idle = false ->
  count_threads (<[t := pc]> m) = count_threads m - Z.b2z (P (default idle (m !! t))) + Z.b2z (P pc).
Proof.
  intros Hi. unfold count_threads.
  set (Q := fun kv : positive * PC => P kv.2 = true).
  assert (size (filter Q m) = size (filter Q (delete t m)) + Nat.b2n (P (default idle (m !! t))))%nat as Hold.
  { destruct (m !! t) as [q|] eqn:Hq; simpl.
    - rewrite <- (insert_id m t q) at 1 by done. rewrite <- (insert_delete_eq m t q).
      rewrite map_filter_insert. subst Q. simpl. destruct (P q); simpl.
      + rewrite map_size_insert_None; [lia|].
        apply map_lookup_filter_None. left. apply lookup_delete_eq.
      + rewrite delete_delete_eq. lia.
    - rewrite delete_id by done. rewrite Hi. simpl. lia. }
  rewrite map_filter_insert. subst Q. simpl in *. destruct (P pc); simpl.
  - rewrite <- insert_delete_eq, <- map_filter_delete, map_size_insert_None.
    + rewrite Hold. destruct (P (default idle (m !! t))); simpl; lia.
    + apply map_lookup_filter_None. left. apply lookup_delete_eq.
  - rewrite Hold. destruct (P (default idle (m !! t))); simpl; lia.
Qed.

(** A thread at a counted point is counted. *)
Lemma count_threads_pos t m : P idle = false -> P (default idle (m !! t)) = true -> 0 < count_threads m.
Proof.
  intros Hi Ht. pose proof (count_threads_insert t idle m Hi) as H. rewrite Ht, Hi in H. simpl in H.
  pose proof (count_threads_nonneg (<[t := idle]> m)). lia.
Qed.

Lemma count_threads_empty : count_threads ∅ = 0.
Proof. unfold count_threads. by rewrite map_filter_empty, map_size_empty. Qed.

End threads.

(** ** References to an address

    [count_id a l]: how often the address [a] occurs among the holders [l]. *)
Definition count_id (a : positive) (l : list positive) : nat :=
  length (filter (fun b => b = a) l).

Lemma count_id_app a l k : count_id a (l ++ k) = (count_id a l + count_id a k)%nat.
Proof. unfold count_id. by rewrite filter_app, length_app. Qed.

Lemma count_id_0 a l : a ∉ l -> count_id a l = 0%nat.
Proof.
  unfold count_id. induction l as [|b l IH]; [done|]. rewrite not_elem_of_cons. intros [? ?].
  rewrite filter_cons_False by naive_solver. auto.
Qed.

Lemma count_id_cons a b l : count_id a (b :: l) = ((if decide (b = a) then 1 else 0) + count_id a l)%nat.
Proof. unfold count_id. rewrite filter_cons. by case_decide. Qed.

Lemma count_id_pos a l : a ∈ l -> (0 < count_id a l)%nat.
Proof.
  induction l as [|b l IH]; intros Hin; [by apply elem_of_nil in Hin|]. rewrite count_id_cons.
  apply elem_of_cons in Hin as [->|Hin]; [rewrite decide_True by done; lia|]. specialize (IH Hin). lia.
Qed.

Lemma count_id_length a l : (count_id a l <= length l)%nat.
Proof. unfold count_id. apply length_filter. Qed.

Lemma count_id_elem a l : (0 < count_id a l)%nat -> a ∈ l.
Proof. intros Hp. destruct (decide (a ∈ l)) as [|Hn]; [done|]. rewrite (count_id_0 _ _ Hn) in Hp. lia. Qed.

(** One of the occurrences goes. *)
Fixpoint remove_first (a : positive) (l : list positive) : list positive :=
  match l with
  | [] => []
  | b :: l' => if decide (b = a) then l' else b :: remove_first a l'
  end.

Lemma elem_of_remove_first a b l : b ∈ remove_first a l -> b ∈ l.
Proof.
  induction l as [|c l IH]; simpl; [done|]. case_decide; [by right|].
  intros [->|Hb]%elem_of_cons; [by left|right; auto].
Qed.

Lemma count_id_remove_first a l : a ∈ l -> (S (count_id a (remove_first a l)) = count_id a l)%nat.
Proof.
  induction l as [|b l IH]; simpl; intros Hin; [by apply elem_of_nil in Hin|].
  apply elem_of_cons in Hin. case_decide as Hb.
  - by rewrite count_id_cons, decide_True.
  - rewrite !count_id_cons, decide_False by done. destruct Hin; [congruence|auto].
Qed.

Lemma count_id_remove_first_ne a b l : b <> a -> count_id b (remove_first a l) = count_id b l.
Proof.
  intros Hne. induction l as [|c l IH]; simpl; [done|]. rewrite (count_id_cons b c l). case_decide.
  - rewrite decide_False by congruence. done.
  - by rewrite count_id_cons, IH.
Qed.

#[export] Instance count_id_perm a : Proper ((≡ₚ) ==> eq) (count_id a).
Proof. intros l k Hp. unfold count_id. by rewrite Hp. Qed.
