(* ===== verification/Status.v ===== *)
(** * Status codes and their conversions

    The error types of the FSAL, of the state layer, of NFSv3 and of NFSv4, and
    the functions of [SAL/state_misc.c] that translate one into another. *)
From S2P Require Import Prelude.

(** [fsal_errors_t], [include/fsal_types.h]. *)
Inductive fsal_errors_t : Set :=
  | ERR_FSAL_NO_ERROR | ERR_FSAL_PERM | ERR_FSAL_NOENT | ERR_FSAL_IO
  | ERR_FSAL_NXIO | ERR_FSAL_NOMEM | ERR_FSAL_ACCESS | ERR_FSAL_FAULT
  | ERR_FSAL_STILL_IN_USE | ERR_FSAL_EXIST | ERR_FSAL_XDEV | ERR_FSAL_NOTDIR
  | ERR_FSAL_ISDIR | ERR_FSAL_INVAL | ERR_FSAL_FBIG | ERR_FSAL_NOSPC
  | ERR_FSAL_ROFS | ERR_FSAL_MLINK | ERR_FSAL_DQUOT | ERR_FSAL_NO_DATA
  | ERR_FSAL_NAMETOOLONG | ERR_FSAL_NOTEMPTY | ERR_FSAL_STALE
  | ERR_FSAL_BADHANDLE | ERR_FSAL_BADCOOKIE | ERR_FSAL_NOTSUPP
  | ERR_FSAL_TOOSMALL | ERR_FSAL_SERVERFAULT | ERR_FSAL_BADTYPE
  | ERR_FSAL_DELAY | ERR_FSAL_LOCKED | ERR_FSAL_FHEXPIRED
  | ERR_FSAL_SHARE_DENIED | ERR_FSAL_SYMLINK | ERR_FSAL_ATTRNOTSUPP
  | ERR_FSAL_BAD_RANGE | ERR_FSAL_NOT_INIT | ERR_FSAL_ALREADY_INIT
  | ERR_FSAL_BAD_INIT | ERR_FSAL_SEC | ERR_FSAL_NO_QUOTA | ERR_FSAL_NOT_OPENED
  | ERR_FSAL_DEADLOCK | ERR_FSAL_OVERFLOW | ERR_FSAL_INTERRUPT
  | ERR_FSAL_BLOCKED | ERR_FSAL_TIMEOUT | ERR_FSAL_FILE_OPEN
  | ERR_FSAL_UNION_NOTSUPP | ERR_FSAL_IN_GRACE | ERR_FSAL_NO_ACE
  | ERR_FSAL_CROSS_JUNCTION | ERR_FSAL_BADNAME | ERR_FSAL_NOXATTR
  | ERR_FSAL_XATTR2BIG.

(** [state_status_t], [include/gsh_status.h]. *)
Inductive state_status_t : Set :=
  | STATE_SUCCESS | STATE_MALLOC_ERROR | STATE_POOL_MUTEX_INIT_ERROR
  | STATE_GET_NEW_LRU_ENTRY | STATE_INIT_ENTRY_FAILED | STATE_FSAL_ERROR
  | STATE_LRU_ERROR | STATE_HASH_SET_ERROR | STATE_NOT_A_DIRECTORY
  | STATE_INCONSISTENT_ENTRY | STATE_BAD_TYPE | STATE_ENTRY_EXISTS
  | STATE_DIR_NOT_EMPTY | STATE_NOT_FOUND | STATE_INVALID_ARGUMENT
  | STATE_INSERT_ERROR | STATE_HASH_TABLE_ERROR | STATE_FSAL_EACCESS
  | STATE_IS_A_DIRECTORY | STATE_FSAL_EPERM | STATE_NO_SPACE_LEFT
  | STATE_READ_ONLY_FS | STATE_IO_ERROR | STATE_ESTALE | STATE_FSAL_ERR_SEC
  | STATE_LOCKED | STATE_QUOTA_EXCEEDED | STATE_ASYNC_POST_ERROR
  | STATE_NOT_SUPPORTED | STATE_STATE_ERROR | STATE_FSAL_DELAY
  | STATE_NAME_TOO_LONG | STATE_LOCK_CONFLICT | STATE_LOCK_BLOCKED
  | STATE_LOCK_DEADLOCK | STATE_BAD_COOKIE | STATE_FILE_BIG
  | STATE_GRACE_PERIOD | STATE_SIGNAL_ERROR | STATE_FILE_OPEN | STATE_MLINK
  | STATE_SERVERFAULT | STATE_TOOSMALL | STATE_XDEV | STATE_SHARE_DENIED
  | STATE_IN_GRACE | STATE_BADHANDLE | STATE_BAD_RANGE.

(** [nfsstat4], [include/nfsv41.h]. *)
Inductive nfsstat4 : Set :=
  | NFS4_OK | NFS4ERR_PERM | NFS4ERR_NOENT | NFS4ERR_IO | NFS4ERR_NXIO
  | NFS4ERR_ACCESS | NFS4ERR_EXIST | NFS4ERR_XDEV | NFS4ERR_NOTDIR
  | NFS4ERR_ISDIR | NFS4ERR_INVAL | NFS4ERR_FBIG | NFS4ERR_NOSPC | NFS4ERR_ROFS
  | NFS4ERR_MLINK | NFS4ERR_NAMETOOLONG | NFS4ERR_NOTEMPTY | NFS4ERR_DQUOT
  | NFS4ERR_STALE | NFS4ERR_BADHANDLE | NFS4ERR_BAD_COOKIE | NFS4ERR_NOTSUPP
  | NFS4ERR_TOOSMALL | NFS4ERR_SERVERFAULT | NFS4ERR_BADTYPE | NFS4ERR_DELAY
  | NFS4ERR_SAME | NFS4ERR_DENIED | NFS4ERR_EXPIRED | NFS4ERR_LOCKED
  | NFS4ERR_GRACE | NFS4ERR_FHEXPIRED | NFS4ERR_SHARE_DENIED | NFS4ERR_WRONGSEC
  | NFS4ERR_CLID_INUSE | NFS4ERR_RESOURCE | NFS4ERR_MOVED
  | NFS4ERR_NOFILEHANDLE | NFS4ERR_MINOR_VERS_MISMATCH | NFS4ERR_STALE_CLIENTID
  | NFS4ERR_STALE_STATEID | NFS4ERR_OLD_STATEID | NFS4ERR_BAD_STATEID
  | NFS4ERR_BAD_SEQID | NFS4ERR_NOT_SAME | NFS4ERR_LOCK_RANGE | NFS4ERR_SYMLINK
  | NFS4ERR_RESTOREFH | NFS4ERR_LEASE_MOVED | NFS4ERR_ATTRNOTSUPP
  | NFS4ERR_NO_GRACE | NFS4ERR_RECLAIM_BAD | NFS4ERR_RECLAIM_CONFLICT
  | NFS4ERR_BADXDR | NFS4ERR_LOCKS_HELD | NFS4ERR_OPENMODE | NFS4ERR_BADOWNER
  | NFS4ERR_BADCHAR | NFS4ERR_BADNAME | NFS4ERR_BAD_RANGE
  | NFS4ERR_LOCK_NOTSUPP | NFS4ERR_OP_ILLEGAL | NFS4ERR_DEADLOCK
  | NFS4ERR_FILE_OPEN | NFS4ERR_ADMIN_REVOKED | NFS4ERR_CB_PATH_DOWN
  | NFS4ERR_BADIOMODE | NFS4ERR_BADLAYOUT | NFS4ERR_BAD_SESSION_DIGEST
  | NFS4ERR_BADSESSION | NFS4ERR_BADSLOT | NFS4ERR_COMPLETE_ALREADY
  | NFS4ERR_CONN_NOT_BOUND_TO_SESSION | NFS4ERR_DELEG_ALREADY_WANTED
  | NFS4ERR_BACK_CHAN_BUSY | NFS4ERR_LAYOUTTRYLATER | NFS4ERR_LAYOUTUNAVAILABLE
  | NFS4ERR_NOMATCHING_LAYOUT | NFS4ERR_RECALLCONFLICT
  | NFS4ERR_UNKNOWN_LAYOUTTYPE | NFS4ERR_SEQ_MISORDERED | NFS4ERR_SEQUENCE_POS
  | NFS4ERR_REQ_TOO_BIG | NFS4ERR_REP_TOO_BIG | NFS4ERR_REP_TOO_BIG_TO_CACHE
  | NFS4ERR_RETRY_UNCACHED_REP | NFS4ERR_UNSAFE_COMPOUND | NFS4ERR_TOO_MANY_OPS
  | NFS4ERR_OP_NOT_IN_SESSION | NFS4ERR_HASH_ALG_UNSUPP | NFS4ERR_CLIENTID_BUSY
  | NFS4ERR_PNFS_IO_HOLE | NFS4ERR_SEQ_FALSE_RETRY | NFS4ERR_BAD_HIGH_SLOT
  | NFS4ERR_DEADSESSION | NFS4ERR_ENCR_ALG_UNSUPP | NFS4ERR_PNFS_NO_LAYOUT
  | NFS4ERR_NOT_ONLY_OP | NFS4ERR_WRONG_CRED | NFS4ERR_WRONG_TYPE
  | NFS4ERR_DIRDELEG_UNAVAIL | NFS4ERR_REJECT_DELEG | NFS4ERR_RETURNCONFLICT
  | NFS4ERR_DELEG_REVOKED | NFS4ERR_PARTNER_NOTSUPP | NFS4ERR_PARTNER_NO_AUTH
  | NFS4ERR_UNION_NOTSUPP | NFS4ERR_OFFLOAD_DENIED | NFS4ERR_WRONG_LFS
  | NFS4ERR_BADLABEL | NFS4ERR_OFFLOAD_NO_REQS | NFS4ERR_NOXATTR
  | NFS4ERR_XATTR2BIG | NFS4ERR_REPLAY.

(** [nfsstat3], [include/nfs23.h]. *)
Inductive nfsstat3 : Set :=
  | NFS3_OK | NFS3ERR_PERM | NFS3ERR_NOENT | NFS3ERR_IO | NFS3ERR_NXIO
  | NFS3ERR_ACCES | NFS3ERR_EXIST | NFS3ERR_XDEV | NFS3ERR_NODEV
  | NFS3ERR_NOTDIR | NFS3ERR_ISDIR | NFS3ERR_INVAL | NFS3ERR_FBIG
  | NFS3ERR_NOSPC | NFS3ERR_ROFS | NFS3ERR_MLINK | NFS3ERR_NAMETOOLONG
  | NFS3ERR_NOTEMPTY | NFS3ERR_DQUOT | NFS3ERR_STALE | NFS3ERR_REMOTE
  | NFS3ERR_BADHANDLE | NFS3ERR_NOT_SYNC | NFS3ERR_BAD_COOKIE | NFS3ERR_NOTSUPP
  | NFS3ERR_TOOSMALL | NFS3ERR_SERVERFAULT | NFS3ERR_BADTYPE | NFS3ERR_JUKEBOX.

#[export] Instance fsal_errors_t_eq_dec : EqDecision fsal_errors_t.
Proof. solve_decision. Defined.
#[export] Instance state_status_t_eq_dec : EqDecision state_status_t.
Proof. solve_decision. Defined.
#[export] Instance nfsstat4_eq_dec : EqDecision nfsstat4.
Proof. solve_decision. Defined.

(** Converts an FSAL error to the corresponding state error. *)
Definition state_error_convert (major : fsal_errors_t) : state_status_t :=
  match major with
  | ERR_FSAL_NO_ERROR => STATE_SUCCESS
  | ERR_FSAL_NOENT => STATE_NOT_FOUND
  | ERR_FSAL_DELAY | ERR_FSAL_ACCESS => STATE_LOCK_CONFLICT
  | ERR_FSAL_PERM => STATE_FSAL_EPERM
  | ERR_FSAL_NOSPC => STATE_NO_SPACE_LEFT
  | ERR_FSAL_ROFS => STATE_READ_ONLY_FS
  | ERR_FSAL_IO | ERR_FSAL_NXIO => STATE_IO_ERROR
  | ERR_FSAL_STALE | ERR_FSAL_FHEXPIRED => STATE_ESTALE
  | ERR_FSAL_INVAL | ERR_FSAL_OVERFLOW => STATE_INVALID_ARGUMENT
  | ERR_FSAL_SEC => STATE_FSAL_ERR_SEC
  | ERR_FSAL_NOTSUPP | ERR_FSAL_ATTRNOTSUPP | ERR_FSAL_UNION_NOTSUPP => STATE_NOT_SUPPORTED
  | ERR_FSAL_NOMEM => STATE_MALLOC_ERROR
  | ERR_FSAL_DEADLOCK => STATE_LOCK_DEADLOCK
  | ERR_FSAL_BADCOOKIE => STATE_BAD_COOKIE
  | ERR_FSAL_NOT_OPENED => STATE_FSAL_ERROR
  | ERR_FSAL_SYMLINK | ERR_FSAL_BADTYPE => STATE_BAD_TYPE
  | ERR_FSAL_ISDIR => STATE_IS_A_DIRECTORY
  | ERR_FSAL_FBIG => STATE_FILE_BIG
  | ERR_FSAL_FILE_OPEN => STATE_FILE_OPEN
  | ERR_FSAL_SHARE_DENIED => STATE_SHARE_DENIED
  | ERR_FSAL_BLOCKED => STATE_LOCK_BLOCKED
  | ERR_FSAL_IN_GRACE => STATE_IN_GRACE
  | ERR_FSAL_BADHANDLE => STATE_BADHANDLE
  | ERR_FSAL_BAD_RANGE => STATE_BAD_RANGE
  | ERR_FSAL_LOCKED => STATE_LOCKED
  | ERR_FSAL_TOOSMALL => STATE_TOOSMALL
  | ERR_FSAL_DQUOT | ERR_FSAL_NAMETOOLONG | ERR_FSAL_STILL_IN_USE
  | ERR_FSAL_EXIST | ERR_FSAL_NOTEMPTY | ERR_FSAL_NOTDIR
  | ERR_FSAL_INTERRUPT | ERR_FSAL_FAULT | ERR_FSAL_NOT_INIT
  | ERR_FSAL_ALREADY_INIT | ERR_FSAL_BAD_INIT | ERR_FSAL_NO_QUOTA
  | ERR_FSAL_XDEV | ERR_FSAL_MLINK | ERR_FSAL_TIMEOUT
  | ERR_FSAL_SERVERFAULT | ERR_FSAL_NO_DATA | ERR_FSAL_NO_ACE
  | ERR_FSAL_CROSS_JUNCTION | ERR_FSAL_BADNAME | ERR_FSAL_NOXATTR
  | ERR_FSAL_XATTR2BIG => STATE_FSAL_ERROR
  end.

(** Converts a state status to an NFSv4 status. *)
Definition nfs4_Errno_state (error : state_status_t) : nfsstat4 :=
  match error with
  | STATE_SUCCESS => NFS4_OK
  | STATE_MALLOC_ERROR => NFS4ERR_RESOURCE
  | STATE_POOL_MUTEX_INIT_ERROR | STATE_GET_NEW_LRU_ENTRY
  | STATE_INIT_ENTRY_FAILED => NFS4ERR_SERVERFAULT
  | STATE_BAD_TYPE => NFS4ERR_INVAL
  | STATE_NOT_A_DIRECTORY => NFS4ERR_NOTDIR
  | STATE_ENTRY_EXISTS => NFS4ERR_EXIST
  | STATE_DIR_NOT_EMPTY => NFS4ERR_NOTEMPTY
  | STATE_NOT_FOUND => NFS4ERR_NOENT
  | STATE_FSAL_ERROR | STATE_INSERT_ERROR | STATE_LRU_ERROR
  | STATE_HASH_SET_ERROR => NFS4ERR_IO
  | STATE_FSAL_EACCESS => NFS4ERR_ACCESS
  | STATE_FSAL_EPERM | STATE_FSAL_ERR_SEC => NFS4ERR_PERM
  | STATE_NO_SPACE_LEFT => NFS4ERR_NOSPC
  | STATE_IS_A_DIRECTORY => NFS4ERR_ISDIR
  | STATE_READ_ONLY_FS => NFS4ERR_ROFS
  | STATE_IO_ERROR => NFS4ERR_IO
  | STATE_FILE_OPEN => NFS4ERR_FILE_OPEN
  | STATE_NAME_TOO_LONG => NFS4ERR_NAMETOOLONG
  | STATE_ESTALE => NFS4ERR_STALE
  | STATE_SHARE_DENIED => NFS4ERR_SHARE_DENIED
  | STATE_LOCKED => NFS4ERR_LOCKED
  | STATE_QUOTA_EXCEEDED => NFS4ERR_DQUOT
  | STATE_NOT_SUPPORTED => NFS4ERR_NOTSUPP
  | STATE_FSAL_DELAY => NFS4ERR_DELAY
  | STATE_FILE_BIG => NFS4ERR_FBIG
  | STATE_LOCK_DEADLOCK => NFS4ERR_DEADLOCK
  | STATE_LOCK_BLOCKED | STATE_LOCK_CONFLICT => NFS4ERR_DENIED
  | STATE_STATE_ERROR => NFS4ERR_BAD_STATEID
  | STATE_BAD_COOKIE => NFS4ERR_BAD_COOKIE
  | STATE_GRACE_PERIOD => NFS4ERR_GRACE
  | STATE_SERVERFAULT => NFS4ERR_SERVERFAULT
  | STATE_MLINK => NFS4ERR_MLINK
  | STATE_TOOSMALL => NFS4ERR_TOOSMALL
  | STATE_IN_GRACE => NFS4ERR_GRACE
  | STATE_XDEV => NFS4ERR_XDEV
  | STATE_BADHANDLE => NFS4ERR_BADHANDLE
  | STATE_BAD_RANGE => NFS4ERR_BAD_RANGE
  | STATE_INVALID_ARGUMENT | STATE_INCONSISTENT_ENTRY
  | STATE_HASH_TABLE_ERROR | STATE_ASYNC_POST_ERROR | STATE_SIGNAL_ERROR => NFS4ERR_INVAL
  end.

(** Converts a state status to an NFSv3 status. *)
Definition nfs3_Errno_state (error : state_status_t) : nfsstat3 :=
  match error with
  | STATE_SUCCESS => NFS3_OK
  | STATE_MALLOC_ERROR | STATE_POOL_MUTEX_INIT_ERROR
  | STATE_GET_NEW_LRU_ENTRY | STATE_INIT_ENTRY_FAILED
  | STATE_INSERT_ERROR | STATE_LRU_ERROR | STATE_HASH_SET_ERROR
  | STATE_FILE_OPEN => NFS3ERR_IO
  | STATE_INVALID_ARGUMENT => NFS3ERR_INVAL
  | STATE_FSAL_ERROR => NFS3ERR_IO
  | STATE_NOT_A_DIRECTORY => NFS3ERR_NOTDIR
  | STATE_ENTRY_EXISTS => NFS3ERR_EXIST
  | STATE_DIR_NOT_EMPTY => NFS3ERR_NOTEMPTY
  | STATE_NOT_FOUND => NFS3ERR_NOENT
  | STATE_FSAL_EACCESS => NFS3ERR_ACCES
  | STATE_LOCKED | STATE_FSAL_EPERM | STATE_FSAL_ERR_SEC => NFS3ERR_PERM
  | STATE_NO_SPACE_LEFT => NFS3ERR_NOSPC
  | STATE_IS_A_DIRECTORY => NFS3ERR_ISDIR
  | STATE_READ_ONLY_FS => NFS3ERR_ROFS
  | STATE_ESTALE => NFS3ERR_STALE
  | STATE_QUOTA_EXCEEDED => NFS3ERR_DQUOT
  | STATE_BAD_TYPE => NFS3ERR_BADTYPE
  | STATE_NOT_SUPPORTED => NFS3ERR_NOTSUPP
  | STATE_FSAL_DELAY | STATE_SHARE_DENIED => NFS3ERR_JUKEBOX
  | STATE_IO_ERROR => NFS3ERR_IO
  | STATE_NAME_TOO_LONG => NFS3ERR_NAMETOOLONG
  | STATE_FILE_BIG => NFS3ERR_FBIG
  | STATE_BAD_COOKIE => NFS3ERR_BAD_COOKIE
  | STATE_MLINK => NFS3ERR_MLINK
  | STATE_SERVERFAULT => NFS3ERR_SERVERFAULT
  | STATE_TOOSMALL => NFS3ERR_TOOSMALL
  | STATE_XDEV => NFS3ERR_XDEV
  | STATE_IN_GRACE => NFS3ERR_JUKEBOX
  | STATE_BADHANDLE => NFS3ERR_BADHANDLE
  | STATE_INCONSISTENT_ENTRY | STATE_HASH_TABLE_ERROR
  | STATE_ASYNC_POST_ERROR | STATE_STATE_ERROR | STATE_LOCK_CONFLICT
  | STATE_LOCK_BLOCKED | STATE_LOCK_DEADLOCK | STATE_GRACE_PERIOD
  | STATE_SIGNAL_ERROR | STATE_BAD_RANGE => NFS3ERR_INVAL
  end.

Definition state_unlock_err_ok (status : state_status_t) : bool :=
  bool_decide (status = STATE_SUCCESS) || bool_decide (status = STATE_ESTALE).

Lemma state_error_convert_success e : state_error_convert e = STATE_SUCCESS <-> e = ERR_FSAL_NO_ERROR.
Proof. by destruct e. Qed.

(** No error gets lost on its way to the client: the NFSv4 and the NFSv3 status that an FSAL error is
    converted to are OK exactly when the FSAL reported no error. *)
Theorem fsal_errors_reported e :
  (nfs4_Errno_state (state_error_convert e) = NFS4_OK <-> e = ERR_FSAL_NO_ERROR) /\
  (nfs3_Errno_state (state_error_convert e) = NFS3_OK <-> e = ERR_FSAL_NO_ERROR).
Proof. by destruct e. Qed.
