(* ===== verification/Owners.v ===== *)
(** * State owners and their identity

    The owners of locks and opens ([include/sal_data.h]) and the comparison
    functions that decide whether two owner structures stand for the same
    owner: [different_owners] of [SAL/state_misc.c] with the per-protocol
    comparisons it dispatches to. *)
From S2P Require Import Prelude.
Local Open Scope Z_scope.

(** A socket address; the address part of [sockaddr_in6] is its 16 bytes. *)
Inductive sockaddr_t : Set :=
  | sockaddr_in (s_addr sin_port : Z)
  | sockaddr_in6 (s6_addr : list Z) (sin6_port : Z)
  | sockaddr_vm (svm_cid svm_port : Z)
  | sockaddr_other (ss_family : Z).

(** [cmp_sockaddr]: true when the addresses are equal. *)
Definition cmp_sockaddr (addr_1 addr_2 : sockaddr_t) (ignore_port : bool) : bool :=
  match addr_1, addr_2 with
  | sockaddr_in a1 p1, sockaddr_in a2 p2 =>
      (a1 =? a2) && (ignore_port || (p1 =? p2))
  | sockaddr_in6 a1 p1, sockaddr_in6 a2 p2 =>
      bool_decide (a1 = a2) && (ignore_port || (p1 =? p2))
  | sockaddr_vm c1 p1, sockaddr_vm c2 p2 =>
      (c1 =? c2) && (ignore_port || (p1 =? p2))
  | _, _ => false
  end.

(** The structures are at addresses ([positive]); only the fields that identify
    them, which never change while they live, are recorded here. *)
Record state_nsm_client_t : Set := {
  ssc_nlm_caller_name : list Z;
  ssc_client : option positive
}.

Record state_nlm_client_t : Set := {
  slc_nsm_client : positive;
  slc_client_type : Z;
  slc_server_addr : sockaddr_t;
  slc_nlm_caller_name : list Z
}.

Inductive state_owner_type_t : Set :=
  | STATE_LOCK_OWNER_UNKNOWN | STATE_LOCK_OWNER_NLM | STATE_LOCK_OWNER_9P
  | STATE_OPEN_OWNER_NFSV4 | STATE_LOCK_OWNER_NFSV4 | STATE_CLIENTID_OWNER_NFSV4.

#[export] Instance state_owner_type_t_eq_dec : EqDecision state_owner_type_t.
Proof. solve_decision. Defined.

(** The union [so_owner] of [state_owner_t].  [so_clientrec] is represented by
    the [gsh_client] of the client record. *)
Inductive so_owner_u : Set :=
  | so_none
  | so_nlm_owner (so_client : positive) (so_nlm_svid : Z)
  | so_9p_owner (proc_id : Z) (client_addr : sockaddr_t)
  | so_nfs4_owner (so_clientid : Z) (gsh_client : option positive).

Record state_owner_t : Set := {
  so_type : state_owner_type_t;
  so_owner_val : list Z;
  so_owner : so_owner_u
}.

(** The memory the owner pointers point into. *)
Class OwnerMem := {
  owner_at : positive -> state_owner_t;
  nlm_client_at : positive -> state_nlm_client_t;
  nsm_client_at : positive -> state_nsm_client_t;
  unknown_owner : positive   (* &unknown_owner *)
}.

Section compare.
Context `{OwnerMem}.

(** Each comparison is true when the C function returns 0 (equal). *)
Definition compare_nsm_client (client1 client2 : positive) : bool :=
  if decide (client1 = client2) then true
  else bool_decide (ssc_nlm_caller_name (nsm_client_at client1)
                    = ssc_nlm_caller_name (nsm_client_at client2)).

Definition compare_nlm_client (client1 client2 : positive) : bool :=
  if decide (client1 = client2) then true
  else
    let c1 := nlm_client_at client1 in
    let c2 := nlm_client_at client2 in
    compare_nsm_client (slc_nsm_client c1) (slc_nsm_client c2)
    && cmp_sockaddr (slc_server_addr c1) (slc_server_addr c2) true
    && (slc_client_type c1 =? slc_client_type c2)
    && bool_decide (slc_nlm_caller_name c1 = slc_nlm_caller_name c2).

Definition compare_nlm_owner (owner1 owner2 : positive) : bool :=
  if decide (owner1 = owner2) then true
  else
    match so_owner (owner_at owner1), so_owner (owner_at owner2) with
    | so_nlm_owner c1 v1, so_nlm_owner c2 v2 =>
        compare_nlm_client c1 c2 && (v1 =? v2)
        && bool_decide (so_owner_val (owner_at owner1) = so_owner_val (owner_at owner2))
    | _, _ => false
    end.

Definition compare_9p_owner (owner1 owner2 : positive) : bool :=
  if decide (owner1 = owner2) then true
  else
    match so_owner (owner_at owner1), so_owner (owner_at owner2) with
    | so_9p_owner p1 _, so_9p_owner p2 _ => p1 =? p2
    | _, _ => false
    end.

Definition compare_nfs4_owner (owner1 owner2 : positive) : bool :=
  if decide (owner1 = owner2) then true
  else
    bool_decide (so_type (owner_at owner1) = so_type (owner_at owner2))
    && match so_owner (owner_at owner1), so_owner (owner_at owner2) with
       | so_nfs4_owner c1 _, so_nfs4_owner c2 _ =>
           (c1 =? c2)
           && bool_decide (so_owner_val (owner_at owner1) = so_owner_val (owner_at owner2))
       | _, _ => false
       end.

(** [different_owners]; a NULL owner is [None]. *)
Definition different_owners (owner1 owner2 : option positive) : bool :=
  match owner1, owner2 with
  | Some o1, Some o2 =>
      if decide (o1 = o2) then false
      else if decide (so_type (owner_at o1) <> so_type (owner_at o2)) then true
      else
        match so_type (owner_at o1) with
        | STATE_LOCK_OWNER_NLM => negb (compare_nlm_owner o1 o2)
        | STATE_LOCK_OWNER_9P => negb (compare_9p_owner o1 o2)
        | STATE_OPEN_OWNER_NFSV4 | STATE_LOCK_OWNER_NFSV4
        | STATE_CLIENTID_OWNER_NFSV4 => negb (compare_nfs4_owner o1 o2)
        | STATE_LOCK_OWNER_UNKNOWN => true
        end
  | _, _ => true
  end.

(** ** Identity of owners is a partial equivalence *)

Definition same_owner (o1 o2 : option positive) : Prop := different_owners o1 o2 = false.

#[export] Instance same_owner_dec o1 o2 : Decision (same_owner o1 o2).
Proof. unfold same_owner. apply _. Defined.

End compare.

(** Splits a conjunction of decided comparisons into its facts. *)
Ltac split_cmp :=
  repeat match goal with
  | H : negb _ = false |- _ => apply negb_false_iff in H
  | H : (_ && _) = true |- _ => apply andb_true_iff in H as [? ?]
  | H : (_ =? _) = true |- _ => apply Z.eqb_eq in H
  | H : bool_decide _ = true |- _ => apply bool_decide_eq_true in H
  | H : context [decide ?P] |- _ => destruct (decide P); try done
  end.

Ltac solve_cmp :=
  rewrite ?andb_true_iff; repeat split;
  first [done | apply Z.eqb_eq; congruence | apply bool_decide_eq_true; congruence].

(** [bool_decide] of an equality and of its converse agree. *)
Ltac sym_decide := solve [apply bool_decide_ext; split; congruence].

(** The pointer shortcuts of a comparison of [a] with [c] through [b]. *)
Ltac ptr_cases a b c :=
  destruct (decide (a = c)); [done|];
  destruct (decide (a = b)); [subst; by destruct (decide (b = c))|];
  destruct (decide (b = c)); [subst; done|].

Section identity.
Context `{OwnerMem}.

Lemma cmp_sockaddr_sym a b p : cmp_sockaddr a b p = cmp_sockaddr b a p.
Proof.
  destruct a, b; simpl; try done; f_equal;
    try (f_equal; apply Z.eqb_sym); try apply Z.eqb_sym.
  sym_decide.
Qed.

Lemma cmp_sockaddr_trans a b c :
  cmp_sockaddr a b true = true -> cmp_sockaddr b c true = true -> cmp_sockaddr a c true = true.
Proof. destruct a, b, c; simpl; try done; intros; split_cmp; solve_cmp. Qed.

Lemma compare_nsm_client_trans a b c :
  compare_nsm_client a b = true -> compare_nsm_client b c = true ->
  compare_nsm_client a c = true.
Proof.
  unfold compare_nsm_client. intros Hab Hbc. ptr_cases a b c.
  split_cmp; solve_cmp.
Qed.

Lemma compare_nsm_client_sym a b : compare_nsm_client a b = compare_nsm_client b a.
Proof.
  unfold compare_nsm_client.
  destruct (decide (a = b)), (decide (b = a)); try congruence. sym_decide.
Qed.

Lemma compare_nlm_client_sym a b : compare_nlm_client a b = compare_nlm_client b a.
Proof.
  unfold compare_nlm_client.
  destruct (decide (a = b)), (decide (b = a)); try congruence.
  rewrite compare_nsm_client_sym, cmp_sockaddr_sym, Z.eqb_sym.
  f_equal. sym_decide.
Qed.

Lemma compare_nlm_client_trans a b c :
  compare_nlm_client a b = true -> compare_nlm_client b c = true ->
  compare_nlm_client a c = true.
Proof.
  unfold compare_nlm_client. intros Hab Hbc. ptr_cases a b c.
  split_cmp.
  rewrite (compare_nsm_client_trans _ (slc_nsm_client (nlm_client_at b))) by done.
  rewrite (cmp_sockaddr_trans _ (slc_server_addr (nlm_client_at b))) by done.
  solve_cmp.
Qed.

Lemma compare_nlm_owner_sym a b : compare_nlm_owner a b = compare_nlm_owner b a.
Proof.
  unfold compare_nlm_owner.
  destruct (decide (a = b)), (decide (b = a)); try congruence.
  destruct (so_owner (owner_at a)), (so_owner (owner_at b)); try done.
  rewrite compare_nlm_client_sym, Z.eqb_sym. f_equal. sym_decide.
Qed.

Lemma compare_nlm_owner_trans a b c :
  compare_nlm_owner a b = true -> compare_nlm_owner b c = true -> compare_nlm_owner a c = true.
Proof.
  unfold compare_nlm_owner. intros Hab Hbc. ptr_cases a b c.
  destruct (so_owner (owner_at a)), (so_owner (owner_at b)), (so_owner (owner_at c));
    try done; split_cmp.
  erewrite compare_nlm_client_trans by done. solve_cmp.
Qed.

Lemma compare_9p_owner_sym a b : compare_9p_owner a b = compare_9p_owner b a.
Proof.
  unfold compare_9p_owner.
  destruct (decide (a = b)), (decide (b = a)); try congruence.
  destruct (so_owner (owner_at a)), (so_owner (owner_at b)); try done. apply Z.eqb_sym.
Qed.

Lemma compare_9p_owner_trans a b c :
  compare_9p_owner a b = true -> compare_9p_owner b c = true -> compare_9p_owner a c = true.
Proof.
  unfold compare_9p_owner. intros Hab Hbc. ptr_cases a b c.
  destruct (so_owner (owner_at a)), (so_owner (owner_at b)), (so_owner (owner_at c));
    try done; split_cmp; solve_cmp.
Qed.

Lemma compare_nfs4_owner_sym a b : compare_nfs4_owner a b = compare_nfs4_owner b a.
Proof.
  unfold compare_nfs4_owner.
  destruct (decide (a = b)), (decide (b = a)); try congruence.
  f_equal; [sym_decide|].
  destruct (so_owner (owner_at a)), (so_owner (owner_at b)); try done.
  rewrite Z.eqb_sym. f_equal. sym_decide.
Qed.

Lemma compare_nfs4_owner_trans a b c :
  compare_nfs4_owner a b = true -> compare_nfs4_owner b c = true -> compare_nfs4_owner a c = true.
Proof.
  unfold compare_nfs4_owner. intros Hab Hbc. ptr_cases a b c.
  split_cmp.
  destruct (so_owner (owner_at a)), (so_owner (owner_at b)), (so_owner (owner_at c));
    try done; split_cmp; solve_cmp.
Qed.

Lemma same_owner_refl o : same_owner (Some o) (Some o).
Proof. unfold same_owner, different_owners. by case_decide. Qed.

Lemma same_owner_Some o1 o2 :
  same_owner (Some o1) (Some o2) <->
  o1 = o2 \/ so_type (owner_at o1) = so_type (owner_at o2) /\
    match so_type (owner_at o1) with
    | STATE_LOCK_OWNER_NLM => compare_nlm_owner o1 o2 = true
    | STATE_LOCK_OWNER_9P => compare_9p_owner o1 o2 = true
    | STATE_LOCK_OWNER_UNKNOWN => False
    | _ => compare_nfs4_owner o1 o2 = true
    end.
Proof.
  unfold same_owner, different_owners. repeat case_decide; [naive_solver..|].
  assert (so_type (owner_at o1) = so_type (owner_at o2)) as Heq.
  { destruct (decide (so_type (owner_at o1) = so_type (owner_at o2))); naive_solver. }
  rewrite Heq. destruct (so_type (owner_at o2)); rewrite ?negb_false_iff; naive_solver.
Qed.

Lemma same_owner_sym o1 o2 : same_owner o1 o2 -> same_owner o2 o1.
Proof.
  destruct o1 as [a|], o2 as [b|]; try done. rewrite !same_owner_Some.
  intros [->|[Heq Hc]]; [by left|]. right. split; [done|].
  rewrite <- Heq. destruct (so_type (owner_at a)); try done;
    by rewrite ?(compare_nlm_owner_sym b), ?(compare_9p_owner_sym b), ?(compare_nfs4_owner_sym b).
Qed.

Lemma same_owner_trans o1 o2 o3 :
  same_owner o1 o2 -> same_owner o2 o3 -> same_owner o1 o3.
Proof.
  destruct o1 as [a|], o2 as [b|], o3 as [c|]; try done. rewrite !same_owner_Some.
  intros [->|[Hab H1]]; [done|]. intros [->|[Hbc H2]]; [by right|].
  right. split; [congruence|]. rewrite <- Hab in H2.
  destruct (so_type (owner_at a));
    eauto using compare_nlm_owner_trans, compare_9p_owner_trans, compare_nfs4_owner_trans.
Qed.

Lemma different_owners_true o1 o2 : different_owners o1 o2 = true <-> ~ same_owner o1 o2.
Proof. unfold same_owner. destruct (different_owners o1 o2); naive_solver. Qed.

Lemma same_owner_is_Some o1 o2 : same_owner o1 o2 -> is_Some o1 /\ is_Some o2.
Proof. destruct o1, o2; try done; eauto. Qed.

(** Ownership of locks and shares is an equivalence: an owner is not different from itself, the
    comparison does not depend on the order, and owners that are not different from a third one are not
    different from each other; no owner is the same as none. *)
Theorem different_owners_equivalence :
  (forall o, different_owners (Some o) (Some o) = false) /\
  (forall o1 o2, different_owners o1 o2 = different_owners o2 o1) /\
  (forall o1 o2 o3, different_owners o1 o2 = false -> different_owners o2 o3 = false ->
     different_owners o1 o3 = false) /\
  (forall o, different_owners None o = true).
Proof.
  split_and!.
  - apply same_owner_refl.
  - intros o1 o2. apply eq_true_iff_eq. rewrite !different_owners_true. split; intros Hn Hs; by apply Hn, same_owner_sym.
  - apply same_owner_trans.
  - intros o. apply different_owners_true. intros [[? [=]] _]%same_owner_is_Some.
Qed.

End identity.

#[export] Hint Resolve same_owner_refl same_owner_sym same_owner_trans : gsh.
