(* ===== verification/LockTable.v ===== *)
(** * The byte-range lock table

    Lock descriptors, lock entries, the lists they are linked on and the list
    algorithms of [SAL/state_lock.c]: conflict search, merging of a new lock
    into the locks its owner already has, and subtraction of an unlocked range.

    Lock entries are heap objects that several lists and pointers share, so the
    model keeps a heap from addresses to entries and represents a [glist] by the
    list of the addresses linked on it. *)
From S2P Require Import Prelude Owners.
Local Open Scope Z_scope.

(** ** Data *)

Inductive fsal_lock_t : Set := FSAL_LOCK_R | FSAL_LOCK_W | FSAL_NO_LOCK.
Inductive fsal_sle_type : Set := FSAL_POSIX_LOCK | FSAL_LEASE_LOCK.

Record fsal_lock_param_t : Set := {
  lock_sle_type : fsal_sle_type;
  lock_type : fsal_lock_t;
  lock_start : Z;
  lock_length : Z;
  lock_reclaim : bool
}.

Inductive state_blocking_t : Set :=
  | STATE_NON_BLOCKING | STATE_NLM_BLOCKING | STATE_NFSV4_BLOCKING
  | STATE_GRANTING | STATE_CANCELED.

Inductive state_grant_type_t : Set :=
  | STATE_GRANT_NONE | STATE_GRANT_INTERNAL | STATE_GRANT_FSAL
  | STATE_GRANT_FSAL_AVAILABLE | STATE_GRANT_POLL.

Inductive state_block_type_t : Set :=
  | STATE_BLOCK_NONE | STATE_BLOCK_INTERNAL | STATE_BLOCK_ASYNC | STATE_BLOCK_POLL.

#[export] Instance fsal_lock_t_eq_dec : EqDecision fsal_lock_t.
Proof. solve_decision. Defined.
#[export] Instance fsal_sle_type_eq_dec : EqDecision fsal_sle_type.
Proof. solve_decision. Defined.
#[export] Instance fsal_lock_param_t_eq_dec : EqDecision fsal_lock_param_t.
Proof. solve_decision. Defined.
#[export] Instance state_blocking_t_eq_dec : EqDecision state_blocking_t.
Proof. solve_decision. Defined.
#[export] Instance state_grant_type_t_eq_dec : EqDecision state_grant_type_t.
Proof. solve_decision. Defined.
#[export] Instance state_block_type_t_eq_dec : EqDecision state_block_type_t.
Proof. solve_decision. Defined.

(** [state_block_data_t]: [sbd_lock_entry] is the address of the entry the data
    is attached to, [sbd_granted_callback] is always [nlm_granted_callback]
    (the only callback the sources install). *)
Record state_block_data_t : Set := {
  sbd_grant_type : state_grant_type_t;
  sbd_block_type : state_block_type_t;
  sbd_blocked_cookie : option positive
}.

Record state_lock_entry_t : Set := {
  sle_export : positive;
  sle_obj : positive;
  sle_block_data : option state_block_data_t;
  sle_owner : option positive;
  sle_state : option positive;
  sle_blocked : state_blocking_t;
  sle_ref_count : Z;
  sle_lock : fsal_lock_param_t
}.

(** [state_cookie_entry_t]; the cookie is the words of [struct granted_cookie]. *)
Record state_cookie_entry_t : Set := {
  sce_obj : positive;
  sce_lock_entry : positive;
  sce_cookie : list Z
}.

(** Structures other than lock entries that hold a list of lock entries or a
    reference count this code updates. *)
Inductive bkey : Set :=
  | K_owner (o : positive) | K_export (e : positive) | K_state (s : positive)
  | K_nsm (c : positive) | K_nlm (c : positive) | K_obj (f : positive).

#[export] Instance bkey_eq_dec : EqDecision bkey.
Proof. solve_decision. Defined.
#[export] Instance bkey_countable : Countable bkey.
Proof.
  refine (inj_countable'
    (fun k => match k with
      | K_owner o => (0%nat, o) | K_export o => (1%nat, o) | K_state o => (2%nat, o)
      | K_nsm o => (3%nat, o) | K_obj o => (4%nat, o) | K_nlm o => (5%nat, o) end)
    (fun p => match p with
      | (0%nat, o) => K_owner o | (1%nat, o) => K_export o | (2%nat, o) => K_state o
      | (3%nat, o) => K_nsm o | (4%nat, o) => K_obj o | (_, o) => K_nlm o end) _).
  by intros [].
Defined.

(** The state the lock code works on.  [F] is the state of the FSAL. *)
Record lock_world (F : Type) := {
  w_heap : gmap positive state_lock_entry_t;      (* live lock entries *)
  w_files : gmap positive (list positive);        (* state_hdl->file.lock_list *)
  w_blocked : list positive;                      (* state_blocked_locks *)
  w_cookies : gmap positive state_cookie_entry_t; (* live cookie entries *)
  w_ht : gmap (list Z) positive;                  (* ht_lock_cookies *)
  w_sched : list positive;                        (* queued state_block_schedule *)
  w_next : positive;                              (* next address to allocate *)
  w_gc_cookie : Z;                                (* granted_cookie.gc_cookie *)
  w_lists : gmap bkey (list positive);            (* owner/export/state/client lists *)
  w_refs : gmap bkey Z;                           (* their reference counts *)
  w_fsal : F
}.
Arguments w_heap {F} _.
Arguments w_files {F} _.
Arguments w_blocked {F} _.
Arguments w_cookies {F} _.
Arguments w_ht {F} _.
Arguments w_sched {F} _.
Arguments w_next {F} _.
Arguments w_gc_cookie {F} _.
Arguments w_lists {F} _.
Arguments w_refs {F} _.
Arguments w_fsal {F} _.

(** ** Lock descriptors *)

(** The last byte of a lock; a length of 0 means "to the end of the file". *)
Definition lock_end (lock : fsal_lock_param_t) : Z :=
  if lock_length lock =? 0 then UINT64_MAX
  else u64 (lock_start lock + lock_length lock - 1).

Definition different_lock (lock1 lock2 : fsal_lock_param_t) : bool :=
  bool_decide (lock_type lock1 <> lock_type lock2)
  || negb (lock_start lock1 =? lock_start lock2)
  || negb (lock_length lock1 =? lock_length lock2).

Definition set_range (start length : Z) (l : fsal_lock_param_t) : fsal_lock_param_t :=
  {| lock_sle_type := lock_sle_type l; lock_type := lock_type l;
     lock_start := start; lock_length := length; lock_reclaim := lock_reclaim l |}.

Definition set_sle_type (t : fsal_sle_type) (l : fsal_lock_param_t) : fsal_lock_param_t :=
  {| lock_sle_type := t; lock_type := lock_type l; lock_start := lock_start l;
     lock_length := lock_length l; lock_reclaim := lock_reclaim l |}.

(** ** Field updates *)

Definition set_lock (l : fsal_lock_param_t) (e : state_lock_entry_t) : state_lock_entry_t :=
  {| sle_export := sle_export e; sle_obj := sle_obj e; sle_block_data := sle_block_data e;
     sle_owner := sle_owner e; sle_state := sle_state e; sle_blocked := sle_blocked e;
     sle_ref_count := sle_ref_count e; sle_lock := l |}.
Definition set_blocked (b : state_blocking_t) (e : state_lock_entry_t) : state_lock_entry_t :=
  {| sle_export := sle_export e; sle_obj := sle_obj e; sle_block_data := sle_block_data e;
     sle_owner := sle_owner e; sle_state := sle_state e; sle_blocked := b;
     sle_ref_count := sle_ref_count e; sle_lock := sle_lock e |}.
Definition set_owner (o : option positive) (e : state_lock_entry_t) : state_lock_entry_t :=
  {| sle_export := sle_export e; sle_obj := sle_obj e; sle_block_data := sle_block_data e;
     sle_owner := o; sle_state := sle_state e; sle_blocked := sle_blocked e;
     sle_ref_count := sle_ref_count e; sle_lock := sle_lock e |}.
Definition set_state (s : option positive) (e : state_lock_entry_t) : state_lock_entry_t :=
  {| sle_export := sle_export e; sle_obj := sle_obj e; sle_block_data := sle_block_data e;
     sle_owner := sle_owner e; sle_state := s; sle_blocked := sle_blocked e;
     sle_ref_count := sle_ref_count e; sle_lock := sle_lock e |}.
Definition set_refcount (n : Z) (e : state_lock_entry_t) : state_lock_entry_t :=
  {| sle_export := sle_export e; sle_obj := sle_obj e; sle_block_data := sle_block_data e;
     sle_owner := sle_owner e; sle_state := sle_state e; sle_blocked := sle_blocked e;
     sle_ref_count := n; sle_lock := sle_lock e |}.
Definition set_block_data (d : option state_block_data_t) (e : state_lock_entry_t) :
    state_lock_entry_t :=
  {| sle_export := sle_export e; sle_obj := sle_obj e; sle_block_data := d;
     sle_owner := sle_owner e; sle_state := sle_state e; sle_blocked := sle_blocked e;
     sle_ref_count := sle_ref_count e; sle_lock := sle_lock e |}.

Section fields.
Context {F : Type}.
Implicit Types w : lock_world F.

Definition upd_heap (f : gmap positive state_lock_entry_t -> gmap positive state_lock_entry_t) w :=
  {| w_heap := f (w_heap w); w_files := w_files w; w_blocked := w_blocked w;
     w_cookies := w_cookies w; w_ht := w_ht w; w_sched := w_sched w; w_next := w_next w;
     w_gc_cookie := w_gc_cookie w; w_lists := w_lists w; w_refs := w_refs w; w_fsal := w_fsal w |}.
Definition upd_files (f : gmap positive (list positive) -> gmap positive (list positive)) w :=
  {| w_heap := w_heap w; w_files := f (w_files w); w_blocked := w_blocked w;
     w_cookies := w_cookies w; w_ht := w_ht w; w_sched := w_sched w; w_next := w_next w;
     w_gc_cookie := w_gc_cookie w; w_lists := w_lists w; w_refs := w_refs w; w_fsal := w_fsal w |}.
Definition upd_blocked (f : list positive -> list positive) w :=
  {| w_heap := w_heap w; w_files := w_files w; w_blocked := f (w_blocked w);
     w_cookies := w_cookies w; w_ht := w_ht w; w_sched := w_sched w; w_next := w_next w;
     w_gc_cookie := w_gc_cookie w; w_lists := w_lists w; w_refs := w_refs w; w_fsal := w_fsal w |}.
Definition upd_cookies (f : gmap positive state_cookie_entry_t -> gmap positive state_cookie_entry_t) w :=
  {| w_heap := w_heap w; w_files := w_files w; w_blocked := w_blocked w;
     w_cookies := f (w_cookies w); w_ht := w_ht w; w_sched := w_sched w; w_next := w_next w;
     w_gc_cookie := w_gc_cookie w; w_lists := w_lists w; w_refs := w_refs w; w_fsal := w_fsal w |}.
Definition upd_ht (f : gmap (list Z) positive -> gmap (list Z) positive) w :=
  {| w_heap := w_heap w; w_files := w_files w; w_blocked := w_blocked w;
     w_cookies := w_cookies w; w_ht := f (w_ht w); w_sched := w_sched w; w_next := w_next w;
     w_gc_cookie := w_gc_cookie w; w_lists := w_lists w; w_refs := w_refs w; w_fsal := w_fsal w |}.
Definition upd_sched (f : list positive -> list positive) w :=
  {| w_heap := w_heap w; w_files := w_files w; w_blocked := w_blocked w;
     w_cookies := w_cookies w; w_ht := w_ht w; w_sched := f (w_sched w); w_next := w_next w;
     w_gc_cookie := w_gc_cookie w; w_lists := w_lists w; w_refs := w_refs w; w_fsal := w_fsal w |}.
Definition set_next (n : positive) w :=
  {| w_heap := w_heap w; w_files := w_files w; w_blocked := w_blocked w;
     w_cookies := w_cookies w; w_ht := w_ht w; w_sched := w_sched w; w_next := n;
     w_gc_cookie := w_gc_cookie w; w_lists := w_lists w; w_refs := w_refs w; w_fsal := w_fsal w |}.
Definition set_gc_cookie (n : Z) w :=
  {| w_heap := w_heap w; w_files := w_files w; w_blocked := w_blocked w;
     w_cookies := w_cookies w; w_ht := w_ht w; w_sched := w_sched w; w_next := w_next w;
     w_gc_cookie := n; w_lists := w_lists w; w_refs := w_refs w; w_fsal := w_fsal w |}.
Definition upd_lists (f : gmap bkey (list positive) -> gmap bkey (list positive)) w :=
  {| w_heap := w_heap w; w_files := w_files w; w_blocked := w_blocked w;
     w_cookies := w_cookies w; w_ht := w_ht w; w_sched := w_sched w; w_next := w_next w;
     w_gc_cookie := w_gc_cookie w; w_lists := f (w_lists w); w_refs := w_refs w; w_fsal := w_fsal w |}.
Definition upd_refs (f : gmap bkey Z -> gmap bkey Z) w :=
  {| w_heap := w_heap w; w_files := w_files w; w_blocked := w_blocked w;
     w_cookies := w_cookies w; w_ht := w_ht w; w_sched := w_sched w; w_next := w_next w;
     w_gc_cookie := w_gc_cookie w; w_lists := w_lists w; w_refs := f (w_refs w); w_fsal := w_fsal w |}.
Definition set_fsal (s : F) w :=
  {| w_heap := w_heap w; w_files := w_files w; w_blocked := w_blocked w;
     w_cookies := w_cookies w; w_ht := w_ht w; w_sched := w_sched w; w_next := w_next w;
     w_gc_cookie := w_gc_cookie w; w_lists := w_lists w; w_refs := w_refs w; w_fsal := s |}.

(** [obj->state_hdl->file.lock_list]. *)
Definition lock_list (obj : positive) w : list positive := default [] (w_files w !! obj).

(** Reading and writing the entry at an address; a freed address is undefined
    behaviour. *)
Definition get_entry (a : positive) : M (lock_world F) state_lock_entry_t :=
  o ← gets (fun w => w_heap w !! a); deref o.
Definition put_entry (a : positive) (e : state_lock_entry_t) : M (lock_world F) unit :=
  modify (upd_heap <[a := e]>).
Definition upd_entry (a : positive) (f : state_lock_entry_t -> state_lock_entry_t) :
    M (lock_world F) unit :=
  e ← get_entry a; put_entry a (f e).

Definition file_add_tail (obj a : positive) : M (lock_world F) unit :=
  modify (fun w => upd_files <[obj := lock_list obj w ++ [a]]> w).
Definition file_del (obj a : positive) : M (lock_world F) unit :=
  modify (fun w => upd_files <[obj := remove_id a (lock_list obj w)]> w).

Definition bk_add_tail (k : bkey) (a : positive) : M (lock_world F) unit :=
  modify (upd_lists (fun m => <[k := default [] (m !! k) ++ [a]]> m)).
Definition bk_del (k : bkey) (a : positive) : M (lock_world F) unit :=
  modify (upd_lists (fun m => <[k := remove_id a (default [] (m !! k))]> m)).
Definition bk_ref (k : bkey) (d : Z) : M (lock_world F) unit :=
  modify (upd_refs (fun m => <[k := default 0 (m !! k) + d]> m)).

End fields.

(** ** Walking a list

    [glist_for_each_safe]: the successor of a node is read before the loop body
    runs on the node, so that the body may unlink the node itself; nodes the
    body appends behind a successor already read are visited, nodes appended
    after the last node was reached are not.  The body gets and returns the loop
    variables [S] and says whether to [break].  Fuel is the number of nodes
    visited at most. *)
Fixpoint next_of (a : positive) (l : list positive) : option (option positive) :=
  match l with
  | [] => None
  | b :: l' => if decide (a = b) then Some (head l') else next_of a l'
  end.

Section walk.
Context {W S : Type}.

Fixpoint for_each_safe (fuel : nat) (get : W -> list positive)
    (body : positive -> S -> M W (S * bool)) (node : option positive) (s : S) : M W S :=
  match node with
  | None => mret s
  | Some a =>
      match fuel with
      | O => undef
      | Datatypes.S fuel' =>
          l ← gets get;
          noden ← deref (next_of a l);
          '(s', brk) ← body a s;
          if (brk : bool) then mret s' else for_each_safe fuel' get body noden s'
      end
  end.

(** Two visits per node are enough for every loop of this file: the loops that
    append at all append at most one node per node originally present. *)
Definition glist_for_each_safe (get : W -> list positive)
    (body : positive -> S -> M W (S * bool)) (s : S) : M W S :=
  l ← gets get; for_each_safe (2 * length l + 1) get body (head l) s.

End walk.

(** A loop body without loop variables that never breaks. *)
Definition plain {W} (body : positive -> M W unit) : positive -> unit -> M W (unit * bool) :=
  fun a _ => body a;; mret (tt, false).

(** ** Lock entries *)

Section entries.
Context `{OwnerMem} {F : Type}.
Abbreviation LM := (M (lock_world F)).

(** The NSM client whose lock list an owner's locks are also linked on. *)
Definition owner_nsm (o : positive) : option positive :=
  match so_type (owner_at o), so_owner (owner_at o) with
  | STATE_LOCK_OWNER_NLM, so_nlm_owner c _ => Some (slc_nsm_client (nlm_client_at c))
  | _, _ => None
  end.

Definition alloc : LM positive :=
  a ← gets w_next; modify (set_next (Pos.succ a));; mret a.

Definition create_state_lock_entry (obj export : positive) (blocked : state_blocking_t)
    (owner : positive) (state : option positive) (lock : fsal_lock_param_t) : LM positive :=
  new_entry ← alloc;
  put_entry new_entry
    {| sle_export := export; sle_obj := obj; sle_block_data := None;
       sle_owner := Some owner; sle_state := state; sle_blocked := blocked;
       sle_ref_count := 1; sle_lock := lock |};;
  match owner_nsm owner with
  | Some nsm => bk_ref (K_nsm nsm) 1;; bk_add_tail (K_nsm nsm) new_entry
  | None => mret tt
  end;;
  bk_add_tail (K_export export) new_entry;;
  bk_ref (K_export export) 1;;
  bk_ref (K_obj obj) 1;;
  bk_ref (K_owner owner) 1;;
  match state with
  | Some s => bk_add_tail (K_state s) new_entry;; bk_ref (K_state s) 1
  | None => mret tt
  end;;
  bk_add_tail (K_owner owner) new_entry;;
  mret new_entry.

Definition state_lock_entry_t_dup (orig_entry : positive) : LM positive :=
  e ← get_entry orig_entry;
  owner ← deref (sle_owner e);
  create_state_lock_entry (sle_obj e) (sle_export e) (sle_blocked e) owner
    (sle_state e) (sle_lock e).

Definition lock_entry_inc_ref (a : positive) : LM unit :=
  upd_entry a (fun e => set_refcount (sle_ref_count e + 1) e).

Definition lock_entry_dec_ref (a : positive) : LM unit :=
  e ← get_entry a;
  let refcount := sle_ref_count e - 1 in
  if refcount <? 0 then undef (* assert *)
  else if refcount =? 0 then
    mwhen (bool_decide (is_Some (sle_block_data e))) (modify (upd_blocked (remove_id a)));;
    bk_ref (K_obj (sle_obj e)) (-1);;
    bk_ref (K_export (sle_export e)) (-1);;
    modify (upd_heap (delete a))
  else put_entry a (set_refcount refcount e).

Definition remove_from_locklist (a : positive) : LM unit :=
  e ← get_entry a;
  match sle_owner e with
  | Some owner =>
      match owner_nsm owner with
      | Some nsm => bk_del (K_nsm nsm) a;; bk_ref (K_nsm nsm) (-1)
      | None => mret tt
      end;;
      bk_del (K_export (sle_export e)) a;;
      match sle_state e with Some s => bk_del (K_state s) a | None => mret tt end;;
      bk_del (K_owner owner) a;;
      bk_ref (K_owner owner) (-1);;
      match sle_state e with Some s => bk_ref (K_state s) (-1) | None => mret tt end
  | None => mret tt
  end;;
  mwhen (bool_decide (sle_blocked e <> STATE_NON_BLOCKING)
         && bool_decide (sle_blocked e <> STATE_CANCELED))
    (upd_entry a (set_blocked STATE_CANCELED));;
  upd_entry a (set_owner None);;
  file_del (sle_obj e) a;;
  lock_entry_dec_ref a.

(** ** List algorithms *)

Definition ranges_overlap (e : state_lock_entry_t) (lock : fsal_lock_param_t) : bool :=
  (lock_start lock <=? lock_end (sle_lock e))
  && (lock_start (sle_lock e) <=? lock_end lock).

Definition types_conflict (t1 t2 : fsal_lock_t) : bool :=
  bool_decide (t1 = FSAL_LOCK_W) || bool_decide (t2 = FSAL_LOCK_W).

(** The loop of [get_overlapping_entry] from a node on. *)
Fixpoint overlapping_from (l : list positive) (owner : option positive)
    (lock : fsal_lock_param_t) : LM (option positive) :=
  match l with
  | [] => mret None
  | a :: l' =>
      found_entry ← get_entry a;
      match sle_blocked found_entry with
      | STATE_NLM_BLOCKING | STATE_NFSV4_BLOCKING | STATE_CANCELED =>
          overlapping_from l' owner lock
      | _ =>
          if ranges_overlap found_entry lock
             && types_conflict (lock_type (sle_lock found_entry)) (lock_type lock)
             && different_owners (sle_owner found_entry) owner
          then mret (Some a)
          else overlapping_from l' owner lock
      end
  end.

Definition get_overlapping_entry (obj : positive) (owner : option positive)
    (lock : fsal_lock_param_t) : LM (option positive) :=
  l ← gets (lock_list obj); overlapping_from l owner lock.

(** The body of the loop of [merge_lock_entry]. *)
Definition merge_step (obj lock_entry check_entry : positive) : LM unit :=
  if decide (check_entry = lock_entry) then mret tt else
  ce ← get_entry check_entry;
  le ← get_entry lock_entry;
  if different_owners (sle_owner ce) (sle_owner le) then mret tt else
  if decide (sle_blocked ce <> STATE_NON_BLOCKING) then mret tt else
  let check_entry_end := lock_end (sle_lock ce) in
  let lock_entry_end := lock_end (sle_lock le) in
  if u64 (check_entry_end + 1) <? lock_start (sle_lock le) then mret tt else
  if u64 (lock_entry_end + 1) <? lock_start (sle_lock ce) then mret tt else
  if bool_decide (lock_type (sle_lock ce) <> lock_type (sle_lock le))
     && ((lock_entry_end <? check_entry_end)
         || (lock_start (sle_lock ce) <? lock_start (sle_lock le)))
  then
    check_entry_right ←
      (if (lock_entry_end <? check_entry_end)
          && (lock_start (sle_lock ce) <? lock_start (sle_lock le))
       then r ← state_lock_entry_t_dup check_entry; file_add_tail obj r;; mret r
       else mret check_entry);
    mwhen (lock_entry_end <? check_entry_end)
      (upd_entry check_entry_right (fun e =>
         set_lock (set_range (u64 (lock_entry_end + 1))
                     (u64 (check_entry_end - lock_entry_end)) (sle_lock e)) e));;
    ce' ← get_entry check_entry;
    mwhen (lock_start (sle_lock ce') <? lock_start (sle_lock le))
      (put_entry check_entry
         (set_lock (set_range (lock_start (sle_lock ce'))
                      (u64 (lock_start (sle_lock le) - lock_start (sle_lock ce')))
                      (sle_lock ce')) ce'))
  else
    let new_end := if lock_entry_end <? check_entry_end then check_entry_end else lock_entry_end in
    let new_start := if lock_start (sle_lock ce) <? lock_start (sle_lock le)
                     then lock_start (sle_lock ce) else lock_start (sle_lock le) in
    put_entry lock_entry
      (set_lock (set_range new_start (u64 (new_end - new_start + 1)) (sle_lock le)) le);;
    remove_from_locklist check_entry.

Definition merge_lock_entry (obj lock_entry : positive) : LM unit :=
  glist_for_each_safe (lock_list obj) (plain (merge_step obj lock_entry)) tt.

(** [free_list] on a list private to the caller. *)
Fixpoint free_list (l : list positive) : LM unit :=
  match l with
  | [] => mret tt
  | a :: l' => remove_from_locklist a;; free_list l'
  end.

(** [subtract_lock_from_entry]: [split] and [remove] are the private lists
    [split_list] and [remove_list]; the result is the removed flag and the two
    lists.  The status it returns is always [STATE_SUCCESS]. *)
Definition subtract_lock_from_entry (obj a : positive) (lock : fsal_lock_param_t)
    (split remove : list positive) : LM (bool * list positive * list positive) :=
  e ← get_entry a;
  let found_entry_end := lock_end (sle_lock e) in
  let range_end := lock_end lock in
  if range_end <? lock_start (sle_lock e) then mret (false, split, remove) else
  if found_entry_end <? lock_start lock then mret (false, split, remove) else
  split' ←
    (if (lock_start lock <=? lock_start (sle_lock e)) && (found_entry_end <=? range_end)
     then mret split
     else
       split1 ←
         (if lock_start (sle_lock e) <? lock_start lock then
            l ← state_lock_entry_t_dup a;
            upd_entry l (fun le => set_lock
              (set_range (lock_start (sle_lock le))
                 (u64 (lock_start lock - lock_start (sle_lock e))) (sle_lock le)) le);;
            mret (split ++ [l])
          else mret split);
       if range_end <? found_entry_end then
         r ← state_lock_entry_t_dup a;
         upd_entry r (fun re => set_lock
           (set_range (u64 (range_end + 1))
              (if found_entry_end =? UINT64_MAX then 0 else u64 (found_entry_end - range_end))
              (sle_lock re)) re);;
         mret (split1 ++ [r])
       else mret split1);
  file_del obj a;;
  mret (true, split', remove ++ [a]).

(** [subtract_lock_from_list]: releases [lock] from the locks of [owner] (of
    every owner when it is NULL).  [state_seqid] gives the sequence number of
    the NLM state of an entry. *)
Definition subtract_lock_from_list (state_seqid : positive -> Z) (obj : positive)
    (owner : option positive) (state_applies : bool) (state : Z)
    (lock : fsal_lock_param_t) : LM bool :=
  '(removed, split, remove) ← glist_for_each_safe (lock_list obj)
        (fun a '(removed, split, remove) =>
           e ← get_entry a;
           if bool_decide (is_Some owner) && different_owners (sle_owner e) owner
           then mret (removed, split, remove, false) else
           if decide (sle_blocked e <> STATE_NON_BLOCKING)
           then mret (removed, split, remove, false) else
           skip ← (if state_applies then
                     s ← deref (sle_state e); mret (state_seqid s =? state)
                   else mret false);
           if (skip : bool) then mret (removed, split, remove, false) else
           '(removed_one, split', remove') ← subtract_lock_from_entry obj a lock split remove;
           mret (removed || removed_one, split', remove', false))
        (false, [], []);
  free_list remove;;
  modify (fun w => upd_files <[obj := lock_list obj w ++ split]> w);;
  mret removed.

(** [copy_conflict] on a found entry. *)
Definition copy_conflict (a : positive) : LM (option (positive * fsal_lock_param_t)) :=
  e ← get_entry a;
  owner ← deref (sle_owner e);
  bk_ref (K_owner owner) 1;;
  mret (Some (owner, sle_lock e)).

End entries.
