(* ===== verification/LockManager.v ===== *)
(** * The lock manager

    The operations of [SAL/state_lock.c] above the lock table: calls to the
    FSAL, the life cycle of a blocked lock (block, grant, cookie, completion,
    cancellation) and the entry points the protocols use; with the NLM side of
    a grant from [Protocols/NLM].

    The FSAL and the thread pool are parameters: the class [Env] below. *)
From S2P Require Import Prelude Status Owners LockTable.
Local Open Scope Z_scope.

Inductive fsal_lock_op_t : Set :=
  | FSAL_OP_LOCKT | FSAL_OP_LOCK | FSAL_OP_LOCKB | FSAL_OP_UNLOCK | FSAL_OP_CANCEL.

#[export] Instance fsal_lock_op_t_eq_dec : EqDecision fsal_lock_op_t.
Proof. solve_decision. Defined.

(** What the lock code calls: the FSAL's export options and [lock_op2], the
    thread pool, the state of exports, the sequence number of a [state_t] and
    the server's start time.  [F] is the state of that outside world. *)
Class Env (F : Type) := {
  fso_lock_support : bool;
  fso_lock_support_async_block : bool;
  (* client, object, state, owner, operation, lock *)
  lock_op2 : F -> option positive -> positive -> option positive -> positive ->
             fsal_lock_op_t -> fsal_lock_param_t -> fsal_errors_t * fsal_lock_param_t * F;
  fridgethr_submit : F -> Z * F;
  export_ready : positive -> bool;
  state_seqid : positive -> Z;
  is_regular_file : positive -> bool;
  gc_boot : Z * Z
}.

(** The fields of [op_ctx] that the lock code reads. *)
Record req_op_context : Set := { ctx_export : positive; client : option positive }.

(** [*holder] and [*conflict]. *)
Abbreviation conflict_t := (option (positive * fsal_lock_param_t)).

Section manager.
Context `{OwnerMem} {F : Type} `{!Env F}.
Abbreviation LM := (M (lock_world F)).

(** ** Calls to the FSAL *)

(** The [gsh_client] of a lock owner.  An owner whose union does not hold the
    member its type announces is undefined behaviour. *)
Definition owner_client (owner : positive) : LM (option positive) :=
  match so_type (owner_at owner), so_owner (owner_at owner) with
  | STATE_LOCK_OWNER_UNKNOWN, _ => mret None
  | STATE_LOCK_OWNER_NLM, so_nlm_owner c _ =>
      mret (ssc_client (nsm_client_at (slc_nsm_client (nlm_client_at c))))
  | STATE_LOCK_OWNER_9P, _ => mret None
  | (STATE_OPEN_OWNER_NFSV4 | STATE_LOCK_OWNER_NFSV4 | STATE_CLIENTID_OWNER_NFSV4),
    so_nfs4_owner _ cl => mret cl
  | _, _ => undef
  end.

Definition call_lock_op2 (cl : option positive) (obj : positive) (state : option positive)
    (owner : positive) (op : fsal_lock_op_t) (lock : fsal_lock_param_t) :
    LM (fsal_errors_t * fsal_lock_param_t) :=
  fun w => let '(err, conflicting_lock, s) :=
             lock_op2 (w_fsal w) cl obj state owner op lock in
           Some ((err, conflicting_lock), set_fsal s w).

(** [do_lock_op]; [want] says whether the caller passes [holder] and
    [conflict].  The [overlap] hint only appears in a log message. *)
Definition do_lock_op (ctx : req_op_context) (obj : positive) (state : option positive)
    (lock_op : fsal_lock_op_t) (owner : option positive) (lock : fsal_lock_param_t)
    (want : bool) : LM (state_status_t * conflict_t) :=
  let lock := set_sle_type FSAL_POSIX_LOCK lock in
  if negb fso_lock_support
     || (negb fso_lock_support_async_block && bool_decide (lock_op = FSAL_OP_CANCEL))
  then mret (STATE_SUCCESS, None)
  else
    let fsal_lock_op :=
      if bool_decide (lock_op = FSAL_OP_LOCKB) && negb fso_lock_support_async_block
      then FSAL_OP_LOCK else lock_op in
    owner' ← deref owner;
    oc ← owner_client owner';
    let cl := match oc with Some c => Some c | None => client ctx end in
    '(fsal_status, conflicting_lock) ← call_lock_op2 cl obj state owner' fsal_lock_op lock;
    let status := state_error_convert fsal_status in
    let status :=
      if bool_decide (status = STATE_LOCK_BLOCKED)
         && bool_decide (fsal_lock_op <> FSAL_OP_LOCKB)
      then STATE_FSAL_ERROR
      else if bool_decide (status = STATE_LOCK_CONFLICT)
              && bool_decide (lock_op = FSAL_OP_LOCKB)
      then STATE_LOCK_BLOCKED
      else status in
    if bool_decide (status = STATE_LOCK_CONFLICT) && want
    then bk_ref (K_owner unknown_owner) 1;;
         mret (status, Some (unknown_owner, conflicting_lock))
    else mret (status, None).

(** The calls that pass [&lock_entry->sle_lock]. *)
Definition do_lock_op_entry (ctx : req_op_context) (obj : positive)
    (lock_op : fsal_lock_op_t) (lock_entry : positive) : LM state_status_t :=
  upd_entry lock_entry (fun e => set_lock (set_sle_type FSAL_POSIX_LOCK (sle_lock e)) e);;
  e ← get_entry lock_entry;
  '(status, _) ← do_lock_op ctx obj (sle_state e) lock_op (sle_owner e) (sle_lock e) false;
  mret status.

(** ** Grant cookies *)

Definition get_cookie (c : positive) : LM state_cookie_entry_t :=
  o ← gets (fun w => w_cookies w !! c); deref o.

Definition set_cookie (c : option positive) (b : state_block_data_t) : state_block_data_t :=
  {| sbd_grant_type := sbd_grant_type b; sbd_block_type := sbd_block_type b;
     sbd_blocked_cookie := c |}.
Definition set_grant_type (t : state_grant_type_t) (b : state_block_data_t) :
    state_block_data_t :=
  {| sbd_grant_type := t; sbd_block_type := sbd_block_type b;
     sbd_blocked_cookie := sbd_blocked_cookie b |}.

(** An access through [lock_entry->sle_block_data]: undefined when NULL. *)
Definition upd_block_data (a : positive) (f : state_block_data_t -> state_block_data_t) :
    LM unit :=
  e ← get_entry a;
  b ← deref (sle_block_data e);
  put_entry a (set_block_data (Some (f b)) e).

Definition free_cookie (c : positive) (unblock : bool) : LM unit :=
  k ← get_cookie c;
  mwhen unblock
    (e ← get_entry (sce_lock_entry k);
     mwhen (bool_decide (is_Some (sle_block_data e)))
       (upd_block_data (sce_lock_entry k) (set_cookie None));;
     lock_entry_dec_ref (sce_lock_entry k);;
     bk_ref (K_obj (sce_obj k)) (-1));;
  modify (upd_cookies (delete c)).

Definition next_granted_cookie : LM (list Z) :=
  n ← gets w_gc_cookie;
  let n' := u64 (n + 1) in
  modify (set_gc_cookie n');;
  mret [fst gc_boot; snd gc_boot; n'].

Definition state_find_grant (cookie : list Z) : LM (option positive) :=
  o ← gets (fun w => w_ht w !! cookie);
  match o with
  | Some c => modify (upd_ht (delete cookie));; mret (Some c)
  | None => mret None     (* STATE_BAD_COOKIE *)
  end.

(** The result is the status and [*cookie_entry]. *)
Definition state_add_grant_cookie (ctx : req_op_context) (obj : positive)
    (cookie : list Z) (lock_entry : positive) : LM (state_status_t * option positive) :=
  e ← get_entry lock_entry;
  match sle_block_data e with
  | None => mret (STATE_INCONSISTENT_ENTRY, None)
  | Some b =>
      if decide (cookie = []) then mret (STATE_INCONSISTENT_ENTRY, None) else
      hash_entry ← alloc;
      o ← gets (fun w => w_ht w !! cookie);
      if bool_decide (is_Some o) then mret (STATE_HASH_TABLE_ERROR, None) else
      modify (upd_cookies <[hash_entry := {| sce_obj := obj; sce_lock_entry := lock_entry;
                                             sce_cookie := cookie |}]>);;
      modify (upd_ht <[cookie := hash_entry]>);;
      status ←
        match sbd_grant_type b with
        | STATE_GRANT_NONE => mret STATE_INCONSISTENT_ENTRY
        | STATE_GRANT_POLL | STATE_GRANT_FSAL_AVAILABLE =>
            do_lock_op_entry ctx obj FSAL_OP_LOCKB lock_entry
        | STATE_GRANT_INTERNAL => do_lock_op_entry ctx obj FSAL_OP_LOCK lock_entry
        | STATE_GRANT_FSAL => mret STATE_SUCCESS
        end;
      if decide (status <> STATE_SUCCESS) then
        modify (upd_ht (delete cookie));;
        free_cookie hash_entry false;;
        mret (status, None)
      else
        lock_entry_inc_ref lock_entry;;
        upd_block_data lock_entry (set_cookie (Some hash_entry));;
        bk_ref (K_obj obj) 1;;
        mret (status, Some hash_entry)
  end.

Definition state_cancel_grant (ctx : req_op_context) (c : positive) : LM state_status_t :=
  k ← get_cookie c;
  status ← do_lock_op_entry ctx (sce_obj k) FSAL_OP_UNLOCK (sce_lock_entry k);
  free_cookie c true;;
  mret status.

(** ** Granting *)

Definition state_async_schedule : LM state_status_t :=
  fun w => let '(rc, s) := fridgethr_submit (w_fsal w) in
           Some (if rc =? 0 then STATE_SUCCESS else STATE_SIGNAL_ERROR, set_fsal s w).

(** [nlm_granted_callback]; the message it builds is sent by another thread. *)
Definition nlm_granted_callback (ctx : req_op_context) (obj lock_entry : positive) :
    LM state_status_t :=
  e ← get_entry lock_entry;
  owner ← deref (sle_owner e);
  nlm_grant_client ←
    match so_owner (owner_at owner) with so_nlm_owner cl _ => mret cl | _ => undef end;
  nlm_grant_cookie ← next_granted_cookie;
  '(state_status, cookie_entry) ← state_add_grant_cookie ctx obj nlm_grant_cookie lock_entry;
  if decide (state_status <> STATE_SUCCESS) then mret state_status else
  bk_ref (K_nlm nlm_grant_client) 1;;
  state_status' ← state_async_schedule;
  if decide (state_status' <> STATE_SUCCESS) then
    bk_ref (K_nlm nlm_grant_client) (-1);;
    c ← deref cookie_entry;
    state_cancel_grant ctx c;;
    mret state_status'
  else mret state_status'.

Definition try_to_grant_lock (ctx : req_op_context) (lock_entry : positive) : LM unit :=
  e ← get_entry lock_entry;
  match sle_blocked e with
  | STATE_NON_BLOCKING => mret tt
  | STATE_GRANTING => mret tt
  | STATE_CANCELED => remove_from_locklist lock_entry
  | blocked =>
      match sle_block_data e with
      | None => remove_from_locklist lock_entry
      | Some b =>
          if negb (export_ready (sle_export e)) then remove_from_locklist lock_entry else
          upd_entry lock_entry (set_blocked STATE_GRANTING);;
          mwhen (bool_decide (sbd_grant_type b = STATE_GRANT_NONE))
            (upd_block_data lock_entry (set_grant_type STATE_GRANT_INTERNAL));;
          status ← nlm_granted_callback ctx (sle_obj e) lock_entry;
          if decide (status = STATE_LOCK_BLOCKED) then
            upd_entry lock_entry (set_blocked blocked);;
            upd_block_data lock_entry (set_grant_type STATE_GRANT_NONE)
          else
            modify (upd_blocked (remove_id lock_entry));;
            if decide (status = STATE_SUCCESS) then mret tt
            else remove_from_locklist lock_entry
      end
  end.

Definition process_blocked_lock_upcall (ctx : req_op_context) (lock_entry : positive) : LM unit :=
  try_to_grant_lock ctx lock_entry;;
  lock_entry_dec_ref lock_entry.

Definition grant_step (ctx : req_op_context) (obj found : positive) : LM unit :=
  e ← get_entry found;
  match sle_blocked e with
  | STATE_NLM_BLOCKING | STATE_NFSV4_BLOCKING =>
      o ← get_overlapping_entry obj (sle_owner e) (sle_lock e);
      match o with
      | Some _ => mret tt
      | None => try_to_grant_lock ctx found
      end
  | _ => mret tt
  end.

Definition grant_blocked_locks (ctx : req_op_context) (obj : positive) : LM unit :=
  if fso_lock_support_async_block then mret tt
  else glist_for_each_safe (lock_list obj) (plain (grant_step ctx obj)) tt.

Definition grant_blocked_lock_immediate (ctx : req_op_context) (obj lock_entry : positive) :
    LM unit :=
  e ← get_entry lock_entry;
  go_on ←
    match sle_block_data e with
    | Some b =>
        match sbd_blocked_cookie b with
        | Some cookie =>
            k ← get_cookie cookie;
            o ← state_find_grant (sce_cookie k);
            match o with
            | Some c => free_cookie c true;; mret true
            | None => mret false
            end
        | None => upd_entry lock_entry (set_block_data None);; mret true
        end
    | None => mret true
    end;
  mwhen go_on
    (upd_entry lock_entry (set_blocked STATE_NON_BLOCKING);;
     merge_lock_entry obj lock_entry;;
     grant_blocked_locks ctx obj).

Definition state_complete_grant (ctx : req_op_context) (c : positive) : LM unit :=
  k ← get_cookie c;
  let lock_entry := sce_lock_entry k in
  let obj := sce_obj k in
  bk_ref (K_obj obj) 1;;
  e ← get_entry lock_entry;
  mwhen (bool_decide (sle_blocked e = STATE_GRANTING))
    (upd_entry lock_entry (set_blocked STATE_NON_BLOCKING);;
     merge_lock_entry obj lock_entry;;
     grant_blocked_locks ctx obj);;
  free_cookie c true;;
  bk_ref (K_obj obj) (-1).

(** ** Cancelling *)

Definition cancel_blocked_lock (ctx : req_op_context) (obj lock_entry : positive) : LM unit :=
  upd_entry lock_entry (set_blocked STATE_CANCELED);;
  e ← get_entry lock_entry;
  match (b ← sle_block_data e; sbd_blocked_cookie b) with
  | Some cookie =>
      k ← get_cookie cookie;
      o ← state_find_grant (sce_cookie k);
      match o with
      | Some c => free_cookie c true
      | None => mret tt
      end
  | None =>
      do_lock_op_entry ctx obj FSAL_OP_CANCEL lock_entry;;
      do_lock_op_entry ctx obj FSAL_OP_UNLOCK lock_entry;;
      mret tt
  end;;
  remove_from_locklist lock_entry.

(** The test on [sle_state] that protects the locks of the current NSM state. *)
Definition nsm_state_is (e : state_lock_entry_t) (state_applies : bool) (nsm_state : Z) : LM bool :=
  if state_applies then s ← deref (sle_state e); mret (state_seqid s =? nsm_state)
  else mret false.

Definition cancel_step (ctx : req_op_context) (obj : positive) (owner : option positive)
    (state_applies : bool) (nsm_state : Z) (lock : fsal_lock_param_t) (found : positive) :
    LM unit :=
  e ← get_entry found;
  if bool_decide (is_Some owner) && different_owners (sle_owner e) owner then mret tt else
  skip ← nsm_state_is e state_applies nsm_state;
  if (skip : bool) then mret tt else
  if decide (sle_blocked e = STATE_NON_BLOCKING) then mret tt else
  mwhen (ranges_overlap e lock) (cancel_blocked_lock ctx obj found).

Definition cancel_blocked_locks_range (ctx : req_op_context) (obj : positive)
    (owner : option positive) (state_applies : bool) (nsm_state : Z)
    (lock : fsal_lock_param_t) : LM unit :=
  glist_for_each_safe (lock_list obj)
    (plain (cancel_step ctx obj owner state_applies nsm_state lock)) tt.

Definition state_release_grant (ctx : req_op_context) (c : positive) : LM state_status_t :=
  k ← get_cookie c;
  let lock_entry := sce_lock_entry k in
  let obj := sce_obj k in
  e ← get_entry lock_entry;
  status ←
    (if decide (sle_blocked e = STATE_GRANTING) then
       upd_entry lock_entry (set_blocked STATE_CANCELED);;
       status ← do_lock_op_entry ctx obj FSAL_OP_UNLOCK lock_entry;
       mwhen (bool_decide (status = STATE_SUCCESS)) (remove_from_locklist lock_entry);;
       mret status
     else mret STATE_SUCCESS);
  free_cookie c true;;
  grant_blocked_locks ctx obj;;
  mret status.

(** ** Protocol entry points *)

Definition state_test (ctx : req_op_context) (obj : positive) (state : option positive)
    (owner : positive) (lock : fsal_lock_param_t) : LM (state_status_t * conflict_t) :=
  found_entry ← get_overlapping_entry obj (Some owner) lock;
  match found_entry with
  | Some a => cf ← copy_conflict a; mret (STATE_LOCK_CONFLICT, cf)
  | None => do_lock_op ctx obj state FSAL_OP_LOCKT (Some owner) lock true
  end.

(** First loop of [state_lock]: a matching blocked request ([Some] status means
    that [state_lock] returns it). *)
Fixpoint state_lock_find_blocked (ctx : req_op_context) (l : list positive) (owner : positive)
    (blocking : state_blocking_t) (lock : fsal_lock_param_t) : LM (option state_status_t) :=
  match l with
  | [] => mret None
  | a :: l' =>
      e ← get_entry a;
      if different_owners (sle_owner e) (Some owner)
      then state_lock_find_blocked ctx l' owner blocking lock else
      if decide (sle_export e <> ctx_export ctx) then mret (Some STATE_INVALID_ARGUMENT) else
      if decide (sle_blocked e <> blocking)
      then state_lock_find_blocked ctx l' owner blocking lock else
      if different_lock (sle_lock e) lock
      then state_lock_find_blocked ctx l' owner blocking lock else
      mret (Some STATE_LOCK_BLOCKED)
  end.

(** How the second loop of [state_lock] ends. *)
Inductive scan_result : Set :=
  | Scan_export_conflict                      (* another export: invalid *)
  | Scan_conflict (a : positive)              (* conflicting entry *)
  | Scan_existing (a : positive)              (* covered by a lock of the owner *)
  | Scan_end.                                 (* end of the list: allowed *)

Fixpoint state_lock_scan (ctx : req_op_context) (l : list positive) (owner : positive)
    (lock : fsal_lock_param_t) : LM scan_result :=
  match l with
  | [] => mret Scan_end
  | a :: l' =>
      e ← get_entry a;
      if bool_decide (sle_export e <> ctx_export ctx)
         && negb (different_owners (sle_owner e) (Some owner))
      then mret Scan_export_conflict else
      let found_entry_end := lock_end (sle_lock e) in
      let range_end := lock_end lock in
      if negb (lock_reclaim lock) && (lock_start lock <=? found_entry_end)
         && (lock_start (sle_lock e) <=? range_end)
         && types_conflict (lock_type (sle_lock e)) (lock_type lock)
         && different_owners (sle_owner e) (Some owner)
      then mret (Scan_conflict a) else
      if (range_end <=? found_entry_end) && (lock_start (sle_lock e) <=? lock_start lock)
         && bool_decide (lock_type (sle_lock e) = lock_type lock)
         && (bool_decide (sle_blocked e = STATE_NON_BLOCKING)
             || bool_decide (sle_blocked e = STATE_GRANTING))
         && negb (different_owners (sle_owner e) (Some owner))
      then mret (Scan_existing a)
      else state_lock_scan ctx l' owner lock
  end.

(** The lock is already held by the owner. *)
Definition state_lock_existing (ctx : req_op_context) (obj found : positive)
    (state : option positive) : LM unit :=
  e ← get_entry found;
  mwhen (bool_decide (sle_blocked e = STATE_GRANTING))
    (grant_blocked_lock_immediate ctx obj found);;
  e' ← get_entry found;
  mwhen (bool_decide (sle_state e' <> state))
    (let old_state := sle_state e' in
     upd_entry found (set_state state);;
     s ← deref state;
     bk_ref (K_state s) 1;;
     match old_state with Some o => bk_ref (K_state o) (-1) | None => mret tt end;;
     bk_add_tail (K_state s) found).

Definition set_block_type (t : state_block_type_t) (b : state_block_data_t) :
    state_block_data_t :=
  {| sbd_grant_type := sbd_grant_type b; sbd_block_type := t;
     sbd_blocked_cookie := sbd_blocked_cookie b |}.

(** The part of [state_lock] after the two loops: a new entry is created, the
    FSAL is asked, and the entry is merged, queued or discarded. *)
Definition state_lock_new (ctx : req_op_context) (obj owner : positive)
    (state : option positive) (blocking : state_blocking_t)
    (bdata : option state_block_data_t) (lock : fsal_lock_param_t) (allow : bool)
    (cf0 : conflict_t) : LM (state_status_t * conflict_t * option state_block_data_t) :=
  let lock_op := if decide (blocking = STATE_NLM_BLOCKING) then FSAL_OP_LOCKB
                 else FSAL_OP_LOCK in
  found_entry ← create_state_lock_entry obj (ctx_export ctx) STATE_NON_BLOCKING owner state lock;
  let async := fso_lock_support_async_block in
  '(status, cf) ←
    (if allow || async
     then do_lock_op ctx obj state lock_op (Some owner) lock allow
     else mret (STATE_LOCK_BLOCKED, None));
  let cf := match cf with Some _ => cf | None => cf0 end in
  match status with
  | STATE_SUCCESS =>
      merge_lock_entry obj found_entry;;
      file_add_tail obj found_entry;;
      grant_blocked_locks ctx obj;;
      mret (status, cf, bdata)
  | STATE_LOCK_CONFLICT => remove_from_locklist found_entry;; mret (status, cf, bdata)
  | STATE_LOCK_BLOCKED =>
      block_data ← deref bdata;
      upd_entry found_entry (fun e =>
        set_blocked blocking (set_block_data (Some (set_block_type
          (if async then STATE_BLOCK_ASYNC
           else if allow then STATE_BLOCK_POLL else STATE_BLOCK_INTERNAL) block_data)) e));;
      file_add_tail obj found_entry;;
      modify (upd_blocked (fun l => l ++ [found_entry]));;
      mret (status, cf, None)
  | _ => remove_from_locklist found_entry;; mret (status, cf, bdata)
  end.

(** [state_lock]: the status, [*holder] and [*conflict], and [*bdata]. *)
Definition state_lock (ctx : req_op_context) (obj owner : positive)
    (state : option positive) (blocking : state_blocking_t)
    (bdata : option state_block_data_t) (lock : fsal_lock_param_t) :
    LM (state_status_t * conflict_t * option state_block_data_t) :=
  l ← gets (lock_list obj);
  early ←
    (if decide (blocking <> STATE_NON_BLOCKING)
     then state_lock_find_blocked ctx l owner blocking lock
     else mret None);
  match early with
  | Some status => mret (status, None, bdata)
  | None =>
      scan ← state_lock_scan ctx l owner lock;
      match scan with
      | Scan_export_conflict => mret (STATE_INVALID_ARGUMENT, None, bdata)
      | Scan_existing a =>
          state_lock_existing ctx obj a state;; mret (STATE_SUCCESS, None, bdata)
      | Scan_conflict a =>
          cf ← (if decide (blocking <> STATE_NLM_BLOCKING) then copy_conflict a else mret None);
          if decide (blocking = STATE_NLM_BLOCKING)
          then state_lock_new ctx obj owner state blocking bdata lock false cf
          else mret (STATE_LOCK_CONFLICT, cf, bdata)
      | Scan_end => state_lock_new ctx obj owner state blocking bdata lock true None
      end
  end.

Definition state_unlock (ctx : req_op_context) (obj : positive) (state : option positive)
    (owner : option positive) (state_applies : bool) (nsm_state : Z)
    (lock : fsal_lock_param_t) : LM state_status_t :=
  if negb (is_regular_file obj) then mret STATE_BAD_TYPE else
  l ← gets (lock_list obj);
  match l with
  | [] => mret STATE_SUCCESS
  | _ =>
      cancel_blocked_locks_range ctx obj owner state_applies nsm_state lock;;
      subtract_lock_from_list state_seqid obj owner state_applies nsm_state lock;;
      '(status, _) ← do_lock_op ctx obj state FSAL_OP_UNLOCK owner lock false;
      grant_blocked_locks ctx obj;;
      mret status
  end.

Fixpoint state_cancel_scan (ctx : req_op_context) (obj : positive) (l : list positive)
    (owner : positive) (lock : fsal_lock_param_t) : LM unit :=
  match l with
  | [] => mret tt
  | a :: l' =>
      e ← get_entry a;
      if different_owners (sle_owner e) (Some owner)
      then state_cancel_scan ctx obj l' owner lock else
      if decide (sle_blocked e = STATE_NON_BLOCKING)
      then state_cancel_scan ctx obj l' owner lock else
      if different_lock (sle_lock e) lock
      then state_cancel_scan ctx obj l' owner lock else
      cancel_blocked_lock ctx obj a;;
      grant_blocked_locks ctx obj
  end.

Definition state_cancel (ctx : req_op_context) (obj owner : positive)
    (lock : fsal_lock_param_t) : LM state_status_t :=
  if negb (is_regular_file obj) then mret STATE_BAD_TYPE else
  l ← gets (lock_list obj);
  state_cancel_scan ctx obj l owner lock;;
  mret STATE_SUCCESS.

Definition state_lock_wipe (obj : positive) : LM unit :=
  l ← gets (lock_list obj); free_list l.

(** ** Polling and upcalls *)

Definition state_block_schedule (a : positive) : LM state_status_t :=
  fun w => let '(rc, s) := fridgethr_submit (w_fsal w) in
           Some (if rc =? 0 then STATE_SUCCESS else STATE_SIGNAL_ERROR,
                 (if rc =? 0 then upd_sched (fun l => l ++ [a]) else id) (set_fsal s w)).

(** The scheduling common to polling and upcalls. *)
Definition schedule_grant (t : state_grant_type_t) (a : positive) : LM unit :=
  upd_block_data a (set_grant_type t);;
  rc ← state_block_schedule a;
  mwhen (bool_decide (rc = STATE_SUCCESS)) (lock_entry_inc_ref a).

(** [blocked_lock_polling], from a node of [state_blocked_locks] on.  A node is
    the block data of an entry: an entry without block data there is a freed
    list node. *)
Fixpoint polling_from (l : list positive) : LM unit :=
  match l with
  | [] => mret tt
  | a :: l' =>
      e ← get_entry a;
      b ← deref (sle_block_data e);
      mwhen (bool_decide (sbd_block_type b = STATE_BLOCK_POLL)) (schedule_grant STATE_GRANT_POLL a);;
      polling_from l'
  end.

Definition blocked_lock_polling : LM unit := l ← gets w_blocked; polling_from l.

Fixpoint find_blocked_from (l : list positive) (obj owner : positive)
    (lock : fsal_lock_param_t) (t : state_grant_type_t) : LM unit :=
  match l with
  | [] => mret tt
  | a :: l' =>
      e ← get_entry a;
      deref (sle_block_data e);;
      if decide (sle_obj e <> obj) then find_blocked_from l' obj owner lock t else
      if decide (sle_owner e <> Some owner) then find_blocked_from l' obj owner lock t else
      if different_lock (sle_lock e) lock then find_blocked_from l' obj owner lock t else
      schedule_grant t a
  end.

Definition find_blocked_lock_upcall (obj owner : positive) (lock : fsal_lock_param_t)
    (t : state_grant_type_t) : LM unit :=
  l ← gets w_blocked; find_blocked_from l obj owner lock t.

Definition grant_blocked_lock_upcall (obj owner : positive) (lock : fsal_lock_param_t) : LM unit :=
  find_blocked_lock_upcall obj owner lock STATE_GRANT_FSAL.

Definition available_blocked_lock_upcall (obj owner : positive) (lock : fsal_lock_param_t) :
    LM unit :=
  find_blocked_lock_upcall obj owner lock STATE_GRANT_FSAL_AVAILABLE.

(** The work item the thread pool runs for a scheduled block
    ([state_blocked_lock_caller]).  The operation context is set only for a ready
    export; for another one the grant stops before it is used. *)
Definition state_blocked_lock_caller (a : positive) : LM unit :=
  e ← get_entry a;
  let ready := export_ready (sle_export e) in
  mwhen ready (bk_ref (K_export (sle_export e)) 1);;
  process_blocked_lock_upcall {| ctx_export := sle_export e; client := None |} a;;
  mwhen ready (bk_ref (K_export (sle_export e)) (-1)).

(** The thread pool carries out an attempt it has queued: [w_sched] has the
    attempts that are not done. *)
Definition run_attempt (a : positive) : LM unit :=
  state_blocked_lock_caller a;; modify (upd_sched (remove_first a)).

(** ** The NLM side of a grant *)

(** [nlm4_send_grant_msg]: [rpc_ok] is the outcome of sending the message. *)
Definition nlm4_send_grant_msg (cookie : list Z) (nlm_client : positive) (rpc_ok : bool) :
    LM unit :=
  bk_ref (K_nlm nlm_client) (-1);;
  mwhen (negb rpc_ok)
    (o ← state_find_grant cookie;
     match o with
     | None => mret tt
     | Some c =>
         k ← get_cookie c;
         e ← get_entry (sce_lock_entry k);
         mwhen (bool_decide (is_Some (sle_block_data e)))
           (bk_ref (K_export (sle_export e)) 1;;
            state_release_grant {| ctx_export := sle_export e; client := None |} c;;
            bk_ref (K_export (sle_export e)) (-1))
     end).

(** [nlm4_Granted_Res]: [granted] is [arg->stat.stat == NLM4_GRANTED].  The
    export reference taken is released by the caller. *)
Definition nlm4_Granted_Res (cl : option positive) (cookie : list Z) (granted : bool) : LM unit :=
  o ← state_find_grant cookie;
  match o with
  | None => mret tt
  | Some c =>
      k ← get_cookie c;
      e ← get_entry (sce_lock_entry k);
      mwhen (bool_decide (is_Some (sle_block_data e)))
        (let ctx := {| ctx_export := sle_export e; client := cl |} in
         bk_ref (K_export (sle_export e)) 1;;
         if negb granted || negb (export_ready (sle_export e))
         then state_release_grant ctx c;; mret tt
         else state_complete_grant ctx c)
  end.

End manager.
