(* ===== verification/LockInv.v ===== *)
(** * Well-formedness of the lock table

    The part of the state the lock code's pointers live in ([table]), the
    invariant that its lists, reference counts, cookies and pending work agree,
    and the effect of the elementary operations of [LockTable] on it. *)
From S2P Require Import Prelude Owners LockTable.
Local Open Scope Z_scope.

(** ** Tables *)

Record table := Tab {
  t_heap : gmap positive state_lock_entry_t;
  t_files : gmap positive (list positive);
  t_blocked : list positive;
  t_cookies : gmap positive state_cookie_entry_t;
  t_ht : gmap (list Z) positive;
  t_sched : list positive;
  t_next : positive
}.

Definition core {F} (w : lock_world F) : table :=
  Tab (w_heap w) (w_files w) (w_blocked w) (w_cookies w) (w_ht w) (w_sched w) (w_next w).

Definition t_list (obj : positive) (t : table) : list positive := default [] (t_files t !! obj).

Definition cookie_of (e : state_lock_entry_t) : option positive :=
  b ← sle_block_data e; sbd_blocked_cookie b.

(** An entry is linked when it is on its file's list or on a list [L] private
    to the operation in progress. *)
Definition linked (L : list positive) (t : table) (a : positive) (e : state_lock_entry_t) : Prop :=
  a ∈ t_list (sle_obj e) t \/ a ∈ L.

#[export] Instance linked_dec L t a e : Decision (linked L t a e).
Proof. unfold linked. apply _. Defined.

(** The linked entries of a table. *)
Definition view (L : list positive) (t : table) (a : positive) (e : state_lock_entry_t) : Prop :=
  t_heap t !! a = Some e /\ linked L t a e.

(** Descriptors the protocols can build: within 64 bits, and not past the last
    byte. *)
Definition lock_ok (l : fsal_lock_param_t) : Prop :=
  0 <= lock_start l <= UINT64_MAX /\ 0 <= lock_length l /\
  lock_start l + lock_length l - 1 <= UINT64_MAX.

Section wf.
Context `{OwnerMem}.

Definition nlm_owner (o : option positive) : Prop :=
  exists a c v, o = Some a /\ so_type (owner_at a) = STATE_LOCK_OWNER_NLM /\
    so_owner (owner_at a) = so_nlm_owner c v.

(** Owners whose union agrees with their type. *)
Definition owner_ok (o : positive) : Prop :=
  match so_type (owner_at o), so_owner (owner_at o) with
  | STATE_LOCK_OWNER_NLM, so_nlm_owner _ _ => True
  | STATE_LOCK_OWNER_9P, so_9p_owner _ _ => True
  | (STATE_OPEN_OWNER_NFSV4 | STATE_LOCK_OWNER_NFSV4 | STATE_CLIENTID_OWNER_NFSV4),
    so_nfs4_owner _ _ => True
  | _, _ => False
  end.

(** What the blocking state of a linked entry says about its block data. *)
Definition status_ok (e : state_lock_entry_t) : Prop :=
  match sle_blocked e with
  | STATE_NON_BLOCKING => cookie_of e = None
  | STATE_NLM_BLOCKING =>
      is_Some (sle_block_data e) /\ cookie_of e = None /\ nlm_owner (sle_owner e)
  | STATE_NFSV4_BLOCKING => False
  | STATE_GRANTING => is_Some (cookie_of e)
  | STATE_CANCELED => True
  end.

Record entry_wf (X L : list positive) (t : table) (a : positive) (e : state_lock_entry_t) :
    Prop := {
  ew_fresh : (a < t_next t)%positive;
  ew_refs : sle_ref_count e =
    Z.b2z (bool_decide (linked L t a e)) + Z.b2z (bool_decide (is_Some (cookie_of e)))
    + Z.of_nat (count_id a (t_sched t));
  ew_pos : a ∉ X -> 1 <= sle_ref_count e;
  ew_cookie : forall c, cookie_of e = Some c ->
    exists k, t_cookies t !! c = Some k /\ sce_lock_entry k = a /\ sce_obj k = sle_obj e;
  ew_owner : linked L t a e -> exists o, sle_owner e = Some o /\ owner_ok o;
  ew_status : linked L t a e -> a ∉ X -> status_ok e;
  ew_gone : ~ linked L t a e -> sle_owner e = None /\
    (sle_blocked e = STATE_NON_BLOCKING \/ sle_blocked e = STATE_CANCELED);
  ew_lock : lock_ok (sle_lock e)
}.

(** The invariant.  [X] lists entries in transition, exempt from [status_ok] and
    from having a reference, and cookies taken out of the hash table;
    [L] the entries on private lists. *)
Record wf (X L : list positive) (t : table) : Prop := {
  wf_nodup : forall obj, NoDup (t_list obj t);
  wf_loose_nodup : NoDup L;
  wf_list : forall obj a, a ∈ t_list obj t ->
    a ∉ L /\ exists e, t_heap t !! a = Some e /\ sle_obj e = obj;
  wf_loose : forall a, a ∈ L -> is_Some (t_heap t !! a);
  wf_entry : forall a e, t_heap t !! a = Some e -> entry_wf X L t a e;
  wf_cookie : forall c k, t_cookies t !! c = Some k ->
    (c < t_next t)%positive /\ t_heap t !! c = None /\
    (t_ht t !! sce_cookie k = Some c <-> c ∉ X) /\
    exists e, t_heap t !! sce_lock_entry k = Some e /\ cookie_of e = Some c;
  wf_ht : forall key c, t_ht t !! key = Some c ->
    exists k, t_cookies t !! c = Some k /\ sce_cookie k = key;
  wf_blocked : forall a, a ∈ t_blocked t ->
    exists e, t_heap t !! a = Some e /\ is_Some (sle_block_data e);
  wf_sched : forall a, a ∈ t_sched t -> is_Some (t_heap t !! a);
  wf_exempted : forall a, a ∈ X -> (a < t_next t)%positive
}.

End wf.

#[export] Hint Resolve wf_nodup wf_loose_nodup : gsh.

Lemma core_list {F} (w : lock_world F) obj : lock_list obj w = t_list obj (core w).
Proof. done. Qed.

Lemma core_heap {F} (w : lock_world F) : w_heap w = t_heap (core w).
Proof. done. Qed.

(** ** Rules for walks *)

Lemma next_of_split l a k : a ∉ l -> next_of a (l ++ a :: k) = Some (head k).
Proof.
  induction l as [|b l IH]; simpl; intros Ha.
  - by case_decide.
  - apply not_elem_of_cons in Ha as [? ?]. case_decide; [done|auto].
Qed.

Section walk_rule.
Context {W S : Type}.
Implicit Types (w : W) (s : S).

Definition weight (wt : positive -> nat) (l : list positive) : nat := sum_list_with wt l.

(** The nodes visited after a node: with no successor the walk ends, whatever
    was appended. *)
Definition visit_rest (todo app : list positive) : list positive :=
  match todo with [] => [] | _ => todo ++ app end.

(** [J todo s w]: the nodes [todo] are still to be visited.  A body may append
    nodes, which are visited when some node was still to be visited; [wt] is a
    weight of nodes that every step decreases in total. *)
Lemma for_each_safe_wp (get : W -> list positive) (body : positive -> S -> M W (S * bool)) (J : list positive -> S -> W -> Prop)
    (wt : W -> positive -> nat) (Q : S -> W -> Prop) fuel todo s w :
  J todo s w ->
  (forall (s : S) (w : W), J [] s w -> Q s w) ->
  (forall a todo (s : S) (w : W), J (a :: todo) s w ->
     (forall b, (1 <= wt w b)%nat) /\
     next_of a (get w) = Some (head todo) /\
     wp (body a s) (fun r w' =>
       if snd r then Q (fst r) w'
       else exists app, J (visit_rest todo app) (fst r) w' /\
              (weight (wt w') (todo ++ app) < weight (wt w) (a :: todo))%nat) w) ->
  (weight (wt w) todo <= fuel)%nat ->
  wp (for_each_safe fuel get body (head todo) s) Q w.
Proof.
  intros HJ Hend Hstep. revert todo s w HJ.
  induction fuel as [|fuel IH]; intros todo s w HJ Hf; destruct todo as [|a todo]; simpl;
    try (apply wp_ret; by apply Hend).
  - destruct (Hstep _ _ _ _ HJ) as (Hpos & _). specialize (Hpos a). simpl in Hf. lia.
  - destruct (Hstep _ _ _ _ HJ) as (_ & Hnext & Hbody).
    apply wp_bind, wp_gets, wp_bind. rewrite Hnext. apply wp_ret, wp_bind.
    eapply wp_mono; [exact Hbody|]. intros [s' brk] w'; simpl.
    destruct brk; [apply wp_ret|].
    intros (app & HJ' & Hlt). destruct todo as [|b todo].
    + apply (IH []); [done|simpl; lia].
    + apply (IH ((b :: todo) ++ app)); [done|].
      revert Hlt Hf. unfold weight. simpl. lia.
Qed.

Lemma weight_le wt l n : (forall b, (wt b <= n)%nat) -> (weight wt l <= n * length l)%nat.
Proof.
  intros Hb. unfold weight. induction l as [|a l IH]; simpl; [lia|].
  specialize (Hb a). lia.
Qed.

Lemma weight_app wt l k : weight wt (l ++ k) = (weight wt l + weight wt k)%nat.
Proof. unfold weight. apply sum_list_with_app. Qed.

Lemma weight_mono wt wt' l : (forall b, b ∈ l -> (wt' b <= wt b)%nat) -> (weight wt' l <= weight wt l)%nat.
Proof.
  unfold weight. induction l as [|a l IH]; simpl; intros Hb; [lia|].
  pose proof (Hb a ltac:(left)). assert (forall b, b ∈ l -> (wt' b <= wt b)%nat) as Hl.
  { intros b ?. apply Hb. by right. } specialize (IH Hl). lia.
Qed.

Lemma glist_for_each_safe_wp (get : W -> list positive) (body : positive -> S -> M W (S * bool)) (J : list positive -> S -> W -> Prop)
    (wt : W -> positive -> nat) (Q : S -> W -> Prop) s w :
  J (get w) s w ->
  (forall (s : S) (w : W), J [] s w -> Q s w) ->
  (forall a todo (s : S) (w : W), J (a :: todo) s w ->
     (forall b, (1 <= wt w b)%nat) /\
     next_of a (get w) = Some (head todo) /\
     wp (body a s) (fun r w' =>
       if snd r then Q (fst r) w'
       else exists app, J (visit_rest todo app) (fst r) w' /\
              (weight (wt w') (todo ++ app) < weight (wt w) (a :: todo))%nat) w) ->
  (forall b, (wt w b <= 2)%nat) ->
  wp (glist_for_each_safe get body s) Q w.
Proof.
  intros HJ Hend Hstep Hwt. unfold glist_for_each_safe. apply wp_bind, wp_gets.
  eapply for_each_safe_wp; eauto. pose proof (weight_le (wt w) (get w) 2 Hwt). lia.
Qed.

(** The rule for bodies that append nothing. *)
Lemma glist_for_each_safe_wp_fixed (get : W -> list positive) (body : positive -> S -> M W (S * bool))
    (J : list positive -> S -> W -> Prop) (Q : S -> W -> Prop) s w :
  J (get w) s w ->
  (forall (s : S) (w : W), J [] s w -> Q s w) ->
  (forall a todo (s : S) (w : W), J (a :: todo) s w ->
     next_of a (get w) = Some (head todo) /\
     wp (body a s) (fun r w' => if snd r then Q (fst r) w' else J todo (fst r) w') w) ->
  wp (glist_for_each_safe get body s) Q w.
Proof.
  intros HJ Hend Hstep.
  apply (glist_for_each_safe_wp get body J (fun _ _ => 1%nat)); auto.
  intros a todo s' w' HJ'. destruct (Hstep _ _ _ _ HJ') as [Hn Hb].
  split; [auto|]. split; [done|]. eapply wp_mono; [exact Hb|].
  intros [s'' []] w''; simpl; [done|]. intros HJ''. exists [].
  split; [destruct todo; simpl; by rewrite ?app_nil_r|].
  rewrite app_nil_r. unfold weight. simpl. lia.
Qed.

End walk_rule.

Lemma wp_plain {W} (body : positive -> M W unit) a s (Q : unit * bool -> W -> Prop) w :
  wp (body a) (fun _ w' => Q (tt, false) w') w -> wp (plain body a s) Q w.
Proof. intros Hb. unfold plain. apply wp_bind. eapply wp_mono; [exact Hb|]. intros [] w'. apply wp_ret. Qed.
