(* ===== verification/LockPrims.v ===== *)
(** * Elementary operations and the well-formedness invariant

    For each elementary operation on lock entries, lists and cookies: its effect
    on the table, that it preserves [wf], and what it does to the linked
    entries ([view]). *)
From S2P Require Import Prelude Owners LockTable LockInv.
Local Open Scope Z_scope.

(** ** Pure updates of tables *)

Definition t_put a e (t : table) : table :=
  Tab (<[a := e]> (t_heap t)) (t_files t) (t_blocked t) (t_cookies t) (t_ht t) (t_sched t) (t_next t).
Definition t_del a (t : table) : table :=
  Tab (delete a (t_heap t)) (t_files t) (t_blocked t) (t_cookies t) (t_ht t) (t_sched t) (t_next t).
Definition t_set_list obj l (t : table) : table :=
  Tab (t_heap t) (<[obj := l]> (t_files t)) (t_blocked t) (t_cookies t) (t_ht t) (t_sched t) (t_next t).
Definition t_set_blocked l (t : table) : table :=
  Tab (t_heap t) (t_files t) l (t_cookies t) (t_ht t) (t_sched t) (t_next t).
Definition t_set_cookies m (t : table) : table :=
  Tab (t_heap t) (t_files t) (t_blocked t) m (t_ht t) (t_sched t) (t_next t).
Definition t_set_ht m (t : table) : table :=
  Tab (t_heap t) (t_files t) (t_blocked t) (t_cookies t) m (t_sched t) (t_next t).
Definition t_set_sched l (t : table) : table :=
  Tab (t_heap t) (t_files t) (t_blocked t) (t_cookies t) (t_ht t) l (t_next t).
Definition t_set_next n (t : table) : table :=
  Tab (t_heap t) (t_files t) (t_blocked t) (t_cookies t) (t_ht t) (t_sched t) n.

Lemma t_list_set_list obj l t obj' :
  t_list obj' (t_set_list obj l t) = if decide (obj' = obj) then l else t_list obj' t.
Proof.
  unfold t_list, t_set_list. simpl. case_decide.
  - subst. by rewrite lookup_insert_eq.
  - by rewrite lookup_insert_ne.
Qed.

Lemma t_list_put a e t obj : t_list obj (t_put a e t) = t_list obj t.
Proof. done. Qed.

(** [core] of an updated world. *)
Section core_updates.
Context {F : Type}.
Implicit Types w : lock_world F.

Lemma core_put a e w : core (upd_heap <[a := e]> w) = t_put a e (core w).
Proof. done. Qed.
Lemma core_del a w : core (upd_heap (delete a) w) = t_del a (core w).
Proof. done. Qed.
Lemma core_blocked f w : core (upd_blocked f w) = t_set_blocked (f (t_blocked (core w))) (core w).
Proof. done. Qed.
Lemma core_cookies f w : core (upd_cookies f w) = t_set_cookies (f (t_cookies (core w))) (core w).
Proof. done. Qed.
Lemma core_ht f w : core (upd_ht f w) = t_set_ht (f (t_ht (core w))) (core w).
Proof. done. Qed.
Lemma core_sched f w : core (upd_sched f w) = t_set_sched (f (t_sched (core w))) (core w).
Proof. done. Qed.
Lemma core_next n w : core (set_next n w) = t_set_next n (core w).
Proof. done. Qed.
Lemma core_gc n w : core (set_gc_cookie n w) = core w.
Proof. done. Qed.
Lemma core_fsal s w : core (set_fsal s w) = core w.
Proof. done. Qed.

End core_updates.

#[export] Hint Rewrite @core_put @core_del @core_blocked @core_cookies @core_ht @core_sched
  @core_next @core_gc @core_fsal : core.

(** Computes the table of the current world from the tables recorded on the way. *)
Ltac core_eq :=
  repeat (autorewrite with core; match goal with H : core _ = _ |- _ => rewrite H; clear H end);
  autorewrite with core.

(** ** Weakest preconditions of the primitives, in terms of [core] *)
Section prim_wp.
Context {F : Type}.
Implicit Types w : lock_world F.

Lemma wp_get_entry a e Q w : t_heap (core w) !! a = Some e -> Q e w -> wp (get_entry a) Q w.
Proof. intros Ha HQ. unfold get_entry. apply wp_bind, wp_gets. simpl in Ha. rewrite Ha. done. Qed.

Lemma wp_put_entry a e (Q : unit -> lock_world F -> Prop) w :
  (forall w', core w' = t_put a e (core w) -> Q tt w') -> wp (put_entry a e) Q w.
Proof. intros HQ. unfold put_entry. apply wp_modify, HQ. done. Qed.

Lemma wp_upd_entry a f e (Q : unit -> lock_world F -> Prop) w :
  t_heap (core w) !! a = Some e ->
  (forall w', core w' = t_put a (f e) (core w) -> Q tt w') -> wp (upd_entry a f) Q w.
Proof.
  intros Ha HQ. unfold upd_entry. apply wp_bind. eapply wp_get_entry; [done|].
  by apply wp_put_entry.
Qed.

Lemma wp_file_add_tail obj a (Q : unit -> lock_world F -> Prop) w :
  (forall w', core w' = t_set_list obj (t_list obj (core w) ++ [a]) (core w) -> Q tt w') ->
  wp (file_add_tail obj a) Q w.
Proof. intros HQ. by apply wp_modify, HQ. Qed.

Lemma wp_file_del obj a (Q : unit -> lock_world F -> Prop) w :
  (forall w', core w' = t_set_list obj (remove_id a (t_list obj (core w))) (core w) -> Q tt w') ->
  wp (file_del obj a) Q w.
Proof. intros HQ. by apply wp_modify, HQ. Qed.

(** Operations that leave the table alone. *)
Definition silent {A} (m : M (lock_world F) A) : Prop :=
  forall (Q : A -> lock_world F -> Prop) w, (forall a w', core w' = core w -> Q a w') -> wp m Q w.

Lemma silent_ret {A} (a : A) : silent (mret a).
Proof. intros Q w HQ. by apply wp_ret, HQ. Qed.
Lemma silent_bind {A B} (m : M (lock_world F) A) (f : A -> M (lock_world F) B) :
  silent m -> (forall a, silent (f a)) -> silent (m ≫= f).
Proof.
  intros Hm Hf Q w HQ. apply wp_bind, Hm. intros a w' Hw'. apply Hf. intros b w'' Hw''.
  apply HQ. congruence.
Qed.
Lemma silent_bk_ref k d : silent (bk_ref k d).
Proof. intros Q w HQ. by apply wp_modify, HQ. Qed.
Lemma silent_bk_add_tail k a : silent (bk_add_tail k a).
Proof. intros Q w HQ. by apply wp_modify, HQ. Qed.
Lemma silent_bk_del k a : silent (bk_del k a).
Proof. intros Q w HQ. by apply wp_modify, HQ. Qed.

End prim_wp.

#[export] Hint Resolve silent_ret silent_bind silent_bk_ref silent_bk_add_tail silent_bk_del : gsh.

(** Runs a prefix of operations that leave the table alone. *)
Ltac wp_silent :=
  apply wp_bind;
  lazymatch goal with |- wp ?m _ ?w =>
    let Hs := fresh in assert (silent m) as Hs by (repeat case_match; eauto 10 with gsh);
    apply Hs; clear Hs; intros ? ? ?
  end.

(** ** Preservation of the invariant *)
Section prims.
Context `{OwnerMem}.

Lemma wf_live X L t a e : wf X L t -> view L t a e -> t_heap t !! a = Some e.
Proof. by intros _ [? _]. Qed.

Lemma wf_on_list X L t obj a :
  wf X L t -> a ∈ t_list obj t -> exists e, view L t a e /\ sle_obj e = obj.
Proof.
  intros Hwf Ha. destruct (wf_list _ _ _ Hwf _ _ Ha) as (_ & e & He & <-).
  exists e. split; [split|]; [done| by left|done].
Qed.

Lemma wf_on_loose X L t a : wf X L t -> a ∈ L -> exists e, view L t a e.
Proof.
  intros Hwf Ha. destruct (wf_loose _ _ _ Hwf _ Ha) as (e & He).
  exists e. split; [done|by right].
Qed.

(** Replacing an entry by one with the same links, references and cookie. *)
Lemma wf_put X X' L t a e e' :
  wf X L t -> t_heap t !! a = Some e ->
  sle_obj e' = sle_obj e -> sle_ref_count e' = sle_ref_count e ->
  sle_owner e' = sle_owner e -> cookie_of e' = cookie_of e ->
  (is_Some (sle_block_data e) -> is_Some (sle_block_data e')) -> lock_ok (sle_lock e') ->
  (linked L t a e -> a ∉ X' -> status_ok e') ->
  (~ linked L t a e -> sle_blocked e' = sle_blocked e \/ sle_blocked e' = STATE_CANCELED) ->
  (a ∉ X' -> a ∉ X) -> (forall b, b <> a -> b ∈ X <-> b ∈ X') ->
  wf X' L (t_put a e' t).
Proof.
  intros Hwf Ha Hobj Href Hown Hck Hbd Hlk Hst Hgn HXa HX. destruct Hwf. constructor; simpl; auto.
  - intros obj b Hb. destruct (wf_list obj b Hb) as (Hn & eb & Heb & Hoeb). split; [done|].
    destruct (decide (a = b)) as [->|Hne].
    + exists e'. rewrite lookup_insert_eq. naive_solver.
    + exists eb. by rewrite lookup_insert_ne.
  - intros b Hb. rewrite lookup_insert_is_Some. destruct (decide (a = b)); auto.
  - intros b eb. destruct (decide (a = b)) as [->|Hne].
    + rewrite lookup_insert_eq. intros [= <-]. destruct (wf_entry _ _ Ha).
      assert (linked L (t_put b e' t) b e' <-> linked L t b e) as Hlink
        by (unfold linked; simpl; rewrite Hobj; done).
      constructor; simpl; auto; try congruence.
      * rewrite Href, ew_refs, Hck. do 3 f_equal. apply bool_decide_ext. done.
      * intros Hx. rewrite Href. auto.
      * rewrite Hck. intros c Hc. rewrite Hobj. auto.
      * rewrite Hlink, Hown. auto.
      * rewrite Hlink. auto.
      * rewrite Hlink, Hown. intros Hn. destruct (ew_gone Hn) as [-> Hb].
        destruct (Hgn Hn) as [->| ->]; auto.
    + rewrite lookup_insert_ne by done. intros Heb. destruct (wf_entry _ _ Heb).
      assert (b ∉ X' -> b ∉ X) by (rewrite HX by congruence; done).
      constructor; auto.
  - intros c k Hc. destruct (wf_cookie _ _ Hc) as (? & Hnh & Hht & ec & Hec & Hcc).
    assert (c <> a) by congruence. rewrite (lookup_insert_ne _ a c) by done.
    split; [done|]. split; [done|]. split; [rewrite <- HX by done; done|].
    destruct (decide (a = sce_lock_entry k)) as [->|Hne].
    + exists e'. rewrite lookup_insert_eq. split; [done|]. rewrite Hck. congruence.
    + exists ec. by rewrite lookup_insert_ne.
  - intros b Hb. destruct (wf_blocked _ Hb) as (eb & Heb & Hbdb).
    destruct (decide (a = b)) as [->|Hne].
    + exists e'. rewrite lookup_insert_eq. split; [done|]. apply Hbd. congruence.
    + exists eb. by rewrite lookup_insert_ne.
  - intros b Hb. rewrite lookup_insert_is_Some. destruct (decide (a = b)); auto.
  - intros b Hb. destruct (decide (b = a)) as [->|Hne].
    + apply (ew_fresh _ _ _ _ _ (wf_entry _ _ Ha)).
    + apply wf_exempted. by apply HX.
Qed.

(** End of a transition. *)
Lemma wf_settle X a L t e :
  wf (a :: X) L t -> t_heap t !! a = Some e -> 1 <= sle_ref_count e ->
  (linked L t a e -> a ∉ X -> status_ok e) -> wf X L t.
Proof.
  intros [] Ha Hr Hs. constructor; auto.
  - intros b eb Hb. destruct (wf_entry _ _ Hb).
    constructor; auto; intros; (destruct (decide (b = a)) as [->|Hne];
      [assert (eb = e) as -> by congruence; auto
      |assert (b ∉ a :: X) by (rewrite not_elem_of_cons; done); auto]).
  - intros c k Hc. destruct (wf_cookie _ _ Hc) as (? & ? & Hht & ?).
    split; [done|]. split; [done|]. split; [|done]. rewrite Hht, not_elem_of_cons.
    assert (c <> a) by congruence. tauto.
  - intros b Hb. apply wf_exempted. by right.
Qed.

Lemma view_put L t a e e' b eb :
  t_heap t !! a = Some e -> sle_obj e' = sle_obj e ->
  view L (t_put a e' t) b eb <->
  (b = a /\ eb = e' /\ linked L t a e) \/ (b <> a /\ view L t b eb).
Proof.
  intros Ha Hobj. unfold view, linked. simpl. destruct (decide (b = a)) as [->|Hne].
  - rewrite lookup_insert_eq. change (t_list ?o (t_put _ _ _)) with (t_list o t).
    split.
    + intros [[= <-] Hl]. left. change (t_list ?o (t_put _ _ _)) with (t_list o t) in Hl.
      rewrite Hobj in Hl. done.
    + intros [(_ & -> & Hl)|[? _]]; [|done]. split; [done|].
      change (t_list ?o (t_put _ _ _)) with (t_list o t). by rewrite Hobj.
  - rewrite lookup_insert_ne by done. change (t_list ?o (t_put _ _ _)) with (t_list o t).
    naive_solver.
Qed.

(** *** References *)

Definition t_free (a : positive) (e : state_lock_entry_t) (t : table) : table :=
  t_del a (t_set_blocked (if bool_decide (is_Some (sle_block_data e))
                          then remove_id a (t_blocked t) else t_blocked t) t).

(** [lock_entry_dec_ref] on a table. *)
Definition t_dec (a : positive) (e : state_lock_entry_t) (t : table) : table :=
  if decide (sle_ref_count e = 1) then t_free a e t
  else t_put a (set_refcount (sle_ref_count e - 1) e) t.

Lemma wp_lock_entry_dec_ref {F} a e (Q : unit -> lock_world F -> Prop) w :
  t_heap (core w) !! a = Some e -> 1 <= sle_ref_count e ->
  (forall w', core w' = t_dec a e (core w) -> Q tt w') -> wp (lock_entry_dec_ref a) Q w.
Proof.
  intros Ha Hr HQ. unfold lock_entry_dec_ref. apply wp_bind. eapply wp_get_entry; [done|].
  destruct (Z.ltb_spec (sle_ref_count e - 1) 0); [lia|]. unfold t_dec in HQ.
  destruct (Z.eqb_spec (sle_ref_count e - 1) 0).
  - rewrite decide_True in HQ by lia. unfold t_free in HQ.
    apply wp_bind, wp_mwhen; intros Hb; rewrite Hb in HQ.
    + apply wp_modify. do 2 wp_silent. apply wp_modify, HQ. by core_eq.
    + do 2 wp_silent. apply wp_modify, HQ. by core_eq.
  - rewrite decide_False in HQ by lia. by apply wp_put_entry.
Qed.

Lemma wf_unreferenced X L t a e :
  wf X L t -> t_heap t !! a = Some e -> sle_ref_count e = 0 ->
  ~ linked L t a e /\ cookie_of e = None /\ a ∉ t_sched t.
Proof.
  intros Hwf Ha Hr. destruct (wf_entry _ _ _ Hwf _ _ Ha) as [_ Hrefs _ _ _ _ _ _].
  rewrite Hr in Hrefs. split; [|split].
  - intros Hl. rewrite bool_decide_eq_true_2 in Hrefs by done.
    destruct (bool_decide _); simpl in Hrefs; lia.
  - destruct (cookie_of e); [|done]. rewrite (bool_decide_eq_true_2 (is_Some (Some _))) in Hrefs by eauto.
    destruct (bool_decide _); simpl in Hrefs; lia.
  - intros Hin. assert (count_id a (t_sched t) <> 0%nat).
    { unfold count_id. intros Hn%length_zero_iff_nil.
      assert (a ∈ filter (fun b => b = a) (t_sched t)) as Hf by by apply list_elem_of_filter.
      rewrite Hn in Hf. by apply elem_of_nil in Hf. }
    destruct (bool_decide _), (bool_decide _); simpl in Hrefs; lia.
Qed.

Lemma wf_free X L t a e :
  wf (a :: X) L t -> t_heap t !! a = Some e -> sle_ref_count e = 0 -> wf X L (t_free a e t).
Proof.
  intros Hwf Ha Hr. destruct (wf_unreferenced _ _ _ _ _ Hwf Ha Hr) as (Hnl & Hnc & Hns).
  destruct Hwf. constructor; simpl; auto.
  - intros obj b Hb. destruct (wf_list _ _ Hb) as (? & eb & Heb & Hob). split; [done|].
    exists eb. split; [|done]. rewrite lookup_delete_ne; [done|]. intros ->.
    apply Hnl. left. assert (eb = e) as -> by congruence. by rewrite Hob.
  - intros b Hb. rewrite lookup_delete_ne; [auto|]. intros ->. apply Hnl. by right.
  - intros b eb [Hne Hb]%lookup_delete_Some. destruct (wf_entry _ _ Hb).
    assert (b ∉ X -> b ∉ a :: X) by (rewrite not_elem_of_cons; done).
    constructor; auto.
  - intros c k Hc. destruct (wf_cookie _ _ Hc) as (? & Hnh & Hht & ec & Hec & Hcc).
    split; [done|]. rewrite lookup_delete_None. split; [by right|].
    split; [rewrite Hht, not_elem_of_cons; assert (c <> a) by congruence; tauto|].
    exists ec. split; [|done]. rewrite lookup_delete_ne; [done|]. intros ->. congruence.
  - intros b Hb. assert (b ∈ t_blocked t /\ b <> a) as [Hb' Hne].
    { case_bool_decide as Hs; [by apply elem_of_remove_id in Hb|]. split; [done|].
      intros ->. apply Hs. destruct (wf_blocked _ Hb) as (e' & He' & ?). congruence. }
    rewrite lookup_delete_ne by done. auto.
  - intros b Hb. rewrite lookup_delete_ne; [auto|]. by intros ->.
  - intros b Hb. apply wf_exempted. by right.
Qed.

(** Giving up a reference: the entry as it is with one reference less must be
    well-formed up to being unreferenced. *)
Lemma wf_dec X L t a e :
  wf (a :: X) L (t_put a (set_refcount (sle_ref_count e - 1) e) t) ->
  1 <= sle_ref_count e ->
  (linked L t a e -> a ∉ X -> status_ok e) -> wf X L (t_dec a e t).
Proof.
  intros Hwf Hr Hst. unfold t_dec. case_decide as Hone.
  - assert (t_free a e t
            = t_free a (set_refcount (sle_ref_count e - 1) e)
                (t_put a (set_refcount (sle_ref_count e - 1) e) t)) as ->.
    { unfold t_free, t_del, t_put, t_set_blocked. simpl. by rewrite delete_insert_eq. }
    eapply wf_free; [done| |simpl; lia]. simpl. by rewrite lookup_insert_eq.
  - eapply wf_settle; [done|simpl; by rewrite lookup_insert_eq|simpl; lia|].
    intros Hl Hx. by apply Hst.
Qed.

Lemma view_dec L t a e b eb :
  t_heap t !! a = Some e -> b <> a -> view L (t_dec a e t) b eb <-> view L t b eb.
Proof.
  intros Ha Hne. unfold t_dec. case_decide.
  - unfold view, linked. simpl. by rewrite lookup_delete_ne.
  - rewrite (view_put _ _ _ e) by done. naive_solver.
Qed.

(** *** Creation *)

Lemma wf_fresh_heap X L t : wf X L t -> t_heap t !! t_next t = None.
Proof.
  intros Hwf. destruct (t_heap t !! t_next t) as [e|] eqn:He; [|done].
  pose proof (ew_fresh _ _ _ _ _ (wf_entry _ _ _ Hwf _ _ He)). lia.
Qed.

Lemma wf_fresh_unlinked X L t obj :
  wf X L t -> t_next t ∉ t_list obj t /\ t_next t ∉ L /\ t_next t ∉ t_sched t.
Proof.
  intros Hwf. pose proof (wf_fresh_heap _ _ _ Hwf) as Hn. split; [|split]; intros Hin.
  - destruct (wf_list _ _ _ Hwf _ _ Hin) as (_ & e & He & _). congruence.
  - destruct (wf_loose _ _ _ Hwf _ Hin). congruence.
  - destruct (wf_sched _ _ _ Hwf _ Hin). congruence.
Qed.

Lemma wf_skip_next X L t n : wf X L t -> (t_next t <= n)%positive -> wf X L (t_set_next n t).
Proof.
  intros [] Hle. constructor; simpl; auto.
  - intros a e Ha. destruct (wf_entry _ _ Ha). constructor; simpl; auto. lia.
  - intros c k Hc. destruct (wf_cookie _ _ Hc) as [? ?]. split; [lia|done].
  - intros a Ha. specialize (wf_exempted _ Ha). lia.
Qed.

Lemma wf_create X L t e o :
  wf X L t -> sle_block_data e = None -> sle_owner e = Some o -> owner_ok o ->
  sle_blocked e = STATE_NON_BLOCKING -> sle_ref_count e = 1 -> lock_ok (sle_lock e) ->
  wf X (t_next t :: L) (t_put (t_next t) e (t_set_next (Pos.succ (t_next t)) t)).
Proof.
  intros Hwf Hbd Ho Hok Hnb Hr Hlk.
  pose proof (wf_fresh_heap _ _ _ Hwf) as Hn.
  assert (forall obj, t_next t ∉ t_list obj t) as Hnl
    by (intros obj; apply (wf_fresh_unlinked _ _ _ obj Hwf)).
  destruct (wf_fresh_unlinked _ _ _ xH Hwf) as (_ & HnL & Hns).
  assert (cookie_of e = None) as Hc by (unfold cookie_of; by rewrite Hbd).
  destruct Hwf. constructor; simpl; auto.
  - by apply NoDup_cons.
  - intros obj a Ha. destruct (wf_list _ _ Ha) as (HaL & ea & Hea & Hoa).
    assert (a <> t_next t) by congruence. rewrite lookup_insert_ne by done.
    split; [|eauto]. by rewrite not_elem_of_cons.
  - intros a [->|Ha]%elem_of_cons; rewrite lookup_insert_is_Some; [by left|].
    right. split; [congruence|auto].
  - intros a ea [[<- <-]|[Hne Ha]]%lookup_insert_Some.
    + assert (linked (t_next t :: L) (t_put (t_next t) e (t_set_next (Pos.succ (t_next t)) t))
                (t_next t) e) as Hl by (right; left).
      constructor; simpl; auto; try lia.
      * rewrite bool_decide_eq_true_2 by done. rewrite Hc, count_id_0 by done. done.
      * rewrite Hc. done.
      * eauto.
      * intros _ _. unfold status_ok. by rewrite Hnb.
      * by intros [].
    + destruct (wf_entry _ _ Ha).
      assert (linked (t_next t :: L) (t_put (t_next t) e (t_set_next (Pos.succ (t_next t)) t)) a ea
              <-> linked L t a ea) as Hl.
      { unfold linked. rewrite elem_of_cons. simpl.
        change (t_list ?o (t_put _ _ _)) with (t_list o t). naive_solver. }
      constructor; simpl; auto; try lia; try rewrite Hl; auto.
      rewrite ew_refs. do 3 f_equal. by apply bool_decide_ext.
  - intros c k Hk. destruct (wf_cookie _ _ Hk) as (? & Hnh & Hht & ec & Hec & Hcc). split; [lia|].
    rewrite (lookup_insert_ne _ _ c) by lia. split; [done|]. split; [done|].
    exists ec. split; [|done]. rewrite lookup_insert_ne; [done|]. congruence.
  - intros a Ha. destruct (wf_blocked _ Ha) as (ea & Hea & ?). exists ea.
    rewrite lookup_insert_ne; [done|]. congruence.
  - intros a Ha. rewrite lookup_insert_is_Some. right. split; [|auto]. intros <-. done.
  - intros a Ha. specialize (wf_exempted _ Ha). lia.
Qed.

Lemma view_create X L t e b eb :
  wf X L t ->
  view (t_next t :: L) (t_put (t_next t) e (t_set_next (Pos.succ (t_next t)) t)) b eb <->
  (b = t_next t /\ eb = e) \/ view L t b eb.
Proof.
  intros Hwf. pose proof (wf_fresh_heap _ _ _ Hwf) as Hn. unfold view, linked. simpl.
  change (t_list ?o (t_put _ _ _)) with (t_list o t).
  rewrite lookup_insert_Some, elem_of_cons. split.
  - naive_solver.
  - intros [[-> ->]|[Hb Hl]]; [naive_solver|].
    assert (b <> t_next t) by congruence. naive_solver.
Qed.

(** *** Moving entries between lists *)

(** Any change of the lists that keeps the same entries linked. *)
Lemma wf_relink X L L' t m :
  let t' := Tab (t_heap t) m (t_blocked t) (t_cookies t) (t_ht t) (t_sched t) (t_next t) in
  wf X L t ->
  (forall obj, NoDup (t_list obj t')) -> NoDup L' ->
  (forall obj a, a ∈ t_list obj t' ->
     a ∉ L' /\ exists e, t_heap t !! a = Some e /\ sle_obj e = obj) ->
  (forall a, a ∈ L' -> is_Some (t_heap t !! a)) ->
  (forall a e, t_heap t !! a = Some e -> linked L' t' a e <-> linked L t a e) ->
  wf X L' t'.
Proof.
  intros t' [] Hnd HndL Hin HinL Hl. constructor; auto.
  intros a e Ha. specialize (Hl a e Ha). destruct (wf_entry _ _ Ha).
  constructor; auto; try rewrite Hl; auto.
  rewrite ew_refs. do 3 f_equal. by apply bool_decide_ext.
Qed.

(** [glist_add_tail] of a private list at the end of a file's list. *)
Lemma wf_append X L L2 t obj :
  wf X (L ++ L2) t ->
  (forall a, a ∈ L -> exists e, t_heap t !! a = Some e /\ sle_obj e = obj) ->
  wf X L2 (t_set_list obj (t_list obj t ++ L) t).
Proof.
  intros Hwf Hobj. pose proof (wf_list _ _ _ Hwf) as Hlist.
  pose proof (wf_loose_nodup _ _ _ Hwf) as (HL & Hd & HL2)%NoDup_app.
  eapply wf_relink; [done| | | | |].
  - intros o. change (NoDup (t_list o (t_set_list obj (t_list obj t ++ L) t))).
    rewrite t_list_set_list. case_decide; [|eauto with gsh].
    apply NoDup_app. split; [eauto with gsh|]. split; [|done].
    intros a Ha HaL. destruct (Hlist _ _ Ha) as [Hn _]. apply Hn. apply elem_of_app. by left.
  - done.
  - intros o a. change (a ∈ t_list o (t_set_list obj (t_list obj t ++ L) t) ->
      a ∉ L2 /\ exists e, t_heap t !! a = Some e /\ sle_obj e = o).
    rewrite t_list_set_list. case_decide; subst.
    + intros [Ha|Ha]%elem_of_app.
      * destruct (Hlist _ _ Ha) as [Hn ?]. split; [|done]. rewrite elem_of_app in Hn. naive_solver.
      * split; [|auto]. intros Ha2. by apply (Hd a).
    + intros Ha. destruct (Hlist _ _ Ha) as [Hn ?]. split; [|done].
      rewrite elem_of_app in Hn. naive_solver.
  - intros a Ha. apply (wf_loose _ _ _ Hwf), elem_of_app. by right.
  - intros a e Ha. unfold linked.
    change (a ∈ t_list (sle_obj e) (t_set_list obj (t_list obj t ++ L) t) \/ a ∈ L2 <->
            a ∈ t_list (sle_obj e) t \/ a ∈ L ++ L2).
    rewrite t_list_set_list. case_decide as Hc; subst; rewrite ?elem_of_app; [naive_solver|].
    split; [naive_solver|]. intros [?|[HaL|?]]; [naive_solver| |naive_solver].
    destruct (Hobj _ HaL) as (e' & ? & ?). congruence.
Qed.

Lemma view_append X L L2 t obj a e :
  wf X (L ++ L2) t ->
  (forall a, a ∈ L -> exists e, t_heap t !! a = Some e /\ sle_obj e = obj) ->
  view L2 (t_set_list obj (t_list obj t ++ L) t) a e <-> view (L ++ L2) t a e.
Proof.
  intros Hwf Hobj. unfold view, linked. simpl. rewrite t_list_set_list.
  split; (intros [Ha Hl]; split; [done|]); revert Hl;
    case_decide as Hc; subst; rewrite ?elem_of_app; naive_solver.
Qed.

(** [glist_del] of an entry from its file's list. *)
Lemma wf_detach X L t obj a :
  wf X L t -> a ∈ t_list obj t ->
  wf X (L ++ [a]) (t_set_list obj (remove_id a (t_list obj t)) t).
Proof.
  intros Hwf Ha. pose proof (wf_list _ _ _ Hwf) as Hlist.
  destruct (Hlist _ _ Ha) as (HnL & e0 & He0 & Hoe0).
  eapply wf_relink; [done| | | | |].
  - intros o. change (NoDup (t_list o (t_set_list obj (remove_id a (t_list obj t)) t))).
    rewrite t_list_set_list. case_decide; eauto with gsh.
  - apply NoDup_app. split; [eauto with gsh|]. split; [set_solver|apply NoDup_singleton].
  - intros o b. change (b ∈ t_list o (t_set_list obj (remove_id a (t_list obj t)) t) ->
      b ∉ L ++ [a] /\ exists e, t_heap t !! b = Some e /\ sle_obj e = o).
    rewrite t_list_set_list. case_decide; subst.
    + intros [Hb Hne]%elem_of_remove_id. destruct (Hlist _ _ Hb) as [Hn ?].
      split; [set_solver|done].
    + intros Hb. destruct (Hlist _ _ Hb) as (Hn & eb & Heb & Hob). split; [|eauto].
      assert (b <> a) by congruence. set_solver.
  - intros b [Hb|Hb]%elem_of_app; [by apply (wf_loose _ _ _ Hwf)|].
    apply list_elem_of_singleton in Hb. subst. eauto.
  - intros b e Hb. unfold linked.
    change (b ∈ t_list (sle_obj e) (t_set_list obj (remove_id a (t_list obj t)) t) \/ b ∈ L ++ [a] <->
            b ∈ t_list (sle_obj e) t \/ b ∈ L).
    rewrite t_list_set_list, elem_of_app, list_elem_of_singleton. case_decide as Hc; subst.
    + rewrite Hc, elem_of_remove_id. destruct (decide (b = a)); naive_solver.
    + split; [|naive_solver]. intros [?|[?| ->]]; [naive_solver..|]. congruence.
Qed.

Lemma view_detach X L t obj a b e :
  wf X L t -> a ∈ t_list obj t ->
  view (L ++ [a]) (t_set_list obj (remove_id a (t_list obj t)) t) b e <-> view L t b e.
Proof.
  intros Hwf Ha. destruct (wf_list _ _ _ Hwf _ _ Ha) as (HnL & e0 & He0 & Hoe0).
  unfold view, linked. simpl. rewrite t_list_set_list, elem_of_app, list_elem_of_singleton.
  split; (intros [Hb Hl]; split; [done|]); revert Hl; case_decide as Hc; subst.
  - rewrite Hc, elem_of_remove_id. naive_solver.
  - intros [?|[?| ->]]; [naive_solver..|]. congruence.
  - rewrite Hc, elem_of_remove_id. destruct (decide (b = a)); naive_solver.
  - naive_solver.
Qed.

(** *** Removal *)

(** The entry [remove_from_locklist] leaves to those who still refer to it. *)
Definition unlinked_entry (e : state_lock_entry_t) : state_lock_entry_t :=
  set_owner None
    (if bool_decide (sle_blocked e <> STATE_NON_BLOCKING)
        && bool_decide (sle_blocked e <> STATE_CANCELED)
     then set_blocked STATE_CANCELED e else e).

Lemma unlinked_entry_fields e :
  sle_obj (unlinked_entry e) = sle_obj e /\ sle_ref_count (unlinked_entry e) = sle_ref_count e /\
  sle_block_data (unlinked_entry e) = sle_block_data e /\ sle_lock (unlinked_entry e) = sle_lock e.
Proof. unfold unlinked_entry. by destruct (_ && _). Qed.

Lemma unlinked_entry_gone e :
  sle_owner (unlinked_entry e) = None /\
  (sle_blocked (unlinked_entry e) = STATE_NON_BLOCKING
   \/ sle_blocked (unlinked_entry e) = STATE_CANCELED).
Proof. unfold unlinked_entry. by destruct e as [? ? ? ? ? [] ? ?]; simpl; auto. Qed.

#[local] Opaque unlinked_entry.

Definition t_remove (a : positive) (e : state_lock_entry_t) (t : table) : table :=
  t_dec a (unlinked_entry e)
    (t_set_list (sle_obj e) (remove_id a (t_list (sle_obj e) t)) (t_put a (unlinked_entry e) t)).

Lemma linked_removed X L t a e b eb :
  wf X L t -> t_heap t !! a = Some e -> t_heap t !! b = Some eb -> b <> a ->
  (b ∈ t_list (sle_obj eb) (t_set_list (sle_obj e) (remove_id a (t_list (sle_obj e) t)) t)
     \/ b ∈ remove_id a L) <-> linked L t b eb.
Proof.
  intros Hwf Ha Hb Hne. unfold linked. rewrite t_list_set_list, elem_of_remove_id.
  case_decide as Hc; [rewrite Hc, elem_of_remove_id|]; naive_solver.
Qed.

Lemma not_linked_removed X L t a e :
  wf X L t -> t_heap t !! a = Some e ->
  ~ (a ∈ t_list (sle_obj e) (t_set_list (sle_obj e) (remove_id a (t_list (sle_obj e) t)) t)
     \/ a ∈ remove_id a L).
Proof.
  intros Hwf Ha. rewrite t_list_set_list, decide_True by done. rewrite !elem_of_remove_id. naive_solver.
Qed.

Lemma wf_unlinked X L t a e :
  wf X L t -> t_heap t !! a = Some e -> linked L t a e ->
  wf (a :: X) (remove_id a L)
    (t_put a (set_refcount (sle_ref_count e - 1) (unlinked_entry e))
       (t_set_list (sle_obj e) (remove_id a (t_list (sle_obj e) t)) (t_put a (unlinked_entry e) t))).
Proof.
  intros Hwf Ha Hl. destruct (unlinked_entry_fields e) as (Ho & Hr & Hb & Hlk).
  assert (cookie_of (unlinked_entry e) = cookie_of e) as Hck by (unfold cookie_of; by rewrite Hb).
  pose proof (fun b eb => linked_removed _ _ _ _ _ b eb Hwf Ha) as Hlink.
  pose proof (not_linked_removed _ _ _ _ _ Hwf Ha) as Hnlink.
  destruct Hwf. constructor; simpl; auto with gsh.
  - intros obj. rewrite t_list_put, t_list_set_list, t_list_put. case_decide; auto with gsh.
  - intros obj b. rewrite t_list_put, t_list_set_list, t_list_put, elem_of_remove_id. intros Hbl.
    assert (b ∈ t_list obj t /\ b <> a) as [Hbl' Hne].
    { revert Hbl. case_decide; subst; [by rewrite elem_of_remove_id|]. intros Hbl. split; [done|].
      intros ->. destruct (wf_list _ _ Hbl) as (_ & e' & ? & ?). congruence. }
    destruct (wf_list _ _ Hbl') as (Hn & eb & Heb & Hob). split; [naive_solver|].
    exists eb. by rewrite !lookup_insert_ne.
  - intros b [Hbl Hne]%elem_of_remove_id. rewrite !lookup_insert_ne by done. auto.
  - intros b eb. destruct (decide (b = a)) as [->|Hne].
    + rewrite lookup_insert_eq. intros [= <-]. destruct (wf_entry _ _ Ha).
      assert (~ linked (remove_id a L) (t_put a (set_refcount (sle_ref_count e - 1) (unlinked_entry e))
       (t_set_list (sle_obj e) (remove_id a (t_list (sle_obj e) t)) (t_put a (unlinked_entry e) t))) a
         (set_refcount (sle_ref_count e - 1) (unlinked_entry e))) as Hnl.
      { unfold linked. simpl. rewrite Ho. exact Hnlink. }
      constructor; simpl; rewrite ?Hlk; auto; try done.
      * rewrite bool_decide_eq_false_2 by done. rewrite ew_refs.
        rewrite (bool_decide_eq_true_2 (linked L t a e)) by done.
        change (cookie_of (set_refcount _ ?x)) with (cookie_of x). rewrite Hck. simpl. lia.
      * rewrite not_elem_of_cons. naive_solver.
      * change (cookie_of (set_refcount _ ?x)) with (cookie_of x). rewrite Hck, Ho. auto.
      * intros _. apply unlinked_entry_gone.
    + rewrite !lookup_insert_ne by done. intros Heb. destruct (wf_entry _ _ Heb).
      specialize (Hlink b eb Heb Hne).
      assert (b ∉ a :: X -> b ∉ X) by (rewrite not_elem_of_cons; naive_solver).
      constructor; simpl; auto; try (intros Hl'; apply Hlink in Hl'; auto).
      * rewrite ew_refs. do 3 f_equal. apply bool_decide_ext. symmetry. exact Hlink.
      * intros Hn. apply ew_gone. intros Hl'. by apply Hn, Hlink.
  - intros c k Hk. destruct (wf_cookie _ _ Hk) as (? & Hnh & Hht & ec & Hec & Hcc).
    assert (c <> a) by congruence. rewrite !(lookup_insert_ne _ a c) by done.
    split; [done|]. split; [done|]. split; [rewrite Hht, not_elem_of_cons; tauto|].
    destruct (decide (sce_lock_entry k = a)) as [Heq|Hne]; [rewrite Heq in *|].
    + eexists. rewrite lookup_insert_eq. split; [done|].
      change (cookie_of (set_refcount _ ?x)) with (cookie_of x). rewrite Hck. congruence.
    + exists ec. by rewrite !lookup_insert_ne.
  - intros b Hbl. destruct (wf_blocked _ Hbl) as (eb & Heb & ?).
    destruct (decide (b = a)) as [->|Hne].
    + eexists. rewrite lookup_insert_eq. split; [done|]. simpl. rewrite Hb. congruence.
    + exists eb. by rewrite !lookup_insert_ne.
  - intros b Hs. destruct (decide (b = a)) as [->|Hne]; [by rewrite lookup_insert_eq|].
    rewrite !lookup_insert_ne by done. auto.
  - intros b [->|Hbx]%elem_of_cons; [apply (ew_fresh _ _ _ _ _ (wf_entry _ _ Ha))|auto].
Qed.

End prims.

(** ** Operations on lock entries *)
Section entry_ops.
Context `{OwnerMem} {F : Type}.
Implicit Types w : lock_world F.

Lemma t_put_put a e e' t : t_put a e (t_put a e' t) = t_put a e t.
Proof. unfold t_put. simpl. by rewrite insert_insert_eq. Qed.

Lemma wf_linked_ref X L t a e : wf X L t -> view L t a e -> 1 <= sle_ref_count e.
Proof.
  intros Hwf [Ha Hl]. rewrite (ew_refs _ _ _ _ _ (wf_entry _ _ _ Hwf _ _ Ha)).
  rewrite bool_decide_eq_true_2 by done. destruct (bool_decide (is_Some _)); simpl; lia.
Qed.

Lemma wp_remove_core X L a e (Q : unit -> lock_world F -> Prop) w :
  wf X L (core w) -> view L (core w) a e ->
  (forall w', core w' = t_remove a e (core w) -> Q tt w') -> wp (remove_from_locklist a) Q w.
Proof.
  intros Hwf Hv HQ. pose proof (wf_linked_ref _ _ _ _ _ Hwf Hv) as Hr. destruct Hv as [Ha Hl].
  destruct (ew_owner _ _ _ _ _ (wf_entry _ _ _ Hwf _ _ Ha) Hl) as (o & Ho & _).
  unfold remove_from_locklist. apply wp_bind. eapply wp_get_entry; [done|]. rewrite Ho.
  wp_silent. rename H0 into Hc1.
  assert (t_heap (core w') !! a = Some e) as Ha' by by rewrite Hc1.
  apply wp_bind.
  set (e1 := if bool_decide (sle_blocked e <> STATE_NON_BLOCKING)
               && bool_decide (sle_blocked e <> STATE_CANCELED)
             then set_blocked STATE_CANCELED e else e).
  assert (wp (mwhen (bool_decide (sle_blocked e <> STATE_NON_BLOCKING)
         && bool_decide (sle_blocked e <> STATE_CANCELED))
    (upd_entry a (set_blocked STATE_CANCELED))) (fun _ w2 => core w2 = t_put a e1 (core w)) w') as Hm.
  { apply wp_mwhen; intros Hb; unfold e1; rewrite Hb.
    - eapply wp_upd_entry; [done|]. intros w2 ->. by rewrite Hc1.
    - rewrite Hc1. unfold t_put. rewrite insert_id by done. by destruct (core w). }
  eapply wp_mono; [exact Hm|]. intros [] w2 Hw2. apply wp_bind.
  eapply (wp_upd_entry _ _ e1); [rewrite Hw2; simpl; by rewrite lookup_insert_eq|].
  intros w3 Hw3. rewrite Hw2, t_put_put in Hw3.
  change (set_owner None e1) with (unlinked_entry e) in Hw3.
  apply wp_bind, wp_file_del. intros w4 Hw4. rewrite Hw3 in Hw4.
  destruct (unlinked_entry_fields e) as (Hob & Hrc & _ & _).
  eapply wp_lock_entry_dec_ref.
  - rewrite Hw4. simpl. by rewrite lookup_insert_eq.
  - by rewrite Hrc.
  - intros w5 Hw5. apply HQ. rewrite Hw5, Hw4. done.
Qed.

Lemma wf_remove X L t a e :
  wf X L t -> view L t a e -> wf X (remove_id a L) (t_remove a e t).
Proof.
  intros Hwf Hv. pose proof (wf_linked_ref _ _ _ _ _ Hwf Hv). destruct Hv as [Ha Hl].
  destruct (unlinked_entry_fields e) as (Hob & Hrc & _ & _).
  unfold t_remove. apply wf_dec.
  - rewrite Hrc. by apply wf_unlinked.
  - by rewrite Hrc.
  - intros Hl' _. exfalso. unfold linked in Hl'. rewrite Hob in Hl'.
    by apply (not_linked_removed _ _ _ _ _ Hwf Ha).
Qed.

Lemma t_remove_list a e t obj :
  t_list obj (t_remove a e t) =
  if decide (obj = sle_obj e) then remove_id a (t_list (sle_obj e) t) else t_list obj t.
Proof.
  unfold t_remove, t_dec. case_decide; rewrite <- (t_list_set_list _ _ (t_put a (unlinked_entry e) t)); done.
Qed.

Lemma wf_remove_list X L t a e obj :
  wf X L t -> t_heap t !! a = Some e -> t_list obj (t_remove a e t) = remove_id a (t_list obj t).
Proof.
  intros Hwf Ha. rewrite t_remove_list. case_decide as Hc; [by subst|].
  rewrite remove_id_not_in; [done|]. intros Hin.
  destruct (wf_list _ _ _ Hwf _ _ Hin) as (_ & e' & ? & ?). congruence.
Qed.

Lemma t_remove_heap a e t b :
  b <> a -> t_heap (t_remove a e t) !! b = t_heap t !! b.
Proof.
  intros Hne. unfold t_remove, t_dec. case_decide; simpl;
    rewrite ?lookup_delete_ne, ?lookup_insert_ne by done; done.
Qed.

Lemma view_remove X L t a e b eb :
  wf X L t -> view L t a e ->
  view (remove_id a L) (t_remove a e t) b eb <-> view L t b eb /\ b <> a.
Proof.
  intros Hwf [Ha Hl]. pose proof (wf_remove _ _ _ _ _ Hwf (conj Ha Hl)) as Hwf'.
  unfold view. destruct (decide (b = a)) as [->|Hne].
  - split; [|naive_solver]. intros [Hb [Hin|Hin]].
    + rewrite (wf_remove_list X L) in Hin by done. apply elem_of_remove_id in Hin. naive_solver.
    + apply elem_of_remove_id in Hin. naive_solver.
  - rewrite t_remove_heap by done. unfold linked.
    rewrite (wf_remove_list X L) by done. rewrite !elem_of_remove_id. naive_solver.
Qed.

Lemma t_remove_rest a e t :
  t_cookies (t_remove a e t) = t_cookies t /\ t_ht (t_remove a e t) = t_ht t /\
  t_sched (t_remove a e t) = t_sched t /\ t_next (t_remove a e t) = t_next t.
Proof. unfold t_remove, t_dec. by case_decide. Qed.

(** [remove_from_locklist] of a linked entry. *)
Lemma wp_remove_from_locklist X L a e (Q : unit -> lock_world F -> Prop) w :
  wf X L (core w) -> view L (core w) a e ->
  (forall w', wf X (remove_id a L) (core w') -> core w' = t_remove a e (core w) -> Q tt w') ->
  wp (remove_from_locklist a) Q w.
Proof.
  intros Hwf Hv HQ. eapply wp_remove_core; [done..|]. intros w' Hw'. apply HQ; [|done].
  rewrite Hw'. by apply wf_remove.
Qed.

(** The entry [create_state_lock_entry] allocates. *)
Definition new_entry obj export blocked owner state lock : state_lock_entry_t :=
  {| sle_export := export; sle_obj := obj; sle_block_data := None; sle_owner := Some owner;
     sle_state := state; sle_blocked := blocked; sle_ref_count := 1; sle_lock := lock |}.

Lemma wp_create obj export blocked owner state lock (Q : positive -> lock_world F -> Prop) w :
  (forall w', core w' = t_put (t_next (core w)) (new_entry obj export blocked owner state lock)
                          (t_set_next (Pos.succ (t_next (core w))) (core w)) ->
     Q (t_next (core w)) w') ->
  wp (create_state_lock_entry obj export blocked owner state lock) Q w.
Proof.
  intros HQ. unfold create_state_lock_entry, alloc.
  apply wp_bind, wp_bind, wp_gets, wp_bind, wp_modify, wp_ret, wp_bind, wp_put_entry.
  intros w' Hw'. do 7 wp_silent. apply wp_ret, HQ. by core_eq.
Qed.

End entry_ops.
