(* ===== verification/LockAlgo.v ===== *)
(** * Correctness of the lock list algorithms

    What the list algorithms of [LockTable] do to the bytes each owner holds. *)
From S2P Require Import Prelude Owners LockTable LockInv LockPrims.
Local Open Scope Z_scope.

(** ** Ranges *)

(** The lock covers byte [x]. *)
Definition covers (l : fsal_lock_param_t) (x : Z) : Prop := lock_start l <= x <= lock_end l.

Lemma lock_end_ok l :
  lock_ok l ->
  lock_start l <= lock_end l <= UINT64_MAX /\
  (lock_length l = 0 /\ lock_end l = UINT64_MAX \/
   0 < lock_length l /\ lock_end l = lock_start l + lock_length l - 1).
Proof.
  unfold lock_ok, lock_end. intros (Hs & Hl & He).
  destruct (Z.eqb_spec (lock_length l) 0); [lia|]. rewrite u64_small by lia. lia.
Qed.

(** A range built from its first and last byte. *)
Lemma set_range_ok s e len l :
  0 <= s <= e -> e <= UINT64_MAX ->
  len = u64 (e - s + 1) ->
  lock_ok (set_range s len l) /\ lock_end (set_range s len l) = e.
Proof.
  intros Hs He ->. unfold lock_ok, lock_end. simpl.
  destruct (decide (e - s + 1 <= UINT64_MAX)).
  - rewrite (u64_small (e - s + 1)) by lia. destruct (Z.eqb_spec (e - s + 1) 0); [lia|].
    rewrite u64_small by lia. lia.
  - assert (s = 0 /\ e = UINT64_MAX) as [-> ->] by lia.
    assert (u64 (UINT64_MAX - 0 + 1) = 0) as -> by done. simpl. lia.
Qed.

Lemma set_range_covers s e len l x :
  0 <= s <= e -> e <= UINT64_MAX -> len = u64 (e - s + 1) ->
  covers (set_range s len l) x <-> s <= x <= e.
Proof.
  intros Hs He Hl. unfold covers. destruct (set_range_ok s e len l Hs He Hl) as [_ ->]. done.
Qed.

Lemma ranges_overlap_spec e lock :
  lock_ok (sle_lock e) -> lock_ok lock ->
  ranges_overlap e lock = true <-> exists x, covers (sle_lock e) x /\ covers lock x.
Proof.
  intros H1%lock_end_ok H2%lock_end_ok. unfold ranges_overlap, covers.
  rewrite andb_true_iff, !Z.leb_le. split.
  - intros. exists (Z.max (lock_start (sle_lock e)) (lock_start lock)). lia.
  - intros (x & ? & ?). lia.
Qed.

(** ** Holdings *)

Definition granted (e : state_lock_entry_t) : Prop := sle_blocked e = STATE_NON_BLOCKING.
(** Granted, or being granted. *)
Definition active (e : state_lock_entry_t) : Prop :=
  sle_blocked e = STATE_NON_BLOCKING \/ sle_blocked e = STATE_GRANTING.

#[export] Instance active_dec e : Decision (active e).
Proof. unfold active. apply _. Defined.
#[export] Instance granted_dec e : Decision (granted e).
Proof. unfold granted. apply _. Defined.

Section holdings.
Context `{OwnerMem}.

(** Two active locks of one file that different owners hold on a common byte
    are both read locks. *)
Definition compatible (e e' : state_lock_entry_t) : Prop :=
  sle_obj e = sle_obj e' -> active e -> active e' ->
  ~ same_owner (sle_owner e) (sle_owner e') ->
  forall x, covers (sle_lock e) x -> covers (sle_lock e') x ->
  types_conflict (lock_type (sle_lock e)) (lock_type (sle_lock e')) = false.

Definition conflict_free (L : list positive) (t : table) : Prop :=
  forall a e b e', view L t a e -> view L t b e' -> compatible e e'.

(** [e'] holds on byte [x] nothing that [e] does not hold. *)
Definition holds_of (e e' : state_lock_entry_t) (x : Z) : Prop :=
  sle_obj e = sle_obj e' /\ same_owner (sle_owner e) (sle_owner e') /\
  lock_type (sle_lock e) = lock_type (sle_lock e') /\ covers (sle_lock e) x.

(** Every byte an active lock of the second table covers was covered by an
    active lock of the same owner and type in the first. *)
Definition subsumed (L : list positive) (t : table) (L' : list positive) (t' : table) : Prop :=
  forall a' e', view L' t' a' e' -> active e' -> forall x, covers (sle_lock e') x ->
  exists a e, view L t a e /\ active e /\ holds_of e e' x.

Lemma types_conflict_sym t1 t2 : types_conflict t1 t2 = types_conflict t2 t1.
Proof. unfold types_conflict. apply orb_comm. Qed.

Lemma conflict_free_subsumed L t L' t' :
  conflict_free L t -> subsumed L t L' t' -> conflict_free L' t'.
Proof.
  intros Hcf Hs a1 e1 b1 e1' Hv Hv' Ho Ha Ha' Hd x Hx Hx'.
  destruct (Hs _ _ Hv Ha x Hx) as (a & e & Hve & Hae & (Hob & Hso & Hty & Hc)).
  destruct (Hs _ _ Hv' Ha' x Hx') as (a' & e' & Hve' & Hae' & (Hob' & Hso' & Hty' & Hc')).
  rewrite <- Hty, <- Hty'. eapply (Hcf a e a' e'); eauto; [congruence|].
  intros Hsame. apply Hd. eapply same_owner_trans; [by apply same_owner_sym|].
  eapply same_owner_trans; [exact Hsame|done].
Qed.

Lemma view_owner X L t a e : wf X L t -> view L t a e -> same_owner (sle_owner e) (sle_owner e).
Proof.
  intros Hwf [Ha Hl]. destruct (ew_owner _ _ _ _ _ (wf_entry _ _ _ Hwf _ _ Ha) Hl) as (o & -> & _).
  apply same_owner_refl.
Qed.

Lemma view_lock X L t a e : wf X L t -> view L t a e -> lock_ok (sle_lock e).
Proof. intros Hwf [Ha _]. apply (ew_lock _ _ _ _ _ (wf_entry _ _ _ Hwf _ _ Ha)). Qed.

(** Entries kept as they are are subsumed by themselves. *)
Lemma subsumed_views X L t L' t' :
  wf X L t -> (forall a e, view L' t' a e -> active e -> view L t a e) -> subsumed L t L' t'.
Proof.
  intros Hwf Hv a e Hve Ha x Hx. exists a, e. split; [auto|]. split; [done|].
  split; [done|]. split; [|done]. eapply view_owner; eauto.
Qed.

Lemma subsumed_trans L t L' t' L'' t'' :
  subsumed L t L' t' -> subsumed L' t' L'' t'' -> subsumed L t L'' t''.
Proof.
  intros H1 H2 a e Hv Ha x Hx. destruct (H2 _ _ Hv Ha x Hx) as (a' & e' & Hv' & Ha' & (Ho & Hs & Ht & Hc)).
  destruct (H1 _ _ Hv' Ha' x Hc) as (a'' & e'' & Hv'' & Ha'' & (Ho' & Hs' & Ht' & Hc')).
  exists a'', e''. split; [done|]. split; [done|]. split; [congruence|].
  split; [by eapply same_owner_trans|]. split; [congruence|done].
Qed.

End holdings.

#[export] Hint Resolve subsumed_trans conflict_free_subsumed : gsh.

(** ** Conflict search *)
Section search.
Context `{OwnerMem} {F : Type}.
Implicit Types w : lock_world F.

(** An active lock of another owner that the request conflicts with. *)
Definition conflicts_with (owner : option positive) (lock : fsal_lock_param_t)
    (e : state_lock_entry_t) : Prop :=
  active e /\ (exists x, covers (sle_lock e) x /\ covers lock x) /\
  types_conflict (lock_type (sle_lock e)) (lock_type lock) = true /\
  ~ same_owner (sle_owner e) owner.

Lemma wp_overlapping_from X L l owner lock (Q : option positive -> lock_world F -> Prop) w :
  wf X L (core w) -> lock_ok lock ->
  (forall a, a ∈ l -> is_Some (t_heap (core w) !! a)) ->
  (forall l1 a l2 e, l = l1 ++ a :: l2 -> t_heap (core w) !! a = Some e ->
     conflicts_with owner lock e ->
     (forall b eb, b ∈ l1 -> t_heap (core w) !! b = Some eb -> ~ conflicts_with owner lock eb) ->
     Q (Some a) w) ->
  ((forall a e, a ∈ l -> t_heap (core w) !! a = Some e -> ~ conflicts_with owner lock e) -> Q None w) ->
  wp (overlapping_from l owner lock) Q w.
Proof.
  intros Hwf Hlk. induction l as [|a l IH]; intros Hlive HS HN; simpl.
  - apply wp_ret, HN. intros a e Ha. by apply elem_of_nil in Ha.
  - destruct (Hlive a) as [e He]; [left|]. apply wp_bind. eapply wp_get_entry; [done|].
    assert (~ conflicts_with owner lock e -> wp (overlapping_from l owner lock) Q w) as Hskip.
    { intros Hno. apply IH.
      - intros b Hb. apply Hlive. by right.
      - intros l1 b l2 eb -> Hb Hc Hfst. eapply (HS (a :: l1)); [done..|].
        intros c ec [->|Hc']%elem_of_cons Hec; [congruence|eauto].
      - intros Hall. apply HN. intros b eb [->|Hb]%elem_of_cons Heb; [congruence|eauto]. }
    pose proof (ew_lock _ _ _ _ _ (wf_entry _ _ _ Hwf _ _ He)) as Hle.
    destruct (sle_blocked e) eqn:Hb;
      try (apply Hskip; intros (Hact & _); unfold active in Hact; rewrite Hb in Hact; naive_solver).
    all: destruct (ranges_overlap e lock && types_conflict _ _ && different_owners _ _) eqn:Hc.
    all: try (apply wp_ret; eapply (HS []); [done|done| |intros b eb Hbn; by apply elem_of_nil in Hbn];
      rewrite !andb_true_iff in Hc; destruct Hc as [[Hc1 Hc2] Hc3];
      split; [unfold active; rewrite Hb; auto|]; split; [by apply ranges_overlap_spec|];
      split; [done|by apply different_owners_true]).
    all: apply Hskip; intros (_ & Hov & Hty & Hdo).
    all: rewrite <- ranges_overlap_spec in Hov by done;
      apply different_owners_true in Hdo; by rewrite Hov, Hty, Hdo in Hc.
Qed.

Lemma wp_get_overlapping_entry X L obj owner lock (Q : option positive -> lock_world F -> Prop) w :
  wf X L (core w) -> lock_ok lock ->
  (forall l1 a l2 e, t_list obj (core w) = l1 ++ a :: l2 -> view L (core w) a e -> sle_obj e = obj ->
     conflicts_with owner lock e ->
     (forall b eb, b ∈ l1 -> t_heap (core w) !! b = Some eb -> ~ conflicts_with owner lock eb) ->
     Q (Some a) w) ->
  ((forall a e, a ∈ t_list obj (core w) -> t_heap (core w) !! a = Some e ->
      ~ conflicts_with owner lock e) -> Q None w) ->
  wp (get_overlapping_entry obj owner lock) Q w.
Proof.
  intros Hwf Hlk HS HN. unfold get_overlapping_entry. apply wp_bind, wp_gets. rewrite core_list.
  eapply wp_overlapping_from; eauto.
  - intros a Ha. destruct (wf_on_list _ _ _ _ _ Hwf Ha) as (e & [? _] & _). eauto.
  - intros l1 a l2 e Hl Ha. assert (a ∈ t_list obj (core w)) as Hin by (rewrite Hl; set_solver).
    destruct (wf_on_list _ _ _ _ _ Hwf Hin) as (e' & Hv & Ho).
    assert (e' = e) as -> by (destruct Hv; congruence). eauto.
Qed.

End search.

(** ** Merging *)
Section merging.
Context `{OwnerMem} {F : Type}.
Implicit Types w : lock_world F.

Lemma wf_put_lock X L t a e l :
  wf X L t -> t_heap t !! a = Some e -> lock_ok l -> wf X L (t_put a (set_lock l e) t).
Proof.
  intros Hwf Ha Hl. apply (wf_put X X L t a e); simpl; auto.
  intros Hlk Hx. apply (ew_status _ _ _ _ _ (wf_entry _ _ _ Hwf _ _ Ha) Hlk Hx).
Qed.

(** What merging [le], a lock of owner [o] and type [ty] on [obj], may do to the
    other locks: locks of other owners, of other files, and locks not granted
    are untouched; the owner keeps every byte it held, as before or with the
    type of the merged lock; nobody gains anything. *)
Record merge_rel (L : list positive) (obj : positive) (o : option positive) (ty : fsal_lock_t)
    (t t' : table) : Prop := {
  mr_sub : subsumed L t L t';
  mr_other : forall a e, ~ (same_owner (sle_owner e) o /\ granted e /\ sle_obj e = obj) ->
    view L t a e <-> view L t' a e;
  mr_keep : forall a e x, view L t a e -> granted e -> sle_obj e = obj ->
    same_owner (sle_owner e) o -> covers (sle_lock e) x ->
    exists a' e', view L t' a' e' /\ granted e' /\ sle_obj e' = obj /\
      same_owner (sle_owner e') o /\ covers (sle_lock e') x /\
      (lock_type (sle_lock e') = lock_type (sle_lock e) \/ lock_type (sle_lock e') = ty)
}.

(** The merged lock itself only grows. *)
Definition grown (e e' : state_lock_entry_t) : Prop :=
  exists l, e' = set_lock l e /\ lock_type l = lock_type (sle_lock e) /\
    lock_start l <= lock_start (sle_lock e) /\ lock_end (sle_lock e) <= lock_end l.

Lemma grown_refl e : grown e e.
Proof. exists (sle_lock e). split; [by destruct e|]. split; [done|lia]. Qed.
Lemma grown_trans e1 e2 e3 : grown e1 e2 -> grown e2 e3 -> grown e1 e3.
Proof.
  intros (l & -> & ? & ? & ?) (l' & -> & Ht & ? & ?). exists l'. simpl in *.
  split; [done|]. split; [congruence|lia].
Qed.

Lemma merge_rel_refl X L obj o ty t : wf X L t -> merge_rel L obj o ty t t.
Proof.
  intros Hwf. constructor; [by eapply subsumed_views|done|]. intros a e x. intros.
  exists a, e. auto 10.
Qed.

Lemma merge_rel_trans L obj o ty t t' t'' :
  merge_rel L obj o ty t t' -> merge_rel L obj o ty t' t'' -> merge_rel L obj o ty t t''.
Proof.
  intros [Hs Ho Hk] [Hs' Ho' Hk']. constructor; [eauto with gsh| |].
  - intros a e Hn. rewrite (Ho a e Hn). auto.
  - intros a e x Hv Hg Hob Hso Hx.
    destruct (Hk a e x) as (a' & e' & Hv' & Hg' & Hob' & Hso' & Hx' & Ht); [done..|].
    destruct (Hk' a' e' x) as (a'' & e'' & Hv'' & Hg'' & Hob'' & Hso'' & Hx'' & Ht'); [done..|].
    exists a'', e''. repeat (split; [done|]). destruct Ht' as [->|]; auto.
Qed.

(** Shrinking a granted lock of owner [o] where other locks of [o] take over. *)
Lemma merge_rel_shrink X L obj o ty t a e l :
  wf X L t -> view L t a e -> granted e -> sle_obj e = obj -> same_owner (sle_owner e) o ->
  lock_type l = lock_type (sle_lock e) ->
  (forall x, covers l x -> covers (sle_lock e) x) ->
  (forall x, covers (sle_lock e) x -> covers l x \/
     exists b eb, b <> a /\ view L t b eb /\ granted eb /\ sle_obj eb = obj /\
       same_owner (sle_owner eb) o /\ covers (sle_lock eb) x /\
       (lock_type (sle_lock eb) = lock_type (sle_lock e) \/ lock_type (sle_lock eb) = ty)) ->
  merge_rel L obj o ty t (t_put a (set_lock l e) t).
Proof.
  intros Hwf [Ha Hla] Hg Ho Hso Hty Hsub Hcov.
  assert (forall b eb, view L (t_put a (set_lock l e) t) b eb <->
            (b = a /\ eb = set_lock l e /\ linked L t a e) \/ (b <> a /\ view L t b eb)) as Hv
    by (intros; by apply view_put).
  constructor.
  - intros b eb Hb Hact x Hx. apply Hv in Hb as [(-> & -> & _)|[_ Hb]].
    + exists a, e. split; [done|]. split; [by left|]. split; [done|]. split; [|auto].
      by apply (view_owner X L t a e).
    + exists b, eb. split; [done|]. split; [done|]. split; [done|]. split; [|done].
      by eapply view_owner.
  - intros b eb Hn. rewrite Hv. destruct (decide (b = a)) as [->|Hba]; [|naive_solver].
    split.
    + intros [Hb _]. assert (eb = e) as -> by congruence. exfalso. by apply Hn.
    + intros [(_ & -> & _)|[? _]]; [|done]. exfalso. by apply Hn.
  - intros b eb x Hb Hgb Hob Hsob Hx. destruct (decide (b = a)) as [->|Hba].
    + assert (eb = e) as -> by (destruct Hb; congruence).
      destruct (Hcov x Hx) as [Hl|(c & ec & Hca & Hvc & Hc)].
      * exists a, (set_lock l e). split; [apply Hv; by left|]. simpl. auto 10.
      * exists c, ec. split; [apply Hv; by right|]. tauto.
    + exists b, eb. split; [apply Hv; by right|]. auto 10.
Qed.

(** Adding a granted lock whose bytes the owner's lock [e] covers. *)
Lemma merge_rel_add X L obj t t' o ty r er a e :
  wf X L t -> (forall b eb, view L t' b eb <-> (b = r /\ eb = er) \/ view L t b eb) ->
  view L t a e -> granted e -> granted er -> sle_obj e = obj -> sle_obj er = obj ->
  sle_owner er = sle_owner e -> same_owner (sle_owner e) o ->
  lock_type (sle_lock er) = lock_type (sle_lock e) ->
  (forall x, covers (sle_lock er) x -> covers (sle_lock e) x) ->
  t_heap t !! r = None ->
  merge_rel L obj o ty t t'.
Proof.
  intros Hwf Hv Hva Hg Hgr Ho Hor Hown Hso Hty Hsub Hr. constructor.
  - intros b eb Hb Hact x Hx. apply Hv in Hb as [[-> ->]|Hb].
    + exists a, e. split; [done|]. split; [by left|]. split; [congruence|]. rewrite Hown.
      split; [by eapply view_owner|]. auto.
    + exists b, eb. split; [done|]. split; [done|]. split; [done|]. split; [|done].
      by eapply view_owner.
  - intros b eb Hn. rewrite Hv. split; [by right|]. intros [[-> ->]|?]; [|done].
    exfalso. apply Hn. by rewrite Hown.
  - intros b eb x Hb. intros. exists b, eb. split; [apply Hv; by right|]. auto 10.
Qed.

(** Absorbing a granted lock [e] of the owner into the merged lock. *)
Lemma merge_rel_absorb X L obj t t' a e le ele l :
  wf X L t -> view L t le ele -> granted ele -> sle_obj ele = obj -> a <> le ->
  view L t a e -> granted e -> sle_obj e = obj -> same_owner (sle_owner e) (sle_owner ele) ->
  (forall b eb, view L t' b eb <->
     (b = le /\ eb = set_lock l ele) \/ (b <> le /\ b <> a /\ view L t b eb)) ->
  lock_type l = lock_type (sle_lock ele) ->
  (forall x, covers l x -> covers (sle_lock ele) x \/
     lock_type (sle_lock e) = lock_type (sle_lock ele) /\ covers (sle_lock e) x) ->
  (forall x, covers (sle_lock e) x \/ covers (sle_lock ele) x -> covers l x) ->
  merge_rel L obj (sle_owner ele) (lock_type (sle_lock ele)) t t'.
Proof.
  intros Hwf Hvl Hgl Hol Hne Hva Hg Ho Hso Hv Hty Hnew Hold. constructor.
  - intros b eb Hb Hact x Hx. apply Hv in Hb as [[-> ->]|(_ & _ & Hb)].
    + simpl in Hx. destruct (Hnew x Hx) as [Hc|[Ht Hc]].
      * exists le, ele. split; [done|]. split; [by left|]. split; [done|].
        split; [by apply (view_owner X L t le ele)|]. auto.
      * exists a, e. split; [done|]. split; [by left|]. split; [simpl; congruence|].
        split; [done|]. split; [simpl; congruence|done].
    + exists b, eb. split; [done|]. split; [done|]. split; [done|]. split; [|done].
      by eapply view_owner.
  - intros b eb Hn. rewrite Hv. split.
    + intros Hb. right. split; [|split]; [| |done]; intros ->; apply Hn.
      * assert (eb = ele) as -> by (destruct Hb, Hvl; congruence).
        split; [by eapply view_owner|done].
      * assert (eb = e) as -> by (destruct Hb, Hva; congruence). done.
    + intros [[-> ->]|(_ & _ & ?)]; [|done]. exfalso. apply Hn. simpl.
      split; [by eapply (view_owner _ _ _ le ele)|done].
  - intros b eb x Hb Hgb Hob Hsob Hx.
    destruct (decide (b = le)) as [->|Hbl];
      [|destruct (decide (b = a)) as [->|Hba];
        [|exists b, eb; split; [apply Hv; by right|auto 10]]].
    all: exists le, (set_lock l ele); split; [apply Hv; by left|];
      split; [done|]; split; [done|]; split; [by eapply (view_owner _ _ _ le ele)|];
      split; [|by right]; apply Hold.
    + right. assert (eb = ele) as -> by (destruct Hb, Hvl; congruence). done.
    + left. assert (eb = e) as -> by (destruct Hb, Hva; congruence). done.
Qed.

(** How one step of the merge changes the list, and which entries it touches. *)
Inductive step_shape (obj le ce : positive) (t t' : table) : Prop :=
  | shape_same :
      t_list obj t' = t_list obj t ->
      (forall b, b <> ce -> t_heap t' !! b = t_heap t !! b) -> step_shape obj le ce t t'
  | shape_split r e ele er :
      t_heap t !! r = None -> t_list obj t' = t_list obj t ++ [r] ->
      (forall b, b <> ce -> b <> r -> t_heap t' !! b = t_heap t !! b) ->
      t_heap t !! ce = Some e -> t_heap t !! le = Some ele -> t_heap t' !! r = Some er ->
      lock_start (sle_lock e) < lock_start (sle_lock ele) ->
      lock_start (sle_lock ele) <= lock_start (sle_lock er) -> ce <> le -> step_shape obj le ce t t'
  | shape_absorb :
      ce <> le -> t_list obj t' = remove_id ce (t_list obj t) ->
      (forall b, b <> ce -> b <> le -> t_heap t' !! b = t_heap t !! b) -> step_shape obj le ce t t'.

(** Two locks of one owner with nothing left to merge: they share no byte, and
    where they have the same type they do not touch either. *)
Definition clear_of (k l : fsal_lock_param_t) : Prop :=
  let d := if decide (lock_type k = lock_type l) then 1 else 0 in
  lock_end k + d < lock_start l \/ lock_end l + d < lock_start k.

(** An entry the merge is done with; a lock that ends at the maximal offset is
    passed over, because the test adds one to its end. *)
Definition dealt (o : option positive) (l : fsal_lock_param_t) (t : table) (b : positive) : Prop :=
  forall e, t_heap t !! b = Some e -> granted e -> same_owner (sle_owner e) o ->
    lock_end (sle_lock e) = UINT64_MAX \/ lock_end l = UINT64_MAX \/ clear_of (sle_lock e) l.

Definition merge_post X L obj le ele ce (t t' : table) : Prop :=
  wf X L t' /\ merge_rel L obj (sle_owner ele) (lock_type (sle_lock ele)) t t' /\
  step_shape obj le ce t t' /\ (exists ele', view L t' le ele' /\ grown ele ele') /\
  forall b, b ∈ t_list obj t' -> b = ce \/ b ∉ t_list obj t -> b <> le ->
    dealt (sle_owner ele) (sle_lock ele) t' b.

Lemma merge_post_refl X L obj le ele ce t :
  wf X L t -> view L t le ele -> (ce <> le -> dealt (sle_owner ele) (sle_lock ele) t ce) ->
  merge_post X L obj le ele ce t t.
Proof.
  intros Hwf Hv Hce. split; [done|]. split; [by eapply merge_rel_refl|].
  split; [by apply shape_same|]. split; [exists ele; split; [done|apply grown_refl]|].
  intros b Hb [->|?] Hne; [auto|done].
Qed.

(** The tests of the loop that pass an entry over. *)
Lemma skip_clear k l :
  lock_ok k -> (u64 (lock_end k + 1) <? lock_start l) = true ->
  lock_end k = UINT64_MAX \/ lock_end k + 1 < lock_start l.
Proof.
  intros Hok Hlt%Z.ltb_lt. pose proof Hok as (Hs & _). apply lock_end_ok in Hok as Hk. destruct (decide (lock_end k = UINT64_MAX)) as [|Hne]; [by left|].
  right. destruct Hk as [Hk _]. rewrite u64_small in Hlt; unfold UINT64_MAX in *; lia.
Qed.

Lemma clear_of_left k l : lock_end k + 1 < lock_start l -> clear_of k l.
Proof. intros Hlt. left. case_decide; lia. Qed.
Lemma clear_of_right k l : lock_end l + 1 < lock_start k -> clear_of k l.
Proof. intros Hlt. right. case_decide; lia. Qed.
Lemma clear_of_ne k l :
  lock_type k <> lock_type l -> lock_end k < lock_start l \/ lock_end l < lock_start k -> clear_of k l.
Proof. intros Hne Hlt. unfold clear_of. rewrite decide_False by done. lia. Qed.

(** Arithmetic of two locks that touch or overlap. *)
Lemma touch_spec l k :
  lock_ok l -> lock_ok k ->
  (u64 (lock_end l + 1) <? lock_start k) = false ->
  lock_start k <= lock_end l + 1.
Proof.
  intros Hl Hk Hlt%Z.ltb_ge. pose proof Hl as (Hs & _).
  apply lock_end_ok in Hl as [Hl _]. apply lock_end_ok in Hk.
  destruct (decide (lock_end l = UINT64_MAX)) as [He|]; [lia|].
  rewrite u64_small in Hlt; unfold UINT64_MAX in *; lia.
Qed.

(** The absorbing case: the ranges touch, and the absorbed lock has the type of
    the merged one or lies inside it. *)
Lemma merge_absorb_step X L obj le ele ce e (w : lock_world F) :
  let new_end := if lock_end (sle_lock ele) <? lock_end (sle_lock e)
                 then lock_end (sle_lock e) else lock_end (sle_lock ele) in
  let new_start := if lock_start (sle_lock e) <? lock_start (sle_lock ele)
                   then lock_start (sle_lock e) else lock_start (sle_lock ele) in
  wf X L (core w) -> view L (core w) le ele -> granted ele -> sle_obj ele = obj -> ce <> le ->
  ce ∈ t_list obj (core w) -> view L (core w) ce e -> granted e -> sle_obj e = obj ->
  same_owner (sle_owner e) (sle_owner ele) ->
  lock_start (sle_lock ele) <= lock_end (sle_lock e) + 1 ->
  lock_start (sle_lock e) <= lock_end (sle_lock ele) + 1 ->
  (lock_type (sle_lock e) = lock_type (sle_lock ele) \/
   lock_end (sle_lock e) <= lock_end (sle_lock ele) /\
   lock_start (sle_lock ele) <= lock_start (sle_lock e)) ->
  wp (put_entry le
        (set_lock (set_range new_start (u64 (new_end - new_start + 1)) (sle_lock ele)) ele);;
      remove_from_locklist ce)
    (fun _ w' => merge_post X L obj le ele ce (core w) (core w')) w.
Proof.
  intros new_end new_start Hwf Hvl Hgl Hol Hne Hin Hvc Hg Ho Hso Ht1 Ht2 Hty.
  pose proof (lock_end_ok _ (view_lock _ _ _ _ _ Hwf Hvl)) as [Hrl _].
  pose proof (lock_end_ok _ (view_lock _ _ _ _ _ Hwf Hvc)) as [Hrc _].
  pose proof (view_lock _ _ _ _ _ Hwf Hvl) as (Hsl & _).
  pose proof (view_lock _ _ _ _ _ Hwf Hvc) as (Hsc & _).
  assert (new_end = Z.max (lock_end (sle_lock e)) (lock_end (sle_lock ele))) as Hne'
    by (unfold new_end; destruct (Z.ltb_spec (lock_end (sle_lock ele)) (lock_end (sle_lock e))); lia).
  assert (new_start = Z.min (lock_start (sle_lock e)) (lock_start (sle_lock ele))) as Hns'
    by (unfold new_start; destruct (Z.ltb_spec (lock_start (sle_lock e)) (lock_start (sle_lock ele))); lia).
  clearbody new_end new_start.
  set (l := set_range new_start (u64 (new_end - new_start + 1)) (sle_lock ele)).
  destruct (set_range_ok new_start new_end _ (sle_lock ele) ltac:(lia) ltac:(lia) eq_refl) as [Hlok Hlend].
  pose proof (fun x => set_range_covers new_start new_end _ (sle_lock ele) x ltac:(lia) ltac:(lia) eq_refl) as Hcov.
  fold l in Hlok, Hlend, Hcov.
  pose proof (wf_live _ _ _ _ _ Hwf Hvl) as Hle. pose proof (wf_live _ _ _ _ _ Hwf Hvc) as Hce.
  destruct (wf_list _ _ _ Hwf _ _ Hin) as (HnL & _).
  apply wp_bind, wp_put_entry. intros w1 Hw1.
  assert (wf X L (core w1)) as Hwf1 by (rewrite Hw1; by apply wf_put_lock).
  assert (forall b eb, view L (core w1) b eb <->
    (b = le /\ eb = set_lock l ele /\ linked L (core w) le ele) \/ (b <> le /\ view L (core w) b eb)) as Hv1
    by (intros b eb; rewrite Hw1; by apply view_put).
  assert (view L (core w1) ce e) as Hvc1 by (apply Hv1; by right).
  eapply wp_remove_from_locklist; [done..|]. intros w2 Hwf2 Hw2.
  rewrite remove_id_not_in in Hwf2 by done.
  assert (forall b eb, view L (core w2) b eb <->
     (b = le /\ eb = set_lock l ele) \/ (b <> le /\ b <> ce /\ view L (core w) b eb)) as Hv2.
  { intros b eb. pose proof (view_remove _ _ _ _ _ b eb Hwf1 Hvc1) as Hvr.
    rewrite remove_id_not_in in Hvr by done. rewrite Hw2, Hvr, Hv1. destruct Hvl. naive_solver. }
  split; [done|]. split; [|split].
  - eapply merge_rel_absorb; eauto.
    + intros x. rewrite Hcov. unfold covers. intros Hx. destruct Hty as [Ht|?]; [|left; lia].
      destruct (decide (lock_start (sle_lock ele) <= x <= lock_end (sle_lock ele))); [by left|].
      right. split; [done|lia].
    + intros x. rewrite Hcov. unfold covers. lia.
  - apply shape_absorb; [done| |].
    + rewrite Hw2, (wf_remove_list X L) by (eauto using wf_live). rewrite Hw1. done.
    + intros b Hb1 Hb2. rewrite Hw2, t_remove_heap, Hw1 by done. simpl. by rewrite lookup_insert_ne.
  - split.
    + exists (set_lock l ele). split; [apply Hv2; by left|]. exists l.
      split; [done|]. split; [done|]. simpl. lia.
    + rewrite Hw2, (wf_remove_list X L) by (eauto using wf_live). rewrite Hw1.
      intros b [Hb1 Hb2]%elem_of_remove_id [->|Hb]; [done|]. intros _. by destruct Hb.
Qed.

(** Trimming a lock of another type to the left of the merged lock. *)
Lemma merge_trim_left X L obj le ele ce e (w : lock_world F) :
  let l := set_range (lock_start (sle_lock e))
             (u64 (lock_start (sle_lock ele) - lock_start (sle_lock e))) (sle_lock e) in
  wf X L (core w) -> view L (core w) ce e -> granted e -> sle_obj e = obj ->
  same_owner (sle_owner e) (sle_owner ele) ->
  view L (core w) le ele -> lock_start (sle_lock e) < lock_start (sle_lock ele) ->
  lock_start (sle_lock ele) <= lock_end (sle_lock e) + 1 ->
  (forall x, covers (sle_lock e) x -> lock_start (sle_lock ele) <= x ->
     exists b eb, b <> ce /\ view L (core w) b eb /\ granted eb /\ sle_obj eb = obj /\
       same_owner (sle_owner eb) (sle_owner ele) /\ covers (sle_lock eb) x /\
       (lock_type (sle_lock eb) = lock_type (sle_lock e)
        \/ lock_type (sle_lock eb) = lock_type (sle_lock ele))) ->
  lock_ok l /\ lock_end l = lock_start (sle_lock ele) - 1 /\ wf X L (t_put ce (set_lock l e) (core w)) /\
  merge_rel L obj (sle_owner ele) (lock_type (sle_lock ele)) (core w)
    (t_put ce (set_lock l e) (core w)).
Proof.
  intros l Hwf Hvc Hg Ho Hso Hvl Hlt Hadj Hrest.
  pose proof (lock_end_ok _ (view_lock _ _ _ _ _ Hwf Hvc)) as [Hrc _].
  pose proof (lock_end_ok _ (view_lock _ _ _ _ _ Hwf Hvl)) as [Hrl _].
  pose proof (view_lock _ _ _ _ _ Hwf Hvc) as (Hsc & _).
  assert (u64 (lock_start (sle_lock ele) - lock_start (sle_lock e))
          = u64 ((lock_start (sle_lock ele) - 1) - lock_start (sle_lock e) + 1)) as Hlen
    by (f_equal; lia).
  destruct (set_range_ok (lock_start (sle_lock e)) (lock_start (sle_lock ele) - 1) _ (sle_lock e)
              ltac:(lia) ltac:(lia) Hlen) as [Hok Hend].
  pose proof (fun x => set_range_covers (lock_start (sle_lock e)) (lock_start (sle_lock ele) - 1) _
              (sle_lock e) x
              ltac:(lia) ltac:(lia) Hlen) as Hcov.
  fold l in Hok, Hend, Hcov. split; [done|]. split; [done|].
  split; [apply wf_put_lock; eauto using wf_live|].
  eapply merge_rel_shrink; eauto.
  - intros x. rewrite Hcov. unfold covers. lia.
  - intros x Hx. rewrite Hcov. destruct (decide (x < lock_start (sle_lock ele))).
    + left. unfold covers in Hx. lia.
    + right. apply Hrest; [done|lia].
Qed.

(** Trimming it to the right of the merged lock. *)
Lemma right_range ele e :
  lock_ok (sle_lock e) -> lock_ok (sle_lock ele) ->
  lock_end (sle_lock ele) < lock_end (sle_lock e) ->
  let r := set_range (u64 (lock_end (sle_lock ele) + 1))
             (u64 (lock_end (sle_lock e) - lock_end (sle_lock ele))) (sle_lock e) in
  lock_ok r /\ lock_start r = lock_end (sle_lock ele) + 1 /\
  forall x, covers r x <-> lock_end (sle_lock ele) < x <= lock_end (sle_lock e).
Proof.
  intros Hc Hl Hlt r. pose proof Hl as (? & _).
  apply lock_end_ok in Hc as [Hc _]. apply lock_end_ok in Hl as [Hl _].
  assert (r = set_range (lock_end (sle_lock ele) + 1)
    (u64 (lock_end (sle_lock e) - (lock_end (sle_lock ele) + 1) + 1)) (sle_lock e)) as ->.
  { unfold r. rewrite (u64_small (_ + 1)) by lia. do 2 f_equal. lia. }
  split; [|split; [done|]].
  - apply (set_range_ok _ (lock_end (sle_lock e))); [lia|lia|done].
  - intros x. rewrite (set_range_covers _ (lock_end (sle_lock e))); [lia|lia|lia|done].
Qed.

(** A copy of a granted lock, appended to the list and cut to [l]. *)
Lemma wp_split_right X L obj ce e f (Q : positive -> lock_world F -> Prop) w :
  wf X L (core w) -> view L (core w) ce e -> granted e -> sle_obj e = obj ->
  lock_ok (f (sle_lock e)) ->
  (forall w' er, er = set_lock (f (sle_lock e)) er -> granted er -> sle_obj er = obj ->
     sle_owner er = sle_owner e -> wf X L (core w') ->
     t_list obj (core w') = t_list obj (core w) ++ [t_next (core w)] ->
     (forall b, b <> t_next (core w) -> t_heap (core w') !! b = t_heap (core w) !! b) ->
     (forall b eb, view L (core w') b eb <->
        (b = t_next (core w) /\ eb = er) \/ view L (core w) b eb) ->
     t_heap (core w') !! t_next (core w) = Some er ->
     t_heap (core w) !! t_next (core w) = None ->
     Q (t_next (core w)) w') ->
  wp (r ← state_lock_entry_t_dup ce; file_add_tail obj r;;
      upd_entry r (fun e => set_lock (f (sle_lock e)) e);; mret r) Q w.
Proof.
  intros Hwf Hv Hg Ho Hlok HQ. pose proof (wf_live _ _ _ _ _ Hwf Hv) as Hce.
  destruct (ew_owner _ _ _ _ _ (wf_entry _ _ _ Hwf _ _ Hce) (proj2 Hv)) as (o & Hown & Hook).
  pose proof (view_lock _ _ _ _ _ Hwf Hv) as Hlk.
  unfold state_lock_entry_t_dup. apply wp_bind, wp_bind. eapply wp_get_entry; [done|].
  apply wp_bind. rewrite Hown. apply wp_ret, wp_create. intros w1 Hw1.
  set (r := t_next (core w)) in *.
  set (e1 := new_entry (sle_obj e) (sle_export e) (sle_blocked e) o (sle_state e) (sle_lock e)) in *.
  assert (wf X (r :: L) (core w1)) as Hwf1 by (rewrite Hw1; by eapply wf_create).
  assert (forall b eb, view (r :: L) (core w1) b eb <-> (b = r /\ eb = e1) \/ view L (core w) b eb) as Hv1
    by (intros b eb; rewrite Hw1; by eapply view_create).
  assert (t_heap (core w1) !! r = Some e1) as Hr1 by (rewrite Hw1; simpl; by rewrite lookup_insert_eq).
  apply wp_bind, wp_file_add_tail. intros w2 Hw2.
  assert (forall a, a ∈ [r] -> exists e, t_heap (core w1) !! a = Some e /\ sle_obj e = obj) as Hrobj.
  { intros a ->%list_elem_of_singleton. eauto. }
  assert (wf X L (core w2)) as Hwf2 by (rewrite Hw2; by apply (wf_append X [r] L)).
  assert (forall b eb, view L (core w2) b eb <-> (b = r /\ eb = e1) \/ view L (core w) b eb) as Hv2.
  { intros b eb. rewrite Hw2, (view_append X [r] L) by done. apply Hv1. }
  assert (t_heap (core w2) !! r = Some e1) as Hr2 by (by rewrite Hw2).
  apply wp_bind. eapply wp_upd_entry; [done|]. intros w3 Hw3. apply wp_ret.
  pose proof (wf_fresh_heap _ _ _ Hwf) as Hfresh.
  apply (HQ _ (set_lock (f (sle_lock e)) e1)); auto.
  - rewrite Hw3. by apply wf_put_lock.
  - rewrite Hw3, t_list_put, Hw2, t_list_set_list, decide_True by done. by rewrite Hw1.
  - intros b Hb. rewrite Hw3, Hw2, Hw1. simpl. by rewrite !lookup_insert_ne.
  - intros b eb. rewrite Hw3, (view_put _ _ _ e1), Hv2 by done.
    assert (linked L (core w2) r e1) as Hlr by (apply (Hv2 r e1); by left).
    destruct (decide (b = r)) as [->|Hbr]; [|naive_solver].
    split; [naive_solver|]. intros [[_ ->]|[Hb _]]; [by left|]. fold r in Hfresh. congruence.
  - rewrite Hw3. simpl. by rewrite lookup_insert_eq.
Qed.

Lemma wp_bind_assoc {A B C} (m : M (lock_world F) A) (f : A -> M (lock_world F) B)
    (g : B -> M (lock_world F) C) Q w :
  wp (x ← m; y ← f x; g y) Q w -> wp (y ← (x ← m; f x); g y) Q w.
Proof. unfold wp, mbind, M_bind. by destruct (m w) as [[]|]. Qed.

(** The entry that was cut to one side of the merged lock. *)
Lemma dealt_put o k ce e l t :
  lock_type l <> lock_type k -> lock_end l < lock_start k \/ lock_end k < lock_start l ->
  dealt o k (t_put ce (set_lock l e) t) ce.
Proof.
  intros Hty Hside e'. simpl. rewrite lookup_insert_eq. intros [= <-] _ _. right; right. by apply clear_of_ne.
Qed.

Lemma trimmed_post L obj le ele ce e l (t : table) :
  view L t le ele -> t_heap t !! ce = Some e -> linked L t ce e -> ce <> le ->
  lock_type l <> lock_type (sle_lock ele) ->
  lock_end l < lock_start (sle_lock ele) \/ lock_end (sle_lock ele) < lock_start l ->
  (exists ele', view L (t_put ce (set_lock l e) t) le ele' /\ grown ele ele') /\
  forall b, b ∈ t_list obj (t_put ce (set_lock l e) t) -> b = ce \/ b ∉ t_list obj t -> b <> le ->
    dealt (sle_owner ele) (sle_lock ele) (t_put ce (set_lock l e) t) b.
Proof.
  intros Hvl Hce Hlk Hne Hty Hside. split.
  - exists ele. split; [|apply grown_refl]. apply (view_put _ _ _ e); [done|done|]. right. split; [congruence|done].
  - rewrite t_list_put. intros b Hb [->|?] _; [|done]. by apply dealt_put.
Qed.

(** The trimming case: the types differ and the checked lock sticks out. *)
Lemma merge_trim_step X L obj le ele ce e (w : lock_world F) :
  let check_entry_end := lock_end (sle_lock e) in
  let lock_entry_end := lock_end (sle_lock ele) in
  wf X L (core w) -> view L (core w) le ele -> granted ele -> sle_obj ele = obj -> ce <> le ->
  view L (core w) ce e -> granted e -> sle_obj e = obj ->
  same_owner (sle_owner e) (sle_owner ele) ->
  lock_start (sle_lock ele) <= lock_end (sle_lock e) + 1 ->
  lock_start (sle_lock e) <= lock_end (sle_lock ele) + 1 ->
  lock_type (sle_lock e) <> lock_type (sle_lock ele) ->
  lock_entry_end < check_entry_end \/ lock_start (sle_lock e) < lock_start (sle_lock ele) ->
  wp (check_entry_right ←
        (if (lock_entry_end <? check_entry_end)
            && (lock_start (sle_lock e) <? lock_start (sle_lock ele))
         then r ← state_lock_entry_t_dup ce; file_add_tail obj r;; mret r
         else mret ce);
      mwhen (lock_entry_end <? check_entry_end)
        (upd_entry check_entry_right (fun e =>
           set_lock (set_range (u64 (lock_entry_end + 1))
                       (u64 (check_entry_end - lock_entry_end)) (sle_lock e)) e));;
      ce' ← get_entry ce;
      mwhen (lock_start (sle_lock ce') <? lock_start (sle_lock ele))
        (put_entry ce
           (set_lock (set_range (lock_start (sle_lock ce'))
                        (u64 (lock_start (sle_lock ele) - lock_start (sle_lock ce')))
                        (sle_lock ce')) ce')))
    (fun _ w' => merge_post X L obj le ele ce (core w) (core w')) w.
Proof.
  intros ced led. unfold ced, led. clear ced led. intros Hwf Hvl Hgl Hol Hne Hvc Hg Ho Hso Ht1 Ht2 Hty Hout.
  pose proof (view_lock _ _ _ _ _ Hwf Hvl) as Hokl. pose proof (view_lock _ _ _ _ _ Hwf Hvc) as Hokc.
  pose proof (lock_end_ok _ Hokl) as [Hrl _]. pose proof (lock_end_ok _ Hokc) as [Hrc _].
  pose proof (wf_live _ _ _ _ _ Hwf Hvc) as Hce. pose proof (wf_live _ _ _ _ _ Hwf Hvl) as Hle.
  assert (forall x, covers (sle_lock e) x -> lock_start (sle_lock ele) <= x <= lock_end (sle_lock ele) ->
    exists b eb, b <> ce /\ view L (core w) b eb /\ granted eb /\ sle_obj eb = obj /\
       same_owner (sle_owner eb) (sle_owner ele) /\ covers (sle_lock eb) x /\
       (lock_type (sle_lock eb) = lock_type (sle_lock e)
        \/ lock_type (sle_lock eb) = lock_type (sle_lock ele))) as Hin.
  { intros x _ Hx. exists le, ele. do 4 (split; [done|]). split; [by eapply view_owner|]. auto. }
  destruct (Z.ltb_spec (lock_end (sle_lock ele)) (lock_end (sle_lock e))) as [Hgt|Hle'];
    destruct (Z.ltb_spec (lock_start (sle_lock e)) (lock_start (sle_lock ele))) as [Hlt|Hge]; simpl.
  - destruct (right_range ele e Hokc Hokl Hgt) as (Hrok & Hrst & Hrcov).
    set (f := set_range (u64 (lock_end (sle_lock ele) + 1))
               (u64 (lock_end (sle_lock e) - lock_end (sle_lock ele)))).
    apply wp_bind_assoc.
    assert (wp (r ← state_lock_entry_t_dup ce; file_add_tail obj r;;
        upd_entry r (fun e => set_lock (f (sle_lock e)) e);; mret r)
      (fun r w' => wp (ce' ← get_entry ce;
        mwhen (lock_start (sle_lock ce') <? lock_start (sle_lock ele))
        (put_entry ce (set_lock (set_range (lock_start (sle_lock ce'))
           (u64 (lock_start (sle_lock ele) - lock_start (sle_lock ce'))) (sle_lock ce')) ce')))
        (fun _ w' => merge_post X L obj le ele ce (core w) (core w')) w') w) as Hwp.
    2:{ apply wp_bind. apply wp_bind_inv in Hwp. eapply wp_mono; [exact Hwp|]. intros r w1 Hwp1.
        apply wp_bind_assoc, wp_bind. apply wp_bind_inv in Hwp1. eapply wp_mono; [exact Hwp1|].
        intros [] w2 Hwp2. apply wp_bind, wp_ret, wp_bind. simpl.
        apply wp_bind_inv in Hwp2. eapply wp_mono; [exact Hwp2|]. intros [] w3 Hwp3. exact Hwp3. }
    eapply wp_split_right; [done|done|done|done|exact Hrok|].
    intros w1 er Her Hgr Hor Howr Hwf1 Hl1 Hh1 Hv1 Hr1 Hfr.
    set (r := t_next (core w)) in *.
    assert (sle_lock er = f (sle_lock e)) as Hlr by (rewrite Her; done). unfold f in Hlr.
    assert (ce <> r /\ le <> r) as [Hcr Hlr'] by (split; congruence).
    assert (view L (core w1) ce e) as Hvc1 by (apply Hv1; by right).
    assert (view L (core w1) le ele) as Hvl1 by (apply Hv1; by right).
    apply wp_bind. eapply wp_get_entry; [exact (proj1 Hvc1)|].
    destruct (Z.ltb_spec (lock_start (sle_lock e)) (lock_start (sle_lock ele))); [|lia].
    apply wp_put_entry. intros w2 Hw2.
    assert (merge_rel L obj (sle_owner ele) (lock_type (sle_lock ele)) (core w) (core w1)) as Hmr1.
    { eapply (merge_rel_add X L obj _ _ _ _ r er ce e); eauto.
      - by rewrite Hlr.
      - intros x. rewrite Hlr, Hrcov. unfold covers. lia. }
    destruct (merge_trim_left X L obj le ele ce e w1) as (Hlok & Hend & Hwf2 & Hmr2); auto.
    { intros x Hx Hx'. destruct (decide (x <= lock_end (sle_lock ele))).
      - exists le, ele. do 4 (split; [done|]). split; [by eapply view_owner|].
        split; [unfold covers; lia|auto].
      - exists r, er. split; [done|]. split; [apply Hv1; by left|]. split; [done|]. split; [done|].
        rewrite Howr. split; [done|]. split; [|left; by rewrite Hlr].
        rewrite Hlr. apply Hrcov. unfold covers in Hx. lia. }
    rewrite Hw2. split; [done|]. split; [by eapply merge_rel_trans|]. split.
    + eapply (shape_split _ _ _ _ _ r e ele er); auto.
      * intros b Hb1 Hb2. simpl. rewrite lookup_insert_ne by done. auto.
      * simpl. by rewrite lookup_insert_ne.
      * rewrite Hlr, Hrst. lia.
    + split.
      * exists ele. split; [|apply grown_refl]. apply (view_put _ _ _ e); [exact (proj1 Hvc1)|done|].
        right. split; [congruence|done].
      * rewrite t_list_put, Hl1. intros b [Hb|Hb%list_elem_of_singleton]%elem_of_app Hnew _.
        -- destruct Hnew as [->|]; [|done]. apply dealt_put; [done|]. left. simpl. lia.
        -- rewrite Hb. intros er'. cbn [t_put t_heap]. rewrite lookup_insert_ne, Hr1 by done.
           intros [= <-] _ _. right; right.
           apply clear_of_ne; rewrite Hlr; [done|]. right. rewrite Hrst. lia.
  - destruct (right_range ele e Hokc Hokl Hgt) as (Hrok & Hrst & Hrcov).
    apply wp_bind, wp_ret, wp_bind. eapply wp_upd_entry; [done|]. intros w1 Hw1.
    apply wp_bind. eapply wp_get_entry; [rewrite Hw1; simpl; by rewrite lookup_insert_eq|].
    simpl. rewrite u64_small by (destruct Hokl; lia).
    destruct (Z.ltb_spec (lock_end (sle_lock ele) + 1) (lock_start (sle_lock ele))); [lia|].
    apply wp_ret. rewrite Hw1. split; [by apply wf_put_lock|]. split; [|split].
    + eapply merge_rel_shrink; eauto.
      * intros x. rewrite Hrcov. unfold covers. lia.
      * intros x Hx. rewrite Hrcov. destruct (decide (x <= lock_end (sle_lock ele))).
        -- right. apply Hin; [done|]. unfold covers in Hx. lia.
        -- left. unfold covers in Hx. lia.
    + apply shape_same; [done|]. intros b Hb. simpl. by rewrite lookup_insert_ne.
    + apply trimmed_post; try done; [exact (proj2 Hvc)|]. right. rewrite Hrst. lia.
  - apply wp_bind, wp_ret, wp_bind, wp_ret, wp_bind. eapply wp_get_entry; [done|].
    destruct (Z.ltb_spec (lock_start (sle_lock e)) (lock_start (sle_lock ele))); [|lia].
    apply wp_put_entry. intros w1 Hw1.
    destruct (merge_trim_left X L obj le ele ce e w) as (Hlok & Hend & Hwf2 & Hmr2); auto.
    { intros x Hx Hx'. apply Hin; [done|]. unfold covers in Hx. lia. }
    rewrite Hw1. split; [done|]. split; [done|]. split.
    + apply shape_same; [done|]. intros b Hb. simpl. by rewrite lookup_insert_ne.
    + apply trimmed_post; try done; [exact (proj2 Hvc)|]. left. lia.
  - apply wp_bind, wp_ret, wp_bind, wp_ret, wp_bind. eapply wp_get_entry; [done|].
    lia.
Qed.

Lemma wp_merge_step X L obj le ele ce (w : lock_world F) :
  wf X L (core w) -> view L (core w) le ele -> granted ele -> sle_obj ele = obj ->
  ce ∈ t_list obj (core w) ->
  wp (merge_step obj le ce) (fun _ w' => merge_post X L obj le ele ce (core w) (core w')) w.
Proof.
  intros Hwf Hvl Hgl Hol Hin. unfold merge_step.
  case_decide as Hne; [apply wp_ret; by apply merge_post_refl|].
  destruct (wf_on_list _ _ _ _ _ Hwf Hin) as (e & Hvc & Ho).
  assert (forall Q : Prop, (granted e -> same_owner (sle_owner e) (sle_owner ele) ->
      lock_end (sle_lock e) = UINT64_MAX \/ lock_end (sle_lock ele) = UINT64_MAX \/
      clear_of (sle_lock e) (sle_lock ele)) ->
    merge_post X L obj le ele ce (core w) (core w)) as Hskip.
  { intros _ Hc. apply merge_post_refl; [done..|]. intros _ e' He'. destruct Hvc as [Hvc _]. by simplify_eq. }
  specialize (Hskip True).
  apply wp_bind. eapply wp_get_entry; [exact (proj1 Hvc)|].
  apply wp_bind. eapply wp_get_entry; [exact (proj1 Hvl)|].
  destruct (different_owners _ _) eqn:Hso; [apply wp_ret, Hskip; unfold same_owner; congruence|].
  case_decide as Hg; [apply wp_ret, Hskip; intros Hgr; by rewrite Hgr in Hg|].
  assert (granted e) as Hgr by (unfold granted; destruct (sle_blocked e); naive_solver).
  pose proof (view_lock _ _ _ _ _ Hwf Hvl) as Hokl. pose proof (view_lock _ _ _ _ _ Hwf Hvc) as Hokc.
  destruct (u64 (_ + 1) <? lock_start (sle_lock ele)) eqn:Ht1.
  { apply wp_ret, Hskip. intros _ _. apply skip_clear in Ht1 as [?|?]; auto using clear_of_left. }
  destruct (u64 (_ + 1) <? lock_start (sle_lock e)) eqn:Ht2.
  { apply wp_ret, Hskip. intros _ _. apply skip_clear in Ht2 as [?|?]; auto using clear_of_right. }
  apply touch_spec in Ht1; [|by eapply view_lock..].
  apply touch_spec in Ht2; [|by eapply view_lock..].
  destruct (bool_decide _ && _) eqn:Hc.
  - apply andb_true_iff in Hc as [Hty%bool_decide_eq_true Hout%orb_true_iff]. rewrite !Z.ltb_lt in Hout.
    by apply merge_trim_step.
  - apply merge_absorb_step; auto. apply andb_false_iff in Hc as [Hc|Hc].
    + left. by apply bool_decide_eq_false, dec_stable in Hc.
    + right. apply orb_false_iff in Hc as [?%Z.ltb_ge ?%Z.ltb_ge]. done.
Qed.

(** A lock that starts before the merged one may be split once. *)
Definition merge_weight (le : positive) (t : table) (b : positive) : nat :=
  match t_heap t !! b, t_heap t !! le with
  | Some e, Some ele => if lock_start (sle_lock e) <? lock_start (sle_lock ele) then 2%nat else 1%nat
  | _, _ => 1%nat
  end.

Lemma merge_weight_bounds le t b : (1 <= merge_weight le t b <= 2)%nat.
Proof. unfold merge_weight. repeat case_match; lia. Qed.

Lemma merge_weight_le le t t' ele ele' b :
  t_heap t !! le = Some ele -> t_heap t' !! le = Some ele' -> grown ele ele' ->
  (b <> le -> t_heap t' !! b = t_heap t !! b) ->
  (merge_weight le t' b <= merge_weight le t b)%nat.
Proof.
  intros Hl Hl' (l & -> & _ & Hs & _) Hb. unfold merge_weight. rewrite Hl, Hl'.
  destruct (decide (b = le)) as [->|Hne].
  - rewrite Hl, Hl'. simpl. destruct (Z.ltb_spec (lock_start l) (lock_start l)); [lia|].
    case_match; lia.
  - rewrite (Hb Hne). destruct (t_heap t !! b) as [e|]; [|done]. simpl.
    destruct (Z.ltb_spec (lock_start (sle_lock e)) (lock_start l));
      destruct (Z.ltb_spec (lock_start (sle_lock e)) (lock_start (sle_lock ele))); lia.
Qed.

(** The list after a step, seen from the node visited. *)
Lemma step_shape_list X L obj le ele ele' ce t t' done_ todo :
  wf X L t -> wf X L t' -> t_list obj t = done_ ++ ce :: todo ->
  step_shape obj le ce t t' -> t_heap t !! le = Some ele -> t_heap t' !! le = Some ele' ->
  grown ele ele' ->
  exists app done', t_list obj t' = done' ++ visit_rest todo app /\
    (forall b, b ∈ done' -> b ∈ done_ \/ b = ce \/ b ∉ t_list obj t) /\
    (weight (merge_weight le t') (todo ++ app) < weight (merge_weight le t) (ce :: todo))%nat.
Proof.
  intros Hwf Hwf' Hl Hsh Hle Hle' Hgr.
  pose proof (wf_nodup _ _ _ Hwf obj) as Hnd. rewrite Hl in Hnd.
  pose proof Hnd as (_ & _ & [Hce Htodo]%NoDup_cons)%NoDup_app.
  assert (forall b, b ∈ todo -> b <> ce /\ is_Some (t_heap t !! b)) as Hb.
  { intros b Hb. split; [congruence|]. assert (b ∈ t_list obj t) as Hin by (rewrite Hl; set_solver).
    destruct (wf_list _ _ _ Hwf _ _ Hin) as (_ & e & ? & _). eauto. }
  assert (forall app, (forall b, b ∈ todo -> b <> le -> t_heap t' !! b = t_heap t !! b) ->
    (weight (merge_weight le t') app + 1 <= merge_weight le t ce)%nat ->
    (weight (merge_weight le t') (todo ++ app) < weight (merge_weight le t) (ce :: todo))%nat) as Hw.
  { intros app Hsame Hap. rewrite weight_app. unfold weight at 3. simpl.
    change (sum_list_with (merge_weight le t) todo) with (weight (merge_weight le t) todo).
    assert (weight (merge_weight le t') todo <= weight (merge_weight le t) todo)%nat; [|lia].
    apply weight_mono. intros b Hbt. eapply merge_weight_le; eauto. }
  pose proof (merge_weight_bounds le t ce).
  destruct Hsh as [Hl' Hh|r e ele0 er Hr Hl' Hh Hce' Hle0 Her Hlt Hge Hne|Hne Hl' Hh].
  - exists [], (done_ ++ [ce]). rewrite Hl', Hl. split; [|split].
    + rewrite <- app_assoc. destruct todo; simpl; by rewrite ?app_nil_r.
    + intros b [?| ->%list_elem_of_singleton]%elem_of_app; auto.
    + apply Hw; [|simpl; lia]. intros b ? ?. apply Hh. naive_solver.
  - exists [r]. assert (weight (merge_weight le t') [r] + 1 <= merge_weight le t ce)%nat.
    { unfold weight, merge_weight. simpl. rewrite Her, Hle', Hce', Hle.
      assert (ele0 = ele) as -> by congruence. destruct Hgr as (l & -> & _ & Hs & _). simpl.
      destruct (Z.ltb_spec (lock_start (sle_lock er)) (lock_start l)); [lia|].
      destruct (Z.ltb_spec (lock_start (sle_lock e)) (lock_start (sle_lock ele))); lia. }
    assert (forall b, b ∈ todo -> b <> le -> t_heap t' !! b = t_heap t !! b) as Hsame.
    { intros b Hbt ?. destruct (Hb b Hbt) as [? [? ?]]. apply Hh; congruence. }
    assert (r ∉ t_list obj t) as Hrl.
    { intros Hin. destruct (wf_list _ _ _ Hwf _ _ Hin) as (_ & ? & ? & _). congruence. }
    rewrite Hl in Hrl. destruct todo as [|c todo].
    + exists (done_ ++ [ce] ++ [r]). rewrite Hl', Hl. split; [|split; [|by apply Hw]].
      * simpl. by rewrite app_nil_r, <- app_assoc.
      * intros b [?|[->%list_elem_of_singleton| ->%list_elem_of_singleton]%elem_of_app]%elem_of_app; auto.
    + exists (done_ ++ [ce]). rewrite Hl', Hl. split; [|split; [|by apply Hw]].
      * rewrite <- !app_assoc. done.
      * intros b [?| ->%list_elem_of_singleton]%elem_of_app; auto.
  - exists [], done_. rewrite Hl', Hl, remove_id_split by done. split; [|split; [auto|]].
    + destruct todo; simpl; by rewrite ?app_nil_r.
    + apply Hw; [|simpl; lia]. intros b ? ?. apply Hh; naive_solver.
Qed.

(** An entry dealt with stays so, while the merged lock grows. *)
Lemma step_shape_heap obj le ce t t' b :
  step_shape obj le ce t t' -> b <> ce -> b <> le -> is_Some (t_heap t !! b) ->
  t_heap t' !! b = t_heap t !! b.
Proof.
  intros [_ Hh|r ? ? ? Hr _ Hh|_ _ Hh] Hc Hl [eb He]; [by apply Hh| |by apply Hh].
  apply Hh; [done|]. intros ->. congruence.
Qed.

Lemma dealt_grown o ele l t b :
  grown ele (set_lock l ele) -> dealt o l t b -> lock_end l = UINT64_MAX \/ dealt o (sle_lock ele) t b.
Proof.
  intros (l' & Heq & Hty & Hs & He) Hd. apply (f_equal sle_lock) in Heq. simpl in Heq. subst l'.
  destruct (decide (lock_end l = UINT64_MAX)) as [|Hne]; [by left|]. right.
  intros e Hb Hg Ho. destruct (Hd e Hb Hg Ho) as [?|[?|Hc]]; [by left|done|]. right; right.
  unfold clear_of in *. rewrite Hty in Hc. lia.
Qed.

(** What the merge leaves of the other locks of the owner on the file. *)
Definition merged_all L obj le ele ele' (t : table) : Prop :=
  lock_end (sle_lock ele') = UINT64_MAX \/
  forall b e, b <> le -> view L t b e -> b ∉ L -> granted e -> sle_obj e = obj ->
    same_owner (sle_owner e) (sle_owner ele) ->
    lock_end (sle_lock e) = UINT64_MAX \/ clear_of (sle_lock e) (sle_lock ele).

(** The part of the list behind the loop. *)
Definition merged_done le ele (t : table) (done_ : list positive) : Prop :=
  forall b, b ∈ done_ -> b <> le -> dealt (sle_owner ele) (sle_lock ele) t b.

Lemma merged_done_all X L obj le ele ele' t :
  wf X L t -> lock_end (sle_lock ele) <= lock_end (sle_lock ele') <= UINT64_MAX ->
  merged_done le ele t (t_list obj t) -> merged_all L obj le ele ele' t.
Proof.
  intros Hwf Hend Hd. destruct (decide (lock_end (sle_lock ele') = UINT64_MAX)) as [|Hne]; [by left|].
  right. intros b e Hb [He Hlk] HL Hg Ho Hso.
  assert (b ∈ t_list obj t) as Hin by (rewrite <- Ho; destruct Hlk; [done|by destruct HL]).
  destruct (Hd b Hin Hb e He Hg Hso) as [?|[?|?]]; [by left|lia|by right].
Qed.

Lemma merged_done_step X L obj le ele ce t t' done_ done' todo l ele'' :
  wf X L t -> t_list obj t = done_ ++ ce :: todo -> NoDup (t_list obj t) ->
  grown ele (set_lock l ele) -> merge_post X L obj le (set_lock l ele) ce t t' ->
  (forall b, b ∈ done' -> b ∈ t_list obj t') ->
  (forall b, b ∈ done' -> b ∈ done_ \/ b = ce \/ b ∉ t_list obj t) ->
  lock_end l <= lock_end (sle_lock ele'') <= UINT64_MAX ->
  lock_end l = UINT64_MAX \/ merged_done le ele t done_ ->
  lock_end (sle_lock ele'') = UINT64_MAX \/ merged_done le ele t' done'.
Proof.
  intros Hwf Hl Hnd Hgr (Hwf' & _ & Hsh & _ & Hnew) Hin Hdone Hend Hd.
  destruct (decide (lock_end l = UINT64_MAX)) as [|Hne]; [left; lia|]. destruct Hd as [|Hd]; [done|].
  right. intros b Hb Hble. destruct (decide (b = ce \/ b ∉ t_list obj t)) as [Hc|Hc].
  - destruct (dealt_grown (sle_owner ele) ele l t' b Hgr) as [|]; [|done..].
    by apply (Hnew b (Hin b Hb) Hc Hble).
  - assert (b ∈ done_) as Hbd by (destruct (Hdone b Hb) as [?|?]; tauto).
    intros e He. apply (Hd b Hbd Hble). rewrite <- He. symmetry.
    apply (step_shape_heap obj le ce); [done|tauto|done|].
    assert (b ∈ t_list obj t) as Hbt by (rewrite Hl; set_solver).
    destruct (wf_list _ _ _ Hwf _ _ Hbt) as (_ & e' & ? & _). eauto.
Qed.

(** The whole merge. *)
Lemma wp_merge_lock_entry X L obj le ele (w : lock_world F) :
  wf X L (core w) -> view L (core w) le ele -> granted ele -> sle_obj ele = obj ->
  wp (merge_lock_entry obj le) (fun _ w' =>
    wf X L (core w') /\
    merge_rel L obj (sle_owner ele) (lock_type (sle_lock ele)) (core w) (core w') /\
    exists ele', view L (core w') le ele' /\ grown ele ele' /\ merged_all L obj le ele ele' (core w')) w.
Proof.
  intros Hwf Hv Hg Ho. unfold merge_lock_entry.
  apply (glist_for_each_safe_wp _ _
    (fun todo (_ : unit) w' => wf X L (core w') /\
      merge_rel L obj (sle_owner ele) (lock_type (sle_lock ele)) (core w) (core w') /\
      exists ele' done_, view L (core w') le ele' /\ grown ele ele' /\ t_list obj (core w') = done_ ++ todo /\
        (lock_end (sle_lock ele') = UINT64_MAX \/ merged_done le ele (core w') done_))
    (fun w' => merge_weight le (core w'))).
  - split; [done|]. split; [by eapply merge_rel_refl|]. exists ele, [].
    split; [done|]. split; [apply grown_refl|]. split; [done|]. right. by intros b ?%not_elem_of_nil.
  - intros _ w' (Hwf' & Hmr & ele' & done_ & Hv' & Hgr & Hl & Hd). split; [done|]. split; [done|].
    exists ele'. split; [done|]. split; [done|]. destruct Hd as [Hd|Hd]; [by left|].
    rewrite app_nil_r in Hl. rewrite <- Hl in Hd. eapply merged_done_all; [done| |done].
    pose proof (lock_end_ok _ (view_lock _ _ _ _ _ Hwf' Hv')) as [? _]. destruct Hgr as (l & -> & _ & _ & ?).
    simpl in *. lia.
  - intros ce todo [] w' (Hwf' & Hmr & ele' & done_ & Hv' & Hgr & Hl & Hd).
    split; [intros b; apply merge_weight_bounds|].
    pose proof (wf_nodup _ _ _ Hwf' obj) as Hnd. pose proof Hnd as Hnd'. rewrite Hl in Hnd.
    split.
    { rewrite core_list, Hl. apply next_of_split. apply NoDup_app in Hnd as (_ & Hx & _).
      intros Hin. apply (Hx _ Hin). left. }
    apply wp_plain. pose proof Hgr as (l & -> & Hlt & _).
    eapply wp_mono; [apply (wp_merge_step X L obj le (set_lock l ele) ce w'); auto|].
    { rewrite Hl. set_solver. }
    intros [] w'' Hpost. pose proof Hpost as (Hwf'' & Hmr' & Hsh & (ele'' & Hv'' & Hgr') & _).
    simpl. simpl in Hmr'. rewrite Hlt in Hmr'.
    destruct (step_shape_list X L obj le (set_lock l ele) ele'' ce (core w') (core w'') done_ todo)
      as (app & done' & Hl' & Hdone & Hwt); auto; [exact (proj1 Hv')|exact (proj1 Hv'')|].
    exists app. split; [|done]. split; [done|]. split; [by eapply merge_rel_trans|].
    exists ele'', done'. split; [done|]. split; [by eapply grown_trans|]. split; [done|].
    assert (lock_end l <= lock_end (sle_lock ele'') <= UINT64_MAX).
    { pose proof (lock_end_ok _ (view_lock _ _ _ _ _ Hwf'' Hv'')) as [? _].
      pose proof Hgr' as (l' & -> & _ & _ & ?). simpl in *. lia. }
    apply (merged_done_step X L obj le ele ce (core w') (core w'') done_ done' todo l); auto.
    intros b Hb. rewrite Hl'. set_solver.
  - intros b. apply merge_weight_bounds.
Qed.

End merging.

(** ** Subtraction *)
Section subtraction.
Context `{OwnerMem} {F : Type}.
Implicit Types w : lock_world F.

Lemma wf_perm X L L' t : L ≡ₚ L' -> wf X L t -> wf X L' t.
Proof.
  intros Hp []. assert (forall a, a ∈ L <-> a ∈ L') as Hin by (intros; by rewrite Hp).
  constructor; auto.
  - by rewrite <- Hp.
  - intros obj a Ha. destruct (wf_list _ _ Ha) as [? ?]. rewrite <- Hin. done.
  - intros a. rewrite <- Hin. auto.
  - intros a e Ha. destruct (wf_entry _ _ Ha).
    assert (linked L' t a e <-> linked L t a e) as Hl by (unfold linked; by rewrite Hin).
    constructor; auto; try rewrite Hl; auto.
    rewrite ew_refs. do 3 f_equal. by apply bool_decide_ext.
Qed.

Lemma view_perm L L' t a e : L ≡ₚ L' -> view L t a e <-> view L' t a e.
Proof. intros Hp. unfold view, linked. by rewrite Hp. Qed.

(** [er] is a part of the lock [e]. *)
Definition piece (e er : state_lock_entry_t) : Prop :=
  sle_obj er = sle_obj e /\ sle_owner er = sle_owner e /\ sle_state er = sle_state e /\
  sle_blocked er = sle_blocked e /\ lock_type (sle_lock er) = lock_type (sle_lock e).

(** A copy of a granted lock cut to a sub-range, on a private list. *)
Lemma wp_dup_cut X L a e f start length (Q : positive -> lock_world F -> Prop) w :
  wf X L (core w) -> view L (core w) a e -> granted e ->
  (forall re, sle_lock re = sle_lock e -> f re = start) ->
  lock_ok (set_range start length (sle_lock e)) ->
  (forall w' r er, piece e er -> sle_lock er = set_range start length (sle_lock e) ->
     wf X (r :: L) (core w') -> t_files (core w') = t_files (core w) ->
     t_heap (core w') !! r = Some er -> t_heap (core w) !! r = None ->
     (forall b, b <> r -> t_heap (core w') !! b = t_heap (core w) !! b) -> Q r w') ->
  wp (r ← state_lock_entry_t_dup a;
      upd_entry r (fun re => set_lock (set_range (f re) length (sle_lock re)) re);; mret r) Q w.
Proof.
  intros Hwf Hv Hg Hf Hlok HQ. pose proof (wf_live _ _ _ _ _ Hwf Hv) as Ha.
  destruct (ew_owner _ _ _ _ _ (wf_entry _ _ _ Hwf _ _ Ha) (proj2 Hv)) as (o & Hown & Hook).
  pose proof (view_lock _ _ _ _ _ Hwf Hv) as Hlk. pose proof (wf_fresh_heap _ _ _ Hwf).
  unfold state_lock_entry_t_dup. apply wp_bind, wp_bind. eapply wp_get_entry; [done|].
  apply wp_bind. rewrite Hown. apply wp_ret, wp_create. intros w1 Hw1.
  set (r := t_next (core w)) in *.
  set (e1 := new_entry (sle_obj e) (sle_export e) (sle_blocked e) o (sle_state e) (sle_lock e)) in *.
  assert (t_heap (core w1) !! r = Some e1) as Hr1 by (rewrite Hw1; simpl; by rewrite lookup_insert_eq).
  apply wp_bind. eapply wp_upd_entry; [done|]. rewrite (Hf e1) by done. intros w2 Hw2. apply wp_ret.
  eapply HQ; [| | | | |done|].
  5:{ rewrite Hw2. simpl. by rewrite lookup_insert_eq. }
  - by unfold piece.
  - done.
  - rewrite Hw2. apply wf_put_lock; [|done|done]. rewrite Hw1. by eapply wf_create.
  - by rewrite Hw2, Hw1.
  - intros b Hb. rewrite Hw2, Hw1. simpl. by rewrite !lookup_insert_ne.
Qed.

(** The entries [news] are pieces of [e] that together cover exactly the bytes
    of [e] that satisfy [P]. *)
Definition remainder (t : table) (e : state_lock_entry_t) (P : Z -> Prop)
    (news : list positive) : Prop :=
  (forall r, r ∈ news -> exists er, t_heap t !! r = Some er /\ piece e er /\
     forall x, covers (sle_lock er) x -> covers (sle_lock e) x /\ P x) /\
  (forall x, covers (sle_lock e) x -> P x ->
     exists r er, r ∈ news /\ t_heap t !! r = Some er /\ covers (sle_lock er) x).

(** New entries were added to a private list, nothing else changed. *)
Definition extends (X : list positive) (split remove news : list positive) (t t' : table) : Prop :=
  wf X ((split ++ news) ++ remove) t' /\ t_files t' = t_files t /\
  (forall b eb, t_heap t !! b = Some eb -> t_heap t' !! b = Some eb) /\
  (forall r, r ∈ news -> t_heap t !! r = None).

Lemma remainder_mono t t' e P P' news :
  (forall b eb, t_heap t !! b = Some eb -> t_heap t' !! b = Some eb) ->
  (forall x, covers (sle_lock e) x -> P x <-> P' x) ->
  remainder t e P news -> remainder t' e P' news.
Proof.
  intros Hh HP [H1 H2]. split.
  - intros r Hr. destruct (H1 r Hr) as (er & Her & Hp & Hc). exists er. split; [auto|].
    split; [done|]. intros x Hx. destruct (Hc x Hx) as [Hcx HPx]. split; [done|]. by apply HP.
  - intros x Hx HPx. destruct (H2 x Hx) as (r & er & Hr & Her & Hc); [by apply HP|].
    exists r, er. auto.
Qed.

Lemma remainder_app t e P1 P2 news1 news2 :
  remainder t e P1 news1 -> remainder t e P2 news2 ->
  remainder t e (fun x => P1 x \/ P2 x) (news1 ++ news2).
Proof.
  intros [H1 H1'] [H2 H2']. split.
  - intros r [Hr|Hr]%elem_of_app; [destruct (H1 r Hr) as (er & ? & ? & Hc)
                                  |destruct (H2 r Hr) as (er & ? & ? & Hc)];
      exists er; (split; [done|]); (split; [done|]); intros x Hx; destruct (Hc x Hx); auto.
  - intros x Hx [HP|HP]; [destruct (H1' x Hx HP) as (r & er & Hr & ? & ?)
                         |destruct (H2' x Hx HP) as (r & er & Hr & ? & ?)];
      exists r, er; (split; [apply elem_of_app; auto|done]).
Qed.

(** Cutting at most one piece off a granted lock. *)
Lemma wp_cut X a e (b : bool) f length s' e' (P : Z -> Prop) split remove
    (Q : list positive -> lock_world F -> Prop) w :
  wf X (split ++ remove) (core w) -> view (split ++ remove) (core w) a e -> granted e ->
  (b = true -> 0 <= s' <= e' /\ e' <= UINT64_MAX /\
     (forall re, sle_lock re = sle_lock e -> f re = s') /\
     (length = u64 (e' - s' + 1) \/ e' = UINT64_MAX /\ length = 0) /\
     (forall x, s' <= x <= e' <-> covers (sle_lock e) x /\ P x)) ->
  (b = false -> forall x, covers (sle_lock e) x -> ~ P x) ->
  (forall w' news, extends X split remove news (core w) (core w') ->
     remainder (core w') e P news -> Q (split ++ news) w') ->
  wp (if b then r ← state_lock_entry_t_dup a;
        upd_entry r (fun re => set_lock (set_range (f re) length (sle_lock re)) re);;
        mret (split ++ [r])
      else mret split) Q w.
Proof.
  intros Hwf Hv Hg Ht Hf HQ. destruct b.
  - destruct (Ht eq_refl) as (Hs & He & Hfs & Hlen & HP). clear Ht Hf.
    assert (lock_ok (set_range s' length (sle_lock e)) /\
      forall x, covers (set_range s' length (sle_lock e)) x <-> s' <= x <= e') as [Hlok Hcov].
    { destruct Hlen as [Hl|[-> ->]].
      - split; [by apply (set_range_ok s' e')|]. intros x. by apply set_range_covers.
      - unfold lock_ok, covers, lock_end. simpl. split; [lia|]. intros x. lia. }
    assert (wp (r ← state_lock_entry_t_dup a;
      upd_entry r (fun re => set_lock (set_range (f re) length (sle_lock re)) re);; mret r)
      (fun r => Q (split ++ [r])) w) as Hwp.
    2:{ apply wp_bind. apply wp_bind_inv in Hwp. eapply wp_mono; [exact Hwp|]. intros r w1 Hw1.
        apply wp_bind. apply wp_bind_inv in Hw1. exact Hw1. }
    eapply wp_dup_cut; [done..|].
    intros w' r er Hp Hlr Hwf' Hfiles Hr Hfresh Hh.
    assert (forall c ec, t_heap (core w) !! c = Some ec -> t_heap (core w') !! c = Some ec) as Hh'
      by (intros c ec Hc; rewrite Hh; [done|congruence]).
    apply HQ.
    + split; [|split; [done|split; [done|]]].
      * eapply wf_perm; [|exact Hwf']. rewrite <- app_assoc. simpl. apply Permutation_middle.
      * by intros c ->%list_elem_of_singleton.
    + split.
      * intros c ->%list_elem_of_singleton. exists er. split; [done|]. split; [done|].
        intros x. rewrite Hlr, Hcov. apply HP.
      * intros x Hx HPx. exists r, er. split; [by apply list_elem_of_singleton|]. split; [done|].
        rewrite Hlr, Hcov. by apply HP.
  - apply wp_ret. assert (split = split ++ []) as Hs by by rewrite app_nil_r.
    rewrite Hs at 1. apply HQ.
    + split; [by rewrite app_nil_r|]. split; [done|]. split; [done|]. intros r Hr. by apply elem_of_nil in Hr.
    + split; [intros r Hr; by apply elem_of_nil in Hr|]. intros x Hx HPx. by destruct (Hf eq_refl x Hx).
Qed.

Lemma wp_subtract_entry X obj a e lock split remove
    (Q : bool * list positive * list positive -> lock_world F -> Prop) w :
  wf X (split ++ remove) (core w) -> a ∈ t_list obj (core w) ->
  t_heap (core w) !! a = Some e -> granted e -> lock_ok lock ->
  ((forall x, ~ (covers (sle_lock e) x /\ covers lock x)) -> Q (false, split, remove) w) ->
  (forall w' news t1, (exists x, covers (sle_lock e) x /\ covers lock x) ->
     extends X split remove news (core w) t1 ->
     remainder t1 e (fun x => ~ covers lock x) news ->
     core w' = t_set_list obj (remove_id a (t_list obj (core w))) t1 ->
     Q (true, split ++ news, remove ++ [a]) w') ->
  wp (subtract_lock_from_entry obj a lock split remove) Q w.
Proof.
  intros Hwf Hin Ha Hg Hlk HQn HQy.
  destruct (wf_on_list _ _ _ _ _ Hwf Hin) as (e' & Hv & Hobj).
  assert (e' = e) as -> by (destruct Hv; congruence).
  pose proof (view_lock _ _ _ _ _ Hwf Hv) as Hek.
  pose proof (lock_end_ok _ Hek) as [Hre _]. pose proof (lock_end_ok _ Hlk) as [Hrl _].
  pose proof Hek as (Hse & _). pose proof Hlk as (Hsl & _).
  unfold subtract_lock_from_entry. apply wp_bind. eapply wp_get_entry; [done|].
  destruct (Z.ltb_spec (lock_end lock) (lock_start (sle_lock e))).
  { apply wp_ret, HQn. intros x. unfold covers. lia. }
  destruct (Z.ltb_spec (lock_end (sle_lock e)) (lock_start lock)).
  { apply wp_ret, HQn. intros x. unfold covers. lia. }
  assert (forall w' news, extends X split remove news (core w) (core w') ->
     remainder (core w') e (fun x => ~ covers lock x) news ->
     wp (file_del obj a;; mret (true, split ++ news, remove ++ [a])) Q w') as Hend.
  { intros w' news Hext Hrem. apply wp_bind, wp_file_del. intros w'' Hw''. apply wp_ret.
    eapply HQy; [|done|done|].
    - exists (Z.max (lock_start (sle_lock e)) (lock_start lock)). unfold covers. lia.
    - rewrite Hw''. f_equal. unfold t_list. by rewrite (proj1 (proj2 Hext)). }
  apply wp_bind.
  destruct ((lock_start lock <=? lock_start (sle_lock e)) && (lock_end (sle_lock e) <=? lock_end lock)) eqn:Hin'.
  { apply andb_true_iff in Hin' as [?%Z.leb_le ?%Z.leb_le]. apply wp_ret.
    rewrite <- (app_nil_r split). apply Hend.
    - split; [by rewrite app_nil_r|]. split; [done|]. split; [done|]. intros r Hr. by apply elem_of_nil in Hr.
    - split; [intros r Hr; by apply elem_of_nil in Hr|]. intros x Hx Hn. unfold covers in *. lia. }
  apply wp_bind.
  apply (wp_cut X a e _ _ _ (lock_start (sle_lock e)) (lock_start lock - 1)
           (fun x => x < lock_start lock) split remove);
    [done|done|done| | |].
  { intros ?%Z.ltb_lt. split; [lia|]. split; [lia|]. split; [by intros re ->|].
    split; [left; f_equal; lia|]. intros x. unfold covers. lia. }
  { intros ?%Z.ltb_ge x. unfold covers. lia. }
  intros w1 news1 (Hwf1 & Hf1 & Hh1 & Hn1) Hrem1.
  assert (a ∈ t_list obj (core w1)) as Hin1 by (unfold t_list; by rewrite Hf1).
  apply (wp_cut X a e _ _ _ (lock_end lock + 1) (lock_end (sle_lock e))
           (fun x => lock_end lock < x) (split ++ news1) remove);
    [done| |done| | |].
  { split; [by apply Hh1|]. left. by rewrite Hobj. }
  { intros ?%Z.ltb_lt. split; [lia|]. split; [lia|]. rewrite (u64_small (_ + 1)) by lia. split; [done|].
    split; [|intros x; unfold covers; lia].
    destruct (Z.eqb_spec (lock_end (sle_lock e)) UINT64_MAX); [by right|]. left. f_equal. lia. }
  { intros ?%Z.ltb_ge x. unfold covers. lia. }
  intros w2 news2 (Hwf2 & Hf2 & Hh2 & Hn2) Hrem2. rewrite <- app_assoc. apply Hend.
  - split; [by rewrite app_assoc|]. split; [congruence|]. split; [auto|].
    intros r [Hr|Hr]%elem_of_app; [auto|]. specialize (Hn2 r Hr).
    destruct (t_heap (core w) !! r) eqn:Hr0; [|done]. apply Hh1 in Hr0. congruence.
  - eapply (remainder_mono (core w2)); [done| |apply remainder_app; [|exact Hrem2]].
    2:{ eapply remainder_mono; [exact Hh2| |exact Hrem1]. done. }
    intros x Hx. unfold covers in *. simpl. lia.
Qed.

(** *** Freeing a list *)

Definition drop_ids (l L : list positive) : list positive := filter (fun b => b ∉ l) L.

Lemma drop_ids_cons a l L : drop_ids (a :: l) L = drop_ids l (remove_id a L).
Proof.
  unfold drop_ids, remove_id. rewrite list_filter_filter. apply list_filter_iff.
  intros b. rewrite not_elem_of_cons. tauto.
Qed.

Lemma elem_of_drop_ids a l L : a ∈ drop_ids l L <-> a ∉ l /\ a ∈ L.
Proof. unfold drop_ids. by rewrite list_elem_of_filter. Qed.

Lemma drop_ids_nil L : drop_ids [] L = L.
Proof. induction L as [|b L IH]; [done|]. unfold drop_ids in *. rewrite filter_cons_True by set_solver. by rewrite IH. Qed.

Lemma drop_ids_disjoint l L : (forall a, a ∈ L -> a ∉ l) -> drop_ids l L = L.
Proof.
  unfold drop_ids. induction L as [|b L IH]; intros Hd; [done|].
  rewrite filter_cons_True by (apply Hd; left). f_equal. apply IH. intros. apply Hd. by right.
Qed.

Lemma drop_ids_app_r l L : NoDup (L ++ l) -> drop_ids l (L ++ l) = L.
Proof.
  intros (HL & Hd & Hl)%NoDup_app.
  assert (drop_ids l (L ++ l) = drop_ids l L ++ drop_ids l l) as -> by apply filter_app.
  rewrite (drop_ids_disjoint l L) by (intros a Ha Ha'; by apply (Hd a)).
  assert (drop_ids l l = []) as ->; [|by rewrite app_nil_r].
  destruct (drop_ids l l) as [|a k] eqn:Hk; [done|].
  assert (a ∈ drop_ids l l) as [? ?]%elem_of_drop_ids by (rewrite Hk; left). done.
Qed.

Lemma wp_free_list X L l (Q : unit -> lock_world F -> Prop) w :
  wf X L (core w) -> NoDup l -> (forall a, a ∈ l -> exists e, view L (core w) a e) ->
  (forall w', wf X (drop_ids l L) (core w') ->
     (forall b eb, view (drop_ids l L) (core w') b eb <-> view L (core w) b eb /\ b ∉ l) ->
     (forall b, b ∉ l -> t_heap (core w') !! b = t_heap (core w) !! b) ->
     (forall o, t_list o (core w') = drop_ids l (t_list o (core w))) -> Q tt w') ->
  wp (free_list l) Q w.
Proof.
  revert L w. induction l as [|a l IH]; intros L w Hwf Hnd Hlive HQ; simpl.
  - apply wp_ret, HQ; rewrite ?drop_ids_nil; try done.
    + intros b eb. split; [|naive_solver]. intros ?. split; [done|]. apply not_elem_of_nil.
    + intros o. by rewrite drop_ids_nil.
  - destruct (Hlive a) as [e He]; [left|]. apply NoDup_cons in Hnd as [Ha Hnd].
    apply wp_bind. eapply wp_remove_from_locklist; [done..|]. intros w1 Hwf1 Hw1.
    assert (forall b eb, view (remove_id a L) (core w1) b eb <-> view L (core w) b eb /\ b <> a) as Hv1
      by (intros; rewrite Hw1; by eapply view_remove).
    apply (IH (remove_id a L)); [done|done| |].
    + intros b Hb. destruct (Hlive b) as [eb Heb]; [by right|]. exists eb. apply Hv1.
      split; [done|congruence].
    + intros w2 Hwf2 Hv2 Hh2 Hl2. rewrite <- drop_ids_cons in Hwf2, Hv2. apply HQ; [done| | |].
      * intros b eb. rewrite Hv2, Hv1, not_elem_of_cons. tauto.
      * intros b [? ?]%not_elem_of_cons. rewrite Hh2, Hw1 by done. by apply t_remove_heap.
      * intros o. rewrite Hl2, Hw1, (wf_remove_list X L) by (eauto using wf_live).
        by rewrite drop_ids_cons.
Qed.

(** *** The list operation *)

(** The entries an unlock by [owner] applies to. *)
Definition selected (state_seqid : positive -> Z) (owner : option positive) (state_applies : bool)
    (state : Z) (e : state_lock_entry_t) : Prop :=
  (owner = None \/ same_owner (sle_owner e) owner) /\ granted e /\
  (state_applies = true -> forall s, sle_state e = Some s -> state_seqid s <> state).

Lemma selected_piece sq owner sa st e er :
  piece e er -> selected sq owner sa st e -> selected sq owner sa st er.
Proof. unfold selected, granted. intros (_ & -> & -> & -> & _). done. Qed.

(** The loop of [subtract_lock_from_list], with [t0] the table at its start. *)
Record subtracting sq owner sa st obj lock X (t0 : table) (todo : list positive)
    (removed : bool) (split remove : list positive) (t : table) : Prop := {
  sb_wf : wf X (split ++ remove) t;
  sb_todo : exists done_, t_list obj t = done_ ++ todo /\
    forall b e, b ∈ done_ -> t_heap t0 !! b = Some e -> selected sq owner sa st e ->
      forall x, ~ (covers (sle_lock e) x /\ covers lock x);
  sb_heap : forall b e, t_heap t0 !! b = Some e -> t_heap t !! b = Some e;
  sb_list : forall b, b ∈ t_list obj t0 <-> b ∈ t_list obj t \/ b ∈ remove;
  sb_lists : forall o, o <> obj -> t_list o t = t_list o t0;
  sb_remove : forall a, a ∈ remove -> exists e, t_heap t0 !! a = Some e /\
    selected sq owner sa st e /\ (exists x, covers (sle_lock e) x /\ covers lock x) /\
    forall x, covers (sle_lock e) x -> ~ covers lock x ->
      exists r er, r ∈ split /\ t_heap t !! r = Some er /\ piece e er /\ covers (sle_lock er) x;
  sb_split : forall r, r ∈ split -> t_heap t0 !! r = None /\ exists a e er, a ∈ remove /\
    t_heap t0 !! a = Some e /\ t_heap t !! r = Some er /\ piece e er /\
    forall x, covers (sle_lock er) x -> covers (sle_lock e) x /\ ~ covers lock x;
  sb_removed : removed = bool_decide (remove <> [])
}.

Section list_op.
Context (sq : positive -> Z) (owner : option positive) (sa : bool) (st : Z).
Context (obj : positive) (lock : fsal_lock_param_t) (X : list positive) (t0 : table).
Context (Hlk : lock_ok lock) (Hwf0 : wf X [] t0).
Abbreviation sub_inv := (subtracting sq owner sa st obj lock X t0).

(** A node that stays on the list. *)
Lemma subtracting_skip a todo removed split remove t e :
  sub_inv (a :: todo) removed split remove t -> t_heap t0 !! a = Some e ->
  (selected sq owner sa st e -> forall x, ~ (covers (sle_lock e) x /\ covers lock x)) ->
  sub_inv todo removed split remove t.
Proof.
  intros [Swf Stodo Sheap Slist Slists Srem Ssplit Sflag] Ha Hns. constructor; auto. destruct Stodo as (done_ & Hl & Hd).
  exists (done_ ++ [a]). rewrite <- app_assoc. split; [done|].
  intros b eb [Hb| ->%list_elem_of_singleton]%elem_of_app Heb; [eauto|].
  assert (eb = e) as -> by congruence. auto.
Qed.

(** A node moved to the list of removed entries. *)
Lemma subtracting_cut a todo removed split remove t t1 news e :
  sub_inv (a :: todo) removed split remove t -> t_heap t0 !! a = Some e ->
  selected sq owner sa st e -> (exists x, covers (sle_lock e) x /\ covers lock x) ->
  extends X split remove news t t1 -> remainder t1 e (fun x => ~ covers lock x) news ->
  sub_inv todo true (split ++ news) (remove ++ [a])
    (t_set_list obj (remove_id a (t_list obj t)) t1).
Proof using Hlk Hwf0.
  intros [Swf Stodo Sheap Slist Slists Srem Ssplit Sflag] Ha Hsel Hov (Hwf1 & Hf1 & Hh1 & Hn1) [Hr1 Hr2].
  destruct Stodo as (done_ & Hl & Hd).
  assert (a ∈ t_list obj t) as Hin by (rewrite Hl; set_solver).
  assert (t_list obj t = t_list obj t1) as Hlt by (unfold t_list; by rewrite Hf1).
  assert (NoDup (done_ ++ a :: todo)) as Hnd by (rewrite <- Hl; by eapply wf_nodup).
  constructor.
  - rewrite app_assoc, Hlt. apply wf_detach; [done|]. by rewrite <- Hlt.
  - exists done_. rewrite t_list_set_list, decide_True, Hl, remove_id_split by done. done.
  - intros b eb Hb. simpl. auto.
  - intros b. rewrite t_list_set_list, decide_True, elem_of_remove_id, Slist by done.
    rewrite elem_of_app, list_elem_of_singleton. destruct (decide (b = a)); naive_solver.
  - intros o Ho. rewrite t_list_set_list, decide_False by done. unfold t_list. rewrite Hf1. by apply Slists.
  - intros b [Hb| ->%list_elem_of_singleton]%elem_of_app; simpl.
    + destruct (Srem b Hb) as (eb & Heb & Hs & Ho & Hc). exists eb. do 3 (split; [done|]).
      intros x Hx Hnx. destruct (Hc x Hx Hnx) as (r & er & Hr & Her & ?). exists r, er.
      split; [apply elem_of_app; by left|]. auto.
    + exists e. do 3 (split; [done|]). intros x Hx Hnx.
      destruct (Hr2 x Hx Hnx) as (r & er & Hr & Her & Hc). exists r, er.
      split; [apply elem_of_app; by right|]. split; [done|]. split; [|done].
      destruct (Hr1 r Hr) as (er' & ? & ? & _). congruence.
  - intros r [Hr|Hr]%elem_of_app; simpl.
    + destruct (Ssplit r Hr) as (Hr0 & b & eb & er & Hb & Heb & Her & ?). split; [done|].
      exists b, eb, er. split; [apply elem_of_app; by left|]. auto.
    + split.
      * destruct (t_heap t0 !! r) eqn:Hr0; [|done]. apply Sheap in Hr0. rewrite Hn1 in Hr0; done.
      * destruct (Hr1 r Hr) as (er & Her & Hp & Hc). exists a, e, er.
        split; [apply elem_of_app; right; by left|]. auto.
  - rewrite bool_decide_eq_true_2; [done|]. by destruct remove.
Qed.

Context (Hst : sa = true -> forall b e, b ∈ t_list obj t0 -> t_heap t0 !! b = Some e -> granted e ->
  is_Some (sle_state e)).

(** One iteration. *)
Lemma wp_subtract_step a todo removed split remove (w : lock_world F) :
  sub_inv (a :: todo) removed split remove (core w) ->
  wp (e ← get_entry a;
      if bool_decide (is_Some owner) && different_owners (sle_owner e) owner
      then mret (removed, split, remove, false) else
      if decide (sle_blocked e <> STATE_NON_BLOCKING)
      then mret (removed, split, remove, false) else
      skip ← (if sa then s ← deref (sle_state e); mret (sq s =? st) else mret false);
      if (skip : bool) then mret (removed, split, remove, false) else
      '(removed_one, split', remove') ← subtract_lock_from_entry obj a lock split remove;
      mret (removed || removed_one, split', remove', false))
    (fun r w' => snd r = false /\
       sub_inv todo (fst (fst (fst r))) (snd (fst (fst r))) (snd (fst r)) (core w')) w.
Proof using Hlk Hwf0 Hst.
  intros Hinv. pose proof Hinv as [Swf (done_ & Hl & _) Sheap Slist Slists Srem Ssplit Sflag].
  assert (a ∈ t_list obj (core w)) as Hin by (rewrite Hl; set_solver).
  assert (a ∈ t_list obj t0) as Hin0 by (apply Slist; by left).
  destruct (wf_list _ _ _ Hwf0 _ _ Hin0) as (_ & e & He0 & Hobj).
  assert (t_heap (core w) !! a = Some e) as He by auto.
  apply wp_bind. eapply wp_get_entry; [done|].
  assert ((~ selected sq owner sa st e) -> sub_inv todo removed split remove (core w)) as Hskip.
  { intros Hns. eapply subtracting_skip; eauto. }
  destruct (bool_decide (is_Some owner) && different_owners (sle_owner e) owner) eqn:Hown.
  { apply wp_ret. split; [done|]. apply Hskip. intros ([->|Hso] & _); [done|].
    apply andb_true_iff in Hown as [_ Hd]. by apply different_owners_true in Hd. }
  assert (owner = None \/ same_owner (sle_owner e) owner) as Hso.
  { apply andb_false_iff in Hown as [Hn|Hd]; [|by right]. left.
    apply bool_decide_eq_false in Hn. by apply eq_None_not_Some. }
  case_decide as Hb; [apply wp_ret; split; [done|]; apply Hskip; intros (_ & Hg & _); by apply Hb|].
  assert (granted e) as Hg by (unfold granted; destruct (sle_blocked e); naive_solver).
  apply wp_bind.
  assert (wp (if sa then s ← deref (sle_state e); mret (sq s =? st) else mret false)
    (fun skip w' => w' = w /\ (skip = true -> ~ selected sq owner sa st e) /\
                    (skip = false -> selected sq owner sa st e)) w) as Hskp.
  { destruct sa eqn:Hsa.
    - destruct (Hst eq_refl a e Hin0 He0 Hg) as [s Hs]. apply wp_bind. eapply wp_deref; [done|].
      apply wp_ret. split; [done|]. split.
      + intros Heq%Z.eqb_eq (_ & _ & Hq). by apply (Hq eq_refl s).
      + intros Hne%Z.eqb_neq. split; [done|]. split; [done|]. intros _ s'. congruence.
    - apply wp_ret. split; [done|]. split; [done|]. intros _. split; [done|]. by split. }
  eapply wp_mono; [exact Hskp|]. intros skip w' (-> & Hs1 & Hs2).
  destruct skip; [apply wp_ret; split; [done|]; by apply Hskip, Hs1|]. specialize (Hs2 eq_refl).
  apply wp_bind. eapply (wp_subtract_entry X); [done..| |].
  - intros Hno. apply wp_ret. split; [done|]. simpl. rewrite orb_false_r.
    eapply subtracting_skip; eauto.
  - intros w' news t1 Hov Hext Hrem Hw'. apply wp_ret. split; [done|]. simpl. rewrite orb_true_r, Hw'.
    by eapply subtracting_cut.
Qed.

End list_op.
Lemma piece_refl e : piece e e.
Proof. by unfold piece. Qed.

(** [subtract_lock_from_list] removes from the selected locks exactly the bytes
    of [lock], and touches nothing else. *)
Record subtracted sq owner sa st obj lock (t t' : table) (removed : bool) : Prop := {
  sd_other : forall a e, ~ (selected sq owner sa st e /\ sle_obj e = obj) ->
    view [] t a e <-> view [] t' a e;
  sd_gone : forall a' e' x, view [] t' a' e' -> selected sq owner sa st e' -> sle_obj e' = obj ->
    covers (sle_lock e') x ->
    ~ covers lock x /\ exists a e, view [] t a e /\ piece e e' /\ covers (sle_lock e) x;
  sd_kept : forall a e x, view [] t a e -> selected sq owner sa st e -> sle_obj e = obj ->
    covers (sle_lock e) x -> ~ covers lock x ->
    exists a' e', view [] t' a' e' /\ piece e e' /\ covers (sle_lock e') x;
  sd_removed : removed = true <-> exists a e x, view [] t a e /\ sle_obj e = obj /\
    selected sq owner sa st e /\ covers (sle_lock e) x /\ covers lock x
}.

(** From the end of the loop to the end of the function. *)
Lemma subtracting_end sq owner sa st obj lock X t0 removed split remove t t1 t' :
  wf X [] t0 -> subtracting sq owner sa st obj lock X t0 [] removed split remove t ->
  (forall b eb, view split t1 b eb <-> view (split ++ remove) t b eb /\ b ∉ remove) ->
  wf X split t1 -> t' = t_set_list obj (t_list obj t1 ++ split) t1 ->
  wf X [] t' /\ subtracted sq owner sa st obj lock t0 t' removed.
Proof.
  intros Hwf0 [Swf (done_ & Hl & Hd) Sheap Slist Slists Srem Ssplit Sflag] Hv1 Hwf1 ->.
  rewrite app_nil_r in Hl. subst done_.
  assert (forall a, a ∈ split -> exists e, t_heap t1 !! a = Some e /\ sle_obj e = obj) as Hobj.
  { intros a Ha. destruct (wf_on_loose _ _ _ _ Hwf1 Ha) as (e1 & Hve). exists e1.
    split; [exact (proj1 Hve)|]. apply Hv1 in Hve as [[He1 _] _].
    destruct (Ssplit a Ha) as (_ & b & e & er & Hb & He & Her & (Ho & _) & _).
    assert (er = e1) as -> by congruence. rewrite Ho.
    assert (b ∈ t_list obj t0) as Hb0 by (apply Slist; by right).
    destruct (wf_list _ _ _ Hwf0 _ _ Hb0) as (_ & e' & ? & ?). congruence. }
  assert (wf X (split ++ []) t1) as Hwf1' by by rewrite app_nil_r.
  split; [by apply (wf_append X split [])|].
  (* the linked entries at the end *)
  assert (forall b eb, view [] (t_set_list obj (t_list obj t1 ++ split) t1) b eb <->
    (view [] t0 b eb /\ b ∉ remove) \/ (b ∈ split /\ t_heap t !! b = Some eb)) as Hv.
  { intros b eb. rewrite (view_append X split []) by done. rewrite app_nil_r, Hv1.
    assert (forall b, b ∈ split -> b ∉ remove) as Hdisj.
    { intros c Hc Hc'. pose proof (wf_loose_nodup _ _ _ Swf) as (_ & Hdj & _)%NoDup_app. by apply (Hdj c). }
    unfold view, linked. rewrite elem_of_app. split.
    - intros [[Hb [Hin|[Hin|Hin]]] Hnr]; [|by right|done].
      left. split; [|done]. assert (b ∈ t_list (sle_obj eb) t0) as Hin0.
      { destruct (decide (sle_obj eb = obj)) as [Heq|Hne]; [|by rewrite <- Slists].
        rewrite Heq in *. apply Slist. by left. }
      destruct (wf_list _ _ _ Hwf0 _ _ Hin0) as (_ & e0 & He0 & _).
      pose proof (Sheap _ _ He0). assert (e0 = eb) as -> by congruence. auto.
    - intros [[[Hb [Hin|Hin]] Hnr]|[Hin Hb]].
      + split; [|done]. split; [by apply Sheap|]. left.
        destruct (decide (sle_obj eb = obj)) as [Heq|Hne]; [|by rewrite Slists].
        rewrite Heq in *. apply Slist in Hin as [?|?]; done.
      + by apply elem_of_nil in Hin.
      + split; [split; [done|auto]|auto]. }
  assert (forall b e, view [] t0 b e -> selected sq owner sa st e -> sle_obj e = obj -> b ∉ remove ->
    forall x, covers (sle_lock e) x -> ~ covers lock x) as Hnoov.
  { intros b e [Hb [Hin|Hin]] Hsel Ho Hnr x Hx Hlx; [|by apply elem_of_nil in Hin].
    rewrite Ho in Hin. apply Slist in Hin as [Hin|]; [|done]. by apply (Hd b e Hin Hb Hsel x). }
  constructor.
  - intros b e Hns. rewrite Hv. split.
    + intros Hb. left. split; [done|]. intros Hr. destruct (Srem b Hr) as (e' & He' & Hsel & _).
      assert (e' = e) as -> by (destruct Hb; congruence). apply Hns. split; [done|].
      assert (b ∈ t_list obj t0) as Hb0 by (apply Slist; by right).
      destruct (wf_list _ _ _ Hwf0 _ _ Hb0) as (_ & e' & ? & ?). congruence.
    + intros [[? _]|[Hin Hb]]; [done|]. exfalso. apply Hns.
      destruct (Ssplit b Hin) as (_ & c & ec & er & Hc & Hec & Her & Hp & _).
      assert (er = e) as -> by congruence. destruct (Srem c Hc) as (ec' & Hec' & Hsel & _).
      assert (ec' = ec) as -> by congruence. split; [by eapply selected_piece|].
      destruct Hp as (-> & _). assert (c ∈ t_list obj t0) as Hc0 by (apply Slist; by right).
      destruct (wf_list _ _ _ Hwf0 _ _ Hc0) as (_ & e' & ? & ?). congruence.
  - intros b e x Hb Hsel Ho Hx. apply Hv in Hb as [[Hb Hnr]|[Hin Hb]].
    + split; [by eapply Hnoov|]. exists b, e. auto using piece_refl.
    + destruct (Ssplit b Hin) as (_ & c & ec & er & Hc & Hec & Her & Hp & Hcov).
      assert (er = e) as -> by congruence. destruct (Hcov x Hx) as [Hcx Hnx]. split; [done|].
      exists c, ec. split; [|done]. assert (c ∈ t_list obj t0) as Hc0 by (apply Slist; by right).
      destruct (wf_on_list _ _ _ _ _ Hwf0 Hc0) as (e' & Hve' & _).
      assert (e' = ec) as -> by (destruct Hve'; congruence). done.
  - intros b e x Hb Hsel Ho Hx Hnx. destruct (decide (b ∈ remove)) as [Hr|Hr].
    + destruct (Srem b Hr) as (e' & He' & _ & _ & Hc).
      assert (e' = e) as -> by (destruct Hb; congruence).
      destruct (Hc x Hx Hnx) as (r & er & Hrs & Her & Hp & Hcx). exists r, er.
      split; [apply Hv; by right|done].
    + exists b, e. split; [apply Hv; by left|]. auto using piece_refl.
  - rewrite Sflag, bool_decide_eq_true. split.
    + intros Hne. destruct remove as [|b remove]; [done|]. destruct (Srem b ltac:(left)) as (e & He & Hsel & (x & ? & ?) & _).
      assert (b ∈ t_list obj t0) as Hb0 by (apply Slist; right; left).
      destruct (wf_on_list _ _ _ _ _ Hwf0 Hb0) as (e' & Hve' & ?).
      assert (e' = e) as -> by (destruct Hve'; congruence). exists b, e, x. auto.
    + intros (b & e & x & Hve & Ho & Hsel & Hx & Hlx) Hnil. subst remove.
      apply (Hnoov b e Hve Hsel Ho) in Hx; [done|]. apply not_elem_of_nil.
Qed.

Lemma wp_subtract_lock_from_list sq owner sa st obj lock X (w : lock_world F) :
  wf X [] (core w) -> lock_ok lock ->
  (sa = true -> forall b e, view [] (core w) b e -> sle_obj e = obj -> granted e -> is_Some (sle_state e)) ->
  wp (subtract_lock_from_list sq obj owner sa st lock) (fun removed w' =>
    wf X [] (core w') /\ subtracted sq owner sa st obj lock (core w) (core w') removed) w.
Proof.
  intros Hwf Hlk Hst. unfold subtract_lock_from_list. apply wp_bind.
  apply (glist_for_each_safe_wp_fixed _ _ (fun todo s w' =>
    subtracting sq owner sa st obj lock X (core w) todo (fst (fst s)) (snd (fst s)) (snd s) (core w'))).
  - simpl. constructor; simpl; auto.
    + exists []. split; [done|]. intros b e Hb. by apply elem_of_nil in Hb.
    + intros b. rewrite elem_of_nil. naive_solver.
    + intros a Ha. by apply elem_of_nil in Ha.
    + intros r Hr. by apply elem_of_nil in Hr.
  - intros [[removed split] remove] w' Hsub. simpl in Hsub.
    pose proof (sb_wf _ _ _ _ _ _ _ _ _ _ _ _ _ Hsub) as Hwf'.
    pose proof (wf_loose_nodup _ _ _ Hwf') as Hnd.
    apply wp_bind. apply (wp_free_list X (split ++ remove)); [done| | |].
    + by apply NoDup_app in Hnd as (_ & _ & ?).
    + intros a Ha. apply (wf_on_loose X); [done|]. apply elem_of_app. by right.
    + rewrite drop_ids_app_r by done. intros w1 Hwf1 Hv1 Hh1 Hl1.
      apply wp_bind, wp_modify, wp_ret.
      eapply (subtracting_end _ _ _ _ _ _ _ _ _ _ _ _ (core w1)); eauto.
  - intros a todo [[removed split] remove] w' Hsub. simpl in Hsub.
    pose proof Hsub as [Swf (done_ & Hl & _) _ _ _ _ _ _]. split.
    + rewrite core_list, Hl. apply next_of_split. pose proof (wf_nodup _ _ _ Swf obj) as Hnd.
      rewrite Hl in Hnd. apply NoDup_app in Hnd as (_ & Hd & _). intros Hin. apply (Hd _ Hin). left.
    + eapply wp_mono; [eapply wp_subtract_step; eauto|].
      * intros Hsa b e Hb He. destruct (wf_on_list _ _ _ _ _ Hwf Hb) as (e' & Hv & Ho).
        assert (e' = e) as -> by (destruct Hv; congruence). eauto.
      * intros [[[r s] m] brk] w'' [Hbrk Hs]. simpl in *. by rewrite Hbrk.
Qed.

End subtraction.
