(* ===== verification/LockGrant.v ===== *)
(** * Granting and cancelling blocked locks

    Specifications of the operations of [LockManager] that call the FSAL and
    move a blocked lock through its life cycle. *)
From S2P Require Import Prelude Status Owners LockTable LockManager LockInv LockPrims LockAlgo.
Local Open Scope Z_scope.

(** ** Calls to the FSAL *)
Section fsal_calls.
Context `{OwnerMem} {F : Type} `{!Env F}.
Implicit Types w : lock_world F.

Lemma wp_owner_client o (Q : option positive -> lock_world F -> Prop) w :
  owner_ok o -> (forall c, Q c w) -> wp (owner_client o) Q w.
Proof.
  unfold owner_ok, owner_client. intros Hok HQ.
  destruct (so_type (owner_at o)), (so_owner (owner_at o)); try done; apply wp_ret, HQ.
Qed.

(** What a status of [do_lock_op] can be. *)
Definition lock_op_status (op : fsal_lock_op_t) (st : state_status_t) : Prop :=
  (st = STATE_LOCK_BLOCKED -> op = FSAL_OP_LOCKB) /\
  (st = STATE_LOCK_CONFLICT -> op <> FSAL_OP_LOCKB) /\
  (fso_lock_support = false -> st = STATE_SUCCESS).

Lemma wp_do_lock_op ctx obj state op o lock want
    (Q : state_status_t * conflict_t -> lock_world F -> Prop) w :
  owner_ok o ->
  (forall st cf w', core w' = core w -> lock_op_status op st -> Q (st, cf) w') ->
  wp (do_lock_op ctx obj state op (Some o) lock want) Q w.
Proof.
  intros Hok HQ. unfold do_lock_op.
  destruct (negb fso_lock_support || _) eqn:Hquick; [by apply wp_ret, HQ|].
  apply orb_false_iff in Hquick as [Hsup Hcan]. apply negb_false_iff in Hsup.
  apply wp_bind, wp_ret, wp_bind, wp_owner_client; [done|]. intros oc. apply wp_bind.
  unfold call_lock_op2, wp at 1.
  destruct (lock_op2 _ _ _ _ _ _ _) as [[err cl] s].
  set (fop := if bool_decide (op = FSAL_OP_LOCKB) && negb fso_lock_support_async_block
              then FSAL_OP_LOCK else op).
  set (st0 := state_error_convert err).
  set (st := if bool_decide (st0 = STATE_LOCK_BLOCKED) && bool_decide (fop <> FSAL_OP_LOCKB)
             then STATE_FSAL_ERROR
             else if bool_decide (st0 = STATE_LOCK_CONFLICT) && bool_decide (op = FSAL_OP_LOCKB)
                  then STATE_LOCK_BLOCKED else st0).
  assert (lock_op_status op st) as Hst.
  { unfold lock_op_status, st, fop. clearbody st0. rewrite Hsup. split; [|split; [|done]].
    - destruct (bool_decide (op = FSAL_OP_LOCKB)) eqn:Hop;
        [by apply bool_decide_eq_true in Hop|]. apply bool_decide_eq_false in Hop. simpl.
      rewrite andb_false_r. destruct (decide (st0 = STATE_LOCK_BLOCKED)) as [->|];
        [rewrite !bool_decide_eq_true_2 by done; done|].
      rewrite (bool_decide_eq_false_2 (st0 = _)) by done. done.
    - intros Hc Hop. revert Hc. rewrite (bool_decide_eq_true_2 (op = _)) by done.
      repeat case_bool_decide; simpl; try done; intros ->; done. }
  destruct (bool_decide (st = STATE_LOCK_CONFLICT) && want).
  - wp_silent. apply wp_ret, HQ; [|done]. by core_eq.
  - apply wp_ret, HQ; done.
Qed.

(** Entries of the same owner for the same lock. *)
Definition same_lock (e e' : state_lock_entry_t) : Prop :=
  sle_obj e' = sle_obj e /\ sle_owner e' = sle_owner e /\
  lock_type (sle_lock e') = lock_type (sle_lock e) /\
  lock_start (sle_lock e') = lock_start (sle_lock e) /\
  lock_length (sle_lock e') = lock_length (sle_lock e).

Lemma same_lock_refl e : same_lock e e.
Proof. by unfold same_lock. Qed.

Lemma same_lock_trans e1 e2 e3 : same_lock e1 e2 -> same_lock e2 e3 -> same_lock e1 e3.
Proof. unfold same_lock. intuition congruence. Qed.

Lemma same_lock_covers e e' x : same_lock e e' -> covers (sle_lock e') x <-> covers (sle_lock e) x.
Proof. unfold same_lock, covers, lock_end. intros (_ & _ & _ & -> & ->). done. Qed.

Lemma same_lock_ok e e' : same_lock e e' -> lock_ok (sle_lock e) -> lock_ok (sle_lock e').
Proof. unfold same_lock, lock_ok. intros (_ & _ & _ & -> & ->). done. Qed.

Definition posix_entry (e : state_lock_entry_t) : state_lock_entry_t :=
  set_lock (set_sle_type FSAL_POSIX_LOCK (sle_lock e)) e.

Lemma wp_do_lock_op_entry X L ctx obj op a e (Q : state_status_t -> lock_world F -> Prop) w :
  wf X L (core w) -> view L (core w) a e ->
  (forall st w', core w' = t_put a (posix_entry e) (core w) -> lock_op_status op st ->
     wf X L (core w') -> Q st w') ->
  wp (do_lock_op_entry ctx obj op a) Q w.
Proof.
  intros Hwf Hv HQ. pose proof (wf_live _ _ _ _ _ Hwf Hv) as Ha.
  destruct (ew_owner _ _ _ _ _ (wf_entry _ _ _ Hwf _ _ Ha) (proj2 Hv)) as (o & Ho & Hok).
  unfold do_lock_op_entry. apply wp_bind. eapply wp_upd_entry; [done|]. intros w1 Hw1.
  apply wp_bind. eapply wp_get_entry; [rewrite Hw1; simpl; by rewrite lookup_insert_eq|].
  apply wp_bind. simpl. rewrite Ho. apply wp_do_lock_op; [done|]. intros st cf w2 Hw2 Hst.
  apply wp_ret. apply HQ; [rewrite Hw2; exact Hw1|done|]. rewrite Hw2, Hw1. apply wf_put_lock; [done|done|].
  apply (view_lock _ _ _ _ _ Hwf Hv).
Qed.

End fsal_calls.

(** ** Grant cookies *)
Section cookies.
Context `{OwnerMem} {F : Type} `{!Env F}.
Implicit Types w : lock_world F.

Definition uncookie (e : state_lock_entry_t) : state_lock_entry_t :=
  set_block_data (set_cookie None <$> sle_block_data e) e.

Lemma cookie_of_uncookie e : cookie_of (uncookie e) = None.
Proof. unfold cookie_of, uncookie. simpl. by destruct (sle_block_data e). Qed.

Lemma same_lock_uncookie n e : same_lock e (set_refcount n (uncookie e)).
Proof. by unfold same_lock. Qed.

(** The table once the cookie is gone and its reference given up. *)
Lemma wf_detach_cookie X L t c k e :
  wf X L t -> t_cookies t !! c = Some k -> t_heap t !! sce_lock_entry k = Some e ->
  cookie_of e = Some c -> (forall key, t_ht t !! key <> Some c) ->
  let a := sce_lock_entry k in
  wf (a :: X) L (t_put a (set_refcount (sle_ref_count e - 1) (uncookie e))
                   (t_set_cookies (delete c (t_cookies t)) (t_put a (uncookie e) t))).
Proof.
  intros Hwf Hc Ha Hce Hht a. fold a in Ha. pose proof Hwf as [].
  constructor; simpl; auto.
  - intros obj b Hb. destruct (wf_list _ _ Hb) as (? & eb & Heb & Hob). split; [done|].
    destruct (decide (b = a)) as [->|Hne].
    + eexists. rewrite lookup_insert_eq. split; [done|]. simpl. congruence.
    + exists eb. by rewrite !lookup_insert_ne.
  - intros b Hb. destruct (decide (b = a)) as [->|Hne]; [by rewrite lookup_insert_eq|].
    rewrite !lookup_insert_ne by done. auto.
  - intros b eb. destruct (decide (b = a)) as [->|Hne].
    + rewrite lookup_insert_eq. intros [= <-]. destruct (wf_entry _ _ Ha).
      constructor; simpl; auto.
      * rewrite ew_refs, Hce.
        change (cookie_of (set_refcount _ ?x)) with (cookie_of x). rewrite cookie_of_uncookie.
        rewrite (bool_decide_eq_true_2 (is_Some (Some c))) by eauto.
        rewrite (bool_decide_eq_false_2 (is_Some None)) by (by intros [? ?]).
        match goal with |- _ = Z.b2z (bool_decide ?P) + _ + _ =>
          assert (bool_decide P = bool_decide (linked L t a e)) as -> by by apply bool_decide_ext end.
        simpl. lia.
      * rewrite not_elem_of_cons. naive_solver.
      * change (cookie_of (set_refcount _ ?x)) with (cookie_of x). by rewrite cookie_of_uncookie.
      * rewrite not_elem_of_cons. naive_solver.
    + rewrite !lookup_insert_ne by done. intros Heb. destruct (wf_entry _ _ Heb).
      assert (b ∉ a :: X -> b ∉ X) by (rewrite not_elem_of_cons; naive_solver).
      constructor; simpl; auto. intros c' Hc'. destruct (ew_cookie _ Hc') as (k' & Hk' & ? & ?).
      exists k'. rewrite lookup_delete_ne; [done|]. intros ->. unfold a in Hne. congruence.
  - intros c' k' [Hne Hk']%lookup_delete_Some. destruct (wf_cookie _ _ Hk') as (? & Hnh & Hht' & ec & Hec & Hcc).
    assert (c' <> a) by congruence. rewrite !(lookup_insert_ne _ a c') by done.
    split; [done|]. split; [done|]. split; [rewrite Hht', not_elem_of_cons; tauto|].
    exists ec. rewrite !lookup_insert_ne; [done| |]; intros Heq; congruence.
  - intros key c' Hk. destruct (wf_ht _ _ Hk) as (k' & Hk' & ?). exists k'.
    rewrite lookup_delete_ne; [done|]. intros ->. by apply (Hht key).
  - intros b Hb. destruct (wf_blocked _ Hb) as (eb & Heb & Hbd).
    destruct (decide (b = a)) as [->|Hne].
    + eexists. rewrite lookup_insert_eq. split; [done|]. simpl.
      assert (eb = e) as -> by congruence. by apply fmap_is_Some.
    + exists eb. by rewrite !lookup_insert_ne.
  - intros b Hb. destruct (decide (b = a)) as [->|Hne]; [by rewrite lookup_insert_eq|].
    rewrite !lookup_insert_ne by done. auto.
  - intros b [->|Hb]%elem_of_cons; [apply (ew_fresh _ _ _ _ _ (wf_entry _ _ Ha))|auto].
Qed.

(** [free_cookie] of a cookie that is no longer in the hash table. *)
Lemma wp_free_cookie X L c k e (Q : unit -> lock_world F -> Prop) w :
  wf X L (core w) -> t_cookies (core w) !! c = Some k ->
  (forall key, t_ht (core w) !! key <> Some c) ->
  t_heap (core w) !! sce_lock_entry k = Some e ->
  (linked L (core w) (sce_lock_entry k) e -> sce_lock_entry k ∉ X -> status_ok (uncookie e)) ->
  (forall w', wf X L (core w') ->
     t_files (core w') = t_files (core w) -> t_ht (core w') = t_ht (core w) ->
     t_sched (core w') = t_sched (core w) ->
     t_cookies (core w') = delete c (t_cookies (core w)) ->
     (forall b, b <> sce_lock_entry k -> t_heap (core w') !! b = t_heap (core w) !! b) ->
     (linked L (core w) (sce_lock_entry k) e ->
        t_heap (core w') !! sce_lock_entry k = Some (set_refcount (sle_ref_count e - 1) (uncookie e))) ->
     Q tt w') ->
  wp (free_cookie c true) Q w.
Proof.
  intros Hwf Hc Hht Ha Hst HQ.
  assert (cookie_of e = Some c) as Hce
    by (destruct (wf_cookie _ _ _ Hwf _ _ Hc) as (_ & _ & _ & e' & ? & ?); congruence).
  pose proof (wf_detach_cookie _ _ _ _ _ _ Hwf Hc Ha Hce Hht) as Hwf1. simpl in Hwf1.
  set (a := sce_lock_entry k) in *.
  pose proof (ew_refs _ _ _ _ _ (wf_entry _ _ _ Hwf _ _ Ha)) as Hrefs.
  rewrite Hce, (bool_decide_eq_true_2 (is_Some (Some c))) in Hrefs by eauto.
  assert (is_Some (sle_block_data e)) as [bd Hbd].
  { unfold cookie_of in Hce. destruct (sle_block_data e); [eauto|done]. }
  unfold free_cookie. apply wp_bind. unfold get_cookie. apply wp_bind, wp_gets.
  simpl in Hc. rewrite Hc. apply wp_ret. simpl. fold a.
  apply wp_bind, wp_bind. eapply wp_get_entry; [done|].
  rewrite bool_decide_eq_true_2 by (rewrite Hbd; eauto). simpl.
  apply wp_bind. unfold upd_block_data. apply wp_bind. eapply wp_get_entry; [done|].
  apply wp_bind. rewrite Hbd. apply wp_ret, wp_put_entry. intros w1 Hw1.
  assert (set_block_data (Some (set_cookie None bd)) e = uncookie e) as Hun
    by (unfold uncookie; by rewrite Hbd). rewrite Hun in Hw1.
  apply wp_bind. eapply (wp_lock_entry_dec_ref a (uncookie e)).
  { rewrite Hw1. simpl. by rewrite lookup_insert_eq. }
  { simpl. destruct (bool_decide _); simpl in Hrefs; lia. }
  intros w2 Hw2. apply silent_bk_ref. intros [] w3 Hw3. apply wp_modify.
  assert (core (upd_cookies (delete c) w3) =
    t_dec a (uncookie e) (t_set_cookies (delete c (t_cookies (core w))) (t_put a (uncookie e) (core w)))) as Hcore.
  { core_eq. unfold t_dec. by case_decide. }
  apply HQ; rewrite Hcore; try (unfold t_dec; by case_decide).
  - apply wf_dec; [done| |].
    + simpl. destruct (bool_decide _); simpl in Hrefs; lia.
    + intros Hl Hx. by apply Hst.
  - intros b Hb. unfold t_dec. case_decide; simpl;
      rewrite ?lookup_delete_ne, ?lookup_insert_ne by done; done.
  - intros Hl. assert (sle_ref_count e <> 1).
    { rewrite bool_decide_eq_true_2 in Hrefs by done. simpl in Hrefs. lia. }
    unfold t_dec. simpl. rewrite decide_False by done. simpl. by rewrite lookup_insert_eq.
Qed.

Definition attach (c : positive) (e : state_lock_entry_t) : state_lock_entry_t :=
  set_refcount (sle_ref_count e + 1) (set_block_data (set_cookie (Some c) <$> sle_block_data e) e).

Lemma wf_attach X L t a e key :
  wf X L t -> t_heap t !! a = Some e -> is_Some (sle_block_data e) -> cookie_of e = None ->
  t_ht t !! key = None ->
  let c := t_next t in
  wf (a :: X) L
    (t_put a (attach c e)
       (t_set_ht (<[key := c]> (t_ht t))
          (t_set_cookies (<[c := {| sce_obj := sle_obj e; sce_lock_entry := a; sce_cookie := key |}]>
                            (t_cookies t)) (t_set_next (Pos.succ c) t)))).
Proof.
  intros Hwf Ha [bd Hbd] Hce Hkey c. pose proof Hwf as [].
  assert (cookie_of (attach c e) = Some c) as Hac by (unfold cookie_of, attach; simpl; by rewrite Hbd).
  assert (t_cookies t !! c = None) as Hfresh.
  { destruct (t_cookies t !! c) as [k|] eqn:Hk; [|done].
    destruct (wf_cookie _ _ Hk) as [Hlt _]. unfold c in Hlt. lia. }
  constructor; simpl; auto.
  - intros obj b Hb. destruct (wf_list _ _ Hb) as (? & eb & Heb & Hob). split; [done|].
    destruct (decide (b = a)) as [->|Hne].
    + eexists. rewrite lookup_insert_eq. split; [done|]. simpl. congruence.
    + exists eb. by rewrite !lookup_insert_ne.
  - intros b Hb. rewrite lookup_insert_is_Some. destruct (decide (a = b)); auto.
  - intros b eb. destruct (decide (b = a)) as [->|Hne].
    + rewrite lookup_insert_eq. intros [= <-]. destruct (wf_entry _ _ Ha).
      constructor; auto.
      * simpl. unfold c. lia.
      * rewrite Hac, (bool_decide_eq_true_2 (is_Some (Some c))) by eauto.
        match goal with |- _ = Z.b2z (bool_decide ?P) + _ + _ =>
          assert (bool_decide P = bool_decide (linked L t a e)) as -> by by apply bool_decide_ext end.
        simpl. rewrite ew_refs, Hce, (bool_decide_eq_false_2 (is_Some None)) by (by intros [? ?]).
        simpl. lia.
      * rewrite not_elem_of_cons. naive_solver.
      * rewrite Hac. intros c' [= <-]. eexists. simpl. by rewrite lookup_insert_eq.
      * rewrite not_elem_of_cons. naive_solver.
    + rewrite !lookup_insert_ne by done. intros Heb. destruct (wf_entry _ _ Heb).
      assert (b ∉ a :: X -> b ∉ X) by (rewrite not_elem_of_cons; naive_solver).
      constructor; simpl; auto; [lia|]. intros c' Hc'. destruct (ew_cookie _ Hc') as (k' & Hk' & ? & ?).
      exists k'. rewrite lookup_insert_ne; [done|]. congruence.
  - intros c' k' [[<- <-]|[Hne Hk']]%lookup_insert_Some.
    + split; [lia|]. assert (t_heap t !! c = None) as Hnc by by eapply wf_fresh_heap.
      simpl. rewrite (lookup_insert_ne _ a c) by congruence. rewrite lookup_insert_eq.
      split; [done|]. split; [|exists (attach c e); by rewrite lookup_insert_eq].
      split; [|done]. intros _ [->|Hx]%elem_of_cons; [congruence|].
      specialize (wf_exempted _ Hx). unfold c in wf_exempted. lia.
    + destruct (wf_cookie _ _ Hk') as (? & Hnh & Hht' & ec & Hec & Hcc). split; [lia|].
      rewrite (lookup_insert_ne _ a c') by congruence. split; [done|].
      split.
      { rewrite not_elem_of_cons, <- Hht', lookup_insert_Some.
        assert (key = sce_cookie k' -> t_ht t !! sce_cookie k' = Some c' -> False) by congruence.
        assert (c' <> a) by congruence. naive_solver. }
      exists ec. rewrite lookup_insert_ne; [done|]. intros Heq. congruence.
  - intros key' c' [[<- <-]|[Hne Hk']]%lookup_insert_Some.
    + eexists. by rewrite lookup_insert_eq.
    + destruct (wf_ht _ _ Hk') as (k' & Hk'' & ?). exists k'. rewrite lookup_insert_ne; [done|]. congruence.
  - intros b Hb. destruct (wf_blocked _ Hb) as (eb & Heb & Hbdb).
    destruct (decide (b = a)) as [->|Hne].
    + eexists. rewrite lookup_insert_eq. split; [done|]. simpl. rewrite Hbd. eauto.
    + exists eb. by rewrite !lookup_insert_ne.
  - intros b Hb. rewrite lookup_insert_is_Some. destruct (decide (a = b)); auto.
  - intros b [->|Hb]%elem_of_cons.
    + pose proof (ew_fresh _ _ _ _ _ (wf_entry _ _ Ha)). unfold c. lia.
    + specialize (wf_exempted _ Hb). unfold c. lia.
Qed.

(** The two outcomes of asking for a grant: nothing but addresses, counters and
    [lock_sle_type] changed; or a cookie is attached. *)
Definition not_granted (a : positive) (e : state_lock_entry_t) (t t' : table) : Prop :=
  exists e' n, (e' = e \/ e' = posix_entry e) /\ (t_next t <= n)%positive /\
    t' = t_set_next n (t_put a e' t).

Definition grant_sent (a : positive) (e : state_lock_entry_t) (t t' : table) : Prop :=
  exists e' key, (e' = e \/ e' = posix_entry e) /\ t_ht t !! key = None /\
    t' = t_put a (attach (t_next t) e')
       (t_set_ht (<[key := t_next t]> (t_ht t))
          (t_set_cookies (<[t_next t := {| sce_obj := sle_obj e; sce_lock_entry := a; sce_cookie := key |}]>
                            (t_cookies t)) (t_set_next (Pos.succ (t_next t)) t))).

Lemma t_put_same a e t : t_heap t !! a = Some e -> t_put a e t = t.
Proof. intros Ha. unfold t_put. rewrite insert_id by done. by destruct t. Qed.

(** [do_lock_op_entry] or nothing, as the grant type says. *)
Lemma wp_grant_op ctx obj a e g (Q : state_status_t -> lock_world F -> Prop) w o :
  t_heap (core w) !! a = Some e -> sle_owner e = Some o -> owner_ok o ->
  (forall st e' w', (e' = e \/ e' = posix_entry e) -> core w' = t_put a e' (core w) -> Q st w') ->
  wp (match g with
      | STATE_GRANT_NONE => mret STATE_INCONSISTENT_ENTRY
      | STATE_GRANT_POLL | STATE_GRANT_FSAL_AVAILABLE => do_lock_op_entry ctx obj FSAL_OP_LOCKB a
      | STATE_GRANT_INTERNAL => do_lock_op_entry ctx obj FSAL_OP_LOCK a
      | STATE_GRANT_FSAL => mret STATE_SUCCESS
      end) Q w.
Proof.
  intros Ha Ho Hok HQ.
  assert (forall st, Q st w) as Hret by (intros st; apply (HQ st e); [by left|by rewrite t_put_same]).
  assert (forall op, wp (do_lock_op_entry ctx obj op a) Q w) as Hop; [|destruct g; auto using wp_ret].
  intros op. unfold do_lock_op_entry. apply wp_bind. eapply wp_upd_entry; [done|]. intros w1 Hw1.
  apply wp_bind. eapply wp_get_entry; [rewrite Hw1; simpl; by rewrite lookup_insert_eq|].
  apply wp_bind. simpl. rewrite Ho. apply wp_do_lock_op; [done|]. intros st cf w2 Hw2 Hst.
  apply wp_ret. apply (HQ st (posix_entry e)); [by right|]. rewrite Hw2. exact Hw1.
Qed.

Lemma wp_state_add_grant_cookie X L ctx a e key
    (Q : state_status_t * option positive -> lock_world F -> Prop) w :
  wf X L (core w) -> view L (core w) a e -> is_Some (sle_block_data e) -> cookie_of e = None ->
  key <> [] ->
  (forall st w', st <> STATE_SUCCESS -> not_granted a e (core w) (core w') -> Q (st, None) w') ->
  (forall w' c, grant_sent a e (core w) (core w') -> Q (STATE_SUCCESS, Some c) w') ->
  wp (state_add_grant_cookie ctx (sle_obj e) key a) Q w.
Proof.
  intros Hwf Hv [bd Hbd] Hce Hkey HQn HQs. pose proof (wf_live _ _ _ _ _ Hwf Hv) as Ha.
  destruct (ew_owner _ _ _ _ _ (wf_entry _ _ _ Hwf _ _ Ha) (proj2 Hv)) as (o & Ho & Hok).
  unfold state_add_grant_cookie. apply wp_bind. eapply wp_get_entry; [done|]. rewrite Hbd.
  case_decide; [done|]. unfold alloc. apply wp_bind, wp_bind, wp_gets, wp_bind, wp_modify, wp_ret.
  apply wp_bind, wp_gets.
  set (t1 := t_set_next (Pos.succ (t_next (core w))) (core w)).
  case_bool_decide as Hht.
  { apply wp_ret, HQn; [done|]. exists e, (Pos.succ (t_next (core w))). split; [by left|].
    split; [lia|]. rewrite t_put_same by done. done. }
  assert (t_ht (core w) !! key = None) as Hnone by (by apply eq_None_not_Some).
  apply wp_bind, wp_modify, wp_bind, wp_modify, wp_bind.
  set (t2 := t_set_ht (<[key := t_next (core w)]> (t_ht (core w)))
          (t_set_cookies (<[t_next (core w) := {| sce_obj := sle_obj e; sce_lock_entry := a; sce_cookie := key |}]>
                            (t_cookies (core w))) t1)).
  eapply (wp_grant_op _ _ _ e _ _ _ o); [done..|]. intros st e' w' He' Hw'.
  change (core w' = t_put a e' t2) in Hw'.
  assert (t_cookies (core w) !! t_next (core w) = None) as Hfresh.
  { destruct (t_cookies (core w) !! t_next (core w)) as [k|] eqn:Hk; [|done].
    destruct (wf_cookie _ _ _ Hwf _ _ Hk) as [Hlt _]. lia. }
  case_decide as Hs.
  - apply wp_bind, wp_modify, wp_bind. unfold free_cookie. apply wp_bind. unfold get_cookie.
    apply wp_bind, wp_gets.
    assert (t_cookies (core w') !! t_next (core w)
      = Some {| sce_obj := sle_obj e; sce_lock_entry := a; sce_cookie := key |}) as Hk
      by (rewrite Hw'; simpl; by rewrite lookup_insert_eq).
    simpl in Hk. simpl. rewrite Hk. apply wp_ret. simpl. apply wp_bind, wp_ret, wp_modify, wp_ret, HQn; [done|].
    exists e', (Pos.succ (t_next (core w))). split; [done|]. split; [lia|]. core_eq.
    unfold t2, t1, t_set_cookies, t_set_ht, t_set_next, t_put. simpl.
    rewrite !delete_insert_id by done. done.
  - assert (st = STATE_SUCCESS) as -> by (destruct (decide (st = STATE_SUCCESS)); tauto).
    assert (sle_block_data e' = Some bd) as Hbd' by (by destruct He' as [->| ->]).
    apply wp_bind. eapply wp_upd_entry; [rewrite Hw'; simpl; by rewrite lookup_insert_eq|].
    intros w2 Hw2. apply wp_bind. unfold upd_block_data. apply wp_bind.
    eapply wp_get_entry; [rewrite Hw2; simpl; by rewrite lookup_insert_eq|]. simpl. rewrite Hbd'.
    apply wp_bind, wp_ret, wp_put_entry. intros w3 Hw3. apply wp_bind, silent_bk_ref. intros [] w4 Hw4.
    apply wp_ret, HQs. exists e', key. split; [done|]. split; [done|]. core_eq.
    rewrite !t_put_put. f_equal. unfold attach. by rewrite Hbd'.
Qed.

End cookies.

(** ** Granting *)
Section granting.
Context `{OwnerMem} {F : Type} `{!Env F}.
Implicit Types w : lock_world F.

(** The thread pool accepts every job. *)
Context (Hsubmit : forall s : F, fst (fridgethr_submit s) = 0).

Lemma wp_nlm_granted_callback X L ctx a e (Q : state_status_t -> lock_world F -> Prop) w :
  wf X L (core w) -> view L (core w) a e -> is_Some (sle_block_data e) -> cookie_of e = None ->
  nlm_owner (sle_owner e) ->
  (forall st w', st <> STATE_SUCCESS -> not_granted a e (core w) (core w') -> Q st w') ->
  (forall w', grant_sent a e (core w) (core w') -> Q STATE_SUCCESS w') ->
  wp (nlm_granted_callback ctx (sle_obj e) a) Q w.
Proof using Hsubmit.
  intros Hwf Hv Hbd Hce (o & cl & v & Ho & Hty & Hcl) HQn HQs.
  unfold nlm_granted_callback. apply wp_bind. eapply wp_get_entry; [exact (proj1 Hv)|].
  rewrite Ho. apply wp_bind, wp_ret, wp_bind. rewrite Hcl. apply wp_ret, wp_bind.
  unfold next_granted_cookie. apply wp_bind, wp_gets, wp_bind, wp_modify, wp_ret, wp_bind.
  set (w1 := set_gc_cookie _ w). assert (core w1 = core w) as Hw1 by done.
  apply (wp_state_add_grant_cookie X L); try done.
  - intros st w' Hst Hn. rewrite decide_True by done. by apply wp_ret, HQn.
  - intros w' c Hs. rewrite decide_False by tauto.
    apply wp_bind, silent_bk_ref. intros [] w2 Hw2. apply wp_bind.
    unfold state_async_schedule, wp. destruct (fridgethr_submit (w_fsal w2)) as [rc s] eqn:Hrc.
    pose proof (Hsubmit (w_fsal w2)) as Hz. rewrite Hrc in Hz. simpl in Hz. subst rc.
    rewrite decide_False by tauto. apply HQs. core_eq. exact Hs.
Qed.

Lemma wf_same_exempt X X' L t : (forall b, b ∈ X <-> b ∈ X') -> wf X L t -> wf X' L t.
Proof.
  intros HX []. constructor; auto.
  - intros a e Ha. destruct (wf_entry _ _ Ha). constructor; auto; rewrite <- HX; auto.
  - intros c k. rewrite <- HX. auto.
  - intros b. rewrite <- HX. auto.
Qed.

Lemma wf_remove_exempt X L t a e :
  wf (a :: X) L t -> view L t a e -> wf X (remove_id a L) (t_remove a e t).
Proof.
  intros Hwf Hv. pose proof (wf_linked_ref _ _ _ _ _ Hwf Hv). destruct Hv as [Ha Hl].
  destruct (unlinked_entry_fields e) as (Hob & Hrc & _ & _).
  unfold t_remove. apply wf_dec.
  - rewrite Hrc. eapply wf_same_exempt; [|by apply wf_unlinked].
    intros b. rewrite !elem_of_cons. naive_solver.
  - by rewrite Hrc.
  - intros Hl' _. exfalso. unfold linked in Hl'. rewrite Hob in Hl'.
    by apply (not_linked_removed _ _ _ _ _ Hwf Ha).
Qed.

Lemma wf_unblock X L t a : wf X L t -> wf X L (t_set_blocked (remove_id a (t_blocked t)) t).
Proof.
  intros []. constructor; auto.
  - intros b e Hb. destruct (wf_entry _ _ Hb). constructor; auto.
  - simpl. intros b [Hb _]%elem_of_remove_id. auto.
Qed.

(** The effect of trying to grant the blocked lock [e] at [a]. *)
Definition grant_outcome (L : list positive) (a : positive) (e : state_lock_entry_t)
    (t t' : table) : Prop :=
  (forall b eb, b <> a -> view L t' b eb <-> view L t b eb) /\
  (forall e', view L t' a e' -> same_lock e e' /\
     (sle_blocked e' = STATE_NLM_BLOCKING \/ sle_blocked e' = STATE_GRANTING)) /\
  (forall obj, t_list obj t' = t_list obj t \/ t_list obj t' = remove_id a (t_list obj t)) /\
  t_sched t' = t_sched t.

Lemma grant_outcome_put L a e t t' e' :
  t_heap t !! a = Some e -> same_lock e e' ->
  sle_blocked e' = STATE_NLM_BLOCKING \/ sle_blocked e' = STATE_GRANTING ->
  t_heap t' = <[a := e']> (t_heap t) -> t_files t' = t_files t ->
  t_sched t' = t_sched t -> grant_outcome L a e t t'.
Proof.
  intros Ha Hs Hb Hh Hf Hsc. unfold grant_outcome, view, linked, t_list. rewrite Hh, Hf.
  split; [|split; [|split; [|done]]].
  - intros b eb Hne. by rewrite lookup_insert_ne.
  - intros e'' [He _]. rewrite lookup_insert_eq in He. by simplify_eq.
  - by left.
Qed.

Lemma grant_outcome_remove X L a e t t1 e1 :
  wf X L t1 -> view L t1 a e1 -> a ∉ L ->
  (forall b eb, b <> a -> view L t1 b eb <-> view L t b eb) -> t_files t1 = t_files t ->
  t_sched t1 = t_sched t -> grant_outcome L a e t (t_remove a e1 t1).
Proof.
  intros Hwf Hv HaL Hsame Hf Hsc. pose proof (fun b eb => view_remove _ _ _ _ _ b eb Hwf Hv) as Hvr.
  rewrite remove_id_not_in in Hvr by done. split; [|split; [|split]].
  - intros b eb Hne. rewrite Hvr, <- Hsame by done. tauto.
  - intros e' [_ Hne]%Hvr. done.
  - intros obj. right. rewrite (wf_remove_list X L) by (eauto using wf_live). unfold t_list. by rewrite Hf.
  - by destruct (t_remove_rest a e1 t1) as (_ & _ & -> & _).
Qed.

Lemma wp_try_to_grant_lock X L ctx a e (Q : unit -> lock_world F -> Prop) w :
  wf X L (core w) -> view L (core w) a e -> sle_blocked e = STATE_NLM_BLOCKING ->
  a ∉ X -> a ∉ L ->
  (forall w', wf X L (core w') -> grant_outcome L a e (core w) (core w') -> Q tt w') ->
  wp (try_to_grant_lock ctx a) Q w.
Proof using Hsubmit.
  intros Hwf Hv Hb HaX HaL HQ. pose proof (wf_live _ _ _ _ _ Hwf Hv) as Ha.
  pose proof (ew_status _ _ _ _ _ (wf_entry _ _ _ Hwf _ _ Ha) (proj2 Hv) HaX) as Hst.
  unfold status_ok in Hst. rewrite Hb in Hst. destruct Hst as ([bd Hbd] & Hce & Hnlm).
  pose proof (view_lock _ _ _ _ _ Hwf Hv) as Hlok.
  unfold try_to_grant_lock. apply wp_bind. eapply wp_get_entry; [done|]. rewrite Hb, Hbd.
  destruct (export_ready (sle_export e)); simpl.
  2:{ eapply wp_remove_from_locklist; [done..|]. intros w' Hwf' Hw'.
      rewrite remove_id_not_in in Hwf' by done. apply HQ; [done|]. rewrite Hw'.
      by eapply grant_outcome_remove. }
  (* the entry once marked as being granted *)
  set (g := if bool_decide (sbd_grant_type bd = STATE_GRANT_NONE) then STATE_GRANT_INTERNAL
            else sbd_grant_type bd).
  set (e2 := set_block_data (Some (set_grant_type g bd)) (set_blocked STATE_GRANTING e)).
  apply wp_bind. eapply wp_upd_entry; [done|]. intros w1 Hw1. apply wp_bind.
  assert (wp (mwhen (bool_decide (sbd_grant_type bd = STATE_GRANT_NONE))
    (upd_block_data a (set_grant_type STATE_GRANT_INTERNAL)))
    (fun _ w2 => core w2 = t_put a e2 (core w)) w1) as Hm.
  { assert (t_heap (core w1) !! a = Some (set_blocked STATE_GRANTING e)) as Ha1
      by (rewrite Hw1; simpl; by rewrite lookup_insert_eq).
    unfold e2, g. case_bool_decide; simpl.
    - unfold upd_block_data. apply wp_bind. eapply wp_get_entry; [done|]. simpl. rewrite Hbd.
      apply wp_bind, wp_ret, wp_put_entry. intros w2 Hw2. by rewrite Hw2, Hw1, t_put_put.
    - apply wp_ret. rewrite Hw1. f_equal. destruct e, bd. simpl in *. by subst. }
  eapply wp_mono; [exact Hm|]. clear Hm. intros [] w2 Hw2. apply wp_bind.
  assert (cookie_of e2 = None) as Hce2.
  { unfold cookie_of in Hce |- *. unfold e2. simpl. rewrite Hbd in Hce. done. }
  assert (wf (a :: X) L (core w2)) as Hwf2.
  { rewrite Hw2. apply (wf_put X (a :: X) L (core w) a e); auto.
    - rewrite Hce, Hce2. done.
    - intros _. rewrite not_elem_of_cons. naive_solver.
    - destruct Hv. tauto.
    - intros b ?. rewrite elem_of_cons. tauto. }
  assert (view L (core w2) a e2) as Hv2.
  { rewrite Hw2. apply (view_put _ _ _ e); [done|done|]. left. split; [done|]. split; [done|].
    exact (proj2 Hv). }
  assert (forall b eb, b <> a -> view L (core w2) b eb <-> view L (core w) b eb) as Hsame2.
  { intros b eb Hne. rewrite Hw2, (view_put _ _ _ e) by done. naive_solver. }
  eapply (wp_nlm_granted_callback (a :: X) L _ _ e2); [done|done|eauto|done|done| |].
  - intros st w3 Hns (e3 & n & He3 & Hn & Hw3).
    assert (t_put a e3 (core w2) = t_put a e3 (core w)) as Hpp by by rewrite Hw2, t_put_put.
    assert (same_lock e e3 /\ sle_block_data e3 = Some (set_grant_type g bd) /\
            sle_owner e3 = sle_owner e) as (Hsl3 & Hbd3 & Hown3)
      by (destruct He3 as [->| ->]; by unfold same_lock).
    assert (wf (a :: X) L (core w3)) as Hwf3.
    { rewrite Hw3. apply wf_skip_next; [|done]. destruct He3 as [->| ->].
      - by rewrite t_put_same by (by destruct Hv2).
      - apply wf_put_lock; [done|by destruct Hv2|done]. }
    assert (view L (core w3) a e3) as Hv3.
    { rewrite Hw3. split; [simpl; by rewrite lookup_insert_eq|].
      destruct Hv as [_ Hl]. unfold linked in *. rewrite (proj1 Hsl3).
      change (t_list ?o (t_set_next _ (t_put _ _ ?t))) with (t_list o t). by rewrite Hw2. }
    assert (t_files (core w3) = t_files (core w)) as Hf3 by by rewrite Hw3, Hw2.
    case_decide as Hblk.
    + apply wp_bind. eapply wp_upd_entry; [exact (proj1 Hv3)|]. intros w4 Hw4.
      unfold upd_block_data. apply wp_bind.
      eapply wp_get_entry; [rewrite Hw4; simpl; by rewrite lookup_insert_eq|]. simpl. rewrite Hbd3.
      apply wp_bind, wp_ret, wp_put_entry. intros w5 Hw5. rewrite Hw4, t_put_put in Hw5.
      set (e5 := set_block_data _ _) in Hw5.
      assert (cookie_of e5 = None) as Hce5.
      { unfold cookie_of in Hce |- *. rewrite Hbd in Hce. done. }
      assert (cookie_of e3 = None) as Hce3.
      { unfold cookie_of in Hce |- *. rewrite Hbd in Hce. rewrite Hbd3. done. }
      apply HQ.
      * assert (wf (a :: X) L (core w5)) as Hwf5.
        { rewrite Hw5. apply (wf_put (a :: X) (a :: X) L (core w3) a e3); auto.
          - exact (proj1 Hv3).
          - by rewrite Hce5, Hce3.
          - apply (same_lock_ok e3); [|by eapply view_lock]. by unfold same_lock.
          - intros _ Hx. exfalso. apply Hx. left.
          - intros Hnl. destruct Hv3. tauto. }
        eapply wf_settle; [exact Hwf5|rewrite Hw5; simpl; by rewrite lookup_insert_eq| |].
        -- simpl. apply (wf_linked_ref _ _ _ _ _ Hwf3 Hv3).
        -- intros _ _. unfold status_ok. simpl. rewrite Hce5, Hown3. eauto.
      * apply (grant_outcome_put _ _ _ _ _ e5); auto.
        -- rewrite Hw5, Hw3, Hw2. simpl. by rewrite !insert_insert_eq.
        -- by rewrite Hw5.
        -- by rewrite Hw5, Hw3, Hw2.
    + apply wp_bind, wp_modify. set (w4 := upd_blocked _ w3).
      assert (core w4 = t_set_blocked (remove_id a (t_blocked (core w3))) (core w3)) as Hw4 by done.
      assert (wf (a :: X) L (core w4)) as Hwf4 by (rewrite Hw4; by apply wf_unblock).
      rewrite decide_False by done. eapply (wp_remove_core (a :: X) L _ e3); [done|done|].
      intros w5 Hw5. apply HQ.
      * rewrite Hw5. rewrite <- (remove_id_not_in a L) by done. by apply wf_remove_exempt.
      * rewrite Hw5. eapply grant_outcome_remove; [exact Hwf4|done|done| |by rewrite <- Hf3|by rewrite Hw4, Hw3, Hw2].
        intros b eb Hne. rewrite <- Hsame2 by done. rewrite Hw4, Hw3.
        change (view L (t_put a e3 (core w2)) b eb <-> view L (core w2) b eb).
        rewrite (view_put _ _ _ e2); [naive_solver|by destruct Hv2|]. by destruct He3 as [->| ->].
  - intros w3 (e3 & key & He3 & Hkey & Hw3).
    assert (sle_obj e3 = sle_obj e2) as Ho3 by by destruct He3 as [->| ->].
    rewrite decide_False by done. apply wp_bind, wp_modify. rewrite decide_True by done. apply wp_ret.
    set (w4 := upd_blocked _ w3).
    assert (core w4 = t_set_blocked (remove_id a (t_blocked (core w3))) (core w3)) as Hw4 by done.
    assert (t_put a (attach (t_next (core w2)) e3) (core w2) =
            t_put a (attach (t_next (core w2)) e3) (t_put a e3 (core w2))) as Hpp by by rewrite t_put_put.
    assert (wf (a :: X) L (core w3)) as Hwf3.
    { eapply (wf_same_exempt (a :: a :: X)); [intros b; rewrite !elem_of_cons; tauto|].
      assert (wf (a :: X) L (t_put a e3 (core w2))) as Hwf3'.
      { destruct He3 as [->| ->]; [by rewrite t_put_same by (by destruct Hv2)|].
        apply wf_put_lock; [done|by destruct Hv2|done]. }
      pose proof (wf_attach (a :: X) L _ a e3 key Hwf3') as Hat.
      rewrite Hw3. simpl in Hat. rewrite <- Ho3.
      replace (t_put a (attach (t_next (core w2)) e3) _) with
        (t_put a (attach (t_next (core w2)) e3)
          (t_set_ht (<[key:=t_next (core w2)]> (t_ht (core w2)))
           (t_set_cookies (<[t_next (core w2):={| sce_obj := sle_obj e3; sce_lock_entry := a; sce_cookie := key |}]>
             (t_cookies (core w2))) (t_set_next (Pos.succ (t_next (core w2))) (t_put a e3 (core w2)))))).
      2:{ unfold t_put, t_set_ht, t_set_cookies, t_set_next. simpl. by rewrite insert_insert_eq. }
      apply Hat; [by rewrite lookup_insert_eq| |destruct He3 as [->| ->]; done|done].
      destruct He3 as [->| ->]; simpl; eauto. }
    apply HQ.
    + rewrite Hw4. apply wf_unblock. eapply wf_settle; [exact Hwf3| | |].
      * rewrite Hw3. simpl. by rewrite lookup_insert_eq.
      * simpl. pose proof (wf_linked_ref _ _ _ _ _ Hwf2 Hv2) as Hr. destruct He3 as [->| ->]; simpl in *; lia.
      * intros _ _. unfold status_ok. destruct He3 as [->| ->]; simpl; unfold cookie_of; simpl; eauto.
    + apply (grant_outcome_put _ _ _ _ _ (attach (t_next (core w2)) e3)); auto.
      * destruct He3 as [->| ->]; by unfold same_lock.
      * right. by destruct He3 as [->| ->].
      * rewrite Hw4, Hw3, Hw2. simpl. by rewrite insert_insert_eq.
      * by rewrite Hw4, Hw3, Hw2.
      * by rewrite Hw4, Hw3, Hw2.
Qed.

(** What granting blocked locks may do: locks that are not blocked stay, blocked
    ones keep their range and owner or disappear, and no conflict arises. *)
Record grant_rel (t t' : table) : Prop := {
  gr_keep : forall b e, view [] t b e -> sle_blocked e <> STATE_NLM_BLOCKING -> view [] t' b e;
  gr_from : forall b e', view [] t' b e' -> exists e, view [] t b e /\
    (e' = e \/ sle_blocked e = STATE_NLM_BLOCKING /\ same_lock e e' /\
       (sle_blocked e' = STATE_NLM_BLOCKING \/ sle_blocked e' = STATE_GRANTING));
  gr_cf : conflict_free [] t -> conflict_free [] t'
}.

Lemma grant_rel_refl t : grant_rel t t.
Proof. constructor; auto. intros b e Hv. exists e. auto. Qed.

Lemma grant_rel_trans t t' t'' : grant_rel t t' -> grant_rel t' t'' -> grant_rel t t''.
Proof.
  intros [K F1 C] [K' F' C']. constructor; auto. intros b e'' Hv.
  destruct (F' b e'' Hv) as (e' & Hv' & He''). destruct (F1 b e' Hv') as (e & Hve & He').
  exists e. split; [done|]. destruct He'' as [->|(Hb & Hs & Hb')]; [done|].
  destruct He' as [->|(Hb0 & Hs0 & _)]; [by right|]. right. eauto using same_lock_trans.
Qed.

Lemma compatible_sym e e' : compatible e e' -> compatible e' e.
Proof.
  intros Hc Ho Ha Ha' Hs x Hx Hx'. rewrite types_conflict_sym. refine (Hc (eq_sym Ho) Ha' Ha _ x Hx' Hx).
  intros Hs'. apply Hs. by apply same_owner_sym.
Qed.

(** Granting the lock at [a] when nothing conflicts with it. *)
Lemma granted_conflict_free X a e t t' :
  wf X [] t -> view [] t a e ->
  (forall c ec, c ∈ t_list (sle_obj e) t -> t_heap t !! c = Some ec ->
     ~ conflicts_with (sle_owner e) (sle_lock e) ec) ->
  (forall b eb, b <> a -> view [] t' b eb <-> view [] t b eb) ->
  (forall e', view [] t' a e' -> same_lock e e') -> conflict_free [] t -> conflict_free [] t'.
Proof.
  intros Hwf Hv Hno Hsame Ha Hcf b eb c ec Hvb Hvc.
  assert (forall ea d ed, view [] t' a ea -> d <> a -> view [] t' d ed -> compatible ea ed) as Hpair.
  { intros ea d ed Hva Hne Hvd. pose proof (Ha ea Hva) as Hsl.
    intros Hobj Hact Hact' Hso x Hx Hx'. apply Hsame in Hvd; [|done].
    destruct (types_conflict _ _) eqn:Htc; [|done]. exfalso.
    pose proof Hsl as (Hso1 & Hso2 & Hty & _ & _).
    destruct Hvd as [Hd [Hdl|Hdl]]; [|by apply elem_of_nil in Hdl].
    apply (Hno d ed); [by rewrite <- Hobj, Hso1 in Hdl|done|]. split; [done|]. split.
    - exists x. split; [done|]. by apply (same_lock_covers e ea).
    - split; [by rewrite types_conflict_sym, <- Hty|]. rewrite Hso2 in Hso.
      intros Hs. apply Hso. by apply same_owner_sym. }
  destruct (decide (b = a)) as [->|Hb']; destruct (decide (c = a)) as [->|Hc'].
  - assert (eb = ec) as -> by (destruct Hvb, Hvc; congruence). intros _ _ _ Hso.
    exfalso. apply Hso. destruct (Ha ec Hvb) as (_ & -> & _). by eapply view_owner.
  - eauto.
  - apply compatible_sym. eauto.
  - apply Hsame in Hvb, Hvc; eauto.
Qed.

Lemma grant_outcome_rel X obj a e t t' :
  wf X [] t -> view [] t a e -> sle_obj e = obj -> sle_blocked e = STATE_NLM_BLOCKING ->
  (forall c ec, c ∈ t_list obj t -> t_heap t !! c = Some ec ->
     ~ conflicts_with (sle_owner e) (sle_lock e) ec) ->
  grant_outcome [] a e t t' -> grant_rel t t'.
Proof.
  intros Hwf Hv Ho Hb Hno (Hsame & Ha & _). constructor.
  - intros b eb Hvb Hnb. apply Hsame; [|done]. intros ->.
    assert (eb = e) as -> by (destruct Hv, Hvb; congruence). done.
  - intros b e' Hvb. destruct (decide (b = a)) as [->|Hne].
    + exists e. split; [done|]. right. destruct (Ha e' Hvb). auto.
    + exists e'. split; [by apply Hsame|by left].
  - subst obj. apply (granted_conflict_free X a e); auto. intros e' Hv'. by apply Ha.
Qed.

Lemma wp_grant_step X ctx obj a (w : lock_world F) :
  wf X [] (core w) -> a ∈ t_list obj (core w) ->
  (forall b e, b ∈ X -> view [] (core w) b e -> granted e) ->
  wp (grant_step ctx obj a) (fun _ w' => wf X [] (core w') /\ grant_rel (core w) (core w') /\
    (t_list obj (core w') = t_list obj (core w) \/
     t_list obj (core w') = remove_id a (t_list obj (core w)))) w.
Proof using Hsubmit.
  intros Hwf Hin HX. destruct (wf_on_list _ _ _ _ _ Hwf Hin) as (e & Hv & Ho).
  unfold grant_step. apply wp_bind. eapply wp_get_entry; [exact (proj1 Hv)|].
  assert (wf X [] (core w) /\ grant_rel (core w) (core w) /\
    (t_list obj (core w) = t_list obj (core w) \/
     t_list obj (core w) = remove_id a (t_list obj (core w)))) as Hsame
    by (split; [done|]; split; [apply grant_rel_refl|by left]).
  assert (sle_blocked e <> STATE_NON_BLOCKING -> a ∉ X) as HaX.
  { intros Hb Hx. by apply Hb, (HX a e). }
  assert (sle_blocked e <> STATE_NON_BLOCKING -> status_ok e) as Hst.
  { intros Hb. destruct Hv as [Ha Hl]. apply (ew_status _ _ _ _ _ (wf_entry _ _ _ Hwf _ _ Ha)); auto. }
  destruct (sle_blocked e) eqn:Hb; try (by apply wp_ret).
  - apply wp_bind. eapply (wp_get_overlapping_entry X []); [done|by eapply view_lock|by intros; apply wp_ret|].
    intros Hno. eapply (wp_try_to_grant_lock X []); eauto using not_elem_of_nil.
    intros w' Hwf' Hout. split; [done|]. split; [|apply Hout]. by eapply grant_outcome_rel.
  - exfalso. assert (status_ok e) as Hs by (by apply Hst). unfold status_ok in Hs. by rewrite Hb in Hs.
Qed.

Lemma wp_grant_blocked_locks X ctx obj (w : lock_world F) :
  wf X [] (core w) -> (forall b e, b ∈ X -> view [] (core w) b e -> granted e) ->
  wp (grant_blocked_locks ctx obj) (fun _ w' => wf X [] (core w') /\ grant_rel (core w) (core w')) w.
Proof using Hsubmit.
  intros Hwf HX. unfold grant_blocked_locks.
  destruct fso_lock_support_async_block; [apply wp_ret; auto using grant_rel_refl|].
  apply (glist_for_each_safe_wp_fixed _ _ (fun todo (_ : unit) w' => wf X [] (core w') /\
    grant_rel (core w) (core w') /\ exists done_, t_list obj (core w') = done_ ++ todo)).
  - split; [done|]. split; [apply grant_rel_refl|by exists []].
  - intros _ w' (? & ? & _). done.
  - intros a todo [] w' (Hwf' & Hrel & done_ & Hl).
    pose proof (wf_nodup _ _ _ Hwf' obj) as Hnd. rewrite Hl in Hnd. split.
    { rewrite core_list, Hl. apply next_of_split. apply NoDup_app in Hnd as (_ & Hd & _).
      intros Hin. apply (Hd _ Hin). left. }
    apply wp_plain. eapply wp_mono; [apply (wp_grant_step X)|]; auto.
    + rewrite Hl. set_solver.
    + intros b e' Hb Hv'. destruct (gr_from _ _ Hrel b e' Hv') as (e & Hv & [->|(Hbl & _)]);
        pose proof (HX b e Hb Hv) as Hg; [done|]. unfold granted in Hg. congruence.
    + intros _ w'' (Hwf'' & Hrel' & Hl'). simpl. split; [done|].
      split; [by eapply grant_rel_trans|]. destruct Hl' as [-> | ->]; rewrite Hl.
      * exists (done_ ++ [a]). by rewrite <- app_assoc.
      * exists done_. by rewrite remove_id_split.
Qed.

End granting.
