(* ===== verification/LockOps.v ===== *)
(** * The operations of the lock manager

    Specifications of cancellation, completion of grants and the entry points
    of [LockManager]: they are defined on every well-formed table, preserve
    well-formedness, and change the locks held as stated. *)
From S2P Require Import Prelude Status Owners LockTable LockManager LockInv LockPrims LockAlgo LockGrant.
Local Open Scope Z_scope.

(** ** Taking and freeing cookies *)
Section taking.
Context `{OwnerMem} {F : Type} `{!Env F}.
Implicit Types w : lock_world F.

(** A taken cookie that no longer exists. *)
Lemma wf_forget X L t c :
  wf (c :: X) L t -> t_heap t !! c = None -> t_cookies t !! c = None -> wf X L t.
Proof.
  intros [] Hh Hc. constructor; auto.
  - intros a e Ha. destruct (wf_entry _ _ Ha).
    assert (a ∉ X -> a ∉ c :: X) by (rewrite not_elem_of_cons; split; [congruence|done]).
    constructor; auto.
  - intros c' k Hk. destruct (wf_cookie _ _ Hk) as (? & ? & Hht & ?).
    split; [done|]. split; [done|]. split; [|done].
    assert (c' <> c) by congruence. split.
    + intros [_ ?]%Hht%not_elem_of_cons. done.
    + intros ?. apply Hht. by rewrite not_elem_of_cons.
  - intros b Hb. apply wf_exempted. by right.
Qed.

Lemma wp_state_find_grant X L key (Q : option positive -> lock_world F -> Prop) w :
  wf X L (core w) ->
  (t_ht (core w) !! key = None -> Q None w) ->
  (forall c k w', t_ht (core w) !! key = Some c -> t_cookies (core w) !! c = Some k ->
     sce_cookie k = key -> core w' = t_set_ht (delete key (t_ht (core w))) (core w) ->
     wf (c :: X) L (core w') -> (forall key', t_ht (core w') !! key' <> Some c) -> Q (Some c) w') ->
  wp (state_find_grant key) Q w.
Proof.
  intros Hwf HQn HQs. unfold state_find_grant. apply wp_bind, wp_gets.
  change (w_ht w !! key) with (t_ht (core w) !! key).
  destruct (t_ht (core w) !! key) as [c|] eqn:Hkey; [|by apply wp_ret, HQn].
  apply wp_bind, wp_modify, wp_ret. destruct (wf_ht _ _ _ Hwf _ _ Hkey) as (k & Hk & Hck).
  eapply HQs; [done..| |].
  - core_eq. destruct Hwf. constructor; cbn [t_heap t_files t_blocked t_cookies t_ht t_sched t_next t_set_ht]; auto.
    + intros a e Ha. destruct (wf_entry _ _ Ha).
      assert (a ∉ c :: X -> a ∉ X) by (rewrite not_elem_of_cons; tauto). constructor; auto.
    + intros c' k' Hk'. destruct (wf_cookie _ _ Hk') as (? & ? & Hht & ?).
      split; [done|]. split; [done|]. split; [|done].
      rewrite lookup_delete_Some. destruct (decide (c' = c)) as [->|Hne].
      * assert (k' = k) as -> by congruence. split; [by intros [? _]|].
        intros Hn. exfalso. apply Hn. left.
      * split.
        -- intros [_ Hk2%Hht]. rewrite not_elem_of_cons. done.
        -- intros [_ Hx%Hht]%not_elem_of_cons. split; [congruence|done].
    + intros key' c' [_ Hk']%lookup_delete_Some. auto.
    + intros b [->|Hb]%elem_of_cons; [|auto]. by destruct (wf_cookie _ _ Hk).
  - intros key' Hk'. autorewrite with core in Hk'. simpl in Hk'.
    apply lookup_delete_Some in Hk' as [Hne Hk'].
    destruct (wf_ht _ _ _ Hwf _ _ Hk') as (k' & ? & ?). congruence.
Qed.

Lemma wp_get_cookie c k (Q : state_cookie_entry_t -> lock_world F -> Prop) w :
  t_cookies (core w) !! c = Some k -> Q k w -> wp (get_cookie c) Q w.
Proof. intros Hc HQ. unfold get_cookie. apply wp_bind, wp_gets. simpl in Hc. by rewrite Hc. Qed.

(** [free_cookie] of a cookie just taken. *)
Lemma wp_free_taken X L c k e (Q : unit -> lock_world F -> Prop) w :
  wf (c :: X) L (core w) -> t_cookies (core w) !! c = Some k ->
  (forall key, t_ht (core w) !! key <> Some c) ->
  t_heap (core w) !! sce_lock_entry k = Some e ->
  (linked L (core w) (sce_lock_entry k) e -> sce_lock_entry k ∉ X -> status_ok (uncookie e)) ->
  (forall w', wf X L (core w') -> t_files (core w') = t_files (core w) ->
     (forall b, b <> sce_lock_entry k -> t_heap (core w') !! b = t_heap (core w) !! b) ->
     (linked L (core w) (sce_lock_entry k) e ->
        t_heap (core w') !! sce_lock_entry k = Some (set_refcount (sle_ref_count e - 1) (uncookie e))) ->
     Q tt w') ->
  wp (free_cookie c true) Q w.
Proof.
  intros Hwf Hc Hht Ha Hst HQ.
  destruct (wf_cookie _ _ _ Hwf _ _ Hc) as (_ & Hnh & _).
  eapply (wp_free_cookie (c :: X) L); eauto.
  - intros Hl Hx. apply Hst; [done|]. rewrite not_elem_of_cons in Hx. tauto.
  - intros w' Hwf' Hf _ _ Hck Hh Hl. apply HQ; auto.
    eapply wf_forget; [exact Hwf'| |].
    + rewrite Hh; [done|]. congruence.
    + rewrite Hck. by rewrite lookup_delete_eq.
Qed.

End taking.

(** ** Cancellation *)
Section cancelling.
Context `{OwnerMem} {F : Type} `{!Env F}.
Implicit Types w : lock_world F.

(** Exactly the entry [a] is gone. *)
Definition dropped (a : positive) (t t' : table) : Prop :=
  (forall b eb, view [] t' b eb <-> view [] t b eb /\ b <> a) /\
  (forall obj, t_list obj t' = remove_id a (t_list obj t)).

Lemma wp_cancel_blocked_lock ctx a e (Q : unit -> lock_world F -> Prop) w :
  wf [] [] (core w) -> view [] (core w) a e ->
  (forall w', wf [] [] (core w') -> dropped a (core w) (core w') -> Q tt w') ->
  wp (cancel_blocked_lock ctx (sle_obj e) a) Q w.
Proof.
  intros Hwf Hv HQ. pose proof (wf_live _ _ _ _ _ Hwf Hv) as Ha.
  pose proof (view_lock _ _ _ _ _ Hwf Hv) as Hlk.
  unfold cancel_blocked_lock. apply wp_bind. eapply wp_upd_entry; [done|]. intros w1 Hw1.
  set (e1 := set_blocked STATE_CANCELED e) in *.
  assert (wf [] [] (core w1)) as Hwf1.
  { rewrite Hw1. apply (wf_put [] [] [] (core w) a e); auto. intros _ _. done. }
  (* from a table with the same entries but for [a], canceled *)
  assert (forall w2 e2, wf [] [] (core w2) -> view [] (core w2) a e2 ->
    t_files (core w2) = t_files (core w) ->
    (forall b, b <> a -> t_heap (core w2) !! b = t_heap (core w) !! b) ->
    wp (remove_from_locklist a) Q w2) as Hend.
  { intros w2 e2 Hwf2 Hv2 Hf2 Hh2. eapply wp_remove_from_locklist; [done..|]. intros w3 Hwf3 Hw3.
    apply HQ; [done|]. rewrite Hw3. split.
    - intros b eb. change (@nil positive) with (remove_id a []) at 1.
      rewrite (view_remove _ _ _ _ _ _ _ Hwf2 Hv2). unfold view, linked, t_list. rewrite Hf2.
      split; (intros [[Hb Hl] Hne]; rewrite Hh2 in * || rewrite <- Hh2 in Hb by done; done).
    - intros o. rewrite (wf_remove_list [] []) by (eauto using wf_live). unfold t_list. by rewrite Hf2. }
  assert (view [] (core w1) a e1) as Hv1.
  { rewrite Hw1. apply (view_put _ _ _ e); [done|done|]. left. destruct Hv. done. }
  assert (forall b, b <> a -> t_heap (core w1) !! b = t_heap (core w) !! b) as Hh1
    by (intros b Hb; rewrite Hw1; simpl; by rewrite lookup_insert_ne).
  assert (t_files (core w1) = t_files (core w)) as Hf1 by by rewrite Hw1.
  apply wp_bind. eapply wp_get_entry; [exact (proj1 Hv1)|]. apply wp_bind.
  change (b ← sle_block_data e1; sbd_blocked_cookie b) with (cookie_of e1).
  destruct (cookie_of e1) as [c|] eqn:Hc.
  - destruct (ew_cookie _ _ _ _ _ (wf_entry _ _ _ Hwf1 _ _ (proj1 Hv1)) c Hc) as (k & Hk & Hka & _).
    destruct (wf_cookie _ _ _ Hwf1 _ _ Hk) as (_ & _ & Hht & _).
    pose proof (proj2 Hht (not_elem_of_nil c)).
    apply wp_bind. eapply wp_get_cookie; [done|]. apply wp_bind.
    eapply (wp_state_find_grant [] []); [done|congruence|].
    intros c' k' w2 Hht' Hk' _ Hw2 Hwf2 Hno. assert (c' = c) as -> by congruence.
    assert (k' = k) as -> by congruence.
    eapply (wp_free_taken [] [] c k e1); [done|by rewrite Hw2|done|rewrite Hw2, Hka; exact (proj1 Hv1)|done|].
    intros w3 Hwf3 Hf3 Hh3 Hl3. rewrite Hka in *.
    assert (linked [] (core w2) a e1) as Hl2 by (rewrite Hw2; exact (proj2 Hv1)).
    eapply (Hend w3); [done| | |].
    + split; [by apply Hl3|]. unfold linked, t_list in *. by rewrite Hf3.
    + by rewrite Hf3, Hw2.
    + intros b Hb. rewrite Hh3, Hw2 by done. by apply Hh1.
  - apply wp_bind. eapply (wp_do_lock_op_entry [] []); [done|done|]. intros st2 w2 Hw2 _ Hwf2.
    assert (view [] (core w2) a (posix_entry e1)) as Hv2.
    { rewrite Hw2. apply (view_put _ _ _ e1); [exact (proj1 Hv1)|done|]. left. destruct Hv1. done. }
    apply wp_bind. eapply (wp_do_lock_op_entry [] []); [done|done|]. intros st3 w3 Hw3 _ Hwf3.
    apply wp_ret. eapply (Hend w3); [done| | |].
    + rewrite Hw3. apply (view_put _ _ _ (posix_entry e1)); [exact (proj1 Hv2)|done|].
      left. destruct Hv2. done.
    + by rewrite Hw3, Hw2.
    + intros b Hb. rewrite Hw3, Hw2. simpl. rewrite !lookup_insert_ne by done. by apply Hh1.
Qed.

(** The entries an unlock request cancels. *)
Definition cancels (owner : option positive) (sa : bool) (st : Z) (lock : fsal_lock_param_t)
    (e : state_lock_entry_t) : Prop :=
  (owner = None \/ same_owner (sle_owner e) owner) /\
  (sa = true -> forall s, sle_state e = Some s -> state_seqid s <> st) /\
  ~ granted e /\ exists x, covers (sle_lock e) x /\ covers lock x.

Lemma wp_cancel_step ctx obj owner sa st lock a (w : lock_world F) :
  wf [] [] (core w) -> a ∈ t_list obj (core w) -> lock_ok lock ->
  (sa = true -> forall b e, view [] (core w) b e -> is_Some (sle_state e)) ->
  wp (cancel_step ctx obj owner sa st lock a) (fun _ w' => wf [] [] (core w') /\
    exists e, view [] (core w) a e /\
      (core w' = core w /\ ~ cancels owner sa st lock e \/
       dropped a (core w) (core w') /\ cancels owner sa st lock e)) w.
Proof.
  intros Hwf Hin Hlk Hst. destruct (wf_on_list _ _ _ _ _ Hwf Hin) as (e & Hv & Ho).
  pose proof (view_lock _ _ _ _ _ Hwf Hv) as Hle.
  unfold cancel_step. apply wp_bind. eapply wp_get_entry; [exact (proj1 Hv)|].
  assert (forall w', core w' = core w -> ~ cancels owner sa st lock e -> wf [] [] (core w') /\
    exists e, view [] (core w) a e /\
      (core w' = core w /\ ~ cancels owner sa st lock e \/
       dropped a (core w) (core w') /\ cancels owner sa st lock e)) as Hskip.
  { intros w' Hw' Hn. rewrite Hw'. split; [done|]. exists e. auto. }
  destruct (bool_decide (is_Some owner) && different_owners (sle_owner e) owner) eqn:Hown.
  { apply wp_ret, Hskip; [done|]. intros ([->|Hs] & _); [done|].
    apply andb_true_iff in Hown as [_ Hd]. by apply different_owners_true in Hd. }
  assert (owner = None \/ same_owner (sle_owner e) owner) as Hso.
  { apply andb_false_iff in Hown as [Hn|Hd]; [|by right]. left.
    apply bool_decide_eq_false in Hn. by apply eq_None_not_Some. }
  apply wp_bind.
  assert (wp (nsm_state_is e sa st) (fun skip w' => w' = w /\
    (skip = true <-> ~ (sa = true -> forall s, sle_state e = Some s -> state_seqid s <> st))) w) as Hns.
  { unfold nsm_state_is. destruct sa.
    - destruct (Hst eq_refl a e Hv) as [s Hs]. apply wp_bind. eapply wp_deref; [done|].
      apply wp_ret. split; [done|]. rewrite Hs, Z.eqb_eq. split.
      + intros Heq Hq. by apply (Hq eq_refl s).
      + intros Hq. destruct (decide (state_seqid s = st)); [done|]. exfalso. apply Hq. naive_solver.
    - apply wp_ret. split; [done|]. split; [done|]. intros Hq. exfalso. by apply Hq. }
  eapply wp_mono; [exact Hns|]. intros skip w' [-> Hsk]. destruct skip.
  { apply wp_ret, Hskip; [done|]. intros (_ & Hq & _). by apply Hsk. }
  assert (sa = true -> forall s, sle_state e = Some s -> state_seqid s <> st) as Hq.
  { intros Hsa s Hs Heq. assert (false = true) by (apply Hsk; intros Hq; by apply (Hq Hsa s)). done. }
  case_decide as Hb; [apply wp_ret, Hskip; [done|]; intros (_ & _ & Hg & _); done|].
  apply wp_mwhen; intros Hov.
  - rewrite <- Ho. eapply wp_cancel_blocked_lock; [done|done|]. intros w' Hwf' Hd. split; [done|].
    exists e. split; [done|]. right. split; [done|]. split; [done|]. split; [done|]. split; [done|].
    by apply ranges_overlap_spec.
  - apply Hskip; [done|]. intros (_ & _ & _ & Hex). apply ranges_overlap_spec in Hex; [congruence|done|done].
Qed.

Lemma wp_cancel_blocked_locks_range ctx obj owner sa st lock (w : lock_world F) :
  wf [] [] (core w) -> lock_ok lock ->
  (sa = true -> forall b e, view [] (core w) b e -> is_Some (sle_state e)) ->
  wp (cancel_blocked_locks_range ctx obj owner sa st lock) (fun _ w' => wf [] [] (core w') /\
    forall b e, view [] (core w') b e <->
      view [] (core w) b e /\ ~ (sle_obj e = obj /\ cancels owner sa st lock e)) w.
Proof.
  intros Hwf Hlk Hst. unfold cancel_blocked_locks_range.
  apply (glist_for_each_safe_wp_fixed _ _ (fun todo (_ : unit) w' => wf [] [] (core w') /\
    (exists done_, t_list obj (core w') = done_ ++ todo) /\
    forall b e, view [] (core w') b e <->
      view [] (core w) b e /\ ~ (sle_obj e = obj /\ cancels owner sa st lock e /\ b ∉ todo))).
  - split; [done|]. split; [by exists []|]. intros b e. split; [|naive_solver]. intros Hv.
    split; [done|]. intros (Ho & _ & Hn). apply Hn. destruct Hv as [_ [Hl|Hl]]; [|by apply elem_of_nil in Hl].
    by rewrite Ho in Hl.
  - intros _ w' (Hwf' & _ & Hv). split; [done|]. intros b e. rewrite Hv.
    pose proof (not_elem_of_nil b). tauto.
  - intros a todo [] w' (Hwf' & (done_ & Hl) & Hv).
    pose proof (wf_nodup _ _ _ Hwf' obj) as Hnd. rewrite Hl in Hnd.
    pose proof Hnd as (_ & Hd & [Hnt _]%NoDup_cons)%NoDup_app. split.
    { rewrite core_list, Hl. apply next_of_split. intros Hin. apply (Hd _ Hin). left. }
    assert (a ∈ t_list obj (core w')) as Hina by (rewrite Hl; set_solver).
    apply wp_plain. eapply wp_mono; [apply wp_cancel_step; auto|].
    + intros Hsa b e Hvb. apply Hv in Hvb as [? _]. eauto.
    + intros _ w'' (Hwf'' & e & Hve & Hcase). simpl. split; [done|].
      destruct (wf_on_list _ _ _ _ _ Hwf' Hina) as (e' & Hve' & Ho).
      assert (e' = e) as -> by (destruct Hve, Hve'; congruence).
      assert (view [] (core w) a e) as Hve0 by by apply Hv.
      destruct Hcase as [[Heq Hn]|[[Hdv Hdl] Hc]].
      * rewrite Heq. split; [exists (done_ ++ [a]); by rewrite Hl, <- app_assoc|].
        intros b eb. rewrite Hv. split; intros [Hvb Hnb]; (split; [done|]); intros (Hob & Hcb & Hbt); apply Hnb.
        -- split; [done|]. split; [done|]. intros [->|?]%elem_of_cons; [|done].
           assert (eb = e) as -> by (destruct Hvb, Hve0; congruence). done.
        -- split; [done|]. split; [done|]. rewrite not_elem_of_cons in Hbt. tauto.
      * split; [exists done_; by rewrite Hdl, Hl, remove_id_split|].
        intros b eb. rewrite Hdv, Hv. split.
        -- intros [[Hvb Hnb] Hne]. split; [done|]. intros (Hob & Hcb & Hbt). apply Hnb.
           split; [done|]. split; [done|]. rewrite not_elem_of_cons. done.
        -- intros [Hvb Hnb]. split; [split; [done|]|].
           ++ intros (Hob & Hcb & Hbt). apply Hnb. rewrite not_elem_of_cons in Hbt. tauto.
           ++ intros ->. assert (eb = e) as -> by (destruct Hvb, Hve0; congruence). by apply Hnb.
Qed.

End cancelling.

(** ** Unlock *)
Section unlocking.
Context `{OwnerMem} {F : Type} `{!Env F}.
Implicit Types w : lock_world F.
Context (Hsubmit : forall s : F, fst (fridgethr_submit s) = 0).

Lemma subtracted_subsumed sq owner sa st obj lock X t t' removed :
  wf X [] t -> subtracted sq owner sa st obj lock t t' removed -> subsumed [] t [] t'.
Proof.
  intros Hwf [Ho Hg Hk _] b e' Hv Hact x Hx.
  assert (Decision (selected sq owner sa st e' /\ sle_obj e' = obj)) as Hdec.
  { unfold selected. apply and_dec; [|apply _]. apply and_dec; [|apply and_dec].
    - apply or_dec; apply _.
    - apply _.
    - destruct sa; [|left; done]. destruct (sle_state e') as [s|]; [|left; done].
      destruct (decide (sq s = st)); [right|left]; naive_solver. }
  destruct Hdec as [[Hsel Hob]|Hn].
  - destruct (Hg b e' x Hv Hsel Hob Hx) as (_ & a & e & Hve & (Hpo & Hpw & _ & Hpb & Hpt) & Hc).
    exists a, e. split; [done|]. split; [unfold active in *; by rewrite <- Hpb|].
    split; [done|]. split; [|done]. rewrite Hpw. by eapply view_owner.
  - apply Ho in Hv; [|done]. exists b, e'. split; [done|]. split; [done|]. split; [done|].
    split; [by eapply view_owner|done].
Qed.

(** What an unlock of [lock] by [owner] does to the locks of the table. *)
Record unlock_rel (obj : positive) (owner : option positive) (sa : bool) (st : Z)
    (lock : fsal_lock_param_t) (t t' : table) : Prop := {
  ul_released : sa = false -> forall b e x, view [] t' b e -> sle_obj e = obj ->
    same_owner (sle_owner e) owner -> covers (sle_lock e) x -> ~ covers lock x;
  ul_kept : forall b e x, view [] t b e -> granted e -> covers (sle_lock e) x ->
    ~ (sle_obj e = obj /\ same_owner (sle_owner e) owner /\ covers lock x) ->
    exists b' e', view [] t' b' e' /\ piece e e' /\ covers (sle_lock e') x;
  ul_cf : conflict_free [] t -> conflict_free [] t'
}.

Lemma unlock_rel_compose obj owner sa st lock t t1 t2 t3 removed :
  wf [] [] t -> wf [] [] t1 -> is_Some owner ->
  (forall b e, view [] t1 b e <->
     view [] t b e /\ ~ (sle_obj e = obj /\ cancels owner sa st lock e)) ->
  subtracted state_seqid owner sa st obj lock t1 t2 removed -> grant_rel t2 t3 ->
  unlock_rel obj owner sa st lock t t3.
Proof.
  intros Hwf Hwf1 [o Hown] Hcan Hsub Hgr. constructor.
  - intros -> b e' x Hv Hob Hso Hx Hlx.
    destruct (gr_from _ _ Hgr b e' Hv) as (e & Hve & Hcase).
    assert (sle_obj e = obj /\ same_owner (sle_owner e) owner /\ covers (sle_lock e) x) as (Hob' & Hso' & Hx').
    { destruct Hcase as [->|(_ & Hsl & _)]; [done|]. pose proof Hsl as (Ho1 & Ho2 & _).
      rewrite Ho1, Ho2 in *. split; [done|]. split; [done|]. by apply (same_lock_covers e e'). }
    destruct (decide (granted e)) as [Hg|Hg].
    + assert (selected state_seqid owner false st e) as Hsel by (split; [by right|done]).
      by destruct (sd_gone _ _ _ _ _ _ _ _ _ Hsub b e x Hve Hsel Hob' Hx') as [Hn _].
    + apply (sd_other _ _ _ _ _ _ _ _ _ Hsub) in Hve.
      2:{ intros [(_ & Hg' & _) _]. done. }
      apply Hcan in Hve as [_ Hn]. apply Hn. split; [done|]. split; [by right|]. split; [done|]. eauto.
  - intros b e x Hv Hg Hx Hn.
    assert (view [] t1 b e) as Hv1 by (apply Hcan; split; [done|]; intros (_ & _ & _ & Hg' & _); done).
    assert (exists b' e', view [] t2 b' e' /\ piece e e' /\ covers (sle_lock e') x) as (b' & e' & Hv2 & Hp & Hx').
    { destruct (decide (sle_obj e = obj /\ same_owner (sle_owner e) owner)) as [[Ho Hs]|Hns].
      - assert (Decision (selected state_seqid owner sa st e)) as [Hsel|Hsel].
        { unfold selected. apply and_dec; [left; by right|]. apply and_dec; [apply _|].
          destruct sa; [|left; done]. destruct (sle_state e) as [s|]; [|left; done].
          destruct (decide (state_seqid s = st)); [right|left]; naive_solver. }
        + apply (sd_kept _ _ _ _ _ _ _ _ _ Hsub b e x); auto.
        + exists b, e. split; [|by split; [apply piece_refl|]].
          apply (sd_other _ _ _ _ _ _ _ _ _ Hsub); [tauto|done].
      - exists b, e. split; [|by split; [apply piece_refl|]].
        apply (sd_other _ _ _ _ _ _ _ _ _ Hsub); [|done].
        intros [([Hno|Hs] & _) Ho]; [congruence|tauto]. }
    exists b', e'. split; [|done]. apply (gr_keep _ _ Hgr); [done|].
    destruct Hp as (_ & _ & _ & -> & _). unfold granted in Hg. congruence.
  - intros Hcf. apply (gr_cf _ _ Hgr).
    eapply conflict_free_subsumed; [|by eapply subtracted_subsumed].
    eapply conflict_free_subsumed; [exact Hcf|]. eapply subsumed_views; [done|].
    intros a e Hv _. by apply Hcan in Hv as [? _].
Qed.

Lemma unlock_rel_empty obj owner sa st lock t :
  wf [] [] t -> t_list obj t = [] -> unlock_rel obj owner sa st lock t t.
Proof.
  intros Hwf Hnil. constructor; auto.
  - intros _ b e x [_ [Hl|Hl]] Ho; [|by apply elem_of_nil in Hl].
    rewrite Ho, Hnil in Hl. by apply elem_of_nil in Hl.
  - intros b e x Hv Hg Hx _. exists b, e. auto using piece_refl.
Qed.

Lemma wp_state_unlock ctx obj state o sa st lock (w : lock_world F) :
  wf [] [] (core w) -> lock_ok lock -> owner_ok o ->
  (sa = true -> forall b e, view [] (core w) b e -> is_Some (sle_state e)) ->
  wp (state_unlock ctx obj state (Some o) sa st lock) (fun status w' =>
    wf [] [] (core w') /\
    if is_regular_file obj then unlock_rel obj (Some o) sa st lock (core w) (core w')
    else status = STATE_BAD_TYPE /\ w' = w) w.
Proof using Hsubmit.
  intros Hwf Hlk Hok Hst. unfold state_unlock.
  destruct (is_regular_file obj); simpl; [|by apply wp_ret].
  apply wp_bind, wp_gets. rewrite core_list.
  destruct (t_list obj (core w)) as [|a l] eqn:Hl.
  { apply wp_ret. split; [done|]. by apply unlock_rel_empty. }
  apply wp_bind. eapply wp_mono; [by apply wp_cancel_blocked_locks_range|].
  intros _ w1 (Hwf1 & Hv1). apply wp_bind.
  eapply wp_mono; [apply (wp_subtract_lock_from_list _ _ _ _ _ _ []); auto|].
  { intros Hsa b e Hv. apply Hv1 in Hv as [Hv _]. intros. eapply Hst; eauto. }
  intros removed w2 (Hwf2 & Hsub). apply wp_bind, wp_do_lock_op; [done|].
  intros status cf w3 Hw3 _. apply wp_bind.
  eapply wp_mono; [apply (wp_grant_blocked_locks Hsubmit [])|].
  - by rewrite Hw3.
  - intros b e Hb. by apply elem_of_nil in Hb.
  - intros _ w4 (Hwf4 & Hgr). apply wp_ret. split; [done|]. rewrite Hw3 in Hgr.
    eapply (unlock_rel_compose _ _ _ _ _ _ (core w1) (core w2)); eauto.
Qed.

End unlocking.

(** ** Completing, releasing and forcing a grant *)
Section completing.
Context `{OwnerMem} {F : Type} `{!Env F}.
Implicit Types w : lock_world F.
Context (Hsubmit : forall s : F, fst (fridgethr_submit s) = 0).

Lemma wf_exempt X L t a e : wf X L t -> t_heap t !! a = Some e -> wf (a :: X) L t.
Proof.
  intros Hwf Ha. pose proof (ew_fresh _ _ _ _ _ (wf_entry _ _ _ Hwf _ _ Ha)). destruct Hwf.
  constructor; auto.
  - intros b eb Hb. destruct (wf_entry _ _ Hb).
    assert (b ∉ a :: X -> b ∉ X) by (rewrite not_elem_of_cons; tauto). constructor; auto.
  - intros c k Hc. destruct (wf_cookie _ _ Hc) as (? & ? & Hht & ?).
    split; [done|]. split; [done|]. split; [|done]. assert (c <> a) by congruence. split.
    + intros ?%Hht. by rewrite not_elem_of_cons.
    + intros [_ ?]%not_elem_of_cons. by apply Hht.
  - intros b [->|Hb]%elem_of_cons; auto.
Qed.

Lemma wf_taken X L t c k :
  wf X L t -> c ∈ X -> t_cookies t !! c = Some k -> forall key, t_ht t !! key <> Some c.
Proof.
  intros Hwf Hc Hk key Hkey. destruct (wf_ht _ _ _ Hwf _ _ Hkey) as (k' & Hk' & <-).
  destruct (wf_cookie _ _ _ Hwf _ _ Hk') as (_ & _ & Hht & _). by apply Hht in Hkey.
Qed.

(** Every byte that was locked is still locked by the same owner. *)
Definition keeps_in (L : list positive) (t : table) (L' : list positive) (t' : table) : Prop :=
  forall b e x, view L t b e -> granted e -> covers (sle_lock e) x ->
  exists b' e', view L' t' b' e' /\ granted e' /\ sle_obj e' = sle_obj e /\
    same_owner (sle_owner e') (sle_owner e) /\ covers (sle_lock e') x.
Definition keeps (t t' : table) : Prop := keeps_in [] t [] t'.

Lemma keeps_in_trans L t L' t' L'' t'' :
  keeps_in L t L' t' -> keeps_in L' t' L'' t'' -> keeps_in L t L'' t''.
Proof.
  intros H1 H2 b e x Hv Hg Hx.
  destruct (H1 b e x Hv Hg Hx) as (b' & e' & Hv' & Hg' & Ho' & Hs' & Hx').
  destruct (H2 b' e' x Hv' Hg' Hx') as (b'' & e'' & Hv'' & Hg'' & Ho'' & Hs'' & Hx'').
  exists b'', e''. do 2 (split; [done|]). split; [congruence|]. split; [|done].
  by eapply same_owner_trans.
Qed.

Lemma keeps_trans t t' t'' : keeps t t' -> keeps t' t'' -> keeps t t''.
Proof. apply keeps_in_trans. Qed.

Lemma keeps_in_views X L t L' t' :
  wf X L t -> (forall b e, view L t b e -> granted e -> view L' t' b e) -> keeps_in L t L' t'.
Proof.
  intros Hwf Hv b e x Hvb Hg Hx. exists b, e. split; [auto|]. do 2 (split; [done|]).
  split; [by eapply view_owner|done].
Qed.

Lemma keeps_views X t t' :
  wf X [] t -> (forall b e, view [] t b e -> granted e -> view [] t' b e) -> keeps t t'.
Proof. apply keeps_in_views. Qed.

Lemma keeps_grant X t t' : wf X [] t -> grant_rel t t' -> keeps t t'.
Proof.
  intros Hwf Hgr. eapply keeps_views; [done|]. intros b e Hv Hg.
  apply (gr_keep _ _ Hgr); [done|]. unfold granted in Hg. congruence.
Qed.

Lemma keeps_in_merge X L obj o ty t t' :
  wf X L t -> merge_rel L obj o ty t t' -> keeps_in L t L t'.
Proof.
  intros Hwf [_ Ho Hk] b e x Hv Hg Hx.
  destruct (decide (same_owner (sle_owner e) o /\ sle_obj e = obj)) as [[Hs Hob]|Hn].
  - destruct (Hk b e x Hv Hg Hob Hs Hx) as (b' & e' & Hv' & Hg' & Hob' & Hs' & Hx' & _).
    exists b', e'. do 2 (split; [done|]). split; [congruence|]. split; [|done].
    eapply same_owner_trans; [exact Hs'|by apply same_owner_sym].
  - exists b, e. split; [apply Ho; [tauto|done]|]. do 2 (split; [done|]).
    split; [by eapply view_owner|done].
Qed.

(** The entry at [a] was replaced by one that differs in what is not the lock. *)
Lemma put_like X L t t' a e e' :
  wf X L t -> view L t a e -> same_lock e e' -> (active e' -> active e) ->
  (forall b, b <> a -> t_heap t' !! b = t_heap t !! b) -> t_heap t' !! a = Some e' ->
  t_files t' = t_files t ->
  (forall b eb, view L t' b eb <-> (b = a /\ eb = e') \/ (b <> a /\ view L t b eb)) /\
  subsumed L t L t'.
Proof.
  intros Hwf Hv Hsl Hact Hh Ha Hf.
  assert (forall b eb, view L t' b eb <-> (b = a /\ eb = e') \/ (b <> a /\ view L t b eb)) as Hvw.
  { intros b eb. destruct Hv as [He Hl]. unfold view, linked, t_list in *. rewrite Hf.
    destruct (decide (b = a)) as [->|Hne].
    - rewrite Ha. split; [intros [[= <-] _]; by left|]. intros [[_ ->]|[? _]]; [|done].
      split; [done|]. by rewrite (proj1 Hsl).
    - rewrite Hh by done. naive_solver. }
  split; [done|]. intros b eb Hvb Hactb x Hx. apply Hvw in Hvb as [[-> ->]|[Hne Hvb]].
  - exists a, e. split; [done|]. split; [auto|].
    pose proof Hsl as (Ho & Hw & Hty & _). split; [done|].
    split; [rewrite Hw; by eapply view_owner|]. split; [done|]. by apply (same_lock_covers e e').
  - exists b, eb. split; [done|]. split; [done|]. split; [done|]. split; [by eapply view_owner|done].
Qed.

(** A lock that is being granted is marked granted, merged, and blocked locks
    are tried; [X] lists the cookie taken, if any. *)
Lemma wp_mark_granted X ctx obj a e (w : lock_world F) :
  wf (a :: X) [] (core w) -> view [] (core w) a e -> sle_obj e = obj ->
  sle_blocked e = STATE_GRANTING -> (forall b eb, b ∈ X -> view [] (core w) b eb -> False) ->
  (forall c, c ∈ X -> cookie_of e = Some c) ->
  wp (upd_entry a (set_blocked STATE_NON_BLOCKING);;
      merge_lock_entry obj a;; grant_blocked_locks ctx obj)
    (fun _ w' => wf (a :: X) [] (core w') /\ keeps (core w) (core w') /\
       (conflict_free [] (core w) -> conflict_free [] (core w')) /\
       exists e', view [] (core w') a e' /\ grown (set_blocked STATE_NON_BLOCKING e) e') w.
Proof using Hsubmit.
  intros Hwf Hv Ho Hb HX Hcx. pose proof (wf_live _ _ _ _ _ Hwf Hv) as Ha.
  set (e1 := set_blocked STATE_NON_BLOCKING e).
  apply wp_bind. eapply wp_upd_entry; [done|]. intros w1 Hw1. fold e1 in Hw1.
  assert (wf (a :: X) [] (core w1)) as Hwf1.
  { rewrite Hw1. apply (wf_put (a :: X) (a :: X) [] (core w) a e); auto.
    - by apply (view_lock _ _ _ _ _ Hwf Hv).
    - intros _ Hx. exfalso. apply Hx. left.
    - destruct Hv. tauto. }
  destruct (put_like (a :: X) [] (core w) (core w1) a e e1) as [Hv1 Hsub1]; auto.
  { by unfold same_lock. }
  { intros _. by right. }
  { intros b Hne. rewrite Hw1. simpl. by rewrite lookup_insert_ne. }
  { rewrite Hw1. simpl. by rewrite lookup_insert_eq. }
  { by rewrite Hw1. }
  assert (view [] (core w1) a e1) as Hva1 by (apply Hv1; by left).
  assert (keeps (core w) (core w1)) as Hk1.
  { eapply keeps_views; [exact Hwf|]. intros b eb Hvb Hg. apply Hv1. right. split; [|done].
    intros ->. assert (eb = e) as -> by (destruct Hvb; congruence). unfold granted in Hg. congruence. }
  apply wp_bind. eapply wp_mono; [apply (wp_merge_lock_entry (a :: X) [] obj a e1); done|].
  intros _ w2 (Hwf2 & Hmr & e2 & Hva2 & Hgr2 & _).
  eapply wp_mono; [apply (wp_grant_blocked_locks Hsubmit (a :: X)); [done|]|].
  - intros b eb [->|Hbx]%elem_of_cons Hvb.
    + assert (eb = e2) as -> by (destruct Hvb, Hva2; congruence). by destruct Hgr2 as (l & -> & _).
    + exfalso. assert (cookie_of e2 = Some b) as Hc2.
      { destruct Hgr2 as (l & -> & _). by apply Hcx. }
      destruct (ew_cookie _ _ _ _ _ (wf_entry _ _ _ Hwf2 _ _ (proj1 Hva2)) b Hc2) as (k & Hk & _).
      destruct (wf_cookie _ _ _ Hwf2 _ _ Hk) as (_ & Hn & _). destruct Hvb. congruence.
  - intros _ w3 (Hwf3 & Hgr). split; [done|]. split; [|split].
    + eapply keeps_trans; [exact Hk1|]. eapply keeps_trans; [by eapply keeps_in_merge|by eapply keeps_grant].
    + intros Hcf. apply (gr_cf _ _ Hgr). eapply conflict_free_subsumed; [|exact (mr_sub _ _ _ _ _ _ Hmr)].
      by eapply conflict_free_subsumed.
    + exists e2. split; [|done]. apply (gr_keep _ _ Hgr); [done|].
      by destruct Hgr2 as (l & -> & _).
Qed.

(** Freeing the cookie of an entry: only the cookie field and count change. *)
Lemma wp_free_attached X c k e (w : lock_world F) :
  wf (c :: X) [] (core w) -> t_cookies (core w) !! c = Some k ->
  t_heap (core w) !! sce_lock_entry k = Some e ->
  (linked [] (core w) (sce_lock_entry k) e -> sce_lock_entry k ∉ X -> status_ok (uncookie e)) ->
  wp (free_cookie c true) (fun _ w' => wf X [] (core w') /\ subsumed [] (core w) [] (core w') /\
    keeps (core w) (core w') /\
    (linked [] (core w) (sce_lock_entry k) e ->
       view [] (core w') (sce_lock_entry k) (set_refcount (sle_ref_count e - 1) (uncookie e))) /\
    (forall b eb, b <> sce_lock_entry k -> view [] (core w) b eb <-> view [] (core w') b eb)) w.
Proof.
  intros Hwf Hc Ha Hst. set (a := sce_lock_entry k) in *.
  eapply (wp_free_taken X [] c k e); auto; [eapply wf_taken; [exact Hwf|left|done]|]. fold a.
  intros w' Hwf' Hf Hh Hl. split; [done|].
  assert (forall b eb, b <> a -> view [] (core w) b eb <-> view [] (core w') b eb) as Hsame.
  { intros b eb Hne. unfold view, linked, t_list. rewrite Hf, Hh by done. done. }
  destruct (decide (linked [] (core w) a e)) as [Hlk|Hlk].
  - assert (view [] (core w) a e) as Hva by by split.
    destruct (put_like (c :: X) [] (core w) (core w') a e
                (set_refcount (sle_ref_count e - 1) (uncookie e))) as [Hvw Hsub]; auto.
    { by unfold same_lock. }
    split; [done|]. split; [|split; [intros _; apply Hvw; by left|done]].
    intros b eb x Hvb Hg Hx. destruct (decide (b = a)) as [->|Hne].
    + assert (eb = e) as -> by (destruct Hvb; congruence).
      eexists a, _. split; [apply Hvw; by left|]. do 2 (split; [done|]).
      split; [exact (view_owner _ _ _ _ _ Hwf Hva)|done].
    + exists b, eb. split; [by apply Hsame|]. do 2 (split; [done|]). split; [exact (view_owner _ _ _ _ _ Hwf Hvb)|done].
  - assert (forall b eb, view [] (core w) b eb -> b <> a) as Hna.
    { intros b eb [Hb Hbl] ->. assert (eb = e) as -> by congruence. done. }
    split; [|split; [|split; [done|done]]].
    + eapply subsumed_views; [exact Hwf|]. intros b eb Hvb _. apply Hsame; [|done]. intros ->.
      destruct Hvb as [Hb' Hbl]. destruct (ew_gone _ _ _ _ _ (wf_entry _ _ _ Hwf _ _ Ha) Hlk) as [_ _].
      apply Hlk. unfold linked, t_list in *. rewrite Hf in Hbl.
      destruct Hbl as [Hbl|Hbl]; [|by apply elem_of_nil in Hbl]. left.
      destruct (wf_list _ _ _ Hwf _ _ Hbl) as (_ & e' & He' & Ho'). congruence.
    + eapply keeps_views; [exact Hwf|]. intros b eb Hvb _. apply Hsame; eauto.
Qed.

End completing.
