(* ===== verification/LockApi.v ===== *)
(** * Entry points of the lock manager

    Specifications of the operations the protocols call: completion and release
    of grants, cancellation, and [state_lock]. *)
From S2P Require Import Prelude Status Owners LockTable LockManager LockInv LockPrims LockAlgo LockGrant LockOps.
Local Open Scope Z_scope.

Section grants.
Context `{OwnerMem} {F : Type} `{!Env F}.
Implicit Types w : lock_world F.
Context (Hsubmit : forall s : F, fst (fridgethr_submit s) = 0).

(** What every operation guarantees. *)
Definition safe_step (t t' : table) : Prop :=
  wf [] [] t' /\ (conflict_free [] t -> conflict_free [] t').

(** [e'] is granted and covers at least what [e] covers. *)
Definition absorbs (e e' : state_lock_entry_t) : Prop :=
  granted e' /\ sle_obj e' = sle_obj e /\ sle_owner e' = sle_owner e /\
  lock_type (sle_lock e') = lock_type (sle_lock e) /\
  forall x, covers (sle_lock e) x -> covers (sle_lock e') x.

(** The entry a live cookie refers to. *)
Lemma wf_cookie_entry X L t c k :
  wf X L t -> t_cookies t !! c = Some k ->
  exists e, t_heap t !! sce_lock_entry k = Some e /\ cookie_of e = Some c /\
    sce_obj k = sle_obj e /\ sce_lock_entry k <> c.
Proof.
  intros Hwf Hk. destruct (wf_cookie _ _ _ Hwf _ _ Hk) as (_ & Hn & _ & e & He & Hc).
  exists e. split; [done|]. split; [done|]. split; [|congruence].
  destruct (ew_cookie _ _ _ _ _ (wf_entry _ _ _ Hwf _ _ He) c Hc) as (k' & Hk' & _ & Ho). congruence.
Qed.

Lemma wf_granting_linked X L t a e :
  wf X L t -> t_heap t !! a = Some e -> sle_blocked e = STATE_GRANTING -> view L t a e.
Proof.
  intros Hwf Ha Hb. split; [done|]. destruct (decide (linked L t a e)); [done|].
  destruct (ew_gone _ _ _ _ _ (wf_entry _ _ _ Hwf _ _ Ha)) as [_ [?|?]]; congruence.
Qed.

(** A linked entry with a cookie that is not being granted is canceled. *)
Lemma wf_attached_status X L t a e c :
  wf X L t -> t_heap t !! a = Some e -> a ∉ X -> cookie_of e = Some c ->
  sle_blocked e <> STATE_GRANTING -> linked L t a e -> sle_blocked e = STATE_CANCELED.
Proof.
  intros Hwf Ha Hx Hc Hb Hl. pose proof (ew_status _ _ _ _ _ (wf_entry _ _ _ Hwf _ _ Ha) Hl Hx) as Hs.
  unfold status_ok in Hs. rewrite Hc in Hs. destruct (sle_blocked e); naive_solver.
Qed.

Lemma wp_state_complete_grant ctx c k (w : lock_world F) :
  wf [c] [] (core w) -> t_cookies (core w) !! c = Some k ->
  wp (state_complete_grant ctx c)
    (fun _ w' => (safe_step (core w) (core w') /\ keeps (core w) (core w')) /\
       forall e, t_heap (core w) !! sce_lock_entry k = Some e -> sle_blocked e = STATE_GRANTING ->
         exists e', view [] (core w') (sce_lock_entry k) e' /\ absorbs e e') w.
Proof using Hsubmit.
  intros Hwf Hk. destruct (wf_cookie_entry _ _ _ _ _ Hwf Hk) as (e & Ha & Hce & Hobj & Hac).
  set (a := sce_lock_entry k) in *.
  unfold state_complete_grant. apply wp_bind. eapply wp_get_cookie; [done|]. fold a.
  apply wp_bind, silent_bk_ref. intros [] w0 Hw0. rewrite <- Hw0 in *. clear w Hw0.
  apply wp_bind. eapply wp_get_entry; [done|].
  assert (a ∉ [c]) as HaX by (rewrite list_elem_of_singleton; done).
  apply wp_bind, wp_mwhen; intros Hb.
  - apply bool_decide_eq_true in Hb.
    pose proof (wf_granting_linked _ _ _ _ _ Hwf Ha Hb) as Hv.
    eapply wp_mono; [apply (wp_mark_granted Hsubmit [c] ctx _ a e)|]; auto.
    + by eapply wf_exempt.
    + intros b eb ->%list_elem_of_singleton [Hb' _].
      destruct (wf_cookie _ _ _ Hwf _ _ Hk) as (_ & Hn & _). congruence.
    + by intros b ->%list_elem_of_singleton.
    + intros _ w1 (Hwf1 & Hkp & Hcf & e' & Hv' & (l & He' & Hty' & Hs' & Hend')).
      assert (cookie_of e' = Some c) as Hce' by by rewrite He'.
      destruct (ew_cookie _ _ _ _ _ (wf_entry _ _ _ Hwf1 _ _ (proj1 Hv')) c Hce') as (k1 & Hk1 & Hka & _).
      apply wp_bind. eapply wp_mono; [apply (wp_free_attached [a] c k1 e')|]; auto.
      * eapply wf_same_exempt; [|exact Hwf1]. intros b. rewrite !elem_of_cons. tauto.
      * rewrite Hka. apply Hv'.
      * rewrite Hka. intros _ Hx. exfalso. apply Hx. left.
      * intros _ w2 (Hwf2 & Hsub & Hkp2 & Hv2 & _). rewrite Hka in Hv2. specialize (Hv2 (proj2 Hv')).
        apply silent_bk_ref. intros [] w3 Hw3. rewrite Hw3.
        split; [split; [split|by eapply keeps_trans]|].
        -- eapply wf_settle; [exact Hwf2|exact (proj1 Hv2)|by eapply wf_linked_ref|].
           intros _ _. unfold status_ok. rewrite He'. apply cookie_of_uncookie.
        -- intros Hc0. by eapply conflict_free_subsumed; [apply Hcf|].
        -- intros e0 He0 _. assert (e0 = e) as -> by congruence. eexists. split; [exact Hv2|].
           rewrite He'. split; [done|]. do 3 (split; [done|]). intros x. unfold covers. simpl in *. lia.
  - apply bool_decide_eq_false in Hb. apply wp_bind.
    eapply wp_mono; [apply (wp_free_attached [] c k e); auto|].
    + intros Hl _. unfold status_ok. change (sle_blocked (uncookie e)) with (sle_blocked e).
      by rewrite (wf_attached_status _ _ _ _ _ _ Hwf Ha HaX Hce Hb Hl).
    + intros _ w2 (Hwf2 & Hsub & Hkp2 & _). apply silent_bk_ref. intros [] w3 Hw3. rewrite Hw3.
      split; [split; [split; [done|]|done]|].
      * intros Hc0. by eapply conflict_free_subsumed.
      * intros e0 He0 Hb0. congruence.
Qed.

(** Releasing a grant removes the lock that was being granted. *)
Lemma wp_state_release_grant ctx c k (w : lock_world F) :
  wf [c] [] (core w) -> t_cookies (core w) !! c = Some k ->
  wp (state_release_grant ctx c)
    (fun _ w' => safe_step (core w) (core w') /\ keeps (core w) (core w')) w.
Proof using Hsubmit.
  intros Hwf Hk. destruct (wf_cookie_entry _ _ _ _ _ Hwf Hk) as (e & Ha & Hce & Hobj & Hac).
  unfold state_release_grant. apply wp_bind. eapply wp_get_cookie; [done|].
  set (a := sce_lock_entry k) in *. apply wp_bind. eapply wp_get_entry; [done|].
  assert (a ∉ [c]) as HaX by (rewrite list_elem_of_singleton; done).
  (* from a table where the entry is not being granted any more *)
  assert (forall (w1 : lock_world F) e1 (status : state_status_t), wf [c] [] (core w1) -> t_cookies (core w1) !! c = Some k ->
    t_heap (core w1) !! a = Some e1 -> cookie_of e1 = Some c ->
    sle_blocked e1 <> STATE_GRANTING -> subsumed [] (core w) [] (core w1) -> keeps (core w) (core w1) ->
    wp (free_cookie c true;; grant_blocked_locks ctx (sce_obj k);; mret status)
      (fun (_ : state_status_t) w' => safe_step (core w) (core w') /\ keeps (core w) (core w')) w1) as Hend.
  { intros w1 e1 status Hwf1 Hk1 Ha1 Hce1 Hb1 Hsub1 Hkp1. apply wp_bind.
    eapply wp_mono; [apply (wp_free_attached [] c k e1); auto|].
    - intros Hl _. unfold status_ok. change (sle_blocked (uncookie e1)) with (sle_blocked e1).
      by rewrite (wf_attached_status _ _ _ _ _ _ Hwf1 Ha1 HaX Hce1 Hb1 Hl).
    - intros _ w2 (Hwf2 & Hsub2 & Hkp2 & _). apply wp_bind.
      eapply wp_mono; [apply (wp_grant_blocked_locks Hsubmit [])|]; [done| |].
      + intros b eb Hb. by apply elem_of_nil in Hb.
      + intros _ w3 (Hwf3 & Hgr). apply wp_ret. split; [split; [done|]|].
        * intros Hc0. apply (gr_cf _ _ Hgr). eapply conflict_free_subsumed; [|exact Hsub2].
          by eapply conflict_free_subsumed.
        * eapply keeps_trans; [exact Hkp1|]. eapply keeps_trans; [exact Hkp2|by eapply keeps_grant]. }
  apply wp_bind. case_decide as Hb.
  2:{ apply wp_ret. eapply (Hend w e); auto; [by eapply subsumed_views|by eapply keeps_views]. }
  pose proof (wf_granting_linked _ _ _ _ _ Hwf Ha Hb) as Hv.
  apply wp_bind. eapply wp_upd_entry; [done|]. intros w1 Hw1.
  set (e1 := set_blocked STATE_CANCELED e) in *.
  assert (wf [c] [] (core w1)) as Hwf1.
  { rewrite Hw1. apply (wf_put [c] [c] [] (core w) a e); auto.
    - apply (view_lock _ _ _ _ _ Hwf Hv).
    - intros _ _. done. }
  assert (view [] (core w1) a e1) as Hv1.
  { rewrite Hw1. apply (view_put _ _ _ e); [done|done|]. left. destruct Hv. done. }
  apply wp_bind. eapply (wp_do_lock_op_entry [c] []); [done|done|]. intros st w2 Hw2 _ Hwf2.
  set (e2 := posix_entry e1) in *.
  assert (view [] (core w2) a e2) as Hv2.
  { rewrite Hw2. apply (view_put _ _ _ e1); [exact (proj1 Hv1)|done|]. left. destruct Hv1. done. }
  assert (forall b eb, b <> a -> view [] (core w2) b eb <-> view [] (core w) b eb) as Hsame.
  { intros b eb Hne. rewrite Hw2, (view_put _ _ _ e1); [|exact (proj1 Hv1)|done].
    rewrite Hw1, (view_put _ _ _ e) by done. naive_solver. }
  assert (~ granted e) as Hng by (unfold granted; congruence).
  assert (forall t', (forall b eb, view [] t' b eb -> b <> a -> view [] (core w2) b eb) ->
    (forall eb, view [] t' a eb -> ~ active eb) -> subsumed [] (core w) [] t') as Hsub.
  { intros t' H1 H2. eapply subsumed_views; [exact Hwf|]. intros b eb Hvb Hact.
    destruct (decide (b = a)) as [->|Hne]; [by destruct (H2 eb Hvb)|]. apply Hsame; auto. }
  assert (forall t', (forall b eb, view [] (core w2) b eb -> b <> a -> view [] t' b eb) ->
    keeps (core w) t') as Hkeep.
  { intros t' H1. eapply keeps_views; [exact Hwf|]. intros b eb Hvb Hg.
    assert (b <> a) by (intros ->; assert (eb = e) as -> by (destruct Hvb; congruence); done).
    apply H1; [|done]. by apply Hsame. }
  assert (forall eb, view [] (core w2) a eb -> ~ active eb) as Hnact.
  { intros eb [Heb _]. destruct Hv2 as [Hv2 _]. assert (eb = e2) as -> by congruence. by intros [?|?]. }
  apply wp_bind, wp_mwhen; intros Hs.
  - eapply (wp_remove_core [c] []); [done|done|]. intros w3 Hw3. apply wp_ret.
    pose proof (fun b eb => view_remove _ _ _ _ _ b eb Hwf2 Hv2) as Hvr.
    assert (wf [c] [] (core w3)) as Hwf3 by (rewrite Hw3; by apply (wf_remove [c] [])).
    destruct (t_remove_rest a e2 (core w2)) as (Hck & _).
    assert (t_cookies (core w3) !! c = Some k) as Hk3 by (rewrite Hw3, Hck, Hw2, Hw1; done).
    destruct (wf_cookie_entry _ _ _ _ _ Hwf3 Hk3) as (e3 & He3 & Hce3 & _).
    eapply (Hend w3 e3); auto.
    + intros Hb3. pose proof (wf_granting_linked _ _ _ _ _ Hwf3 He3 Hb3) as Hv3.
      rewrite Hw3 in Hv3. by apply Hvr in Hv3 as [_ ?].
    + apply Hsub; [|intros eb Hveb]; [intros b eb Hvb _; rewrite Hw3 in Hvb; by apply Hvr in Hvb as [? _]|].
      rewrite Hw3 in Hveb. by apply Hvr in Hveb as [_ ?].
    + apply Hkeep. intros b eb Hvb Hne. rewrite Hw3. by apply Hvr.
  - apply wp_ret. eapply (Hend w2 e2); auto; [|exact (proj1 Hv2)].
    by rewrite Hw2, Hw1.
Qed.

End grants.

(** ** Lock and cancel *)
Section locking.
Context `{OwnerMem} {F : Type} `{!Env F}.
Implicit Types w : lock_world F.
Context (Hsubmit : forall s : F, fst (fridgethr_submit s) = 0).

Lemma wp_grant_immediate ctx obj a e (w : lock_world F) :
  wf [] [] (core w) -> view [] (core w) a e -> sle_obj e = obj -> sle_blocked e = STATE_GRANTING ->
  wp (grant_blocked_lock_immediate ctx obj a) (fun _ w' =>
    safe_step (core w) (core w') /\ keeps (core w) (core w') /\
    exists e', view [] (core w') a e' /\ absorbs e e') w.
Proof using Hsubmit.
  intros Hwf Hv Ho Hb. pose proof (wf_live _ _ _ _ _ Hwf Hv) as Ha.
  pose proof (ew_status _ _ _ _ _ (wf_entry _ _ _ Hwf _ _ Ha) (proj2 Hv) (not_elem_of_nil a)) as Hst.
  unfold status_ok in Hst. rewrite Hb in Hst. destruct Hst as [c Hc].
  destruct (ew_cookie _ _ _ _ _ (wf_entry _ _ _ Hwf _ _ Ha) c Hc) as (k & Hk & Hka & _).
  destruct (wf_cookie _ _ _ Hwf _ _ Hk) as (_ & Hnc & Hht & _).
  pose proof (proj2 Hht (not_elem_of_nil c)) as Hkey.
  unfold grant_blocked_lock_immediate. apply wp_bind. eapply wp_get_entry; [done|].
  unfold cookie_of in Hc. destruct (sle_block_data e) as [bd|] eqn:Hbd; [|done]. simpl in Hc. rewrite Hc.
  apply wp_bind, wp_bind. eapply wp_get_cookie; [done|]. apply wp_bind.
  eapply (wp_state_find_grant [] []); [done|congruence|].
  intros c' k' w1 Hkey' Hk' _ Hw1 Hwf1 _.
  assert (c' = c) as -> by congruence. assert (k' = k) as -> by congruence.
  assert (view [] (core w1) a e) as Hv1 by (rewrite Hw1; done).
  apply wp_bind. eapply wp_mono; [apply (wp_free_attached [a] c k e)|].
  - eapply wf_same_exempt; [|eapply wf_exempt; [exact Hwf1|exact (proj1 Hv1)]].
    intros b. rewrite !elem_of_cons. tauto.
  - by rewrite Hw1.
  - rewrite Hka. apply Hv1.
  - rewrite Hka. intros _ Hx. exfalso. apply Hx. left.
  - intros _ w2 (Hwf2 & Hsub2 & Hkp2 & Hv2 & _). rewrite Hka in Hv2. specialize (Hv2 (proj2 Hv1)).
    apply wp_ret. simpl. set (e2 := set_refcount (sle_ref_count e - 1) (uncookie e)) in *.
    eapply wp_mono; [apply (wp_mark_granted Hsubmit [] ctx obj a e2)|]; auto.
    + intros b eb Hbn. by apply elem_of_nil in Hbn.
    + intros b Hbn. by apply elem_of_nil in Hbn.
    + intros _ w3 (Hwf3 & Hkp3 & Hcf3 & e3 & Hv3 & (l & -> & Hty & Hs & He)).
      assert (forall t', keeps (core w1) t' -> keeps (core w) t') as Hk1 by by rewrite Hw1.
      split; [split|split].
      * eapply wf_settle; [exact Hwf3|exact (proj1 Hv3)|by eapply wf_linked_ref|].
        intros _ _. unfold status_ok. simpl. apply cookie_of_uncookie.
      * intros Hcf. apply Hcf3. eapply conflict_free_subsumed; [|exact Hsub2]. by rewrite Hw1.
      * apply Hk1. by eapply keeps_trans.
      * eexists. split; [exact Hv3|]. split; [done|]. do 3 (split; [done|]).
        intros x. unfold covers. simpl in *. lia.
Qed.

Lemma wp_state_cancel ctx obj owner lock (w : lock_world F) :
  wf [] [] (core w) ->
  wp (state_cancel ctx obj owner lock) (fun _ w' =>
    safe_step (core w) (core w') /\
    forall b e, view [] (core w) b e -> granted e -> view [] (core w') b e) w.
Proof using Hsubmit.
  intros Hwf. unfold state_cancel. destruct (is_regular_file obj); simpl; [|by apply wp_ret].
  apply wp_bind, wp_gets. rewrite core_list.
  assert (forall a, a ∈ t_list obj (core w) -> exists e, view [] (core w) a e /\ sle_obj e = obj) as Hl
    by (intros a Ha; by eapply wf_on_list).
  apply wp_bind. assert (wp (state_cancel_scan ctx obj (t_list obj (core w)) owner lock) (fun _ w' =>
    safe_step (core w) (core w') /\
    forall b e, view [] (core w) b e -> granted e -> view [] (core w') b e) w) as Hwp.
  2:{ eapply wp_mono; [exact Hwp|]. intros [] w' ?. by apply wp_ret. }
  revert Hl. generalize (t_list obj (core w)). intros l Hl. induction l as [|a l IH]; simpl.
  { by apply wp_ret. }
  assert (forall a, a ∈ l -> exists e, view [] (core w) a e /\ sle_obj e = obj) as Hl'
    by (intros b Hb; apply Hl; by right).
  destruct (Hl a ltac:(left)) as (e & Hv & Ho).
  apply wp_bind. eapply wp_get_entry; [exact (proj1 Hv)|].
  destruct (different_owners _ _); [auto|]. case_decide as Hb; [auto|].
  destruct (different_lock _ _); [auto|].
  apply wp_bind. rewrite <- Ho at 1. eapply wp_cancel_blocked_lock; [done|done|]. intros w1 Hwf1 [Hd _].
  eapply wp_mono; [apply (wp_grant_blocked_locks Hsubmit [])|]; [done| |].
  { intros b eb Hbn. by apply elem_of_nil in Hbn. }
  intros _ w2 (Hwf2 & Hgr). split; [split; [done|]|].
  - intros Hcf. apply (gr_cf _ _ Hgr). eapply conflict_free_subsumed; [exact Hcf|].
    eapply subsumed_views; [exact Hwf|]. intros b eb Hvb _. by apply Hd in Hvb as [? _].
  - intros b eb Hvb Hg. apply (gr_keep _ _ Hgr); [|unfold granted in Hg; congruence].
    apply Hd. split; [done|]. intros ->.
    assert (eb = e) as -> by (destruct Hvb, Hv; congruence). done.
Qed.

(** *** The scan of [state_lock] *)

(** No entry of the list conflicts with the request, blocked ones included. *)
Definition scan_clear (t : table) (l : list positive) (owner : positive) (lock : fsal_lock_param_t) :
    Prop :=
  forall a e, a ∈ l -> t_heap t !! a = Some e -> ~ same_owner (sle_owner e) (Some owner) ->
  forall x, covers (sle_lock e) x -> covers lock x ->
  types_conflict (lock_type (sle_lock e)) (lock_type lock) = false.

Lemma wp_state_lock_scan ctx l owner lock (Q : scan_result -> lock_world F -> Prop) w :
  wf [] [] (core w) -> lock_ok lock ->
  (forall a, a ∈ l -> exists e, view [] (core w) a e) ->
  Q Scan_export_conflict w ->
  (forall a, a ∈ l -> Q (Scan_conflict a) w) ->
  (forall a e, a ∈ l -> view [] (core w) a e -> active e -> same_owner (sle_owner e) (Some owner) ->
     lock_type (sle_lock e) = lock_type lock ->
     (forall x, covers lock x -> covers (sle_lock e) x) -> Q (Scan_existing a) w) ->
  ((lock_reclaim lock = false -> scan_clear (core w) l owner lock) -> Q Scan_end w) ->
  wp (state_lock_scan ctx l owner lock) Q w.
Proof.
  intros Hwf Hlk Hl HQx HQc HQe HQn. induction l as [|a l IH]; simpl.
  { apply wp_ret, HQn. intros _ a e Ha. by apply elem_of_nil in Ha. }
  destruct (Hl a ltac:(left)) as (e & Hv).
  pose proof (view_lock _ _ _ _ _ Hwf Hv) as Hle.
  pose proof (lock_end_ok _ Hle) as [Hre _]. pose proof (lock_end_ok _ Hlk) as [Hrl _].
  apply wp_bind. eapply wp_get_entry; [exact (proj1 Hv)|].
  destruct (bool_decide _ && _); [by apply wp_ret|].
  destruct (_ && different_owners _ _) eqn:Hc; [apply wp_ret, HQc; left|].
  destruct (_ && negb (different_owners _ _)) eqn:He.
  - rewrite !andb_true_iff, !Z.leb_le in He. destruct He as [[[[He1 He2] Hty] Hb] Hso].
    apply bool_decide_eq_true in Hty. apply negb_true_iff in Hso.
    apply wp_ret, (HQe a e); [left|done| |done|done|].
    + apply orb_true_iff in Hb as [Hb|Hb]; apply bool_decide_eq_true in Hb; [by left|by right].
    + intros x. unfold covers. lia.
  - apply IH.
    + intros b Hb. apply Hl. by right.
    + intros b Hb. apply HQc. by right.
    + intros b eb Hb. apply HQe. by right.
    + intros Hclear. apply HQn. intros Hrec. specialize (Hclear Hrec).
      intros b eb [->|Hb]%elem_of_cons Heb Hd x Hx Hx'; [|by eapply Hclear].
      assert (eb = e) as -> by (destruct Hv; congruence).
      apply different_owners_true in Hd. rewrite Hrec, Hd, andb_true_r in Hc. simpl in Hc.
      unfold covers in Hx, Hx'.
      rewrite (proj2 (Z.leb_le _ _)) in Hc by lia. rewrite (proj2 (Z.leb_le _ _)) in Hc by lia. done.
Qed.

Lemma wp_state_lock_find_blocked ctx l owner blocking lock
    (Q : option state_status_t -> lock_world F -> Prop) w :
  (forall a, a ∈ l -> is_Some (t_heap (core w) !! a)) ->
  Q None w -> Q (Some STATE_INVALID_ARGUMENT) w -> Q (Some STATE_LOCK_BLOCKED) w ->
  wp (state_lock_find_blocked ctx l owner blocking lock) Q w.
Proof.
  intros Hl HQn HQi HQb. induction l as [|a l IH]; simpl; [by apply wp_ret|].
  assert (wp (state_lock_find_blocked ctx l owner blocking lock) Q w) as Hrec
    by (apply IH; intros b Hb; apply Hl; by right).
  destruct (Hl a ltac:(left)) as (e & He). apply wp_bind. eapply wp_get_entry; [done|].
  destruct (different_owners _ _); [done|]. case_decide; [by apply wp_ret|].
  case_decide; [done|]. destruct (different_lock _ _); [done|]. by apply wp_ret.
Qed.

(** *** The lock is already held *)

Lemma wp_state_lock_existing ctx obj a e s (w : lock_world F) :
  wf [] [] (core w) -> view [] (core w) a e -> sle_obj e = obj -> active e ->
  wp (state_lock_existing ctx obj a (Some s)) (fun _ w' =>
    safe_step (core w) (core w') /\ keeps (core w) (core w') /\
    exists e', view [] (core w') a e' /\ absorbs e e') w.
Proof using Hsubmit.
  intros Hwf Hv Ho Hact. unfold state_lock_existing.
  apply wp_bind. eapply wp_get_entry; [exact (proj1 Hv)|]. apply wp_bind.
  assert (wp (mwhen (bool_decide (sle_blocked e = STATE_GRANTING))
    (grant_blocked_lock_immediate ctx obj a)) (fun _ w' =>
      safe_step (core w) (core w') /\ keeps (core w) (core w') /\
      exists e', view [] (core w') a e' /\ absorbs e e') w) as Hwp.
  { apply wp_mwhen; intros Hb.
    - apply bool_decide_eq_true in Hb. by apply wp_grant_immediate.
    - apply bool_decide_eq_false in Hb. destruct Hact as [Hg|]; [|done].
      split; [done|]. split; [by eapply keeps_views|]. exists e. split; [done|]. by split. }
  eapply wp_mono; [exact Hwp|]. intros _ w1 ((Hwf1 & Hcf1) & Hkp1 & e1 & Hv1 & Habs).
  apply wp_bind. eapply wp_get_entry; [exact (proj1 Hv1)|].
  apply wp_mwhen; intros Hs; [|by split; [|split; [|exists e1]]].
  apply wp_bind. eapply wp_upd_entry; [exact (proj1 Hv1)|]. intros w2 Hw2.
  set (e2 := set_state (Some s) e1) in *.
  assert (wf [] [] (core w2)) as Hwf2.
  { rewrite Hw2. apply (wf_put [] [] [] (core w1) a e1); auto.
    - exact (proj1 Hv1).
    - apply (view_lock _ _ _ _ _ Hwf1 Hv1).
    - intros Hl Hx. apply (ew_status _ _ _ _ _ (wf_entry _ _ _ Hwf1 _ _ (proj1 Hv1)) Hl Hx). }
  destruct (put_like [] [] (core w1) (core w2) a e1 e2) as [Hvw Hsub]; auto.
  { by unfold same_lock. }
  { intros b Hne. rewrite Hw2. simpl. by rewrite lookup_insert_ne. }
  { rewrite Hw2. simpl. by rewrite lookup_insert_eq. }
  { by rewrite Hw2. }
  apply wp_bind, wp_ret. wp_silent. wp_silent. apply silent_bk_add_tail. intros [] w5 Hw5.
  assert (core w5 = core w2) as Hcore by congruence. rewrite Hcore.
  split; [split; [done|]|split].
  - intros Hcf. eapply conflict_free_subsumed; [|exact Hsub]. auto.
  - eapply keeps_trans; [exact Hkp1|]. intros b eb x Hvb Hg Hx. destruct (decide (b = a)) as [->|Hne].
    + assert (eb = e1) as -> by (destruct Hvb, Hv1; congruence).
      exists a, e2. split; [apply Hvw; by left|]. do 2 (split; [done|]).
      split; [exact (view_owner _ _ _ _ _ Hwf1 Hv1)|done].
    + exists b, eb. split; [apply Hvw; by right|]. do 2 (split; [done|]).
      split; [exact (view_owner _ _ _ _ _ Hwf1 Hvb)|done].
  - exists e2. split; [apply Hvw; by left|]. done.
Qed.

(** *** A new lock *)

(** The outcome of a lock request. *)
Record lock_post (obj owner : positive) (lock : fsal_lock_param_t) (status : state_status_t)
    (t t' : table) : Prop := {
  lp_wf : wf [] [] t';
  lp_keeps : keeps t t';
  lp_held : status = STATE_SUCCESS -> exists b e, view [] t' b e /\ granted e /\ sle_obj e = obj /\
    same_owner (sle_owner e) (Some owner) /\ lock_type (sle_lock e) = lock_type lock /\
    forall x, covers lock x -> covers (sle_lock e) x;
  lp_refused : status <> STATE_SUCCESS ->
    (forall b e, view [] t b e -> view [] t' b e) /\
    (forall b e, view [] t' b e -> view [] t b e \/
       status = STATE_LOCK_BLOCKED /\ sle_blocked e = STATE_NLM_BLOCKING);
  lp_cf : fso_lock_support_async_block = false -> lock_reclaim lock = false ->
    conflict_free [] t -> conflict_free [] t'
}.

Lemma lock_post_same obj owner lock status t :
  wf [] [] t -> status <> STATE_SUCCESS -> lock_post obj owner lock status t t.
Proof. intros Hwf Hs. constructor; auto; [by eapply keeps_views|done]. Qed.

(** Changes that leave the linked entries alone. *)
Lemma lock_post_views obj owner lock status t t' :
  wf [] [] t -> wf [] [] t' -> status <> STATE_SUCCESS ->
  (forall b e, view [] t' b e <-> view [] t b e) -> lock_post obj owner lock status t t'.
Proof.
  intros Hwf Hwf' Hs Hv. constructor; auto; [| done | |].
  - eapply keeps_views; [exact Hwf|]. intros. by apply Hv.
  - intros _. split; intros; [by apply Hv|left; by apply Hv].
  - intros _ _ Hcf. eapply conflict_free_subsumed; [exact Hcf|]. eapply subsumed_views; [exact Hwf|].
    intros. by apply Hv.
Qed.

Lemma wf_block X L t a e :
  wf X L t -> t_heap t !! a = Some e -> is_Some (sle_block_data e) ->
  wf X L (t_set_blocked (t_blocked t ++ [a]) t).
Proof.
  intros [] Ha Hbd. constructor; auto.
  - intros b eb Hb. destruct (wf_entry _ _ Hb). constructor; auto.
  - simpl. intros b [Hb| ->%list_elem_of_singleton]%elem_of_app; eauto.
Qed.

(** The lock entry was created but not granted: it is discarded. *)
Lemma wp_discard_new obj owner lock status n e0 (w w1 : lock_world F) :
  wf [] [] (core w) -> status <> STATE_SUCCESS -> wf [] [n] (core w1) -> t_heap (core w) !! n = None ->
  (forall b e, view [n] (core w1) b e <-> (b = n /\ e = e0) \/ view [] (core w) b e) ->
  wp (remove_from_locklist n) (fun _ w' => lock_post obj owner lock status (core w) (core w')) w1.
Proof.
  intros Hwf Hs Hwf1 Hn Hv1. assert (view [n] (core w1) n e0) as Hvn by (apply Hv1; by left).
  assert (remove_id n [n] = []) as Hrm.
  { unfold remove_id. rewrite filter_cons_False by tauto. done. }
  eapply wp_remove_from_locklist; [done..|]. intros w2 Hwf2 Hw2.
  pose proof (fun b e => view_remove _ _ _ _ _ b e Hwf1 Hvn) as Hvr. rewrite Hrm in *.
  apply lock_post_views; [done..|]. intros b e. rewrite Hw2, Hvr, Hv1.
  destruct (decide (b = n)) as [->|Hne]; [|naive_solver].
  split; [naive_solver|]. intros [Hb _]. congruence.
Qed.

(** The lock entry is queued as a blocked lock. *)
Lemma wp_queue_new obj owner lock n e0 bd t (w : lock_world F) (w1 : lock_world F) :
  wf [] [] (core w) -> wf [] [n] (core w1) -> t_heap (core w) !! n = None ->
  (forall b e, view [n] (core w1) b e <-> (b = n /\ e = e0) \/ view [] (core w) b e) ->
  sle_obj e0 = obj -> cookie_of e0 = None -> nlm_owner (sle_owner e0) -> lock_ok (sle_lock e0) ->
  sbd_blocked_cookie bd = None ->
  wp (upd_entry n (fun e => set_blocked STATE_NLM_BLOCKING (set_block_data (Some (set_block_type t bd)) e));;
      file_add_tail obj n;; modify (upd_blocked (fun l => l ++ [n])))
    (fun _ w' => lock_post obj owner lock STATE_LOCK_BLOCKED (core w) (core w')) w1.
Proof.
  intros Hwf Hwf1 Hn Hv1 Ho Hc Hnlm Hlk Hck.
  assert (view [n] (core w1) n e0) as Hvn by (apply Hv1; by left).
  apply wp_bind. eapply wp_upd_entry; [exact (proj1 Hvn)|]. intros w2 Hw2.
  set (e2 := set_blocked _ _) in Hw2.
  assert (cookie_of e2 = None) as Hc2 by done.
  assert (wf [] [n] (core w2)) as Hwf2.
  { rewrite Hw2. apply (wf_put [] [] [n] (core w1) n e0); auto.
    - exact (proj1 Hvn).
    - by rewrite Hc2.
    - intros _ _. unfold status_ok. simpl. split; [eauto|]. split; [done|done].
    - destruct Hvn. tauto. }
  assert (forall b e, view [n] (core w2) b e <-> (b = n /\ e = e2) \/ view [] (core w) b e) as Hv2.
  { intros b e. rewrite Hw2, (view_put _ _ _ e0), Hv1; [|exact (proj1 Hvn)|done].
    destruct (decide (b = n)) as [->|Hne]; [|naive_solver].
    assert (forall e', view [] (core w) n e' -> False) by (intros e' [? _]; congruence).
    destruct Hvn. naive_solver. }
  apply wp_bind, wp_file_add_tail. intros w3 Hw3.
  assert (forall a, a ∈ [n] -> exists e, t_heap (core w2) !! a = Some e /\ sle_obj e = obj) as Hnobj.
  { intros a ->%list_elem_of_singleton. exists e2. split; [|done].
    rewrite Hw2. simpl. by rewrite lookup_insert_eq. }
  assert (wf [] [] (core w3)) as Hwf3 by (rewrite Hw3; by apply (wf_append [] [n] [])).
  assert (forall b e, view [] (core w3) b e <-> (b = n /\ e = e2) \/ view [] (core w) b e) as Hv3.
  { intros b e. rewrite Hw3, (view_append [] [n] []) by done. apply Hv2. }
  apply wp_modify. set (w4 := upd_blocked _ w3).
  assert (core w4 = t_set_blocked (t_blocked (core w3) ++ [n]) (core w3)) as Ht4 by done.
  set (t4 := core w4) in *.
  assert (forall b e, view [] t4 b e <-> (b = n /\ e = e2) \/ view [] (core w) b e) as Hv4.
  { intros b e. rewrite Ht4. apply Hv3. }
  constructor; auto.
  - rewrite Ht4. eapply wf_block; [done| |].
    + rewrite Hw3, Hw2. simpl. by rewrite lookup_insert_eq.
    + simpl. eauto.
  - eapply keeps_views; [exact Hwf|]. intros. apply Hv4. by right.
  - done.
  - intros _. split; [intros; apply Hv4; by right|]. intros b e [[-> ->]|?]%Hv4; [by right|by left].
  - intros _ _ Hcf. eapply conflict_free_subsumed; [exact Hcf|]. eapply subsumed_views; [exact Hwf|].
    intros b e [[-> ->]|?]%Hv4 Hact; [|done]. by destruct Hact.
Qed.

(** The lock entry is granted: merged, linked, and blocked locks are tried. *)
Lemma wp_grant_new ctx obj owner lock n e0 (w w1 : lock_world F) :
  wf [] [] (core w) -> wf [] [n] (core w1) -> t_heap (core w) !! n = None ->
  (forall b e, view [n] (core w1) b e <-> (b = n /\ e = e0) \/ view [] (core w) b e) ->
  sle_obj e0 = obj -> granted e0 -> sle_owner e0 = Some owner -> sle_lock e0 = lock ->
  (fso_lock_support_async_block = false -> lock_reclaim lock = false ->
     scan_clear (core w) (t_list obj (core w)) owner lock) ->
  wp (merge_lock_entry obj n;; file_add_tail obj n;; grant_blocked_locks ctx obj)
    (fun _ w' => lock_post obj owner lock STATE_SUCCESS (core w) (core w')) w1.
Proof using Hsubmit.
  intros Hwf Hwf1 Hn Hv1 Ho Hg Hown Hlock Hclear.
  assert (view [n] (core w1) n e0) as Hvn by (apply Hv1; by left).
  apply wp_bind. eapply wp_mono; [by apply (wp_merge_lock_entry [] [n] obj n e0)|].
  intros _ w2 (Hwf2 & Hmr & e2 & Hvn2 & (l & -> & Hty & Hs & He) & _).
  set (e2 := set_lock l e0) in *.
  apply wp_bind, wp_file_add_tail. intros w3 Hw3.
  assert (forall a, a ∈ [n] -> exists e, t_heap (core w2) !! a = Some e /\ sle_obj e = obj) as Hnobj.
  { intros a ->%list_elem_of_singleton. exists e2. split; [exact (proj1 Hvn2)|done]. }
  assert (wf [] [] (core w3)) as Hwf3 by (rewrite Hw3; by apply (wf_append [] [n] [])).
  assert (forall b e, view [] (core w3) b e <-> view [n] (core w2) b e) as Hv3
    by (intros b e; rewrite Hw3; by apply (view_append [] [n] [])).
  eapply wp_mono; [apply (wp_grant_blocked_locks Hsubmit [])|]; [done| |].
  { intros b eb Hbn. by apply elem_of_nil in Hbn. }
  intros _ w4 (Hwf4 & Hgr). constructor; auto.
  - eapply (keeps_in_trans _ _ [n] (core w1)).
    { eapply keeps_in_views; [exact Hwf|]. intros b e Hv _. apply Hv1. by right. }
    eapply keeps_in_trans; [by eapply keeps_in_merge|].
    eapply (keeps_in_trans _ _ [] (core w3)); [|by eapply keeps_grant].
    eapply keeps_in_views; [exact Hwf2|]. intros b e Hv _. by apply Hv3.
  - intros _. exists n, e2. split; [|split; [done|split; [done|]]].
    + apply (gr_keep _ _ Hgr); [by apply Hv3|]. simpl. unfold granted in Hg. congruence.
    + simpl. rewrite Hown. split; [apply same_owner_refl|]. split; [congruence|].
      intros x. unfold covers. rewrite Hlock in *. simpl. lia.
  - intros Hns. done.
  - intros Hasy Hrec Hcf. apply (gr_cf _ _ Hgr).
    eapply (conflict_free_subsumed [n] (core w2)).
    2:{ eapply subsumed_views; [exact Hwf2|]. intros b e Hv _. by apply Hv3. }
    eapply conflict_free_subsumed; [|exact (mr_sub _ _ _ _ _ _ Hmr)].
    specialize (Hclear Hasy Hrec).
    assert (forall b e, view [] (core w) b e -> compatible e e0) as Hnew.
    { intros b e [Hb Hl] Hob Hact _ Hso x Hx Hx'. destruct Hl as [Hl|Hl]; [|by apply elem_of_nil in Hl].
      rewrite Hlock in *. rewrite Hob, Ho in Hl. rewrite Hown in Hso. by apply (Hclear b e Hl Hb Hso x). }
    intros b e c ec [[-> ->]|Hb]%Hv1 [[-> ->]|Hc]%Hv1.
    + intros _ _ _ Hso. exfalso. apply Hso. rewrite Hown. apply same_owner_refl.
    + apply compatible_sym. eauto.
    + eauto.
    + by apply (Hcf b e c ec).
Qed.

(** What a caller of [state_lock] provides: an NLM owner and fresh block data
    for a blocking request. *)
Definition request_ok (owner : positive) (blocking : state_blocking_t)
    (bdata : option state_block_data_t) : Prop :=
  owner_ok owner /\
  (blocking = STATE_NLM_BLOCKING -> nlm_owner (Some owner) /\
     exists bd, bdata = Some bd /\ sbd_blocked_cookie bd = None).

Lemma wp_state_lock_new ctx obj owner state blocking bdata lock allow cf0 (w : lock_world F) :
  wf [] [] (core w) -> lock_ok lock -> request_ok owner blocking bdata ->
  (allow = false -> blocking = STATE_NLM_BLOCKING) ->
  (allow = true -> lock_reclaim lock = false ->
     scan_clear (core w) (t_list obj (core w)) owner lock) ->
  wp (state_lock_new ctx obj owner state blocking bdata lock allow cf0) (fun r w' =>
    lock_post obj owner lock (fst (fst r)) (core w) (core w')) w.
Proof using Hsubmit.
  intros Hwf Hlk [Hok Hreq] Hblk Hclear. unfold state_lock_new.
  apply wp_bind, wp_create. intros w1 Hw1.
  set (n := t_next (core w)) in *. set (e0 := new_entry _ _ _ _ _ _) in Hw1.
  assert (t_heap (core w) !! n = None) as Hn by by eapply wf_fresh_heap.
  assert (wf [] [n] (core w1)) as Hwf1 by (rewrite Hw1; by eapply wf_create).
  assert (forall b e, view [n] (core w1) b e <-> (b = n /\ e = e0) \/ view [] (core w) b e) as Hv1
    by (intros b e; rewrite Hw1; by eapply view_create).
  apply wp_bind.
  set (op := if decide (blocking = STATE_NLM_BLOCKING) then FSAL_OP_LOCKB else FSAL_OP_LOCK).
  assert (wp (if allow || fso_lock_support_async_block
     then do_lock_op ctx obj state op (Some owner) lock allow
     else mret (STATE_LOCK_BLOCKED, None)) (fun r w' => core w' = core w1 /\
       (fst r = STATE_LOCK_BLOCKED -> blocking = STATE_NLM_BLOCKING) /\
       (fst r = STATE_SUCCESS -> fso_lock_support_async_block = false -> allow = true)) w1) as Hop.
  { destruct (allow || fso_lock_support_async_block) eqn:Ha.
    - apply wp_do_lock_op; [done|]. intros st cf w' Hw' (Hb & _). split; [done|]. split.
      + intros Hst. apply Hb in Hst. unfold op in Hst. by case_decide.
      + intros _ Hasy. rewrite Hasy, orb_false_r in Ha. done.
    - apply orb_false_iff in Ha as [-> _]. apply wp_ret. split; [done|]. split; [auto|done]. }
  eapply wp_mono; [exact Hop|]. intros [status cf] w2 (Hw2 & Hbk & Hal). simpl in Hbk, Hal.
  rewrite <- Hw2 in Hwf1, Hv1.
  assert (status <> STATE_SUCCESS -> status <> STATE_LOCK_BLOCKED ->
    wp (remove_from_locklist n;;
        mret (status, match cf with Some _ => cf | None => cf0 end, bdata)) (fun r w' =>
      lock_post obj owner lock (fst (fst r)) (core w) (core w')) w2) as Hdisc.
  { intros Hs1 Hs2. apply wp_bind.
    eapply wp_mono; [by apply (wp_discard_new obj owner lock status n e0 w w2)|].
    intros [] w3 Hp. by apply wp_ret. }
  destruct status; try (by apply Hdisc).
  - assert (wp (merge_lock_entry obj n;; file_add_tail obj n;; grant_blocked_locks ctx obj)
      (fun _ w' => lock_post obj owner lock STATE_SUCCESS (core w) (core w')) w2) as Hgn.
    { apply (wp_grant_new ctx obj owner lock n e0 w w2); auto. done. }
    apply wp_bind. apply wp_bind_inv in Hgn. eapply wp_mono; [exact Hgn|]. intros [] w3 Hg3.
    apply wp_bind. apply wp_bind_inv in Hg3. eapply wp_mono; [exact Hg3|]. intros [] w4 Hg4.
    apply wp_bind. eapply wp_mono; [exact Hg4|]. intros [] w5 Hp. by apply wp_ret.
  - specialize (Hbk eq_refl). destruct (Hreq Hbk) as (Hnlm & bd & -> & Hck). rewrite Hbk.
    apply wp_bind, wp_ret.
    assert (wp (upd_entry n (fun e => set_blocked STATE_NLM_BLOCKING (set_block_data (Some (set_block_type
          (if fso_lock_support_async_block then STATE_BLOCK_ASYNC
           else if allow then STATE_BLOCK_POLL else STATE_BLOCK_INTERNAL) bd)) e));;
      file_add_tail obj n;; modify (upd_blocked (fun l => l ++ [n])))
      (fun _ w' => lock_post obj owner lock STATE_LOCK_BLOCKED (core w) (core w')) w2) as Hqn.
    { apply (wp_queue_new obj owner lock n e0 bd _ w w2); auto. }
    apply wp_bind. apply wp_bind_inv in Hqn. eapply wp_mono; [exact Hqn|]. intros [] w3 Hq3.
    apply wp_bind. apply wp_bind_inv in Hq3. eapply wp_mono; [exact Hq3|]. intros [] w4 Hq4.
    apply wp_bind. eapply wp_mono; [exact Hq4|]. intros [] w5 Hp. by apply wp_ret.
Qed.

Lemma wp_copy_conflict a e (Q : conflict_t -> lock_world F -> Prop) w :
  wf [] [] (core w) -> view [] (core w) a e ->
  (forall cf w', core w' = core w -> Q cf w') -> wp (copy_conflict a) Q w.
Proof.
  intros Hwf Hv HQ. destruct (ew_owner _ _ _ _ _ (wf_entry _ _ _ Hwf _ _ (proj1 Hv)) (proj2 Hv)) as (o & Ho & _).
  unfold copy_conflict. apply wp_bind. eapply wp_get_entry; [exact (proj1 Hv)|].
  rewrite Ho. apply wp_bind, wp_ret. wp_silent. by apply wp_ret, HQ.
Qed.

(** [state_lock] as a whole. *)
Lemma wp_state_lock ctx obj owner s blocking bdata lock (w : lock_world F) :
  wf [] [] (core w) -> lock_ok lock -> request_ok owner blocking bdata ->
  wp (state_lock ctx obj owner (Some s) blocking bdata lock) (fun r w' =>
    lock_post obj owner lock (fst (fst r)) (core w) (core w')) w.
Proof using Hsubmit.
  intros Hwf Hlk Hreq. unfold state_lock. apply wp_bind, wp_gets. rewrite core_list.
  assert (forall a, a ∈ t_list obj (core w) -> exists e, view [] (core w) a e /\ sle_obj e = obj) as Hl
    by (intros a Ha; by eapply wf_on_list).
  apply wp_bind.
  assert (wp (if decide (blocking <> STATE_NON_BLOCKING)
     then state_lock_find_blocked ctx (t_list obj (core w)) owner blocking lock
     else mret None) (fun early w' => w' = w /\ early <> Some STATE_SUCCESS) w) as Hearly.
  { case_decide; [|by apply wp_ret]. apply wp_state_lock_find_blocked; try done.
    intros a Ha. destruct (Hl a Ha) as (e & [? _] & _). eauto. }
  eapply wp_mono; [exact Hearly|]. clear Hearly. intros early w' [-> Hne].
  destruct early as [status|]; [apply wp_ret; apply lock_post_same; [done|simpl; congruence]|].
  apply wp_bind, wp_state_lock_scan; auto.
  - intros a Ha. destruct (Hl a Ha) as (e & ? & _). eauto.
  - apply wp_ret. by apply lock_post_same.
  - intros a Ha. destruct (Hl a Ha) as (e & Hv & _). apply wp_bind.
    assert (wp (if decide (blocking <> STATE_NLM_BLOCKING) then copy_conflict a else mret None)
      (fun _ w' => core w' = core w) w) as Hcp.
    { case_decide; [|by apply wp_ret]. by apply (wp_copy_conflict a e). }
    eapply wp_mono; [exact Hcp|]. clear Hcp. intros cf w1 Hw1. rewrite <- Hw1 in *. case_decide as Hb.
    + by apply wp_state_lock_new.
    + apply wp_ret. by apply lock_post_same.
  - intros a e Ha Hv Hact Hso Hty Hcov. destruct (Hl a Ha) as (e' & Hv' & Ho).
    assert (e' = e) as -> by (destruct Hv, Hv'; congruence).
    apply wp_bind. eapply wp_mono; [by apply wp_state_lock_existing|].
    intros [] w1 ((Hwf1 & Hcf1) & Hkp & e1 & Hv1 & (Hg1 & Ho1 & Hw1 & Ht1 & Hc1)). apply wp_ret.
    constructor; auto; [|done]. intros _. exists a, e1. rewrite Hw1. split; [done|].
    split; [done|]. split; [congruence|]. split; [done|]. split; [congruence|auto].
  - intros Hclear. by apply wp_state_lock_new.
Qed.

End locking.

(** ** The remaining operations *)
Section others.
Context `{OwnerMem} {F : Type} `{!Env F}.
Implicit Types w : lock_world F.
Context (Hsubmit : forall s : F, fst (fridgethr_submit s) = 0).

(** [state_test] changes no lock and reports a conflict exactly when some active
    lock of another owner conflicts, or the FSAL says so. *)
Lemma wp_state_test ctx obj state owner lock (w : lock_world F) :
  wf [] [] (core w) -> lock_ok lock -> owner_ok owner ->
  wp (state_test ctx obj state owner lock) (fun r w' => core w' = core w /\
    ((exists a e, view [] (core w) a e /\ sle_obj e = obj /\ conflicts_with (Some owner) lock e) ->
     exists a e, view [] (core w) a e /\ sle_obj e = obj /\ conflicts_with (Some owner) lock e /\
       exists o, sle_owner e = Some o /\ r = (STATE_LOCK_CONFLICT, Some (o, sle_lock e))) /\
    (fso_lock_support = false -> fst r = STATE_LOCK_CONFLICT <->
       exists a e, view [] (core w) a e /\ sle_obj e = obj /\ conflicts_with (Some owner) lock e)) w.
Proof.
  intros Hwf Hlk Hok. unfold state_test. apply wp_bind.
  eapply (wp_get_overlapping_entry [] []); [done|done| |].
  - intros l1 a l2 e _ Hv Ho Hc _. apply wp_bind.
    destruct (ew_owner _ _ _ _ _ (wf_entry _ _ _ Hwf _ _ (proj1 Hv)) (proj2 Hv)) as (o & Hown & _).
    unfold copy_conflict. apply wp_bind. eapply wp_get_entry; [exact (proj1 Hv)|].
    rewrite Hown. apply wp_bind, wp_ret. wp_silent. apply wp_ret, wp_ret.
    split; [done|]. split; [|naive_solver]. intros _. exists a, e. eauto 10.
  - intros Hno. apply wp_do_lock_op; [done|]. intros st cf w' Hw' (_ & _ & Hs).
    assert (~ exists a e, view [] (core w) a e /\ sle_obj e = obj /\ conflicts_with (Some owner) lock e) as Hnone.
    { intros (a & e & [Ha [Hl|Hl]] & Ho & Hc); [|by apply elem_of_nil in Hl].
      rewrite Ho in Hl. by apply (Hno a e). }
    split; [done|]. split; [done|]. intros Hsup. simpl. rewrite (Hs Hsup). split; [done|]. intros He. done.
Qed.

Lemma wp_nlm4_Granted_Res cl key granted_ (w : lock_world F) :
  wf [] [] (core w) ->
  wp (nlm4_Granted_Res cl key granted_)
    (fun _ w' => safe_step (core w) (core w') /\ keeps (core w) (core w')) w.
Proof using Hsubmit.
  intros Hwf. unfold nlm4_Granted_Res. apply wp_bind.
  eapply (wp_state_find_grant [] []); [done| |].
  { intros _. apply wp_ret. split; [done|by eapply keeps_views]. }
  intros c k w1 _ Hk _ Hw1 Hwf1 _.
  assert (t_cookies (core w1) !! c = Some k) as Hk1 by by rewrite Hw1.
  destruct (wf_cookie_entry _ _ _ _ _ Hwf1 Hk1) as (e & He & Hce & _).
  apply wp_bind. eapply wp_get_cookie; [done|]. apply wp_bind. eapply wp_get_entry; [done|].
  assert (is_Some (sle_block_data e)) as Hbd.
  { unfold cookie_of in Hce. destruct (sle_block_data e); [eauto|done]. }
  rewrite bool_decide_eq_true_2 by done. simpl. wp_silent. rename H0 into Hw2.
  assert (forall t', safe_step (core w1) t' /\ keeps (core w1) t' ->
    safe_step (core w) t' /\ keeps (core w) t') as Htr by by rewrite Hw1.
  rewrite <- Hw2 in *. destruct (negb granted_ || _).
  - apply wp_bind. eapply wp_mono; [by apply (wp_state_release_grant Hsubmit _ c k)|].
    intros st w3 Hp. apply wp_ret. by apply Htr.
  - eapply wp_mono; [by apply (wp_state_complete_grant Hsubmit _ c k)|]. intros [] w3 [Hp _]. by apply Htr.
Qed.

Lemma wp_nlm4_send_grant_msg key cl rpc_ok (w : lock_world F) :
  wf [] [] (core w) ->
  wp (nlm4_send_grant_msg key cl rpc_ok)
    (fun _ w' => safe_step (core w) (core w') /\ keeps (core w) (core w')) w.
Proof using Hsubmit.
  intros Hwf. unfold nlm4_send_grant_msg. wp_silent. rename H0 into Hw0. rewrite <- Hw0 in *.
  apply wp_mwhen; intros _; [|by split; [|eapply keeps_views]]. apply wp_bind.
  eapply (wp_state_find_grant [] []); [done| |].
  { intros _. apply wp_ret. split; [done|by eapply keeps_views]. }
  intros c k w1 _ Hk _ Hw1 Hwf1 _.
  assert (t_cookies (core w1) !! c = Some k) as Hk1 by by rewrite Hw1.
  destruct (wf_cookie_entry _ _ _ _ _ Hwf1 Hk1) as (e & He & Hce & _).
  apply wp_bind. eapply wp_get_cookie; [done|]. apply wp_bind. eapply wp_get_entry; [done|].
  assert (is_Some (sle_block_data e)) as Hbd.
  { unfold cookie_of in Hce. destruct (sle_block_data e); [eauto|done]. }
  rewrite bool_decide_eq_true_2 by done. simpl. wp_silent. rename H0 into Hw2.
  assert (forall t', safe_step (core w1) t' /\ keeps (core w1) t' ->
    safe_step (core w') t' /\ keeps (core w') t') as Htr by by rewrite Hw1.
  rewrite <- Hw2 in *. apply wp_bind.
  eapply wp_mono; [by apply (wp_state_release_grant Hsubmit _ c k)|].
  intros st w3 Hp. apply silent_bk_ref. intros [] w4 Hw4. rewrite Hw4. by apply Htr.
Qed.

Lemma wp_state_lock_wipe obj (w : lock_world F) :
  wf [] [] (core w) ->
  wp (state_lock_wipe obj) (fun _ w' => safe_step (core w) (core w') /\
    forall b e, view [] (core w') b e <-> view [] (core w) b e /\ sle_obj e <> obj) w.
Proof.
  intros Hwf. unfold state_lock_wipe. apply wp_bind, wp_gets. rewrite core_list.
  apply (wp_free_list [] []); [done|eauto with gsh| |].
  { intros a Ha. destruct (wf_on_list _ _ _ _ _ Hwf Ha) as (e & ? & _). eauto. }
  intros w' Hwf' Hv' _ _. assert (drop_ids (t_list obj (core w)) [] = []) as Hnil by done.
  rewrite Hnil in *.
  assert (forall b e, view [] (core w') b e <-> view [] (core w) b e /\ sle_obj e <> obj) as Hv.
  { intros b e. rewrite Hv'. split; intros [Hvb Hn]; (split; [done|]).
    - intros Ho. apply Hn. destruct Hvb as [_ [Hl|Hl]]; [by rewrite Ho in Hl|by apply elem_of_nil in Hl].
    - intros Hl. destruct (wf_on_list _ _ _ _ _ Hwf Hl) as (e' & [He' _] & Ho).
      assert (e' = e) as -> by (destruct Hvb; congruence). done. }
  split; [split; [done|]|done]. intros Hcf. eapply conflict_free_subsumed; [exact Hcf|].
  eapply subsumed_views; [exact Hwf|]. intros b e Hvb _. by apply Hv in Hvb as [? _].
Qed.

(** *** Scheduling *)

Lemma wf_schedule X L t a e e' :
  wf X L t -> t_heap t !! a = Some e -> same_lock e e' -> sle_blocked e' = sle_blocked e ->
  cookie_of e' = cookie_of e -> (is_Some (sle_block_data e) -> is_Some (sle_block_data e')) ->
  sle_ref_count e' = sle_ref_count e + 1 ->
  wf X L (t_put a e' (t_set_sched (t_sched t ++ [a]) t)).
Proof.
  intros Hwf Ha Hsl Hb Hc Hbd Hr. pose proof Hsl as (Ho & Hw & _). pose proof Hwf as [].
  constructor; simpl; auto.
  - intros obj b Hbl. destruct (wf_list _ _ Hbl) as (? & eb & Heb & Hob). split; [done|].
    destruct (decide (b = a)) as [->|Hne].
    + exists e'. rewrite lookup_insert_eq. split; [done|]. congruence.
    + exists eb. by rewrite lookup_insert_ne.
  - intros b Hbl. rewrite lookup_insert_is_Some. destruct (decide (a = b)); auto.
  - intros b eb. destruct (decide (b = a)) as [->|Hne].
    + rewrite lookup_insert_eq. intros [= <-]. destruct (wf_entry _ _ Ha).
      assert (linked L (t_put a e' (t_set_sched (t_sched t ++ [a]) t)) a e' <-> linked L t a e) as Hl
        by (unfold linked; simpl; rewrite Ho; done).
      constructor; simpl; rewrite ?Hc, ?Ho, ?Hw, ?Hb; auto.
      * rewrite Hr, ew_refs, count_id_app.
        match goal with |- _ = Z.b2z (bool_decide ?P) + _ + _ =>
          assert (bool_decide P = bool_decide (linked L t a e)) as -> by by apply bool_decide_ext end.
        unfold count_id at 3. rewrite filter_cons_True by done. simpl. lia.
      * intros Hx. specialize (ew_pos Hx). lia.
      * rewrite Hl. auto.
      * rewrite Hl. intros Hl' Hx. specialize (ew_status Hl' Hx). unfold status_ok in *.
        rewrite Hb, Hc, Hw. destruct (sle_blocked e); naive_solver.
      * rewrite Hl. auto.
      * by eapply same_lock_ok.
    + rewrite lookup_insert_ne by done. intros Heb. destruct (wf_entry _ _ Heb).
      constructor; simpl; auto. rewrite ew_refs, count_id_app. unfold count_id at 3.
      rewrite filter_cons_False by done. simpl. rewrite Nat.add_0_r. done.
  - intros c k Hk. destruct (wf_cookie _ _ Hk) as (? & Hn & ? & ec & Hec & Hcc).
    rewrite (lookup_insert_ne _ a c) by congruence. do 3 (split; [done|]).
    destruct (decide (a = sce_lock_entry k)) as [Heq|Hne].
    + exists e'. rewrite <- Heq, lookup_insert_eq. split; [done|]. congruence.
    + exists ec. by rewrite lookup_insert_ne.
  - intros b Hbl. destruct (wf_blocked _ Hbl) as (eb & Heb & ?).
    destruct (decide (b = a)) as [->|Hne].
    + exists e'. rewrite lookup_insert_eq. split; [done|]. apply Hbd. congruence.
    + exists eb. by rewrite lookup_insert_ne.
  - intros b [Hbl| ->%list_elem_of_singleton]%elem_of_app; rewrite lookup_insert_is_Some;
      [destruct (decide (a = b))|]; auto.
Qed.

(** Locks and their states are as before. *)
Definition same_locks (t t' : table) : Prop :=
  t_files t' = t_files t /\ t_blocked t' = t_blocked t /\
  forall b, match t_heap t !! b, t_heap t' !! b with
    | Some e, Some e' => same_lock e e' /\ sle_blocked e' = sle_blocked e /\
        (is_Some (sle_block_data e) -> is_Some (sle_block_data e'))
    | None, None => True
    | _, _ => False
    end.

Lemma same_locks_refl t : same_locks t t.
Proof. split; [done|]. split; [done|]. intros b. destruct (t_heap t !! b); auto using same_lock_refl. Qed.

Lemma same_locks_trans t t' t'' : same_locks t t' -> same_locks t' t'' -> same_locks t t''.
Proof.
  intros (F1 & B1 & H1) (F2 & B2 & H2). split; [congruence|]. split; [congruence|].
  intros b. specialize (H1 b). specialize (H2 b).
  destruct (t_heap t !! b), (t_heap t' !! b), (t_heap t'' !! b); try done.
  destruct H1 as (? & ? & ?), H2 as (? & ? & ?). split; [by eapply same_lock_trans|].
  split; [congruence|auto].
Qed.

Lemma same_locks_safe X t t' :
  wf X [] t -> same_locks t t' -> subsumed [] t [] t' /\ keeps t t'.
Proof.
  intros Hwf (Hf & _ & Hh).
  assert (forall b e e', same_lock e e' -> linked [] t b e <-> linked [] t' b e') as Hl.
  { intros b e e' (Ho & _). unfold linked, t_list. by rewrite Hf, Ho. }
  split.
  - intros b e' [Hb Hlk] Hact x Hx. specialize (Hh b). rewrite Hb in Hh.
    destruct (t_heap t !! b) as [e|] eqn:He; [|done]. destruct Hh as (Hsl & Hbl & _).
    assert (view [] t b e) as Hv by (split; [done|]; by apply (Hl b e e')).
    exists b, e. split; [done|]. split; [unfold active in *; by rewrite <- Hbl|].
    pose proof Hsl as (Ho & Hw & Hty & _). split; [done|].
    split; [rewrite Hw; by eapply view_owner|]. split; [done|]. by apply (same_lock_covers e e').
  - intros b e x [Hb Hlk] Hg Hx. specialize (Hh b). rewrite Hb in Hh.
    destruct (t_heap t' !! b) as [e'|] eqn:He; [|done]. destruct Hh as (Hsl & Hbl & _).
    exists b, e'. split; [split; [done|]; by apply (Hl b e e')|].
    pose proof Hsl as (Ho & Hw & Hty & _). split; [unfold granted in *; congruence|]. split; [done|].
    split; [rewrite Hw; by eapply (view_owner X [] t b e)|]. by apply (same_lock_covers e e').
Qed.

Lemma wp_schedule_grant g a e (w : lock_world F) :
  wf [] [] (core w) -> t_heap (core w) !! a = Some e -> is_Some (sle_block_data e) ->
  wp (schedule_grant g a) (fun _ w' => wf [] [] (core w') /\ same_locks (core w) (core w')) w.
Proof using Hsubmit.
  intros Hwf Ha [bd Hbd]. unfold schedule_grant. apply wp_bind. unfold upd_block_data.
  apply wp_bind. eapply wp_get_entry; [done|]. rewrite Hbd. apply wp_bind, wp_ret, wp_put_entry.
  intros w1 Hw1. set (e1 := set_block_data _ e) in Hw1. apply wp_bind.
  unfold state_block_schedule, wp at 1. destruct (fridgethr_submit (w_fsal w1)) as [rc s] eqn:Hrc.
  pose proof (Hsubmit (w_fsal w1)) as Hz. rewrite Hrc in Hz. simpl in Hz. subst rc. simpl.
  set (w2 := upd_sched _ _).
  assert (core w2 = t_put a e1 (t_set_sched (t_sched (core w) ++ [a]) (core w))) as Hw2.
  { unfold w2. autorewrite with core. rewrite Hw1. done. }
  unfold lock_entry_inc_ref. eapply wp_upd_entry; [rewrite Hw2; simpl; by rewrite lookup_insert_eq|].
  intros w3 Hw3. rewrite Hw2, t_put_put in Hw3. set (e3 := set_refcount _ e1) in Hw3.
  assert (cookie_of e3 = cookie_of e) as Hc by (unfold cookie_of, e3, e1; simpl; by rewrite Hbd).
  assert (same_lock e e3) as Hsl by by unfold same_lock.
  rewrite Hw3. split.
  - apply (wf_schedule [] [] (core w) a e); auto.
  - split; [done|]. split; [done|]. intros b. simpl. destruct (decide (b = a)) as [->|Hne].
    + rewrite lookup_insert_eq. rewrite core_heap. rewrite Ha. split; [done|]. split; [done|]. simpl. eauto.
    + rewrite lookup_insert_ne by done. destruct (w_heap w !! b); auto using same_lock_refl.
Qed.

Lemma wp_polling_from l (w : lock_world F) :
  wf [] [] (core w) ->
  (forall a, a ∈ l -> exists e, t_heap (core w) !! a = Some e /\ is_Some (sle_block_data e)) ->
  wp (polling_from l) (fun _ w' => wf [] [] (core w') /\ same_locks (core w) (core w')) w.
Proof using Hsubmit.
  revert w. induction l as [|a l IH]; intros w Hwf Hl; simpl.
  { apply wp_ret. split; [done|apply same_locks_refl]. }
  destruct (Hl a ltac:(left)) as (e & He & [bd Hbd]).
  apply wp_bind. eapply wp_get_entry; [done|]. rewrite Hbd. apply wp_bind, wp_ret, wp_bind.
  assert (wp (mwhen (bool_decide (sbd_block_type bd = STATE_BLOCK_POLL)) (schedule_grant STATE_GRANT_POLL a))
    (fun _ w' => wf [] [] (core w') /\ same_locks (core w) (core w')) w) as Hw.
  { apply wp_mwhen; intros _; [eapply wp_schedule_grant; eauto|auto using same_locks_refl]. }
  eapply wp_mono; [exact Hw|]. intros _ w1 (Hwf1 & Hs1). eapply wp_mono; [apply IH|].
  - done.
  - intros b Hb. destruct (Hl b) as (eb & Heb & Hbdb); [by right|].
    destruct Hs1 as (_ & _ & Hh). specialize (Hh b). rewrite Heb in Hh.
    destruct (t_heap (core w1) !! b) as [e'|]; [|done]. exists e'. split; [done|]. apply Hh. done.
  - intros _ w2 (Hwf2 & Hs2). split; [done|]. by eapply same_locks_trans.
Qed.

Lemma wp_blocked_lock_polling (w : lock_world F) :
  wf [] [] (core w) ->
  wp blocked_lock_polling (fun _ w' => wf [] [] (core w') /\ same_locks (core w) (core w')) w.
Proof using Hsubmit.
  intros Hwf. unfold blocked_lock_polling. apply wp_bind, wp_gets. apply wp_polling_from; [done|].
  apply (wf_blocked _ _ _ Hwf).
Qed.

Lemma wp_find_blocked_from l obj owner lock g (w : lock_world F) :
  wf [] [] (core w) ->
  (forall a, a ∈ l -> exists e, t_heap (core w) !! a = Some e /\ is_Some (sle_block_data e)) ->
  wp (find_blocked_from l obj owner lock g)
    (fun _ w' => wf [] [] (core w') /\ same_locks (core w) (core w')) w.
Proof using Hsubmit.
  intros Hwf. induction l as [|a l IH]; intros Hl; simpl.
  { apply wp_ret. split; [done|apply same_locks_refl]. }
  destruct (Hl a ltac:(left)) as (e & He & [bd Hbd]).
  assert (wp (find_blocked_from l obj owner lock g)
    (fun _ w' => wf [] [] (core w') /\ same_locks (core w) (core w')) w) as Hrec
    by (apply IH; intros b Hb; apply Hl; by right).
  apply wp_bind. eapply wp_get_entry; [done|]. rewrite Hbd. apply wp_bind, wp_ret.
  case_decide; [done|]. case_decide; [done|]. destruct (different_lock _ _); [done|].
  eapply wp_schedule_grant; eauto.
Qed.

Lemma wp_find_blocked_lock_upcall obj owner lock g (w : lock_world F) :
  wf [] [] (core w) ->
  wp (find_blocked_lock_upcall obj owner lock g)
    (fun _ w' => wf [] [] (core w') /\ same_locks (core w) (core w')) w.
Proof using Hsubmit.
  intros Hwf. unfold find_blocked_lock_upcall. apply wp_bind, wp_gets. apply wp_find_blocked_from; [done|].
  apply (wf_blocked _ _ _ Hwf).
Qed.

(** *** Attempts *)

(** An attempt that is done gives its reference back. *)
Lemma wf_unschedule X L t a e :
  wf X L t -> t_heap t !! a = Some e -> a ∈ t_sched t -> a ∉ X ->
  wf X L (t_dec a e (t_set_sched (remove_first a (t_sched t)) t)).
Proof.
  intros Hwf Ha Hin HaX. pose proof (wf_entry _ _ _ Hwf _ _ Ha) as Hew. apply wf_dec.
  - pose proof (count_id_remove_first a _ Hin) as Hcnt. destruct Hwf.
    assert (forall b eb, linked L (t_put a (set_refcount (sle_ref_count e - 1) e)
      (t_set_sched (remove_first a (t_sched t)) t)) b eb <-> linked L t b eb) as Hlk by done.
    assert (forall b, b ∉ a :: X -> b ∉ X) as Hsub by (intros b; rewrite not_elem_of_cons; tauto).
    constructor; simpl; auto.
    + intros obj b Hb. destruct (wf_list _ _ Hb) as (? & eb & Heb & Hob). split; [done|].
      destruct (decide (b = a)) as [->|Hne].
      * eexists. rewrite lookup_insert_eq. split; [done|]. simpl. congruence.
      * exists eb. by rewrite lookup_insert_ne.
    + intros b Hb. rewrite lookup_insert_is_Some. destruct (decide (a = b)); auto.
    + intros b eb. destruct (decide (b = a)) as [->|Hne].
      * rewrite lookup_insert_eq. intros [= <-]. destruct Hew. constructor; simpl; auto.
        -- change (sle_ref_count e - 1 = Z.b2z (bool_decide (linked L t a e)) +
             Z.b2z (bool_decide (is_Some (cookie_of e))) + Z.of_nat (count_id a (remove_first a (t_sched t)))).
           lia.
        -- intros Hn. destruct Hn. by left.
      * rewrite lookup_insert_ne by done. intros Heb. destruct (wf_entry _ _ Heb).
        constructor; simpl; auto. by rewrite count_id_remove_first_ne.
    + intros c k Hk. destruct (wf_cookie _ _ Hk) as (? & Hn & Hht & ec & Hec & Hcc).
      assert (c <> a) by congruence. rewrite (lookup_insert_ne _ a c) by congruence.
      do 2 (split; [done|]). split; [rewrite Hht, not_elem_of_cons; tauto|].
      destruct (decide (a = sce_lock_entry k)) as [Heq|Hne].
      * eexists. rewrite <- Heq, lookup_insert_eq. split; [done|].
        assert (ec = e) as -> by congruence. done.
      * exists ec. by rewrite lookup_insert_ne.
    + intros b Hb. destruct (wf_blocked _ Hb) as (eb & Heb & ?).
      destruct (decide (b = a)) as [->|Hne].
      * eexists. rewrite lookup_insert_eq. split; [done|]. simpl. congruence.
      * exists eb. by rewrite lookup_insert_ne.
    + intros b Hb%elem_of_remove_first. rewrite lookup_insert_is_Some. destruct (decide (a = b)); auto.
    + intros b [->|Hb]%elem_of_cons; [apply Hew|auto].
  - by apply Hew.
  - apply Hew.
Qed.

(** What an attempt may do: as [grant_blocked_locks], and the lock it is for may
    be granted, which is its only source of conflicts. *)
Definition attempt_rel (a : positive) (e : state_lock_entry_t) (t t' : table) : Prop :=
  (forall b eb, b <> a -> view [] t' b eb <-> view [] t b eb) /\
  (forall e', view [] t' a e' -> view [] t a e /\ same_lock e e' /\
     (sle_blocked e' = sle_blocked e \/ sle_blocked e = STATE_NLM_BLOCKING /\ sle_blocked e' = STATE_GRANTING)).

Lemma attempt_rel_cf X a e t t' :
  wf X [] t -> attempt_rel a e t t' ->
  (forall e', sle_blocked e = STATE_NLM_BLOCKING -> t_heap t' !! a = Some e' -> sle_blocked e' = STATE_GRANTING ->
     forall c ec, c ∈ t_list (sle_obj e) t -> t_heap t !! c = Some ec ->
       ~ conflicts_with (sle_owner e) (sle_lock e) ec) ->
  conflict_free [] t -> conflict_free [] t'.
Proof.
  intros Hwf (Hsame & Ha) Hno Hcf.
  destruct (decide (sle_blocked e = STATE_NLM_BLOCKING /\ (sle_blocked <$> t_heap t' !! a) = Some STATE_GRANTING))
    as [[Hb Hb']|Hng].
  - destruct (t_heap t' !! a) as [e'|] eqn:He'; [|done]. injection Hb' as Hb'.
    specialize (Hno e' Hb eq_refl Hb').
    destruct (decide (linked [] t' a e')) as [Hl'|Hnv].
    + assert (view [] t' a e') as Hv' by by split.
      destruct (Ha e' Hv') as (Hv & _). apply (granted_conflict_free X a e t t'); auto.
      intros e'' Hv''. by apply Ha.
    + eapply conflict_free_subsumed; [exact Hcf|]. eapply subsumed_views; [exact Hwf|].
      intros b eb Hvb _. apply Hsame; [|done]. intros ->. apply Hnv.
      assert (eb = e') as -> by (destruct Hvb; congruence). apply Hvb.
  - eapply conflict_free_subsumed; [exact Hcf|]. intros b eb Hvb Hact x Hx.
    destruct (decide (b = a)) as [->|Hne].
    + destruct (Ha eb Hvb) as (Hv & Hsl & [Hbl|[? Hbl]]).
      2:{ destruct Hng. split; [done|]. destruct Hvb as [-> _]. simpl. by rewrite Hbl. }
      pose proof Hsl as (Ho & Hw & Hty & _). exists a, e. split; [done|].
      split; [unfold active in *; by rewrite <- Hbl|]. split; [done|]. split; [|split].
      * rewrite Hw. by eapply view_owner.
      * done.
      * by apply (same_lock_covers e eb).
    + exists b, eb. apply Hsame in Hvb; [|done]. split; [done|]. split; [done|]. split; [done|].
      split; [by eapply view_owner|done].
Qed.

(** [try_to_grant_lock] on an entry that is not cancelled. *)
Lemma wp_attempt_grant ctx a e (w : lock_world F) :
  wf [] [] (core w) -> t_heap (core w) !! a = Some e -> sle_blocked e <> STATE_CANCELED ->
  wp (try_to_grant_lock ctx a) (fun _ w' => wf [] [] (core w') /\ attempt_rel a e (core w) (core w') /\
    t_sched (core w') = t_sched (core w)) w.
Proof using Hsubmit.
  intros Hwf Ha Hnc. pose proof (wf_entry _ _ _ Hwf _ _ Ha) as Hew.
  assert (attempt_rel a e (core w) (core w)) as Hrefl.
  { split; [done|]. intros e' Hv. assert (e' = e) as -> by (destruct Hv; congruence).
    split; [done|]. split; [apply same_lock_refl|by left]. }
  destruct (decide (sle_blocked e = STATE_NLM_BLOCKING)) as [Hb|Hb].
  - assert (linked [] (core w) a e) as Hl.
    { destruct (decide (linked [] (core w) a e)) as [|Hn]; [done|].
      destruct (ew_gone _ _ _ _ _ Hew Hn) as [_ [?|?]]; congruence. }
    eapply (wp_try_to_grant_lock Hsubmit [] []); [done|done|done|apply not_elem_of_nil..|].
    intros w' Hwf' (Hsame & Hg & _ & Hs). split; [done|]. split; [|done]. split; [done|].
    intros e' Hv'. destruct (Hg e' Hv') as [Hsl Hbl]. split; [done|]. split; [done|].
    rewrite Hb. destruct Hbl; auto.
  - unfold try_to_grant_lock. apply wp_bind. eapply wp_get_entry; [done|].
    destruct (sle_blocked e) eqn:Hbe; try done.
    exfalso. destruct (decide (linked [] (core w) a e)) as [Hl|Hn].
    + pose proof (ew_status _ _ _ _ _ Hew Hl (not_elem_of_nil _)) as Hs. unfold status_ok in Hs. by rewrite Hbe in Hs.
    + destruct (ew_gone _ _ _ _ _ Hew Hn) as [_ [?|?]]; congruence.
Qed.

(** The reference that goes with the attempt leaves the locks as they are. *)
Lemma attempt_rel_dec a e e1 t t1 l :
  t_heap t1 !! a = Some e1 -> (linked [] t1 a e1 -> sle_ref_count e1 <> 1) ->
  attempt_rel a e t t1 -> attempt_rel a e t (t_dec a e1 (t_set_sched l t1)).
Proof.
  intros Ha Hrc (Hsame & Hg). split.
  - intros b eb Hne. rewrite (view_dec [] _ a e1) by done. rewrite <- Hsame by done. done.
  - intros e' [He' Hlk]. unfold t_dec in He', Hlk. case_decide as Hone.
    { simpl in He'. by rewrite lookup_delete_eq in He'. }
    simpl in He'. rewrite lookup_insert_eq in He'. injection He' as <-.
    destruct (Hg e1) as (Hv & Hsl & Hb); [by split|]. split; [done|]. by split.
Qed.

Lemma wp_run_attempt a e (w : lock_world F) :
  wf [] [] (core w) -> a ∈ w_sched w -> t_heap (core w) !! a = Some e -> sle_blocked e <> STATE_CANCELED ->
  wp (run_attempt a) (fun _ w' => wf [] [] (core w') /\ attempt_rel a e (core w) (core w')) w.
Proof using Hsubmit.
  intros Hwf Hin Ha Hnc. unfold run_attempt, state_blocked_lock_caller. apply wp_bind, wp_bind.
  eapply wp_get_entry; [done|]. apply wp_bind.
  assert (forall n k (Q : unit -> lock_world F -> Prop) w1, (forall w2, core w2 = core w1 -> Q tt w2) ->
    wp (mwhen (export_ready (sle_export e)) (bk_ref k n)) Q w1) as Hbk.
  { intros n k Q w1 HQ. apply wp_mwhen; intros _; [|by apply HQ].
    apply silent_bk_ref. intros [] w2 Hw2. by apply HQ. }
  apply Hbk. intros w1 Hw1. apply wp_bind. unfold process_blocked_lock_upcall. apply wp_bind.
  rewrite <- Hw1 in Hwf, Ha |- *. assert (a ∈ t_sched (core w1)) as Hin1 by (by rewrite Hw1). clear Hin Hw1 w.
  eapply wp_mono; [by apply (wp_attempt_grant _ a e)|]. intros [] w2 (Hwf2 & Hrel & Hs2).
  rewrite <- Hs2 in Hin1. destruct (wf_sched _ _ _ Hwf2 a Hin1) as [e2 He2].
  pose proof (wf_entry _ _ _ Hwf2 _ _ He2) as Hew2. pose proof (count_id_pos _ _ Hin1) as Hpos.
  eapply wp_lock_entry_dec_ref; [exact He2|apply Hew2, not_elem_of_nil|]. intros w3 Hw3.
  apply Hbk. intros w4 Hw4. apply wp_modify.
  assert (core (upd_sched (remove_first a) w4) =
    t_dec a e2 (t_set_sched (remove_first a (t_sched (core w2))) (core w2))) as Hcore.
  { rewrite core_sched, Hw4, Hw3. unfold t_dec. by case_decide. }
  rewrite Hcore. split; [apply wf_unschedule; auto using not_elem_of_nil|].
  apply attempt_rel_dec; [done| |done]. intros Hl Hone.
  pose proof (ew_refs _ _ _ _ _ Hew2) as Hrefs.
  rewrite (bool_decide_eq_true_2 (linked _ _ _ _)) in Hrefs by done.
  destruct (bool_decide (is_Some _)); cbn [Z.b2z] in Hrefs; lia.
Qed.

End others.
