(* ===== verification/LockTheorems.v ===== *)
(** * Theorems about the lock manager

    The lock manager as a transition system of requests, its invariants, and the
    guarantees of each entry point, with concrete scenarios. *)
From S2P Require Import Prelude Status Owners LockTable LockManager LockInv LockPrims LockAlgo LockGrant LockOps LockApi.
Local Open Scope Z_scope.

(** ** The transition system *)
Section system.
Context `{OwnerMem} {F : Type} `{!Env F}.

(** The requests the lock manager serves, and the grant attempts its thread pool
    carries out. *)
Inductive lock_request : Set :=
  | Req_lock (ctx : req_op_context) (obj owner state : positive) (blocking : state_blocking_t)
      (bdata : option state_block_data_t) (lock : fsal_lock_param_t)
  | Req_unlock (ctx : req_op_context) (obj : positive) (state : option positive)
      (owner : positive) (lock : fsal_lock_param_t)
  | Req_test (ctx : req_op_context) (obj : positive) (state : option positive)
      (owner : positive) (lock : fsal_lock_param_t)
  | Req_cancel (ctx : req_op_context) (obj owner : positive) (lock : fsal_lock_param_t)
  | Req_granted_res (cl : option positive) (cookie : list Z) (granted : bool)
  | Req_granted_msg (cookie : list Z) (nlm_client : positive) (rpc_ok : bool)
  | Req_wipe (obj : positive)
  | Req_poll
  | Req_grant_upcall (obj owner : positive) (lock : fsal_lock_param_t)
  | Req_available_upcall (obj owner : positive) (lock : fsal_lock_param_t)
  | Req_attempt (a : positive).

Definition run_request (r : lock_request) : M (lock_world F) unit :=
  match r with
  | Req_lock ctx obj owner s blocking bdata lock =>
      state_lock ctx obj owner (Some s) blocking bdata lock;; mret tt
  | Req_unlock ctx obj state owner lock =>
      state_unlock ctx obj state (Some owner) false 0 lock;; mret tt
  | Req_test ctx obj state owner lock => state_test ctx obj state owner lock;; mret tt
  | Req_cancel ctx obj owner lock => state_cancel ctx obj owner lock;; mret tt
  | Req_granted_res cl cookie granted => nlm4_Granted_Res cl cookie granted
  | Req_granted_msg cookie cl rpc_ok => nlm4_send_grant_msg cookie cl rpc_ok
  | Req_wipe obj => state_lock_wipe obj
  | Req_poll => blocked_lock_polling
  | Req_grant_upcall obj owner lock => grant_blocked_lock_upcall obj owner lock
  | Req_available_upcall obj owner lock => available_blocked_lock_upcall obj owner lock
  | Req_attempt a => run_attempt a
  end.

(** What a protocol guarantees when it makes a request.  An attempt is one that was
    scheduled, for a lock that has not been cancelled since: for a cancelled one
    the code goes wrong. *)
Definition request_valid (w : lock_world F) (r : lock_request) : Prop :=
  match r with
  | Req_lock _ _ owner _ blocking bdata lock => lock_ok lock /\ request_ok owner blocking bdata
  | Req_unlock _ _ _ owner lock | Req_test _ _ _ owner lock => lock_ok lock /\ owner_ok owner
  | Req_attempt a => a ∈ w_sched w /\ (sle_blocked <$> w_heap w !! a) <> Some STATE_CANCELED
  | _ => True
  end.

(** Requests that do not reclaim locks of before a restart.  A scheduled attempt
    leaves it to the FSAL whether the lock can be had: it gives the lock only where
    no lock granted or being granted to another owner conflicts. *)
Definition no_reclaim (w : lock_world F) (r : lock_request) (w' : lock_world F) : Prop :=
  match r with
  | Req_lock _ _ _ _ _ _ lock => lock_reclaim lock = false
  | Req_attempt a => forall e e', w_heap w !! a = Some e -> sle_blocked e = STATE_NLM_BLOCKING ->
      w_heap w' !! a = Some e' -> sle_blocked e' = STATE_GRANTING ->
      forall b eb, b ∈ lock_list (sle_obj e) w -> w_heap w !! b = Some eb ->
        ~ conflicts_with (sle_owner e) (sle_lock e) eb
  | _ => True
  end.

Definition lock_init (s : F) : lock_world F :=
  {| w_heap := ∅; w_files := ∅; w_blocked := []; w_cookies := ∅; w_ht := ∅; w_sched := [];
     w_next := 1%positive; w_gc_cookie := 0; w_lists := ∅; w_refs := ∅; w_fsal := s |}.

(** The states valid requests and attempts satisfying [P] lead to. *)
Inductive lock_reachable (P : lock_world F -> lock_request -> lock_world F -> Prop) : lock_world F -> Prop :=
  | lr_init s : lock_reachable P (lock_init s)
  | lr_step w r w' : lock_reachable P w -> request_valid w r ->
      run_request r w = Some (tt, w') -> P w r w' -> lock_reachable P w'.

Context (Hsubmit : forall s : F, fst (fridgethr_submit s) = 0).

Lemma wf_init s : wf [] [] (core (lock_init s)).
Proof.
  assert (forall o, t_list o (core (lock_init s)) = []) as Hl by done.
  constructor; simpl.
  - intros o. rewrite Hl. apply NoDup_nil_2.
  - apply NoDup_nil_2.
  - intros o a. rewrite Hl. intros Ha. by apply elem_of_nil in Ha.
  - intros a Ha. by apply elem_of_nil in Ha.
  - intros a e. by rewrite lookup_empty.
  - intros c k. by rewrite lookup_empty.
  - intros key c. by rewrite lookup_empty.
  - intros a Ha. by apply elem_of_nil in Ha.
  - intros a Ha. by apply elem_of_nil in Ha.
  - intros a Ha. by apply elem_of_nil in Ha.
Qed.

(** Every request is defined on a well-formed table and preserves it. *)
Lemma wp_run_request r w :
  wf [] [] (core w) -> request_valid w r ->
  wp (run_request r) (fun _ w' => wf [] [] (core w') /\
    (fso_lock_support_async_block = false -> no_reclaim w r w' ->
     conflict_free [] (core w) -> conflict_free [] (core w'))) w.
Proof using Hsubmit.
  intros Hwf Hv.
  assert (forall w', wf [] [] (core w') /\ same_locks (core w) (core w') -> wf [] [] (core w') /\
    (fso_lock_support_async_block = false -> no_reclaim w r w' ->
     conflict_free [] (core w) -> conflict_free [] (core w'))) as Hsame.
  { intros w' [Hwf' Hs]. split; [done|]. intros _ _ Hcf.
    eapply conflict_free_subsumed; [exact Hcf|]. by eapply same_locks_safe. }
  destruct r; simpl in *.
  - destruct Hv as [Hlk Hreq]. apply wp_bind. eapply wp_mono; [by apply wp_state_lock|].
    intros [[status cf] bd] w' []. by apply wp_ret.
  - destruct Hv as [Hlk Hok]. apply wp_bind. eapply wp_mono; [by apply wp_state_unlock|].
    intros status w' [Hwf' Hrel]. apply wp_ret. split; [done|]. intros _ _ Hcf.
    destruct (is_regular_file obj); [by destruct Hrel; auto|]. by destruct Hrel as [_ ->].
  - destruct Hv as [Hlk Hok]. apply wp_bind. eapply wp_mono; [by apply wp_state_test|].
    intros r w' (Hw' & _). apply wp_ret. by rewrite Hw'.
  - apply wp_bind. eapply wp_mono; [by apply wp_state_cancel|].
    intros st w' ((? & ?) & _). by apply wp_ret.
  - eapply wp_mono; [by apply wp_nlm4_Granted_Res|]. intros [] w' ((? & ?) & _). auto.
  - eapply wp_mono; [by apply wp_nlm4_send_grant_msg|]. intros [] w' ((? & ?) & _). auto.
  - eapply wp_mono; [by apply wp_state_lock_wipe|]. intros [] w' ((? & ?) & _). auto.
  - eapply wp_mono; [by apply wp_blocked_lock_polling|]. intros [] w' ?. auto.
  - eapply wp_mono; [by apply wp_find_blocked_lock_upcall|]. intros [] w' ?. auto.
  - eapply wp_mono; [by apply wp_find_blocked_lock_upcall|]. intros [] w' ?. auto.
  - destruct Hv as [Hin Hnc]. destruct (wf_sched _ _ _ Hwf a Hin) as [e He].
    eapply wp_mono; [apply (wp_run_attempt Hsubmit a e); [done..|]|].
    { intros Hc. apply Hnc. simpl in He. rewrite He. simpl. by rewrite Hc. }
    intros [] w' [Hwf' Hrel]. split; [done|]. intros _ Hno. eapply attempt_rel_cf; [done..|].
    intros e' Hb He' Hb'. by apply (Hno e e').
Qed.

Lemma lock_reachable_inv P w :
  lock_reachable P w -> wf [] [] (core w) /\
  (fso_lock_support_async_block = false -> (forall w r w', P w r w' -> no_reclaim w r w') ->
   conflict_free [] (core w)).
Proof using Hsubmit.
  induction 1 as [s|w r w' _ [Hwf Hcf] Hv Hrun HP].
  - split; [apply wf_init|]. intros _ _ a e b e' [Ha _]. simpl in Ha. by rewrite lookup_empty in Ha.
  - pose proof (wp_run_request r w Hwf Hv) as Hwp. unfold wp in Hwp. rewrite Hrun in Hwp.
    destruct Hwp as [Hwf' Hcf']. split; [done|]. intros Hasy Hno. apply Hcf'; auto.
Qed.

End system.

(** ** A concrete server

    Two NLM owners of different hosts, an NFSv4 lock owner and two 9P owners; an
    FSAL and a thread pool that answer from scripts. *)
Module Scenario.

Definition host (c : positive) : state_nlm_client_t :=
  {| slc_nsm_client := c; slc_client_type := 0; slc_server_addr := sockaddr_in 1 111;
     slc_nlm_caller_name := [Zpos c] |}.

Definition owner_of (p : positive) : state_owner_t :=
  match p with
  | 1%positive => {| so_type := STATE_LOCK_OWNER_NLM; so_owner_val := [1];
                     so_owner := so_nlm_owner 1 7 |}
  | 2%positive => {| so_type := STATE_LOCK_OWNER_NLM; so_owner_val := [1];
                     so_owner := so_nlm_owner 2 7 |}
  | 3%positive => {| so_type := STATE_LOCK_OWNER_NFSV4; so_owner_val := [3];
                     so_owner := so_nfs4_owner 5 None |}
  | 4%positive => {| so_type := STATE_LOCK_OWNER_9P; so_owner_val := [];
                     so_owner := so_9p_owner 42 (sockaddr_in 10 564) |}
  | 5%positive => {| so_type := STATE_LOCK_OWNER_9P; so_owner_val := [];
                     so_owner := so_9p_owner 42 (sockaddr_in 11 564) |}
  | _ => {| so_type := STATE_LOCK_OWNER_UNKNOWN; so_owner_val := []; so_owner := so_none |}
  end.

#[export] Instance mem : OwnerMem := {|
  owner_at := owner_of; nlm_client_at := host;
  nsm_client_at := fun c => {| ssc_nlm_caller_name := [Zpos c]; ssc_client := None |};
  unknown_owner := 9
|}.

(** The answers still to be given by the FSAL and by the thread pool, and the
    FSAL operations carried out so far (owner, operation, start, length). *)
Definition script : Type :=
  list fsal_errors_t * list Z * list (positive * fsal_lock_op_t * Z * Z).

Definition env (support async pool : bool) : Env script := {|
  fso_lock_support := support;
  fso_lock_support_async_block := async;
  lock_op2 := fun '(errs, rcs, log) _ _ _ owner op l =>
    let log' := log ++ [(owner, op, lock_start l, lock_length l)] in
    match errs with
    | [] => (ERR_FSAL_NO_ERROR, l, ([], rcs, log'))
    | e :: errs' => (e, l, (errs', rcs, log'))
    end;
  fridgethr_submit := fun '(errs, rcs, log) =>
    if pool then match rcs with
                 | [] => (0, (errs, [], log))
                 | rc :: rcs' => (rc, (errs, rcs', log))
                 end
    else (0, (errs, rcs, log));
  export_ready := fun _ => true;
  state_seqid := fun s => Zpos s;
  is_regular_file := fun _ => true;
  gc_boot := (17, 4)
|}.

(** No FSAL locks: the server arbitrates alone. *)
#[export] Instance alone : Env script := env false false false.

Lemma alone_submit (s : script) : fst (fridgethr_submit s) = 0.
Proof. by destruct s as [[? ?] ?]. Qed.

Definition ctx : req_op_context := {| ctx_export := 1; client := None |}.
Definition rd (start len : Z) : fsal_lock_param_t :=
  {| lock_sle_type := FSAL_POSIX_LOCK; lock_type := FSAL_LOCK_R; lock_start := start;
     lock_length := len; lock_reclaim := false |}.
Definition wr (start len : Z) : fsal_lock_param_t :=
  {| lock_sle_type := FSAL_POSIX_LOCK; lock_type := FSAL_LOCK_W; lock_start := start;
     lock_length := len; lock_reclaim := false |}.
Definition fresh_bdata : state_block_data_t :=
  {| sbd_grant_type := STATE_GRANT_NONE; sbd_block_type := STATE_BLOCK_NONE;
     sbd_blocked_cookie := None |}.

(** Runs a list of requests. *)
Fixpoint run_all {E : Env script} (l : list lock_request) (w : lock_world script) :
    option (lock_world script) :=
  match l with
  | [] => Some w
  | r :: l' => match run_request r w with Some (_, w') => run_all l' w' | None => None end
  end.

(** The locks on an object: owner, blocking state, type, first and last byte. *)
Definition locks_of (obj : positive) (w : lock_world script) :
    list (option positive * state_blocking_t * fsal_lock_t * Z * Z) :=
  omap (fun a => e ← w_heap w !! a;
          Some (sle_owner e, sle_blocked e, lock_type (sle_lock e),
                lock_start (sle_lock e), lock_end (sle_lock e))) (lock_list obj w).

Definition locks_after {E : Env script} (l : list lock_request) (s : script) :
    option (list (option positive * state_blocking_t * fsal_lock_t * Z * Z)) :=
  locks_of 1 <$> run_all (E := E) l (lock_init s).

Definition lock1 (o : positive) (l : fsal_lock_param_t) : lock_request :=
  Req_lock ctx 1 o 1 STATE_NON_BLOCKING None l.
Definition block1 (o : positive) (l : fsal_lock_param_t) : lock_request :=
  Req_lock ctx 1 o 1 STATE_NLM_BLOCKING (Some fresh_bdata) l.
Definition unlock1 (o : positive) (l : fsal_lock_param_t) : lock_request :=
  Req_unlock ctx 1 (Some 1%positive) o l.

(** A blocked lock is granted when the conflicting lock goes, and completed by
    the client's answer. *)
Example grant_scenario :
  locks_after [lock1 1 (wr 0 100); block1 2 (wr 50 10); unlock1 1 (wr 40 60);
               Req_granted_res None [17; 4; 1] true] ([], [], [])
  = Some [(Some 2%positive, STATE_NON_BLOCKING, FSAL_LOCK_W, 50, 59);
          (Some 1%positive, STATE_NON_BLOCKING, FSAL_LOCK_W, 0, 39)].
Proof. vm_compute. reflexivity. Qed.

End Scenario.

(** ** Guarantees *)
Section guarantees.
Context `{OwnerMem} {F : Type} `{!Env F}.
Context (Hsubmit : forall s : F, fst (fridgethr_submit s) = 0).

(** C1: memory safety and termination of the lock manager.  In every state that
    valid requests and the scheduled grant attempts lead to, every valid request,
    and every attempt on a lock that was not cancelled after it was scheduled, has a
    defined result: no freed lock entry or cookie is read, no assertion on a
    reference count fails, no walk leaves its list. *)
Theorem lock_manager_safe (w : lock_world F) (r : lock_request) :
  lock_reachable (fun _ _ _ => True) w -> request_valid w r ->
  exists w', run_request r w = Some (tt, w').
Proof using Hsubmit.
  intros Hr Hv. apply (lock_reachable_inv Hsubmit) in Hr as [Hwf _].
  pose proof (wp_run_request Hsubmit r w Hwf Hv) as Hwp. apply wp_run in Hwp as ([] & w' & Hrun & _).
  eauto.
Qed.

(** C2: mutual exclusion.  With an FSAL that does not grant blocking locks on
    its own, take any state reached by valid requests other than reclaims and by
    scheduled grant attempts, on locks not cancelled since, to which the FSAL gives
    the lock only where no lock of another owner conflicts with it: two locks of one
    file that are granted or being granted to different owners, and that share a
    byte, are both read locks. *)
Theorem lock_mutual_exclusion (w : lock_world F) obj a b ea eb x :
  fso_lock_support_async_block = false -> lock_reachable no_reclaim w ->
  a ∈ lock_list obj w -> b ∈ lock_list obj w ->
  w_heap w !! a = Some ea -> w_heap w !! b = Some eb ->
  active ea -> active eb -> different_owners (sle_owner ea) (sle_owner eb) = true ->
  covers (sle_lock ea) x -> covers (sle_lock eb) x ->
  lock_type (sle_lock ea) <> FSAL_LOCK_W /\ lock_type (sle_lock eb) <> FSAL_LOCK_W.
Proof using Hsubmit.
  intros Hasy Hr Ha Hb Hea Heb Hacta Hactb Hd Hxa Hxb.
  apply (lock_reachable_inv Hsubmit) in Hr as [Hwf Hcf]. specialize (Hcf Hasy (fun _ _ _ H => H)).
  destruct (wf_on_list _ _ _ _ _ Hwf Ha) as (ea' & Hva & Hoa).
  destruct (wf_on_list _ _ _ _ _ Hwf Hb) as (eb' & Hvb & Hob).
  assert (ea' = ea) as -> by (destruct Hva; simpl in *; congruence).
  assert (eb' = eb) as -> by (destruct Hvb; simpl in *; congruence).
  apply different_owners_true in Hd.
  pose proof (Hcf a ea b eb Hva Hvb ltac:(congruence) Hacta Hactb Hd x Hxa Hxb) as Hc.
  unfold types_conflict in Hc. apply orb_false_iff in Hc as [H1 H2].
  by apply bool_decide_eq_false in H1, H2.
Qed.

(** C3: [state_lock].  On a well-formed table the request has a result.  If it
    is [STATE_SUCCESS] the owner holds a granted lock of the requested type over
    the whole requested range; otherwise every linked lock entry is as before,
    except that [STATE_LOCK_BLOCKED] may have queued a blocked entry.  No byte
    locked by anyone is lost. *)
Theorem state_lock_correct ctx obj owner s blocking bdata lock (w : lock_world F) :
  wf [] [] (core w) -> lock_ok lock -> request_ok owner blocking bdata ->
  exists status cf bdata' w',
    state_lock ctx obj owner (Some s) blocking bdata lock w = Some (status, cf, bdata', w') /\
    wf [] [] (core w') /\ keeps (core w) (core w') /\
    (status = STATE_SUCCESS -> exists b e, b ∈ lock_list obj w' /\ w_heap w' !! b = Some e /\
       granted e /\ same_owner (sle_owner e) (Some owner) /\
       lock_type (sle_lock e) = lock_type lock /\
       forall x, covers lock x -> covers (sle_lock e) x) /\
    (status <> STATE_SUCCESS ->
       (forall b e, view [] (core w) b e -> view [] (core w') b e) /\
       (forall b e, view [] (core w') b e -> view [] (core w) b e \/
          status = STATE_LOCK_BLOCKED /\ sle_blocked e = STATE_NLM_BLOCKING)).
Proof using Hsubmit.
  intros Hwf Hlk Hreq.
  pose proof (wp_state_lock Hsubmit ctx obj owner s blocking bdata lock w Hwf Hlk Hreq) as Hwp.
  apply wp_run in Hwp as ([[status cf] bd'] & w' & Hrun & []).
  exists status, cf, bd', w'. split; [done|]. split; [done|]. split; [done|]. split; [|done].
  intros Hs. destruct (lp_held Hs) as (b & e & [Hb Hl] & Hg & Ho & Hso & Hty & Hc).
  exists b, e. split; [|eauto 10]. destruct Hl as [Hl|Hl]; [by rewrite Ho in Hl|by apply elem_of_nil in Hl].
Qed.

(** C4: [state_unlock].  Afterwards no lock of the owner on the file, in
    whatever state, covers a byte of the range; every other byte that was locked,
    by this or another owner, is still locked with the same type. *)
Theorem state_unlock_correct ctx obj state o lock (w : lock_world F) :
  wf [] [] (core w) -> lock_ok lock -> owner_ok o -> is_regular_file obj = true ->
  exists status w',
    state_unlock ctx obj state (Some o) false 0 lock w = Some (status, w') /\
    wf [] [] (core w') /\
    (forall b e x, b ∈ lock_list obj w' -> w_heap w' !! b = Some e ->
       same_owner (sle_owner e) (Some o) -> covers (sle_lock e) x -> ~ covers lock x) /\
    (forall b e x, view [] (core w) b e -> granted e -> covers (sle_lock e) x ->
       ~ (sle_obj e = obj /\ same_owner (sle_owner e) (Some o) /\ covers lock x) ->
       exists b' e', view [] (core w') b' e' /\ piece e e' /\ covers (sle_lock e') x).
Proof using Hsubmit.
  intros Hwf Hlk Hok Hreg.
  pose proof (wp_state_unlock Hsubmit ctx obj state o false 0 lock w Hwf Hlk Hok) as Hwp.
  destruct (proj1 (wp_run _ _ _) (Hwp ltac:(done))) as (status & w' & Hrun & Hwf' & Hrel).
  rewrite Hreg in Hrel. destruct Hrel. exists status, w'. split; [done|]. split; [done|].
  split; [|done]. intros b e x Hb He. destruct (wf_on_list _ _ _ _ _ Hwf' Hb) as (e' & Hv & Ho).
  assert (e' = e) as -> by (destruct Hv; simpl in *; congruence). eauto.
Qed.

(** C5: [subtract_lock_from_list] computes the exact difference: of the locks
    the unlock applies to, precisely the bytes outside the range remain, with the
    same owner, state and type; every other entry is untouched; the flag tells
    whether anything was removed. *)
Theorem subtract_lock_from_list_exact sq owner sa st obj lock (w : lock_world F) :
  wf [] [] (core w) -> lock_ok lock ->
  (sa = true -> forall b e, view [] (core w) b e -> sle_obj e = obj -> granted e -> is_Some (sle_state e)) ->
  exists removed w',
    subtract_lock_from_list sq obj owner sa st lock w = Some (removed, w') /\
    wf [] [] (core w') /\ subtracted sq owner sa st obj lock (core w) (core w') removed.
Proof.
  intros Hwf Hlk Hst.
  pose proof (wp_subtract_lock_from_list sq owner sa st obj lock [] w Hwf Hlk Hst) as Hwp.
  apply wp_run in Hwp as (removed & w' & Hrun & ? & ?). eauto.
Qed.

(** C6: [merge_lock_entry] terminates; the merged lock only grows; locks of
    other owners, other files and locks not granted are untouched; the owner
    keeps every byte it held, with the old type or that of the merged lock; and
    nobody holds more than before.  Nothing is left to merge: unless the merged
    lock ends at the maximal offset, every other granted lock of the owner on the
    file shares no byte with the lock it was called with and, if it has the same
    type, does not even touch it; or it ends at the maximal offset itself, where
    the test for the distance wraps around and passes it over. *)
Theorem merge_lock_entry_correct obj le ele (w : lock_world F) :
  wf [] [le] (core w) -> view [le] (core w) le ele -> granted ele -> sle_obj ele = obj ->
  exists w', merge_lock_entry obj le w = Some (tt, w') /\ wf [] [le] (core w') /\
    merge_rel [le] obj (sle_owner ele) (lock_type (sle_lock ele)) (core w) (core w') /\
    exists ele', view [le] (core w') le ele' /\ grown ele ele' /\
      (lock_end (sle_lock ele') = UINT64_MAX \/
       forall b eb, b <> le -> view [le] (core w') b eb -> granted eb -> sle_obj eb = obj ->
         same_owner (sle_owner eb) (sle_owner ele) ->
         lock_end (sle_lock eb) = UINT64_MAX \/ clear_of (sle_lock eb) (sle_lock ele)).
Proof.
  intros Hwf Hv Hg Ho. pose proof (wp_merge_lock_entry [] [le] obj le ele w Hwf Hv Hg Ho) as Hwp.
  apply wp_run in Hwp as ([] & w' & Hrun & Hwf' & Hmr & ele' & Hv' & Hgr & Hall).
  exists w'. do 3 (split; [done|]). exists ele'. do 2 (split; [done|]).
  destruct Hall as [|Hall]; [by left|]. right. intros b eb Hb Hvb. apply (Hall b eb Hb Hvb).
  by rewrite list_elem_of_singleton.
Qed.

(** C7: [get_overlapping_entry] returns the first entry of the list that is
    granted or being granted to another owner, shares a byte with the request
    and has or meets a write lock; and NULL exactly when there is none. *)
Theorem get_overlapping_entry_correct obj owner lock (w : lock_world F) :
  wf [] [] (core w) -> lock_ok lock ->
  exists r, get_overlapping_entry obj owner lock w = Some (r, w) /\
    match r with
    | Some a => exists l1 l2 e, lock_list obj w = l1 ++ a :: l2 /\ w_heap w !! a = Some e /\
        conflicts_with owner lock e /\
        forall b eb, b ∈ l1 -> w_heap w !! b = Some eb -> ~ conflicts_with owner lock eb
    | None => forall b eb, b ∈ lock_list obj w -> w_heap w !! b = Some eb ->
        ~ conflicts_with owner lock eb
    end.
Proof.
  intros Hwf Hlk.
  assert (wp (get_overlapping_entry obj owner lock) (fun r w' => w' = w /\
    match r with
    | Some a => exists l1 l2 e, lock_list obj w = l1 ++ a :: l2 /\ w_heap w !! a = Some e /\
        conflicts_with owner lock e /\
        forall b eb, b ∈ l1 -> w_heap w !! b = Some eb -> ~ conflicts_with owner lock eb
    | None => forall b eb, b ∈ lock_list obj w -> w_heap w !! b = Some eb ->
        ~ conflicts_with owner lock eb
    end) w) as Hwp.
  { eapply (wp_get_overlapping_entry [] []); [done|done| |].
    - intros l1 a l2 e Hl [Ha _] _ Hc Hf. split; [done|]. exists l1, l2, e. auto.
    - intros Hno. auto. }
  apply wp_run in Hwp as (r & w' & Hrun & -> & Hr). eauto.
Qed.

(** C8: [state_test] changes no lock.  When some lock conflicts with the
    request it reports [STATE_LOCK_CONFLICT] with the owner and description of a
    conflicting lock; with an FSAL without locks it reports a conflict only
    then. *)
Theorem state_test_correct ctx obj state owner lock (w : lock_world F) :
  wf [] [] (core w) -> lock_ok lock -> owner_ok owner ->
  exists r w', state_test ctx obj state owner lock w = Some (r, w') /\ core w' = core w /\
    ((exists a e, view [] (core w) a e /\ sle_obj e = obj /\ conflicts_with (Some owner) lock e) ->
     exists a e, view [] (core w) a e /\ sle_obj e = obj /\ conflicts_with (Some owner) lock e /\
       exists o, sle_owner e = Some o /\ r = (STATE_LOCK_CONFLICT, Some (o, sle_lock e))) /\
    (fso_lock_support = false -> fst r = STATE_LOCK_CONFLICT <->
       exists a e, view [] (core w) a e /\ sle_obj e = obj /\ conflicts_with (Some owner) lock e).
Proof.
  intros Hwf Hlk Hok. pose proof (wp_state_test ctx obj state owner lock w Hwf Hlk Hok) as Hwp.
  apply wp_run in Hwp as (r & w' & Hrun & Hrest). eauto.
Qed.

(** [state_cancel] never touches a granted lock, of any owner. *)
Theorem state_cancel_keeps_granted ctx obj owner lock (w : lock_world F) :
  wf [] [] (core w) ->
  exists status w', state_cancel ctx obj owner lock w = Some (status, w') /\ wf [] [] (core w') /\
    forall b e, view [] (core w) b e -> granted e -> view [] (core w') b e.
Proof using Hsubmit.
  intros Hwf. pose proof (wp_state_cancel Hsubmit ctx obj owner lock w Hwf) as Hwp.
  apply wp_run in Hwp as (st & w' & Hrun & (? & ?) & ?). eauto 10.
Qed.

(** Completing a grant turns the lock that was being granted into a granted
    one that covers at least its range; the cookie is gone, nobody loses a
    locked byte. *)
Theorem state_complete_grant_correct ctx c k e (w : lock_world F) :
  wf [c] [] (core w) -> w_cookies w !! c = Some k ->
  w_heap w !! sce_lock_entry k = Some e -> sle_blocked e = STATE_GRANTING ->
  exists w', state_complete_grant ctx c w = Some (tt, w') /\ wf [] [] (core w') /\
    keeps (core w) (core w') /\
    exists e', sce_lock_entry k ∈ lock_list (sle_obj e) w' /\
      w_heap w' !! sce_lock_entry k = Some e' /\ absorbs e e'.
Proof using Hsubmit.
  intros Hwf Hk He Hb. pose proof (wp_state_complete_grant Hsubmit ctx c k w Hwf Hk) as Hwp.
  apply wp_run in Hwp as ([] & w' & Hrun & ((? & _) & ?) & Hg).
  destruct (Hg e He Hb) as (e' & [He' Hl] & Habs). exists w'. split; [done|]. split; [done|].
  split; [done|]. exists e'. split; [|done]. destruct Habs as (_ & Ho & _).
  destruct Hl as [Hl|Hl]; [by rewrite Ho in Hl|by apply elem_of_nil in Hl].
Qed.

(** [do_lock_op] never touches the lock table; [STATE_LOCK_BLOCKED] is
    returned for [FSAL_OP_LOCKB] only and [STATE_LOCK_CONFLICT] never for it;
    without FSAL locks it succeeds. *)
Theorem do_lock_op_contract ctx obj state op o lock want (w : lock_world F) :
  owner_ok o ->
  exists st cf w', do_lock_op ctx obj state op (Some o) lock want w = Some ((st, cf), w') /\
    core w' = core w /\ (st = STATE_LOCK_BLOCKED -> op = FSAL_OP_LOCKB) /\
    (st = STATE_LOCK_CONFLICT -> op <> FSAL_OP_LOCKB) /\
    (fso_lock_support = false -> st = STATE_SUCCESS).
Proof.
  intros Hok.
  assert (wp (do_lock_op ctx obj state op (Some o) lock want)
    (fun r w' => core w' = core w /\ lock_op_status op (fst r)) w) as Hwp
    by (apply wp_do_lock_op; auto).
  apply wp_run in Hwp as ([st cf] & w' & Hrun & Hc & Hs). exists st, cf, w'. auto.
Qed.

(** C9: reference counting is exact.  In every state that valid requests and
    scheduled grant attempts, on locks not cancelled since, lead to: a live lock
    entry has exactly one reference for being on its file's list, one for an
    attached grant cookie and one for each scheduled grant attempt that is not done,
    and at least one in all; and every entry on a list, every cookie's entry and
    every scheduled entry is live.  The count of the model is unbounded; with at
    most 2^31 - 3 attempts scheduled at a time the [int32_t] of the source holds
    it. *)
Theorem lock_refcounts_exact (w : lock_world F) :
  lock_reachable (fun _ _ _ => True) w ->
  (forall a e, w_heap w !! a = Some e ->
     sle_ref_count e = Z.b2z (bool_decide (a ∈ lock_list (sle_obj e) w))
       + Z.b2z (bool_decide (is_Some (cookie_of e))) + Z.of_nat (count_id a (w_sched w)) /\
     1 <= sle_ref_count e /\
     (Z.of_nat (length (w_sched w)) <= 2 ^ 31 - 3 -> i32 (sle_ref_count e) = sle_ref_count e)) /\
  (forall obj a, a ∈ lock_list obj w -> exists e, w_heap w !! a = Some e /\ sle_obj e = obj) /\
  (forall c k, w_cookies w !! c = Some k -> exists e, w_heap w !! sce_lock_entry k = Some e) /\
  (forall a, a ∈ w_sched w -> is_Some (w_heap w !! a)).
Proof using Hsubmit.
  intros Hr. apply (lock_reachable_inv Hsubmit) in Hr as [Hwf _]. split; [|split; [|split]].
  - intros a e Ha. destruct (wf_entry _ _ _ Hwf a e Ha). split; [|split; [apply ew_pos, not_elem_of_nil|]].
    + rewrite ew_refs. do 3 f_equal. apply bool_decide_ext. unfold linked. rewrite elem_of_nil. tauto.
    + intros Hlen. apply i32_small. rewrite ew_refs. simpl in *. pose proof (count_id_length a (w_sched w)).
      destruct (bool_decide _), (bool_decide _); cbn [Z.b2z]; lia.
  - intros obj a Ha. by destruct (wf_list _ _ _ Hwf obj a Ha) as (_ & e & ? & ?); eauto.
  - intros c k Hk. by destruct (wf_cookie _ _ _ Hwf c k Hk) as (_ & _ & _ & e & ? & _); eauto.
  - apply (wf_sched _ _ _ Hwf).
Qed.

End guarantees.
