(* ===== verification/LockExamples.v ===== *)
(** * The lock manager at work

    Concrete histories: the states the guarantees are exercised in, and histories
    in which the code does not do what it means to. *)
From S2P Require Import Prelude Status Owners LockTable LockManager LockInv LockPrims LockAlgo LockGrant LockOps LockApi LockTheorems.
Import Scenario.
Local Open Scope Z_scope.

(** ** Reached states *)

(** The requests of a list, no attempts among them, are valid and satisfy [P]. *)
Definition script_ok (P : lock_world script -> lock_request -> lock_world script -> Prop)
    (l : list lock_request) : Prop :=
  Forall (fun r => (forall w : lock_world script, request_valid w r) /\ forall w w', P w r w') l.

Lemma run_all_reachable {E : Env script} P l w w' :
  script_ok P l -> lock_reachable P w -> run_all l w = Some w' -> lock_reachable P w'.
Proof.
  intros Hl. revert w. induction Hl as [|r l [Hv HP] _ IH]; simpl; intros w Hw Hrun; [by simplify_eq|].
  destruct (run_request r w) as [[[] w1]|] eqn:Hr; [|done]. eapply IH; [|done]. by eapply lr_step.
Qed.

(** The state after a list of requests, from the empty table. *)
Definition after {E : Env script} (l : list lock_request) (s : script) : lock_world script :=
  default (lock_init s) (run_all (E := E) l (lock_init s)).

Lemma after_reachable {E : Env script} P l s :
  script_ok P l -> lock_reachable P (after l s).
Proof.
  intros Hl. unfold after. destruct (run_all l (lock_init s)) as [w|] eqn:Hr; [|apply lr_init].
  eapply run_all_reachable; [done|apply lr_init|done].
Qed.

(** Discharges the side conditions of concrete requests. *)
Ltac valid_script :=
  repeat constructor; simpl; unfold UINT64_MAX; try lia; try done; try (unfold nlm_owner); eauto 10.

(** A write lock split by an unlock, a blocked request and a read lock. *)
Definition history : list lock_request :=
  [lock1 1 (wr 0 100); block1 2 (wr 50 10); lock1 3 (rd 200 10)].

Lemma history_ok : script_ok no_reclaim history.
Proof. valid_script. Qed.

Lemma history_ok' : script_ok (fun _ _ _ => True) history.
Proof. valid_script. Qed.

Definition w0 : lock_world script := after history ([], [], []).

Lemma w0_wf : wf [] [] (core w0).
Proof.
  apply (lock_reachable_inv alone_submit (fun _ _ _ => True)), after_reachable, history_ok'.
Qed.

Lemma rd_ok s n : 0 <= s <= UINT64_MAX -> 0 <= n -> s + n - 1 <= UINT64_MAX -> lock_ok (rd s n).
Proof. done. Qed.
Lemma wr_ok s n : 0 <= s <= UINT64_MAX -> 0 <= n -> s + n - 1 <= UINT64_MAX -> lock_ok (wr s n).
Proof. done. Qed.

Lemma lock_manager_safe_witness :
  exists w', run_request (unlock1 1 (wr 40 60)) w0 = Some (tt, w').
Proof.
  apply (lock_manager_safe alone_submit).
  - apply after_reachable, history_ok'.
  - valid_script.
Defined.

(** The two locks of owners 1 and 3 in [rd1]: both read locks on byte 5. *)
Definition w_shared : lock_world script :=
  after [lock1 1 (rd 0 10); lock1 3 (rd 5 10)] ([], [], []).

Lemma lock_mutual_exclusion_witness :
  exists a b ea eb, w_heap w_shared !! a = Some ea /\ w_heap w_shared !! b = Some eb /\
    lock_type (sle_lock ea) <> FSAL_LOCK_W /\ lock_type (sle_lock eb) <> FSAL_LOCK_W.
Proof.
  assert (exists ea eb, w_heap w_shared !! 1%positive = Some ea /\ w_heap w_shared !! 2%positive = Some eb)
    as (ea & eb & Ha & Hb) by (vm_compute; eauto).
  exists 1%positive, 2%positive, ea, eb. split; [done|]. split; [done|].
  eapply (lock_mutual_exclusion alone_submit w_shared 1 1 2 ea eb 5).
  - done.
  - apply after_reachable. valid_script.
  - vm_compute. set_solver.
  - vm_compute. set_solver.
  - done.
  - done.
  - vm_compute in Ha. simplify_eq. by left.
  - vm_compute in Hb. simplify_eq. by left.
  - vm_compute in Ha, Hb. simplify_eq. done.
  - vm_compute in Ha. simplify_eq. vm_compute. split; congruence.
  - vm_compute in Hb. simplify_eq. vm_compute. split; congruence.
Defined.

Lemma state_lock_correct_witness :
  exists status cf bdata' w',
    state_lock ctx 1 1 (Some 1%positive) STATE_NON_BLOCKING None (rd 20 10) w0
      = Some (status, cf, bdata', w') /\ status = STATE_SUCCESS /\
    exists b e, b ∈ lock_list 1 w' /\ w_heap w' !! b = Some e /\ granted e /\
      lock_type (sle_lock e) = FSAL_LOCK_R /\ covers (sle_lock e) 25.
Proof.
  destruct (state_lock_correct alone_submit ctx 1 1 1 STATE_NON_BLOCKING None (rd 20 10) w0)
    as (status & cf & bd & w' & Hrun & _ & _ & Hs & _).
  - apply w0_wf.
  - by apply rd_ok; unfold UINT64_MAX; lia.
  - split; [done|]. done.
  - exists status, cf, bd, w'. split; [exact Hrun|]. assert (status = STATE_SUCCESS) as Hst.
    { vm_compute in Hrun. by simplify_eq. }
    split; [done|]. destruct (Hs Hst) as (b & e & ? & ? & ? & _ & ? & Hc).
    exists b, e. repeat (split; [assumption|]). apply Hc. vm_compute. split; congruence.
Defined.

Lemma state_unlock_correct_witness :
  exists status w', state_unlock ctx 1 (Some 1%positive) (Some 1%positive) false 0 (wr 40 60) w0
      = Some (status, w') /\
    forall b e x, b ∈ lock_list 1 w' -> w_heap w' !! b = Some e ->
      same_owner (sle_owner e) (Some 1%positive) -> covers (sle_lock e) x -> ~ covers (wr 40 60) x.
Proof.
  destruct (state_unlock_correct alone_submit ctx 1 (Some 1%positive) 1 (wr 40 60) w0)
    as (status & w' & Hrun & _ & Hx & _).
  - apply w0_wf.
  - by apply wr_ok; unfold UINT64_MAX; lia.
  - done.
  - done.
  - exact (ex_intro _ status (ex_intro _ w' (conj Hrun Hx))).
Defined.

Lemma subtract_lock_from_list_exact_witness :
  exists w', subtract_lock_from_list (fun s => Zpos s) 1 (Some 1%positive) false 0 (wr 40 10) w0
      = Some (true, w') /\
    subtracted (fun s => Zpos s) (Some 1%positive) false 0 1 (wr 40 10) (core w0) (core w') true.
Proof.
  destruct (subtract_lock_from_list_exact (fun s => Zpos s) (Some 1%positive) false 0 1 (wr 40 10) w0)
    as (removed & w' & Hrun & _ & Hs).
  - apply w0_wf.
  - by apply wr_ok; unfold UINT64_MAX; lia.
  - done.
  - assert (removed = true) as ->. { vm_compute in Hrun. by simplify_eq. }
    exact (ex_intro _ w' (conj Hrun Hs)).
Defined.

Lemma get_overlapping_entry_correct_witness :
  exists a e, get_overlapping_entry 1 (Some 3%positive) (rd 99 5) w0 = Some (Some a, w0) /\
    w_heap w0 !! a = Some e /\ conflicts_with (Some 3%positive) (rd 99 5) e.
Proof.
  destruct (get_overlapping_entry_correct 1 (Some 3%positive) (rd 99 5) w0) as (r & Hrun & Hr).
  - apply w0_wf.
  - by apply rd_ok; unfold UINT64_MAX; lia.
  - destruct r as [a|]; [|by vm_compute in Hrun].
    destruct Hr as (_ & _ & e & _ & He & Hc & _).
    exact (ex_intro _ a (ex_intro _ e (conj Hrun (conj He Hc)))).
Defined.

Lemma state_test_correct_witness :
  exists r w', state_test ctx 1 (Some 1%positive) 3 (rd 99 5) w0 = Some (r, w') /\
    core w' = core w0 /\ fst r = STATE_LOCK_CONFLICT.
Proof.
  destruct (state_test_correct ctx 1 (Some 1%positive) 3 (rd 99 5) w0) as (r & w' & Hrun & Hc & _).
  - apply w0_wf.
  - by apply rd_ok; unfold UINT64_MAX; lia.
  - done.
  - exists r, w'. split; [exact Hrun|]. split; [exact Hc|]. vm_compute in Hrun. by simplify_eq.
Defined.

Lemma state_cancel_keeps_granted_witness :
  exists status w', state_cancel ctx 1 2 (wr 50 10) w0 = Some (status, w') /\
    forall b e, view [] (core w0) b e -> granted e -> view [] (core w') b e.
Proof.
  destruct (state_cancel_keeps_granted alone_submit ctx 1 2 (wr 50 10) w0) as (st & w' & Hrun & _ & Hk).
  - apply w0_wf.
  - exact (ex_intro _ st (ex_intro _ w' (conj Hrun Hk))).
Defined.

Lemma do_lock_op_contract_witness :
  exists st cf w', do_lock_op ctx 1 (Some 1%positive) FSAL_OP_LOCKB (Some 1%positive) (wr 0 1) true w0
    = Some ((st, cf), w') /\ core w' = core w0 /\ st = STATE_SUCCESS.
Proof.
  destruct (do_lock_op_contract ctx 1 (Some 1%positive) FSAL_OP_LOCKB 1 (wr 0 1) true w0)
    as (st & cf & w' & Hrun & Hc & _ & _ & Hs).
  - done.
  - exists st, cf, w'. split; [exact Hrun|]. split; [exact Hc|]. by apply Hs.
Defined.

(** An FSAL with locks: it refuses the lock of owner 2 at first, a poll schedules
    an attempt, and the attempt gets it. *)
Definition polling : Env script := env true false false.

Lemma polling_submit (s : script) : fst (fridgethr_submit (Env := polling) s) = 0.
Proof. by destruct s as [[? ?] ?]. Qed.

Definition w_polled : lock_world script :=
  after (E := polling) [block1 2 (wr 0 10); Req_poll] ([ERR_FSAL_DELAY], [], []).

Definition w_attempted : lock_world script :=
  match run_request (Env0 := polling) (Req_attempt 1) w_polled with Some (_, w) => w | None => w_polled end.

Example attempt_grants :
  locks_of 1 w_polled = [(Some 2%positive, STATE_NLM_BLOCKING, FSAL_LOCK_W, 0, 9)] /\
  w_sched w_polled = [1%positive] /\
  locks_of 1 w_attempted = [(Some 2%positive, STATE_GRANTING, FSAL_LOCK_W, 0, 9)] /\
  w_sched w_attempted = [].
Proof. vm_compute. repeat split. Qed.

Lemma w_attempted_reachable : lock_reachable (Env0 := polling) (fun _ _ _ => True) w_attempted.
Proof.
  apply (lr_step (Env0 := polling) _ w_polled (Req_attempt 1)).
  - apply (after_reachable (E := polling)). valid_script.
  - split; [|vm_compute; discriminate]. destruct attempt_grants as (_ & -> & _). by left.
  - vm_compute. reflexivity.
  - done.
Qed.

Lemma lock_refcounts_exact_witness :
  exists a e, a ∈ lock_list 1 w_attempted /\ w_heap w_attempted !! a = Some e /\ 1 <= sle_ref_count e.
Proof.
  destruct (lock_refcounts_exact polling_submit w_attempted) as (Hr & Hl & _).
  - apply w_attempted_reachable.
  - assert (lock_list 1 w_attempted = [1%positive]) as Hall by (vm_compute; reflexivity).
    assert (1%positive ∈ lock_list 1 w_attempted) as Ha by (rewrite Hall; by left).
    destruct (Hl 1%positive 1%positive Ha) as (e & He & _). exists 1%positive, e.
    split; [exact Ha|]. split; [exact He|]. by destruct (Hr 1%positive e He) as (_ & ? & _).
Defined.

(** A new entry of owner 1, not on any list yet, that [state_lock] is about to merge. *)
Definition w_new : lock_world script :=
  match create_state_lock_entry 1 1 STATE_NON_BLOCKING 1 (Some 1%positive) (wr 100 50) w0 with
  | Some (_, w) => w
  | None => w0
  end.

Definition e_new : state_lock_entry_t :=
  new_entry 1 1 STATE_NON_BLOCKING 1 (Some 1%positive) (wr 100 50).

Lemma w_new_core :
  core w_new = t_put (t_next (core w0)) e_new (t_set_next (Pos.succ (t_next (core w0))) (core w0)).
Proof.
  assert (wp (create_state_lock_entry 1 1 STATE_NON_BLOCKING 1 (Some 1%positive) (wr 100 50))
    (fun _ w => core w = t_put (t_next (core w0)) e_new
       (t_set_next (Pos.succ (t_next (core w0))) (core w0))) w0) as Hwp by by apply wp_create.
  apply wp_run in Hwp as (a & w & Hrun & Hw). unfold w_new. by rewrite Hrun.
Qed.

Lemma merge_lock_entry_correct_witness :
  exists w', merge_lock_entry 1 (t_next (core w0)) w_new = Some (tt, w') /\
    exists ele', view [t_next (core w0)] (core w') (t_next (core w0)) ele' /\ grown e_new ele'.
Proof.
  destruct (merge_lock_entry_correct 1 (t_next (core w0)) e_new w_new) as (w' & Hrun & _ & _ & ele' & Hv & Hg & _).
  - rewrite w_new_core. apply (wf_create [] [] (core w0) e_new 1); [apply w0_wf|done..|].
    by apply wr_ok; unfold UINT64_MAX; lia.
  - rewrite w_new_core. eapply view_create; [apply w0_wf|by left].
  - done.
  - done.
  - exact (ex_intro _ w' (conj Hrun (ex_intro _ ele' (conj Hv Hg)))).
Defined.

(** Owner 2 is being granted its lock, and the client's answer has found the cookie. *)
Definition w_granting : lock_world script :=
  after [lock1 1 (wr 0 100); block1 2 (wr 50 10); unlock1 1 (wr 40 60)] ([], [], []).

Definition w_answer : lock_world script :=
  match state_find_grant [17; 4; 1] w_granting with Some (_, w) => w | None => w_granting end.

Lemma find_grant_wf key (w : lock_world script) :
  wf [] [] (core w) -> w_ht w !! key <> None ->
  wp (state_find_grant key)
     (fun _ w' => exists c k, w_cookies w' !! c = Some k /\ wf [c] [] (core w')) w.
Proof.
  intros Hwf Hn. apply (wp_state_find_grant [] []); [done|done|].
  intros c k w' _ Hk _ Hw' Hwf' _. exists c, k. split; [|done].
  change (w_cookies w') with (t_cookies (core w')). by rewrite Hw'.
Qed.

Lemma w_answer_wf : exists c k, w_cookies w_answer !! c = Some k /\ wf [c] [] (core w_answer).
Proof.
  pose proof (find_grant_wf [17; 4; 1] w_granting) as Hwp. unfold w_answer. unfold wp in Hwp.
  destruct (state_find_grant [17; 4; 1] w_granting) as [[a w]|] eqn:Hrun.
  - apply Hwp.
    + apply (lock_reachable_inv alone_submit (fun _ _ _ => True)), after_reachable. valid_script.
    + intros Hn. by vm_compute in Hn.
  - exfalso. by vm_compute in Hrun.
Qed.

Lemma state_complete_grant_correct_witness :
  exists c k e w', state_complete_grant ctx c w_answer = Some (tt, w') /\
    w_heap w_answer !! sce_lock_entry k = Some e /\
    exists e', sce_lock_entry k ∈ lock_list (sle_obj e) w' /\
      w_heap w' !! sce_lock_entry k = Some e' /\ absorbs e e'.
Proof.
  destruct w_answer_wf as (c & k & Hk & Hwf).
  assert (exists e, w_heap w_answer !! sce_lock_entry k = Some e /\ sle_blocked e = STATE_GRANTING)
    as (e & He & Hb).
  { assert (forallb (fun ck => match w_heap w_answer !! sce_lock_entry (snd ck) with
                                | Some e => bool_decide (sle_blocked e = STATE_GRANTING)
                                | None => false
                                end) (map_to_list (w_cookies w_answer)) = true) as Hall
      by (vm_compute; reflexivity).
    rewrite forallb_forall in Hall.
    specialize (Hall (c, k) (proj1 (list_elem_of_In _ _) (proj2 (elem_of_map_to_list _ _ _) Hk))).
    cbn [snd] in Hall. destruct (w_heap w_answer !! sce_lock_entry k) as [e|]; [|discriminate].
    exists e. split; [reflexivity|]. exact (bool_decide_eq_true_1 _ Hall). }
  destruct (state_complete_grant_correct alone_submit ctx c k e w_answer) as (w' & Hrun & _ & _ & Hg).
  - exact Hwf.
  - exact Hk.
  - exact He.
  - exact Hb.
  - exists c, k, e, w'. split; [exact Hrun|]. split; [exact He|exact Hg].
Defined.

(** ** Histories that go wrong *)

(** The merge of a lock of another type tests for locks with nothing to merge by
    [check_entry_end + 1 < lock_start]; for a lock to the end of the file the sum wraps to
    0, so that the write lock below keeps its whole range when part of it is
    downgraded.  With an explicit length the lock is split. *)
Example downgrade_inside_lock_to_eof :
  locks_after [lock1 1 (wr 0 0); lock1 1 (rd 10 11)] ([], [], [])
  = Some [(Some 1%positive, STATE_NON_BLOCKING, FSAL_LOCK_W, 0, UINT64_MAX);
          (Some 1%positive, STATE_NON_BLOCKING, FSAL_LOCK_R, 10, 20)].
Proof. vm_compute. reflexivity. Qed.

Example downgrade_inside_lock :
  locks_after [lock1 1 (wr 0 1000); lock1 1 (rd 10 11)] ([], [], [])
  = Some [(Some 1%positive, STATE_NON_BLOCKING, FSAL_LOCK_W, 0, 9);
          (Some 1%positive, STATE_NON_BLOCKING, FSAL_LOCK_W, 21, 999);
          (Some 1%positive, STATE_NON_BLOCKING, FSAL_LOCK_R, 10, 20)].
Proof. vm_compute. reflexivity. Qed.

(** A poll schedules a grant of a lock that is cancelled before the grant runs:
    [try_to_grant_lock] drops the reference of the list a second time and
    [process_blocked_lock_upcall] releases an entry already freed. *)
Example grant_of_cancelled_lock_uses_freed_entry :
  (w ← run_all (E := env true false false)
         [block1 2 (wr 0 10); Req_poll; Req_cancel ctx 1 2 (wr 0 10)]
         (lock_init (replicate 4 ERR_FSAL_DELAY, [], []));
   Some (w_sched w, state_blocked_lock_caller (Env0 := env true false false) 1 w))
  = Some ([1%positive], None).
Proof. vm_compute. reflexivity. Qed.

(** When the thread pool refuses the grant message the cookie is freed but stays
    in the hash table, where the client's answer finds it. *)
Example refused_grant_leaves_dangling_cookie :
  let rs := [lock1 1 (wr 0 10); block1 2 (wr 0 10); unlock1 1 (wr 0 10)] in
  let E := env false false true in
  (w ← run_all (E := E) rs (lock_init ([], [1], []));
   Some (map_to_list (w_ht w), map_to_list (w_cookies w)))
    = Some ([([17; 4; 1], 3%positive)], []) /\
  run_all (E := E) (rs ++ [Req_granted_res None [17; 4; 1] true]) (lock_init ([], [1], [])) = None.
Proof. vm_compute. split; reflexivity. Qed.

(** Cancelling a lock that is being granted forgets it without unlocking it in
    the FSAL, which has granted it already. *)
Example cancel_of_granting_lock_keeps_fsal_lock :
  (w ← run_all (E := env true false false)
         [lock1 1 (wr 0 10); block1 2 (wr 0 10); unlock1 1 (wr 0 10); Req_cancel ctx 1 2 (wr 0 10)]
         (lock_init ([], [], []));
   Some (locks_of 1 w, snd (w_fsal w)))
  = Some ([], [(1%positive, FSAL_OP_LOCK, 0, 10); (1%positive, FSAL_OP_UNLOCK, 0, 10);
               (2%positive, FSAL_OP_LOCK, 0, 10)]).
Proof. vm_compute. reflexivity. Qed.
