(* ===== verification/Acl.v ===== *)
(** * Access control: NFSv4 ACLs and mode bits

    The default access check of [FSAL/access_check.c] ([fsal_test_access], the
    evaluation of NFSv4 ACLs and of POSIX mode bits), and from
    [FSAL/commonlib.c] the inheritance of ACLs, the conversions between modes and
    ACLs and the permission checks for removal and renaming. *)
From S2P Require Import Prelude Status.
Local Open Scope Z_scope.

(** ** Data ([include/fsal_types.h]) *)

Inductive object_file_type_t : Set :=
  | NO_FILE_TYPE | REGULAR_FILE | CHARACTER_FILE | BLOCK_FILE | SYMBOLIC_LINK
  | SOCKET_FILE | FIFO_FILE | DIRECTORY | EXTENDED_ATTR.

#[export] Instance object_file_type_t_eq_dec : EqDecision object_file_type_t.
Proof. solve_decision. Defined.

(** An access control entry; [who] is the union of [uid] and [gid]. *)
Record fsal_ace_t : Set := {
  ace_type : Z;
  ace_perm : Z;
  ace_flag : Z;
  ace_iflag : Z;
  ace_who : Z
}.

Record user_cred : Set := {
  caller_uid : Z;
  caller_gid : Z;
  caller_garray : list Z
}.

(** The members of [fsal_attrlist] the checks use; [attr_acl] is NULL or the ACEs. *)
Record fsal_attrlist : Set := {
  attr_owner : Z;
  attr_group : Z;
  attr_mode : Z;
  attr_type : object_file_type_t;
  attr_acl : option (list fsal_ace_t);
  valid_mask : Z
}.

Definition FSAL_ACE_TYPE_ALLOW : Z := 0.
Definition FSAL_ACE_TYPE_DENY : Z := 1.

Definition FSAL_ACE_FLAG_FILE_INHERIT : Z := 0x1.
Definition FSAL_ACE_FLAG_DIR_INHERIT : Z := 0x2.
Definition FSAL_ACE_FLAG_NO_PROPAGATE : Z := 0x4.
Definition FSAL_ACE_FLAG_INHERIT_ONLY : Z := 0x8.
Definition FSAL_ACE_FLAG_GROUP_ID : Z := 0x40.
Definition FSAL_ACE_FLAG_INHERIT : Z :=
  Z.lor FSAL_ACE_FLAG_FILE_INHERIT (Z.lor FSAL_ACE_FLAG_DIR_INHERIT FSAL_ACE_FLAG_INHERIT_ONLY).

Definition FSAL_ACE_IFLAG_MODE_GEN : Z := 0x10000000.
Definition FSAL_ACE_IFLAG_EXCLUDE_FILES : Z := 0x40000000.
Definition FSAL_ACE_IFLAG_EXCLUDE_DIRS : Z := 0x20000000.
Definition FSAL_ACE_IFLAG_SPECIAL_ID : Z := 0x80000000.

Definition FSAL_ACE_PERM_READ_DATA : Z := 0x1.
Definition FSAL_ACE_PERM_LIST_DIR : Z := 0x1.
Definition FSAL_ACE_PERM_WRITE_DATA : Z := 0x2.
Definition FSAL_ACE_PERM_ADD_FILE : Z := 0x2.
Definition FSAL_ACE_PERM_APPEND_DATA : Z := 0x4.
Definition FSAL_ACE_PERM_ADD_SUBDIRECTORY : Z := 0x4.
Definition FSAL_ACE_PERM_EXECUTE : Z := 0x20.
Definition FSAL_ACE_PERM_DELETE_CHILD : Z := 0x40.
Definition FSAL_ACE_PERM_READ_ATTR : Z := 0x80.
Definition FSAL_ACE_PERM_WRITE_ATTR : Z := 0x100.
Definition FSAL_ACE_PERM_DELETE : Z := 0x10000.
Definition FSAL_ACE_PERM_READ_ACL : Z := 0x20000.
Definition FSAL_ACE_PERM_WRITE_ACL : Z := 0x40000.
Definition FSAL_ACE_PERM_WRITE_OWNER : Z := 0x80000.

Definition FSAL_ACE_SPECIAL_OWNER : Z := 1.
Definition FSAL_ACE_SPECIAL_GROUP : Z := 2.
Definition FSAL_ACE_SPECIAL_EVERYONE : Z := 3.

Definition FSAL_R_OK : Z := 0x04000000.
Definition FSAL_W_OK : Z := 0x02000000.
Definition FSAL_X_OK : Z := 0x01000000.
Definition FSAL_ACCESS_FLAG_BIT_MASK : Z := 0x80000000.
Definition FSAL_MODE_BIT_MASK : Z := 0x07000000.
Definition FSAL_ACE4_BIT_MASK : Z := 0x50FFFFFF.
Definition FSAL_MODE_MASK_FLAG : Z := 0.
Definition FSAL_ACE4_MASK_FLAG : Z := 0x80000000.
Definition FSAL_ACE4_PERM_CONTINUE : Z := 0x40000000.
Definition FSAL_ACE4_REQ_FLAG : Z := 0x10000000.

Definition ATTR_MODE : Z := 0x80.
Definition ATTR_ACL : Z := 0x20.

(** The permission bits of [sys/stat.h]. *)
Definition S_IRUSR : Z := 256.
Definition S_IWUSR : Z := 128.
Definition S_IXUSR : Z := 64.
Definition S_IRGRP : Z := 32.
Definition S_IWGRP : Z := 16.
Definition S_IXGRP : Z := 8.
Definition S_IROTH : Z := 4.
Definition S_IWOTH : Z := 2.
Definition S_IXOTH : Z := 1.
Definition S_IRWXU : Z := 448.
Definition S_IRWXG : Z := 56.
Definition S_IRWXO : Z := 7.

(** The macros over ACEs. *)
Definition IS_FSAL_ACE_BIT (word bit : Z) : bool := negb (Z.land word bit =? 0).
Definition IS_FSAL_ACE_FLAG (ace : fsal_ace_t) (bit : Z) : bool :=
  IS_FSAL_ACE_BIT (ace_flag ace) bit.
Definition IS_FSAL_ACE_ALLOW (ace : fsal_ace_t) : bool := ace_type ace =? FSAL_ACE_TYPE_ALLOW.
Definition IS_FSAL_ACE_DENY (ace : fsal_ace_t) : bool := ace_type ace =? FSAL_ACE_TYPE_DENY.
Definition IS_FSAL_ACE_PERM (ace : fsal_ace_t) : bool :=
  IS_FSAL_ACE_ALLOW ace || IS_FSAL_ACE_DENY ace.
Definition IS_FSAL_ACE_FILE_INHERIT ace := IS_FSAL_ACE_FLAG ace FSAL_ACE_FLAG_FILE_INHERIT.
Definition IS_FSAL_ACE_DIR_INHERIT ace := IS_FSAL_ACE_FLAG ace FSAL_ACE_FLAG_DIR_INHERIT.
Definition IS_FSAL_ACE_NO_PROPAGATE ace := IS_FSAL_ACE_FLAG ace FSAL_ACE_FLAG_NO_PROPAGATE.
Definition IS_FSAL_ACE_INHERIT_ONLY ace := IS_FSAL_ACE_FLAG ace FSAL_ACE_FLAG_INHERIT_ONLY.
Definition IS_FSAL_ACE_GROUP_ID ace := IS_FSAL_ACE_FLAG ace FSAL_ACE_FLAG_GROUP_ID.
Definition IS_FSAL_ACE_INHERIT ace := IS_FSAL_ACE_FLAG ace FSAL_ACE_FLAG_INHERIT.
Definition IS_FSAL_ACE_MODE_GEN ace := IS_FSAL_ACE_BIT (ace_iflag ace) FSAL_ACE_IFLAG_MODE_GEN.
Definition IS_FSAL_ACE_SPECIAL_ID ace := IS_FSAL_ACE_BIT (ace_iflag ace) FSAL_ACE_IFLAG_SPECIAL_ID.
Definition IS_FSAL_FILE_APPLICABLE ace :=
  negb (IS_FSAL_ACE_BIT (ace_iflag ace) FSAL_ACE_IFLAG_EXCLUDE_FILES).
Definition IS_FSAL_DIR_APPLICABLE ace :=
  negb (IS_FSAL_ACE_BIT (ace_iflag ace) FSAL_ACE_IFLAG_EXCLUDE_DIRS).
Definition IS_FSAL_ACE_SPECIAL_OWNER ace := ace_who ace =? FSAL_ACE_SPECIAL_OWNER.
Definition IS_FSAL_ACE_SPECIAL_GROUP ace := ace_who ace =? FSAL_ACE_SPECIAL_GROUP.
Definition IS_FSAL_ACE_SPECIAL_EVERYONE ace := ace_who ace =? FSAL_ACE_SPECIAL_EVERYONE.
Definition IS_FSAL_ACE_SPECIAL ace :=
  IS_FSAL_ACE_SPECIAL_OWNER ace || IS_FSAL_ACE_SPECIAL_GROUP ace || IS_FSAL_ACE_SPECIAL_EVERYONE ace.

Definition FSAL_MODE_MASK (access : Z) : Z := Z.land access FSAL_MODE_BIT_MASK.
Definition FSAL_ACE4_MASK (access : Z) : Z := Z.land access FSAL_ACE4_BIT_MASK.
Definition FSAL_MODE_MASK_SET (access : Z) : Z := Z.lor access FSAL_MODE_MASK_FLAG.
Definition FSAL_ACE4_MASK_SET (access : Z) : Z := Z.lor access FSAL_ACE4_MASK_FLAG.
Definition IS_FSAL_ACE4_MASK_VALID (access : Z) : bool :=
  Z.land access FSAL_ACCESS_FLAG_BIT_MASK =? FSAL_ACE4_MASK_FLAG.
Definition IS_FSAL_ACE4_REQ (access : Z) : bool := IS_FSAL_ACE_BIT access FSAL_ACE4_REQ_FLAG.

(** [x & ~y]. *)
Definition clear_bits (x y : Z) : Z := Z.land x (Z.lnot y).

(** [*p |= v] and [*p = v] through a pointer that may be NULL. *)
Definition or_out (v : Z) (p : option Z) : option Z := (fun x => Z.lor x v) <$> p.
Definition set_out (v : Z) (p : option Z) : option Z := (fun _ => v) <$> p.

(** ** The access check ([FSAL/access_check.c]) *)

Definition fsal_check_ace_owner (uid : Z) (creds : user_cred) : bool := caller_uid creds =? uid.

Definition fsal_check_ace_group (gid : Z) (creds : user_cred) : bool :=
  if caller_gid creds =? gid then true
  else existsb (fun g => g =? gid) (caller_garray creds).

Definition fsal_check_ace_matches (pace : fsal_ace_t) (creds : user_cred)
    (is_owner is_group : bool) : bool :=
  if IS_FSAL_ACE_SPECIAL_ID pace then
    if ace_who pace =? FSAL_ACE_SPECIAL_OWNER then is_owner
    else if ace_who pace =? FSAL_ACE_SPECIAL_GROUP then is_group
    else if ace_who pace =? FSAL_ACE_SPECIAL_EVERYONE then true
    else false
  else if IS_FSAL_ACE_GROUP_ID pace then fsal_check_ace_group (ace_who pace) creds
  else fsal_check_ace_owner (ace_who pace) creds.

Definition fsal_check_ace_applicable (pace : fsal_ace_t) (creds : user_cred)
    (is_dir is_owner is_group is_root : bool) : bool :=
  if IS_FSAL_ACE_INHERIT_ONLY pace then false
  else if negb is_dir && negb (IS_FSAL_FILE_APPLICABLE pace) then false
  else if is_dir && negb (IS_FSAL_DIR_APPLICABLE pace) then false
  else is_root || fsal_check_ace_matches pace creds is_owner is_group.

(** [is_superuser] of [FSAL/default_methods.c]. *)
Definition is_superuser (creds : user_cred) : bool := caller_uid creds =? 0.

Section access.
(** The build option [ENABLE_RFC_ACL]. *)
Context (ENABLE_RFC_ACL : bool).

(** The error for denied access to the permissions [perm]. *)
Definition denied_status (perm : Z) : fsal_errors_t :=
  if ENABLE_RFC_ACL then ERR_FSAL_ACCESS
  else if IS_FSAL_ACE_BIT perm
            (Z.lor FSAL_ACE_PERM_WRITE_ATTR (Z.lor FSAL_ACE_PERM_WRITE_ACL FSAL_ACE_PERM_WRITE_OWNER))
  then ERR_FSAL_PERM else ERR_FSAL_ACCESS.

(** The loop of [fsal_check_access_acl] over the ACEs: [inr] is a return from the
    function, [inl] the end of the loop with the access still missing. *)
Fixpoint check_aces (creds : user_cred) (v4mask : Z) (is_dir is_owner is_group is_root : bool)
    (aces : list fsal_ace_t) (missing_access : Z) (allowed denied : option Z) :
    (Z * option Z * option Z) + (fsal_errors_t * option Z * option Z) :=
  match aces with
  | [] => inl (missing_access, allowed, denied)
  | pace :: rest =>
      let next := check_aces creds v4mask is_dir is_owner is_group is_root rest in
      if negb (IS_FSAL_ACE_ALLOW pace) && negb (IS_FSAL_ACE_DENY pace)
      then next missing_access allowed denied
      else if fsal_check_ace_applicable pace creds is_dir is_owner is_group is_root then
        if IS_FSAL_ACE_ALLOW pace then
          let tperm := match denied with
                       | Some d => clear_bits (ace_perm pace) d
                       | None => ace_perm pace
                       end in
          let allowed' := or_out (Z.land v4mask tperm) allowed in
          let missing' := clear_bits missing_access (Z.land tperm missing_access) in
          if missing' =? 0 then inl (missing', allowed', denied)
          else next missing' allowed' denied
        else if IS_FSAL_ACE_BIT (ace_perm pace) missing_access && negb is_root then
          let denied' := or_out (Z.land v4mask (ace_perm pace)) denied in
          if bool_decide (denied = None) || (Z.land v4mask FSAL_ACE4_PERM_CONTINUE =? 0)
          then inr (denied_status (Z.land (ace_perm pace) missing_access), allowed, denied')
          else
            let missing' := clear_bits missing_access (Z.land (ace_perm pace) missing_access) in
            if missing' =? 0 then inl (missing', allowed, denied')
            else next missing' allowed denied'
        else next missing_access allowed denied
      else next missing_access allowed denied
  end.

(** The permissions the owner of a file always has. *)
Definition owner_perms : Z :=
  Z.lor (Z.lor FSAL_ACE_PERM_WRITE_ACL FSAL_ACE_PERM_READ_ACL)
        (Z.lor FSAL_ACE_PERM_WRITE_ATTR FSAL_ACE_PERM_READ_ATTR).

(** The part of [fsal_check_access_acl] after the checks for the superuser. *)
Definition check_access_aces (creds : user_cred) (v4mask : Z) (attrs : fsal_attrlist)
    (aces : list fsal_ace_t) (is_root : bool) (missing : Z) (allowed denied : option Z) :
    fsal_errors_t * option Z * option Z :=
  let is_dir := bool_decide (attr_type attrs = DIRECTORY) in
  let is_owner := fsal_check_ace_owner (attr_owner attrs) creds in
  let is_group := fsal_check_ace_group (attr_group attrs) creds in
  let allowed1 := if is_owner then or_out (Z.land v4mask owner_perms) allowed else allowed in
  let missing1 := if is_owner then clear_bits missing owner_perms else missing in
  if is_owner && (missing1 =? 0) then (ERR_FSAL_NO_ERROR, allowed1, denied) else
  match check_aces creds v4mask is_dir is_owner is_group is_root aces missing1 allowed1 denied with
  | inr r => r
  | inl (m, al, de) =>
      let status :=
        if IS_FSAL_ACE4_REQ v4mask && negb (m =? 0) then ERR_FSAL_NO_ACE
        else if negb (m =? 0) || match de with Some d => negb (d =? 0) | None => false end
        then denied_status m
        else ERR_FSAL_NO_ERROR in
      (status, al, de)
  end.

(** [allowed] and [denied] are the targets of the pointers, [None] for NULL; the
    result is the major status and the targets afterwards. *)
Definition fsal_check_access_acl (creds : user_cred) (v4mask : Z) (allowed denied : option Z)
    (attrs : fsal_attrlist) : fsal_errors_t * option Z * option Z :=
  let allowed := set_out 0 allowed in
  let denied := set_out 0 denied in
  match attr_acl attrs with
  | None => (ERR_FSAL_NO_ACE, allowed, denied)
  | Some pacl =>
      let missing_access := clear_bits v4mask FSAL_ACE4_PERM_CONTINUE in
      if missing_access =? 0 then (ERR_FSAL_NO_ERROR, allowed, denied) else
      let is_root := is_superuser creds in
      if is_root then
        if decide (attr_type attrs = DIRECTORY) then (ERR_FSAL_NO_ERROR, set_out v4mask allowed, denied)
        else
          let missing := Z.land missing_access FSAL_ACE_PERM_EXECUTE in
          let allowed' := set_out (clear_bits v4mask FSAL_ACE_PERM_EXECUTE) allowed in
          if missing =? 0 then (ERR_FSAL_NO_ERROR, allowed', denied)
          else check_access_aces creds v4mask attrs pacl is_root missing allowed' denied
      else check_access_aces creds v4mask attrs pacl is_root missing_access allowed denied
  end.

Definition fsal_check_access_no_acl (creds : user_cred) (access_type : Z)
    (allowed denied : option Z) (attrs : fsal_attrlist) : fsal_errors_t * option Z * option Z :=
  let allowed := set_out 0 allowed in
  let denied := set_out 0 denied in
  if access_type =? 0 then (ERR_FSAL_NO_ERROR, allowed, denied) else
  let mode := attr_mode attrs in
  if is_superuser creds then
    if decide (attr_type attrs = DIRECTORY) then (ERR_FSAL_NO_ERROR, set_out access_type allowed, denied)
    else
      let rc := (Z.land access_type FSAL_X_OK =? 0)
                || negb (Z.land mode (Z.lor S_IXOTH (Z.lor S_IXUSR S_IXGRP)) =? 0) in
      if rc then (ERR_FSAL_NO_ERROR, set_out access_type allowed, denied)
      else (ERR_FSAL_ACCESS, set_out (clear_bits access_type FSAL_X_OK) allowed,
            set_out (Z.land access_type FSAL_X_OK) denied)
  else
    let mode :=
      if caller_uid creds =? attr_owner attrs then Z.shiftr mode 6
      else if caller_gid creds =? attr_group attrs then Z.shiftr mode 3
      else if existsb (fun g => g =? attr_group attrs) (caller_garray creds) then Z.shiftr mode 3
      else mode in
    let mask := Z.lor (if negb (Z.land mode S_IROTH =? 0) then FSAL_R_OK else 0)
                  (Z.lor (if negb (Z.land mode S_IWOTH =? 0) then FSAL_W_OK else 0)
                         (if negb (Z.land mode S_IXOTH =? 0) then FSAL_X_OK else 0)) in
    (if Z.land mask access_type =? access_type then ERR_FSAL_NO_ERROR else ERR_FSAL_ACCESS,
     set_out (Z.land mask access_type) allowed,
     set_out (Z.land (Z.lnot mask) access_type) denied).

(** [getattrs] is the method of the object's FSAL: an error or the attributes. *)
Definition fsal_test_access (getattrs : fsal_errors_t + fsal_attrlist) (creds : user_cred)
    (access_type : Z) (allowed denied : option Z) (owner_skip : bool) :
    fsal_errors_t * option Z * option Z :=
  match getattrs with
  | inl e => (e, allowed, denied)
  | inr attrs =>
      if owner_skip && (attr_owner attrs =? caller_uid creds)
      then (ERR_FSAL_NO_ERROR, allowed, denied)
      else if IS_FSAL_ACE4_REQ access_type
              || (bool_decide (attr_acl attrs <> None) && IS_FSAL_ACE4_MASK_VALID access_type)
      then fsal_check_access_acl creds (FSAL_ACE4_MASK access_type) allowed denied attrs
      else fsal_check_access_no_acl creds (FSAL_MODE_MASK access_type) allowed denied attrs
  end.

(** ** Removal and renaming ([FSAL/commonlib.c])

    [test_access obj access] is the major status of the method [test_access] of
    an object with no result masks and without owner skip. *)
Section remove.
Context {handle : Type} (test_access : handle -> Z -> fsal_errors_t).

Definition FSAL_IS_ERROR (e : fsal_errors_t) : bool := bool_decide (e <> ERR_FSAL_NO_ERROR).

Definition fsal_remove_access (dir_hdl rem_hdl : handle) (isdir : bool) : fsal_errors_t :=
  let fsal_status := test_access dir_hdl
        (Z.lor (FSAL_MODE_MASK_SET FSAL_X_OK) (FSAL_ACE4_MASK_SET FSAL_ACE_PERM_EXECUTE)) in
  if FSAL_IS_ERROR fsal_status then fsal_status else
  let del_status := test_access rem_hdl
        (Z.lor (Z.lor (FSAL_MODE_MASK_SET FSAL_W_OK) (FSAL_ACE4_MASK_SET FSAL_ACE_PERM_DELETE))
               FSAL_ACE4_REQ_FLAG) in
  let fsal_status := test_access dir_hdl
        (Z.lor (Z.lor (FSAL_MODE_MASK_SET FSAL_W_OK) (FSAL_ACE4_MASK_SET FSAL_ACE_PERM_DELETE_CHILD))
               FSAL_ACE4_REQ_FLAG) in
  if FSAL_IS_ERROR fsal_status && FSAL_IS_ERROR del_status then
    if decide (fsal_status <> ERR_FSAL_NO_ACE) then fsal_status else
    if decide (del_status <> ERR_FSAL_NO_ACE) then del_status else
    let fsal_status := test_access dir_hdl
          (Z.lor (FSAL_MODE_MASK_SET FSAL_W_OK)
                 (FSAL_ACE4_MASK_SET (if isdir then FSAL_ACE_PERM_ADD_SUBDIRECTORY
                                      else FSAL_ACE_PERM_ADD_FILE))) in
    if FSAL_IS_ERROR fsal_status then fsal_status else ERR_FSAL_NO_ERROR
  else ERR_FSAL_NO_ERROR.

Definition fsal_rename_access (src_dir src_obj dst_dir : handle) (dst_obj : option handle)
    (isdir : bool) : fsal_errors_t :=
  let status := fsal_remove_access src_dir src_obj isdir in
  if FSAL_IS_ERROR status then status else
  let status := match dst_obj with
                | Some o => fsal_remove_access dst_dir o isdir
                | None => ERR_FSAL_NO_ERROR
                end in
  if FSAL_IS_ERROR status then status else
  let access_type := Z.lor (FSAL_MODE_MASK_SET FSAL_W_OK)
        (if isdir then FSAL_ACE4_MASK_SET FSAL_ACE_PERM_ADD_SUBDIRECTORY
         else FSAL_ACE4_MASK_SET FSAL_ACE_PERM_ADD_FILE) in
  let status := test_access dst_dir access_type in
  if FSAL_IS_ERROR status then status else ERR_FSAL_NO_ERROR.

End remove.
End access.

(** ** Inheritance and conversions ([FSAL/commonlib.c]) *)

Definition set_flag (f : Z) (a : fsal_ace_t) : fsal_ace_t :=
  {| ace_type := ace_type a; ace_perm := ace_perm a; ace_flag := f;
     ace_iflag := ace_iflag a; ace_who := ace_who a |}.
Definition set_perm (p : Z) (a : fsal_ace_t) : fsal_ace_t :=
  {| ace_type := ace_type a; ace_perm := p; ace_flag := ace_flag a;
     ace_iflag := ace_iflag a; ace_who := ace_who a |}.
Definition set_type (ty : Z) (a : fsal_ace_t) : fsal_ace_t :=
  {| ace_type := ty; ace_perm := ace_perm a; ace_flag := ace_flag a;
     ace_iflag := ace_iflag a; ace_who := ace_who a |}.
Definition set_acl (acl : list fsal_ace_t) (a : fsal_attrlist) : fsal_attrlist :=
  {| attr_owner := attr_owner a; attr_group := attr_group a; attr_mode := attr_mode a;
     attr_type := attr_type a; attr_acl := Some acl; valid_mask := Z.lor (valid_mask a) ATTR_ACL |}.
Definition set_attr_mode (m : Z) (a : fsal_attrlist) : fsal_attrlist :=
  {| attr_owner := attr_owner a; attr_group := attr_group a; attr_mode := m;
     attr_type := attr_type a; attr_acl := attr_acl a; valid_mask := Z.lor (valid_mask a) ATTR_MODE |}.

(** An array of ACEs from [nfs4_ace_alloc], which zeroes it, and a store into one,
    undefined outside the array. *)
Definition zero_ace : fsal_ace_t :=
  {| ace_type := 0; ace_perm := 0; ace_flag := 0; ace_iflag := 0; ace_who := 0 |}.
Definition nfs4_ace_alloc (n : nat) : list fsal_ace_t := replicate n zero_ace.
Definition store_ace (i : nat) (a : fsal_ace_t) (l : list fsal_ace_t) : option (list fsal_ace_t) :=
  if decide (i < length l)%nat then Some (<[i := a]> l) else None.

Definition is_dup_ace (ace : fsal_ace_t) (inherit : Z) : bool :=
  if negb (IS_FSAL_ACE_INHERIT ace) then false
  else if negb (inherit =? FSAL_ACE_FLAG_DIR_INHERIT) then false
  else if IS_FSAL_ACE_NO_PROPAGATE ace then false
  else if IS_FSAL_ACE_FILE_INHERIT ace && negb (IS_FSAL_ACE_DIR_INHERIT ace) then false
  else if negb (IS_FSAL_ACE_PERM ace) then false
  else true.

(** [dup_ace]: the new values of the two entries. *)
Definition dup_ace (sace : fsal_ace_t) : fsal_ace_t * fsal_ace_t :=
  (set_flag (Z.lor (ace_flag sace) FSAL_ACE_FLAG_INHERIT_ONLY) sace,
   set_flag (clear_bits (ace_flag sace) (Z.lor FSAL_ACE_FLAG_INHERIT FSAL_ACE_FLAG_NO_PROPAGATE)) sace).

(** The number of entries [fsal_inherit_acls] allocates. *)
Definition count_inherited (inherit : Z) (sacl : list fsal_ace_t) : nat :=
  foldl (fun naces sace =>
    let n := if IS_FSAL_ACE_FLAG sace inherit then S naces else naces in
    if is_dup_ace sace inherit then S n else n) O sacl.

(** The copying loop of [fsal_inherit_acls]; [dace] indexes the array [dst]. *)
Fixpoint inherit_loop (inherit : Z) (sacl : list fsal_ace_t) (dace : nat) (dst : list fsal_ace_t) :
    option (nat * list fsal_ace_t) :=
  match sacl with
  | [] => Some (dace, dst)
  | sace :: rest =>
      if IS_FSAL_ACE_FLAG sace inherit then
        if IS_FSAL_ACE_NO_PROPAGATE sace then
          dst' ← store_ace dace
            (set_flag (clear_bits (ace_flag sace)
                         (Z.lor FSAL_ACE_FLAG_INHERIT FSAL_ACE_FLAG_NO_PROPAGATE)) sace) dst;
          inherit_loop inherit rest (S dace) dst'
        else if (inherit =? FSAL_ACE_FLAG_DIR_INHERIT) && IS_FSAL_ACE_FILE_INHERIT sace
                && negb (IS_FSAL_ACE_DIR_INHERIT sace) then
          dst' ← store_ace dace
            (set_flag (Z.lor (ace_flag sace) FSAL_ACE_FLAG_NO_PROPAGATE) sace) dst;
          inherit_loop inherit rest (S dace) dst'
        else if is_dup_ace sace inherit then
          dst1 ← store_ace dace (fst (dup_ace sace)) dst;
          dst2 ← store_ace (S dace) (snd (dup_ace sace)) dst1;
          inherit_loop inherit rest (S (S dace)) dst2
        else
          dst' ← store_ace dace sace dst;
          inherit_loop inherit rest (S dace) dst'
      else inherit_loop inherit rest dace dst
  end.

(** [None]: a store outside the array. *)
Definition fsal_inherit_acls (attrs : fsal_attrlist) (sacl : option (list fsal_ace_t))
    (inherit : Z) : option (fsal_errors_t * fsal_attrlist) :=
  match sacl with
  | None | Some [] => Some (ERR_FSAL_NO_ERROR, attrs)
  | Some aces =>
      match attr_acl attrs with
      | Some (_ :: _) => Some (ERR_FSAL_EXIST, attrs)
      | _ =>
          let naces := count_inherited inherit aces in
          if decide (naces = O) then Some (ERR_FSAL_NO_ERROR, attrs) else
          '(_, dst) ← inherit_loop inherit aces O (nfs4_ace_alloc naces);
          Some (ERR_FSAL_NO_ERROR, set_acl dst attrs)
      end
  end.

(** The permissions of the entries [deny] and [allow] for the owner bits of [mode]. *)
Definition fsal_mode_set_ace (deny allow : fsal_ace_t) (mode : Z) : fsal_ace_t * fsal_ace_t :=
  let step (bit perm : Z) '(d, a) :=
    if negb (Z.land mode bit =? 0) then (d, set_perm (Z.lor (ace_perm a) perm) a)
    else (set_perm (Z.lor (ace_perm d) perm) d, a) in
  step S_IXUSR FSAL_ACE_PERM_EXECUTE
    (step S_IWUSR (Z.lor FSAL_ACE_PERM_WRITE_DATA FSAL_ACE_PERM_APPEND_DATA)
      (step S_IRUSR FSAL_ACE_PERM_READ_DATA
        (set_type FSAL_ACE_TYPE_DENY deny, set_type FSAL_ACE_TYPE_ALLOW allow))).

(** The settings [fsal_mode_gen_set] makes before it sets the permissions. *)
Definition mode_gen_ace (who flag : Z) (a : fsal_ace_t) : fsal_ace_t :=
  {| ace_type := ace_type a; ace_perm := ace_perm a; ace_flag := flag;
     ace_iflag := Z.lor (ace_iflag a) (Z.lor FSAL_ACE_IFLAG_MODE_GEN FSAL_ACE_IFLAG_SPECIAL_ID);
     ace_who := who |}.

(** The pair of entries at index [i] that [fsal_mode_gen_set] makes for one class. *)
Definition gen_set_pair (i : nat) (who : Z) (flag : fsal_ace_t -> Z) (m : Z) (l : list fsal_ace_t) :
    option (list fsal_ace_t) :=
  deny ← l !! i; allow ← l !! S i;
  let '(d, a) := fsal_mode_set_ace (mode_gen_ace who (flag deny) deny)
                   (mode_gen_ace who (flag allow) allow) m in
  l' ← store_ace i d l; store_ace (S i) a l'.

(** [fsal_mode_gen_set] on the entries from index [ace] on. *)
Definition fsal_mode_gen_set (ace : nat) (mode : Z) (l : list fsal_ace_t) : option (list fsal_ace_t) :=
  l1 ← gen_set_pair ace FSAL_ACE_SPECIAL_OWNER ace_flag (Z.land mode S_IRWXU) l;
  l2 ← gen_set_pair (ace + 2)%nat FSAL_ACE_SPECIAL_GROUP (fun _ => FSAL_ACE_FLAG_GROUP_ID)
         (Z.shiftl (Z.land mode S_IRWXG) 3) l1;
  gen_set_pair (ace + 4)%nat FSAL_ACE_SPECIAL_EVERYONE ace_flag
    (Z.shiftl (Z.land mode S_IRWXO) 6) l2.

Definition fsal_mode_gen_acl (attrs : fsal_attrlist) : option (fsal_errors_t * fsal_attrlist) :=
  aces ← fsal_mode_gen_set O (attr_mode attrs) (nfs4_ace_alloc 6);
  Some (ERR_FSAL_NO_ERROR, set_acl aces attrs).

(** The number of entries [fsal_mode_to_acl] keeps. *)
Definition count_kept (sacl : list fsal_ace_t) : nat :=
  foldl (fun naces sace =>
    if IS_FSAL_ACE_MODE_GEN sace then naces
    else if IS_FSAL_ACE_INHERIT_ONLY sace then S naces
    else if negb (IS_FSAL_ACE_PERM sace) then S naces
    else if IS_FSAL_ACE_INHERIT sace then S (S naces) else S naces) O sacl.

Definition mode_perms : Z :=
  Z.lor (Z.lor (Z.lor FSAL_ACE_PERM_READ_DATA FSAL_ACE_PERM_LIST_DIR)
               (Z.lor FSAL_ACE_PERM_WRITE_DATA FSAL_ACE_PERM_ADD_FILE))
        (Z.lor (Z.lor FSAL_ACE_PERM_APPEND_DATA FSAL_ACE_PERM_ADD_SUBDIRECTORY)
               FSAL_ACE_PERM_EXECUTE).

(** The special entries lose the permissions the mode speaks about. *)
Definition strip_special (a : fsal_ace_t) : fsal_ace_t :=
  if IS_FSAL_ACE_SPECIAL a then set_perm (clear_bits (ace_perm a) mode_perms) a else a.

(** The copying loop of [fsal_mode_to_acl]: the index [dace] is advanced for every
    source entry, skipped ones included; [naces] counts the entries written. *)
Fixpoint mode_to_acl_loop (sacl : list fsal_ace_t) (dace naces : nat) (dst : list fsal_ace_t) :
    option (nat * nat * list fsal_ace_t) :=
  match sacl with
  | [] => Some (dace, naces, dst)
  | sace :: rest =>
      if IS_FSAL_ACE_MODE_GEN sace then mode_to_acl_loop rest (S dace) naces dst
      else if IS_FSAL_ACE_INHERIT_ONLY sace || negb (IS_FSAL_ACE_PERM sace) then
        dst' ← store_ace dace sace dst;
        mode_to_acl_loop rest (S dace) (S naces) dst'
      else if IS_FSAL_ACE_INHERIT sace then
        dst1 ← store_ace dace (set_flag (Z.lor (ace_flag sace) FSAL_ACE_FLAG_INHERIT_ONLY) sace) dst;
        dst2 ← store_ace (S dace)
          (strip_special (set_flag (clear_bits (ace_flag sace) FSAL_ACE_FLAG_INHERIT) sace)) dst1;
        mode_to_acl_loop rest (S (S dace)) (S (S naces)) dst2
      else
        dst' ← store_ace dace (strip_special sace) dst;
        mode_to_acl_loop rest (S dace) (S naces) dst'
  end.

Definition fsal_mode_to_acl (attrs : fsal_attrlist) (sacl : option (list fsal_ace_t)) :
    option (fsal_errors_t * fsal_attrlist) :=
  if Z.land (valid_mask attrs) ATTR_MODE =? 0 then Some (ERR_FSAL_NO_ERROR, attrs) else
  match sacl with
  | None | Some [] => fsal_mode_gen_acl attrs
  | Some aces =>
      let kept := count_kept aces in
      if decide (kept = O) then fsal_mode_gen_acl attrs else
      '(dace, n, dst) ← mode_to_acl_loop aces O O (nfs4_ace_alloc (kept + 6));
      if decide (n <> kept) then
        Some (ERR_FSAL_SERVERFAULT,
              {| attr_owner := attr_owner attrs; attr_group := attr_group attrs;
                 attr_mode := attr_mode attrs; attr_type := attr_type attrs;
                 attr_acl := Some (take n dst); valid_mask := valid_mask attrs |})
      else
      dst' ← fsal_mode_gen_set dace (attr_mode attrs) dst;
      Some (ERR_FSAL_NO_ERROR, set_acl dst' attrs)
  end.

(** [ace_modes]. *)
Definition ace_modes (ace : fsal_ace_t) : option (Z * Z * Z) :=
  if IS_FSAL_ACE_SPECIAL_OWNER ace then Some (S_IRUSR, S_IWUSR, S_IXUSR)
  else if IS_FSAL_ACE_SPECIAL_GROUP ace then Some (S_IRGRP, S_IWGRP, S_IXGRP)
  else if IS_FSAL_ACE_SPECIAL_EVERYONE ace then
    Some (Z.lor S_IRUSR (Z.lor S_IRGRP S_IROTH), Z.lor S_IWUSR (Z.lor S_IWGRP S_IWOTH),
          Z.lor S_IXUSR (Z.lor S_IXGRP S_IXOTH))
  else None.

Definition set_mode (m mode : Z) (allow : bool) : Z :=
  if allow then Z.lor m mode else clear_bits m mode.

(** The effect of one entry on the mode in [fsal_acl_to_mode]. *)
Definition ace_to_mode (m : Z) (ace : fsal_ace_t) : Z :=
  match ace_modes ace with
  | None => m
  | Some (r, w, x) =>
      let m1 := if IS_FSAL_ACE_BIT (ace_perm ace) FSAL_ACE_PERM_READ_DATA
                then set_mode m r (IS_FSAL_ACE_ALLOW ace) else m in
      let m2 := if IS_FSAL_ACE_BIT (ace_perm ace) FSAL_ACE_PERM_WRITE_DATA
                   || IS_FSAL_ACE_BIT (ace_perm ace) FSAL_ACE_PERM_APPEND_DATA
                then set_mode m1 w (IS_FSAL_ACE_ALLOW ace) else m1 in
      if IS_FSAL_ACE_BIT (ace_perm ace) FSAL_ACE_PERM_EXECUTE
      then set_mode m2 x (IS_FSAL_ACE_ALLOW ace) else m2
  end.

Definition fsal_acl_to_mode (attrs : fsal_attrlist) : fsal_attrlist :=
  if Z.land (valid_mask attrs) ATTR_ACL =? 0 then attrs else
  match attr_acl attrs with
  | None | Some [] => attrs
  | Some aces => set_attr_mode (foldl ace_to_mode (attr_mode attrs) aces) attrs
  end.
