(* ===== verification/AclTheorems.v ===== *)
(** * Theorems about access control

    The evaluation of an ACL against the first-match semantics of NFSv4 ACLs, the
    agreement of a mode with the ACL generated from it, and the memory safety of
    inheritance and conversion. *)
From S2P Require Import Prelude Status Acl.
Local Open Scope Z_scope.

(** ** Bits *)

Lemma clear_bits_spec x y i : 0 <= i ->
  Z.testbit (clear_bits x y) i = Z.testbit x i && negb (Z.testbit y i).
Proof. intros. unfold clear_bits. by rewrite Z.land_spec, Z.lnot_spec. Qed.

Lemma zero_bits x : x = 0 <-> forall i, 0 <= i -> Z.testbit x i = false.
Proof.
  split; [intros -> i _; apply Z.bits_0|]. intros H. apply Z.bits_inj'. intros i Hi.
  by rewrite Z.bits_0, H.
Qed.

Lemma is_bit_false x y :
  IS_FSAL_ACE_BIT x y = false <-> forall i, 0 <= i -> Z.testbit x i && Z.testbit y i = false.
Proof.
  unfold IS_FSAL_ACE_BIT. rewrite negb_false_iff, Z.eqb_eq, zero_bits.
  by setoid_rewrite Z.land_spec.
Qed.

Lemma nonzero_bit x : 0 <= x -> x <> 0 -> exists i, 0 <= i /\ Z.testbit x i = true.
Proof. intros. exists (Z.log2 x). split; [apply Z.log2_nonneg|apply Z.bit_log2; lia]. Qed.

Lemma is_bit_true x y : 0 <= y ->
  IS_FSAL_ACE_BIT x y = true -> exists i, 0 <= i /\ Z.testbit x i = true /\ Z.testbit y i = true.
Proof.
  unfold IS_FSAL_ACE_BIT. intros Hy Hne%negb_true_iff%Z.eqb_neq.
  destruct (nonzero_bit (Z.land x y)) as (i & Hi & Hb); [apply Z.land_nonneg; auto|done|].
  rewrite Z.land_spec in Hb. apply andb_true_iff in Hb as [? ?]. eauto.
Qed.

Lemma clear_bits_nonneg x y : 0 <= x -> 0 <= clear_bits x y.
Proof. intros. apply Z.land_nonneg. auto. Qed.

(** [IS_FSAL_ACE_BIT] of a single bit. *)
Lemma is_single_bit x k : 0 <= k -> IS_FSAL_ACE_BIT x (2 ^ k) = Z.testbit x k.
Proof.
  intros Hk. destruct (Z.testbit x k) eqn:Hb.
  - apply not_false_iff_true. rewrite is_bit_false. intros H. specialize (H k Hk).
    by rewrite Hb, Z.pow2_bits_true in H.
  - apply is_bit_false. intros i Hi. rewrite Z.pow2_bits_eqb by done.
    destruct (Z.eqb_spec k i) as [->|]; [by rewrite Hb|apply andb_false_r].
Qed.

(** ** First-match semantics

    NFSv4 ACLs are read in order; for each permission the first entry that
    applies to the caller and names the permission decides. *)
Section first_match.
Context (creds : user_cred) (is_dir is_owner is_group : bool).

Definition ace_speaks (i : Z) (a : fsal_ace_t) : option bool :=
  if IS_FSAL_ACE_PERM a && fsal_check_ace_applicable a creds is_dir is_owner is_group false
     && Z.testbit (ace_perm a) i
  then Some (IS_FSAL_ACE_ALLOW a) else None.

Fixpoint first_match (i : Z) (aces : list fsal_ace_t) : option bool :=
  match aces with
  | [] => None
  | a :: rest => match ace_speaks i a with Some b => Some b | None => first_match i rest end
  end.

(** The loop decided that everything asked for is allowed. *)
Definition loop_ok (r : (Z * option Z * option Z) + (fsal_errors_t * option Z * option Z)) : Prop :=
  match r with inl (m, _, _) => m = 0 | inr _ => False end.

Context (rfc : bool) (v4mask : Z).

(** Without a [denied] mask the loop allows exactly what the first matches allow. *)
Lemma check_aces_first_match aces missing allowed :
  0 <= missing -> missing <> 0 ->
  loop_ok (check_aces rfc creds v4mask is_dir is_owner is_group false aces missing allowed None) <->
  forall i, 0 <= i -> Z.testbit missing i = true -> first_match i aces = Some true.
Proof.
  revert missing allowed. induction aces as [|a aces IH]; intros missing allowed Hm Hne; simpl.
  { split; [done|]. intros H. destruct (nonzero_bit missing) as (i & Hi & Hb); auto.
    by specialize (H i Hi Hb). }
  unfold ace_speaks, IS_FSAL_ACE_PERM.
  destruct (IS_FSAL_ACE_ALLOW a) eqn:Hal; simpl.
  - destruct (fsal_check_ace_applicable _ _ _ _ _ _); simpl; [|by apply IH].
    set (m' := clear_bits missing (Z.land (ace_perm a) missing)).
    assert (forall i, 0 <= i -> Z.testbit m' i = Z.testbit missing i && negb (Z.testbit (ace_perm a) i)) as Hm'.
    { intros i Hi. unfold m'. rewrite clear_bits_spec, Z.land_spec by done.
      destruct (Z.testbit missing i), (Z.testbit (ace_perm a) i); done. }
    destruct (Z.eqb_spec m' 0) as [Hz|Hz]; simpl.
    + split; [|done]. intros _ i Hi Hb. rewrite zero_bits in Hz. specialize (Hz i Hi).
      rewrite Hm', Hb in Hz by done. by apply negb_false_iff in Hz as ->.
    + rewrite IH by (try done; by apply clear_bits_nonneg). apply forall_proper. intros i.
      destruct (decide (0 <= i)) as [Hi|]; [|naive_solver]. rewrite Hm' by done.
      destruct (Z.testbit missing i), (Z.testbit (ace_perm a) i); naive_solver.
  - destruct (IS_FSAL_ACE_DENY a); simpl; [|by apply IH].
    destruct (fsal_check_ace_applicable _ _ _ _ _ _); simpl; [|by apply IH].
    destruct (IS_FSAL_ACE_BIT (ace_perm a) missing) eqn:Hd; simpl.
    + split; [done|]. intros H.
      apply is_bit_true in Hd as (i & Hi & Hb & Hb'); [|done]. specialize (H i Hi Hb').
      by rewrite Hb in H.
    + rewrite IH by done. apply forall_proper. intros i.
      destruct (decide (0 <= i)) as [Hi|]; [|naive_solver].
      rewrite is_bit_false in Hd. specialize (Hd i Hi).
      destruct (Z.testbit missing i), (Z.testbit (ace_perm a) i); naive_solver.
Qed.

(** With a [denied] mask and [FSAL_ACE4_PERM_CONTINUE] the loop runs on, and the
    allowed mask collects exactly what the first matches allow. *)
Lemma check_aces_allowed aces missing allowed denied :
  Z.testbit v4mask 30 = true ->
  (forall i, 0 <= i -> i <> 30 -> Z.testbit v4mask i = true ->
     Z.testbit missing i = negb (Z.testbit allowed i) && negb (Z.testbit denied i)) ->
  exists m al de,
    check_aces rfc creds v4mask is_dir is_owner is_group false aces missing (Some allowed) (Some denied)
      = inl (m, Some al, Some de) /\
    forall i, 0 <= i -> i <> 30 -> Z.testbit v4mask i = true ->
      Z.testbit al i = Z.testbit allowed i
        || (Z.testbit missing i && bool_decide (first_match i aces = Some true)).
Proof.
  intros Hc. revert missing allowed denied.
  induction aces as [|a aces IH]; intros missing allowed denied Hinv; simpl.
  { exists missing, allowed, denied. split; [done|]. intros i Hi _ _.
    by rewrite andb_false_r, orb_false_r. }
  assert ((Z.land v4mask FSAL_ACE4_PERM_CONTINUE =? 0) = false) as Hcont.
  { apply not_true_iff_false. rewrite Z.eqb_eq, zero_bits. intros H. specialize (H 30 ltac:(lia)).
    by rewrite Z.land_spec, Hc in H. }
  unfold ace_speaks, IS_FSAL_ACE_PERM.
  destruct (IS_FSAL_ACE_ALLOW a) eqn:Hal; simpl.
  - destruct (fsal_check_ace_applicable _ _ _ _ _ _); simpl; [|by apply IH].
    set (t := clear_bits (ace_perm a) denied). set (m' := clear_bits missing (Z.land t missing)).
    set (al' := Z.lor allowed (Z.land v4mask t)).
    assert (forall i, 0 <= i -> Z.testbit m' i = Z.testbit missing i &&
       negb (Z.testbit (ace_perm a) i && negb (Z.testbit denied i))) as Hm'.
    { intros i Hi. unfold m', t. rewrite clear_bits_spec, Z.land_spec, clear_bits_spec by done.
      destruct (Z.testbit missing i), (Z.testbit (ace_perm a) i), (Z.testbit denied i); done. }
    assert (forall i, 0 <= i -> Z.testbit al' i = Z.testbit allowed i ||
       (Z.testbit v4mask i && (Z.testbit (ace_perm a) i && negb (Z.testbit denied i)))) as Hal'.
    { intros i Hi. unfold al', t. by rewrite Z.lor_spec, Z.land_spec, clear_bits_spec. }
    destruct (Z.eqb_spec m' 0) as [Hz|Hz]; simpl.
    + exists m', al', denied. split; [done|]. intros i Hi H30 Hv. rewrite Hal', Hv by done.
      rewrite zero_bits in Hz. specialize (Hz i Hi). rewrite Hm', Hinv in Hz by done.
      rewrite Hinv by done. simpl.
      destruct (Z.testbit allowed i), (Z.testbit denied i), (Z.testbit (ace_perm a) i);
        simpl in *; try done; by rewrite ?andb_false_r.
    + destruct (IH m' al' denied) as (m & al & de & Heq & Hal2).
      { intros i Hi H30 Hv. rewrite Hm', Hal', Hinv, Hv by done.
        destruct (Z.testbit allowed i), (Z.testbit denied i), (Z.testbit (ace_perm a) i); done. }
      exists m, al, de. split; [done|]. intros i Hi H30 Hv. rewrite Hal2 by done.
      rewrite Hm', Hal', Hinv, Hv by done.
      destruct (Z.testbit allowed i), (Z.testbit denied i), (Z.testbit (ace_perm a) i); done.
  - destruct (IS_FSAL_ACE_DENY a); simpl; [|by apply IH].
    destruct (fsal_check_ace_applicable _ _ _ _ _ _); simpl; [|by apply IH].
    destruct (IS_FSAL_ACE_BIT (ace_perm a) missing) eqn:Hd; simpl.
    + rewrite Hcont. simpl.
      set (m' := clear_bits missing (Z.land (ace_perm a) missing)).
      set (de' := Z.lor denied (Z.land v4mask (ace_perm a))).
      assert (forall i, 0 <= i -> Z.testbit m' i = Z.testbit missing i && negb (Z.testbit (ace_perm a) i)) as Hm'.
      { intros i Hi. unfold m'. rewrite clear_bits_spec, Z.land_spec by done.
        destruct (Z.testbit missing i), (Z.testbit (ace_perm a) i); done. }
      assert (forall i, 0 <= i -> Z.testbit de' i = Z.testbit denied i ||
        (Z.testbit v4mask i && Z.testbit (ace_perm a) i)) as Hde'.
      { intros i Hi. unfold de'. by rewrite Z.lor_spec, Z.land_spec. }
      destruct (Z.eqb_spec m' 0) as [Hz|Hz]; simpl.
      * exists m', allowed, de'. split; [done|]. intros i Hi H30 Hv.
        rewrite zero_bits in Hz. specialize (Hz i Hi). rewrite Hm' in Hz by done.
        destruct (Z.testbit missing i), (Z.testbit (ace_perm a) i); simpl in *; try done;
          by rewrite orb_false_r.
      * destruct (IH m' allowed de') as (m & al & de & Heq & Hal2).
        { intros i Hi H30 Hv. rewrite Hm', Hde', Hinv, Hv by done.
          destruct (Z.testbit allowed i), (Z.testbit denied i), (Z.testbit (ace_perm a) i); done. }
        exists m, al, de. split; [done|]. intros i Hi H30 Hv. rewrite Hal2, Hm' by done.
        destruct (Z.testbit missing i), (Z.testbit (ace_perm a) i); done.
    + destruct (IH missing allowed denied Hinv) as (m & al & de & Heq & Hal2).
      exists m, al, de. split; [done|]. intros i Hi H30 Hv. rewrite Hal2 by done.
      rewrite is_bit_false in Hd. specialize (Hd i Hi).
      destruct (Z.testbit missing i), (Z.testbit (ace_perm a) i); done.
Qed.

End first_match.

(** Only permissions asked for are added to the allowed mask. *)
Lemma check_aces_allowed_sub rfc creds v4mask d o g r aces m al de m' al' de' :
  check_aces rfc creds v4mask d o g r aces m (Some al) de = inl (m', Some al', de') ->
  forall i, 0 <= i -> Z.testbit v4mask i = false -> Z.testbit al' i = Z.testbit al i.
Proof.
  revert m al de. induction aces as [|a aces IH]; intros m al de; simpl; [by intros [= _ <- _]|].
  assert (forall t i, 0 <= i -> Z.testbit v4mask i = false ->
    Z.testbit (Z.lor al (Z.land v4mask t)) i = Z.testbit al i) as Hor.
  { intros t i Hi Hv. by rewrite Z.lor_spec, Z.land_spec, Hv, orb_false_r. }
  repeat case_match; intros; simplify_eq; eauto;
    match goal with H : check_aces _ _ _ _ _ _ _ _ _ _ _ = _ |- _ => by rewrite (IH _ _ _ H), ?Hor end.
Qed.

(** The entries that give the superuser EXECUTE on a file. *)
Definition grants_exec (a : fsal_ace_t) : bool :=
  IS_FSAL_ACE_ALLOW a && negb (IS_FSAL_ACE_INHERIT_ONLY a) && IS_FSAL_FILE_APPLICABLE a
  && Z.testbit (ace_perm a) 5.

Lemma clear_exec p :
  clear_bits FSAL_ACE_PERM_EXECUTE (Z.land p FSAL_ACE_PERM_EXECUTE)
  = if Z.testbit p 5 then 0 else FSAL_ACE_PERM_EXECUTE.
Proof.
  change FSAL_ACE_PERM_EXECUTE with (2 ^ 5). apply Z.bits_inj'. intros i Hi.
  rewrite clear_bits_spec, Z.land_spec, Z.pow2_bits_eqb by done.
  destruct (Z.testbit p 5) eqn:H5; rewrite ?Z.bits_0, ?Z.pow2_bits_eqb by done;
    (destruct (Z.eqb_spec 5 i) as [<-|]; [by rewrite H5|done]).
Qed.

Lemma check_aces_root rfc creds v4mask o g aces allowed :
  loop_ok (check_aces rfc creds v4mask false o g true aces FSAL_ACE_PERM_EXECUTE allowed None) <->
  exists a, a ∈ aces /\ grants_exec a = true.
Proof.
  assert (forall a (aces : list fsal_ace_t), grants_exec a = false ->
    (exists b, b ∈ a :: aces /\ grants_exec b = true) <-> (exists b, b ∈ aces /\ grants_exec b = true))
    as Hskip.
  { intros a l Ha. split; intros (b & Hb & Hg); exists b; (split; [|done]).
    - apply elem_of_cons in Hb as [->|]; [congruence|done].
    - by right. }
  revert allowed. induction aces as [|a aces IH]; intros allowed; cbn [check_aces].
  { split; [done|]. intros (a & Ha & _). by apply elem_of_nil in Ha. }
  destruct (grants_exec a) eqn:Hg.
  - split; [intros _; exists a; split; [by left|done]|]. intros _.
    unfold grants_exec in Hg. rewrite !andb_true_iff, negb_true_iff in Hg.
    destruct Hg as [[[-> Hio] Hfa] H5]. unfold fsal_check_ace_applicable.
    rewrite Hio, Hfa, clear_exec, H5. done.
  - rewrite (Hskip a aces Hg). unfold grants_exec in Hg. unfold fsal_check_ace_applicable.
    rewrite andb_false_r, clear_exec.
    destruct (IS_FSAL_ACE_ALLOW a), (IS_FSAL_ACE_DENY a), (IS_FSAL_ACE_INHERIT_ONLY a),
      (IS_FSAL_FILE_APPLICABLE a), (Z.testbit (ace_perm a) 5); try done; apply IH.
Qed.

(** ** The whole check *)

(** [first_match] for the caller [creds] on the object [attrs]. *)
Definition decided (creds : user_cred) (attrs : fsal_attrlist) (i : Z) (aces : list fsal_ace_t) :
    option bool :=
  first_match creds (bool_decide (attr_type attrs = DIRECTORY))
    (fsal_check_ace_owner (attr_owner attrs) creds)
    (fsal_check_ace_group (attr_group attrs) creds) i aces.

(** The permissions a caller has whatever the ACL says. *)
Definition implicit_perm (creds : user_cred) (attrs : fsal_attrlist) (i : Z) : bool :=
  fsal_check_ace_owner (attr_owner attrs) creds && Z.testbit owner_perms i.

Lemma denied_status_error rfc p : denied_status rfc p <> ERR_FSAL_NO_ERROR.
Proof. unfold denied_status. by repeat case_match. Qed.

(** A return from inside the loop is a denial. *)
Lemma check_aces_inr rfc creds v4mask d o g r aces m al de st al' de' :
  check_aces rfc creds v4mask d o g r aces m al de = inr (st, al', de') -> st <> ERR_FSAL_NO_ERROR.
Proof.
  revert m al de. induction aces as [|a aces IH]; intros m al de; simpl; [done|].
  repeat case_match; try done; try (by apply IH). intros [= <- _ _]. apply denied_status_error.
Qed.

(** Without a denied mask none is made. *)
Lemma check_aces_no_denied rfc creds v4mask d o g r aces m al m' al' de' :
  check_aces rfc creds v4mask d o g r aces m al None = inl (m', al', de') -> de' = None.
Proof.
  revert m al. induction aces as [|a aces IH]; intros m al; simpl; [by intros [= _ _ <-]|].
  repeat case_match; try (by apply IH); try done; intros; by simplify_eq.
Qed.

(** The result of the check without a denied mask. *)
Lemma check_access_aces_ok rfc creds v4mask attrs aces r missing allowed :
  fst (fst (check_access_aces rfc creds v4mask attrs aces r missing allowed None)) = ERR_FSAL_NO_ERROR <->
  let o := fsal_check_ace_owner (attr_owner attrs) creds in
  let m := if o then clear_bits missing owner_perms else missing in
  (o = true /\ m = 0) \/
  loop_ok (check_aces rfc creds v4mask (bool_decide (attr_type attrs = DIRECTORY)) o
    (fsal_check_ace_group (attr_group attrs) creds) r aces m
    (if o then or_out (Z.land v4mask owner_perms) allowed else allowed) None).
Proof.
  unfold check_access_aces. cbv zeta.
  set (o := fsal_check_ace_owner _ _). set (m := if o then clear_bits _ _ else _).
  set (al := if o then or_out _ _ else _).
  destruct (o && (m =? 0)) eqn:Ho.
  { apply andb_true_iff in Ho as [? ?%Z.eqb_eq]. simpl. tauto. }
  assert (~ (o = true /\ m = 0)) as Hno.
  { intros [-> H%Z.eqb_eq]. by rewrite H in Ho. }
  destruct (check_aces _ _ _ _ _ _ _ _ _ _ _) as [[[m' al'] de']|[[st al'] de']] eqn:Hc; simpl.
  - apply check_aces_no_denied in Hc as ->. destruct (Z.eqb_spec m' 0) as [->|]; simpl.
    + rewrite andb_false_r. tauto.
    + rewrite andb_true_r. pose proof (denied_status_error rfc m'). case_match; naive_solver.
  - apply check_aces_inr in Hc. tauto.
Qed.

Lemma continue_bit i : 0 <= i -> Z.testbit FSAL_ACE4_PERM_CONTINUE i = (30 =? i).
Proof. intros. change FSAL_ACE4_PERM_CONTINUE with (2 ^ 30). by rewrite Z.pow2_bits_eqb. Qed.

(** What is missing at the start of the check. *)
Lemma missing_bits v4mask i : 0 <= i ->
  Z.testbit (clear_bits v4mask FSAL_ACE4_PERM_CONTINUE) i = Z.testbit v4mask i && negb (30 =? i).
Proof. intros. by rewrite clear_bits_spec, continue_bit. Qed.

(** The check without a denied mask, for a caller that is not the superuser. *)
Lemma acl_check_first_match rfc creds v4mask allowed attrs aces :
  0 <= v4mask -> attr_acl attrs = Some aces -> is_superuser creds = false ->
  fst (fst (fsal_check_access_acl rfc creds v4mask allowed None attrs)) = ERR_FSAL_NO_ERROR <->
  forall i, 0 <= i -> i <> 30 -> Z.testbit v4mask i = true ->
    implicit_perm creds attrs i = true \/ decided creds attrs i aces = Some true.
Proof.
  intros Hv Hacl Hsu. unfold fsal_check_access_acl, decided, implicit_perm. rewrite Hacl, Hsu.
  cbv zeta. set (o := fsal_check_ace_owner _ _). set (ms := clear_bits _ _).
  assert (0 <= ms) as Hms by by apply clear_bits_nonneg.
  set (m := if o then clear_bits ms owner_perms else ms).
  assert (0 <= m) as Hm by (subst m; destruct o; [by apply clear_bits_nonneg|done]).
  assert (forall i, 0 <= i -> Z.testbit m i =
    Z.testbit v4mask i && negb (30 =? i) && negb (o && Z.testbit owner_perms i)) as Hbits.
  { intros i Hi. rewrite <- missing_bits by done. fold ms. unfold m.
    destruct o; simpl; [by rewrite clear_bits_spec|by rewrite andb_true_r]. }
  assert (forall P : Z -> Prop, (forall i, 0 <= i -> Z.testbit m i = true -> P i) <->
    (forall i, 0 <= i -> i <> 30 -> Z.testbit v4mask i = true ->
       o && Z.testbit owner_perms i = true \/ P i)) as Hspec.
  { intros P. apply forall_proper. intros i. destruct (decide (0 <= i)) as [Hi|]; [|naive_solver].
    rewrite Hbits by done. destruct (Z.eqb_spec 30 i) as [<-|]; [rewrite andb_false_r; naive_solver|].
    destruct (Z.testbit v4mask i), (o && Z.testbit owner_perms i); naive_solver. }
  rewrite <- Hspec. destruct (Z.eqb_spec ms 0) as [Hz|Hz].
  { simpl. split; [|done]. intros _ i Hi Hb. rewrite Hbits in Hb by done.
    rewrite zero_bits in Hz. specialize (Hz i Hi). unfold ms in Hz.
    rewrite missing_bits in Hz by done. by rewrite Hz in Hb. }
  rewrite check_access_aces_ok. cbv zeta. fold o m.
  destruct (decide (m = 0)) as [Hm0|Hm0].
  - assert (o = true) as -> by (subst m; destruct o; [done|congruence]).
    split; [|by left]. intros _ i Hi. by rewrite Hm0, Z.bits_0.
  - rewrite check_aces_first_match by done. intuition done.
Qed.

Section acl_claims.
Context (rfc : bool).

(** C10: the ACL check implements first-match semantics.  For a caller that is
    not the superuser the check succeeds exactly when each permission asked for
    is one the owner of the file always has, or the first entry that applies to
    the caller and names the permission is an ALLOW entry. *)
Theorem fsal_check_access_acl_first_match creds v4mask allowed attrs aces :
  0 <= v4mask -> attr_acl attrs = Some aces -> is_superuser creds = false ->
  fst (fst (fsal_check_access_acl rfc creds v4mask allowed None attrs)) = ERR_FSAL_NO_ERROR <->
  forall i, 0 <= i -> i <> 30 -> Z.testbit v4mask i = true ->
    implicit_perm creds attrs i = true \/ decided creds attrs i aces = Some true.
Proof. apply acl_check_first_match. Qed.

(** The mask of allowed permissions.  Asked to continue after denials, with
    both masks, the check reports as allowed exactly the permissions asked for
    that the owner always has or that their first match allows. *)
Theorem fsal_check_access_acl_allowed creds v4mask a0 d0 attrs aces :
  Z.testbit v4mask 30 = true -> attr_acl attrs = Some aces -> is_superuser creds = false ->
  exists st al de,
    fsal_check_access_acl rfc creds v4mask (Some a0) (Some d0) attrs = (st, Some al, de) /\
    forall i, 0 <= i -> i <> 30 -> Z.testbit al i = Z.testbit v4mask i &&
      (implicit_perm creds attrs i || bool_decide (decided creds attrs i aces = Some true)).
Proof.
  intros H30 Hacl Hsu. unfold fsal_check_access_acl, decided, implicit_perm. rewrite Hacl, Hsu.
  simpl. set (o := fsal_check_ace_owner _ _). set (ms := clear_bits _ _).
  destruct (Z.eqb_spec ms 0) as [Hz|_].
  { exists ERR_FSAL_NO_ERROR, 0, (Some 0). split; [done|]. intros i Hi Hne. rewrite zero_bits in Hz.
    specialize (Hz i Hi). unfold ms in Hz. rewrite missing_bits in Hz by done.
    destruct (Z.eqb_spec 30 i); [done|]. rewrite andb_true_r in Hz. by rewrite Hz, Z.bits_0. }
  unfold check_access_aces. cbv zeta. fold o.
  set (m := if o then clear_bits ms owner_perms else ms).
  set (al := if o then Z.land v4mask owner_perms else 0).
  replace (if o then or_out (Z.land v4mask owner_perms) (Some 0) else Some 0) with (Some al)
    by (unfold al; by destruct o).
  assert (forall i, 0 <= i -> Z.testbit al i = Z.testbit v4mask i && (o && Z.testbit owner_perms i)) as Hal.
  { intros i Hi. unfold al. destruct o; simpl; [by rewrite Z.land_spec|by rewrite Z.bits_0, andb_false_r]. }
  assert (forall i, 0 <= i -> i <> 30 -> Z.testbit m i = Z.testbit v4mask i && negb (o && Z.testbit owner_perms i)) as Hm.
  { intros i Hi Hne. replace (Z.testbit v4mask i) with (Z.testbit ms i).
    - unfold m. destruct o; simpl; [by rewrite clear_bits_spec|by rewrite andb_true_r].
    - unfold ms. rewrite missing_bits by done. destruct (Z.eqb_spec 30 i); [done|]. apply andb_true_r. }
  destruct (o && (m =? 0)) eqn:Ho.
  { apply andb_true_iff in Ho as [Ho Hz%Z.eqb_eq]. exists ERR_FSAL_NO_ERROR, al, (Some 0).
    split; [done|]. intros i Hi Hne. rewrite zero_bits in Hz. specialize (Hz i Hi).
    rewrite Hm in Hz by done. rewrite Hal by done.
    destruct (Z.testbit v4mask i), (o && Z.testbit owner_perms i); done. }
  destruct (check_aces_allowed creds (bool_decide (attr_type attrs = DIRECTORY)) o
    (fsal_check_ace_group (attr_group attrs) creds) rfc v4mask aces m al 0) as (m' & al' & de' & Heq & Hal').
  { done. }
  { intros i Hi Hne Hv. rewrite Hm, Hal, Hv, Z.bits_0 by done. simpl. by rewrite andb_true_r. }
  rewrite Heq. eexists _, al', (Some de'). split; [done|]. intros i Hi Hne.
  destruct (Z.testbit v4mask i) eqn:Hv.
  - rewrite Hal', Hm, Hal, Hv by done. simpl. by destruct (o && Z.testbit owner_perms i).
  - rewrite (check_aces_allowed_sub _ _ _ _ _ _ _ _ _ _ _ _ _ _ Heq i Hi Hv), Hal, Hv by done. done.
Qed.

(** The superuser.  On a directory everything is granted; on another object
    everything but EXECUTE, and EXECUTE only when some ALLOW entry that is not
    inherit-only and applies to files grants it to anyone. *)
Theorem fsal_check_access_acl_superuser creds v4mask allowed attrs aces :
  0 <= v4mask -> attr_acl attrs = Some aces -> is_superuser creds = true ->
  fst (fst (fsal_check_access_acl rfc creds v4mask allowed None attrs)) = ERR_FSAL_NO_ERROR <->
  attr_type attrs = DIRECTORY \/ Z.testbit v4mask 5 = false \/
  exists a, a ∈ aces /\ grants_exec a = true.
Proof.
  intros Hv Hacl Hsu. unfold fsal_check_access_acl. rewrite Hacl, Hsu. cbv zeta.
  assert (Z.land (clear_bits v4mask FSAL_ACE4_PERM_CONTINUE) FSAL_ACE_PERM_EXECUTE
          = if Z.testbit v4mask 5 then FSAL_ACE_PERM_EXECUTE else 0) as ->.
  { apply Z.bits_inj'. intros i Hi. change FSAL_ACE_PERM_EXECUTE with (2 ^ 5).
    rewrite Z.land_spec, missing_bits, Z.pow2_bits_eqb by done. destruct (Z.eqb_spec 5 i) as [<-|].
    - rewrite !andb_true_r. by destruct (Z.testbit v4mask 5).
    - rewrite andb_false_r. destruct (Z.testbit v4mask 5); [|by rewrite Z.bits_0].
      rewrite Z.pow2_bits_eqb by done. by destruct (Z.eqb_spec 5 i). }
  destruct (Z.eqb_spec (clear_bits v4mask FSAL_ACE4_PERM_CONTINUE) 0) as [Hz|_].
  { simpl. split; [|done]. intros _. right. left. rewrite zero_bits in Hz. specialize (Hz 5 ltac:(lia)).
    rewrite missing_bits in Hz by done. by rewrite andb_true_r in Hz. }
  destruct (decide (attr_type attrs = DIRECTORY)) as [Hd|Hd]; [simpl; tauto|].
  destruct (Z.testbit v4mask 5) eqn:H5; [|simpl; tauto].
  change (FSAL_ACE_PERM_EXECUTE =? 0) with false. cbv iota. rewrite check_access_aces_ok. cbv zeta.
  change (clear_bits FSAL_ACE_PERM_EXECUTE owner_perms) with FSAL_ACE_PERM_EXECUTE.
  rewrite bool_decide_eq_false_2 by done.
  replace (if fsal_check_ace_owner (attr_owner attrs) creds then FSAL_ACE_PERM_EXECUTE
           else FSAL_ACE_PERM_EXECUTE) with FSAL_ACE_PERM_EXECUTE by by case_match.
  rewrite check_aces_root. intuition done.
Qed.

End acl_claims.

(** ** Modes and the ACLs generated from them *)

(** The permissions that stand for read, write and execute in an ACL, and the
    flags that ask for them in a mode check. *)
Definition rwx_perm (r w x : bool) : Z :=
  Z.lor (if r then FSAL_ACE_PERM_READ_DATA else 0)
    (Z.lor (if w then Z.lor FSAL_ACE_PERM_WRITE_DATA FSAL_ACE_PERM_APPEND_DATA else 0)
           (if x then FSAL_ACE_PERM_EXECUTE else 0)).
Definition rwx_flags (r w x : bool) : Z :=
  Z.lor (if r then FSAL_R_OK else 0)
    (Z.lor (if w then FSAL_W_OK else 0) (if x then FSAL_X_OK else 0)).

Definition gen_ace (ty who flag perm : Z) : fsal_ace_t :=
  {| ace_type := ty; ace_perm := perm; ace_flag := flag;
     ace_iflag := Z.lor FSAL_ACE_IFLAG_MODE_GEN FSAL_ACE_IFLAG_SPECIAL_ID; ace_who := who |}.
Definition gen_pair (who flag : Z) (r w x : bool) : list fsal_ace_t :=
  [gen_ace FSAL_ACE_TYPE_DENY who flag (rwx_perm (negb r) (negb w) (negb x));
   gen_ace FSAL_ACE_TYPE_ALLOW who flag (rwx_perm r w x)].
Definition gen_aces (mode : Z) : list fsal_ace_t :=
  let b := Z.testbit mode in
  gen_pair FSAL_ACE_SPECIAL_OWNER 0 (b 8) (b 7) (b 6)
  ++ gen_pair FSAL_ACE_SPECIAL_GROUP FSAL_ACE_FLAG_GROUP_ID (b 5) (b 4) (b 3)
  ++ gen_pair FSAL_ACE_SPECIAL_EVERYONE 0 (b 2) (b 1) (b 0).

Lemma mode_set_ace_gen who flag m :
  fsal_mode_set_ace (mode_gen_ace who flag zero_ace) (mode_gen_ace who flag zero_ace) m
  = let b := Z.testbit m in
    (gen_ace FSAL_ACE_TYPE_DENY who flag (rwx_perm (negb (b 8)) (negb (b 7)) (negb (b 6))),
     gen_ace FSAL_ACE_TYPE_ALLOW who flag (rwx_perm (b 8) (b 7) (b 6))).
Proof.
  unfold fsal_mode_set_ace.
  change (negb (Z.land m S_IRUSR =? 0)) with (IS_FSAL_ACE_BIT m (2 ^ 8)).
  change (negb (Z.land m S_IWUSR =? 0)) with (IS_FSAL_ACE_BIT m (2 ^ 7)).
  change (negb (Z.land m S_IXUSR =? 0)) with (IS_FSAL_ACE_BIT m (2 ^ 6)).
  rewrite !is_single_bit by done. cbv zeta.
  by destruct (Z.testbit m 8), (Z.testbit m 7), (Z.testbit m 6).
Qed.

Lemma store_ace_middle pre a b post :
  store_ace (length pre) b (pre ++ a :: post) = Some (pre ++ b :: post).
Proof.
  unfold store_ace. rewrite decide_True by (rewrite length_app; simpl; lia).
  by rewrite insert_app_r_alt, Nat.sub_diag.
Qed.

Lemma gen_set_pair_middle who flag m pre post :
  gen_set_pair (length pre) who flag m (pre ++ zero_ace :: zero_ace :: post)
  = let b := Z.testbit m in
    Some (pre ++ gen_pair who (flag zero_ace) (b 8) (b 7) (b 6) ++ post).
Proof.
  unfold gen_set_pair.
  rewrite (list_lookup_middle pre _ zero_ace (length pre)) by done.
  rewrite (lookup_app_r pre), (Nat.sub_succ_l _ _ (Nat.le_refl _)), Nat.sub_diag by lia.
  cbn [mbind option_bind lookup list_lookup]. rewrite mode_set_ace_gen. cbv zeta iota beta.
  rewrite store_ace_middle. cbn [mbind option_bind].
  set (a := gen_ace _ _ _ _). set (d := gen_ace _ _ _ _).
  replace (S (length pre)) with (length (pre ++ [d])) by (rewrite length_app; simpl; lia).
  replace (pre ++ d :: zero_ace :: post) with ((pre ++ [d]) ++ zero_ace :: post)
    by by rewrite <- app_assoc.
  rewrite store_ace_middle, <- app_assoc. done.
Qed.

(** A generated ACL holds, for owner, group and everyone, a DENY entry for the
    bits that are clear and an ALLOW entry for those that are set. *)
Lemma mode_gen_set_middle mode pre post :
  fsal_mode_gen_set (length pre) mode (pre ++ nfs4_ace_alloc 6 ++ post)
  = Some (pre ++ gen_aces mode ++ post).
Proof.
  unfold fsal_mode_gen_set. cbn [nfs4_ace_alloc replicate app].
  rewrite gen_set_pair_middle. cbv zeta. cbn [mbind option_bind].
  set (p1 := gen_pair _ _ _ _ _). rewrite app_assoc.
  replace (length pre + 2)%nat with (length (pre ++ p1)) by (rewrite length_app; simpl; lia).
  rewrite gen_set_pair_middle. cbv zeta. cbn [mbind option_bind].
  set (p2 := gen_pair FSAL_ACE_SPECIAL_GROUP _ _ _ _). rewrite app_assoc.
  replace (length pre + 4)%nat with (length ((pre ++ p1) ++ p2)) by (rewrite !length_app; simpl; lia).
  rewrite gen_set_pair_middle. cbv zeta. rewrite <- !app_assoc. subst p1 p2.
  rewrite !Z.shiftl_spec, !Z.land_spec by done. 
  unfold gen_aces. cbn [ace_flag zero_ace]. rewrite <- !app_assoc.
  repeat f_equal; apply andb_true_r.
Qed.

Lemma mode_gen_acl_eq attrs :
  fsal_mode_gen_acl attrs = Some (ERR_FSAL_NO_ERROR, set_acl (gen_aces (attr_mode attrs)) attrs).
Proof.
  unfold fsal_mode_gen_acl. pose proof (mode_gen_set_middle (attr_mode attrs) [] []) as H.
  cbn [length app] in H. rewrite !app_nil_r in H. rewrite H. done.
Qed.

(** The permission bits of the class of the caller: owner, group or others. *)
Definition class_shift (creds : user_cred) (attrs : fsal_attrlist) : Z :=
  if fsal_check_ace_owner (attr_owner attrs) creds then 6
  else if fsal_check_ace_group (attr_group attrs) creds then 3 else 0.

(** The bit of the mode that speaks for a permission. *)
Definition perm_bit (i : Z) : option Z :=
  if i =? 0 then Some 2 else if (i =? 1) || (i =? 2) then Some 1 else if i =? 5 then Some 0 else None.

(** The bits [rwx_perm] can set. *)
Lemma rwx_perm_bit r w x i :
  0 <= i -> Z.testbit (rwx_perm r w x) i = true -> i = 0 \/ i = 1 \/ i = 2 \/ i = 5.
Proof.
  intros Hi Hb. assert (0 <= rwx_perm r w x < 2 ^ 6) as Hr by (destruct r, w, x; vm_compute; split; congruence).
  assert (i < 6) as Hlt.
  { destruct (decide (i < 6)); [done|]. exfalso. rewrite <- (Z.mod_small _ _ Hr) in Hb.
    rewrite Z.mod_pow2_bits_high in Hb by lia. done. }
  assert (i = 0 \/ i = 1 \/ i = 2 \/ i = 3 \/ i = 4 \/ i = 5) as Hc by lia.
  destruct Hc as [Hc|[Hc|[Hc|[Hc|[Hc|Hc]]]]]; subst i; eauto; by destruct r, w, x.
Qed.

Lemma rwx_perm_test r w x i k : perm_bit i = Some k ->
  Z.testbit (rwx_perm r w x) i = if k =? 2 then r else if k =? 1 then w else x.
Proof.
  unfold perm_bit. intros Hk. destruct (Z.eqb_spec i 0) as [->|]; [simpl in Hk; simplify_eq; by destruct r, w, x|].
  destruct (Z.eqb_spec i 1) as [->|]; [simpl in Hk; simplify_eq; by destruct r, w, x|].
  destruct (Z.eqb_spec i 2) as [->|]; [simpl in Hk; simplify_eq; by destruct r, w, x|].
  destruct (Z.eqb_spec i 5) as [->|]; [simpl in Hk; simplify_eq; by destruct r, w, x|]. done.
Qed.

(** The pair of a class decides for the callers in the class. *)
Lemma first_match_pair creds d o g i k who flag r w x rest :
  perm_bit i = Some k -> IS_FSAL_ACE_BIT flag FSAL_ACE_FLAG_INHERIT_ONLY = false ->
  first_match creds d o g i (gen_pair who flag r w x ++ rest)
  = if (if who =? FSAL_ACE_SPECIAL_OWNER then o else if who =? FSAL_ACE_SPECIAL_GROUP then g
        else who =? FSAL_ACE_SPECIAL_EVERYONE)
    then Some (if k =? 2 then r else if k =? 1 then w else x)
    else first_match creds d o g i rest.
Proof.
  intros Hk Hf.
  assert (forall ty p, ace_speaks creds d o g i (gen_ace ty who flag p)
    = if IS_FSAL_ACE_PERM (gen_ace ty who flag p)
         && (if who =? FSAL_ACE_SPECIAL_OWNER then o else if who =? FSAL_ACE_SPECIAL_GROUP then g
             else who =? FSAL_ACE_SPECIAL_EVERYONE) && Z.testbit p i
      then Some (ty =? FSAL_ACE_TYPE_ALLOW) else None) as Hs.
  { intros ty p. unfold ace_speaks, fsal_check_ace_applicable, fsal_check_ace_matches,
      IS_FSAL_ACE_INHERIT_ONLY, IS_FSAL_ACE_FLAG. cbn [ace_flag gen_ace]. rewrite Hf.
    change (IS_FSAL_FILE_APPLICABLE _) with true. change (IS_FSAL_DIR_APPLICABLE _) with true.
    change (IS_FSAL_ACE_SPECIAL_ID _) with true. cbn [ace_who ace_perm gen_ace].
    rewrite !andb_false_r. cbn [orb]. do 4 f_equal. by destruct (who =? FSAL_ACE_SPECIAL_EVERYONE). }
  cbn [gen_pair app first_match]. rewrite !Hs.
  change (IS_FSAL_ACE_PERM (gen_ace FSAL_ACE_TYPE_DENY who flag _)) with true.
  change (IS_FSAL_ACE_PERM (gen_ace FSAL_ACE_TYPE_ALLOW who flag _)) with true.
  rewrite !(rwx_perm_test _ _ _ _ _ Hk).
  destruct (if who =? FSAL_ACE_SPECIAL_OWNER then o else _); [|done].
  destruct (k =? 2), (k =? 1), r, w, x; done.
Qed.

(** In a generated ACL the first match is the entry of the caller's class. *)
Lemma decided_gen creds attrs mode i k :
  perm_bit i = Some k ->
  decided creds attrs i (gen_aces mode) = Some (Z.testbit mode (class_shift creds attrs + k)).
Proof.
  intros Hk. unfold decided, gen_aces, class_shift. cbv zeta.
  rewrite !(first_match_pair _ _ _ _ _ k), <- (app_nil_r (gen_pair FSAL_ACE_SPECIAL_EVERYONE _ _ _ _)),
    (first_match_pair _ _ _ _ _ k) by done.
  change (FSAL_ACE_SPECIAL_OWNER =? FSAL_ACE_SPECIAL_OWNER) with true.
  change (FSAL_ACE_SPECIAL_GROUP =? FSAL_ACE_SPECIAL_OWNER) with false.
  change (FSAL_ACE_SPECIAL_GROUP =? FSAL_ACE_SPECIAL_GROUP) with true.
  change (FSAL_ACE_SPECIAL_EVERYONE =? FSAL_ACE_SPECIAL_OWNER) with false.
  change (FSAL_ACE_SPECIAL_EVERYONE =? FSAL_ACE_SPECIAL_GROUP) with false.
  change (FSAL_ACE_SPECIAL_EVERYONE =? FSAL_ACE_SPECIAL_EVERYONE) with true.
  assert (k = 2 \/ k = 1 \/ k = 0) as Hk3.
  { unfold perm_bit in Hk. repeat case_match; naive_solver. }
  destruct Hk3 as [Hk3|[Hk3|Hk3]]; subst k;
    by destruct (fsal_check_ace_owner (attr_owner attrs) creds),
      (fsal_check_ace_group (attr_group attrs) creds).
Qed.

(** The mode check for a caller that is not the superuser. *)
Lemma no_acl_class creds access_type attrs :
  is_superuser creds = false ->
  fst (fst (fsal_check_access_no_acl creds access_type None None attrs))
  = let b k := Z.testbit (attr_mode attrs) (class_shift creds attrs + k) in
    let mask := rwx_flags (b 2) (b 1) (b 0) in
    if access_type =? 0 then ERR_FSAL_NO_ERROR
    else if Z.land mask access_type =? access_type then ERR_FSAL_NO_ERROR else ERR_FSAL_ACCESS.
Proof.
  intros Hsu. unfold fsal_check_access_no_acl. rewrite Hsu. cbv zeta.
  destruct (access_type =? 0); [done|]. cbn [fst].
  replace (if caller_uid creds =? attr_owner attrs then _ else _)
    with (Z.shiftr (attr_mode attrs) (class_shift creds attrs)).
  2: { unfold class_shift, fsal_check_ace_owner, fsal_check_ace_group.
       destruct (caller_uid creds =? attr_owner attrs), (caller_gid creds =? attr_group attrs),
         (existsb (fun g => g =? attr_group attrs) (caller_garray creds)); done. }
  set (M := Z.shiftr _ _).
  change (negb (Z.land M S_IROTH =? 0)) with (IS_FSAL_ACE_BIT M (2 ^ 2)).
  change (negb (Z.land M S_IWOTH =? 0)) with (IS_FSAL_ACE_BIT M (2 ^ 1)).
  change (negb (Z.land M S_IXOTH =? 0)) with (IS_FSAL_ACE_BIT M (2 ^ 0)).
  rewrite !is_single_bit by done. unfold M. rewrite !Z.shiftr_spec by done.
  by rewrite !(Z.add_comm (class_shift creds attrs)).
Qed.

(** C11: a mode and the ACL generated from it agree.  For every caller that is not
    the superuser, every combination of read, write and execute is granted by the
    ACL of [fsal_mode_gen_acl] exactly when the mode bits grant it. *)
Theorem mode_acl_agrees rfc creds attrs r w x :
  is_superuser creds = false ->
  exists attrs', fsal_mode_gen_acl attrs = Some (ERR_FSAL_NO_ERROR, attrs') /\
    (fst (fst (fsal_check_access_acl rfc creds (rwx_perm r w x) None None attrs')) = ERR_FSAL_NO_ERROR <->
     fst (fst (fsal_check_access_no_acl creds (rwx_flags r w x) None None attrs)) = ERR_FSAL_NO_ERROR).
Proof.
  intros Hsu. eexists. split; [apply mode_gen_acl_eq|].
  rewrite (acl_check_first_match _ _ _ _ _ (gen_aces (attr_mode attrs))); [|by destruct r, w, x|done..].
  set (s := class_shift creds attrs). set (b k := Z.testbit (attr_mode attrs) (s + k)).
  transitivity ((r = true -> b 2 = true) /\ (w = true -> b 1 = true) /\ (x = true -> b 0 = true)).
  - split.
    + intros H.
      assert (forall i k, 0 <= i < 6 -> perm_bit i = Some k -> Z.testbit (rwx_perm r w x) i = true ->
        b k = true) as Hg.
      { intros i k Hi Hk Hb. destruct (H i) as [Himp|Hd]; [lia|lia|done| |].
        - assert (Z.testbit owner_perms i = false) as Ho.
          { unfold perm_bit in Hk. repeat case_match; rewrite ?orb_true_iff, ?Z.eqb_eq in *; naive_solver. }
          unfold implicit_perm in Himp. by rewrite Ho, andb_false_r in Himp.
        - assert (decided creds (set_acl (gen_aces (attr_mode attrs)) attrs) i (gen_aces (attr_mode attrs))
            = Some (b k)) as Heq by by apply decided_gen.
          congruence. }
      repeat split; intros ->; [apply (Hg 0)|apply (Hg 1)|apply (Hg 5)]; try done;
        clear; by repeat match goal with b : bool |- _ => destruct b end.
    + intros (Hr & Hw & Hx) i Hi _ Hb. right.
      assert (exists k, perm_bit i = Some k /\ b k = true) as (k & Hk & Hbk).
      { destruct (rwx_perm_bit r w x i Hi Hb) as [Hc|[Hc|[Hc|Hc]]]; subst i.
        - exists 2. split; [done|]. apply Hr. by rewrite (rwx_perm_test _ _ _ 0 2) in Hb.
        - exists 1. split; [done|]. apply Hw. by rewrite (rwx_perm_test _ _ _ 1 1) in Hb.
        - exists 1. split; [done|]. apply Hw. by rewrite (rwx_perm_test _ _ _ 2 1) in Hb.
        - exists 0. split; [done|]. apply Hx. by rewrite (rwx_perm_test _ _ _ 5 0) in Hb. }
      etrans; [by apply (decided_gen _ _ _ _ k)|]. exact (f_equal Some Hbk).
  - rewrite (no_acl_class _ _ _ Hsu). fold s. unfold b. cbv zeta beta.
    generalize (Z.testbit (attr_mode attrs) (s + 2)) (Z.testbit (attr_mode attrs) (s + 1))
      (Z.testbit (attr_mode attrs) (s + 0)).
    intros b2 b1 b0. destruct r, w, x, b2, b1, b0; vm_compute; intuition congruence.
Qed.

(** ** Inheritance *)

(** What one entry of the parent contributes to the ACL of a new object. *)
Definition inherit_one (inherit : Z) (a : fsal_ace_t) : list fsal_ace_t :=
  if negb (IS_FSAL_ACE_FLAG a inherit) then []
  else if IS_FSAL_ACE_NO_PROPAGATE a then
    [set_flag (clear_bits (ace_flag a) (Z.lor FSAL_ACE_FLAG_INHERIT FSAL_ACE_FLAG_NO_PROPAGATE)) a]
  else if is_dup_ace a inherit then [fst (dup_ace a); snd (dup_ace a)]
  else [a].

(** The entries counted for one entry of the parent. *)
Definition counted (inherit : Z) (a : fsal_ace_t) : nat :=
  ((if IS_FSAL_ACE_FLAG a inherit then 1 else 0) + (if is_dup_ace a inherit then 1 else 0))%nat.

Lemma count_inherited_sum inherit l :
  count_inherited inherit l = sum_list_with (counted inherit) l.
Proof.
  unfold count_inherited.
  assert (forall n, foldl (fun naces sace =>
    let n := if IS_FSAL_ACE_FLAG sace inherit then S naces else naces in
    if is_dup_ace sace inherit then S n else n) n l = (n + sum_list_with (counted inherit) l)%nat) as H.
  { induction l as [|a l IH]; intros n; simpl; [lia|]. rewrite IH. unfold counted. repeat case_match; lia. }
  apply H.
Qed.

Lemma inherit_one_counted inherit a : (length (inherit_one inherit a) <= counted inherit a)%nat.
Proof. unfold inherit_one, counted. repeat case_match; simpl; try done; lia. Qed.

(** The branch for entries inherited by files only is never taken for a directory. *)
Lemma file_only_branch_dead inherit a :
  IS_FSAL_ACE_FLAG a inherit = true ->
  (inherit =? FSAL_ACE_FLAG_DIR_INHERIT) && IS_FSAL_ACE_FILE_INHERIT a
    && negb (IS_FSAL_ACE_DIR_INHERIT a) = false.
Proof.
  intros Hf. destruct (Z.eqb_spec inherit FSAL_ACE_FLAG_DIR_INHERIT) as [->|]; [|done].
  unfold IS_FSAL_ACE_DIR_INHERIT. rewrite Hf. simpl. apply andb_false_r.
Qed.

(** Stores of consecutive entries. *)
Fixpoint store_aces (i : nat) (bs dst : list fsal_ace_t) : option (list fsal_ace_t) :=
  match bs with
  | [] => Some dst
  | b :: bs' => dst' ← store_ace i b dst; store_aces (S i) bs' dst'
  end.

Lemma store_aces_alloc pre bs n :
  (length bs <= n)%nat ->
  store_aces (length pre) bs (pre ++ nfs4_ace_alloc n)
  = Some ((pre ++ bs) ++ nfs4_ace_alloc (n - length bs)).
Proof.
  revert pre n. induction bs as [|b bs IH]; intros pre n Hn; cbn [store_aces length].
  { by rewrite app_nil_r, Nat.sub_0_r. }
  simpl in Hn. destruct n as [|n]; [lia|]. cbn [nfs4_ace_alloc replicate]. rewrite store_ace_middle.
  cbn [mbind option_bind].
  replace (S (length pre)) with (length (pre ++ [b])) by (rewrite length_app; simpl; lia).
  replace (pre ++ b :: replicate n zero_ace) with ((pre ++ [b]) ++ nfs4_ace_alloc n) by by rewrite <- app_assoc.
  rewrite IH by lia. by rewrite <- !app_assoc.
Qed.

Lemma inherit_loop_step inherit a l d dst :
  inherit_loop inherit (a :: l) d dst
  = dst' ← store_aces d (inherit_one inherit a) dst;
    inherit_loop inherit l (d + length (inherit_one inherit a))%nat dst'.
Proof.
  cbn [inherit_loop]. unfold inherit_one. destruct (IS_FSAL_ACE_FLAG a inherit) eqn:Hf; cbn [negb].
  - rewrite file_only_branch_dead by done.
    repeat case_match; cbn [store_aces length]; rewrite ?Nat.add_1_r, ?Nat.add_succ_r, ?Nat.add_0_r;
      repeat (destruct (store_ace _ _ _); cbn [mbind option_bind]; try done).
  - cbn [store_aces length mbind option_bind]. by rewrite Nat.add_0_r.
Qed.

Lemma inherit_loop_spec inherit l pre n :
  (sum_list_with (counted inherit) l <= n)%nat ->
  exists d, inherit_loop inherit l (length pre) (pre ++ nfs4_ace_alloc n)
  = Some (d, pre ++ concat (inherit_one inherit <$> l)
               ++ nfs4_ace_alloc (n - length (concat (inherit_one inherit <$> l)))).
Proof.
  revert pre n. induction l as [|a l IH]; intros pre n Hn.
  { exists (length pre). cbn. by rewrite Nat.sub_0_r. }
  simpl in Hn. pose proof (inherit_one_counted inherit a) as Ha.
  rewrite inherit_loop_step, store_aces_alloc by lia. cbn [mbind option_bind].
  rewrite <- length_app. destruct (IH (pre ++ inherit_one inherit a) (n - length (inherit_one inherit a))%nat)
    as [d Hd]; [lia|].
  exists d. rewrite Hd. cbn [fmap list_fmap concat]. rewrite length_app, <- !app_assoc.
  do 6 f_equal. lia.
Qed.

(** *** What is inherited

    Everything of an entry but its flags, and a bit of its flags: 0 inherited by files, 1 by
    directories, 2 no further than one level, 3 not in force for the object itself. *)
Definition rights (a : fsal_ace_t) : Z * Z * Z * Z := (ace_type a, ace_perm a, ace_iflag a, ace_who a).
Definition flag (n : Z) (a : fsal_ace_t) : bool := Z.testbit (ace_flag a) n.
Arguments flag : simpl never.

(** Entries that allow or deny, unlike those for audits and alarms. *)
Definition allows_or_denies (a : fsal_ace_t) : bool := (ace_type a =? 0) || (ace_type a =? 1).

(** An entry of the parent that is in force for a new object: one inherited by objects of its kind, unless
    it is for inheritance only and stays so: a file keeps that mark. *)
Definition takes_effect (is_dir : bool) (a : fsal_ace_t) : bool :=
  flag (Z.b2z is_dir) a && (flag 2 a || negb (flag 3 a) || (is_dir && allows_or_denies a)).

(** One that the new object hands on. *)
Definition handed_on (is_dir : bool) (a : fsal_ace_t) : bool := flag (Z.b2z is_dir) a && negb (flag 2 a).

(** The entries of an ACL that decide about access, and those that can be inherited. *)
Definition effective (l : list fsal_ace_t) : list fsal_ace_t := filter (fun a => flag 3 a = false) l.
Definition inheritable (l : list fsal_ace_t) : list fsal_ace_t := filter (fun a => flag 0 a || flag 1 a = true) l.
Definition inheritance (a : fsal_ace_t) : Z * Z * Z * Z * bool * bool := (rights a, flag 0 a, flag 1 a).

(** What comes of one entry: the entry in force and the one handed on, which on a directory are apart. *)
Record inherited (is_dir : bool) (a : fsal_ace_t) (l : list fsal_ace_t) : Prop := {
  in_effective : rights <$> effective l = if takes_effect is_dir a then [rights a] else [];
  in_handed : inheritance <$> inheritable l = if handed_on is_dir a then [inheritance a] else [];
  in_entry b : b ∈ l -> rights b = rights a /\ (forall n, 4 <= n -> flag n b = flag n a) /\
    (is_dir = true -> allows_or_denies b = true -> flag 0 b || flag 1 b = true -> flag 3 b = true)
}.

Definition inherit_flag (is_dir : bool) : Z := if is_dir then FSAL_ACE_FLAG_DIR_INHERIT else FSAL_ACE_FLAG_FILE_INHERIT.

Lemma ace_flag_bit (a : fsal_ace_t) n : 0 <= n -> IS_FSAL_ACE_FLAG a (2 ^ n) = flag n a.
Proof. intros Hn. by apply is_single_bit. Qed.

Lemma inherit_flag_bit is_dir a : IS_FSAL_ACE_FLAG a (inherit_flag is_dir) = flag (Z.b2z is_dir) a.
Proof. destruct is_dir; [by apply (ace_flag_bit a 1)|by apply (ace_flag_bit a 0)]. Qed.

Lemma is_dup_ace_spec is_dir a : flag (Z.b2z is_dir) a = true -> flag 2 a = false ->
  is_dup_ace a (inherit_flag is_dir) = is_dir && allows_or_denies a.
Proof.
  intros Hk H2. unfold is_dup_ace.
  assert (IS_FSAL_ACE_INHERIT a = true) as ->.
  { destruct (IS_FSAL_ACE_INHERIT a) eqn:Hi; [done|]. unfold IS_FSAL_ACE_INHERIT, IS_FSAL_ACE_FLAG in Hi. rewrite is_bit_false in Hi.
    specialize (Hi (Z.b2z is_dir)). unfold flag in Hk. rewrite Hk in Hi. destruct is_dir; by discriminate Hi. }
  assert (IS_FSAL_ACE_NO_PROPAGATE a = false) as -> by by rewrite <- H2; apply (ace_flag_bit a 2).
  destruct is_dir; [|done]. simpl in *. assert (IS_FSAL_ACE_DIR_INHERIT a = true) as -> by by rewrite <- Hk; apply (ace_flag_bit a 1).
  rewrite andb_false_r. simpl. change (allows_or_denies a) with (IS_FSAL_ACE_PERM a). by destruct (IS_FSAL_ACE_PERM a).
Qed.

(** The flags of the entries made. *)
Lemma flag_plain a n : 0 <= n ->
  flag n (set_flag (clear_bits (ace_flag a) (Z.lor FSAL_ACE_FLAG_INHERIT FSAL_ACE_FLAG_NO_PROPAGATE)) a) = flag n a && (4 <=? n).
Proof.
  intros Hn. unfold flag. simpl. rewrite clear_bits_spec by done. f_equal.
  change (Z.lor FSAL_ACE_FLAG_INHERIT FSAL_ACE_FLAG_NO_PROPAGATE) with (Z.ones 4). rewrite Z.testbit_ones by done.
  rewrite (proj2 (Z.leb_le 0 n)) by done. simpl. by rewrite <- Z.leb_antisym.
Qed.

Lemma flag_inherit_only a n : 0 <= n ->
  flag n (set_flag (Z.lor (ace_flag a) FSAL_ACE_FLAG_INHERIT_ONLY) a) = flag n a || (n =? 3).
Proof.
  intros Hn. unfold flag. simpl. rewrite Z.lor_spec. f_equal. change FSAL_ACE_FLAG_INHERIT_ONLY with (2 ^ 3).
  rewrite Z.pow2_bits_eqb by done. apply Z.eqb_sym.
Qed.

Lemma inherit_one_spec is_dir a : inherited is_dir a (inherit_one (inherit_flag is_dir) a).
Proof.
  unfold inherit_one. rewrite inherit_flag_bit.
  destruct (flag (Z.b2z is_dir) a) eqn:Hk; simpl; [|by split; unfold takes_effect, handed_on; rewrite ?Hk; [..|intros ? ?%elem_of_nil]].
  replace (IS_FSAL_ACE_NO_PROPAGATE a) with (flag 2 a) by (symmetry; by apply (ace_flag_bit a 2)).
  destruct (flag 2 a) eqn:H2.
  - split; unfold takes_effect, handed_on, effective, inheritable.
    + rewrite Hk, H2, filter_cons_True by (rewrite flag_plain by done; by rewrite andb_false_r). done.
    + rewrite Hk, H2, filter_cons_False; [done|]. rewrite !flag_plain by done. by rewrite !andb_false_r.
    + intros b ->%list_elem_of_singleton. split_and!; [done|intros n Hn; rewrite flag_plain, (proj2 (Z.leb_le 4 n)) by lia; apply andb_true_r|].
      rewrite !flag_plain by done. by rewrite !andb_false_r.
  - rewrite is_dup_ace_spec by done. destruct (is_dir && allows_or_denies a) eqn:Hd.
    + apply andb_true_iff in Hd as [-> Hp]. simpl in Hk. split; unfold takes_effect, handed_on, effective, inheritable.
      * rewrite filter_cons_False by (rewrite flag_inherit_only by done; by rewrite orb_true_r).
        rewrite filter_cons_True by (rewrite flag_plain by done; by rewrite andb_false_r). simpl. rewrite Hk, H2, Hp. simpl. by rewrite orb_true_r.
      * rewrite filter_cons_True by (rewrite !flag_inherit_only by done; rewrite Hk; by rewrite orb_true_r).
        rewrite filter_cons_False by (rewrite !flag_plain by done; by rewrite !andb_false_r). simpl. rewrite Hk, H2. simpl.
        unfold inheritance. rewrite !flag_inherit_only by done. simpl. by rewrite !orb_false_r.
      * intros b [->| ->%list_elem_of_singleton]%elem_of_cons.
        -- split_and!; [done|intros n Hn; rewrite flag_inherit_only, (proj2 (Z.eqb_neq n 3)) by lia; apply orb_false_r|].
           intros _ _ _. rewrite flag_inherit_only by done. apply orb_true_r.
        -- split_and!; [done|intros n Hn; rewrite flag_plain, (proj2 (Z.leb_le 4 n)) by lia; apply andb_true_r|].
           rewrite !flag_plain by done. by rewrite !andb_false_r.
    + split; unfold takes_effect, handed_on, effective, inheritable.
      * rewrite Hk, H2, Hd. simpl. rewrite orb_false_r. destruct (flag 3 a) eqn:H3; [by rewrite filter_cons_False by congruence|by rewrite filter_cons_True].
      * rewrite Hk, H2, filter_cons_True by (destruct is_dir; simpl in Hk; rewrite Hk; by rewrite ?orb_true_r). done.
      * intros b ->%list_elem_of_singleton. split_and!; [done..|]. intros -> Hp. rewrite Hp in Hd. done.
Qed.

Lemma inherit_all_spec is_dir aces : let l := concat (inherit_one (inherit_flag is_dir) <$> aces) in
  rights <$> effective l = rights <$> filter (fun a => takes_effect is_dir a = true) aces /\
  inheritance <$> inheritable l = inheritance <$> filter (fun a => handed_on is_dir a = true) aces.
Proof.
  simpl. induction aces as [|a aces [IH1 IH2]]; [done|]. rewrite fmap_cons. simpl. destruct (inherit_one_spec is_dir a) as [He Hh _].
  unfold effective, inheritable in *. rewrite !filter_app, !fmap_app, He, Hh, IH1, IH2.
  split; [destruct (takes_effect is_dir a) eqn:E|destruct (handed_on is_dir a) eqn:E];
    first [by rewrite (filter_cons_True _ a)|by rewrite (filter_cons_False _ a) by congruence].
Qed.

(** C12: [fsal_inherit_acls] stores inside the array it allocates, and fails, with [ERR_FSAL_EXIST], exactly when
    the parent has entries and the new object too.  Otherwise the object is left as it is if there is
    nothing to inherit, or gets an ACL of entries [l], followed by zeroed ones that grant nothing.  The entries of [l] in
    force are, in order, those of the parent that take effect, those that can be inherited further the ones the
    parent hands on; each has the flags that do not concern inheritance of an entry of the parent; and on a
    directory no entry that allows or denies is both in force and inherited. *)
Theorem fsal_inherit_acls_safe attrs aces is_dir :
  exists st attrs', fsal_inherit_acls attrs (Some aces) (inherit_flag is_dir) = Some (st, attrs') /\
    (st = ERR_FSAL_EXIST <-> aces <> [] /\ exists a l, attr_acl attrs = Some (a :: l)) /\
    (st = ERR_FSAL_EXIST -> attrs' = attrs) /\
    (st <> ERR_FSAL_EXIST -> st = ERR_FSAL_NO_ERROR /\ exists l n,
       (attr_acl attrs' = Some (l ++ nfs4_ace_alloc n) \/ l = [] /\ attrs' = attrs) /\
       rights <$> effective l = rights <$> filter (fun a => takes_effect is_dir a = true) aces /\
       inheritance <$> inheritable l = inheritance <$> filter (fun a => handed_on is_dir a = true) aces /\
       forall b, b ∈ l -> exists a, a ∈ aces /\ rights b = rights a /\ (forall n, 4 <= n -> flag n b = flag n a) /\
         (is_dir = true -> allows_or_denies b = true -> flag 0 b || flag 1 b = true -> flag 3 b = true)).
Proof.
  destruct aces as [|a0 l0].
  { exists ERR_FSAL_NO_ERROR, attrs. split_and!; [done|naive_solver|done|]. intros _. split; [done|]. exists [], O. split_and!; [by right|done..|].
    by intros b ?%elem_of_nil. }
  unfold fsal_inherit_acls. set (aces := a0 :: l0). rewrite count_inherited_sum.
  destruct (inherit_loop_spec (inherit_flag is_dir) aces [] (sum_list_with (counted (inherit_flag is_dir)) aces)) as [d Hd]; [lia|].
  cbn [length app] in Hd. set (l := concat (inherit_one (inherit_flag is_dir) <$> aces)) in *.
  destruct (inherit_all_spec is_dir aces) as [He Hh]. fold l in He, Hh.
  assert (forall b, b ∈ l -> exists a, a ∈ aces /\ rights b = rights a /\ (forall n, 4 <= n -> flag n b = flag n a) /\
    (is_dir = true -> allows_or_denies b = true -> flag 0 b || flag 1 b = true -> flag 3 b = true)) as Hent.
  { intros b (k & Hk%list_elem_of_In & Hb%list_elem_of_In)%list_elem_of_In%in_concat. apply list_elem_of_fmap in Hk as (a & -> & Ha).
    exists a. split; [done|]. by apply (in_entry _ _ _ (inherit_one_spec is_dir a)). }
  assert (sum_list_with (counted (inherit_flag is_dir)) aces = O -> l = []) as Hz.
  { unfold l. clear. generalize aces. intros k. induction k as [|a k IH]; [done|]. intros Hk. simpl in Hk.
    rewrite fmap_cons. cbn [concat]. rewrite IH by lia. pose proof (inherit_one_counted (inherit_flag is_dir) a).
    rewrite app_nil_r. apply nil_length_inv. lia. }
  destruct (attr_acl attrs) as [[|b bs]|] eqn:Hacl.
  2: { exists ERR_FSAL_EXIST, attrs. split_and!; [done|naive_solver|done|]. by intros []. }
  all: (destruct (decide (sum_list_with (counted (inherit_flag is_dir)) aces = O)) as [H0|H0]).
  all: try (exists ERR_FSAL_NO_ERROR, attrs; split_and!; [done|naive_solver|done|]; intros _; split; [done|]; exists l, O; split_and!; [right; by auto|done..]).
  all: rewrite Hd; cbn [mbind option_bind]; eexists _, _; split_and!; [done|naive_solver|done|].
  all: intros _; split; [done|]; exists l; eexists; split_and!; [left; reflexivity|done..].
Qed.

(** ** From a mode to an ACL *)

(** What [fsal_mode_to_acl] keeps of one entry that was not generated. *)
Definition keep_one (a : fsal_ace_t) : list fsal_ace_t :=
  if IS_FSAL_ACE_MODE_GEN a then []
  else if IS_FSAL_ACE_INHERIT_ONLY a || negb (IS_FSAL_ACE_PERM a) then [a]
  else if IS_FSAL_ACE_INHERIT a then
    [set_flag (Z.lor (ace_flag a) FSAL_ACE_FLAG_INHERIT_ONLY) a;
     strip_special (set_flag (clear_bits (ace_flag a) FSAL_ACE_FLAG_INHERIT) a)]
  else [strip_special a].

Definition generated (l : list fsal_ace_t) : nat := length (filter (fun a => IS_FSAL_ACE_MODE_GEN a = true) l).

Lemma count_kept_sum l : count_kept l = length (concat (keep_one <$> l)).
Proof.
  unfold count_kept.
  assert (forall n, foldl (fun naces sace =>
    if IS_FSAL_ACE_MODE_GEN sace then naces
    else if IS_FSAL_ACE_INHERIT_ONLY sace then S naces
    else if negb (IS_FSAL_ACE_PERM sace) then S naces
    else if IS_FSAL_ACE_INHERIT sace then S (S naces) else S naces) n l
    = (n + length (concat (keep_one <$> l)))%nat) as H; [|apply H].
  induction l as [|a l IH]; intros n; [simpl; lia|]. rewrite fmap_cons. cbn [foldl concat].
  rewrite IH, length_app. unfold keep_one. repeat case_match; simpl in *; try done; lia.
Qed.

Lemma mode_to_acl_step a l d n dst :
  mode_to_acl_loop (a :: l) d n dst
  = dst' ← store_aces d (keep_one a) dst;
    let k := length (keep_one a) in
    mode_to_acl_loop l (d + if IS_FSAL_ACE_MODE_GEN a then 1 else k)%nat (n + k)%nat dst'.
Proof.
  cbn [mode_to_acl_loop]. unfold keep_one.
  repeat case_match; cbn [store_aces length]; cbv zeta;
    rewrite ?Nat.add_1_r, ?Nat.add_succ_r, ?Nat.add_0_r; try done;
    repeat (destruct (store_ace _ _ _); cbn [mbind option_bind]; try done).
Qed.

(** The counters at the end of the loop. *)
Lemma mode_to_acl_counters l d n dst d' n' dst' :
  mode_to_acl_loop l d n dst = Some (d', n', dst') ->
  d' = (d + length (concat (keep_one <$> l)) + generated l)%nat /\
  n' = (n + length (concat (keep_one <$> l)))%nat /\ length dst' = length dst.
Proof.
  assert (forall bs i x y, store_aces i bs x = Some y -> length y = length x) as Hlen.
  { induction bs as [|b bs IH]; intros i x y; simpl; [by intros [= ->]|].
    unfold store_ace. case_decide; simpl; [|done]. intros Hs. apply IH in Hs. by rewrite length_insert in Hs. }
  revert d n dst. induction l as [|a l IH]; intros d n dst.
  { simpl. intros [= <- <- <-]. rewrite !Nat.add_0_r. done. }
  rewrite mode_to_acl_step. destruct (store_aces _ _ _) as [dst1|] eqn:Hs; cbn [mbind option_bind]; [|done].
  cbv zeta. intros (-> & -> & ->)%IH. apply Hlen in Hs. rewrite fmap_cons. cbn [concat].
  rewrite !length_app. unfold generated. rewrite filter_cons. unfold keep_one.
  destruct (IS_FSAL_ACE_MODE_GEN a); simpl; repeat split; lia.
Qed.

Lemma mode_to_acl_no_generated l pre n m :
  generated l = O -> (length (concat (keep_one <$> l)) <= n)%nat ->
  mode_to_acl_loop l (length pre) m (pre ++ nfs4_ace_alloc n)
  = let new := concat (keep_one <$> l) in
    Some (length (pre ++ new), (m + length new)%nat, (pre ++ new) ++ nfs4_ace_alloc (n - length new)).
Proof.
  revert pre n m. induction l as [|a l IH]; intros pre n m Hg Hn.
  { cbn. by rewrite app_nil_r, Nat.add_0_r, Nat.sub_0_r. }
  unfold generated in Hg. rewrite filter_cons in Hg. rewrite fmap_cons in *. cbn [concat] in *.
  rewrite length_app in Hn.
  destruct (IS_FSAL_ACE_MODE_GEN a) eqn:Ha; simpl in Hg; [done|].
  rewrite mode_to_acl_step, store_aces_alloc by lia. cbn [mbind option_bind]. cbv zeta.
  rewrite Ha, <- length_app, IH; [|exact Hg|lia]. cbv zeta.
  by rewrite <- !app_assoc, (length_app (keep_one a)), Nat.sub_add_distr, Nat.add_assoc.
Qed.

Lemma gen_set_pair_inv i who flag m l l' :
  gen_set_pair i who flag m l = Some l' -> length l' = length l /\ (S i < length l)%nat.
Proof.
  unfold gen_set_pair. destruct (l !! i) as [d|]; cbn [mbind option_bind]; [|done].
  destruct (l !! S i) as [a|] eqn:Ha; cbn [mbind option_bind]; [|done].
  apply lookup_lt_Some in Ha. destruct (fsal_mode_set_ace _ _ _) as [d' a']. unfold store_ace.
  case_decide; cbn [mbind option_bind]; [|done]. case_decide; [|done]. intros [= <-].
  by rewrite !length_insert.
Qed.

Lemma mode_gen_set_overflow i mode l :
  (length l < i + 6)%nat -> fsal_mode_gen_set i mode l = None.
Proof.
  intros Hl. unfold fsal_mode_gen_set.
  destruct (gen_set_pair i _ _ _ _) as [l1|] eqn:H1; cbn [mbind option_bind]; [|done].
  destruct (gen_set_pair (i + 2) _ _ _ _) as [l2|] eqn:H2; cbn [mbind option_bind]; [|done].
  destruct (gen_set_pair (i + 4) _ _ _ _) as [l3|] eqn:H3; [|done].
  apply gen_set_pair_inv in H1, H2, H3. lia.
Qed.

(** The conversion of a mode to an ACL.  It stores outside the array it
    allocates exactly when the source ACL mixes entries generated from a mode with
    others; otherwise the result is what is kept of the source, followed by the
    six entries generated from the mode. *)
Theorem fsal_mode_to_acl_safe_iff attrs aces :
  Z.testbit (valid_mask attrs) 7 = true ->
  (fsal_mode_to_acl attrs (Some aces) = None <->
     generated aces <> O /\ concat (keep_one <$> aces) <> []) /\
  (generated aces = O -> fsal_mode_to_acl attrs (Some aces)
     = Some (ERR_FSAL_NO_ERROR,
             set_acl (concat (keep_one <$> aces) ++ gen_aces (attr_mode attrs)) attrs)).
Proof.
  intros Hv.
  assert ((Z.land (valid_mask attrs) ATTR_MODE =? 0) = false) as Hm.
  { pose proof (is_single_bit (valid_mask attrs) 7 ltac:(lia)) as H7. rewrite Hv in H7.
    by apply negb_true_iff in H7. }
  unfold fsal_mode_to_acl. rewrite Hm. cbv iota.
  destruct aces as [|a0 l0]; [rewrite mode_gen_acl_eq; naive_solver|].
  set (l := a0 :: l0). rewrite count_kept_sum. cbv zeta.
  destruct (decide (length (concat (keep_one <$> l)) = O)) as [H0|H0].
  { apply nil_length_inv in H0. rewrite mode_gen_acl_eq, H0. naive_solver. }
  assert (concat (keep_one <$> l) <> []) as Hne by (intros E; by rewrite E in H0).
  destruct (decide (generated l = O)) as [Hg|Hg].
  - pose proof (mode_to_acl_no_generated l [] (length (concat (keep_one <$> l)) + 6) 0 Hg) as Hloop.
    cbn [app length] in Hloop. rewrite Hloop by lia. cbv zeta. cbn [mbind option_bind].
    rewrite Nat.add_0_l, decide_False by tauto.
    replace (length (concat (keep_one <$> l)) + 6 - length (concat (keep_one <$> l)))%nat with 6%nat by lia.
    pose proof (mode_gen_set_middle (attr_mode attrs) (concat (keep_one <$> l)) []) as Hgen.
    rewrite !app_nil_r in Hgen. rewrite Hgen. cbn [mbind option_bind]. naive_solver.
  - split; [|done]. split; [done|]. intros _.
    destruct (mode_to_acl_loop _ _ _ _) as [[[d n] dst]|] eqn:Hloop; cbn [mbind option_bind]; [|done].
    apply mode_to_acl_counters in Hloop as (-> & -> & Hlen). rewrite decide_False by lia.
    rewrite mode_gen_set_overflow; [done|]. rewrite Hlen. unfold nfs4_ace_alloc.
    rewrite length_replicate. lia.
Qed.

(** ** Where the code departs from what it means to do *)

(** A request that requires an explicit ALLOW entry ([FSAL_ACE4_REQ_FLAG]) keeps
    the flag among the permissions still missing, so that no ACL whose entries hold
    only permissions can satisfy it. *)
Lemma required_never_granted rfc creds v4mask attrs aces :
  0 <= v4mask -> attr_acl attrs = Some aces -> is_superuser creds = false ->
  Z.testbit v4mask 28 = true -> Forall (fun a => Z.testbit (ace_perm a) 28 = false) aces ->
  fst (fst (fsal_check_access_acl rfc creds v4mask None None attrs)) <> ERR_FSAL_NO_ERROR.
Proof.
  intros Hv Hacl Hsu H28 Hall Hok. rewrite (acl_check_first_match _ _ _ _ _ aces) in Hok by done.
  destruct (Hok 28) as [Himp|Hd]; [lia|lia|done| |].
  - unfold implicit_perm in Himp. by rewrite andb_false_r in Himp.
  - unfold decided in Hd. clear -Hall Hd. induction Hall as [|a l Ha _ IH]; simpl in Hd; [done|].
    unfold ace_speaks in Hd. rewrite Ha, andb_false_r in Hd. auto.
Qed.

(** The default [test_access] of objects given by their attributes. *)
Definition default_access (rfc : bool) (creds : user_cred) (attrs : fsal_attrlist) (access : Z) :
    fsal_errors_t :=
  fst (fst (fsal_test_access rfc (inr attrs) creds access None None false)).

(** So removing an object needs the permission to add one to the directory, even
    when an ACL allows DELETE or DELETE_CHILD explicitly. *)
Theorem remove_needs_add_permission rfc creds dir obj isdir :
  is_superuser creds = false ->
  (forall a aces, attr_acl dir = Some aces -> a ∈ aces -> Z.testbit (ace_perm a) 28 = false) ->
  (forall a aces, attr_acl obj = Some aces -> a ∈ aces -> Z.testbit (ace_perm a) 28 = false) ->
  fsal_remove_access (default_access rfc creds) dir obj isdir = ERR_FSAL_NO_ERROR ->
  default_access rfc creds dir
    (Z.lor (FSAL_MODE_MASK_SET FSAL_W_OK)
       (FSAL_ACE4_MASK_SET (if isdir then FSAL_ACE_PERM_ADD_SUBDIRECTORY else FSAL_ACE_PERM_ADD_FILE)))
    = ERR_FSAL_NO_ERROR.
Proof.
  intros Hsu Hdir Hobj.
  assert (forall attrs p, (forall a aces, attr_acl attrs = Some aces -> a ∈ aces ->
    Z.testbit (ace_perm a) 28 = false) -> 0 <= p ->
    default_access rfc creds attrs (Z.lor p FSAL_ACE4_REQ_FLAG) <> ERR_FSAL_NO_ERROR) as Hreq.
  { intros attrs p Hperm Hp. unfold default_access, fsal_test_access. cbn [andb].
    assert (forall i, i = 28 -> Z.testbit (Z.lor p FSAL_ACE4_REQ_FLAG) i = true) as H28.
    { intros i ->. by rewrite Z.lor_spec, orb_true_r. }
    assert (IS_FSAL_ACE4_REQ (Z.lor p FSAL_ACE4_REQ_FLAG) = true) as ->.
    { unfold IS_FSAL_ACE4_REQ. change FSAL_ACE4_REQ_FLAG with (2 ^ 28) at 2.
      by rewrite is_single_bit, H28. }
    cbn [orb]. destruct (attr_acl attrs) as [aces|] eqn:Hacl.
    - apply (required_never_granted rfc _ _ _ aces); [|done..| |].
      + apply Z.land_nonneg. right. done.
      + unfold FSAL_ACE4_MASK. by rewrite Z.land_spec, H28.
      + apply Forall_forall. intros a Ha. by eapply Hperm.
    - unfold fsal_check_access_acl. by rewrite Hacl. }
  unfold fsal_remove_access. cbv zeta.
  set (x := default_access rfc creds dir (Z.lor (FSAL_MODE_MASK_SET FSAL_X_OK) _)).
  set (c := default_access rfc creds dir (Z.lor (Z.lor _ _) _)).
  set (d := default_access rfc creds obj _). set (a := default_access rfc creds dir _).
  assert (c <> ERR_FSAL_NO_ERROR) as Hc by (apply Hreq; done).
  assert (d <> ERR_FSAL_NO_ERROR) as Hd by (apply Hreq; done).
  clearbody x c d a. clear -Hc Hd. unfold FSAL_IS_ERROR.
  rewrite (bool_decide_eq_true_2 (c <> _)), (bool_decide_eq_true_2 (d <> _)) by done. cbn [andb].
  destruct (bool_decide_reflect (x <> ERR_FSAL_NO_ERROR)); [done|].
  repeat (case_decide; [done|]). destruct (bool_decide_reflect (a <> ERR_FSAL_NO_ERROR)); [done|].
  intros _. destruct (decide (a = ERR_FSAL_NO_ERROR)); naive_solver.
Qed.

(** A directory that allows DELETE_CHILD but not ADD_FILE. *)
Definition deletable_dir : fsal_attrlist :=
  {| attr_owner := 10; attr_group := 10; attr_mode := 0; attr_type := DIRECTORY;
     attr_acl := Some [{| ace_type := FSAL_ACE_TYPE_ALLOW;
                          ace_perm := Z.lor FSAL_ACE_PERM_EXECUTE FSAL_ACE_PERM_DELETE_CHILD;
                          ace_flag := 0; ace_iflag := 0; ace_who := 20 |}];
     valid_mask := 0 |}.

Example delete_child_denied :
  fsal_remove_access (default_access false {| caller_uid := 20; caller_gid := 20; caller_garray := [] |})
    deletable_dir deletable_dir false = ERR_FSAL_ACCESS.
Proof. vm_compute. reflexivity. Qed.

(** The mode computed from the ACL of a mode is not that mode: the entries are
    applied in order, the last ones, for everyone, override those of the owner and
    of the group. *)
Lemma acl_to_mode_of_generated m :
  0 <= m < 512 -> foldl ace_to_mode m (gen_aces m) = Z.land m S_IRWXO * 73.
Proof.
  assert (forallb (fun n => let m := Z.of_nat n in
            foldl ace_to_mode m (gen_aces m) =? Z.land m S_IRWXO * 73) (seq 0 512) = true) as H
    by (vm_compute; reflexivity).
  intros Hm. rewrite forallb_forall in H. specialize (H (Z.to_nat m)).
  rewrite in_seq in H. cbv zeta in H. rewrite Z2Nat.id in H by lia. apply Z.eqb_eq, H. lia.
Qed.

Theorem mode_acl_mode_changes attrs :
  0 <= attr_mode attrs < 512 ->
  exists attrs', fsal_mode_gen_acl attrs = Some (ERR_FSAL_NO_ERROR, attrs') /\
    attr_mode (fsal_acl_to_mode attrs') = Z.land (attr_mode attrs) S_IRWXO * 73.
Proof.
  intros Hm. eexists. split; [apply mode_gen_acl_eq|]. unfold fsal_acl_to_mode.
  assert ((Z.land (valid_mask (set_acl (gen_aces (attr_mode attrs)) attrs)) ATTR_ACL =? 0) = false) as ->.
  { apply not_true_iff_false. rewrite Z.eqb_eq, zero_bits. intros H. specialize (H 5 ltac:(lia)).
    cbn [valid_mask set_acl] in H. by rewrite Z.land_spec, Z.lor_spec, orb_true_r in H. }
  cbn [attr_acl set_acl]. change (gen_aces (attr_mode attrs)) with
    (hd zero_ace (gen_aces (attr_mode attrs)) :: tl (gen_aces (attr_mode attrs))).
  cbv iota. cbn [attr_mode set_attr_mode set_acl]. apply (acl_to_mode_of_generated _ Hm).
Qed.

(** An entry inherited by files through [INHERIT_ONLY] keeps that flag on the file,
    to which it therefore never applies. *)
Example inherit_only_reaches_file :
  let a := {| ace_type := FSAL_ACE_TYPE_ALLOW; ace_perm := FSAL_ACE_PERM_READ_DATA;
              ace_flag := Z.lor FSAL_ACE_FLAG_FILE_INHERIT FSAL_ACE_FLAG_INHERIT_ONLY;
              ace_iflag := 0; ace_who := 20 |} in
  let attrs := {| attr_owner := 10; attr_group := 10; attr_mode := 0; attr_type := REGULAR_FILE;
                  attr_acl := None; valid_mask := 0 |} in
  match fsal_inherit_acls attrs (Some [a]) FSAL_ACE_FLAG_FILE_INHERIT with
  | Some (_, attrs') =>
      default_access false {| caller_uid := 20; caller_gid := 20; caller_garray := [] |} attrs'
        (Z.lor FSAL_R_OK (FSAL_ACE4_MASK_SET FSAL_ACE_PERM_READ_DATA)) = ERR_FSAL_ACCESS
  | None => False
  end.
Proof. vm_compute. reflexivity. Qed.

(** ** Concrete callers and objects *)

Definition alice : user_cred := {| caller_uid := 20; caller_gid := 30; caller_garray := [40; 10] |}.
Definition root : user_cred := {| caller_uid := 0; caller_gid := 0; caller_garray := [] |}.

(** A file of group 10 whose ACL denies writing to the group and then allows
    reading and writing to alice. *)
Definition shared_file : fsal_attrlist :=
  {| attr_owner := 10; attr_group := 10; attr_mode := 416; attr_type := REGULAR_FILE;
     attr_acl := Some [gen_ace FSAL_ACE_TYPE_DENY FSAL_ACE_SPECIAL_GROUP FSAL_ACE_FLAG_GROUP_ID
                         FSAL_ACE_PERM_WRITE_DATA;
                       {| ace_type := FSAL_ACE_TYPE_ALLOW; ace_perm := 3; ace_flag := 0;
                          ace_iflag := 0; ace_who := 20 |}];
     valid_mask := Z.lor ATTR_ACL ATTR_MODE |}.

Lemma fsal_check_access_acl_first_match_witness :
  fst (fst (fsal_check_access_acl false alice 3 None None shared_file)) = ERR_FSAL_ACCESS /\
  ~ (forall i, 0 <= i -> i <> 30 -> Z.testbit 3 i = true -> implicit_perm alice shared_file i = true \/
     decided alice shared_file i (default [] (attr_acl shared_file)) = Some true).
Proof.
  split; [reflexivity|].
  rewrite <- (fsal_check_access_acl_first_match false alice 3 None shared_file
    (default [] (attr_acl shared_file))).
  - vm_compute. congruence.
  - lia.
  - reflexivity.
  - reflexivity.
Defined.

Lemma fsal_check_access_acl_allowed_witness :
  exists st al de,
    fsal_check_access_acl false alice (Z.lor 3 FSAL_ACE4_PERM_CONTINUE) (Some 7) (Some 7) shared_file
      = (st, Some al, de) /\ Z.testbit al 0 = true /\ Z.testbit al 1 = false.
Proof.
  destruct (fsal_check_access_acl_allowed false alice (Z.lor 3 FSAL_ACE4_PERM_CONTINUE) 7 7 shared_file
    (default [] (attr_acl shared_file))) as (st & al & de & Heq & Hal).
  - reflexivity.
  - reflexivity.
  - reflexivity.
  - exists st, al, de. split; [exact Heq|]. rewrite !Hal by lia. vm_compute. split; reflexivity.
Defined.

Lemma fsal_check_access_acl_superuser_witness :
  fst (fst (fsal_check_access_acl false root 3 None None shared_file)) = ERR_FSAL_NO_ERROR.
Proof.
  apply (fsal_check_access_acl_superuser false root 3 None shared_file (default [] (attr_acl shared_file))).
  - lia.
  - reflexivity.
  - reflexivity.
  - right. left. reflexivity.
Defined.

Lemma mode_acl_agrees_witness :
  exists attrs', fsal_mode_gen_acl shared_file = Some (ERR_FSAL_NO_ERROR, attrs') /\
    fst (fst (fsal_check_access_acl false alice (rwx_perm true false false) None None attrs'))
      = ERR_FSAL_NO_ERROR.
Proof.
  destruct (mode_acl_agrees false alice shared_file true false false) as (attrs' & Heq & Hiff).
  - reflexivity.
  - exists attrs'. split; [exact Heq|]. apply Hiff. reflexivity.
Defined.

Lemma fsal_mode_to_acl_safe_iff_witness :
  fsal_mode_to_acl shared_file (Some (gen_aces 493)) <> None /\
  fsal_mode_to_acl shared_file (Some (gen_aces 493 ++ [zero_ace])) = None.
Proof.
  split.
  - intros H. apply (fsal_mode_to_acl_safe_iff shared_file (gen_aces 493)) in H as [_ H].
    + by vm_compute in H.
    + reflexivity.
  - apply (fsal_mode_to_acl_safe_iff shared_file (gen_aces 493 ++ [zero_ace])).
    + reflexivity.
    + vm_compute. split; congruence.
Defined.
