(* ===== verification/Share.v ===== *)
(** * Share reservations

    The counters of accesses and denials kept per file by [FSAL/commonlib.c]
    ([update_share_counters], [check_share_conflict], [merge_share]) against the
    multiset of opens they stand for, and the NLM shares of [SAL/state_share.c]. *)
From S2P Require Import Prelude Status.
Local Open Scope Z_scope.

(** ** The share counters *)

(** [fsal_openflags_t], [include/fsal_types.h]. *)
Definition FSAL_O_CLOSED : Z := 0x0.
Definition FSAL_O_READ : Z := 0x1.
Definition FSAL_O_WRITE : Z := 0x2.
Definition FSAL_O_RECLAIM : Z := 0x8.
Definition FSAL_O_DENY_READ : Z := 0x100.
Definition FSAL_O_DENY_WRITE : Z := 0x200.
Definition FSAL_O_DENY_WRITE_MAND : Z := 0x400.

Definition has (flags bit : Z) : bool := negb (Z.land flags bit =? 0).

(** [struct fsal_share]; unsigned 32-bit counters. *)
Record fsal_share : Set := {
  share_access_read : Z;
  share_access_write : Z;
  share_deny_read : Z;
  share_deny_write : Z;
  share_deny_write_mand : Z
}.

(** The change of a counter for the flag [bit]. *)
Definition flag_inc (bit old_openflags new_openflags : Z) : Z :=
  Z.b2z (has new_openflags bit) - Z.b2z (has old_openflags bit).

Definition update_share_counters (share : fsal_share) (old_openflags new_openflags : Z) : fsal_share :=
  let inc bit := flag_inc bit old_openflags new_openflags in
  {| share_access_read := u32 (share_access_read share + inc FSAL_O_READ);
     share_access_write := u32 (share_access_write share + inc FSAL_O_WRITE);
     share_deny_read := u32 (share_deny_read share + inc FSAL_O_DENY_READ);
     share_deny_write := u32 (share_deny_write share
                              + (inc FSAL_O_DENY_WRITE + inc FSAL_O_DENY_WRITE_MAND));
     share_deny_write_mand := u32 (share_deny_write_mand share + inc FSAL_O_DENY_WRITE_MAND) |}.

Definition check_share_conflict (share : fsal_share) (openflags : Z) (bypass : bool) : fsal_errors_t :=
  if has openflags FSAL_O_READ && (0 <? share_deny_read share) && negb bypass
  then ERR_FSAL_SHARE_DENIED
  else if has openflags FSAL_O_WRITE
          && ((0 <? share_deny_write_mand share) || (negb bypass && (0 <? share_deny_write share)))
  then ERR_FSAL_SHARE_DENIED
  else if has openflags FSAL_O_DENY_READ && (0 <? share_access_read share)
  then ERR_FSAL_SHARE_DENIED
  else if (has openflags FSAL_O_DENY_WRITE || has openflags FSAL_O_DENY_WRITE_MAND)
          && (0 <? share_access_write share)
  then ERR_FSAL_SHARE_DENIED
  else ERR_FSAL_NO_ERROR.

(** [check_share_conflict_and_update], [include/FSAL/fsal_commonlib.h]. *)
Definition check_share_conflict_and_update (share : fsal_share) (old_openflags new_openflags : Z)
    (bypass : bool) : fsal_errors_t * fsal_share :=
  let status := check_share_conflict share new_openflags bypass in
  if decide (status = ERR_FSAL_NO_ERROR)
  then (status, update_share_counters share old_openflags new_openflags)
  else (status, share).

Definition merge_share (orig dupe : fsal_share) : fsal_errors_t * fsal_share :=
  if (share_deny_read dupe =? 0) && (share_deny_write dupe =? 0) && (share_deny_write_mand dupe =? 0)
     && (share_access_read dupe =? 0) && (share_access_write dupe =? 0)
  then (ERR_FSAL_NO_ERROR, orig)
  else if (0 <? share_access_read dupe) && (0 <? share_deny_read orig)
  then (ERR_FSAL_SHARE_DENIED, orig)
  else if (0 <? share_deny_read dupe) && (0 <? share_access_read orig)
  then (ERR_FSAL_SHARE_DENIED, orig)
  else if (0 <? share_access_write dupe) && (0 <? share_deny_write orig)
  then (ERR_FSAL_SHARE_DENIED, orig)
  else if (0 <? share_deny_write dupe) && (0 <? share_access_write orig)
  then (ERR_FSAL_SHARE_DENIED, orig)
  else (ERR_FSAL_NO_ERROR,
        {| share_access_read := u32 (share_access_read orig + share_access_read dupe);
           share_access_write := u32 (share_access_write orig + share_access_write dupe);
           share_deny_read := u32 (share_deny_read orig + share_deny_read dupe);
           share_deny_write := u32 (share_deny_write orig + share_deny_write dupe);
           share_deny_write_mand := u32 (share_deny_write_mand orig + share_deny_write_mand dupe) |}).

(** ** The opens behind the counters *)

(** How many of the opens [l] have the flag [bit]. *)
Definition held (bit : Z) (l : list Z) : Z := foldr (fun f n => Z.b2z (has f bit) + n) 0 l.

(** The counters of the opens [l]. *)
Definition share_of (l : list Z) : fsal_share :=
  {| share_access_read := u32 (held FSAL_O_READ l);
     share_access_write := u32 (held FSAL_O_WRITE l);
     share_deny_read := u32 (held FSAL_O_DENY_READ l);
     share_deny_write := u32 (held FSAL_O_DENY_WRITE l + held FSAL_O_DENY_WRITE_MAND l);
     share_deny_write_mand := u32 (held FSAL_O_DENY_WRITE_MAND l) |}.

(** One open denies what another does. *)
Definition denies_read (f : Z) : bool := has f FSAL_O_DENY_READ.
Definition denies_write (f : Z) : bool := has f FSAL_O_DENY_WRITE || has f FSAL_O_DENY_WRITE_MAND.
Definition clash (f g : Z) : bool :=
  (has f FSAL_O_READ && denies_read g) || (denies_read f && has g FSAL_O_READ)
  || (has f FSAL_O_WRITE && denies_write g) || (denies_write f && has g FSAL_O_WRITE).

Lemma held_perm bit l l' : l ≡ₚ l' -> held bit l = held bit l'.
Proof. induction 1; simpl; lia. Qed.

Lemma held_app bit l l' : held bit (l ++ l') = held bit l + held bit l'.
Proof. induction l as [|f l IH]; simpl; [done|]. rewrite IH. lia. Qed.

Lemma held_bounds bit l : 0 <= held bit l <= Z.of_nat (length l).
Proof. induction l as [|f l IH]; cbn [held foldr length]; [lia|]. destruct (has f bit); simpl; unfold held in IH; lia. Qed.

Lemma held_pos bit l : 0 < held bit l <-> exists f, f ∈ l /\ has f bit = true.
Proof.
  induction l as [|f l IH]; cbn [held foldr].
  { split; [lia|]. intros (f & Hf & _). by apply elem_of_nil in Hf. }
  pose proof (held_bounds bit l) as Hb. fold (held bit l) in *. setoid_rewrite elem_of_cons.
  destruct (has f bit) eqn:Hf; simpl.
  - split; [intros _; exists f; auto|lia].
  - rewrite Z.add_0_l, IH. split; [naive_solver|]. intros (g & [->|Hg] & Hh); [congruence|eauto].
Qed.

Lemma share_of_perm l l' : l ≡ₚ l' -> share_of l = share_of l'.
Proof. intros Hp. unfold share_of. by rewrite !(held_perm _ _ _ Hp). Qed.

(** Additions at 32 bits. *)
Lemma u32_add_l x y : u32 (u32 x + y) = u32 (x + y).
Proof. unfold wrapu. by rewrite Zplus_mod_idemp_l. Qed.
Lemma u32_add_r x y : u32 (x + u32 y) = u32 (x + y).
Proof. unfold wrapu. by rewrite Zplus_mod_idemp_r. Qed.

(** The counters follow a change of the flags of one open. *)
Lemma update_share_of old new l :
  update_share_counters (share_of (old :: l)) old new = share_of (new :: l).
Proof.
  unfold update_share_counters, share_of, flag_inc. cbn [share_access_read share_access_write
    share_deny_read share_deny_write share_deny_write_mand held foldr].
  rewrite !u32_add_l. f_equal; f_equal; unfold held; lia.
Qed.

Lemma has_closed bit : has FSAL_O_CLOSED bit = false.
Proof. done. Qed.

(** An open that is closed counts for nothing. *)
Lemma share_of_closed l : share_of (FSAL_O_CLOSED :: l) = share_of l.
Proof. done. Qed.

(** The bound under which no counter wraps: an open adds at most 2 to one. *)
Definition few (l : list Z) : Prop := 2 * Z.of_nat (length l) <= UINT32_MAX.

Lemma positive_held bit l : (0 <? held bit l) = existsb (fun f => has f bit) l.
Proof.
  apply eq_true_iff_eq. rewrite Z.ltb_lt, held_pos, existsb_exists. by setoid_rewrite list_elem_of_In.
Qed.

Lemma counter_pos bit l : few l -> (0 <? u32 (held bit l)) = existsb (fun f => has f bit) l.
Proof.
  unfold few. intros Hl. rewrite <- positive_held. pose proof (held_bounds bit l).
  by rewrite u32_small by lia.
Qed.

Lemma deny_write_pos l : few l ->
  (0 <? u32 (held FSAL_O_DENY_WRITE l + held FSAL_O_DENY_WRITE_MAND l)) = existsb denies_write l.
Proof.
  unfold few. intros Hl. pose proof (held_bounds FSAL_O_DENY_WRITE l).
  pose proof (held_bounds FSAL_O_DENY_WRITE_MAND l). rewrite u32_small by lia.
  unfold denies_write. transitivity
    (existsb (fun f => has f FSAL_O_DENY_WRITE) l || existsb (fun f => has f FSAL_O_DENY_WRITE_MAND) l).
  - rewrite <- !positive_held. apply eq_true_iff_eq. rewrite orb_true_iff, !Z.ltb_lt. lia.
  - clear. induction l as [|f l IH]; simpl; [done|]. rewrite <- IH.
    repeat match goal with |- context [has f ?b] => destruct (has f b) end; simpl; try done;
      by rewrite ?orb_true_r.
Qed.

(** What an open asking for [f] meets in an open [g]; [bypass] ignores the
    denials that are not mandatory. *)
Definition meets (bypass : bool) (f g : Z) : bool :=
  (has f FSAL_O_READ && denies_read g && negb bypass)
  || (has f FSAL_O_WRITE && (has g FSAL_O_DENY_WRITE_MAND || (negb bypass && denies_write g)))
  || (denies_read f && has g FSAL_O_READ) || (denies_write f && has g FSAL_O_WRITE).

Lemma meets_clash f g : meets false f g = clash f g.
Proof.
  unfold meets, clash, denies_write.
  repeat match goal with |- context [has ?x ?b] => destruct (has x b) end; try done;
    unfold denies_read; by repeat match goal with |- context [has ?x ?b] => destruct (has x b) end.
Qed.

Lemma existsb_meets bypass f l :
  existsb (meets bypass f) l
  = (has f FSAL_O_READ && existsb denies_read l && negb bypass)
    || (has f FSAL_O_WRITE && (existsb (fun g => has g FSAL_O_DENY_WRITE_MAND) l
                               || (negb bypass && existsb denies_write l)))
    || (denies_read f && existsb (fun g => has g FSAL_O_READ) l)
    || (denies_write f && existsb (fun g => has g FSAL_O_WRITE) l).
Proof.
  induction l as [|g l IH]; cbn [existsb]; [by rewrite !andb_false_r|]. rewrite IH. unfold meets.
  destruct (has f FSAL_O_READ), (has f FSAL_O_WRITE), (denies_read f), (denies_write f), bypass,
    (denies_read g), (has g FSAL_O_DENY_WRITE_MAND), (denies_write g), (has g FSAL_O_READ),
    (has g FSAL_O_WRITE); cbn [andb orb negb]; rewrite ?orb_true_r, ?orb_false_r, ?andb_true_r, ?andb_false_r; done.
Qed.

Lemma check_share_of l f bypass :
  few l ->
  check_share_conflict (share_of l) f bypass
  = if existsb (meets bypass f) l then ERR_FSAL_SHARE_DENIED else ERR_FSAL_NO_ERROR.
Proof.
  intros Hl. rewrite existsb_meets. unfold check_share_conflict, share_of.
  cbn [share_access_read share_access_write share_deny_read share_deny_write share_deny_write_mand].
  rewrite !counter_pos, deny_write_pos by done. unfold denies_read, denies_write.
  fold (denies_write f).
  repeat match goal with |- context [if ?b then _ else _] => destruct b; cbn [orb]; [by rewrite ?orb_true_r|] end.
  done.
Qed.

(** ** Merging two sets of opens *)

Lemma existsb_clash f l :
  existsb (clash f) l
  = (has f FSAL_O_READ && existsb denies_read l) || (denies_read f && existsb (fun g => has g FSAL_O_READ) l)
    || (has f FSAL_O_WRITE && existsb denies_write l) || (denies_write f && existsb (fun g => has g FSAL_O_WRITE) l).
Proof.
  induction l as [|g l IH]; cbn [existsb]; [by rewrite !andb_false_r|]. rewrite IH. unfold clash.
  destruct (has f FSAL_O_READ), (has f FSAL_O_WRITE), (denies_read f), (denies_write f),
    (denies_read g), (denies_write g), (has g FSAL_O_READ), (has g FSAL_O_WRITE); cbn [andb orb];
    rewrite ?orb_true_r, ?orb_false_r; done.
Qed.

Definition any_clash (l l' : list Z) : bool := existsb (fun f => existsb (clash f) l) l'.

Lemma any_clash_split l l' :
  any_clash l l'
  = (existsb (fun g => has g FSAL_O_READ) l' && existsb denies_read l)
    || (existsb denies_read l' && existsb (fun g => has g FSAL_O_READ) l)
    || (existsb (fun g => has g FSAL_O_WRITE) l' && existsb denies_write l)
    || (existsb denies_write l' && existsb (fun g => has g FSAL_O_WRITE) l).
Proof.
  unfold any_clash.
  induction l' as [|f l' IH]; cbn [existsb]; [done|]. rewrite IH, existsb_clash.
  destruct (has f FSAL_O_READ), (has f FSAL_O_WRITE), (denies_read f), (denies_write f),
    (existsb denies_read l), (existsb denies_write l), (existsb (fun g => has g FSAL_O_READ) l),
    (existsb (fun g => has g FSAL_O_WRITE) l); cbn [andb orb];
    rewrite ?orb_true_r, ?orb_false_r, ?andb_true_r, ?andb_false_r; try done;
    destruct (existsb (fun g => has g FSAL_O_READ) l'), (existsb denies_read l'),
      (existsb (fun g => has g FSAL_O_WRITE) l'), (existsb denies_write l'); done.
Qed.

Lemma few_app l l' : few (l ++ l') -> few l /\ few l'.
Proof. unfold few. rewrite length_app. lia. Qed.

Lemma share_of_app l l' :
  share_of (l ++ l')
  = {| share_access_read := u32 (share_access_read (share_of l) + share_access_read (share_of l'));
       share_access_write := u32 (share_access_write (share_of l) + share_access_write (share_of l'));
       share_deny_read := u32 (share_deny_read (share_of l) + share_deny_read (share_of l'));
       share_deny_write := u32 (share_deny_write (share_of l) + share_deny_write (share_of l'));
       share_deny_write_mand := u32 (share_deny_write_mand (share_of l) + share_deny_write_mand (share_of l')) |}.
Proof.
  unfold share_of. cbn [share_access_read share_access_write share_deny_read share_deny_write share_deny_write_mand].
  rewrite !u32_add_l, !u32_add_r, !held_app. f_equal; f_equal; lia.
Qed.

(** All counters zero: the opens neither access nor deny anything. *)
Lemma zero_share_of l :
  few l -> share_deny_read (share_of l) = 0 -> share_deny_write (share_of l) = 0 ->
  share_deny_write_mand (share_of l) = 0 -> share_access_read (share_of l) = 0 ->
  share_access_write (share_of l) = 0 ->
  existsb denies_read l = false /\ existsb denies_write l = false /\
  existsb (fun g => has g FSAL_O_READ) l = false /\ existsb (fun g => has g FSAL_O_WRITE) l = false.
Proof.
  intros Hl H1 H2 _ H4 H5. unfold denies_read at 1.
  rewrite <- !(counter_pos _ l Hl), <- (deny_write_pos l Hl).
  cbn [share_deny_read share_deny_write share_access_read share_access_write share_of] in *.
  by rewrite H1, H2, H4, H5.
Qed.

Lemma merge_share_of l l' :
  few (l ++ l') ->
  merge_share (share_of l) (share_of l')
  = if any_clash l l' then (ERR_FSAL_SHARE_DENIED, share_of l) else (ERR_FSAL_NO_ERROR, share_of (l ++ l')).
Proof.
  intros [Hl Hl']%few_app. rewrite any_clash_split, share_of_app. unfold merge_share.
  match goal with |- context [if ?b then (_, share_of l) else _] => destruct b eqn:Hz end.
  - repeat (apply andb_true_iff in Hz as [Hz ?]). rewrite Z.eqb_eq in *.
    destruct (zero_share_of l' Hl') as (-> & -> & -> & ->); [done..|]. cbn [andb orb]. f_equal.
    repeat match goal with H : _ (share_of l') = 0 |- _ => rewrite H; clear H end.
    rewrite !Z.add_0_r. unfold share_of. cbn. unfold wrapu. by rewrite !Zmod_mod.
  - clear Hz.
    assert ((0 <? share_access_read (share_of l')) = existsb (fun g => has g FSAL_O_READ) l') as ->
      by by apply counter_pos.
    assert ((0 <? share_deny_read (share_of l)) = existsb denies_read l) as -> by by apply counter_pos.
    assert ((0 <? share_deny_read (share_of l')) = existsb denies_read l') as -> by by apply counter_pos.
    assert ((0 <? share_access_read (share_of l)) = existsb (fun g => has g FSAL_O_READ) l) as ->
      by by apply counter_pos.
    assert ((0 <? share_access_write (share_of l')) = existsb (fun g => has g FSAL_O_WRITE) l') as ->
      by by apply counter_pos.
    assert ((0 <? share_deny_write (share_of l)) = existsb denies_write l) as -> by by apply deny_write_pos.
    assert ((0 <? share_deny_write (share_of l')) = existsb denies_write l') as -> by by apply deny_write_pos.
    assert ((0 <? share_access_write (share_of l)) = existsb (fun g => has g FSAL_O_WRITE) l) as ->
      by by apply counter_pos.
    repeat match goal with |- context [if ?b && ?c then _ else _] =>
      destruct (b && c); cbn [orb]; [by rewrite ?orb_true_r|] end.
    done.
Qed.

(** ** The opens of a file over time *)

(** No two opens of the list clash. *)
Fixpoint exclusive (l : list Z) : Prop :=
  match l with
  | [] => True
  | f :: l' => existsb (clash f) l' = false /\ exclusive l'
  end.

Lemma clash_sym f g : clash f g = clash g f.
Proof.
  unfold clash. destruct (has f FSAL_O_READ), (has g FSAL_O_READ), (denies_read f), (denies_read g),
    (has f FSAL_O_WRITE), (has g FSAL_O_WRITE), (denies_write f), (denies_write g); done.
Qed.

Lemma existsb_perm {A} (p : A -> bool) l l' : l ≡ₚ l' -> existsb p l = existsb p l'.
Proof.
  induction 1; simpl; [done|congruence| |congruence].
  by rewrite !orb_assoc, (orb_comm (p y)).
Qed.

Lemma exclusive_perm l l' : l ≡ₚ l' -> exclusive l -> exclusive l'.
Proof.
  induction 1 as [|f l l' Hp IH|f g l|]; simpl; [done| | |auto].
  - rewrite (existsb_perm _ _ _ Hp). intuition.
  - rewrite !orb_false_iff, (clash_sym f g). intuition.
Qed.

Lemma exclusive_app l l' :
  exclusive l -> exclusive l' -> any_clash l l' = false -> exclusive (l ++ l').
Proof.
  intros Hl Hl'. revert Hl. induction l as [|f l IH]; [done|]. simpl. intros [Hf Hl] Hc.
  assert (any_clash l l' = false /\ existsb (clash f) l' = false) as [Hc1 Hc2].
  { unfold any_clash in *. rewrite <- not_true_iff_false, existsb_exists in Hc.
    split; rewrite <- not_true_iff_false, existsb_exists; intros (x & Hx & Hcx); apply Hc; exists x;
      (split; [done|]); cbn [existsb]; [by rewrite Hcx, orb_true_r|by rewrite clash_sym, Hcx]. }
  rewrite existsb_app, Hf, Hc2. auto.
Qed.

(** The histories of a file's share: opens, re-opens with other flags and the
    merge of the share of a second handle, each granted or refused by the check, and
    closes. *)
Inductive share_run : list Z -> fsal_share -> Prop :=
  | run_init : share_run [] (share_of [])
  | run_open l s f s' :
      share_run l s -> few (f :: l) ->
      check_share_conflict_and_update s FSAL_O_CLOSED f false = (ERR_FSAL_NO_ERROR, s') ->
      share_run (f :: l) s'
  | run_reopen l l' s old new s' :
      share_run l s -> l ≡ₚ old :: l' -> few l ->
      check_share_conflict_and_update s old new false = (ERR_FSAL_NO_ERROR, s') ->
      share_run (new :: l') s'
  | run_refused l s old new st s' :
      share_run l s -> check_share_conflict_and_update s old new false = (st, s') -> st <> ERR_FSAL_NO_ERROR ->
      share_run l s'
  | run_merge_refused l s s1 st s' :
      share_run l s -> merge_share s s1 = (st, s') -> st <> ERR_FSAL_NO_ERROR -> share_run l s'
  | run_merge l l' s s1 s' :
      share_run l s -> share_run l' s1 -> few (l ++ l') ->
      merge_share s s1 = (ERR_FSAL_NO_ERROR, s') -> share_run (l ++ l') s'
  | run_close l l' s f :
      share_run l s -> l ≡ₚ f :: l' -> share_run l' (update_share_counters s f FSAL_O_CLOSED).

Lemma check_and_update_inv l old new s' :
  few l -> check_share_conflict_and_update (share_of l) old new false = (ERR_FSAL_NO_ERROR, s') ->
  s' = update_share_counters (share_of l) old new /\ existsb (clash new) l = false.
Proof.
  intros Hl. unfold check_share_conflict_and_update. rewrite check_share_of by done.
  assert (existsb (meets false new) l = existsb (clash new) l) as ->.
  { clear. induction l as [|g l IH]; simpl; [done|]. by rewrite IH, meets_clash. }
  destruct (existsb (clash new) l); simpl; [done|]. by intros [= <-].
Qed.

Lemma share_run_inv l s : share_run l s -> s = share_of l /\ exclusive l.
Proof.
  induction 1 as [|l s f s' _ [-> Hx] Hf Hc|l l' s old new s' _ [-> Hx] Hp Hf Hc
                 |l s old new st s' _ IH Hc Hst|l s s1 st s' _ IH Hm Hst
                 |l l' s s1 s' _ [-> Hx] _ [-> Hx'] Hf Hm|l l' s f _ [-> Hx] Hp].
  - done.
  - apply check_and_update_inv in Hc as [-> Hc]; [|unfold few in *; simpl in *; lia].
    rewrite <- share_of_closed, update_share_of. by split.
  - apply check_and_update_inv in Hc as [-> Hc]; [|done].
    rewrite (share_of_perm _ _ Hp), update_share_of. split; [done|].
    apply (exclusive_perm _ _ Hp) in Hx as [_ Hx]. split; [|done].
    rewrite (existsb_perm _ _ _ Hp) in Hc. simpl in Hc. by apply orb_false_iff in Hc as [_ ?].
  - unfold check_share_conflict_and_update in Hc. case_decide; by simplify_eq.
  - unfold merge_share in Hm. repeat (case_match; [by simplify_eq|]). by simplify_eq.
  - rewrite merge_share_of in Hm by done. destruct (any_clash l l') eqn:Hc; [done|].
    injection Hm as <-. split; [done|]. by apply exclusive_app.
  - rewrite (share_of_perm _ _ Hp), update_share_of, share_of_closed.
    apply (exclusive_perm _ _ Hp) in Hx as [_ Hx]. done.
Qed.

(** ** Guarantees *)

(** C21: share reservations exclude each other.  Whatever opens, re-opens,
    merges and closes a file has seen, the counters are those of the opens it has
    now, and no open denies what another one does. *)
Theorem share_exclusion l s f g l' :
  share_run l s -> l ≡ₚ f :: g :: l' -> s = share_of l /\ clash f g = false.
Proof.
  intros [-> Hx]%share_run_inv Hp. split; [done|]. apply (exclusive_perm _ _ Hp) in Hx as [Hx _].
  simpl in Hx. by apply orb_false_iff in Hx as [? _].
Qed.

(** The conflict check.  On the counters of the opens [l] it denies exactly
    the flags that meet a denial or deny an access of one of them; [bypass]
    ignores the denials that are not mandatory. *)
Theorem check_share_conflict_correct l f bypass :
  2 * Z.of_nat (length l) <= UINT32_MAX ->
  (check_share_conflict (share_of l) f bypass = ERR_FSAL_SHARE_DENIED <->
     exists g, g ∈ l /\ meets bypass f g = true) /\
  (check_share_conflict (share_of l) f bypass = ERR_FSAL_NO_ERROR <->
     forall g, g ∈ l -> meets bypass f g = false).
Proof.
  intros Hl. rewrite check_share_of by done.
  destruct (existsb (meets bypass f) l) eqn:He.
  - apply existsb_exists in He as (g & Hg & Hm). apply list_elem_of_In in Hg.
    split; split; try done; eauto. intros H. by rewrite (H g Hg) in Hm.
  - rewrite <- not_true_iff_false, existsb_exists in He. setoid_rewrite <- list_elem_of_In in He.
    split; split; try done.
    intros _ g Hg. apply not_true_iff_false. intros Hm. apply He. eauto.
Qed.

(** Merging shares.  The counters of two handles of one file are added when
    no open of one clashes with one of the other, else the merge is denied and the
    original left alone. *)
Theorem merge_share_correct l l' :
  2 * Z.of_nat (length (l ++ l')) <= UINT32_MAX ->
  merge_share (share_of l) (share_of l')
  = if any_clash l l' then (ERR_FSAL_SHARE_DENIED, share_of l)
    else (ERR_FSAL_NO_ERROR, share_of (l ++ l')).
Proof. apply merge_share_of. Qed.

(** Two readers that deny writing. *)
Definition reader : Z := Z.lor FSAL_O_READ FSAL_O_DENY_WRITE.

Lemma two_readers_run : share_run [reader; reader] (share_of [reader; reader]).
Proof.
  eapply run_open; [eapply run_open; [apply run_init|..]|..]; try done; unfold few, UINT32_MAX; simpl; lia.
Qed.

Lemma share_exclusion_witness :
  share_of [reader; reader] = share_of [reader; reader] /\ clash reader reader = false.
Proof.
  apply (share_exclusion [reader; reader] (share_of [reader; reader]) reader reader []).
  - apply two_readers_run.
  - reflexivity.
Defined.

Lemma check_share_conflict_correct_witness :
  check_share_conflict (share_of [reader; reader]) FSAL_O_WRITE false = ERR_FSAL_SHARE_DENIED /\
  check_share_conflict (share_of [reader; reader]) FSAL_O_WRITE true = ERR_FSAL_NO_ERROR.
Proof.
  split.
  - apply (check_share_conflict_correct [reader; reader] FSAL_O_WRITE false).
    + unfold UINT32_MAX. simpl. lia.
    + exists reader. split; [by left|reflexivity].
  - apply (check_share_conflict_correct [reader; reader] FSAL_O_WRITE true).
    + unfold UINT32_MAX. simpl. lia.
    + intros g Hg. rewrite !elem_of_cons, elem_of_nil in Hg. destruct Hg as [->|[->|[]]]; reflexivity.
Defined.

Lemma merge_share_correct_witness :
  merge_share (share_of [reader]) (share_of [FSAL_O_WRITE]) = (ERR_FSAL_SHARE_DENIED, share_of [reader]).
Proof.
  rewrite (merge_share_correct [reader] [FSAL_O_WRITE]).
  - reflexivity.
  - unfold UINT32_MAX. simpl. lia.
Defined.
