(* ===== verification/NlmShare.v ===== *)
(** * NLM shares

    [SAL/state_share.c]: the share a client holds on a file through NLM, kept as
    counts of the share requests per access and deny mode, with the lists and
    references that keep its [state_t] alive. *)
From S2P Require Import Prelude Status Share.
Local Open Scope Z_scope.

(** [fsh4_access] and [fsh4_mode], [include/nlm4.h]; the values an UNSHARE of
    everything uses, [include/nfsv41.h]. *)
Definition fsa_R : Z := 1.
Definition fsa_W : Z := 2.
Definition fsm_DR : Z := 1.
Definition fsm_DW : Z := 2.
Definition OPEN4_SHARE_ACCESS_NONE : Z := 0.
Definition OPEN4_SHARE_ACCESS_ALL : Z := 4.
Definition OPEN4_SHARE_DENY_ALL : Z := 4.

(** [struct state_nlm_share]; the two arrays have four entries. *)
Record state_nlm_share_t : Set := {
  share_access : Z;
  share_deny : Z;
  share_access_counts : list Z;
  share_deny_counts : list Z
}.

(** The owner of a state, the host of the owner's client, the file and the export
    the state was made for. *)
Record share_ctx : Set := {
  sc_owner : positive;
  sc_nsm : positive;
  sc_obj : positive;
  sc_export : positive
}.

(** A [state_t] of type STATE_TYPE_NLM_SHARE. *)
Record nlm_state_t : Set := {
  st_ctx : share_ctx;
  st_refcount : Z;
  st_share : state_nlm_share_t
}.

(** The states, and the lists they are linked into: per owner, per host (with its
    reference count), per file and per export. *)
Record share_world : Type := {
  ns_heap : gmap positive nlm_state_t;
  ns_owner : gmap positive (list positive);
  ns_client : gmap positive (list positive);
  ns_client_refs : gmap positive Z;
  ns_file : gmap positive (list positive);
  ns_export : gmap positive (list positive)
}.
Abbreviation SM := (M share_world).

Definition set_heap (f : gmap positive nlm_state_t -> gmap positive nlm_state_t) (w : share_world) :=
  {| ns_heap := f (ns_heap w); ns_owner := ns_owner w; ns_client := ns_client w;
     ns_client_refs := ns_client_refs w; ns_file := ns_file w; ns_export := ns_export w |}.

Definition get_state (a : positive) : SM nlm_state_t := fun w =>
  match ns_heap w !! a with Some s => Some (s, w) | None => None end.
Definition put_share (a : positive) (sh : state_nlm_share_t) : SM unit :=
  s ← get_state a;
  modify (set_heap <[a := {| st_ctx := st_ctx s; st_refcount := st_refcount s; st_share := sh |}]>).

(** [inc_state_t_ref] and [dec_state_t_ref]: the last reference frees the state. *)
Definition inc_state_t_ref (a : positive) : SM unit :=
  s ← get_state a;
  modify (set_heap <[a := {| st_ctx := st_ctx s; st_refcount := st_refcount s + 1; st_share := st_share s |}]>).
Definition dec_state_t_ref (a : positive) : SM unit :=
  s ← get_state a;
  let refcount := st_refcount s - 1 in
  if refcount <? 0 then undef
  else if 0 <? refcount
  then modify (set_heap <[a := {| st_ctx := st_ctx s; st_refcount := refcount; st_share := st_share s |}]>)
  else modify (set_heap (delete a)).

Definition set_links (c : share_ctx) (f : positive -> gmap positive (list positive) ->
    gmap positive (list positive)) (refs : Z) (w : share_world) : share_world :=
  {| ns_heap := ns_heap w; ns_owner := f (sc_owner c) (ns_owner w);
     ns_client := f (sc_nsm c) (ns_client w);
     ns_client_refs := <[sc_nsm c := default 0 (ns_client_refs w !! sc_nsm c) + refs]> (ns_client_refs w);
     ns_file := f (sc_obj c) (ns_file w); ns_export := f (sc_export c) (ns_export w) |}.

Definition remove_nlm_share (state : positive) : SM unit :=
  s ← get_state state;
  modify (set_links (st_ctx s) (fun k => del_from k state) (-1));;
  dec_state_t_ref state.

(** An element of a count array; undefined outside it. *)
Definition count_at (i : Z) (l : list Z) : option Z :=
  if i <? 0 then None else l !! Z.to_nat i.

(** The counts after an UNSHARE or a SHARE of [v]; [all] releases everything. *)
Definition unshare_counts (v all : Z) (l : list Z) : option (list Z) :=
  if v =? all then Some [0; 0; 0; 0]
  else c ← count_at v l; Some (if 0 <? c then <[Z.to_nat v := c - 1]> l else l).
Definition share_counts (v : Z) (l : list Z) : option (list Z) :=
  c ← count_at v l; Some (<[Z.to_nat v := u32 (c + 1)]> l).

(** The union of the modes with a count. *)
Definition union_from (i : Z) (l : list Z) : Z :=
  (fix go i l := match l with
                 | [] => 0
                 | c :: l' => Z.lor (if c =? 0 then 0 else i) (go (i + 1) l')
                 end) i l.
Definition union_of (l : list Z) : Z := union_from 0 l.

(** The open flags for the union of the shares. *)
Definition share_openflags (new_access new_deny : Z) (reclaim : bool) : Z :=
  let access := Z.lor (if has new_access fsa_R then FSAL_O_READ else 0)
                      (if has new_access fsa_W then FSAL_O_WRITE else 0) in
  let access := if access =? FSAL_O_CLOSED then FSAL_O_READ else access in
  Z.lor access (Z.lor (if has new_deny fsm_DR then FSAL_O_DENY_READ else 0)
    (Z.lor (if has new_deny fsm_DW then FSAL_O_DENY_WRITE else 0)
           (if reclaim then FSAL_O_RECLAIM else 0))).

(** [state_nlm_share] on behalf of the owner of the state: [test_access] and
    [reopen2] are the FSAL's answers to the access check and to the re-open for
    the open flags. *)
Definition state_nlm_share (test_access reopen2 : Z -> fsal_errors_t)
    (access deny : Z) (state : positive) (reclaim unshare : bool) : SM state_status_t :=
  s ← get_state state;
  let sh := st_share s in
  let old_access := share_access sh in
  let old_deny := share_deny sh in
  acounts ← deref (if unshare then unshare_counts access OPEN4_SHARE_ACCESS_ALL (share_access_counts sh)
                   else share_counts access (share_access_counts sh));
  dcounts ← deref (if unshare then unshare_counts deny OPEN4_SHARE_DENY_ALL (share_deny_counts sh)
                   else share_counts deny (share_deny_counts sh));
  put_share state {| share_access := old_access; share_deny := old_deny;
                     share_access_counts := acounts; share_deny_counts := dcounts |};;
  let new_access := union_of acounts in
  let new_deny := union_of dcounts in
  if (new_access =? old_access) && (new_deny =? old_deny) then mret STATE_SUCCESS else
  if negb (has new_access fsa_R) && negb (has new_access fsa_W) && unshare then
    remove_nlm_share state;;
    mret STATE_SUCCESS
  else
  let openflags := share_openflags new_access new_deny reclaim in
  let status := test_access openflags in
  if decide (status <> ERR_FSAL_NO_ERROR) then mret (state_error_convert status) else
  let status := reopen2 openflags in
  if decide (status <> ERR_FSAL_NO_ERROR) then mret (state_error_convert status) else
  (if decide (old_access <> OPEN4_SHARE_ACCESS_NONE) then mret tt
   else
     inc_state_t_ref state;;
     modify (set_links (st_ctx s) (fun k => add_tail k state) 1));;
  put_share state {| share_access := new_access; share_deny := new_deny;
                     share_access_counts := acounts; share_deny_counts := dcounts |};;
  mret (state_error_convert ERR_FSAL_NO_ERROR).

(** [state_share_wipe]: the file's list, read ahead of each removal. *)
Fixpoint wipe_from (l : list positive) : SM unit :=
  match l with
  | [] => mret tt
  | a :: l' => remove_nlm_share a;; wipe_from l'
  end.
Definition state_share_wipe (obj : positive) : SM unit :=
  l ← gets (fun w => list_at obj (ns_file w));
  wipe_from l.

(** The body of the loop of [state_export_unshare_all]: the first share of the
    export, if its file is not stale. *)
Definition unshare_first (test_access reopen2 : Z -> fsal_errors_t) (stale : positive -> bool)
    (export : positive) : SM (option state_status_t) :=
  l ← gets (fun w => list_at export (ns_export w));
  match l with
  | [] => mret None
  | state :: _ =>
      if stale state then mret None else
      inc_state_t_ref state;;
      status ← state_nlm_share test_access reopen2 OPEN4_SHARE_ACCESS_ALL OPEN4_SHARE_DENY_ALL
                 state false true;
      dec_state_t_ref state;;
      mret (Some status)
  end.

(** The loop, for at most [fuel] shares; [None] when the errors reach the limit
    ([LogFatal]) or the fuel is used up. *)
Definition STATE_ERR_MAX : nat := 100.
Fixpoint unshare_loop (test_access reopen2 : Z -> fsal_errors_t) (stale : positive -> bool)
    (export : positive) (fuel errcnt : nat) : SM unit :=
  match fuel with
  | O => undef
  | S fuel' =>
      if decide (errcnt = STATE_ERR_MAX) then undef else
      r ← unshare_first test_access reopen2 stale export;
      match r with
      | None => mret tt
      | Some status =>
          unshare_loop test_access reopen2 stale export fuel'
            (if state_unlock_err_ok status then errcnt else S errcnt)
      end
  end.

(** ** The requests *)

(** [nlm4_stats], [include/nlm4.h]. *)
Inductive nlm4_stats : Set :=
  | NLM4_GRANTED | NLM4_DENIED | NLM4_DENIED_NOLOCKS | NLM4_BLOCKED | NLM4_DENIED_GRACE_PERIOD
  | NLM4_DEADLCK | NLM4_ROFS | NLM4_STALE_FH | NLM4_FBIG | NLM4_FAILED.

Definition nlm_convert_state_error (status : state_status_t) : nlm4_stats :=
  match status with
  | STATE_SUCCESS => NLM4_GRANTED
  | STATE_LOCK_CONFLICT => NLM4_DENIED
  | STATE_SHARE_DENIED => NLM4_DENIED
  | STATE_MALLOC_ERROR => NLM4_DENIED_NOLOCKS
  | STATE_LOCK_BLOCKED => NLM4_BLOCKED
  | STATE_GRACE_PERIOD => NLM4_DENIED_GRACE_PERIOD
  | STATE_LOCK_DEADLOCK => NLM4_DEADLCK
  | STATE_READ_ONLY_FS => NLM4_ROFS
  | STATE_NOT_FOUND => NLM4_STALE_FH
  | STATE_ESTALE => NLM4_STALE_FH
  | STATE_FILE_BIG | STATE_BAD_RANGE => NLM4_FBIG
  | _ => NLM4_FAILED
  end.

(** [care_t], [include/sal_data.h]. *)
Inductive care_t : Set := CARE_NOT | CARE_OWNER | CARE_ALWAYS | CARE_NO_MONITOR | CARE_MONITOR.

(** The key of the hash table of the NLM states: two states are the same when owner,
    export and file are (the type is STATE_TYPE_NLM_SHARE for all of them). *)
Definition compare_nlm_state (state1 state2 : share_ctx) : bool :=
  bool_decide (sc_owner state1 <> sc_owner state2) || bool_decide (sc_export state1 <> sc_export state2)
  || bool_decide (sc_obj state1 <> sc_obj state2).

(** The hash table holds every live state. *)
Definition find_nlm_state (key : share_ctx) (w : share_world) : option positive :=
  head (fst <$> filter (fun p => compare_nlm_state (st_ctx p.2) key = false) (map_to_list (ns_heap w))).

Definition fresh_share : state_nlm_share_t :=
  {| share_access := 0; share_deny := 0; share_access_counts := [0; 0; 0; 0];
     share_deny_counts := [0; 0; 0; 0] |}.

(** [get_nlm_state] for STATE_TYPE_NLM_SHARE with an NSM state of 0: the state found,
    with one more reference, or a new one, unless the caller does not care. *)
Definition get_nlm_state (care : care_t) (c : share_ctx) : SM (option positive) :=
  o ← gets (find_nlm_state c);
  match o with
  | Some state => inc_state_t_ref state;; mret (Some state)
  | None =>
      match care with
      | CARE_NOT | CARE_OWNER => mret None
      | _ =>
          state ← gets (fun w => fresh (dom (ns_heap w)));
          modify (set_heap <[state := {| st_ctx := c; st_refcount := 1; st_share := fresh_share |}]>);;
          mret (Some state)
      end
  end.

(** What a request finds outside this component: the server's configuration, the
    export of its file handle, whether the FSAL has its own grace period and else the
    answer of [nfs_get_grace_status], the object of the file handle (and whether it is
    a regular file), and the answers of [get_nsm_client], [get_nlm_client] and
    [get_nlm_owner], whose references the request gives back at its end. *)
Record share_request : Set := {
  sr_disable_NLM_SHARE : bool;
  sr_ctx_export : option positive;
  sr_grace_method : bool;
  sr_grace_status : bool;
  sr_obj : option (positive * bool);
  sr_nsm_client : option positive;
  sr_nlm_client : option positive;
  sr_owner : option positive
}.

(** [nlm_process_share_parms]: the status to answer with at once, or the state. *)
Definition nlm_process_share_parms (r : share_request) (export : positive) (care : care_t) :
    SM (nlm4_stats + positive) :=
  let missing := match care with CARE_NOT => NLM4_GRANTED | _ => NLM4_DENIED_NOLOCKS end in
  match sr_obj r with
  | None => mret (inl NLM4_STALE_FH)
  | Some (_, false) => mret (inl NLM4_FAILED)
  | Some (obj, true) =>
      match sr_nsm_client r, sr_nlm_client r, sr_owner r with
      | Some nsm, Some _, Some owner =>
          o ← get_nlm_state care {| sc_owner := owner; sc_nsm := nsm; sc_obj := obj; sc_export := export |};
          mret (match o with None => inl NLM4_GRANTED | Some state => inr state end)
      | _, _, _ => mret (inl missing)
      end
  end.

(** The common end of the two handlers. *)
Definition share_result (state_status : state_status_t) : nlm4_stats :=
  if decide (state_status <> STATE_SUCCESS) then nlm_convert_state_error state_status else NLM4_GRANTED.

Definition nlm4_Share (test_access reopen2 : Z -> fsal_errors_t) (r : share_request)
    (access deny : Z) (reclaim : bool) : SM nlm4_stats :=
  if sr_disable_NLM_SHARE r then mret NLM4_FAILED else
  match sr_ctx_export r with
  | None => mret NLM4_STALE_FH
  | Some export =>
      if negb (sr_grace_method r) && negb (sr_grace_status r) then mret NLM4_DENIED_GRACE_PERIOD else
      p ← nlm_process_share_parms r export CARE_NO_MONITOR;
      match p with
      | inl rc => mret rc
      | inr nlm_state =>
          state_status ← state_nlm_share test_access reopen2 access deny nlm_state reclaim false;
          dec_state_t_ref nlm_state;;
          mret (share_result state_status)
      end
  end.

Definition nlm4_Unshare (test_access reopen2 : Z -> fsal_errors_t) (r : share_request)
    (access deny : Z) : SM nlm4_stats :=
  if sr_disable_NLM_SHARE r then mret NLM4_FAILED else
  match sr_ctx_export r with
  | None => mret NLM4_STALE_FH
  | Some export =>
      p ← nlm_process_share_parms r export CARE_NOT;
      match p with
      | inl rc => mret rc
      | inr nlm_state =>
          state_status ← state_nlm_share test_access reopen2 access deny nlm_state false true;
          dec_state_t_ref nlm_state;;
          mret (share_result state_status)
      end
  end.

(** ** The invariant between requests *)

(** A list family holds exactly the states that belong there, once. *)
Definition links (key : share_ctx -> positive) (h : gmap positive nlm_state_t)
    (m : gmap positive (list positive)) : Prop :=
  (forall k, NoDup (list_at k m)) /\
  (forall k a, a ∈ list_at k m <-> exists s, h !! a = Some s /\ key (st_ctx s) = k).

(** Four counts of 32 bits. *)
Definition counts_ok (l : list Z) : Prop := length l = 4%nat /\ Forall (fun c => 0 <= c <= UINT32_MAX) l.

Definition share_ok (sh : state_nlm_share_t) : Prop :=
  counts_ok (share_access_counts sh) /\ counts_ok (share_deny_counts sh).

(** Every share is active, with the reference of its lists, and linked once; there is
    one per owner, export and file. *)
Record share_inv (w : share_world) : Prop := {
  si_state a s : ns_heap w !! a = Some s ->
    st_refcount s = 1 /\ share_access (st_share s) <> 0 /\ share_ok (st_share s);
  si_owner : links sc_owner (ns_heap w) (ns_owner w);
  si_client : links sc_nsm (ns_heap w) (ns_client w);
  si_file : links sc_obj (ns_heap w) (ns_file w);
  si_export : links sc_export (ns_heap w) (ns_export w);
  si_unique a b s t : ns_heap w !! a = Some s -> ns_heap w !! b = Some t ->
    compare_nlm_state (st_ctx s) (st_ctx t) = false -> a = b
}.

(** A change of a state that keeps its place. *)
Lemma links_update key h m a s s' :
  h !! a = Some s -> st_ctx s' = st_ctx s -> links key h m -> links key (<[a := s']> h) m.
Proof.
  intros Ha Hc [Hnd Hl]. split; [done|]. intros k b. rewrite Hl. split; intros (t & Ht & Hk).
  - destruct (decide (a = b)) as [->|Hne].
    + exists s'. rewrite lookup_insert_eq. split; [done|]. simplify_eq. congruence.
    + exists t. by rewrite lookup_insert_ne.
  - rewrite lookup_insert_Some in Ht. destruct Ht as [[-> ->]|[_ Ht]]; [|eauto].
    exists s. split; [done|]. congruence.
Qed.

(** Linking a new state. *)
Lemma links_add key h m a s :
  h !! a = None -> links key h m -> links key (<[a := s]> h) (add_tail (key (st_ctx s)) a m).
Proof.
  intros Ha [Hnd Hl]. assert (forall k, a ∉ list_at k m) as Hn.
  { intros k Hin. apply Hl in Hin as (t & Ht & _). congruence. }
  split.
  - intros k. unfold add_tail. rewrite list_at_insert. case_decide; [|done]. subst.
    apply NoDup_app. split; [done|]. split; [|apply NoDup_singleton].
    intros b Hb ->%list_elem_of_singleton. by apply (Hn _ Hb).
  - intros k b. unfold add_tail. rewrite list_at_insert. setoid_rewrite lookup_insert_Some.
    destruct (decide (key (st_ctx s) = k)) as [<-|Hk]; rewrite ?elem_of_app, ?list_elem_of_singleton, Hl.
    + split; [intros [(t & Ht & ?)| ->]; [|by exists s; auto]|].
      * exists t. split; [right; split; [congruence|done]|done].
      * intros (t & [[-> <-]|[_ Ht]] & ?); [by right|]. left. eauto.
    + split; [intros (t & Ht & ?); exists t; split; [right; split; [congruence|done]|done]|].
      intros (t & [[-> <-]|[_ Ht]] & ?); [done|]. eauto.
Qed.

(** Unlinking a state that goes away. *)
Lemma links_del key h m a s :
  h !! a = Some s -> links key h m -> links key (delete a h) (del_from (key (st_ctx s)) a m).
Proof.
  intros Ha [Hnd Hl]. split.
  - intros k. unfold del_from. rewrite list_at_insert. case_decide; [|done]. by apply NoDup_remove_id.
  - intros k b. unfold del_from. rewrite list_at_insert. setoid_rewrite lookup_delete_Some.
    destruct (decide (key (st_ctx s) = k)) as [<-|Hk].
    + rewrite elem_of_remove_id, Hl. naive_solver.
    + rewrite Hl. split; [intros (t & Ht & ?)|naive_solver].
      exists t. split; [split; [|done]|done]. intros ->. congruence.
Qed.

(** ** The counts *)

(** The modes of the protocol, and for UNSHARE the value for all of them. *)
Definition mode_ok (unshare : bool) (v : Z) : Prop := 0 <= v <= 3 \/ unshare = true /\ v = 4.

Lemma counts_ok_inv l : counts_ok l -> exists c0 c1 c2 c3, l = [c0; c1; c2; c3] /\
  0 <= c0 <= UINT32_MAX /\ 0 <= c1 <= UINT32_MAX /\ 0 <= c2 <= UINT32_MAX /\ 0 <= c3 <= UINT32_MAX.
Proof.
  intros [Hlen Hall]. destruct l as [|c0 [|c1 [|c2 [|c3 [|]]]]]; try done.
  rewrite !Forall_cons in Hall. exists c0, c1, c2, c3. naive_solver.
Qed.

Lemma counts_ok_insert i c l : counts_ok l -> 0 <= c <= UINT32_MAX -> counts_ok (<[i := c]> l).
Proof. intros [Hlen Hall] Hc. split; [by rewrite length_insert|]. by apply Forall_insert. Qed.

Lemma count_at_ok v l : counts_ok l -> 0 <= v <= 3 -> exists c, count_at v l = Some c /\ 0 <= c <= UINT32_MAX.
Proof.
  intros [Hlen Hall] Hv. unfold count_at. destruct (Z.ltb_spec v 0); [lia|].
  destruct (lookup_lt_is_Some_2 l (Z.to_nat v)) as [c Hc]; [lia|]. exists c. split; [done|].
  exact (Forall_lookup_1 _ _ _ _ Hall Hc).
Qed.

Lemma share_counts_ok v l : counts_ok l -> 0 <= v <= 3 -> exists l', share_counts v l = Some l' /\ counts_ok l'.
Proof.
  intros Hl Hv. destruct (count_at_ok v l Hl Hv) as (c & Hc & _). unfold share_counts. rewrite Hc.
  eexists. split; [done|]. apply counts_ok_insert; [done|]. apply u32_range.
Qed.

Lemma unshare_counts_ok v l : counts_ok l -> 0 <= v <= 3 \/ v = 4 ->
  exists l', unshare_counts v 4 l = Some l' /\ counts_ok l'.
Proof.
  intros Hl Hv. unfold unshare_counts. destruct (Z.eqb_spec v 4) as [->|Hne].
  { eexists. split; [done|]. split; [done|]. repeat constructor; unfold UINT32_MAX; lia. }
  destruct (count_at_ok v l Hl ltac:(lia)) as (c & Hc & Hr). rewrite Hc. cbn [mbind option_bind].
  eexists. split; [done|]. destruct (Z.ltb_spec 0 c); [|done]. apply counts_ok_insert; [done|lia].
Qed.

(** A share with access leaves a union with access. *)
Lemma share_counts_union v l l' :
  counts_ok l -> 1 <= v <= 3 -> Forall (fun c => c < UINT32_MAX) l ->
  share_counts v l = Some l' -> Z.land (union_of l') v = v /\ union_of l' <> 0.
Proof.
  intros (c0 & c1 & c2 & c3 & -> & ? & ? & ? & ?)%counts_ok_inv Hv Hlt.
  rewrite !Forall_cons in Hlt. destruct Hlt as (? & ? & ? & ? & _).
  assert (forall c, 0 <= c < UINT32_MAX -> (u32 (c + 1) =? 0) = false) as Hz.
  { intros c Hc. rewrite u32_small by lia. apply Z.eqb_neq. lia. }
  assert (v = 1 \/ v = 2 \/ v = 3) as Hv3 by lia. unfold share_counts, count_at, union_of.
  destruct Hv3 as [Hv3|[Hv3|Hv3]]; subst v; cbn -[wrapu]; intros [= <-]; cbn -[wrapu Z.lor has];
    rewrite Hz by lia;
    destruct (c0 =? 0), (c1 =? 0), (c2 =? 0), (c3 =? 0); vm_compute; split; congruence.
Qed.

Lemma share_counts_covers v l l' :
  counts_ok l -> 0 <= v <= 3 -> Forall (fun c => c < UINT32_MAX) l ->
  share_counts v l = Some l' -> Z.land (union_of l') v = v.
Proof.
  intros. destruct (decide (v = 0)) as [->|]; [apply Z.land_0_r|].
  by apply (share_counts_union v l); [|lia| |].
Qed.

(** Room for one more request of each mode. *)
Definition below_max (sh : state_nlm_share_t) : Prop :=
  Forall (fun c => c < UINT32_MAX) (share_access_counts sh) /\
  Forall (fun c => c < UINT32_MAX) (share_deny_counts sh).

(** A share holds at least the modes of a request. *)
Definition covers (sh : state_nlm_share_t) (access deny : Z) : Prop :=
  Z.land (share_access sh) access = access /\ Z.land (share_deny sh) deny = deny.

Lemma unshare_fresh v l' : mode_ok true v -> unshare_counts v 4 [0; 0; 0; 0] = Some l' -> union_of l' = 0.
Proof.
  intros Hv. assert (v = 0 \/ v = 1 \/ v = 2 \/ v = 3 \/ v = 4) as Hc by (unfold mode_ok in Hv; lia).
  destruct Hc as [Hc|[Hc|[Hc|[Hc|Hc]]]]; subst v; by intros [= <-].
Qed.

(** ** What [state_nlm_share] does *)
Section run.
Context (test_access reopen2 : Z -> fsal_errors_t).

Lemma wp_get_state a s (Q : nlm_state_t -> share_world -> Prop) w :
  ns_heap w !! a = Some s -> Q s w -> wp (get_state a) Q w.
Proof. intros Ha HQ. unfold wp, get_state. by rewrite Ha. Qed.

(** The world with the share of [a] replaced. *)
Definition with_share (a : positive) (s : nlm_state_t) (sh : state_nlm_share_t) (w : share_world) :
    share_world :=
  set_heap <[a := {| st_ctx := st_ctx s; st_refcount := st_refcount s; st_share := sh |}]> w.

Lemma set_heap_twice a x y w : set_heap <[a := x]> (set_heap <[a := y]> w) = set_heap <[a := x]> w.
Proof. unfold set_heap. cbn. by rewrite insert_insert_eq. Qed.

Lemma wp_put_share a s sh (Q : unit -> share_world -> Prop) w :
  ns_heap w !! a = Some s -> Q tt (with_share a s sh w) -> wp (put_share a sh) Q w.
Proof. intros Ha HQ. unfold put_share. apply wp_bind. by apply (wp_get_state _ s). Qed.

Lemma wp_state_nlm_share access deny a s reclaim unshare (Q : state_status_t -> share_world -> Prop) w :
  ns_heap w !! a = Some s -> share_ok (st_share s) -> mode_ok unshare access -> mode_ok unshare deny ->
  (unshare = false -> 1 <= access /\ below_max (st_share s)) ->
  (unshare = true -> 1 < st_refcount s /\ share_access (st_share s) <> 0) ->
  (forall st sh, share_ok sh -> (share_access sh = share_access (st_share s) \/
      share_access sh <> 0 /\ share_access (st_share s) <> 0) ->
     (unshare = true -> access <> 4) -> (unshare = false -> st = STATE_SUCCESS -> covers sh access deny) ->
     (st <> STATE_SUCCESS -> share_access sh = share_access (st_share s) /\
        share_deny sh = share_deny (st_share s)) -> Q st (with_share a s sh w)) ->
  (forall sh, unshare = true ->
     Q STATE_SUCCESS (set_links (st_ctx s) (fun k => del_from k a) (-1)
       (set_heap <[a := {| st_ctx := st_ctx s; st_refcount := st_refcount s - 1; st_share := sh |}]> w))) ->
  (forall sh, unshare = false -> share_access (st_share s) = 0 -> share_ok sh -> share_access sh <> 0 ->
     covers sh access deny -> Q STATE_SUCCESS (set_links (st_ctx s) (fun k => add_tail k a) 1
       (set_heap <[a := {| st_ctx := st_ctx s; st_refcount := st_refcount s + 1; st_share := sh |}]> w))) ->
  wp (state_nlm_share test_access reopen2 access deny a reclaim unshare) Q w.
Proof.
  intros Ha [Hac Hdc] Hma Hmd Hsh Hun Hkeep Hrem Hlink. unfold state_nlm_share.
  apply wp_bind, (wp_get_state _ s); [done|]. cbv zeta. set (sh := st_share s) in *.
  assert (exists ac, (if unshare then unshare_counts access OPEN4_SHARE_ACCESS_ALL (share_access_counts sh)
    else share_counts access (share_access_counts sh)) = Some ac /\ counts_ok ac) as (ac & Hac' & Hok).
  { unfold mode_ok in Hma. destruct unshare; [apply unshare_counts_ok; naive_solver|].
    apply share_counts_ok; [done|]. naive_solver. }
  assert (exists dc, (if unshare then unshare_counts deny OPEN4_SHARE_DENY_ALL (share_deny_counts sh)
    else share_counts deny (share_deny_counts sh)) = Some dc /\ counts_ok dc) as (dc & Hdc' & Hokd).
  { unfold mode_ok in Hmd. destruct unshare; [apply unshare_counts_ok; naive_solver|].
    apply share_counts_ok; [done|]. naive_solver. }
  apply wp_bind, (wp_deref _ ac); [done|]. apply wp_bind, (wp_deref _ dc); [done|].
  apply wp_bind, (wp_put_share _ s); [done|]. set (sh1 := {| share_access := share_access sh |}).
  set (w1 := with_share a s sh1 w).
  assert (share_ok sh1) as Hsh1 by by split.
  assert (unshare = true -> access = 4 -> union_of ac = 0) as Hall.
  { intros -> ->. cbn in Hac'. by injection Hac' as <-. }
  assert (unshare = false -> Z.land (union_of ac) access = access /\ Z.land (union_of dc) deny = deny) as Hcov.
  { intros ->. destruct (Hsh eq_refl) as (? & ? & ?). unfold mode_ok in Hma, Hmd. split.
    - apply (share_counts_covers access (share_access_counts sh)); [done|naive_solver lia|done|done].
    - apply (share_counts_covers deny (share_deny_counts sh)); [done|naive_solver lia|done|done]. }
  destruct ((union_of ac =? share_access sh) && (union_of dc =? share_deny sh)) eqn:Hsame;
    [apply wp_ret, Hkeep; auto|].
  2:{ apply andb_true_iff in Hsame as [He%Z.eqb_eq Hf%Z.eqb_eq]. intros Hu _. destruct (Hcov Hu).
      split; cbn; congruence. }
  { intros Hu H4. destruct (Hun Hu) as [_ Hnz]. rewrite (Hall Hu H4) in Hsame.
    apply andb_true_iff in Hsame as [He%Z.eqb_eq _]. done. }
  destruct (negb (has (union_of ac) fsa_R) && negb (has (union_of ac) fsa_W) && unshare) eqn:Hlast.
  { apply andb_true_iff in Hlast as [_ Hu]. destruct (Hun Hu) as [Href _].
    apply wp_bind. unfold remove_nlm_share.
    assert (ns_heap w1 !! a = Some {| st_ctx := st_ctx s; st_refcount := st_refcount s; st_share := sh1 |})
      as Ha1 by (unfold w1, with_share; cbn; apply lookup_insert_eq).
    apply wp_bind. eapply wp_get_state; [exact Ha1|]. apply wp_bind, wp_modify. unfold dec_state_t_ref.
    apply wp_bind. eapply wp_get_state; [exact Ha1|]. cbn [st_refcount st_ctx st_share].
    destruct (Z.ltb_spec (st_refcount s - 1) 0); [lia|]. destruct (Z.ltb_spec 0 (st_refcount s - 1)); [|lia].
    apply wp_modify, wp_ret.
    match goal with |- Q _ ?w' => assert (w' = set_links (st_ctx s) (fun k => del_from k a) (-1)
       (set_heap <[a := {| st_ctx := st_ctx s; st_refcount := st_refcount s - 1; st_share := sh1 |}]> w)) as -> end.
    { unfold w1, with_share, set_links, set_heap. cbn. by rewrite insert_insert_eq. }
    by apply Hrem. }
  assert (unshare = true -> access <> 4) as Hne4.
  { intros Hu H4. rewrite (Hall Hu H4), Hu in Hlast. done. }
  cbv zeta. case_decide; [apply wp_ret, Hkeep; auto; by intros _ ?%state_error_convert_success|].
  case_decide; [apply wp_ret, Hkeep; auto; by intros _ ?%state_error_convert_success|].
  assert (union_of ac <> 0) as Hnz.
  { destruct unshare.
    - intros Hz. rewrite Hz in Hlast. done.
    - destruct (Hsh eq_refl) as (H1 & Hlt & _). unfold mode_ok in Hma.
      apply (share_counts_union access (share_access_counts sh)); [done|naive_solver lia|done|done]. }
  case_decide as Hold; apply wp_bind.
  - apply wp_ret. eapply wp_bind, wp_put_share; [unfold w1, with_share; cbn; apply lookup_insert_eq|].
    apply wp_ret. unfold with_share, w1, with_share. rewrite set_heap_twice. apply Hkeep; [by split|by right|done|by intros ? _; apply Hcov|done].
  - unfold inc_state_t_ref. apply wp_bind, wp_bind.
    eapply wp_get_state; [unfold w1, with_share; cbn; apply lookup_insert_eq|]. apply wp_modify, wp_modify.
    eapply wp_bind, wp_put_share; [cbn; apply lookup_insert_eq|]. apply wp_ret. unfold w1, with_share.
    cbn [st_ctx st_refcount st_share].
    match goal with |- Q _ ?w' => assert (w' = set_links (st_ctx s) (fun k => add_tail k a) 1
       (set_heap <[a := {| st_ctx := st_ctx s; st_refcount := st_refcount s + 1;
          st_share := {| share_access := union_of ac; share_deny := union_of dc;
                         share_access_counts := ac; share_deny_counts := dc |} |}]> w)) as -> end.
    { unfold set_links, set_heap. cbn. by rewrite !insert_insert_eq. }
    destruct unshare; [destruct (Hun eq_refl); tauto|]. apply Hlink; [done|tauto|by split|done|by apply Hcov].
Qed.
End run.

Lemma wp_dec_state_t_ref a s (Q : unit -> share_world -> Prop) w :
  ns_heap w !! a = Some s -> 1 <= st_refcount s ->
  (1 < st_refcount s -> Q tt (set_heap <[a := {| st_ctx := st_ctx s; st_refcount := st_refcount s - 1;
                                                 st_share := st_share s |}]> w)) ->
  (st_refcount s = 1 -> Q tt (set_heap (delete a) w)) ->
  wp (dec_state_t_ref a) Q w.
Proof.
  intros Ha Hr Hmany Hlast. unfold dec_state_t_ref. apply wp_bind, (wp_get_state _ s); [done|]. cbv zeta.
  destruct (Z.ltb_spec (st_refcount s - 1) 0); [lia|].
  destruct (Z.ltb_spec 0 (st_refcount s - 1)); apply wp_modify; [apply Hmany|apply Hlast]; lia.
Qed.

Lemma wp_inc_state_t_ref a s (Q : unit -> share_world -> Prop) w :
  ns_heap w !! a = Some s ->
  Q tt (set_heap <[a := {| st_ctx := st_ctx s; st_refcount := st_refcount s + 1;
                           st_share := st_share s |}]> w) ->
  wp (inc_state_t_ref a) Q w.
Proof. intros Ha HQ. unfold inc_state_t_ref. apply wp_bind, (wp_get_state _ s); [done|]. by apply wp_modify. Qed.

(** ** The table of the states *)

Lemma compare_nlm_state_eq c d : compare_nlm_state c d = false <->
  sc_owner c = sc_owner d /\ sc_export c = sc_export d /\ sc_obj c = sc_obj d.
Proof.
  unfold compare_nlm_state. rewrite !orb_false_iff, !bool_decide_eq_false.
  split; [intros [[? ?] ?]; repeat split; by apply dec_stable|tauto].
Qed.

Lemma find_nlm_state_Some c w a : find_nlm_state c w = Some a ->
  exists s, ns_heap w !! a = Some s /\ compare_nlm_state (st_ctx s) c = false.
Proof.
  unfold find_nlm_state. intros Hh.
  assert (a ∈ fst <$> filter (fun p => compare_nlm_state (st_ctx p.2) c = false) (map_to_list (ns_heap w)))
    as Hin by (destruct (fst <$> _); [done|simplify_eq/=; by left]).
  apply list_elem_of_fmap in Hin as ([b s] & -> & Hin). apply list_elem_of_filter in Hin as [Hc Hin].
  apply elem_of_map_to_list in Hin. eauto.
Qed.

Lemma find_nlm_state_None c w a s : find_nlm_state c w = None -> ns_heap w !! a = Some s ->
  compare_nlm_state (st_ctx s) c <> false.
Proof.
  unfold find_nlm_state. intros Hh Ha Hc.
  assert (a ∈ fst <$> filter (fun p => compare_nlm_state (st_ctx p.2) c = false) (map_to_list (ns_heap w)))
    as Hin.
  { apply list_elem_of_fmap. exists (a, s). split; [done|]. apply list_elem_of_filter.
    split; [done|]. by apply elem_of_map_to_list. }
  destruct (fst <$> _); [by apply elem_of_nil in Hin|done].
Qed.

(** The invariant under the three changes a request makes. *)
Lemma share_inv_update w a s s' :
  share_inv w -> ns_heap w !! a = Some s -> st_ctx s' = st_ctx s -> st_refcount s' = 1 ->
  share_access (st_share s') <> 0 -> share_ok (st_share s') -> share_inv (set_heap <[a := s']> w).
Proof.
  intros [] Ha Hc Hr Hacc Hok. constructor; cbn; try (by eapply links_update).
  - intros b t [[<- <-]|[_ Hb]]%lookup_insert_Some; eauto.
  - intros b c t u [[<- <-]|[_ Hb]]%lookup_insert_Some [[<- <-]|[_ Hb']]%lookup_insert_Some;
      rewrite ?Hc; eauto.
Qed.

Lemma share_inv_add w a s :
  share_inv w -> ns_heap w !! a = None -> find_nlm_state (st_ctx s) w = None -> st_refcount s = 1 ->
  share_access (st_share s) <> 0 -> share_ok (st_share s) ->
  share_inv (set_links (st_ctx s) (fun k => add_tail k a) 1 (set_heap <[a := s]> w)).
Proof.
  intros [] Ha Hn Hr Hacc Hok. constructor; cbn; try (by apply links_add).
  - intros b t [[<- <-]|[_ Hb]]%lookup_insert_Some; eauto.
  - intros b c t u [[<- <-]|[_ Hb]]%lookup_insert_Some [[<- <-]|[_ Hb']]%lookup_insert_Some Hcmp; eauto.
    + destruct (find_nlm_state_None _ _ _ _ Hn Hb'). revert Hcmp. rewrite !compare_nlm_state_eq. naive_solver.
    + by destruct (find_nlm_state_None _ _ _ _ Hn Hb).
Qed.

Lemma share_inv_del w a s :
  share_inv w -> ns_heap w !! a = Some s ->
  share_inv (set_links (st_ctx s) (fun k => del_from k a) (-1) (set_heap (delete a) w)).
Proof.
  intros [] Ha. constructor; cbn; try (by apply links_del).
  - intros b t [_ Hb]%lookup_delete_Some. eauto.
  - intros b c t u [_ Hb]%lookup_delete_Some [_ Hb']%lookup_delete_Some. eauto.
Qed.

(** What the owners hold: the modes of each share. *)
Definition held (w : share_world) : gmap positive (share_ctx * Z * Z) :=
  (fun s => (st_ctx s, share_access (st_share s), share_deny (st_share s))) <$> ns_heap w.

Lemma held_update w a s s' :
  ns_heap w !! a = Some s -> st_ctx s' = st_ctx s ->
  share_access (st_share s') = share_access (st_share s) /\ share_deny (st_share s') = share_deny (st_share s) ->
  held (set_heap <[a := s']> w) = held w.
Proof.
  intros Ha Hc [He Hd]. apply map_eq. intros b. unfold held. cbn. rewrite !lookup_fmap, lookup_insert.
  case_decide; [|done]. subst b. rewrite Ha. cbn. by rewrite Hc, He, Hd.
Qed.

(** The result of a SHARE for the key [c]. *)
Definition share_done (c : share_ctx) (access deny : Z) (w : share_world) (st : nlm4_stats)
    (w' : share_world) : Prop :=
  share_inv w' /\
  (st = NLM4_GRANTED -> exists a s, ns_heap w' !! a = Some s /\
     compare_nlm_state (st_ctx s) c = false /\ covers (st_share s) access deny) /\
  (st <> NLM4_GRANTED -> held w' = held w).

Lemma share_result_granted st : share_result st = NLM4_GRANTED <-> st = STATE_SUCCESS.
Proof. by destruct st. Qed.

Section requests.
Context (test_access reopen2 : Z -> fsal_errors_t).

(** A SHARE of an owner that holds a share of the file. *)
Lemma wp_share_found c a s access deny reclaim w :
  share_inv w -> 1 <= access <= 3 -> 0 <= deny <= 3 -> ns_heap w !! a = Some s -> below_max (st_share s) ->
  compare_nlm_state (st_ctx s) c = false ->
  wp (inc_state_t_ref a;;
      status ← state_nlm_share test_access reopen2 access deny a reclaim false;
      dec_state_t_ref a;; mret (share_result status)) (share_done c access deny w) w.
Proof.
  intros Hinv Hacc Hden Ha Hlt Hcmp. destruct (si_state _ Hinv _ _ Ha) as (Hr & Hnz & Hok).
  apply wp_bind, (wp_inc_state_t_ref a s); [done|].
  apply wp_bind. eapply wp_state_nlm_share;
    [cbn; apply lookup_insert_eq|done|left; lia|by left|intros _; exact (conj (proj1 Hacc) Hlt)|done| |done|done].
  intros st sh Hsh Hor _ Hcov Hkeep. unfold with_share. rewrite set_heap_twice.
  apply wp_bind. eapply wp_dec_state_t_ref; [cbn; apply lookup_insert_eq|cbn; lia| |cbn; lia].
  intros _. apply wp_ret. rewrite set_heap_twice. cbn. unfold share_done. rewrite share_result_granted.
  split; [eapply share_inv_update; try done; cbn; [lia|]; destruct Hor as [-> |[? ?]]; done|]. split.
  - intros Hst. eexists a, _. cbn. rewrite lookup_insert_eq. split; [done|]. split; [done|]. by apply Hcov.
  - intros Hst. eapply held_update; [done..|by apply Hkeep].
Qed.

(** A SHARE of an owner that holds none, for the new state [a]. *)
Lemma wp_share_new c a access deny reclaim w :
  share_inv w -> 1 <= access <= 3 -> 0 <= deny <= 3 -> ns_heap w !! a = None -> find_nlm_state c w = None ->
  wp (status ← state_nlm_share test_access reopen2 access deny a reclaim false;
      dec_state_t_ref a;; mret (share_result status)) (share_done c access deny w)
     (set_heap <[a := {| st_ctx := c; st_refcount := 1; st_share := fresh_share |}]> w).
Proof.
  intros Hinv Hacc Hden Ha Hn. apply wp_bind. set (s := {| st_ctx := c; st_refcount := 1; st_share := fresh_share |}).
  assert (counts_ok [0; 0; 0; 0]) as Hz.
  { split; [done|]. repeat constructor; unfold UINT32_MAX; lia. }
  eapply (wp_state_nlm_share _ _ _ _ _ s); [cbn; apply lookup_insert_eq|done|left; lia|by left| |done| |done|].
  - intros _. split; [lia|]. split; repeat constructor.
  - intros st sh Hsh [Hs|[_ Hs]] _ Hcov _; [|done]. unfold with_share. rewrite set_heap_twice. apply wp_bind.
    eapply wp_dec_state_t_ref; [cbn; apply lookup_insert_eq|cbn; lia|cbn; lia|]. intros _. apply wp_ret.
    replace (set_heap (delete a) _) with w.
    2:{ unfold set_heap. cbn. rewrite delete_insert_id by done. by destruct w. }
    unfold share_done. rewrite share_result_granted.
    split; [done|]. split; [|done]. intros Hst. destruct (Hcov eq_refl Hst) as [H1 _]. rewrite Hs in H1.
    change (0 = access) in H1. lia.
  - intros sh _ _ Hsh Hnz Hcov. rewrite set_heap_twice. apply wp_bind.
    eapply wp_dec_state_t_ref; [cbn; apply lookup_insert_eq|cbn; lia| |cbn; lia]. intros _. apply wp_ret.
    match goal with |- share_done _ _ _ _ _ ?w' => assert (w' = set_links (st_ctx s) (fun k => add_tail k a) 1
      (set_heap <[a := {| st_ctx := c; st_refcount := 1; st_share := sh |}]> w)) as -> end.
    { unfold set_heap, set_links. cbn. by rewrite insert_insert_eq. }
    split; [by apply (share_inv_add w a {| st_ctx := c; st_refcount := 1; st_share := sh |})|].
    split; [|done]. intros _. eexists a, _. cbn. rewrite lookup_insert_eq. split; [done|]. split; [|done].
    by apply compare_nlm_state_eq.
Qed.

(** The key of the share a request is about. *)
Definition request_key (r : share_request) (c : share_ctx) : Prop :=
  sr_owner r = Some (sc_owner c) /\ sr_nsm_client r = Some (sc_nsm c) /\
  sr_obj r = Some (sc_obj c, true) /\ sr_ctx_export r = Some (sc_export c).

Lemma wp_nlm4_Share r access deny reclaim w :
  share_inv w -> 1 <= access <= 3 -> 0 <= deny <= 3 ->
  (forall a s, ns_heap w !! a = Some s -> below_max (st_share s)) ->
  wp (nlm4_Share test_access reopen2 r access deny reclaim) (fun st w' =>
    (exists c, request_key r c /\ share_done c access deny w st w') \/ st <> NLM4_GRANTED /\ w' = w) w.
Proof.
  intros Hinv Hacc Hden Hlt. unfold nlm4_Share, nlm_process_share_parms.
  destruct (sr_disable_NLM_SHARE r); [by apply wp_ret; right|].
  destruct (sr_ctx_export r) as [export|] eqn:Hexp; [|by apply wp_ret; right].
  destruct (negb _ && _); [by apply wp_ret; right|]. apply wp_bind.
  destruct (sr_obj r) as [[obj []]|] eqn:Hobj; [|by apply wp_ret, wp_ret; right..].
  destruct (sr_nsm_client r) as [nsm|] eqn:Hnsm; [|by apply wp_ret, wp_ret; right].
  destruct (sr_nlm_client r); [|by apply wp_ret, wp_ret; right].
  destruct (sr_owner r) as [owner|] eqn:Howner; [|by apply wp_ret, wp_ret; right].
  set (c := {| sc_owner := owner |}). apply wp_bind. unfold get_nlm_state. apply wp_bind, wp_gets.
  assert (request_key r c) as Hkey by (repeat split; done).
  destruct (find_nlm_state c w) as [a|] eqn:Hf.
  - destruct (find_nlm_state_Some _ _ _ Hf) as (s & Ha & Hc).
    pose proof (wp_share_found c a s access deny reclaim w Hinv Hacc Hden Ha (Hlt a s Ha) Hc) as Hwp.
    apply wp_bind_inv in Hwp. apply wp_bind. eapply wp_mono; [exact Hwp|]. cbv beta. intros [] w1 Hwp1.
    apply wp_ret, wp_ret. eapply wp_mono; [exact Hwp1|]. cbv beta. eauto.
  - apply wp_bind, wp_gets, wp_bind, wp_modify, wp_ret, wp_ret.
    eapply wp_mono; [apply (wp_share_new c); try done|cbv beta; eauto].
    apply not_elem_of_dom, is_fresh.
Qed.

(** An UNSHARE of an existing share either keeps it, or removes it for good. *)
Lemma wp_unshare a s access deny (Q : state_status_t -> share_world -> Prop) w :
  share_inv w -> ns_heap w !! a = Some s -> mode_ok true access -> mode_ok true deny ->
  (forall st s', access <> 4 -> share_inv (set_heap <[a := s']> w) -> st_ctx s' = st_ctx s ->
     Q st (set_heap <[a := s']> w)) ->
  Q STATE_SUCCESS (set_links (st_ctx s) (fun k => del_from k a) (-1) (set_heap (delete a) w)) ->
  wp (inc_state_t_ref a;;
      status ← state_nlm_share test_access reopen2 access deny a false true;
      dec_state_t_ref a;;
      mret status) Q w.
Proof.
  intros Hinv Ha Hma Hmd Hkeep Hdel. destruct (si_state _ Hinv _ _ Ha) as (Hr & Hnz & Hok).
  apply wp_bind, (wp_inc_state_t_ref a s); [done|]. apply wp_bind.
  eapply wp_state_nlm_share; [cbn; apply lookup_insert_eq|done|done|done|done|cbn; split; [lia|done]| | |done].
  - intros st sh Hsh Hor Hne _ _. unfold with_share. rewrite set_heap_twice. apply wp_bind.
    eapply wp_dec_state_t_ref; [cbn; apply lookup_insert_eq|cbn; lia| |cbn; lia]. intros _. apply wp_ret.
    rewrite set_heap_twice. cbn. apply Hkeep; [auto| |done].
    eapply share_inv_update; try done; cbn; [lia|]. destruct Hor as [-> |[? ?]]; done.
  - intros sh _. rewrite set_heap_twice. apply wp_bind.
    eapply wp_dec_state_t_ref; [cbn; apply lookup_insert_eq|cbn; lia|cbn; lia|]. intros _. apply wp_ret.
    match goal with |- Q _ ?w' => assert (w' = set_links (st_ctx s) (fun k => del_from k a) (-1)
      (set_heap (delete a) w)) as -> end; [|done].
    unfold set_heap, set_links. cbn. by rewrite delete_insert_eq.
Qed.

Lemma wp_nlm4_Unshare r access deny w :
  share_inv w -> mode_ok true access -> mode_ok true deny ->
  wp (nlm4_Unshare test_access reopen2 r access deny) (fun _ w' => share_inv w') w.
Proof.
  intros Hinv Hma Hmd. unfold nlm4_Unshare, nlm_process_share_parms.
  destruct (sr_disable_NLM_SHARE r); [by apply wp_ret|].
  destruct (sr_ctx_export r) as [export|]; [|by apply wp_ret]. apply wp_bind.
  destruct (sr_obj r) as [[obj []]|]; [|by apply wp_ret, wp_ret..].
  destruct (sr_nsm_client r) as [nsm|]; [|by apply wp_ret, wp_ret].
  destruct (sr_nlm_client r); [|by apply wp_ret, wp_ret].
  destruct (sr_owner r) as [owner|]; [|by apply wp_ret, wp_ret].
  set (c := {| sc_owner := owner |}). apply wp_bind. unfold get_nlm_state. apply wp_bind, wp_gets.
  destruct (find_nlm_state c w) as [a|] eqn:Hf; [|by apply wp_ret, wp_ret, wp_ret].
  destruct (find_nlm_state_Some _ _ _ Hf) as (s & Ha & Hc).
  pose proof (wp_unshare a s access deny (fun _ w' => share_inv w') w Hinv Ha Hma Hmd
    ltac:(auto) (share_inv_del w a s Hinv Ha)) as Hwp.
  apply wp_bind_inv in Hwp. apply wp_bind. eapply wp_mono; [exact Hwp|]. cbv beta. clear Hwp. intros [] w1 Hwp.
  apply wp_ret, wp_ret. apply wp_bind_inv in Hwp. apply wp_bind. eapply wp_mono; [exact Hwp|]. cbv beta.
  clear Hwp. intros st w2 Hwp. apply wp_bind_inv in Hwp. apply wp_bind. eapply wp_mono; [exact Hwp|].
  cbv beta. intros [] w3 Hw3. by apply wp_ret.
Qed.

(** One round of [state_export_unshare_all]. *)
Lemma wp_unshare_first stale export w :
  share_inv w ->
  wp (unshare_first test_access reopen2 stale export) (fun r w' => share_inv w' /\
    match list_at export (ns_export w) with
    | [] => r = None /\ w' = w
    | a :: l => if stale a then r = None /\ w' = w else r = Some STATE_SUCCESS /\ list_at export (ns_export w') = l
    end) w.
Proof.
  intros Hinv. unfold unshare_first. apply wp_bind, wp_gets.
  destruct (list_at export (ns_export w)) as [|a l] eqn:Hl; [by apply wp_ret|]. destruct (stale a) eqn:Hst; [by apply wp_ret|].
  destruct (si_export _ Hinv) as [Hnd Hin].
  assert (a ∈ list_at export (ns_export w)) as Hain by (rewrite Hl; by left).
  apply Hin in Hain as (s & Ha & Hk).
  assert (wp (inc_state_t_ref a;;
      status ← state_nlm_share test_access reopen2 4 4 a false true;
      dec_state_t_ref a;; mret status) (fun st w' => share_inv w' /\ st = STATE_SUCCESS /\
        list_at export (ns_export w') = l) w) as Hone.
  { apply (wp_unshare a s); [done|done|by right|by right|done|].
    split; [by apply share_inv_del|]. split; [done|]. cbn. unfold del_from. rewrite Hk, list_at_insert.
    rewrite decide_True, Hl by done. specialize (Hnd export). rewrite Hl in Hnd.
    apply (remove_id_split a [] l Hnd). }
  apply wp_bind_inv in Hone. apply wp_bind. eapply wp_mono; [exact Hone|]. cbv beta. clear Hone.
  intros [] w1 Hone. apply wp_bind_inv in Hone. apply wp_bind. eapply wp_mono; [exact Hone|]. cbv beta.
  intros st w2 Hst2. apply wp_bind_inv in Hst2. apply wp_bind. eapply wp_mono; [exact Hst2|]. cbv beta.
  intros [] w3 (? & -> & ?). by apply wp_ret.
Qed.

End requests.

(** ** Guarantees *)
Section claims.
Context (test_access reopen2 : Z -> fsal_errors_t).

(** C22: NLM share requests with the modes of the protocol: an access of 1 to 3 (not NONE) and a deny of 0 to 3, on shares whose
    counts are below the greatest number they can hold.  Whatever the FSAL and the lookups of the request
    answer, a SHARE has a defined result and keeps the
    invariant: one share per owner, export and file, linked once into the lists of
    its owner, host, file and export, with exactly the reference of those lists.
    When it is granted, the owner's share of the file holds the modes asked for;
    when it is not, the modes every owner holds are unchanged.  An UNSHARE has a
    defined result and keeps the invariant too. *)
Theorem nlm_share_requests_safe w r access deny reclaim :
  share_inv w -> 1 <= access <= 3 -> 0 <= deny <= 3 ->
  (forall a s, ns_heap w !! a = Some s -> below_max (st_share s)) ->
  (exists st w', nlm4_Share test_access reopen2 r access deny reclaim w = Some (st, w') /\ share_inv w' /\
     (st = NLM4_GRANTED -> exists c a s, request_key r c /\ ns_heap w' !! a = Some s /\
        compare_nlm_state (st_ctx s) c = false /\ covers (st_share s) access deny) /\
     (st <> NLM4_GRANTED -> held w' = held w)) /\
  (exists st w', nlm4_Unshare test_access reopen2 r access deny w = Some (st, w') /\ share_inv w').
Proof.
  intros Hinv Ha Hd Hlt. split; apply wp_run.
  - eapply wp_mono; [by apply wp_nlm4_Share|]. cbv beta.
    intros st w' [(c & Hkey & Hi & Hg & Hh)|[Hst ->]]; [|done].
    split; [done|]. split; [|done]. intros Hst. destruct (Hg Hst) as (a & s & ?). eauto.
  - apply wp_nlm4_Unshare; [done|left; lia|by left].
Qed.

(** C23: [state_export_unshare_all] ends after at most one round per share and one, whatever the FSAL answers, and no error is counted.
    It removes the shares in the order of the list of the export up to the first one whose file is stale,
    and leaves that one and those behind it; if no file is stale the list is empty. *)
Theorem state_export_unshare_all_empties stale w export :
  share_inv w ->
  exists w' gone, unshare_loop test_access reopen2 stale export
               (S (length (list_at export (ns_export w)))) 0 w = Some (tt, w') /\
    share_inv w' /\ list_at export (ns_export w) = gone ++ list_at export (ns_export w') /\
    (forall a, a ∈ gone -> stale a = false) /\
    (forall a l, list_at export (ns_export w') = a :: l -> stale a = true).
Proof.
  remember (list_at export (ns_export w)) as l eqn:Hl. revert w Hl.
  induction l as [|a l IH]; intros w Hl Hinv;
    pose proof (wp_unshare_first test_access reopen2 stale export w Hinv) as Hw;
    rewrite <- Hl in Hw; apply wp_run in Hw as (r & w1 & Hrun & Hinv1 & Hr); [|destruct (stale a) eqn:Hst].
  1, 2: destruct Hr as [-> ->]; exists w, []; cbn [length unshare_loop]; rewrite decide_False by done; unfold mbind at 1, M_bind at 1;
    rewrite Hrun, <- Hl; split_and!; [done..|by intros ? ?%elem_of_nil|naive_solver].
  destruct Hr as [-> Hl1]. destruct (IH w1 (eq_sym Hl1) Hinv1) as (w' & gone & Hloop & Hinv' & Hgone & Hns & Hhd).
  exists w', (a :: gone). split_and!; [|done|by rewrite Hgone|by intros b [->|?]%elem_of_cons; auto|done].
  cbn [length unshare_loop]. rewrite decide_False by done. unfold mbind at 1, M_bind at 1. rewrite Hrun.
  cbn [state_unlock_err_ok]. exact Hloop.
Qed.

End claims.

(** ** Concrete histories *)

Definition no_shares : share_world :=
  {| ns_heap := ∅; ns_owner := ∅; ns_client := ∅; ns_client_refs := ∅; ns_file := ∅; ns_export := ∅ |}.
Definition req1 : share_request :=
  {| sr_disable_NLM_SHARE := false; sr_ctx_export := Some 4%positive; sr_grace_method := false;
     sr_grace_status := true; sr_obj := Some (3%positive, true); sr_nsm_client := Some 2%positive;
     sr_nlm_client := Some 5%positive; sr_owner := Some 1%positive |}.
Definition granted_by_fsal (_ : Z) : fsal_errors_t := ERR_FSAL_NO_ERROR.

Lemma no_shares_inv : share_inv no_shares.
Proof.
  assert (forall key, links key (ns_heap no_shares) ∅) as Hl.
  { intros key. split; [intros k; apply NoDup_nil_2|]. intros k a. unfold list_at. rewrite lookup_empty.
    cbn. rewrite elem_of_nil. split; [done|]. intros (s & Hs & _). cbn in Hs. by rewrite lookup_empty in Hs. }
  constructor; try apply Hl.
  - intros a s Ha. cbn in Ha. by rewrite lookup_empty in Ha.
  - intros a b s t Ha. cbn in Ha. by rewrite lookup_empty in Ha.
Qed.

Lemma nlm_share_requests_safe_witness :
  exists st w', nlm4_Share granted_by_fsal granted_by_fsal req1 3 2 false no_shares = Some (st, w')
     /\ share_inv w' /\ st = NLM4_GRANTED.
Proof.
  destruct (nlm_share_requests_safe granted_by_fsal granted_by_fsal no_shares req1 3 2 false) as [(st & w' & Hrun & Hinv & _) _].
  - apply no_shares_inv.
  - lia.
  - lia.
  - intros a s Hs. discriminate Hs.
  - exists st, w'. split; [exact Hrun|]. split; [exact Hinv|]. vm_compute in Hrun. by injection Hrun.
Defined.

(** The share state after one SHARE. *)
Definition one_share : share_world :=
  match nlm4_Share granted_by_fsal granted_by_fsal req1 3 2 false no_shares with
  | Some (_, w) => w
  | None => no_shares
  end.

Lemma one_share_inv : share_inv one_share.
Proof.
  assert (wp (nlm4_Share granted_by_fsal granted_by_fsal req1 3 2 false) (fun _ w => share_inv w) no_shares)
    as Hwp.
  { eapply wp_mono; [apply wp_nlm4_Share; [apply no_shares_inv|lia|lia|done]|].
    cbv beta. intros st w [(c & _ & ? & _)|[_ ->]]; [done|apply no_shares_inv]. }
  apply wp_run in Hwp as (st & w & Hrun & Hinv). unfold one_share. rewrite Hrun. exact Hinv.
Qed.

Lemma state_export_unshare_all_empties_witness :
  list_at 4 (ns_export one_share) = [1%positive] /\
  exists w', unshare_loop granted_by_fsal granted_by_fsal (fun _ => false) 4
               (S (length (list_at 4 (ns_export one_share)))) 0 one_share = Some (tt, w') /\
    share_inv w' /\ list_at 4 (ns_export w') = [].
Proof.
  split; [vm_compute; reflexivity|].
  destruct (state_export_unshare_all_empties granted_by_fsal granted_by_fsal (fun _ => false) one_share 4 one_share_inv) as (w' & gone & Hrun & Hinv & _ & _ & Hhd).
  exists w'. split_and!; [done..|]. destruct (list_at 4 (ns_export w')) as [|a l] eqn:E; [done|]. by discriminate (Hhd a l eq_refl).
Defined.

(** ** Histories that go wrong *)

(** Shares with access NONE are linked, but leave the access at NONE, so that the
    next SHARE links the state a second time. *)
Example share_without_access_linked_twice :
  (p1 ← nlm4_Share granted_by_fsal granted_by_fsal req1 0 1 false no_shares;
   p2 ← nlm4_Share granted_by_fsal granted_by_fsal req1 0 2 false p1.2;
   Some (list_at 3 (ns_file p2.2), st_refcount <$> ns_heap p2.2 !! 1%positive))
  = Some ([1%positive; 1%positive], Some 2).
Proof. vm_compute. reflexivity. Qed.

(** The modes of a request are not checked before they index the counts. *)
Example share_mode_out_of_range :
  nlm4_Share granted_by_fsal granted_by_fsal req1 1000 0 false no_shares = None.
Proof. vm_compute. reflexivity. Qed.

(** A refused upgrade leaves its count behind, so that a later SHARE for reading
    only asks for writing too and is refused again. *)
Definition read_only (openflags : Z) : fsal_errors_t :=
  if has openflags FSAL_O_WRITE then ERR_FSAL_SHARE_DENIED else ERR_FSAL_NO_ERROR.

Example refused_share_is_remembered :
  (p1 ← nlm4_Share granted_by_fsal read_only req1 1 0 false no_shares;
   p2 ← nlm4_Share granted_by_fsal read_only req1 2 0 false p1.2;
   p3 ← nlm4_Share granted_by_fsal read_only req1 1 1 false p2.2;
   Some (p1.1, p2.1, p3.1))
  = Some (NLM4_GRANTED, NLM4_DENIED, NLM4_DENIED).
Proof. vm_compute. reflexivity. Qed.
