(* ===== verification/Grace.v ===== *)
(** * The grace period

    The lock-free status word of [SAL/nfs4_recovery.c]: requests take references
    to the current grace status with a compare-and-swap loop while other threads
    start or lift the grace period.  The threads run interleaved, one atomic
    operation at a time. *)
From S2P Require Import Prelude.
Local Open Scope Z_scope.

(** ** The status word *)

Definition GRACE_STATUS_COUNTER_SHIFT : Z := 2.
Definition GRACE_STATUS_ACTIVE : Z := 1.
Definition GRACE_STATUS_CHANGE_REQ : Z := 2.
Definition GRACE_STATUS_REF_INCREMENT : Z := 4.
Definition GRACE_STATUS_COUNT_MASK : Z := u32 (Z.shiftl (UINT32_MAX) GRACE_STATUS_COUNTER_SHIFT).

Definition grace_bit (status bit : Z) : bool := negb (Z.land status bit =? 0).

(** ** When grace is over

    The list of clients read at the start of the grace period, its counter and
    the number of RECLAIM_COMPLETEs, all under the mutex. *)
Record recov_state : Set := {
  clid_list : list (list Z);
  clid_count : Z;
  reclaim_completes : Z
}.

(** Whether [nfs_try_lift_grace] finds the server still in grace. *)
Definition still_in_grace (enable_NLM : bool) (current_grace grace_period now : Z) (r : recov_state) :
    bool :=
  let in_grace := if negb enable_NLM then negb (reclaim_completes r =? clid_count r) else true in
  if in_grace then now <? current_grace + grace_period else false.

(** What one step reads besides the status word: the configuration, the time
    grace started at, the clock, the clients, and the answer of the recovery
    backend to [try_lift_grace] (true where it has no such operation). *)
Record grace_env : Set := {
  ge_enable_NLM : bool;
  ge_current_grace : Z;
  ge_grace_period : Z;
  ge_now : Z;
  ge_recov : recov_state;
  ge_backend_ok : bool
}.

Definition env_in_grace (e : grace_env) : bool :=
  still_in_grace (ge_enable_NLM e) (ge_current_grace e) (ge_grace_period e) (ge_now e) (ge_recov e).

(** ** The threads

    [pc] is where a thread is between two atomic operations on the word; the
    operands are its local variables. *)
Inductive grace_pc : Set :=
  | Idle
  | Get (want_grace : bool) (old : Z)      (* nfs_get_grace_status, top of the loop *)
  | Holding (want_grace : bool)            (* between nfs_get_ and nfs_put_grace_status *)
  | Start_graceless                        (* nfs_start_grace of a graceless server, mutex held *)
  | Start_read                             (* nfs_start_grace, mutex held *)
  | Start (cur : Z)                        (* its loop *)
  | Lift_wait                              (* nfs_try_lift_grace, about to take the mutex *)
  | Lift_decide                            (* mutex held *)
  | Lift_read                              (* ready to lift *)
  | Lift (cur : Z)                         (* its loop *)
  | Lift_locked                            (* nfs_lift_grace_locked *)
  | Lift_clear                             (* after nfs_end_grace *)
  | Lift_assert_failed.                    (* the assertion on the references failed *)

Record grace_state : Type := {
  gs_status : Z;
  gs_mutex : option positive;              (* the holder of grace_mutex *)
  gs_threads : gmap positive grace_pc
}.

Definition pc_of (t : positive) (s : grace_state) : grace_pc := default Idle (gs_threads s !! t).

Definition set_pc (t : positive) (pc : grace_pc) (s : grace_state) : grace_state :=
  {| gs_status := gs_status s; gs_mutex := gs_mutex s; gs_threads := <[t := pc]> (gs_threads s) |}.
Definition set_status (v : Z) (s : grace_state) : grace_state :=
  {| gs_status := v; gs_mutex := gs_mutex s; gs_threads := gs_threads s |}.
Definition set_mutex (m : option positive) (s : grace_state) : grace_state :=
  {| gs_status := gs_status s; gs_mutex := m; gs_threads := gs_threads s |}.

(** [__sync_val_compare_and_swap] on the status word. *)
Definition compare_and_swap (old new : Z) (s : grace_state) : Z * grace_state :=
  if gs_status s =? old then (gs_status s, set_status new s) else (gs_status s, s).

(** One turn of the loop of [nfs_get_grace_status]. *)
Definition nfs_get_grace_status_step (t : positive) (want_grace : bool) (old : Z) (s : grace_state) :
    grace_state :=
  let cur := old in
  if negb (Bool.eqb want_grace (grace_bit cur GRACE_STATUS_ACTIVE)) then set_pc t Idle s
  else if grace_bit cur GRACE_STATUS_CHANGE_REQ then set_pc t Idle s
  else
    let pro := u32 (cur + GRACE_STATUS_REF_INCREMENT) in
    let '(old, s') := compare_and_swap cur pro s in
    if negb (old =? cur) then set_pc t (Get want_grace old) s' else set_pc t (Holding want_grace) s'.

(** [nfs_put_grace_status]; the flag says that the waiters are notified and the
    reaper woken. *)
Definition nfs_put_grace_status (t : positive) (s : grace_state) : grace_state * bool :=
  let cur := u32 (gs_status s - GRACE_STATUS_REF_INCREMENT) in
  (set_pc t Idle (set_status cur s),
   grace_bit cur GRACE_STATUS_CHANGE_REQ && (Z.shiftr cur GRACE_STATUS_COUNTER_SHIFT =? 0)).

(** The value [nfs_start_grace] wants to store over [old]. *)
Definition start_pro (old : Z) : Z :=
  if grace_bit old GRACE_STATUS_COUNT_MASK then Z.lor old GRACE_STATUS_CHANGE_REQ
  else Z.land (Z.lor old GRACE_STATUS_ACTIVE) (Z.lnot GRACE_STATUS_CHANGE_REQ).

(** The thread leaves the function: the mutex is released. *)
Definition leave (t : positive) (s : grace_state) : grace_state := set_mutex None (set_pc t Idle s).

(** [nfs_start_grace] takes the mutex; a graceless server goes on with
    [nfs_lift_grace_locked]. *)
Definition nfs_start_grace_enter (graceless : bool) (t : positive) (s : grace_state) : grace_state :=
  set_mutex (Some t) (set_pc t (if graceless then Start_graceless else Start_read) s).

(** One turn of the loop of [nfs_start_grace]. *)
Definition nfs_start_grace_step (t : positive) (cur : Z) (s : grace_state) : grace_state :=
  let old := cur in
  if grace_bit cur GRACE_STATUS_ACTIVE then leave t s
  else
    let pro := start_pro old in
    if pro =? old then leave t s
    else
      let '(cur, s') := compare_and_swap old pro s in
      if negb (cur =? old) then set_pc t (Start cur) s' else leave t s'.

(** What [nfs_start_grace] returns for the last [old] of its loop: -EAGAIN, or 0. *)
Definition start_result (old : Z) : Z :=
  if negb (grace_bit old GRACE_STATUS_ACTIVE) && grace_bit old GRACE_STATUS_COUNT_MASK then -11 else 0.

(** [nfs_try_lift_grace] looks at the word without the mutex, then takes it, and
    decides whether grace is over. *)
Definition nfs_try_lift_grace_enter (t : positive) (s : grace_state) : grace_state :=
  if negb (grace_bit (gs_status s) GRACE_STATUS_ACTIVE) then set_pc t Idle s else set_pc t Lift_wait s.
Definition nfs_try_lift_grace_decide (t : positive) (e : grace_env) (s : grace_state) : grace_state :=
  if env_in_grace e then leave t s else set_pc t Lift_read s.

(** The end of [nfs_try_lift_grace] for the last [old] of its loop;
    [backend_ok] is the answer of the recovery backend. *)
Definition try_lift_end (t : positive) (backend_ok : bool) (old : Z) (s : grace_state) : grace_state :=
  if negb (grace_bit old GRACE_STATUS_COUNT_MASK) && backend_ok
  then set_pc t Lift_locked s else leave t s.

(** One turn of the loop of [nfs_try_lift_grace]. *)
Definition nfs_try_lift_grace_step (t : positive) (backend_ok : bool) (cur : Z) (s : grace_state) :
    grace_state :=
  let old := cur in
  if negb (grace_bit cur GRACE_STATUS_ACTIVE) then leave t s
  else
    let pro := Z.lor old GRACE_STATUS_CHANGE_REQ in
    if pro =? old then try_lift_end t backend_ok old s
    else
      let '(cur, s') := compare_and_swap old pro s in
      if negb (cur =? old) then set_pc t (Lift cur) s' else try_lift_end t backend_ok old s'.

(** [nfs_lift_grace_locked]: [nfs_in_grace], and after [nfs_end_grace] the change
    of the status with the assertion that no reference is left. *)
Definition nfs_lift_grace_check (t : positive) (s : grace_state) : grace_state :=
  if grace_bit (gs_status s) GRACE_STATUS_ACTIVE then set_pc t Lift_clear s else leave t s.
Definition nfs_lift_grace_clear (t : positive) (s : grace_state) : grace_state :=
  let cur := Z.land (gs_status s) (Z.lnot (Z.lor GRACE_STATUS_ACTIVE GRACE_STATUS_CHANGE_REQ)) in
  if grace_bit cur GRACE_STATUS_COUNT_MASK then set_pc t Lift_assert_failed (set_status cur s)
  else leave t (set_status cur s).

(** The atomic steps of a thread, with what it reads besides the word. *)
Inductive grace_step (graceless : bool) (e : grace_env) (t : positive) (s : grace_state) :
    grace_state -> Prop :=
  | step_get want : pc_of t s = Idle ->
      grace_step graceless e t s (set_pc t (Get want (gs_status s)) s)
  | step_get_loop want old : pc_of t s = Get want old ->
      grace_step graceless e t s (nfs_get_grace_status_step t want old s)
  | step_put want : pc_of t s = Holding want ->
      grace_step graceless e t s (fst (nfs_put_grace_status t s))
  | step_start : pc_of t s = Idle -> gs_mutex s = None ->
      grace_step graceless e t s (nfs_start_grace_enter graceless t s)
  | step_start_graceless : pc_of t s = Start_graceless ->
      grace_step graceless e t s (nfs_lift_grace_check t s)
  | step_start_read : pc_of t s = Start_read ->
      grace_step graceless e t s (set_pc t (Start (gs_status s)) s)
  | step_start_loop cur : pc_of t s = Start cur ->
      grace_step graceless e t s (nfs_start_grace_step t cur s)
  | step_lift : pc_of t s = Idle ->
      grace_step graceless e t s (nfs_try_lift_grace_enter t s)
  | step_lift_lock : pc_of t s = Lift_wait -> gs_mutex s = None ->
      grace_step graceless e t s (set_mutex (Some t) (set_pc t Lift_decide s))
  | step_lift_decide : pc_of t s = Lift_decide ->
      grace_step graceless e t s (nfs_try_lift_grace_decide t e s)
  | step_lift_read : pc_of t s = Lift_read ->
      grace_step graceless e t s (set_pc t (Lift (gs_status s)) s)
  | step_lift_loop cur : pc_of t s = Lift cur ->
      grace_step graceless e t s (nfs_try_lift_grace_step t (ge_backend_ok e) cur s)
  | step_lift_locked : pc_of t s = Lift_locked ->
      grace_step graceless e t s (nfs_lift_grace_check t s)
  | step_lift_clear : pc_of t s = Lift_clear ->
      grace_step graceless e t s (nfs_lift_grace_clear t s).

Definition grace_init : grace_state := {| gs_status := 0; gs_mutex := None; gs_threads := ∅ |}.

(** The states any interleaving of the threads [ts] reaches. *)
Inductive grace_reachable (graceless : bool) (ts : gset positive) : grace_state -> Prop :=
  | gr_init : grace_reachable graceless ts grace_init
  | gr_step e t s s' : grace_reachable graceless ts s -> t ∈ ts -> grace_step graceless e t s s' ->
      grace_reachable graceless ts s'.

(** ** The word as fields *)

Definition word (active change : bool) (n : Z) : Z := 2 * (2 * n + Z.b2z change) + Z.b2z active.
Definition word_max : Z := 2 ^ 30.

Lemma word_bits a c n i : 0 <= i ->
  Z.testbit (word a c n) i = if i =? 0 then a else if i =? 1 then c else Z.testbit n (i - 2).
Proof.
  intros Hi. unfold word. destruct (Z.eqb_spec i 0) as [->|]; [apply Z.testbit_0_r|].
  replace i with (Z.succ (i - 1)) by lia. rewrite Z.testbit_succ_r by lia.
  replace (Z.succ (i - 1)) with i by lia.
  destruct (Z.eqb_spec i 1) as [->|]; [apply Z.testbit_0_r|].
  replace (i - 1) with (Z.succ (i - 2)) by lia. by rewrite Z.testbit_succ_r by lia.
Qed.

(** The bit operations act on the fields. *)
Ltac by_word_bits :=
  apply Z.bits_inj'; intros i Hi;
  rewrite ?Z.land_spec, ?Z.lor_spec, ?Z.lnot_spec, !word_bits by done;
  destruct (Z.eqb_spec i 0); [done|]; destruct (Z.eqb_spec i 1); [done|];
  rewrite ?Z.land_spec, ?Z.lor_spec, ?Z.lnot_spec by lia; done.

Lemma land_word a c n a' c' n' :
  Z.land (word a c n) (word a' c' n') = word (a && a') (c && c') (Z.land n n').
Proof. by_word_bits. Qed.
Lemma lor_word a c n a' c' n' :
  Z.lor (word a c n) (word a' c' n') = word (a || a') (c || c') (Z.lor n n').
Proof. by_word_bits. Qed.
Lemma lnot_word a c n : Z.lnot (word a c n) = word (negb a) (negb c) (Z.lnot n).
Proof. by_word_bits. Qed.

Lemma word_eqb a c n a' c' n' :
  (word a c n =? word a' c' n') = Bool.eqb a a' && Bool.eqb c c' && (n =? n').
Proof.
  unfold word. apply eq_true_iff_eq. rewrite !andb_true_iff, !eqb_true_iff, !Z.eqb_eq.
  destruct a, c, a', c'; simpl; split; try lia; intros; intuition (try discriminate; lia).
Qed.

Lemma active_word : GRACE_STATUS_ACTIVE = word true false 0. Proof. done. Qed.
Lemma change_word : GRACE_STATUS_CHANGE_REQ = word false true 0. Proof. done. Qed.
Lemma mask_word : GRACE_STATUS_COUNT_MASK = word false false (Z.ones 30). Proof. done. Qed.
Lemma zero_word : 0 = word false false 0. Proof. done. Qed.

Definition word_ok (n : Z) : Prop := 0 <= n < word_max.

Lemma bit_active a c n : grace_bit (word a c n) GRACE_STATUS_ACTIVE = a.
Proof.
  unfold grace_bit. rewrite active_word, land_word, zero_word, word_eqb, Z.land_0_r.
  by destruct a, c.
Qed.
Lemma bit_change a c n : grace_bit (word a c n) GRACE_STATUS_CHANGE_REQ = c.
Proof.
  unfold grace_bit. rewrite change_word, land_word, zero_word, word_eqb, Z.land_0_r.
  by destruct a, c.
Qed.
Lemma bit_count a c n : word_ok n -> grace_bit (word a c n) GRACE_STATUS_COUNT_MASK = negb (n =? 0).
Proof.
  unfold word_ok, word_max. intros Hn. unfold grace_bit.
  rewrite mask_word, land_word, zero_word, word_eqb, Z.land_ones, Z.mod_small by lia.
  by rewrite !andb_false_r.
Qed.
Lemma word_count a c n : Z.shiftr (word a c n) GRACE_STATUS_COUNTER_SHIFT = n.
Proof.
  apply Z.bits_inj'. intros i Hi. rewrite Z.shiftr_spec, word_bits by (unfold GRACE_STATUS_COUNTER_SHIFT; lia).
  unfold GRACE_STATUS_COUNTER_SHIFT. destruct (Z.eqb_spec (i + 2) 0); [lia|].
  destruct (Z.eqb_spec (i + 2) 1); [lia|]. f_equal. lia.
Qed.
Lemma set_change a c n : Z.lor (word a c n) GRACE_STATUS_CHANGE_REQ = word a true n.
Proof. by rewrite change_word, lor_word, orb_false_r, orb_true_r, Z.lor_0_r. Qed.
Lemma clear_flags a c n :
  Z.land (word a c n) (Z.lnot (Z.lor GRACE_STATUS_ACTIVE GRACE_STATUS_CHANGE_REQ)) = word false false n.
Proof.
  rewrite active_word, change_word, lor_word, lnot_word, land_word. simpl.
  by rewrite !andb_false_r, Z.land_m1_r.
Qed.
Lemma start_pro_word a c n : word_ok n ->
  start_pro (word a c n) = if n =? 0 then word true false n else word a true n.
Proof.
  intros Hn. unfold start_pro. rewrite bit_count by done. destruct (n =? 0); simpl; [|apply set_change].
  rewrite active_word, change_word, lor_word, lnot_word, land_word. simpl.
  by rewrite orb_true_r, andb_false_r, Z.lor_0_r, Z.land_m1_r.
Qed.
Lemma word_inc a c n : word_ok n -> word_ok (n + 1) ->
  u32 (word a c n + GRACE_STATUS_REF_INCREMENT) = word a c (n + 1).
Proof.
  unfold word_ok, word_max, GRACE_STATUS_REF_INCREMENT. intros.
  rewrite u32_small; unfold word, UINT32_MAX; destruct a, c; simpl Z.b2z; lia.
Qed.
Lemma word_dec a c n : word_ok n -> 1 <= n ->
  u32 (word a c n - GRACE_STATUS_REF_INCREMENT) = word a c (n - 1).
Proof.
  unfold word_ok, word_max, GRACE_STATUS_REF_INCREMENT. intros.
  rewrite u32_small; unfold word, UINT32_MAX; destruct a, c; simpl Z.b2z; lia.
Qed.

(** ** The references held *)

Definition is_holding (pc : grace_pc) : bool := match pc with Holding _ => true | _ => false end.
Definition held_refs (s : grace_state) : Z := count_threads is_holding (gs_threads s).

Lemma pc_of_set t pc s t' : pc_of t' (set_pc t pc s) = if decide (t = t') then pc else pc_of t' s.
Proof. unfold pc_of, set_pc. simpl. rewrite lookup_insert. by case_decide. Qed.

Lemma held_set_pc t pc s :
  held_refs (set_pc t pc s) = held_refs s - Z.b2z (is_holding (pc_of t s)) + Z.b2z (is_holding pc).
Proof. by apply (count_threads_insert Idle is_holding). Qed.

Lemma held_nonneg s : 0 <= held_refs s.
Proof. apply count_threads_nonneg. Qed.

(** Only members of [ts] hold references. *)
Lemma held_bound ts s : dom (gs_threads s) ⊆ ts -> held_refs s <= Z.of_nat (size ts).
Proof. apply count_threads_bound. Qed.

(** Program points inside the mutex. *)
Definition in_mutex (pc : grace_pc) : bool :=
  match pc with
  | Start_graceless | Start_read | Start _ | Lift_decide | Lift_read | Lift _ | Lift_locked | Lift_clear => true
  | _ => false
  end.

(** Program points of a server that is, or is not, graceless. *)
Definition pc_allowed (graceless : bool) (pc : grace_pc) : bool :=
  match pc with Start_read | Start _ => negb graceless | Start_graceless => graceless | _ => true end.

(** The invariant: the word holds the number of references; all of them are for
    the current status; whoever lifts the grace period has requested the change
    and, once past its loop, has seen all references go; a graceless server is
    never in grace. *)
Record grace_inv (graceless : bool) (ts : gset positive) (s : grace_state) (a c : bool) : Prop := {
  gi_status : gs_status s = word a c (held_refs s);
  gi_dom : dom (gs_threads s) ⊆ ts;
  gi_hold t w : pc_of t s = Holding w -> w = a;
  gi_mutex t : in_mutex (pc_of t s) = true -> gs_mutex s = Some t;
  gi_lift t cur : pc_of t s = Lift cur -> exists c' n', cur = word a c' n' /\ word_ok n' /\
    (c' = true -> c = true /\ held_refs s <= n');
  gi_ready t : pc_of t s = Lift_locked \/ pc_of t s = Lift_clear -> c = true /\ held_refs s = 0;
  gi_assert t : pc_of t s <> Lift_assert_failed;
  gi_allowed t : pc_allowed graceless (pc_of t s) = true;
  gi_graceless : graceless = true -> a = false
}.

Section preservation.
Context (graceless : bool) (ts : gset positive) (Hsize : Z.of_nat (size ts) < word_max).

Lemma inv_word_ok s a c : grace_inv graceless ts s a c -> word_ok (held_refs s).
Proof using Hsize. intros []. pose proof (held_bound _ _ gi_dom0). pose proof (held_nonneg s). unfold word_ok. lia. Qed.

Lemma dom_set_pc t pc s : t ∈ ts -> dom (gs_threads s) ⊆ ts -> dom (<[t := pc]> (gs_threads s)) ⊆ ts.
Proof. intros. rewrite dom_insert. apply union_least; [by apply singleton_subseteq_l|done]. Qed.

(** A thread that holds no reference moves to a point outside the mutex. *)
Lemma inv_set_pc s a c t pc :
  grace_inv graceless ts s a c -> t ∈ ts -> is_holding (pc_of t s) = false -> is_holding pc = false ->
  in_mutex pc = false -> pc <> Lift_assert_failed -> grace_inv graceless ts (set_pc t pc s) a c.
Proof.
  intros [] Ht Hold Hnew Hmx Has.
  assert (held_refs (set_pc t pc s) = held_refs s) as Hh by (rewrite held_set_pc, Hold, Hnew; simpl; lia).
  constructor; rewrite ?Hh; try done; try (by apply dom_set_pc).
  all: intros t'; rewrite pc_of_set; case_decide; eauto; subst; destruct pc; naive_solver.
Qed.

(** The only thread in the mutex changes the flags and moves. *)
Lemma inv_mutex_step s a c a' c' t pc m :
  grace_inv graceless ts s a c -> t ∈ ts -> is_holding (pc_of t s) = false ->
  (forall t', t' <> t -> in_mutex (pc_of t' s) = false) ->
  is_holding pc = false -> pc <> Lift_assert_failed -> (a' = a \/ held_refs s = 0) ->
  pc_allowed graceless pc = true -> (graceless = true -> a' = false) ->
  (in_mutex pc = true -> m = Some t) ->
  (forall cur, pc = Lift cur -> exists c0 n', cur = word a' c0 n' /\ word_ok n' /\
     (c0 = true -> c' = true /\ held_refs s <= n')) ->
  (pc = Lift_locked \/ pc = Lift_clear -> c' = true /\ held_refs s = 0) ->
  grace_inv graceless ts {| gs_status := word a' c' (held_refs s); gs_mutex := m;
                  gs_threads := <[t := pc]> (gs_threads s) |} a' c'.
Proof.
  intros [] Ht Hold Hothers Hnew Has Ha Hal Hgl Hm Hlift Hready.
  set (s' := {| gs_status := _ |}).
  assert (held_refs s' = held_refs s) as Hh.
  { pose proof (held_set_pc t pc s) as Hh. rewrite Hold, Hnew in Hh. unfold held_refs in *. simpl in *. lia. }
  assert (forall t', pc_of t' s' = if decide (t = t') then pc else pc_of t' s) as Hpc
    by (intros t'; apply (pc_of_set t pc s)).
  assert (forall t' w, pc_of t' s' = Holding w -> w = a') as Hw.
  { intros t' w. rewrite Hpc. case_decide; [subst; intros ->; done|]. intros Hp.
    destruct Ha as [->|H0]; [eauto|]. exfalso.
    pose proof (count_threads_pos Idle is_holding t' (gs_threads s) eq_refl) as Hpos.
    unfold pc_of in Hp. rewrite Hp in Hpos. specialize (Hpos eq_refl). unfold held_refs in H0. lia. }
  constructor; rewrite ?Hh; try done; try (by apply dom_set_pc).
  - intros t'. rewrite Hpc. case_decide; [subst; auto|]. by rewrite Hothers.
  - intros t' cur. rewrite Hpc. case_decide; [auto|]. intros Hp.
    specialize (Hothers t'). rewrite Hp in Hothers. by discriminate Hothers.
  - intros t'. rewrite Hpc. case_decide; [auto|]. intros Hp.
    specialize (Hothers t'). by destruct Hp as [Hp|Hp]; rewrite Hp in Hothers; discriminate Hothers.
  - intros t'. rewrite Hpc. case_decide; eauto.
  - intros t'. rewrite Hpc. case_decide; eauto.
Qed.

(** A reference is taken. *)
Lemma inv_take s a t :
  grace_inv graceless ts s a false -> t ∈ ts -> is_holding (pc_of t s) = false ->
  grace_inv graceless ts (set_pc t (Holding a) (set_status (word a false (held_refs s + 1)) s)) a false.
Proof.
  intros [] Ht Hold. set (s' := set_pc _ _ _).
  assert (held_refs s' = held_refs s + 1) as Hh.
  { pose proof (held_set_pc t (Holding a) s) as Hh. rewrite Hold in Hh. unfold held_refs in *. simpl in *. lia. }
  assert (forall t', pc_of t' s' = if decide (t = t') then Holding a else pc_of t' s) as Hpc
    by (intros t'; apply (pc_of_set t (Holding a) s)).
  constructor; rewrite ?Hh; try done; try (by apply dom_set_pc).
  - intros t' w. rewrite Hpc. case_decide; [by intros [= ->]|eauto].
  - intros t'. rewrite Hpc. case_decide; [done|apply gi_mutex0].
  - intros t' cur. rewrite Hpc. case_decide; [done|]. intros Hp.
    destruct (gi_lift0 t' cur Hp) as (c' & n' & ? & ? & Hc'). exists c', n'. naive_solver.
  - intros t'. rewrite Hpc. case_decide; [naive_solver|]. intros Hp. by destruct (gi_ready0 t' Hp).
  - intros t'. rewrite Hpc. case_decide; eauto.
  - intros t'. rewrite Hpc. case_decide; eauto.
Qed.

(** A reference is put back. *)
Lemma inv_put s a c t w :
  grace_inv graceless ts s a c -> t ∈ ts -> pc_of t s = Holding w ->
  1 <= held_refs s /\
  grace_inv graceless ts (set_pc t Idle (set_status (word a c (held_refs s - 1)) s)) a c.
Proof.
  intros [] Ht Hp. set (s' := set_pc _ _ _).
  assert (held_refs s' = held_refs s - 1) as Hh.
  { pose proof (held_set_pc t Idle s) as Hh. rewrite Hp in Hh. unfold held_refs in *. simpl in *. lia. }
  assert (1 <= held_refs s) as H1 by (pose proof (held_nonneg s'); lia).
  assert (forall t', pc_of t' s' = if decide (t = t') then Idle else pc_of t' s) as Hpc
    by (intros t'; apply (pc_of_set t Idle s)).
  split; [done|]. constructor; rewrite ?Hh; try done; try (by apply dom_set_pc).
  - intros t' v. rewrite Hpc. case_decide; [done|eauto].
  - intros t'. rewrite Hpc. case_decide; [done|apply gi_mutex0].
  - intros t' cur. rewrite Hpc. case_decide; [done|]. intros Hl.
    destruct (gi_lift0 t' cur Hl) as (c' & n' & ? & ? & Hc'). exists c', n'.
    split; [done|]. split; [done|]. intros ->. destruct Hc'; [done|]. split; [done|lia].
  - intros t'. rewrite Hpc. case_decide; [naive_solver|]. intros Hr. destruct (gi_ready0 t' Hr). lia.
  - intros t'. rewrite Hpc. case_decide; eauto.
  - intros t'. rewrite Hpc. case_decide; eauto.
Qed.

Lemma word_ok_succ s a c t :
  grace_inv graceless ts s a c -> t ∈ ts -> is_holding (pc_of t s) = false -> word_ok (held_refs s + 1).
Proof using Hsize.
  intros Hinv Ht Hold. pose proof (held_set_pc t (Holding a) s) as Hh. rewrite Hold in Hh. simpl in Hh.
  pose proof (held_bound ts (set_pc t (Holding a) s)) as Hb. pose proof (held_nonneg s).
  unfold word_ok. destruct Hinv. specialize (Hb ltac:(by apply dom_set_pc)). lia.
Qed.

Lemma mutex_others s a c t :
  grace_inv graceless ts s a c -> in_mutex (pc_of t s) = true -> forall t', t' <> t -> in_mutex (pc_of t' s) = false.
Proof.
  intros [] Ht t' Hne. apply not_true_iff_false. intros Ht'.
  apply gi_mutex0 in Ht, Ht'. congruence.
Qed.

(** The thread in the mutex leaves, possibly after it changed the word. *)
Lemma inv_leave s a c a' c' t :
  grace_inv graceless ts s a c -> t ∈ ts -> in_mutex (pc_of t s) = true -> (a' = a \/ held_refs s = 0) ->
  (graceless = true -> a' = false) ->
  grace_inv graceless ts (leave t (set_status (word a' c' (held_refs s)) s)) a' c'.
Proof.
  intros Hinv Ht Hm Ha Hgl. assert (is_holding (pc_of t s) = false) by by destruct (pc_of t s).
  apply (inv_mutex_step s a c); try done; [by eapply mutex_others|naive_solver].
Qed.

Lemma inv_leave_same s a c t :
  grace_inv graceless ts s a c -> t ∈ ts -> in_mutex (pc_of t s) = true -> grace_inv graceless ts (leave t s) a c.
Proof.
  intros Hinv Ht Hm. replace (leave t s) with (leave t (set_status (word a c (held_refs s)) s)).
  - apply (inv_leave s a c); auto. apply (gi_graceless _ _ _ _ _ Hinv).
  - rewrite <- (gi_status _ _ _ _ _ Hinv). by destruct s.
Qed.

(** The thread in the mutex moves inside it. *)
Lemma inv_move s a c c' t pc :
  grace_inv graceless ts s a c -> t ∈ ts -> in_mutex (pc_of t s) = true -> in_mutex pc = true ->
  pc_allowed graceless pc = true ->
  (forall cur, pc = Lift cur -> exists c0 n', cur = word a c0 n' /\ word_ok n' /\
     (c0 = true -> c' = true /\ held_refs s <= n')) ->
  (pc = Lift_locked \/ pc = Lift_clear -> c' = true /\ held_refs s = 0) ->
  grace_inv graceless ts (set_pc t pc (set_status (word a c' (held_refs s)) s)) a c'.
Proof.
  intros Hinv Ht Hm Hpc Hal Hl Hr. assert (is_holding (pc_of t s) = false) by by destruct (pc_of t s).
  apply (inv_mutex_step s a c); try done; [by eapply mutex_others|by destruct pc|by destruct pc|by left|apply (gi_graceless _ _ _ _ _ Hinv)|].
  intros _. by apply (gi_mutex _ _ _ _ _ Hinv).
Qed.

Lemma inv_move_same s a c t pc :
  grace_inv graceless ts s a c -> t ∈ ts -> in_mutex (pc_of t s) = true -> in_mutex pc = true ->
  pc_allowed graceless pc = true ->
  (forall cur, pc = Lift cur -> exists c0 n', cur = word a c0 n' /\ word_ok n' /\
     (c0 = true -> c = true /\ held_refs s <= n')) ->
  (pc = Lift_locked \/ pc = Lift_clear -> c = true /\ held_refs s = 0) ->
  grace_inv graceless ts (set_pc t pc s) a c.
Proof.
  intros Hinv Ht Hm Hpc Hal Hl Hr.
  replace (set_pc t pc s) with (set_pc t pc (set_status (word a c (held_refs s)) s)).
  - by apply (inv_move s a c).
  - rewrite <- (gi_status _ _ _ _ _ Hinv). by destruct s.
Qed.

(** A thread enters the mutex. *)
Lemma inv_enter s a c t pc :
  grace_inv graceless ts s a c -> t ∈ ts -> is_holding (pc_of t s) = false -> gs_mutex s = None ->
  pc_allowed graceless pc = true -> pc = Start_graceless \/ pc = Start_read \/ pc = Lift_decide ->
  grace_inv graceless ts (set_mutex (Some t) (set_pc t pc s)) a c.
Proof.
  intros Hinv Ht Hp Hm Hal Hpc. unfold set_mutex, set_pc. simpl. rewrite (gi_status _ _ _ _ _ Hinv).
  apply (inv_mutex_step s a c); try done; try (by destruct Hpc as [->|[->| ->]]).
  - intros t' _. apply not_true_iff_false. intros Hi. apply (gi_mutex _ _ _ _ _ Hinv) in Hi. congruence.
  - by left.
  - apply (gi_graceless _ _ _ _ _ Hinv).
  - destruct Hpc as [->|[->| ->]]; naive_solver.
Qed.

Lemma inv_get_loop s a c t want old :
  grace_inv graceless ts s a c -> t ∈ ts -> pc_of t s = Get want old ->
  grace_inv graceless ts (nfs_get_grace_status_step t want old s) a c.
Proof using Hsize.
  intros Hinv Ht Hp. assert (is_holding (pc_of t s) = false) as Hh by by rewrite Hp.
  unfold nfs_get_grace_status_step, compare_and_swap.
  destruct (Bool.eqb want _) eqn:Hw; [|by apply inv_set_pc]. simpl.
  destruct (grace_bit old GRACE_STATUS_CHANGE_REQ) eqn:Hc; [by apply inv_set_pc|].
  destruct (Z.eqb_spec (gs_status s) old) as [He|He].
  - rewrite He, Z.eqb_refl. simpl. pose proof (gi_status _ _ _ _ _ Hinv) as Hst. rewrite He in Hst. subst old.
    rewrite Hst, bit_change in Hc. subst c. rewrite Hst, bit_active in Hw. apply eqb_prop in Hw as ->.
    rewrite Hst, word_inc by eauto using inv_word_ok, word_ok_succ. by apply inv_take.
  - destruct (Z.eqb_spec (gs_status s) old); [done|]. simpl. by apply inv_set_pc.
Qed.

Lemma inv_start_loop s a c t cur :
  grace_inv graceless ts s a c -> t ∈ ts -> pc_of t s = Start cur ->
  exists a' c', grace_inv graceless ts (nfs_start_grace_step t cur s) a' c'.
Proof using Hsize.
  intros Hinv Ht Hp. assert (in_mutex (pc_of t s) = true) as Hm by by rewrite Hp.
  unfold nfs_start_grace_step, compare_and_swap.
  destruct (grace_bit cur GRACE_STATUS_ACTIVE) eqn:Ha; [exists a, c; by apply inv_leave_same|].
  destruct (start_pro cur =? cur); [exists a, c; by apply inv_leave_same|].
  destruct (Z.eqb_spec (gs_status s) cur) as [He|He].
  - rewrite He, Z.eqb_refl. simpl. pose proof (gi_status _ _ _ _ _ Hinv) as Hst. rewrite He in Hst.
    rewrite Hst, start_pro_word by by eapply inv_word_ok. destruct (Z.eqb_spec (held_refs s) 0).
    + exists true, false. apply (inv_leave s a c); auto.
      intros Hg. pose proof (gi_allowed _ _ _ _ _ Hinv t) as Hal. by rewrite Hp, Hg in Hal.
    + exists a, true. apply (inv_leave s a c); auto. apply (gi_graceless _ _ _ _ _ Hinv).
  - destruct (Z.eqb_spec (gs_status s) cur); [done|]. simpl. exists a, c.
    apply inv_move_same; try done; try naive_solver.
    pose proof (gi_allowed _ _ _ _ _ Hinv t) as Hal. by rewrite Hp in Hal.
Qed.

Lemma inv_lift_end s a c c' n' t ok :
  grace_inv graceless ts s a c -> t ∈ ts -> in_mutex (pc_of t s) = true -> word_ok n' -> held_refs s <= n' ->
  grace_inv graceless ts (try_lift_end t ok (word a c' n') (set_status (word a true (held_refs s)) s)) a true.
Proof.
  intros Hinv Ht Hm Hok Hle. unfold try_lift_end. rewrite bit_count by done.
  destruct (negb (negb (n' =? 0)) && ok) eqn:He; 
    [|apply (inv_leave s a c); auto; apply (gi_graceless _ _ _ _ _ Hinv)].
  apply andb_true_iff in He as [He _]. rewrite negb_involutive in He. apply Z.eqb_eq in He. subst n'.
  pose proof (held_nonneg s). apply (inv_move s a c); try done. intros _. split; [done|lia].
Qed.

Lemma inv_lift_loop s a c t cur ok :
  grace_inv graceless ts s a c -> t ∈ ts -> pc_of t s = Lift cur ->
  exists a' c', grace_inv graceless ts (nfs_try_lift_grace_step t ok cur s) a' c'.
Proof using Hsize.
  intros Hinv Ht Hp. assert (in_mutex (pc_of t s) = true) as Hm by by rewrite Hp.
  destruct (gi_lift _ _ _ _ _ Hinv t cur Hp) as (c' & n' & -> & Hok & Hc).
  unfold nfs_try_lift_grace_step, compare_and_swap. rewrite bit_active, set_change.
  destruct a; simpl; [|exists false, c; by apply inv_leave_same].
  rewrite word_eqb. destruct c'; simpl.
  - destruct (Hc eq_refl) as [-> Hle]. rewrite Z.eqb_refl. exists true, true.
    replace s with (set_status (word true true (held_refs s)) s) at 1
      by (rewrite <- (gi_status _ _ _ _ _ Hinv); by destruct s).
    by apply (inv_lift_end s true true).
  - destruct (Z.eqb_spec (gs_status s) (word true false n')) as [He|He].
    + rewrite He, Z.eqb_refl. simpl. rewrite (gi_status _ _ _ _ _ Hinv) in He. apply Z.eqb_eq in He.
      rewrite word_eqb in He. apply andb_true_iff in He as [_ He%Z.eqb_eq].
      exists true, true. rewrite <- He. apply (inv_lift_end s true c); try done; by rewrite He.
    + destruct (Z.eqb_spec (gs_status s) (word true false n')); [done|]. simpl. exists true, c.
      apply inv_move_same; try done; [|naive_solver]. intros cur [= <-]. exists c, (held_refs s).
      split; [apply (gi_status _ _ _ _ _ Hinv)|]. split; [by eapply inv_word_ok|]. intros ->. split; [done|lia].
Qed.

Lemma inv_lift_check s a c t :
  grace_inv graceless ts s a c -> t ∈ ts -> in_mutex (pc_of t s) = true ->
  a = false \/ c = true /\ held_refs s = 0 -> grace_inv graceless ts (nfs_lift_grace_check t s) a c.
Proof.
  intros Hinv Ht Hm Hac. unfold nfs_lift_grace_check. rewrite (gi_status _ _ _ _ _ Hinv), bit_active.
  destruct a; [|by apply inv_leave_same]. destruct Hac as [|Hac]; [done|]. by apply inv_move_same.
Qed.

Lemma grace_step_inv e s a c t s' :
  grace_inv graceless ts s a c -> t ∈ ts -> grace_step graceless e t s s' ->
  exists a' c', grace_inv graceless ts s' a' c'.
Proof using Hsize.
  intros Hinv Ht Hstep. pose proof (gi_allowed _ _ _ _ _ Hinv t) as Hal.
  destruct Hstep as [w Hp|w o Hp|w Hp|Hp Hm|Hp|Hp|cur Hp|Hp|Hp Hm|Hp|Hp|cur Hp|Hp|Hp].
  - exists a, c. apply inv_set_pc; try done. by rewrite Hp.
  - exists a, c. by apply inv_get_loop.
  - exists a, c. unfold nfs_put_grace_status. cbn [fst]. destruct (inv_put s a c t w Hinv Ht Hp) as [H1 Hi].
    rewrite (gi_status _ _ _ _ _ Hinv), word_dec by eauto using inv_word_ok. done.
  - exists a, c. apply inv_enter; try done; [by rewrite Hp|by destruct graceless|destruct graceless; auto].
  - exists a, c. rewrite Hp in Hal. apply inv_lift_check; [done..|by rewrite Hp|].
    left. by apply (gi_graceless _ _ _ _ _ Hinv).
  - exists a, c. rewrite Hp in Hal. apply inv_move_same; try done; [by rewrite Hp|naive_solver].
  - by eapply inv_start_loop.
  - exists a, c. unfold nfs_try_lift_grace_enter.
    destruct (negb _); apply inv_set_pc; try done; by rewrite Hp.
  - exists a, c. apply inv_enter; try done; [by rewrite Hp|auto].
  - exists a, c. assert (in_mutex (pc_of t s) = true) as Hm by by rewrite Hp.
    unfold nfs_try_lift_grace_decide. destruct (env_in_grace e); [by apply inv_leave_same|].
    apply inv_move_same; try done; naive_solver.
  - exists a, c. apply inv_move_same; try done; [by rewrite Hp| |naive_solver].
    intros cur [= <-]. exists c, (held_refs s). split; [apply (gi_status _ _ _ _ _ Hinv)|].
    split; [by eapply inv_word_ok|]. intros ->. split; [done|lia].
  - by eapply inv_lift_loop.
  - exists a, c. apply inv_lift_check; [done..|by rewrite Hp|]. right.
    apply (gi_ready _ _ _ _ _ Hinv t). by left.
  - assert (in_mutex (pc_of t s) = true) as Hm by by rewrite Hp. exists false, false.
    destruct (gi_ready _ _ _ _ _ Hinv t (or_intror Hp)) as [_ H0]. unfold nfs_lift_grace_clear.
    rewrite (gi_status _ _ _ _ _ Hinv), clear_flags, bit_count by by eapply inv_word_ok.
    rewrite H0 at 1. simpl. apply (inv_leave s a c); auto.
Qed.

Lemma grace_reachable_inv s : grace_reachable graceless ts s -> exists a c, grace_inv graceless ts s a c.
Proof using Hsize.
  induction 1 as [|e t s s' _ (a & c & Hinv) Ht Hstep]; [|by eapply grace_step_inv].
  exists false, false.
  constructor; unfold pc_of, grace_init; simpl; try done; intros; try (by rewrite lookup_empty in *).
  destruct H as [H|H]; by rewrite lookup_empty in H.
Qed.

End preservation.

(** ** Guarantees *)

(** C24: the grace status is stable under references.  However the threads
    interleave: while a thread holds a reference taken for [want_grace], the grace
    period is active exactly when it wanted it; the counter in the word is the
    number of references held; and the assertion of [nfs_lift_grace_locked]
    never fails. *)
Theorem grace_status_stable graceless ts s :
  Z.of_nat (size ts) < 2 ^ 30 -> grace_reachable graceless ts s ->
  (forall t want, pc_of t s = Holding want -> grace_bit (gs_status s) GRACE_STATUS_ACTIVE = want) /\
  Z.shiftr (gs_status s) GRACE_STATUS_COUNTER_SHIFT = held_refs s /\
  (forall t, pc_of t s <> Lift_assert_failed).
Proof.
  intros Hts Hr. destruct (grace_reachable_inv graceless ts Hts s Hr) as (a & c & Hinv).
  destruct Hinv. rewrite gi_status0.
  split; [|split; [|done]].
  - intros t want Hp. rewrite bit_active. symmetry. eauto.
  - apply word_count.
Qed.

(** A requested change is not overtaken.  As long as a change is requested,
    no step of any thread hands out a reference. *)
Theorem change_request_blocks_references graceless e ts s t s' :
  Z.of_nat (size ts) < 2 ^ 30 -> grace_reachable graceless ts s -> t ∈ ts -> grace_step graceless e t s s' ->
  grace_bit (gs_status s) GRACE_STATUS_CHANGE_REQ = true ->
  forall t' want, pc_of t' s' = Holding want -> pc_of t' s = Holding want.
Proof.
  intros Hts Hr Ht Hstep Hc t' want.
  assert (forall pc u, is_holding pc = false -> pc_of t' (set_pc t pc u) = Holding want ->
    t <> t' /\ pc_of t' u = Holding want) as Hset.
  { intros pc u Hpc. rewrite pc_of_set. case_decide; [intros ->; done|done]. }
  destruct Hstep as [w Hp|w o Hp|w Hp|Hp Hm|Hp|Hp|cur Hp|Hp|Hp Hm|Hp|Hp|cur Hp|Hp|Hp];
    unfold nfs_start_grace_enter, nfs_try_lift_grace_enter, nfs_try_lift_grace_decide, nfs_put_grace_status, nfs_start_grace_step, nfs_try_lift_grace_step, try_lift_end,
      nfs_lift_grace_check, nfs_lift_grace_clear, leave, compare_and_swap;
    try (intros Hh; repeat case_match; simplify_eq/=; by apply Hset in Hh as [_ Hh]).
  unfold nfs_get_grace_status_step, compare_and_swap. intros Hh.
  repeat case_match; simplify_eq/=; try (by apply Hset in Hh as [_ Hh]).
  - exfalso. match goal with H : (_ =? _) = true |- _ => apply Z.eqb_eq in H end. congruence.
  - exfalso. match goal with H : (_ =? _) = false, H' : negb _ = false |- _ => by rewrite H in H' end.
Qed.

Lemma not_holding s t' w : held_refs s = 0 -> pc_of t' s <> Holding w.
Proof.
  intros H0 Hp. pose proof (count_threads_pos Idle is_holding t' (gs_threads s) eq_refl) as Hpos.
  unfold pc_of in Hp. rewrite Hp in Hpos. specialize (Hpos eq_refl). unfold held_refs in H0. lia.
Qed.

Lemma word_0_ok : word_ok 0.
Proof. unfold word_ok, word_max. lia. Qed.

(** ** Progress under interference

    [turns n] are [n] steps of the thread [t], before each of which the other
    threads make any number of steps. *)
Section progress.
Context (graceless : bool) (ts : gset positive) (t : positive) (e : grace_env).

Definition other_step (s s' : grace_state) : Prop :=
  exists e' t', t' ∈ ts /\ t' <> t /\ grace_step graceless e' t' s s'.

Inductive turns : nat -> grace_state -> grace_state -> Prop :=
  | turns_0 s : turns 0 s s
  | turns_S n s s1 s2 s' : turns n s s1 -> rtc other_step s1 s2 -> grace_step graceless e t s2 s' ->
      turns (S n) s s'.

(** In the first [n] turns [t] is never blocked, whatever the others do. *)
Definition never_blocked (n : nat) (s : grace_state) : Prop :=
  forall k s1 s2, (k < n)%nat -> turns k s s1 -> rtc other_step s1 s2 ->
    exists s3, grace_step graceless e t s2 s3.

(** A change is requested, no reference is held, and [t] is at [pc] in the mutex. *)
Record pending (a : bool) (pc : grace_pc) (s : grace_state) : Prop := {
  pd_reachable : grace_reachable graceless ts s;
  pd_status : gs_status s = word a true 0;
  pd_held : held_refs s = 0;
  pd_pc : pc_of t s = pc;
  pd_mutex : gs_mutex s = Some t
}.

Context (Hsize : Z.of_nat (size ts) < word_max) (Ht : t ∈ ts).

(** Nobody else moves the word or the mutex meanwhile. *)
Lemma quiet_step e' t' s s' :
  gs_status s = word (grace_bit (gs_status s) GRACE_STATUS_ACTIVE) true 0 -> held_refs s = 0 ->
  is_Some (gs_mutex s) -> in_mutex (pc_of t' s) = false -> grace_step graceless e' t' s s' ->
  gs_status s' = gs_status s /\ gs_mutex s' = gs_mutex s /\ held_refs s' = 0 /\
  (forall u, u <> t' -> pc_of u s' = pc_of u s).
Proof using Type.
  intros Hst H0 [m Hm] Hin Hstep.
  assert (forall pc, is_holding pc = false -> gs_status (set_pc t' pc s) = gs_status s /\
    gs_mutex (set_pc t' pc s) = gs_mutex s /\ held_refs (set_pc t' pc s) = 0 /\
    (forall u, u <> t' -> pc_of u (set_pc t' pc s) = pc_of u s)) as Hset.
  { intros pc Hpc. split; [done|]. split; [done|]. split.
    - rewrite held_set_pc, Hpc, H0. destruct (pc_of t' s) eqn:Hp; try done. by apply not_holding in Hp.
    - intros u Hu. rewrite pc_of_set. by case_decide. }
  destruct Hstep as [w Hp|w o Hp|w Hp|Hp Hmn|Hp|Hp|cur Hp|Hp|Hp Hmn|Hp|Hp|cur Hp|Hp|Hp];
    try (by rewrite Hp in Hin); try congruence; try (by apply Hset).
  - unfold nfs_get_grace_status_step, compare_and_swap.
    destruct (negb _); [by apply Hset|].
    destruct (grace_bit o GRACE_STATUS_CHANGE_REQ) eqn:Hc; [by apply Hset|].
    destruct (Z.eqb_spec (gs_status s) o) as [<-|Hne]; [by rewrite Hst, bit_change in Hc|].
    destruct (Z.eqb_spec (gs_status s) o); [done|]. by apply Hset.
  - by apply not_holding in Hp.
  - unfold nfs_try_lift_grace_enter. destruct (negb _); by apply Hset.
Qed.

Lemma pending_others a pc s s' :
  in_mutex pc = true -> pending a pc s -> rtc other_step s s' -> pending a pc s'.
Proof using Hsize.
  intros Hpc Hs Hrtc. induction Hrtc as [|s s1 s' (e' & t' & Ht' & Hne & Hstep) _ IH]; [done|].
  apply IH. clear IH. destruct Hs as [Hr Hst H0 Hp Hm].
  destruct (grace_reachable_inv graceless ts Hsize s Hr) as (a0 & c0 & Hinv).
  destruct (quiet_step e' t' s s1) as (Hst' & Hm' & H0' & Hpc').
  - by rewrite Hst, bit_active.
  - done.
  - by rewrite Hm.
  - apply (mutex_others graceless ts s a0 c0 t); [done|by rewrite Hp|done].
  - done.
  - constructor; [by eapply gr_step|congruence..|rewrite Hpc'; by auto|congruence].
Qed.

(** The holder of the mutex is never blocked. *)
Lemma mutex_holder_steps s : in_mutex (pc_of t s) = true -> exists s', grace_step graceless e t s s'.
Proof using Type.
  destruct (pc_of t s) eqn:Hp; try done; intros _;
    eauto using step_start_graceless, step_start_read, step_start_loop, step_lift_decide, step_lift_read,
      step_lift_loop, step_lift_locked, step_lift_clear.
Qed.

(** A pending state in which the step of [t] at [pc] only moves it to [pc']. *)
Definition moves (a : bool) (pc pc' : grace_pc) : Prop :=
  is_holding pc' = false /\
  forall s s', pending a pc s -> grace_step graceless e t s s' -> s' = set_pc t pc' s.

Lemma pending_move a pc pc' s s' :
  in_mutex pc = true -> moves a pc pc' -> pending a pc s -> grace_step graceless e t s s' -> pending a pc' s'.
Proof using Ht.
  intros Hin [Hh' Hmv] Hs Hstep. assert (grace_reachable graceless ts s') as Hr by (eapply gr_step; [apply Hs|done..]).
  rewrite (Hmv s s' Hs Hstep) in *. destruct Hs as [_ Hst H0 Hp Hm]. constructor; try done.
  - rewrite held_set_pc, Hp, Hh', H0. by destruct pc.
  - rewrite pc_of_set. by case_decide.
Qed.

(** The program points [t] passes while the change is pending. *)
Definition path (a : bool) (pcs : list grace_pc) : Prop :=
  forall i pc, pcs !! i = Some pc -> in_mutex pc = true /\
    forall pc', pcs !! S i = Some pc' -> moves a pc pc'.

Lemma turns_path a pcs pc0 k s s' :
  path a pcs -> pcs !! 0%nat = Some pc0 -> pending a pc0 s -> turns k s s' ->
  (k < length pcs)%nat -> exists pc, pcs !! k = Some pc /\ pending a pc s'.
Proof using Hsize Ht.
  intros Hpath H0 Hs Hk. induction Hk as [s|k s s1 s2 s' Hk IH Hrtc Hstep]; intros Hlen; [eauto|].
  destruct IH as (pc & Hpc & Hs1); [done|lia|]. destruct (Hpath k pc Hpc) as [Hin Hmv].
  destruct (lookup_lt_is_Some_2 pcs (S k) Hlen) as [pc' Hpc']. exists pc'. split; [done|].
  eapply pending_move; [done|by apply Hmv| |done]. by eapply pending_others.
Qed.

Lemma path_never_blocked a pcs pc0 s :
  path a pcs -> pcs !! 0%nat = Some pc0 -> pending a pc0 s -> never_blocked (length pcs) s.
Proof using Hsize Ht.
  intros Hpath H0 Hs k s1 s2 Hk Hturns Hrtc.
  destruct (turns_path a pcs pc0 k s s1) as (pc & Hpc & Hs1); [done..|].
  destruct (Hpath k pc Hpc) as [Hin _]. apply mutex_holder_steps.
  by rewrite (pd_pc _ _ _ (pending_others a pc s1 s2 Hin Hs1 Hrtc)).
Qed.

(** The last turn starts at the end of the path, still pending. *)
Lemma path_last_turn a pcs pc0 pcn n s s' :
  path a pcs -> pcs !! 0%nat = Some pc0 -> length pcs = S n -> pcs !! n = Some pcn -> pending a pc0 s ->
  turns (S n) s s' -> exists s1, pending a pcn s1 /\ grace_step graceless e t s1 s'.
Proof using Hsize Ht.
  intros Hpath H0 Hlen Hn Hs Hturns. inversion Hturns as [|? ? s1 s2 ? Hk Hrtc Hstep]; subst.
  destruct (turns_path a pcs pc0 n s s1) as (pc & Hpc & Hs1); [done..|lia|].
  exists s2. split; [|done]. simplify_eq. destruct (Hpath n pcn Hn) as [Hin _]. by eapply pending_others.
Qed.

(** The step of [t] is the one of its program point. *)
Ltac own_step := intros s s' Hs Hstep; pose proof (pd_pc _ _ _ Hs); destruct Hstep; try congruence.

Definition start_path : list grace_pc := [Start_read; Start (word false true 0)].

Lemma start_path_ok : path false start_path.
Proof using Type.
  intros [|[|i]] pc Hpc; simplify_eq/=; (split; [done|]); intros pc' Hpc'; simplify_eq/=.
  split; [done|]. own_step. by rewrite (pd_status _ _ _ Hs).
Qed.

Definition lift_path : list grace_pc :=
  [Lift_decide; Lift_read; Lift (word true true 0); Lift_locked; Lift_clear].

Lemma lift_path_ok : env_in_grace e = false -> ge_backend_ok e = true -> path true lift_path.
Proof using Type.
  intros Hover Hok [|[|[|[|[|i]]]]] pc Hpc; simplify_eq/=; (split; [done|]); intros pc' Hpc'; simplify_eq/=;
    (split; [done|]); own_step.
  - unfold nfs_try_lift_grace_decide. by rewrite Hover.
  - by rewrite (pd_status _ _ _ Hs).
  - assert (cur = word true true 0) as -> by congruence.
    unfold nfs_try_lift_grace_step, try_lift_end. rewrite bit_active, set_change, Z.eqb_refl, bit_count, Hok
      by apply word_0_ok. done.
  - unfold nfs_lift_grace_check. by rewrite (pd_status _ _ _ Hs), bit_active.
Qed.

Lemma start_returns_0 s s1 old :
  pending false Start_read s -> turns 1 s s1 -> pc_of t s1 = Start old -> start_result old = 0.
Proof using Hsize Ht.
  intros Hs H1 Hp. destruct (turns_path false start_path Start_read 1 s s1) as (pc & Hpc & Hs1);
    [apply start_path_ok|done..|simpl; lia|].
  injection Hpc as <-. rewrite (pd_pc _ _ _ Hs1) in Hp. injection Hp as <-. reflexivity.
Qed.

Lemma start_takes_effect s s' :
  pending false Start_read s -> turns 2 s s' ->
  gs_status s' = GRACE_STATUS_ACTIVE /\ pc_of t s' = Idle /\ gs_mutex s' = None.
Proof using Hsize Ht.
  intros Hs H2. destruct (path_last_turn false start_path Start_read (Start (word false true 0)) 1 s s')
    as (s1 & Hs1 & Hstep); [apply start_path_ok|done..|].
  revert Hs1 Hstep. clear. revert s1 s'. own_step. assert (cur = word false true 0) as -> by congruence.
  unfold nfs_start_grace_step, compare_and_swap.
  rewrite (pd_status _ _ _ Hs), bit_active, start_pro_word by apply word_0_ok. simpl.
  split; [done|]. split; [|done]. unfold pc_of. simpl. by rewrite lookup_insert_eq.
Qed.

Lemma lift_takes_effect s s' :
  pending true Lift_decide s -> env_in_grace e = false -> ge_backend_ok e = true -> turns 5 s s' ->
  gs_status s' = 0 /\ pc_of t s' = Idle /\ gs_mutex s' = None.
Proof using Hsize Ht.
  intros Hs Hover Hok H5. destruct (path_last_turn true lift_path Lift_decide Lift_clear 4 s s')
    as (s1 & Hs1 & Hstep); [by apply lift_path_ok|done..|].
  revert Hs1 Hstep. clear. revert s1 s'. own_step.
  unfold nfs_lift_grace_clear. rewrite (pd_status _ _ _ Hs), clear_flags, bit_count by apply word_0_ok.
  simpl. split; [done|]. split; [|done]. unfold pc_of. simpl. by rewrite lookup_insert_eq.
Qed.

Lemma pending_intro s a pc :
  grace_reachable graceless ts s -> held_refs s = 0 -> pc_of t s = pc -> in_mutex pc = true ->
  grace_bit (gs_status s) GRACE_STATUS_CHANGE_REQ = true ->
  grace_bit (gs_status s) GRACE_STATUS_ACTIVE = a -> pending a pc s.
Proof using Hsize.
  intros Hr H0 Hp Hin Hc Ha. destruct (grace_reachable_inv graceless ts Hsize s Hr) as (a' & c & Hinv).
  pose proof (gi_status _ _ _ _ _ Hinv) as Hst. rewrite H0 in Hst.
  rewrite Hst, bit_change in Hc. rewrite Hst, bit_active in Ha. subst. constructor; try done.
  by apply (gi_mutex _ _ _ _ _ Hinv).
Qed.

End progress.

(** C25: the requested change takes effect.  Take any reachable state in which a
    change is requested and the last reference is gone, and a thread inside the
    mutex, while the other threads go on running, any number of their steps
    before each of its own.  Out of grace, two own steps of [nfs_start_grace] (the
    read of the word and one turn of the loop) put the server in grace, with the
    result 0; in grace,
    five own steps of [nfs_try_lift_grace] from its decision on lift it, provided
    the grace period is over by that decision and the recovery backend agrees.
    Either way the request is cleared, no reference is counted and the mutex is
    free, and the thread was able to make every step on the way: its loop is not
    retried and nothing blocks it. *)
Theorem grace_change_takes_effect graceless ts s t e :
  Z.of_nat (size ts) < 2 ^ 30 -> grace_reachable graceless ts s -> t ∈ ts -> held_refs s = 0 ->
  grace_bit (gs_status s) GRACE_STATUS_CHANGE_REQ = true ->
  (grace_bit (gs_status s) GRACE_STATUS_ACTIVE = false -> pc_of t s = Start_read ->
     never_blocked graceless ts t e 2 s /\
     (forall s1 old, turns graceless ts t e 1 s s1 -> pc_of t s1 = Start old -> start_result old = 0) /\
     forall s', turns graceless ts t e 2 s s' ->
       gs_status s' = GRACE_STATUS_ACTIVE /\ pc_of t s' = Idle /\ gs_mutex s' = None) /\
  (grace_bit (gs_status s) GRACE_STATUS_ACTIVE = true -> pc_of t s = Lift_decide ->
     env_in_grace e = false -> ge_backend_ok e = true ->
     never_blocked graceless ts t e 5 s /\
     forall s', turns graceless ts t e 5 s s' ->
       gs_status s' = 0 /\ pc_of t s' = Idle /\ gs_mutex s' = None).
Proof.
  intros Hts Hr Ht H0 Hc. split.
  - intros Ha Hp. assert (pending graceless ts t false Start_read s) as Hs by by apply pending_intro.
    split; [|by eauto using start_takes_effect, start_returns_0].
    by apply (path_never_blocked graceless ts t e Hts Ht false start_path Start_read s (start_path_ok _ _ _ _)).
  - intros Ha Hp Hover Hok. assert (pending graceless ts t true Lift_decide s) as Hs by by apply pending_intro.
    split; [|by eauto using lift_takes_effect].
    by apply (path_never_blocked graceless ts t e Hts Ht true lift_path Lift_decide s (lift_path_ok _ _ _ _ Hover Hok)).
Qed.

(** ** A concrete interleaving *)

Definition two : gset positive := {[1%positive; 2%positive]}.

(** Thread 1 takes a reference outside grace while thread 2 wants to start the
    grace period, which has to wait. *)
Definition s_waiting : grace_state :=
  let s1 := set_pc 1 (Get false (gs_status grace_init)) grace_init in
  let s2 := nfs_get_grace_status_step 1 false 0 s1 in
  let s3 := set_mutex (Some 2%positive) (set_pc 2 Start_read s2) in
  let s4 := set_pc 2 (Start (gs_status s3)) s3 in
  nfs_start_grace_step 2 4 s4.

(** A server with NLM disabled whose two clients have both reclaimed. *)
Definition env_done : grace_env :=
  {| ge_enable_NLM := false; ge_current_grace := 100; ge_grace_period := 90; ge_now := 120;
     ge_recov := {| clid_list := [[65]; [66]]; clid_count := 2; reclaim_completes := 2 |};
     ge_backend_ok := true |}.

Lemma two_1 : 1%positive ∈ two. Proof. set_solver. Qed.
Lemma two_2 : 2%positive ∈ two. Proof. set_solver. Qed.

Lemma s_waiting_reachable : grace_reachable false two s_waiting.
Proof.
  set (s1 := set_pc 1 (Get false 0) grace_init).
  set (s2 := nfs_get_grace_status_step 1 false 0 s1).
  set (s3 := set_mutex (Some 2%positive) (set_pc 2 Start_read s2)).
  set (s4 := set_pc 2 (Start 4) s3).
  apply (gr_step false two env_done 2 s4); [|apply two_2|by apply step_start_loop].
  apply (gr_step false two env_done 2 s3); [|apply two_2|by apply step_start_read].
  apply (gr_step false two env_done 2 s2); [|apply two_2|by apply step_start].
  apply (gr_step false two env_done 1 s1); [|apply two_1|by apply step_get_loop].
  apply (gr_step false two env_done 1 grace_init); [apply gr_init|apply two_1|by apply step_get].
Qed.

(** Thread 1 puts its reference back, and thread 2 tries again. *)
Definition s_retry : grace_state :=
  nfs_start_grace_enter false 2 (fst (nfs_put_grace_status 1 s_waiting)).

Lemma s_retry_reachable : grace_reachable false two s_retry.
Proof.
  apply (gr_step false two env_done 2 (fst (nfs_put_grace_status 1 s_waiting))); [|apply two_2|by apply step_start].
  apply (gr_step false two env_done 1 s_waiting); [apply s_waiting_reachable|apply two_1|].
  by apply (step_put _ _ _ _ false).
Qed.

Lemma grace_status_stable_witness :
  pc_of 1 s_waiting = Holding false /\ grace_bit (gs_status s_waiting) GRACE_STATUS_ACTIVE = false.
Proof.
  split; [vm_compute; reflexivity|].
  destruct (grace_status_stable false two s_waiting) as [H _].
  - vm_compute. reflexivity.
  - apply s_waiting_reachable.
  - apply (H 1%positive false). vm_compute. reflexivity.
Defined.

(** Thread 2 asks for a reference while the change is pending. *)
Lemma change_request_blocks_references_witness :
  pc_of 1 (set_pc 2 (Get false (gs_status s_waiting)) s_waiting) = Holding false /\
  pc_of 1 s_waiting = Holding false.
Proof.
  split; [vm_compute; reflexivity|].
  apply (change_request_blocks_references false env_done two s_waiting 2
           (set_pc 2 (Get false (gs_status s_waiting)) s_waiting)).
  - vm_compute. reflexivity.
  - apply s_waiting_reachable.
  - apply two_2.
  - by apply step_get.
  - vm_compute. reflexivity.
  - vm_compute. reflexivity.
Defined.

(** Thread 2 retries while thread 1 asks for a reference again, in vain: grace
    starts. *)
Definition s_started : grace_state :=
  nfs_start_grace_step 2 2 (set_pc 2 (Start 2) (set_pc 1 (Get false 2) s_retry)).

Lemma s_started_turns : turns false two 2 env_done 2 s_retry s_started.
Proof.
  set (s1 := set_pc 1 (Get false 2) s_retry). set (s2 := set_pc 2 (Start 2) s1).
  apply (turns_S _ _ _ _ 1 _ s2 s2); [|apply rtc_refl|exact (step_start_loop false env_done 2 s2 2 eq_refl)].
  apply (turns_S _ _ _ _ 0 _ s_retry s1); [apply turns_0| |exact (step_start_read false env_done 2 s1 eq_refl)].
  apply rtc_once. exists env_done, 1%positive. split; [apply two_1|]. split; [done|].
  exact (step_get false env_done 1 s_retry false eq_refl).
Qed.

Ltac run_step u prev st :=
  apply (gr_step false two env_done u prev); [|solve [apply two_1 | apply two_2]|exact st].

Lemma s_started_reachable : grace_reachable false two s_started.
Proof.
  set (s1 := set_pc 1 (Get false 2) s_retry). set (s2 := set_pc 2 (Start 2) s1).
  run_step 2%positive s2 (step_start_loop false env_done 2 s2 2 eq_refl).
  run_step 2%positive s1 (step_start_read false env_done 2 s1 eq_refl).
  run_step 1%positive s_retry (step_get false env_done 1 s_retry false eq_refl).
  apply s_retry_reachable.
Qed.

(** In grace: thread 1 reclaims, thread 2 requests the end of grace and fails,
    thread 1 is done and thread 2 comes again. *)
Definition s_requested : grace_state :=
  let a1 := nfs_get_grace_status_step 1 true 1 (set_pc 1 (Get true 1) (set_pc 1 Idle s_started)) in
  let a2 := set_mutex (Some 2%positive) (set_pc 2 Lift_decide (set_pc 2 Lift_wait a1)) in
  nfs_try_lift_grace_step 2 true 5 (set_pc 2 (Lift 5) (set_pc 2 Lift_read a2)).
Definition s_lifting : grace_state :=
  set_mutex (Some 2%positive) (set_pc 2 Lift_decide (set_pc 2 Lift_wait (fst (nfs_put_grace_status 1 s_requested)))).

Lemma s_requested_reachable : grace_reachable false two s_requested.
Proof.
  set (b0 := set_pc 1 Idle s_started). set (b1 := set_pc 1 (Get true 1) b0).
  set (b2 := nfs_get_grace_status_step 1 true 1 b1). set (b3 := set_pc 2 Lift_wait b2).
  set (b4 := set_mutex (Some 2%positive) (set_pc 2 Lift_decide b3)).
  set (b5 := set_pc 2 Lift_read b4). set (b6 := set_pc 2 (Lift 5) b5).
  run_step 2%positive b6 (step_lift_loop false env_done 2 b6 5 eq_refl).
  run_step 2%positive b5 (step_lift_read false env_done 2 b5 eq_refl).
  run_step 2%positive b4 (step_lift_decide false env_done 2 b4 eq_refl).
  run_step 2%positive b3 (step_lift_lock false env_done 2 b3 eq_refl eq_refl).
  run_step 2%positive b2 (step_lift false env_done 2 b2 eq_refl).
  run_step 1%positive b1 (step_get_loop false env_done 1 b1 true 1 eq_refl).
  run_step 1%positive b0 (step_get false env_done 1 b0 true eq_refl).
  run_step 1%positive s_started (step_get_loop false env_done 1 s_started false 2 eq_refl).
  apply s_started_reachable.
Qed.

Lemma s_lifting_reachable : grace_reachable false two s_lifting.
Proof.
  set (a0 := fst (nfs_put_grace_status 1 s_requested)). set (a1 := set_pc 2 Lift_wait a0).
  run_step 2%positive a1 (step_lift_lock false env_done 2 a1 eq_refl eq_refl).
  run_step 2%positive a0 (step_lift false env_done 2 a0 eq_refl).
  run_step 1%positive s_requested (step_put false env_done 1 s_requested true eq_refl).
  apply s_requested_reachable.
Qed.

Lemma grace_change_takes_effect_witness :
  gs_status s_started = GRACE_STATUS_ACTIVE /\ gs_mutex s_started = None /\
  (forall s', turns false two 2 env_done 5 s_lifting s' -> gs_status s' = 0).
Proof.
  destruct (grace_change_takes_effect false two s_retry 2 env_done) as [Hstart _].
  - vm_compute. reflexivity.
  - apply s_retry_reachable.
  - apply two_2.
  - vm_compute. reflexivity.
  - vm_compute. reflexivity.
  - destruct (Hstart eq_refl eq_refl) as (_ & _ & H). destruct (H s_started s_started_turns) as (H1 & _ & H2).
    split; [exact H1|]. split; [exact H2|].
    destruct (grace_change_takes_effect false two s_lifting 2 env_done) as [_ Hlift].
    + vm_compute. reflexivity.
    + apply s_lifting_reachable.
    + apply two_2.
    + vm_compute. reflexivity.
    + vm_compute. reflexivity.
    + destruct (Hlift eq_refl eq_refl eq_refl eq_refl) as [_ Hl]. intros s' Hs'. apply (Hl s' Hs').
Defined.

(** ** The clients that may reclaim *)

Definition PATH_MAX : nat := 4096.

(** [nfs4_add_clid_entry]; [strlcpy] truncates the name to the array. *)
Definition nfs4_add_clid_entry (cl_name : list Z) (r : recov_state) : recov_state :=
  {| clid_list := take (PATH_MAX - 1) cl_name :: clid_list r;
     clid_count := i32 (clid_count r + 1); reclaim_completes := reclaim_completes r |}.

(** [nfs4_cleanup_clid_entries]: the entries are freed one by one, then the
    counter is asserted to be zero. *)
Fixpoint free_clids (l : list (list Z)) (count : Z) : Z :=
  match l with [] => count | _ :: l' => free_clids l' (i32 (count - 1)) end.
Definition nfs4_cleanup_clid_entries (r : recov_state) : option recov_state :=
  let count := free_clids (clid_list r) (clid_count r) in
  if count =? 0 then Some {| clid_list := []; clid_count := count; reclaim_completes := 0 |} else None.

(** [check_clid]: [strncmp] of two strings over [PATH_MAX] bytes. *)
Definition check_clid (cid_recov_tag : option (list Z)) (cl_name : list Z) : bool :=
  match cid_recov_tag with
  | None => false
  | Some tag => bool_decide (take PATH_MAX (tag ++ [0]) = take PATH_MAX (cl_name ++ [0]))
  end.

(** [nfs4_chk_clid_impl]: whether [cid_allow_reclaim] is set. *)
Definition nfs4_chk_clid_impl (tag : option (list Z)) (allow : bool) (r : recov_state) : bool :=
  if clid_count r =? 0 then allow
  else if existsb (check_clid tag) (clid_list r) then true else allow.

(** The state after [k] RECLAIM_COMPLETEs. *)
Definition with_completes (k : Z) (r : recov_state) : recov_state :=
  {| clid_list := clid_list r; clid_count := clid_count r; reclaim_completes := k |}.

(** The entries made at a start of grace, and the invariant they keep. *)
Definition load_clids (names : list (list Z)) (r : recov_state) : recov_state :=
  foldr nfs4_add_clid_entry r names.
Definition recov_ok (r : recov_state) : Prop :=
  clid_count r = Z.of_nat (length (clid_list r)) /\ Z.of_nat (length (clid_list r)) < 2 ^ 31.

Lemma load_clids_ok names r :
  recov_ok r -> Z.of_nat (length names + length (clid_list r)) < 2 ^ 31 ->
  recov_ok (load_clids names r) /\ length (clid_list (load_clids names r)) = (length names + length (clid_list r))%nat.
Proof.
  intros Hr. induction names as [|n names IH]; simpl; intros Hl; [done|].
  destruct IH as [[Hc Hb] Hlen]; [lia|]. unfold recov_ok. simpl. rewrite Hlen, Hc, Hlen.
  split; [|done]. rewrite i32_small by lia. lia.
Qed.

Lemma free_clids_zero l : Z.of_nat (length l) < 2 ^ 31 -> free_clids l (Z.of_nat (length l)) = 0.
Proof.
  induction l as [|x l IH]; intros Hl; [done|]. cbn [free_clids length] in *.
  rewrite i32_small by lia. replace (Z.of_nat (S (length l)) - 1) with (Z.of_nat (length l)) by lia.
  apply IH. lia.
Qed.

(** The clients that may reclaim.  The assertion of the cleanup holds
    whatever was loaded before; afterwards the client with a given recovery tag
    may reclaim exactly when its tag is among the names loaded, and with NLM
    disabled the grace period can be lifted early exactly when all of them have
    completed their reclaims. *)
Theorem reclaim_clients_correct r names tag now start period :
  recov_ok r -> Z.of_nat (length names) < 2 ^ 31 ->
  Forall (fun n => (length n < PATH_MAX)%nat /\ 0 ∉ n) names -> (length tag < PATH_MAX)%nat -> 0 ∉ tag ->
  exists r0, nfs4_cleanup_clid_entries r = Some r0 /\
    (nfs4_chk_clid_impl (Some tag) false (load_clids names r0) = true <-> tag ∈ names) /\
    (forall k, now < start + period ->
       still_in_grace false start period now (with_completes k (load_clids names r0)) = false <->
       k = Z.of_nat (length names)) /\
    recov_ok (load_clids names r0).
Proof.
  intros [Hc Hb] Hn Hnames Htag H0.
  unfold nfs4_cleanup_clid_entries. rewrite Hc, free_clids_zero by done. simpl.
  eexists. split; [done|]. set (r0 := {| clid_list := [] |}).
  assert (recov_ok r0) as Hr0 by (split; simpl; lia).
  destruct (load_clids_ok names r0 Hr0) as [[Hcnt Hlt] Hlen]; [simpl; lia|].
  assert (clid_list (load_clids names r0) = names) as Hlist.
  { clear -Hnames. induction Hnames as [|n names [Hn _] _ IH]; [done|]. simpl. rewrite IH.
    unfold PATH_MAX in Hn. f_equal. apply take_ge. lia. }
  split; [|split; [|done]].
  - unfold nfs4_chk_clid_impl. rewrite Hcnt, Hlist.
    destruct (Z.eqb_spec (Z.of_nat (length names)) 0) as [Hz|Hz].
    { destruct names; [|simpl in Hz; lia]. rewrite elem_of_nil. done. }
    destruct (existsb (check_clid (Some tag)) names) eqn:He.
    + apply existsb_exists in He as (n & Hin & Heq). split; [intros _|done].
      apply list_elem_of_In in Hin. rewrite Forall_forall in Hnames. destruct (Hnames n Hin) as [Hnl _].
      unfold check_clid in Heq. apply bool_decide_eq_true in Heq.
      rewrite !take_ge in Heq by (rewrite length_app; simpl; lia). by apply app_inj_tail in Heq as [-> _].
    + split; [done|]. intros Hin. rewrite <- not_true_iff_false in He. exfalso. apply He, existsb_exists.
      exists tag. split; [by apply list_elem_of_In|]. by apply bool_decide_eq_true.
  - intros k Ht. unfold still_in_grace. simpl. rewrite Hcnt, Hlist.
    destruct (Z.eqb_spec k (Z.of_nat (length names))) as [Hz|Hz]; simpl; [done|].
    destruct (Z.ltb_spec now (start + period)); [|lia]. done.
Qed.

Lemma reclaim_clients_correct_witness :
  exists r0, nfs4_cleanup_clid_entries (load_clids [[65]] {| clid_list := []; clid_count := 0; reclaim_completes := 3 |})
      = Some r0 /\
    nfs4_chk_clid_impl (Some [66]) false (load_clids [[65]; [66]] r0) = true.
Proof.
  destruct (reclaim_clients_correct
    (load_clids [[65]] {| clid_list := []; clid_count := 0; reclaim_completes := 3 |})
    [[65]; [66]] [66] 10 0 90) as (r0 & Hr0 & Hchk & _).
  - split; vm_compute; reflexivity.
  - vm_compute. reflexivity.
  - repeat constructor; unfold PATH_MAX; simpl; try lia; rewrite elem_of_cons, elem_of_nil; naive_solver.
  - unfold PATH_MAX. simpl. lia.
  - rewrite elem_of_cons, elem_of_nil. naive_solver.
  - exists r0. split; [exact Hr0|]. apply Hchk. rewrite !elem_of_cons. naive_solver.
Defined.
