(* ===== verification/Lease.v ===== *)
(** * Client leases

    [SAL/nfs4_lease.c] with the threads that use it: requests reserve the lease of
    their client and release it at their end, the reaper of
    [MainNFSD/nfs_reaper_thread.c] expires clients whose lease ran out, and the
    operations on client ids confirm, renew, replace and remove them.  The check
    of a lease and the expiry that follows are two critical sections. *)
From S2P Require Import Prelude.
Local Open Scope Z_scope.

Inductive nfs_clientid_confirm_state_t : Set :=
  | UNCONFIRMED_CLIENT_ID | CONFIRMED_CLIENT_ID | EXPIRED_CLIENT_ID | STALE_CLIENT_ID.

#[export] Instance nfs_clientid_confirm_state_t_eq_dec : EqDecision nfs_clientid_confirm_state_t.
Proof. solve_decision. Defined.

(** The fields of [nfs_client_id_t] that decide about the lease. *)
Record nfs_client_id_t : Set := {
  cid_confirmed : nfs_clientid_confirm_state_t;
  cid_lease_reservations : Z;
  cid_last_renew : Z
}.

Definition set_confirmed (st : nfs_clientid_confirm_state_t) (c : nfs_client_id_t) : nfs_client_id_t :=
  {| cid_confirmed := st; cid_lease_reservations := cid_lease_reservations c;
     cid_last_renew := cid_last_renew c |}.
Definition set_reservations (n : Z) (c : nfs_client_id_t) : nfs_client_id_t :=
  {| cid_confirmed := cid_confirmed c; cid_lease_reservations := n; cid_last_renew := cid_last_renew c |}.
Definition set_last_renew (t : Z) (c : nfs_client_id_t) : nfs_client_id_t :=
  {| cid_confirmed := cid_confirmed c; cid_lease_reservations := cid_lease_reservations c;
     cid_last_renew := t |}.

Section lease.
(** [nfs_param.nfsv4_param.lease_lifetime]; [t] is always the answer of [time]. *)
Context (lease_lifetime : Z).

Definition _valid_lease (t : Z) (clientid : nfs_client_id_t) : Z :=
  if decide (cid_confirmed clientid = EXPIRED_CLIENT_ID) then 0
  else if negb (cid_lease_reservations clientid =? 0) then lease_lifetime
  else if t <? cid_last_renew clientid + lease_lifetime
  then u32 (cid_last_renew clientid + lease_lifetime - t)
  else 0.

Definition valid_lease (t : Z) (clientid : nfs_client_id_t) : bool :=
  negb (_valid_lease t clientid =? 0).

Definition reserve_lease (t : Z) (clientid : nfs_client_id_t) : bool * nfs_client_id_t :=
  let valid := _valid_lease t clientid in
  (negb (valid =? 0),
   if negb (valid =? 0) then set_reservations (cid_lease_reservations clientid + 1) clientid else clientid).

Definition update_lease (t : Z) (clientid : nfs_client_id_t) : nfs_client_id_t :=
  let clientid := set_reservations (cid_lease_reservations clientid - 1) clientid in
  if cid_lease_reservations clientid =? 0 then set_last_renew t clientid else clientid.

(** The part of [nfs_client_id_expire] that changes the record itself. *)
Definition nfs_client_id_expire (make_stale : bool) (clientid : nfs_client_id_t) : nfs_client_id_t :=
  if decide (cid_confirmed clientid = EXPIRED_CLIENT_ID) then clientid
  else set_confirmed (if make_stale then STALE_CLIENT_ID else EXPIRED_CLIENT_ID) clientid.

(** What [nfs_client_id_confirm] and the two functions that remove a record from
    its hash table do to the record; the table it is in is told by its state. *)
Definition nfs_client_id_confirm (clientid : nfs_client_id_t) : nfs_client_id_t :=
  if decide (cid_confirmed clientid = UNCONFIRMED_CLIENT_ID)
  then set_confirmed CONFIRMED_CLIENT_ID clientid else clientid.
Definition remove_confirmed_client_id (clientid : nfs_client_id_t) : nfs_client_id_t :=
  if decide (cid_confirmed clientid = CONFIRMED_CLIENT_ID \/ cid_confirmed clientid = STALE_CLIENT_ID)
  then set_confirmed EXPIRED_CLIENT_ID clientid else clientid.
Definition remove_unconfirmed_client_id (clientid : nfs_client_id_t) : nfs_client_id_t :=
  if decide (cid_confirmed clientid = UNCONFIRMED_CLIENT_ID)
  then set_confirmed EXPIRED_CLIENT_ID clientid else clientid.

(** [reserve_lease_or_expire] run by one thread alone. *)
Definition reserve_lease_or_expire (t : Z) (update : bool) (clientid : nfs_client_id_t) :
    bool * nfs_client_id_t :=
  let valid := _valid_lease t clientid in
  if valid =? 0 then (false, nfs_client_id_expire false clientid)
  else
    let clientid := set_reservations (cid_lease_reservations clientid + 1) clientid in
    (true, if update then update_lease t clientid else clientid).

(** ** Threads

    [Expiring] is a thread that found the lease invalid and dropped [cid_mutex]
    before it calls [nfs_client_id_expire]; [Colliding] an EXCHANGE_ID that found a
    client of other credentials without state; [Releasing] the release of an
    address that found a client of it. *)
Inductive lease_pc : Set := Idle | Holding | Expiring | Colliding | Releasing.

Record lease_state : Type := {
  ls_client : nfs_client_id_t;
  ls_time : Z;
  ls_threads : gmap positive lease_pc
}.

Definition pc_of (t : positive) (s : lease_state) : lease_pc := default Idle (ls_threads s !! t).
Definition at_point (t : positive) (pc : lease_pc) (c : nfs_client_id_t) (s : lease_state) : lease_state :=
  {| ls_client := c; ls_time := ls_time s; ls_threads := <[t := pc]> (ls_threads s) |}.

(** The critical section of [reserve_lease_or_expire]. *)
Definition reserve_step (t : positive) (update : bool) (s : lease_state) : lease_state :=
  let c := ls_client s in
  if valid_lease (ls_time s) c then
    let '(_, c') := reserve_lease (ls_time s) c in
    if update then at_point t Idle (update_lease (ls_time s) c') s else at_point t Holding c' s
  else at_point t Expiring c s.

(** The critical section of [reap_hash_table] for the client. *)
Definition reap_step (t : positive) (s : lease_state) : lease_state :=
  if valid_lease (ls_time s) (ls_client s) then s else at_point t Expiring (ls_client s) s.

(** The critical section of EXCHANGE_ID for a client with other credentials. *)
Definition exchange_step (t : positive) (has_state : bool) (s : lease_state) : lease_state :=
  if negb (valid_lease (ls_time s) (ls_client s)) then at_point t Expiring (ls_client s) s
  else if negb has_state then at_point t Colliding (ls_client s) s
  else s.

(** The critical section of [nfs_release_v4_clients] for a client of the address. *)
Definition release_ip_step (t : positive) (s : lease_state) : lease_state :=
  if decide (cid_confirmed (ls_client s) = CONFIRMED_CLIENT_ID)
  then at_point t Releasing (ls_client s) s else s.

(** What a step is: [Renew] is CREATE_SESSION or SETCLIENTID_CONFIRM, which renew
    the lease without a reservation, [Replace] the same two for an older client id
    of the same client, [Remove] DESTROY_CLIENTID, or SETCLIENTID and EXCHANGE_ID
    that drop an unconfirmed record. *)
Inductive lease_event : Set :=
  | Clock | Reserve | Callback | Update | Reap | Expire | Confirm | Renew | Replace | Remove
  | Exchange | Collided | Release_ip | Make_stale.

#[export] Instance lease_event_eq_dec : EqDecision lease_event.
Proof. solve_decision. Defined.

Inductive lease_step (s : lease_state) : lease_event -> lease_state -> Prop :=
  | step_clock d : 0 <= d ->
      lease_step s Clock {| ls_client := ls_client s; ls_time := ls_time s + d; ls_threads := ls_threads s |}
  | step_reserve t update : pc_of t s = Idle -> lease_step s Reserve (reserve_step t update s)
  | step_callback t : pc_of t s = Idle -> (reserve_lease (ls_time s) (ls_client s)).1 = true ->
      lease_step s Callback (at_point t Holding (reserve_lease (ls_time s) (ls_client s)).2 s)
  | step_update t : pc_of t s = Holding ->
      lease_step s Update (at_point t Idle (update_lease (ls_time s) (ls_client s)) s)
  | step_reap t : pc_of t s = Idle -> lease_step s Reap (reap_step t s)
  | step_expire t : pc_of t s = Expiring ->
      lease_step s Expire (at_point t Idle (nfs_client_id_expire false (ls_client s)) s)
  | step_confirm t : pc_of t s = Idle ->
      lease_step s Confirm (at_point t Idle (nfs_client_id_confirm (ls_client s)) s)
  | step_renew t : pc_of t s = Idle ->
      lease_step s Renew (at_point t Idle (set_last_renew (ls_time s) (ls_client s)) s)
  | step_replace t : pc_of t s = Idle ->
      lease_step s Replace (at_point t Idle (nfs_client_id_expire false (ls_client s)) s)
  | step_remove_confirmed t : pc_of t s = Idle ->
      lease_step s Remove (at_point t Idle (remove_confirmed_client_id (ls_client s)) s)
  | step_remove_unconfirmed t : pc_of t s = Idle ->
      lease_step s Remove (at_point t Idle (remove_unconfirmed_client_id (ls_client s)) s)
  | step_exchange t has_state : pc_of t s = Idle -> lease_step s Exchange (exchange_step t has_state s)
  | step_collided t : pc_of t s = Colliding ->
      lease_step s Collided (at_point t Idle (nfs_client_id_expire false (ls_client s)) s)
  | step_release_ip t : pc_of t s = Idle -> lease_step s Release_ip (release_ip_step t s)
  | step_make_stale t : pc_of t s = Releasing ->
      lease_step s Make_stale (at_point t Idle (nfs_client_id_expire true (ls_client s)) s).

(** The steps that end a client id whatever its lease and its reservations. *)
Definition removal (ev : lease_event) : bool :=
  match ev with Replace | Remove | Collided => true | _ => false end.

(** A client record as [create_client_id] leaves it. *)
Definition new_client (t : Z) : nfs_client_id_t :=
  {| cid_confirmed := UNCONFIRMED_CLIENT_ID; cid_lease_reservations := 0; cid_last_renew := t |}.

(** The states that sequences of events satisfying [allowed] reach. *)
Inductive lease_reachable (allowed : lease_event -> bool) : lease_state -> Prop :=
  | lr_init t : lease_reachable allowed {| ls_client := new_client t; ls_time := t; ls_threads := ∅ |}
  | lr_step ev s s' : lease_reachable allowed s -> allowed ev = true -> lease_step s ev s' ->
      lease_reachable allowed s'.

(** ** The invariant *)

Definition is_holding (pc : lease_pc) : bool := match pc with Holding => true | _ => false end.
Definition holders (s : lease_state) : Z := count_threads is_holding (ls_threads s).

(** The lease has run out, or the client is gone; without renewals nothing can
    bring it back. *)
Definition run_out (s : lease_state) : Prop :=
  cid_lease_reservations (ls_client s) = 0 /\ cid_last_renew (ls_client s) + lease_lifetime <= ls_time s.
Definition lost (s : lease_state) : Prop :=
  cid_confirmed (ls_client s) = EXPIRED_CLIENT_ID \/ run_out s.

(** The count is exact whatever happens; without renewals a thread expires only
    what is lost; without removals either, what is expired has run out. *)
Record lease_inv (allowed : lease_event -> bool) (s : lease_state) : Prop := {
  li_count : cid_lease_reservations (ls_client s) = holders s;
  li_time : cid_last_renew (ls_client s) <= ls_time s;
  li_expiring t : allowed Renew = false -> pc_of t s = Expiring -> lost s;
  li_expired : allowed Renew = false -> (forall ev, removal ev = true -> allowed ev = false) ->
    cid_confirmed (ls_client s) = EXPIRED_CLIENT_ID -> run_out s
}.

Context (Hlife : 0 < lease_lifetime <= UINT32_MAX).

Lemma valid_lease_spec t c :
  cid_last_renew c <= t ->
  valid_lease t c = true <->
  cid_confirmed c <> EXPIRED_CLIENT_ID /\
  (cid_lease_reservations c <> 0 \/ t < cid_last_renew c + lease_lifetime).
Proof using Hlife.
  intros Ht. unfold valid_lease, _valid_lease. rewrite negb_true_iff, Z.eqb_neq.
  case_decide; [naive_solver|]. destruct (Z.eqb_spec (cid_lease_reservations c) 0); simpl; [|naive_solver lia].
  destruct (Z.ltb_spec t (cid_last_renew c + lease_lifetime)).
  - rewrite u32_small by (unfold UINT32_MAX in *; lia). naive_solver lia.
  - naive_solver lia.
Qed.

Lemma pc_of_at t pc c s t' : pc_of t' (at_point t pc c s) = if decide (t = t') then pc else pc_of t' s.
Proof. unfold pc_of, at_point. simpl. rewrite lookup_insert. by case_decide. Qed.

Lemma holders_at t pc c s :
  holders (at_point t pc c s) = holders s - Z.b2z (is_holding (pc_of t s)) + Z.b2z (is_holding pc).
Proof. by apply (count_threads_insert Idle is_holding). Qed.

Lemma holding_pos t s : pc_of t s = Holding -> 0 < holders s.
Proof. intros H. apply (count_threads_pos Idle is_holding t); [done|]. unfold pc_of in H. by rewrite H. Qed.

Lemma holders_same t c s :
  is_holding (pc_of t s) = false -> holders (at_point t Idle c s) = holders s.
Proof. intros Hold. rewrite holders_at, Hold. simpl. lia. Qed.

Section preservation.
Context (allowed : lease_event -> bool).

Lemma valid_not_lost s :
  lease_inv allowed s -> valid_lease (ls_time s) (ls_client s) = true -> ~ lost s.
Proof using Hlife.
  intros [] Hv. apply valid_lease_spec in Hv as [Hne Hv]; [|done]. intros [?|[? ?]]; [done|lia].
Qed.

(** Reserving a valid lease. *)
Lemma lease_inv_reserve t s :
  lease_inv allowed s -> pc_of t s = Idle -> valid_lease (ls_time s) (ls_client s) = true ->
  lease_inv allowed
    (at_point t Holding (set_reservations (cid_lease_reservations (ls_client s) + 1) (ls_client s)) s).
Proof using Hlife.
  intros Hinv Hp Hv. pose proof (valid_not_lost s Hinv Hv) as Hnl. destruct Hinv.
  constructor; simpl; [rewrite holders_at, Hp; simpl; lia|done| |].
  - intros t' Hr. rewrite pc_of_at. case_decide; [done|]. intros He. by destruct Hnl; eauto.
  - intros _ _ He. destruct Hnl. by left.
Qed.

(** Releasing a reservation. *)
Lemma lease_inv_update t s :
  lease_inv allowed s -> pc_of t s = Holding ->
  lease_inv allowed (at_point t Idle (update_lease (ls_time s) (ls_client s)) s).
Proof using Hlife.
  intros [] Hp. pose proof (holding_pos t s Hp) as Hpos.
  assert (~ run_out s) as Hro by (intros [? ?]; lia).
  assert (cid_confirmed (update_lease (ls_time s) (ls_client s)) = cid_confirmed (ls_client s)) as Hc
    by (unfold update_lease; by case_match).
  constructor; simpl.
  - rewrite holders_at, Hp. unfold update_lease. case_match; simpl; lia.
  - unfold update_lease. case_match; simpl; lia.
  - intros t' Hr. rewrite pc_of_at. case_decide; [done|]. intros He. left. simpl. rewrite Hc.
    by destruct (li_expiring0 t' Hr He).
  - intros Hr Hrm He. rewrite Hc in He. by destruct Hro; auto.
Qed.

(** A thread moves, the record stays. *)
Lemma lease_inv_move t pc s :
  lease_inv allowed s -> is_holding (pc_of t s) = false -> is_holding pc = false ->
  (pc = Expiring -> allowed Renew = false -> lost s) -> lease_inv allowed (at_point t pc (ls_client s) s).
Proof.
  intros [] Hold Hnew He. constructor; [|done| |done].
  - cbn [ls_client at_point]. rewrite holders_at, Hold, Hnew. cbn. lia.
  - intros t' Hr. rewrite pc_of_at. case_decide; [by intros ->; apply He|]. intros Hp. by apply (li_expiring0 t').
Qed.

(** The state of the record changes. *)
Lemma lease_inv_confirmed t st s :
  lease_inv allowed s -> is_holding (pc_of t s) = false ->
  (cid_confirmed (ls_client s) = EXPIRED_CLIENT_ID -> st = EXPIRED_CLIENT_ID) ->
  (st = EXPIRED_CLIENT_ID -> allowed Renew = false -> (forall ev, removal ev = true -> allowed ev = false) ->
     run_out s) ->
  lease_inv allowed (at_point t Idle (set_confirmed st (ls_client s)) s).
Proof.
  intros [] Hold Hkeep Hexp. constructor; [by cbn [ls_client at_point]; rewrite holders_same|done| |].
  - intros t' Hr. rewrite pc_of_at. case_decide; [done|]. intros He.
    destruct (li_expiring0 t' Hr He) as [Hx|Hx]; [left; by apply Hkeep|by right].
  - intros Hr Hrm He. by apply Hexp.
Qed.

Lemma expire_set c : nfs_client_id_expire false c = set_confirmed EXPIRED_CLIENT_ID c.
Proof. unfold nfs_client_id_expire. case_decide as He; [|done]. destruct c. simpl in He. by subst. Qed.

Lemma invalid_lost s : lease_inv allowed s -> valid_lease (ls_time s) (ls_client s) = false -> lost s.
Proof using Hlife.
  intros [] Hv. apply not_true_iff_false in Hv. rewrite valid_lease_spec in Hv by done.
  destruct (decide (cid_confirmed (ls_client s) = EXPIRED_CLIENT_ID)); [by left|]. right.
  split; [apply dec_stable|apply Z.le_ngt]; intros ?; apply Hv; tauto.
Qed.

(** A removal that is allowed. *)
Lemma lease_inv_removed ev t s :
  lease_inv allowed s -> is_holding (pc_of t s) = false -> allowed ev = true -> removal ev = true ->
  lease_inv allowed (at_point t Idle (set_confirmed EXPIRED_CLIENT_ID (ls_client s)) s).
Proof.
  intros Hinv Hp Hev Hrm. apply lease_inv_confirmed; [done..|]. intros _ _ Hno. by rewrite (Hno ev Hrm) in Hev.
Qed.

Lemma lease_inv_reserve_step t update s :
  lease_inv allowed s -> pc_of t s = Idle -> lease_inv allowed (reserve_step t update s).
Proof using Hlife.
  intros Hinv Hp. unfold reserve_step. destruct (valid_lease (ls_time s) (ls_client s)) eqn:Hv.
  - unfold reserve_lease. unfold valid_lease in Hv. rewrite Hv.
    pose proof (lease_inv_reserve t s Hinv Hp Hv) as Hres. destruct update; [|done].
    pose proof (lease_inv_update t _ Hres) as Hup. rewrite pc_of_at, decide_True in Hup by done.
    specialize (Hup eq_refl). unfold at_point in *. simpl in *. by rewrite insert_insert_eq in Hup.
  - apply lease_inv_move; [done|by rewrite Hp|done|]. intros _ _. by apply invalid_lost.
Qed.

Lemma lease_inv_clock d s :
  0 <= d -> lease_inv allowed s ->
  lease_inv allowed {| ls_client := ls_client s; ls_time := ls_time s + d; ls_threads := ls_threads s |}.
Proof.
  intros Hd []. unfold lost, run_out in *. constructor; unfold lost, run_out; simpl; [done|lia| |].
  - intros t Hr He. destruct (li_expiring0 t Hr He) as [|[? ?]]; [by left|]. right. split; [done|lia].
  - intros Hr Hrm He. destruct (li_expired0 Hr Hrm He). split; [done|lia].
Qed.

Lemma lease_inv_renew t s :
  allowed Renew = true -> lease_inv allowed s -> pc_of t s = Idle ->
  lease_inv allowed (at_point t Idle (set_last_renew (ls_time s) (ls_client s)) s).
Proof.
  intros Hr [] Hp. constructor; simpl; [by rewrite holders_same by by rewrite Hp|lia|congruence|congruence].
Qed.

Lemma lease_step_inv ev s s' :
  lease_inv allowed s -> allowed ev = true -> lease_step s ev s' -> lease_inv allowed s'.
Proof using Hlife.
  intros Hinv Hev Hstep.
  destruct Hstep as [d Hd|t update Hp|t Hp Hr|t Hp|t Hp|t Hp|t Hp|t Hp|t Hp|t Hp|t Hp|t hs Hp|t Hp|t Hp|t Hp];
    try (assert (is_holding (pc_of t s) = false) as Hh by by rewrite Hp).
  - by apply lease_inv_clock.
  - by apply lease_inv_reserve_step.
  - unfold reserve_lease in *. simpl in *. rewrite Hr. by apply lease_inv_reserve.
  - by apply lease_inv_update.
  - unfold reap_step. destruct (valid_lease _ _) eqn:Hv; [done|]. apply lease_inv_move; try done.
    intros _ _. by apply invalid_lost.
  - rewrite expire_set. apply lease_inv_confirmed; try done. intros _ Hr Hrm.
    destruct (li_expiring _ _ Hinv t Hr Hp); [by apply (li_expired _ _ Hinv)|done].
  - unfold nfs_client_id_confirm. case_decide as He; [|by apply lease_inv_move].
    apply lease_inv_confirmed; congruence.
  - by apply lease_inv_renew.
  - rewrite expire_set. by apply (lease_inv_removed Replace).
  - unfold remove_confirmed_client_id. case_decide; [by apply (lease_inv_removed Remove)|by apply lease_inv_move].
  - unfold remove_unconfirmed_client_id. case_decide; [by apply (lease_inv_removed Remove)|by apply lease_inv_move].
  - unfold exchange_step. destruct (valid_lease _ _) eqn:Hv; simpl.
    + destruct hs; [done|]. by apply lease_inv_move.
    + apply lease_inv_move; try done. intros _ _. by apply invalid_lost.
  - rewrite expire_set. by apply (lease_inv_removed Collided).
  - unfold release_ip_step. case_decide; [by apply lease_inv_move|done].
  - unfold nfs_client_id_expire. case_decide; [by apply lease_inv_move|]. by apply lease_inv_confirmed.
Qed.

Lemma lease_reachable_inv s : lease_reachable allowed s -> lease_inv allowed s.
Proof using Hlife.
  induction 1 as [t|ev s s' _ IH Hev Hstep]; [|by eapply lease_step_inv].
  constructor; simpl; [by rewrite <- (count_threads_empty is_holding)|lia|done|done].
Qed.

End preservation.

(** The steps after which the record is expired and was not before. *)
Lemma expiring_steps ev s s' :
  lease_step s ev s' -> cid_confirmed (ls_client s) <> EXPIRED_CLIENT_ID ->
  cid_confirmed (ls_client s') = EXPIRED_CLIENT_ID ->
  removal ev = true \/ exists t, pc_of t s = Expiring.
Proof.
  intros Hstep Hne. destruct Hstep; simpl; intros He; eauto; exfalso; apply Hne; revert He;
    unfold reserve_step, reap_step, exchange_step, release_ip_step, reserve_lease, update_lease,
      nfs_client_id_confirm, nfs_client_id_expire; repeat (case_match; simpl; try done).
Qed.

(** C26: reservations protect the lease.  Take any interleaving of requests,
    call-backs, the reaper, the clock, the release of an address and the operations
    on client ids.  The reservation count is the number of threads that hold one,
    and as long as the client is not expired its lease is valid while one holds it.
    Where CREATE_SESSION and SETCLIENTID_CONFIRM do not renew the lease, a step that
    expires the client either finds no reservation held and the lifetime passed
    since the last renewal, or is one of the removals, which look at neither: the
    client id is replaced by CREATE_SESSION or SETCLIENTID_CONFIRM, collides with
    other credentials in EXCHANGE_ID while it has no state, or is removed by
    DESTROY_CLIENTID or as an unconfirmed record.  Where there are no removals
    either, no thread with a reservation sees its client expired. *)
Theorem lease_reservation_safe allowed ev s s' :
  lease_reachable allowed s -> allowed ev = true -> lease_step s ev s' ->
  cid_lease_reservations (ls_client s) = holders s /\
  (forall t, pc_of t s = Holding -> cid_confirmed (ls_client s) <> EXPIRED_CLIENT_ID ->
     valid_lease (ls_time s) (ls_client s) = true) /\
  (allowed Renew = false ->
     cid_confirmed (ls_client s) <> EXPIRED_CLIENT_ID -> cid_confirmed (ls_client s') = EXPIRED_CLIENT_ID ->
     removal ev = true \/ holders s = 0 /\ cid_last_renew (ls_client s) + lease_lifetime <= ls_time s) /\
  (allowed Renew = false -> (forall ev, removal ev = true -> allowed ev = false) ->
     forall t, pc_of t s = Holding -> cid_confirmed (ls_client s) <> EXPIRED_CLIENT_ID).
Proof using Hlife.
  intros Hr Hev Hstep. pose proof (lease_reachable_inv allowed s Hr) as Hinv.
  split; [apply Hinv|]. split; [|split].
  - intros t Hp Hne. pose proof (holding_pos t s Hp). rewrite <- (li_count _ _ Hinv) in *.
    apply valid_lease_spec; [apply Hinv|]. split; [done|]. left. lia.
  - intros Hren Hne He. destruct (expiring_steps ev s s' Hstep Hne He) as [|[t Hp]]; [by left|].
    right. rewrite <- (li_count _ _ Hinv). by destruct (li_expiring _ _ Hinv t Hren Hp).
  - intros Hren Hrm t Hp He. pose proof (holding_pos t s Hp).
    destruct (li_expired _ _ Hinv Hren Hrm He). rewrite <- (li_count _ _ Hinv) in *. lia.
Qed.

(** The remaining time of a lease.  For a client that is not expired and not
    reserved, [_valid_lease] is the number of seconds left, between 0 and the
    lifetime, whatever the 32-bit result type; a reserved client has the whole
    lifetime. *)
Theorem valid_lease_exact t c :
  cid_last_renew c <= t -> cid_confirmed c <> EXPIRED_CLIENT_ID ->
  _valid_lease t c = (if cid_lease_reservations c =? 0
                      then Z.max 0 (cid_last_renew c + lease_lifetime - t) else lease_lifetime) /\
  0 <= _valid_lease t c <= lease_lifetime.
Proof using Hlife.
  intros Ht Hne. unfold _valid_lease. rewrite decide_False by done.
  destruct (Z.eqb_spec (cid_lease_reservations c) 0); simpl; [|lia].
  destruct (Z.ltb_spec t (cid_last_renew c + lease_lifetime)); [rewrite u32_small|]; lia.
Qed.

End lease.

(** ** Concrete histories *)

(** A request of thread 1 holds the lease when the reaper looks at it. *)
Definition held_lease : lease_state :=
  reserve_step 60 1 false {| ls_client := new_client 100; ls_time := 100; ls_threads := ∅ |}.

(** Nothing renews the lease behind its holders and no client id is removed. *)
Definition plain (ev : lease_event) : bool := negb (removal ev) && negb (bool_decide (ev = Renew)).

Lemma lease_reservation_safe_witness :
  cid_lease_reservations (ls_client held_lease) = 1 /\ pc_of 1 held_lease = Holding /\
  valid_lease 60 (ls_time held_lease) (ls_client held_lease) = true.
Proof.
  destruct (lease_reservation_safe 60) with (allowed := plain) (ev := Reap) (s := held_lease)
    (s' := reap_step 60 2 held_lease) as (Hc & Hv & _ & Hh).
  - unfold UINT32_MAX. lia.
  - apply (lr_step 60 plain Reserve {| ls_client := new_client 100; ls_time := 100; ls_threads := ∅ |}).
    + apply lr_init.
    + vm_compute. reflexivity.
    + apply step_reserve. vm_compute. reflexivity.
  - vm_compute. reflexivity.
  - apply step_reap. vm_compute. reflexivity.
  - split; [rewrite Hc; vm_compute; reflexivity|]. split; [vm_compute; reflexivity|].
    apply (Hv 1%positive); [vm_compute; reflexivity|]. apply Hh with (t := 1%positive).
    + vm_compute. reflexivity.
    + intros ev Hev. unfold plain. rewrite Hev. reflexivity.
    + vm_compute. reflexivity.
Defined.

Lemma valid_lease_exact_witness : _valid_lease 60 110 (new_client 100) = 50.
Proof.
  destruct (valid_lease_exact 60) with (t := 110) (c := new_client 100) as [H _].
  - unfold UINT32_MAX. lia.
  - simpl. lia.
  - done.
  - rewrite H. vm_compute. reflexivity.
Defined.

(** CREATE_SESSION renews a lease that ran out after the reaper has looked at it:
    a request reserves it, and the reaper expires the client under the request. *)
Example renewal_races_with_reaper :
  exists s, lease_reachable 60 (fun ev => negb (removal ev)) s /\ pc_of 2 s = Holding /\
    cid_confirmed (ls_client s) = EXPIRED_CLIENT_ID.
Proof.
  eexists. split; [|split].
  - eapply lr_step; [| |apply (step_expire 60 _ 1)].
    1: eapply lr_step; [| |apply (step_reserve 60 _ 2 false)].
    1: eapply lr_step; [| |apply (step_renew 60 _ 2)].
    1: eapply lr_step; [| |apply (step_reap 60 _ 1)].
    1: eapply lr_step; [apply (lr_init 60 _ 0)| |apply (step_clock 60 _ 100); lia].
    all: vm_compute; reflexivity.
  - vm_compute. reflexivity.
  - vm_compute. reflexivity.
Qed.

(** A client that restarts gets a new client id: CREATE_SESSION expires the old one
    while a request of it holds a reservation of its lease. *)
Example replaced_under_reservation :
  exists s, lease_reachable 60 (fun ev => negb (bool_decide (ev = Renew))) s /\ pc_of 1 s = Holding /\
    cid_confirmed (ls_client s) = EXPIRED_CLIENT_ID.
Proof.
  eexists. split; [|split].
  - eapply lr_step; [| |apply (step_replace 60 _ 2)].
    1: eapply lr_step; [| |apply (step_reserve 60 _ 1 false)].
    1: eapply lr_step; [apply (lr_init 60 _ 0)| |apply (step_confirm 60 _ 2)].
    all: vm_compute; reflexivity.
  - vm_compute. reflexivity.
  - vm_compute. reflexivity.
Qed.
