(* ===== verification/Session.v ===== *)
(** * NFSv4.1 sessions

    The sessions, their slots and the reply cache behind them:
    [SAL/nfs41_session_id.c], the reference counts of compound responses
    ([release_nfs4_res_compound], [release_slot]), and the expiry of a client with its
    sessions ([reserve_lease_or_expire], [nfs_client_id_expire]). *)
From S2P Require Import Prelude Status Owners Lease.
Local Open Scope Z_scope.

(** ** Data *)

(** The body of the response of one operation: that of SEQUENCE
    ([SEQUENCE4resok]), or one of another operation ([B]). *)
Inductive resop_body (B : Type) : Type :=
  | no_body
  | sr_resok4 (sr_sessionid sr_sequenceid sr_slotid sr_highest_slotid sr_target_highest_slotid
               sr_status_flags : Z)
  | op_body (b : B).
Arguments no_body {B}.
Arguments sr_resok4 {B}.
Arguments op_body {B}.

(** [nfs_resop4]; all responses have the status in the same place. *)
Record nfs_resop4 (B : Type) : Type := {
  resop : Z;
  res_status : nfsstat4;
  res_body : resop_body B
}.
Arguments resop {B}.
Arguments res_status {B}.
Arguments res_body {B}.

(** [COMPOUND4res_extended]: the response of a compound, with its reference count.
    The array is allocated for all operations; [resarray_len] says how many are
    sent. *)
Record COMPOUND4res_extended (B : Type) : Type := {
  c_status : nfsstat4;
  resarray_len : nat;
  resarray_val : list (nfs_resop4 B);
  res_refcnt : Z
}.
Arguments c_status {B}.
Arguments resarray_len {B}.
Arguments resarray_val {B}.
Arguments res_refcnt {B}.

(** [struct nfs41_cached_req], without the time of completion, which is only
    logged. *)
Record nfs41_cached_req : Set := {
  opcodes : list Z;
  xid : Z;
  seq_id : Z
}.

Record nfs41_session_slot_t : Set := {
  sequence : Z;
  cached_result : option positive;
  last_req : nfs41_cached_req
}.

(** The attributes of the fore channel that the server looks at. *)
Record channel_attrs4 : Set := {
  ca_maxresponsesize : Z;
  ca_maxresponsesize_cached : Z;
  ca_maxoperations : Z;
  ca_maxrequests : Z
}.

Record nfs41_session_t : Set := {
  session_id : Z;
  fore_channel_attrs : channel_attrs4;
  connections : list sockaddr_t;
  clientid_record : positive;
  refcount : Z;
  nb_slots : Z;
  fc_slots : list nfs41_session_slot_t
}.
Definition NFS41_MAX_CONNECTIONS : nat := 16.

(** The responses, the sessions, the table of session ids with the counter it is
    numbered by, the leases of the clients, and the state the operations work on. *)
Record session_world (B S : Type) : Type := {
  sw_res : gmap positive (COMPOUND4res_extended B);
  sw_sessions : gmap positive nfs41_session_t;
  sw_table : gmap Z positive;
  sw_global_sequence : Z;
  sw_clients : gmap positive nfs_client_id_t;
  sw_server : S
}.
Arguments sw_res {B S}.
Arguments sw_sessions {B S}.
Arguments sw_table {B S}.
Arguments sw_global_sequence {B S}.
Arguments sw_clients {B S}.
Arguments sw_server {B S}.

Section session.
Context {B S : Type}.
Abbreviation world := (session_world B S).
Abbreviation WM := (M world).
Implicit Types (w : world) (p r : positive).

Definition set_res (f : gmap positive (COMPOUND4res_extended B) -> gmap positive (COMPOUND4res_extended B))
    w : world :=
  {| sw_res := f (sw_res w); sw_sessions := sw_sessions w; sw_table := sw_table w;
     sw_global_sequence := sw_global_sequence w; sw_clients := sw_clients w; sw_server := sw_server w |}.
Definition set_sessions (f : gmap positive nfs41_session_t -> gmap positive nfs41_session_t) w : world :=
  {| sw_res := sw_res w; sw_sessions := f (sw_sessions w); sw_table := sw_table w;
     sw_global_sequence := sw_global_sequence w; sw_clients := sw_clients w; sw_server := sw_server w |}.
Definition set_table (f : gmap Z positive -> gmap Z positive) w : world :=
  {| sw_res := sw_res w; sw_sessions := sw_sessions w; sw_table := f (sw_table w);
     sw_global_sequence := sw_global_sequence w; sw_clients := sw_clients w; sw_server := sw_server w |}.
Definition set_global_sequence (n : Z) w : world :=
  {| sw_res := sw_res w; sw_sessions := sw_sessions w; sw_table := sw_table w;
     sw_global_sequence := n; sw_clients := sw_clients w; sw_server := sw_server w |}.
Definition set_clients (f : gmap positive nfs_client_id_t -> gmap positive nfs_client_id_t) w : world :=
  {| sw_res := sw_res w; sw_sessions := sw_sessions w; sw_table := sw_table w;
     sw_global_sequence := sw_global_sequence w; sw_clients := f (sw_clients w); sw_server := sw_server w |}.
Definition set_server (f : S -> S) w : world :=
  {| sw_res := sw_res w; sw_sessions := sw_sessions w; sw_table := sw_table w;
     sw_global_sequence := sw_global_sequence w; sw_clients := sw_clients w; sw_server := f (sw_server w) |}.

Definition get_res r : WM (COMPOUND4res_extended B) := fun w =>
  match sw_res w !! r with Some c => Some (c, w) | None => None end.
Definition get_session p : WM nfs41_session_t := fun w =>
  match sw_sessions w !! p with Some s => Some (s, w) | None => None end.
Definition get_client cl : WM nfs_client_id_t := fun w =>
  match sw_clients w !! cl with Some c => Some (c, w) | None => None end.

Definition with_refcnt (n : Z) (c : COMPOUND4res_extended B) : COMPOUND4res_extended B :=
  {| c_status := c_status c; resarray_len := resarray_len c; resarray_val := resarray_val c;
     res_refcnt := n |}.
Definition with_refcount (n : Z) (s : nfs41_session_t) : nfs41_session_t :=
  {| session_id := session_id s; fore_channel_attrs := fore_channel_attrs s; connections := connections s;
     clientid_record := clientid_record s; refcount := n; nb_slots := nb_slots s; fc_slots := fc_slots s |}.
Definition with_connections (l : list sockaddr_t) (s : nfs41_session_t) : nfs41_session_t :=
  {| session_id := session_id s; fore_channel_attrs := fore_channel_attrs s; connections := l;
     clientid_record := clientid_record s; refcount := refcount s; nb_slots := nb_slots s;
     fc_slots := fc_slots s |}.
Definition with_slots (l : list nfs41_session_slot_t) (s : nfs41_session_t) : nfs41_session_t :=
  {| session_id := session_id s; fore_channel_attrs := fore_channel_attrs s; connections := connections s;
     clientid_record := clientid_record s; refcount := refcount s; nb_slots := nb_slots s; fc_slots := l |}.

Definition with_sequence (n : Z) (sl : nfs41_session_slot_t) : nfs41_session_slot_t :=
  {| sequence := n; cached_result := cached_result sl; last_req := last_req sl |}.
Definition with_cached (r : option positive) (sl : nfs41_session_slot_t) : nfs41_session_slot_t :=
  {| sequence := sequence sl; cached_result := r; last_req := last_req sl |}.
Definition with_last_req (q : nfs41_cached_req) (sl : nfs41_session_slot_t) : nfs41_session_slot_t :=
  {| sequence := sequence sl; cached_result := cached_result sl; last_req := q |}.

(** A slot of a session; undefined outside the array. *)
Definition get_slot p (i : nat) : WM nfs41_session_slot_t :=
  s ← get_session p;
  deref (fc_slots s !! i).
Definition upd_slot p (i : nat) (f : nfs41_session_slot_t -> nfs41_session_slot_t) : WM unit :=
  s ← get_session p;
  sl ← deref (fc_slots s !! i);
  modify (set_sessions <[p := with_slots (<[i := f sl]> (fc_slots s)) s]>).

(** ** References *)

Definition release_nfs4_res_compound r : WM unit :=
  c ← get_res r;
  let refcnt := res_refcnt c - 1 in
  if refcnt <? 0 then undef
  else if 0 <? refcnt then modify (set_res <[r := with_refcnt refcnt c]>)
  else modify (set_res (delete r)).

Definition inc_res_refcnt r : WM unit :=
  c ← get_res r;
  modify (set_res <[r := with_refcnt (res_refcnt c + 1) c]>).

Definition release_slot p (i : nat) : WM unit :=
  sl ← get_slot p i;
  match cached_result sl with
  | Some r => release_nfs4_res_compound r;; upd_slot p i (with_cached None)
  | None => mret tt
  end.

Definition inc_session_ref p : WM unit :=
  s ← get_session p;
  modify (set_sessions <[p := with_refcount (refcount s + 1) s]>).

(** The loop of [dec_session_ref] over the slots of a session that goes away. *)
Fixpoint release_slots p (n : nat) : WM unit :=
  match n with
  | O => mret tt
  | Datatypes.S n' => release_slots p n';; release_slot p n'
  end.

Definition dec_session_ref p : WM unit :=
  s ← get_session p;
  let refcnt := refcount s - 1 in
  if refcnt <? 0 then undef else
  modify (set_sessions <[p := with_refcount refcnt s]>);;
  if refcnt =? 0 then
    release_slots p (Z.to_nat (nb_slots s));;
    modify (set_sessions (delete p))
  else mret tt.

(** ** The table of sessions *)

Definition nfs41_Session_Get_Pointer (sessionid : Z) : WM (option positive) :=
  o ← gets (fun w => sw_table w !! sessionid);
  match o with
  | None => mret None
  | Some p => inc_session_ref p;; mret (Some p)
  end.

Definition nfs41_Session_Del (sessionid : Z) : WM bool :=
  o ← gets (fun w => sw_table w !! sessionid);
  match o with
  | None => mret false
  | Some p =>
      modify (set_table (delete sessionid));;
      dec_session_ref p;;
      mret true
  end.

(** [nfs41_Build_sessionid]: the counter is all that tells two ids of a client
    apart. *)
Definition nfs41_Build_sessionid : WM Z :=
  seq ← gets (fun w => sw_global_sequence w + 1);
  modify (set_global_sequence seq);;
  mret seq.

Definition nfs41_Session_Set (p : positive) : WM bool :=
  s ← get_session p;
  o ← gets (fun w => sw_table w !! session_id s);
  match o with
  | Some _ => mret false
  | None => modify (set_table <[session_id s := p]>);; mret true
  end.

Definition fresh_slot : nfs41_session_slot_t :=
  {| sequence := 0; cached_result := None; last_req := {| opcodes := []; xid := 0; seq_id := 0 |} |}.

(** The part of [nfs4_op_create_session] that makes the session, for a client [found]
    and the attributes asked for; [nb] is the configured number of slots.  The
    reference of the call path is given back at the end. *)
Definition create_session (nb : Z) (addr : sockaddr_t) (found : positive) (attrs : channel_attrs4) :
    WM nfsstat4 :=
  p ← gets (fun w => fresh (dom (sw_sessions w)));
  let nb_slots := Z.min nb (ca_maxrequests attrs) in
  sessionid ← nfs41_Build_sessionid;
  modify (set_sessions <[p :=
    {| session_id := sessionid;
       fore_channel_attrs :=
         {| ca_maxresponsesize := ca_maxresponsesize attrs;
            ca_maxresponsesize_cached := ca_maxresponsesize_cached attrs;
            ca_maxoperations := ca_maxoperations attrs; ca_maxrequests := nb_slots |};
       connections := [addr]; clientid_record := found; refcount := 2; nb_slots := nb_slots;
       fc_slots := replicate (Z.to_nat nb_slots) fresh_slot |}]>);;
  ok ← nfs41_Session_Set p;
  if negb ok then dec_session_ref p;; dec_session_ref p;; mret NFS4ERR_SERVERFAULT
  else dec_session_ref p;; mret NFS4_OK.

(** [check_session_conn]: the second pass under the write lock finds what the first
    one did. *)
Definition check_session_conn p (addr : sockaddr_t) (can_associate : bool) : WM bool :=
  s ← get_session p;
  if existsb (fun c => cmp_sockaddr addr c false) (connections s) then mret true
  else if negb can_associate || bool_decide (length (connections s) = NFS41_MAX_CONNECTIONS)
  then mret false
  else
    modify (set_sessions <[p := with_connections (connections s ++ [addr]) s]>);;
    mret true.

(** ** Leases *)
Section client.
Context (lease_lifetime : Z) (expire_state : positive -> S -> S).

Fixpoint delete_sessions (l : list positive) : WM unit :=
  match l with
  | [] => mret tt
  | p :: l' =>
      s ← get_session p;
      nfs41_Session_Del (session_id s);;
      delete_sessions l'
  end.

(** The sessions of a client: its [cb_session_list]. *)
Definition client_sessions (cl : positive) w : list positive :=
  fst <$> filter (fun ps => clientid_record ps.2 = cl) (map_to_list (sw_sessions w)).

(** [nfs_client_id_expire] without [make_stale]: the record, what the client's locks, opens and
    layouts leave behind ([expire_state]), and its sessions. *)
Definition expire_client (cl : positive) : WM unit :=
  c ← get_client cl;
  if decide (cid_confirmed c = EXPIRED_CLIENT_ID) then mret tt else
  modify (set_clients <[cl := nfs_client_id_expire false c]>);;
  modify (set_server (expire_state cl));;
  l ← gets (client_sessions cl);
  delete_sessions l.

Definition client_reserve_or_expire (now : Z) (cl : positive) : WM bool :=
  c ← get_client cl;
  if valid_lease lease_lifetime now c then
    modify (set_clients <[cl := (reserve_lease lease_lifetime now c).2]>);;
    mret true
  else expire_client cl;; mret false.

Definition client_update_lease (now : Z) (cl : positive) : WM unit :=
  c ← get_client cl;
  modify (set_clients <[cl := update_lease now c]>).

End client.
End session.
