(* ===== verification/Compound.v ===== *)
(** * The NFSv4 COMPOUND procedure

    [Protocols/NFS/nfs4_Compound.c] and [nfs4_op_sequence.c]: the checks on a compound,
    its loop over the operations, SEQUENCE with the slot table, and the reply cache.
    The other operations are the functions of an operation table. *)
From S2P Require Import Prelude Status Owners Lease Session.
Local Open Scope Z_scope.

Inductive nfs_req_result : Set :=
  | NFS_REQ_OK | NFS_REQ_DROP | NFS_REQ_ERROR | NFS_REQ_REPLAY
  | NFS_REQ_ASYNC_WAIT | NFS_REQ_XPRT_DIED | NFS_REQ_AUTH_ERR.

#[export] Instance nfs_req_result_eq_dec : EqDecision nfs_req_result.
Proof. solve_decision. Defined.

Definition NFS4_OP_RELEASE_LOCKOWNER : Z := 39.
Definition NFS4_OP_BIND_CONN_TO_SESSION : Z := 41.
Definition NFS4_OP_EXCHANGE_ID : Z := 42.
Definition NFS4_OP_CREATE_SESSION : Z := 43.
Definition NFS4_OP_DESTROY_SESSION : Z := 44.
Definition NFS4_OP_SEQUENCE : Z := 53.
Definition NFS4_OP_DESTROY_CLIENTID : Z := 57.
Definition NFS4_OP_RECLAIM_COMPLETE : Z := 58.
Definition NFS4_OP_REMOVEXATTR : Z := 75.
Definition NFS4_OP_ILLEGAL : Z := 10044.
Definition NFS4_MAX_OPERATIONS : nat := 100.
Definition VARIABLE_RESP_SIZE : Z := 0.
Definition EXPORT_OPTION_MODIFY_ACCESS : Z := Z.lor 64 256.

(** The last operation of each minor version. *)
Definition LastOpcode (minorversion : Z) : Z :=
  if minorversion =? 0 then NFS4_OP_RELEASE_LOCKOWNER
  else if minorversion =? 1 then NFS4_OP_RECLAIM_COMPLETE
  else NFS4_OP_REMOVEXATTR.

(** [nfs_argop4]; [A] are the arguments of the operations other than SEQUENCE and
    DESTROY_SESSION. *)
Inductive nfs_argop4 (A : Type) : Type :=
  | opsequence (sa_sessionid sa_slotid sa_sequenceid : Z) (sa_cachethis : bool)
  | opdestroy_session (dsa_sessionid : Z)
  | other_op (op : Z) (a : A).
Arguments opsequence {A}.
Arguments opdestroy_session {A}.
Arguments other_op {A}.

Definition argop {A} (o : nfs_argop4 A) : Z :=
  match o with
  | opsequence _ _ _ _ => NFS4_OP_SEQUENCE
  | opdestroy_session _ => NFS4_OP_DESTROY_SESSION
  | other_op op _ => op
  end.

(** What an operation of the table leaves: its result code, the response, its size, the
    context of the compound (file handles, export) and the state of the server. *)
Record op_result (B C S : Type) : Type := {
  or_ok : bool;
  or_resop : Z;
  or_status : nfsstat4;
  or_body : B;
  or_resp_size : Z;
  or_ctx : C;
  or_server : S
}.
Arguments or_ok {B C S}.
Arguments or_resop {B C S}.
Arguments or_status {B C S}.
Arguments or_body {B C S}.
Arguments or_resp_size {B C S}.
Arguments or_ctx {B C S}.
Arguments or_server {B C S}.

(** The operation table [optabv4] and what else the compound asks for: the sizes the
    compiler and the configuration fix, the permissions of the current export
    and the state of the back channel. *)
Class Ops (A B C S : Type) := {
  lease_lifetime : Z;
  default_max_resp_room : Z;
  compound_res_size : Z;
  minor_versions : Z;
  resp_size : Z -> Z;
  exp_perm_flags : Z -> Z;
  Is_Fh_Empty : C -> nfsstat4;
  export_options : C -> Z;
  funct : Z -> nfs_argop4 A -> Z -> C -> S -> op_result B C S;
  chan_down : positive -> S -> bool;
  expire_state : positive -> S -> S
}.

(** A compound as it arrives: what the RPC layer knows of it, and its arguments. *)
Record compound_request (A C : Type) : Type := {
  rq_minorversion : Z;
  rq_tag_ok : bool;
  rq_cred_ok : bool;
  rq_addr : sockaddr_t;
  rq_xid : Z;
  rq_ctx : C;
  rq_argarray : list (nfs_argop4 A)
}.
Arguments rq_minorversion {A C}.
Arguments rq_tag_ok {A C}.
Arguments rq_cred_ok {A C}.
Arguments rq_addr {A C}.
Arguments rq_xid {A C}.
Arguments rq_ctx {A C}.
Arguments rq_argarray {A C}.

(** [compound_data_t].  [d_slot] is the slot by its session and index, [d_res] the response. *)
Record compound_data (C : Type) : Type := {
  d_ctx : C;
  d_session : option positive;
  d_slot : option (positive * nat);
  d_sequence : Z;
  sa_cachethis : bool;
  preserved_clientid : option positive;
  cached_result_status : nfsstat4;
  d_resp_size : Z;
  op_resp_size : Z;
  d_res : positive
}.
Arguments d_ctx {C}.
Arguments d_session {C}.
Arguments d_slot {C}.
Arguments d_sequence {C}.
Arguments sa_cachethis {C}.
Arguments preserved_clientid {C}.
Arguments cached_result_status {C}.
Arguments d_resp_size {C}.
Arguments op_resp_size {C}.
Arguments d_res {C}.

Section compound.
Context {A B C S : Type} `{Ops A B C S}.
Abbreviation world := (session_world B S).
Abbreviation WM := (M world).
Abbreviation data_t := (compound_data C).
Implicit Types (w : world) (data : data_t) (p r : positive).

Definition set_op_resp_size (n : Z) data : data_t :=
  {| d_ctx := d_ctx data; d_session := d_session data; d_slot := d_slot data;
     d_sequence := d_sequence data; sa_cachethis := sa_cachethis data;
     preserved_clientid := preserved_clientid data; cached_result_status := cached_result_status data;
     d_resp_size := d_resp_size data; op_resp_size := n; d_res := d_res data |}.
Definition add_resp_size (n : Z) data : data_t :=
  {| d_ctx := d_ctx data; d_session := d_session data; d_slot := d_slot data;
     d_sequence := d_sequence data; sa_cachethis := sa_cachethis data;
     preserved_clientid := preserved_clientid data; cached_result_status := cached_result_status data;
     d_resp_size := u32 (d_resp_size data + n); op_resp_size := op_resp_size data; d_res := d_res data |}.
Definition set_ctx (c : C) data : data_t :=
  {| d_ctx := c; d_session := d_session data; d_slot := d_slot data;
     d_sequence := d_sequence data; sa_cachethis := sa_cachethis data;
     preserved_clientid := preserved_clientid data; cached_result_status := cached_result_status data;
     d_resp_size := d_resp_size data; op_resp_size := op_resp_size data; d_res := d_res data |}.
Definition set_preserved (cl : positive) data : data_t :=
  {| d_ctx := d_ctx data; d_session := d_session data; d_slot := d_slot data;
     d_sequence := d_sequence data; sa_cachethis := sa_cachethis data;
     preserved_clientid := Some cl; cached_result_status := cached_result_status data;
     d_resp_size := d_resp_size data; op_resp_size := op_resp_size data; d_res := d_res data |}.
(** SEQUENCE on a slot: a new request, and one found in the cache. *)
Definition set_slot (session : option positive) (slot : positive * nat) (seq : Z) (cachethis : bool) data : data_t :=
  {| d_ctx := d_ctx data; d_session := session; d_slot := Some slot;
     d_sequence := seq; sa_cachethis := cachethis;
     preserved_clientid := preserved_clientid data; cached_result_status := cached_result_status data;
     d_resp_size := d_resp_size data; op_resp_size := op_resp_size data; d_res := d_res data |}.
Definition set_replay (slot : positive * nat) (r : positive) (st : nfsstat4) data : data_t :=
  {| d_ctx := d_ctx data; d_session := d_session data; d_slot := Some slot;
     d_sequence := d_sequence data; sa_cachethis := sa_cachethis data;
     preserved_clientid := preserved_clientid data; cached_result_status := st;
     d_resp_size := d_resp_size data; op_resp_size := op_resp_size data; d_res := r |}.

(** ** The response *)

Definition upd_res r (f : COMPOUND4res_extended B -> COMPOUND4res_extended B) : WM unit :=
  c ← get_res r;
  modify (set_res <[r := f c]>).
Definition with_c_status (st : nfsstat4) (c : COMPOUND4res_extended B) : COMPOUND4res_extended B :=
  {| c_status := st; resarray_len := resarray_len c; resarray_val := resarray_val c;
     res_refcnt := res_refcnt c |}.
Definition with_len (n : nat) (c : COMPOUND4res_extended B) : COMPOUND4res_extended B :=
  {| c_status := c_status c; resarray_len := n; resarray_val := resarray_val c;
     res_refcnt := res_refcnt c |}.
Definition with_resop (i : nat) (v : nfs_resop4 B) (c : COMPOUND4res_extended B) : COMPOUND4res_extended B :=
  {| c_status := c_status c; resarray_len := resarray_len c; resarray_val := <[i := v]> (resarray_val c);
     res_refcnt := res_refcnt c |}.
Definition with_array (l : list (nfs_resop4 B)) (c : COMPOUND4res_extended B) : COMPOUND4res_extended B :=
  {| c_status := c_status c; resarray_len := length l; resarray_val := l; res_refcnt := res_refcnt c |}.

Definition zero_resop : nfs_resop4 B := {| resop := 0; res_status := NFS4_OK; res_body := no_body |}.
Definition new_res : COMPOUND4res_extended B :=
  {| c_status := NFS4_OK; resarray_len := 0; resarray_val := []; res_refcnt := 1 |}.

(** [gsh_calloc] of a response, with its first reference. *)
Definition alloc_res (c : COMPOUND4res_extended B) : WM positive :=
  r ← gets (fun w => fresh (dom (sw_res w)));
  modify (set_res <[r := c]>);;
  mret r.

(** [check_resp_room], [Protocols/NFS/nfs_proto_tools.c]; enumerations have four bytes. *)
Definition check_resp_room (minorversion : Z) data (size : Z) : WM nfsstat4 :=
  let test_response_size := u32 (d_resp_size data + 4 + size + 4 + 4) in
  match (if minorversion =? 0 then None else d_session data) with
  | None => mret (if default_max_resp_room <? test_response_size then NFS4ERR_RESOURCE else NFS4_OK)
  | Some p =>
      s ← get_session p;
      mret (if ca_maxresponsesize (fore_channel_attrs s) <? test_response_size then NFS4ERR_REP_TOO_BIG
            else if negb (sa_cachethis data) then NFS4_OK
            else if ca_maxresponsesize_cached (fore_channel_attrs s) <? test_response_size
            then NFS4ERR_REP_TOO_BIG_TO_CACHE else NFS4_OK)
  end.

Definition get_nfs4_opcodes (args : list (nfs_argop4 A)) : list Z := argop <$> args.

(** [check_replay_request] only writes to the log: whether the request in the slot had the
    same operations. *)
Definition check_replay_request (args : list (nfs_argop4 A)) (slot : nfs41_session_slot_t)
    (req_seq_id : Z) : bool :=
  if negb (seq_id (last_req slot) =? req_seq_id) then true
  else bool_decide (get_nfs4_opcodes args = opcodes (last_req slot)).

(** ** SEQUENCE *)

(** The result of an operation: code, status, body, and the compound data. *)
Definition op_ret : Type := nfs_req_result * nfsstat4 * resop_body B * data_t.

Definition nfs4_op_sequence (now : Z) (q : compound_request A C) data
    (sa_sessionid sa_slotid sa_sequenceid : Z) (cachethis : bool) : WM op_ret :=
  if rq_minorversion q =? 0 then mret (NFS_REQ_ERROR, NFS4ERR_INVAL, no_body, data) else
  o ← nfs41_Session_Get_Pointer sa_sessionid;
  match o with
  | None => mret (NFS_REQ_ERROR, NFS4ERR_BADSESSION, no_body, data)
  | Some session =>
  s ← get_session session;
  ok ← client_reserve_or_expire lease_lifetime expire_state now (clientid_record s);
  if negb ok then
    dec_session_ref session;;
    mret (NFS_REQ_ERROR, NFS4ERR_EXPIRED, no_body, data)
  else
  let data := set_preserved (clientid_record s) data in
  if ca_maxrequests (fore_channel_attrs s) <=? sa_slotid then
    dec_session_ref session;;
    mret (NFS_REQ_ERROR, NFS4ERR_BADSLOT, no_body, data)
  else
  let slotid := Z.to_nat sa_slotid in
  slot ← get_slot session slotid;
  if negb (u32 (sequence slot + 1) =? sa_sequenceid) then
    if sequence slot =? sa_sequenceid then
      match cached_result slot with
      | Some cached =>
          release_nfs4_res_compound (d_res data);;
          inc_res_refcnt cached;;
          c ← get_res cached;
          dec_session_ref session;;
          mret (NFS_REQ_REPLAY, NFS4_OK, no_body, set_replay (session, slotid) cached (c_status c) data)
      | None =>
          dec_session_ref session;;
          mret (NFS_REQ_ERROR, NFS4ERR_RETRY_UNCACHED_REP, no_body, data)
      end
    else
      dec_session_ref session;;
      mret (NFS_REQ_ERROR, NFS4ERR_SEQ_MISORDERED, no_body, data)
  else
  upd_slot session slotid (with_sequence (u32 (sequence slot + 1)));;
  release_slot session slotid;;
  srv ← gets sw_server;
  let body := sr_resok4 sa_sessionid (u32 (sequence slot + 1)) sa_slotid (u32 (nb_slots s - 1))
                (u32 (ca_maxrequests (fore_channel_attrs s) - 1))
                (if chan_down (clientid_record s) srv then 1 else 0) in
  let data := set_slot (Some session) (session, slotid) sa_sequenceid cachethis data in
  status ← check_resp_room (rq_minorversion q) data (op_resp_size data);
  if decide (status <> NFS4_OK) then
    dec_session_ref session;;
    mret (NFS_REQ_ERROR, status, body,
          set_op_resp_size 4 (set_slot None (session, slotid) sa_sequenceid cachethis data))
  else
    check_session_conn session (rq_addr q) true;;
    mret (NFS_REQ_OK, NFS4_OK, body, data)
  end.

Definition nfs4_op_destroy_session (q : compound_request A C) data (dsa_sessionid : Z) : WM op_ret :=
  if rq_minorversion q =? 0 then mret (NFS_REQ_ERROR, NFS4ERR_INVAL, no_body, data) else
  o ← nfs41_Session_Get_Pointer dsa_sessionid;
  match o with
  | None => mret (NFS_REQ_ERROR, NFS4ERR_BADSESSION, no_body, data)
  | Some session =>
      bound ← check_session_conn session (rq_addr q) false;
      if negb bound then
        dec_session_ref session;;
        mret (NFS_REQ_ERROR, NFS4ERR_CONN_NOT_BOUND_TO_SESSION, no_body, data)
      else
        deleted ← nfs41_Session_Del dsa_sessionid;
        dec_session_ref session;;
        mret (if (deleted : bool) then (NFS_REQ_OK, NFS4_OK, no_body, data)
              else (NFS_REQ_ERROR, NFS4ERR_BADSESSION, no_body, data))
  end.

(** ** One operation *)

(** The checks of [process_one_op] before the call, in order; [NFS4_OK] to go on. *)
Definition op_checks (q : compound_request A C) data (oppos : nat) (arg : nfs_argop4 A) (opcode : Z) :
    WM nfsstat4 :=
  let past_first := (0 <? Z.of_nat oppos) in
  if past_first && (opcode =? NFS4_OP_BIND_CONN_TO_SESSION) then mret NFS4ERR_NOT_ONLY_OP else
  if past_first && (opcode =? NFS4_OP_SEQUENCE) then mret NFS4ERR_SEQUENCE_POS else
  let session_compare :=
    match rq_argarray q !! 0%nat, arg with
    | Some (opsequence sid _ _ _), opdestroy_session dsid => sid =? dsid
    | _, _ => false
    end in
  if past_first && (opcode =? NFS4_OP_DESTROY_SESSION) && session_compare
     && negb (bool_decide (Datatypes.S oppos = length (rq_argarray q)))
  then mret NFS4ERR_NOT_ONLY_OP else
  too_many ← match (if rq_minorversion q =? 0 then None else d_session data) with
             | None => mret false
             | Some p => s ← get_session p; mret (ca_maxoperations (fore_channel_attrs s) =? Z.of_nat oppos)
             end;
  if (too_many : bool) then mret NFS4ERR_TOO_MANY_OPS else
  let perm_flags := exp_perm_flags opcode in
  let perms :=
    if perm_flags =? 0 then NFS4_OK
    else if decide (Is_Fh_Empty (d_ctx data) <> NFS4_OK) then Is_Fh_Empty (d_ctx data)
    else if Z.land (export_options (d_ctx data)) perm_flags =? perm_flags then NFS4_OK
    else if Z.land perm_flags EXPORT_OPTION_MODIFY_ACCESS =? 0 then NFS4ERR_ACCESS else NFS4ERR_ROFS in
  if decide (perms <> NFS4_OK) then mret perms else
  check_resp_room (rq_minorversion q) data (resp_size opcode).

(** The call through the table. *)
Definition op_call (now : Z) (q : compound_request A C) data (arg : nfs_argop4 A) (opcode : Z) :
    WM (op_ret * Z) :=
  match (if opcode =? 0 then None else Some arg) with
  | Some (opsequence sid slot seq cachethis) =>
      r ← nfs4_op_sequence now q data sid slot seq cachethis; mret (r, NFS4_OP_SEQUENCE)
  | Some (opdestroy_session sid) =>
      r ← nfs4_op_destroy_session q data sid; mret (r, NFS4_OP_DESTROY_SESSION)
  | _ =>
      srv ← gets sw_server;
      let o := funct opcode arg (rq_minorversion q) (d_ctx data) srv in
      modify (set_server (fun _ => or_server o));;
      mret (if or_ok o then NFS_REQ_OK else NFS_REQ_ERROR, or_status o, op_body (or_body o),
            set_op_resp_size (or_resp_size o) (set_ctx (or_ctx o) data), or_resop o)
  end.

(** [complete_op]: the status of the compound so far, and the size of the response. *)
Definition complete_op data (oppos : nat) (opcode : Z) (result : nfs_req_result) (status : nfsstat4) :
    WM (nfs_req_result * nfsstat4 * data_t) :=
  if decide (result = NFS_REQ_REPLAY) then mret (result, cached_result_status data, data) else
  let data :=
    if bool_decide (status <> NFS4_OK)
       && (negb (resp_size opcode =? VARIABLE_RESP_SIZE) || (op_resp_size data =? VARIABLE_RESP_SIZE))
    then set_op_resp_size 4 data else data in
  let data := add_resp_size (4 + op_resp_size data) data in
  (if decide (result = NFS_REQ_ERROR) then upd_res (d_res data) (with_len (Datatypes.S oppos)) else mret tt);;
  mret (result, status, data).

Definition process_one_op (now : Z) (q : compound_request A C) data (oppos : nat) (arg : nfs_argop4 A) :
    WM (nfs_req_result * nfsstat4 * data_t) :=
  let data := set_op_resp_size 4 data in
  let opcode := if LastOpcode (rq_minorversion q) <? argop arg then 0 else argop arg in
  bad ← op_checks q data oppos arg opcode;
  if decide (bad <> NFS4_OK) then
    upd_res (d_res data) (with_resop oppos {| resop := opcode; res_status := bad; res_body := no_body |});;
    upd_res (d_res data) (with_len (Datatypes.S oppos));;
    mret (NFS_REQ_ERROR, bad, add_resp_size 8 data)
  else
    let data := set_op_resp_size (resp_size opcode) data in
    out ← op_call now q data arg opcode;
    let '(result, status, body, data, resop) := out in
    (if decide (result = NFS_REQ_REPLAY) then mret tt
     else upd_res (d_res data) (with_resop oppos {| resop := resop; res_status := status; res_body := body |}));;
    complete_op data oppos opcode result status.

(** The loop over the operations. *)
Fixpoint process_ops (now : Z) (q : compound_request A C) data (oppos : nat) (args : list (nfs_argop4 A))
    (status : nfsstat4) : WM (nfs_req_result * nfsstat4 * data_t) :=
  match args with
  | [] => mret (NFS_REQ_OK, status, data)
  | arg :: args' =>
      r ← process_one_op now q data oppos arg;
      let '(result, status, data) := r in
      if decide (result = NFS_REQ_OK) then process_ops now q data (Datatypes.S oppos) args' status
      else mret (result, status, data)
  end.

(** ** The end of the compound *)

Definition set_slot_last_req (q : compound_request A C) data (slot : positive * nat) : WM unit :=
  upd_slot slot.1 slot.2
    (with_last_req {| opcodes := get_nfs4_opcodes (rq_argarray q); xid := rq_xid q;
                      seq_id := d_sequence data |}).

(** The response cached for a request that did not ask for it: SEQUENCE, and the next
    operation with the status of an uncached reply unless it failed. *)
Definition uncached_array (c : COMPOUND4res_extended B) : list (nfs_resop4 B) :=
  let res0 := default zero_resop (resarray_val c !! 0%nat) in
  if bool_decide (resarray_len c = 1%nat) then [res0]
  else
    let res1 := default zero_resop (resarray_val c !! 1%nat) in
    [res0; if bool_decide (res_status res1 = NFS4_OK) || bool_decide (res_status res1 = NFS4ERR_DENIED)
           then {| resop := resop res1; res_status := NFS4ERR_RETRY_UNCACHED_REP; res_body := res_body res1 |}
           else res1].
Definition uncached_res (c : COMPOUND4res_extended B) : COMPOUND4res_extended B :=
  let l := uncached_array c in
  {| c_status := match last l with Some v => res_status v | None => NFS4_OK end;
     resarray_len := length l; resarray_val := l; res_refcnt := 1 |}.

Definition complete_nfs4_compound (now : Z) (q : compound_request A C) data (status : nfsstat4)
    (result : nfs_req_result) : WM unit :=
  upd_res (d_res data) (with_c_status status);;
  (if sa_cachethis data then
     slot ← deref (d_slot data);
     upd_slot slot.1 slot.2 (with_cached (Some (d_res data)));;
     set_slot_last_req q data slot;;
     inc_res_refcnt (d_res data)
   else
     match d_slot data, head (argop <$> rq_argarray q) with
     | Some slot, Some first =>
         if (0 <? rq_minorversion q) && bool_decide (result <> NFS_REQ_REPLAY) && (first =? NFS4_OP_SEQUENCE)
         then
           release_slot slot.1 slot.2;;
           c ← get_res (d_res data);
           cached ← alloc_res (uncached_res c);
           upd_slot slot.1 slot.2 (with_cached (Some cached));;
           set_slot_last_req q data slot
         else mret tt
     | _, _ => mret tt
     end);;
  match preserved_clientid data with
  | Some cl => client_update_lease now cl
  | None => mret tt
  end.

Definition compound_data_Free data : WM unit :=
  match d_session data with
  | Some p => dec_session_ref p
  | None => mret tt
  end.

(** The operations that may start a compound of minor version 1 and 2. *)
Definition starts_compound (op : Z) : bool :=
  (op =? NFS4_OP_ILLEGAL) || (op =? NFS4_OP_SEQUENCE) || (op =? NFS4_OP_EXCHANGE_ID)
  || (op =? NFS4_OP_CREATE_SESSION) || (op =? NFS4_OP_DESTROY_SESSION)
  || (op =? NFS4_OP_BIND_CONN_TO_SESSION) || (op =? NFS4_OP_DESTROY_CLIENTID).
Definition sole_op (op : Z) : bool :=
  (op =? NFS4_OP_EXCHANGE_ID) || (op =? NFS4_OP_CREATE_SESSION) || (op =? NFS4_OP_DESTROY_CLIENTID)
  || (op =? NFS4_OP_DESTROY_SESSION) || (op =? NFS4_OP_BIND_CONN_TO_SESSION).

Definition new_data (q : compound_request A C) (r : positive) : data_t :=
  {| d_ctx := rq_ctx q; d_session := None; d_slot := None; d_sequence := 0; sa_cachethis := false;
     preserved_clientid := None; cached_result_status := NFS4_OK; d_resp_size := compound_res_size;
     op_resp_size := 0; d_res := r |}.

(** The checks of [nfs4_Compound] that answer at once: a status, or a dropped request. *)
Inductive early_answer : Set := go_on | answer (st : nfsstat4) | drop_request.
Definition compound_checks (q : compound_request A C) : early_answer :=
  let minor := rq_minorversion q in
  let first := default 0 (head (argop <$> rq_argarray q)) in
  if 2 <? minor then answer NFS4ERR_MINOR_VERS_MISMATCH
  else if Z.land minor_versions (Z.shiftl 1 minor) =? 0 then answer NFS4ERR_MINOR_VERS_MISMATCH
  else if negb (rq_tag_ok q) then answer NFS4ERR_INVAL
  else if bool_decide (rq_argarray q = []) then answer NFS4_OK
  else if bool_decide (NFS4_MAX_OPERATIONS < length (rq_argarray q))%nat then answer NFS4ERR_RESOURCE
  else if negb (rq_cred_ok q) then drop_request
  else if (0 <? minor) && negb (starts_compound first) then answer NFS4ERR_OP_NOT_IN_SESSION
  else if (0 <? minor) && bool_decide (1 < length (rq_argarray q))%nat && sole_op first
  then answer NFS4ERR_NOT_ONLY_OP
  else go_on.

(** [nfs4_Compound]: the result code and the response. *)
Definition nfs4_Compound (now : Z) (q : compound_request A C) : WM (nfs_req_result * positive) :=
  r ← alloc_res new_res;
  match compound_checks q with
  | answer st => upd_res r (with_c_status st);; mret (NFS_REQ_OK, r)
  | drop_request => mret (NFS_REQ_DROP, r)
  | go_on =>
      upd_res r (with_array (replicate (length (rq_argarray q)) zero_resop));;
      out ← process_ops now q (new_data q r) 0 (rq_argarray q) NFS4_OK;
      let '(result, status, data) := out in
      complete_nfs4_compound now q data status result;;
      compound_data_Free data;;
      mret (NFS_REQ_OK, d_res data)
  end.

(** [nfs4_Compound_Free]: the reply has been sent. *)
Definition nfs4_Compound_Free (r : positive) : WM unit := release_nfs4_res_compound r.

(** What is sent of a response. *)
Definition reply_of (c : COMPOUND4res_extended B) : nfsstat4 * list (nfs_resop4 B) :=
  (c_status c, take (resarray_len c) (resarray_val c)).

End compound.
