(* ===== verification/SessionInv.v ===== *)
(** * The invariant of sessions and responses

    Every reference to a response and to a session is accounted for; a slot under
    protection keeps its sequence number and its cached reply.  One rule per
    primitive of [Session] says how the invariant changes hands. *)
From S2P Require Import Prelude Status Owners Lease Session Compound.
Local Open Scope Z_scope.

Section inv.
Context {A B C S : Type} `{O : Ops A B C S}.
Abbreviation world := (session_world B S).
Implicit Types (w : world) (p r : positive) (L K : list positive).

(** ** Counting references *)

Definition cached (s : nfs41_session_t) : list positive := omap cached_result (fc_slots s).
Definition slot_refs (m : gmap positive nfs41_session_t) : list positive :=
  map_to_list m ≫= (fun ps => cached ps.2).

Lemma slot_refs_insert_new p s m :
  m !! p = None -> slot_refs (<[p := s]> m) ≡ₚ cached s ++ slot_refs m.
Proof. intros Hp. unfold slot_refs. by rewrite map_to_list_insert. Qed.

Lemma slot_refs_delete p s m : m !! p = Some s -> slot_refs m ≡ₚ cached s ++ slot_refs (delete p m).
Proof.
  intros Hp. rewrite <- (insert_id m p s) at 1 by done. rewrite <- insert_delete_eq.
  by rewrite slot_refs_insert_new by apply lookup_delete_eq.
Qed.

Lemma slot_refs_update p s s' m :
  m !! p = Some s -> slot_refs (<[p := s']> m) ≡ₚ cached s' ++ slot_refs (delete p m).
Proof.
  intros Hp. rewrite <- insert_delete_eq. by rewrite slot_refs_insert_new by apply lookup_delete_eq.
Qed.

Lemma slot_refs_same p s s' m :
  m !! p = Some s -> fc_slots s' = fc_slots s -> slot_refs (<[p := s']> m) ≡ₚ slot_refs m.
Proof.
  intros Hp Hf. rewrite (slot_refs_update p s s' m Hp), (slot_refs_delete p s m Hp).
  unfold cached. by rewrite Hf.
Qed.

Lemma slot_refs_cached p s i sl r m :
  m !! p = Some s -> fc_slots s !! i = Some sl -> cached_result sl = Some r -> r ∈ slot_refs m.
Proof.
  intros Hp Hi Hc. rewrite (slot_refs_delete p s m Hp). apply elem_of_app. left. unfold cached.
  apply list_elem_of_omap. exists sl. split; [|done]. by eapply list_elem_of_lookup_2.
Qed.

(** The number of slots, 0 or 1, that a slot is among those caching [r]. *)
Definition slot_count r (sl : nfs41_session_slot_t) : nat :=
  if decide (cached_result sl = Some r) then 1 else 0.

Lemma count_cached_update r (l : list nfs41_session_slot_t) i sl sl' :
  l !! i = Some sl ->
  (slot_count r sl + count_id r (omap cached_result (<[i := sl']> l))
   = slot_count r sl' + count_id r (omap cached_result l))%nat.
Proof.
  revert i. induction l as [|a l IH]; intros [|i] Hi; simplify_eq/=.
  - unfold slot_count. destruct (cached_result sl) as [x|], (cached_result sl') as [y|]; simpl;
      rewrite ?count_id_cons; repeat case_decide; simplify_eq; lia.
  - specialize (IH i Hi). destruct (cached_result a); rewrite ?count_id_cons; lia.
Qed.

(** All references to a response: those of [L] and those of the slots. *)
Definition nrefs r L (m : gmap positive nfs41_session_t) : nat := (count_id r L + count_id r (slot_refs m))%nat.

Lemma nrefs_slot r L m p s i sl sl' :
  m !! p = Some s -> fc_slots s !! i = Some sl ->
  (slot_count r sl + nrefs r L (<[p := with_slots (<[i := sl']> (fc_slots s)) s]> m)
   = slot_count r sl' + nrefs r L m)%nat.
Proof.
  intros Hp Hi. unfold nrefs.
  rewrite (slot_refs_update p s _ m Hp), (slot_refs_delete p s m Hp), !count_id_app. unfold cached. cbn [fc_slots with_slots].
  pose proof (count_cached_update r (fc_slots s) i sl sl' Hi). lia.
Qed.

Lemma nrefs_same r L m p s s' :
  m !! p = Some s -> fc_slots s' = fc_slots s -> nrefs r L (<[p := s']> m) = nrefs r L m.
Proof. intros. unfold nrefs. by rewrite (slot_refs_same p s s'). Qed.

Lemma nrefs_cached_pos r L m p s i sl :
  m !! p = Some s -> fc_slots s !! i = Some sl -> cached_result sl = Some r -> (0 < nrefs r L m)%nat.
Proof. intros. pose proof (count_id_pos r _ (slot_refs_cached p s i sl r m ltac:(done) ltac:(done) ltac:(done))). unfold nrefs. lia. Qed.

(** ** The invariant *)

(** A slot under protection: session id, slot, its sequence number and its cached reply.  As
    long as the session is in the table, the slot has both. *)
Definition protection : Type := option (Z * nat * Z * (nfsstat4 * list (nfs_resop4 B))).

Definition remembers w (s : nfs41_session_t) (i : nat) (n : Z) (R : nfsstat4 * list (nfs_resop4 B)) : Prop :=
  exists sl r c, fc_slots s !! i = Some sl /\ sequence sl = n /\ cached_result sl = Some r /\
    sw_res w !! r = Some c /\ reply_of c = R.

Definition protected (pr : protection) w : Prop :=
  match pr with
  | None => True
  | Some (sid, i, n, R) => sid <= sw_global_sequence w /\
      forall p s, sw_table w !! sid = Some p -> sw_sessions w !! p = Some s -> remembers w s i n R
  end.

Record session_ok (m : gmap Z positive) (gs : Z) (cls : gmap positive nfs_client_id_t) K p
    (s : nfs41_session_t) : Prop := {
  so_slots : nb_slots s = Z.of_nat (length (fc_slots s));
  so_maxreq : ca_maxrequests (fore_channel_attrs s) = nb_slots s;
  so_refs : refcount s = Z.b2z (bool_decide (m !! session_id s = Some p)) + Z.of_nat (count_id p K);
  so_live : 1 <= refcount s;
  so_client : is_Some (cls !! clientid_record s);
  so_id : session_id s <= gs
}.

Record winv (pr : protection) L K w : Prop := {
  wi_res r : match sw_res w !! r with
             | Some c => res_refcnt c = Z.of_nat (nrefs r L (sw_sessions w)) /\ 1 <= res_refcnt c
             | None => nrefs r L (sw_sessions w) = 0%nat
             end;
  wi_session p s : sw_sessions w !! p = Some s ->
    session_ok (sw_table w) (sw_global_sequence w) (sw_clients w) K p s;
  wi_table sid p : sw_table w !! sid = Some p ->
    exists s, sw_sessions w !! p = Some s /\ session_id s = sid;
  wi_held p : p ∈ K -> is_Some (sw_sessions w !! p);
  wi_inj p q s t : sw_sessions w !! p = Some s -> sw_sessions w !! q = Some t ->
    session_id s = session_id t -> p = q;
  wi_prot : protected pr w
}.

Lemma winv_perm pr L L' K K' w : L ≡ₚ L' -> K ≡ₚ K' -> winv pr L K w -> winv pr L' K' w.
Proof.
  intros HL HK []. constructor; try done.
  - intros r. specialize (wi_res0 r). unfold nrefs in *.
    assert (count_id r L' = count_id r L) as -> by by rewrite HL. done.
  - intros p s Hs. destruct (wi_session0 p s Hs). constructor; try done. by rewrite <- HK.
  - intros p Hp. apply wi_held0. by rewrite HK.
Qed.

(** ** Rules for responses *)

Lemma winv_res_live pr L K w r : winv pr (r :: L) K w -> exists c, sw_res w !! r = Some c.
Proof.
  intros []. specialize (wi_res0 r). destruct (sw_res w !! r) as [c|]; [eauto|].
  unfold nrefs in wi_res0. rewrite count_id_cons, decide_True in wi_res0 by done. lia.
Qed.

Lemma wp_get_res (Q : COMPOUND4res_extended B -> world -> Prop) r c w :
  sw_res w !! r = Some c -> Q c w -> wp (get_res r) Q w.
Proof. intros Hr HQ. unfold wp, get_res. by rewrite Hr. Qed.

(** The content of responses other than the cached one may change. *)
Lemma protected_res pr w m' :
  (forall r c, sw_res w !! r = Some c -> (exists p s i sl, sw_sessions w !! p = Some s /\
     fc_slots s !! i = Some sl /\ cached_result sl = Some r) ->
     exists c', m' !! r = Some c' /\ reply_of c' = reply_of c) ->
  protected pr w -> protected pr (set_res (fun _ => m') w).
Proof.
  intros Hm. destruct pr as [[[[sid i] n] R]|]; [|done]. intros [Hle Hp]. split; [done|].
  intros p s Ht Hs. destruct (Hp p s Ht Hs) as (sl & r & c & Hi & Hn & Hc & Hr & HR).
  destruct (Hm r c Hr) as (c' & Hr' & HR'); [eauto 10|]. exists sl, r, c'. by rewrite HR'.
Qed.

(** The responses of [L] are still there, with their content. *)
Definition res_keep L (m m' : gmap positive (COMPOUND4res_extended B)) : Prop :=
  forall r c, r ∈ L -> m !! r = Some c -> exists n, m' !! r = Some (with_refcnt n c).

Lemma res_keep_refl L m : res_keep L m m.
Proof. intros r [] _ Hr. by eexists. Qed.

Lemma res_keep_trans L m1 m2 m3 : res_keep L m1 m2 -> res_keep L m2 m3 -> res_keep L m1 m3.
Proof.
  intros H1 H2 r c Hin Hr. destruct (H1 r c Hin Hr) as [n1 Hr1]. destruct (H2 r _ Hin Hr1) as [n2 Hr2].
  by exists n2.
Qed.

(** Releasing a response; the world [u] the invariant speaks about may differ from the
    running one outside the responses. *)
Lemma wp_release_view_slots pr L K r (Q : unit -> world -> Prop) w u :
  winv pr (r :: L) K u -> sw_res w = sw_res u ->
  (forall m', res_keep (slot_refs (sw_sessions u) ++ L) (sw_res w) m' -> winv pr L K (set_res (fun _ => m') u) ->
     Q tt (set_res (fun _ => m') w)) ->
  wp (release_nfs4_res_compound r) Q w.
Proof.
  intros Hinv Hwu HQ. destruct (winv_res_live _ _ _ _ _ Hinv) as [c Hr].
  unfold release_nfs4_res_compound. apply wp_bind, (wp_get_res _ r c); [by rewrite Hwu|]. cbv zeta.
  pose proof (wi_res _ _ _ _ Hinv r) as Hcnt. rewrite Hr in Hcnt. destruct Hcnt as [Hcnt Hpos].
  unfold nrefs in Hcnt. rewrite count_id_cons, decide_True in Hcnt by done.
  assert (forall x, x <> r -> nrefs x (r :: L) (sw_sessions u) = nrefs x L (sw_sessions u)) as Hother.
  { intros x Hx. unfold nrefs. rewrite count_id_cons, decide_False by done. lia. }
  destruct (Z.ltb_spec (res_refcnt c - 1) 0); [lia|].
  destruct (Z.ltb_spec 0 (res_refcnt c - 1)); apply wp_modify.
  - apply (HQ (<[r := with_refcnt (res_refcnt c - 1) c]> (sw_res w))); rewrite Hwu.
    { intros x cx _ Hx. rewrite lookup_insert. case_decide; [simplify_eq; eauto|].
      exists (res_refcnt cx). by destruct cx. }
    destruct Hinv. constructor; try done.
    + intros x. cbn [sw_res set_res sw_sessions]. rewrite lookup_insert. case_decide as Hx.
      * subst x. cbn. unfold nrefs. lia.
      * rewrite <- Hother by done. apply wi_res0.
    + eapply protected_res; [|done]. intros x cx Hcx _. rewrite lookup_insert. case_decide; [|eauto].
      subst x. simplify_eq. eauto.
  - apply (HQ (delete r (sw_res w))); rewrite Hwu.
    { intros x cx Hin Hx. rewrite lookup_delete. case_decide; [|exists (res_refcnt cx); by destruct cx].
      subst x. apply count_id_pos in Hin. rewrite count_id_app in Hin. lia. }
    pose proof Hinv as []. constructor; try done.
    + intros x. cbn [sw_res set_res sw_sessions]. rewrite lookup_delete. case_decide as Hx.
      * subst x. unfold nrefs. lia.
      * rewrite <- Hother by done. apply wi_res0.
    + eapply protected_res; [|done]. intros x cx Hcx (p & s & i & sl & Hp & Hi & Hc).
      rewrite lookup_delete. case_decide; [|eauto]. subst x. exfalso.
      pose proof (nrefs_cached_pos r L _ p s i sl Hp Hi Hc) as H1. unfold nrefs in H1. lia.
Qed.

Lemma res_keep_app L1 L2 m m' : res_keep (L1 ++ L2) m m' -> res_keep L2 m m'.
Proof. intros H r c Hin. apply H, elem_of_app. by right. Qed.

Lemma wp_release_view pr L K r (Q : unit -> world -> Prop) w u :
  winv pr (r :: L) K u -> sw_res w = sw_res u ->
  (forall m', res_keep L (sw_res w) m' -> winv pr L K (set_res (fun _ => m') u) ->
     Q tt (set_res (fun _ => m') w)) ->
  wp (release_nfs4_res_compound r) Q w.
Proof.
  intros Hinv Hwu HQ. eapply wp_release_view_slots; [done..|]. intros m' Hk. by apply HQ, (res_keep_app _ _ _ _ Hk).
Qed.

Lemma wp_release pr L K r (Q : unit -> world -> Prop) w :
  winv pr (r :: L) K w ->
  (forall m', res_keep (slot_refs (sw_sessions w) ++ L) (sw_res w) m' -> winv pr L K (set_res (fun _ => m') w) ->
     Q tt (set_res (fun _ => m') w)) ->
  wp (release_nfs4_res_compound r) Q w.
Proof. intros. by eapply wp_release_view_slots. Qed.

Lemma wp_inc_res pr L K r c (Q : unit -> world -> Prop) w :
  winv pr L K w -> sw_res w !! r = Some c ->
  (forall m', m' !! r = Some (with_refcnt (res_refcnt c + 1) c) -> winv pr (r :: L) K (set_res (fun _ => m') w) ->
     Q tt (set_res (fun _ => m') w)) ->
  wp (inc_res_refcnt r) Q w.
Proof.
  intros Hinv Hr HQ. unfold inc_res_refcnt. apply wp_bind, (wp_get_res _ r c); [done|]. apply wp_modify.
  apply (HQ (<[r := with_refcnt (res_refcnt c + 1) c]> (sw_res w))); [apply lookup_insert_eq|].
  destruct Hinv. constructor; try done.
  - intros x. cbn [sw_res set_res sw_sessions]. pose proof (wi_res0 x) as Hx. unfold nrefs in *. rewrite count_id_cons, lookup_insert. case_decide.
    + subst x. rewrite Hr in Hx. cbn. lia.
    + by destruct (sw_res w !! x).
  - eapply protected_res; [|done]. intros x cx Hcx _. rewrite lookup_insert. case_decide; [|eauto].
    subst x. simplify_eq. eauto.
Qed.

Lemma wp_alloc_res pr L K c (Q : positive -> world -> Prop) w :
  winv pr L K w -> res_refcnt c = 1 ->
  (forall r m', sw_res w !! r = None -> m' = <[r := c]> (sw_res w) -> winv pr (r :: L) K (set_res (fun _ => m') w) ->
     Q r (set_res (fun _ => m') w)) ->
  wp (alloc_res c) Q w.
Proof.
  intros Hinv Hc HQ. unfold alloc_res. apply wp_bind, wp_gets, wp_bind, wp_modify, wp_ret.
  set (r := fresh _). assert (sw_res w !! r = None) as Hr by (apply not_elem_of_dom, is_fresh).
  apply (HQ r (<[r := c]> (sw_res w))); [done|done|]. destruct Hinv. constructor; try done.
  - intros x. cbn [sw_res set_res sw_sessions]. pose proof (wi_res0 x) as Hx. unfold nrefs in *. rewrite count_id_cons, lookup_insert. case_decide.
    + subst x. rewrite Hr in Hx. lia.
    + by destruct (sw_res w !! x).
  - eapply protected_res; [|done]. intros x cx Hcx _. rewrite lookup_insert. case_decide; [|eauto].
    subst x. congruence.
Qed.

(** Writing to a response that no slot caches, or that keeps its reply. *)
Lemma wp_upd_res pr L K r c f (Q : unit -> world -> Prop) w :
  winv pr L K w -> sw_res w !! r = Some c -> res_refcnt (f c) = res_refcnt c ->
  (r ∉ slot_refs (sw_sessions w) \/ reply_of (f c) = reply_of c) ->
  (winv pr L K (set_res (fun _ => <[r := f c]> (sw_res w)) w) ->
     Q tt (set_res (fun _ => <[r := f c]> (sw_res w)) w)) ->
  wp (upd_res r f) Q w.
Proof.
  intros Hinv Hr Hf Hor HQ. unfold upd_res. apply wp_bind, (wp_get_res _ r c); [done|]. apply wp_modify.
  apply HQ. destruct Hinv. constructor; try done.
  - intros x. cbn [sw_res set_res sw_sessions]. rewrite lookup_insert. case_decide; [|apply wi_res0].
    subst x. pose proof (wi_res0 r) as Hx. rewrite Hr in Hx. by rewrite Hf.
  - eapply protected_res; [|done]. intros x cx Hcx (p & s & i & sl & Hp & Hi & Hc).
    rewrite lookup_insert. case_decide; [|eauto]. subst x. simplify_eq.
    destruct Hor as [Hn|He]; [|eauto]. destruct Hn. by eapply slot_refs_cached.
Qed.

(** ** Rules for slots *)

Lemma wp_get_session (Q : nfs41_session_t -> world -> Prop) p s w :
  sw_sessions w !! p = Some s -> Q s w -> wp (get_session p) Q w.
Proof. intros Hs HQ. unfold wp, get_session. by rewrite Hs. Qed.

Lemma wp_get_slot (Q : nfs41_session_slot_t -> world -> Prop) p s i sl w :
  sw_sessions w !! p = Some s -> fc_slots s !! i = Some sl -> Q sl w -> wp (get_slot p i) Q w.
Proof. intros Hs Hi HQ. unfold get_slot. by apply wp_bind, (wp_get_session _ _ s), (wp_deref _ sl). Qed.

Lemma wp_upd_slot_run (Q : unit -> world -> Prop) p s i sl f w :
  sw_sessions w !! p = Some s -> fc_slots s !! i = Some sl ->
  Q tt (set_sessions <[p := with_slots (<[i := f sl]> (fc_slots s)) s]> w) -> wp (upd_slot p i f) Q w.
Proof.
  intros Hs Hi HQ. unfold upd_slot. by apply wp_bind, (wp_get_session _ _ s), wp_bind, (wp_deref _ sl), wp_modify.
Qed.

(** A slot that is not under protection. *)
Definition unprotected (pr : protection) (sid : Z) (i : nat) : Prop :=
  match pr with Some (sid', i', _, _) => sid' = sid -> i' <> i | None => True end.

(** Changing a slot: the reference it gives up or takes moves to or from [L]. *)
Lemma winv_upd_slot pr L L' K w p s i sl sl' :
  winv pr L K w -> sw_sessions w !! p = Some s -> fc_slots s !! i = Some sl ->
  unprotected pr (session_id s) i \/ (sequence sl' = sequence sl /\ cached_result sl' = cached_result sl) ->
  (forall r, (slot_count r sl' + count_id r L' = slot_count r sl + count_id r L)%nat) ->
  winv pr L' K (set_sessions <[p := with_slots (<[i := sl']> (fc_slots s)) s]> w).
Proof.
  intros Hinv Hs Hi Hun Hcnt. destruct Hinv. constructor.
  - intros r. cbn [sw_res set_sessions sw_sessions].
    pose proof (nrefs_slot r L' (sw_sessions w) p s i sl sl' Hs Hi) as H1. specialize (Hcnt r). specialize (wi_res0 r).
    unfold nrefs in *. destruct (sw_res w !! r); lia.
  - intros q t. cbn [sw_sessions set_sessions sw_table sw_global_sequence sw_clients]. rewrite lookup_insert.
    case_decide; [|apply wi_session0]. subst q. intros [= <-]. destruct (wi_session0 p s Hs).
    constructor; cbn; try done. by rewrite length_insert.
  - intros sid q Ht. destruct (wi_table0 sid q Ht) as (t & Hq & Hid). cbn. rewrite lookup_insert.
    case_decide; [subst q; simplify_eq; eauto|eauto].
  - intros q Hq. cbn. rewrite lookup_insert. case_decide; [done|auto].
  - intros q1 q2 t1 t2. cbn. rewrite !lookup_insert. repeat case_decide; intros; simplify_eq/=; eauto.
  - destruct pr as [[[[sid j] n] R]|]; [|done]. destruct wi_prot0 as [Hle Hp]. split; [done|].
    intros q t. cbn. rewrite lookup_insert. case_decide; [|apply Hp]. subst q. intros Ht [= <-].
    destruct (wi_table0 sid p Ht) as (t & Hq & Hid). simplify_eq.
    destruct (Hp p s Ht Hs) as (x & r & c & Hx & Hn & Hc & Hr & HR).
    destruct (decide (j = i)) as [->|Hne].
    + destruct Hun as [Hun|[Hsq Hca]]; [by destruct Hun|]. simplify_eq. exists sl', r, c. cbn.
      rewrite list_lookup_insert_eq by (by eapply lookup_lt_Some). by rewrite Hsq, Hca.
    + exists x, r, c. cbn. by rewrite list_lookup_insert_ne by done.
Qed.

Lemma winv_upd_slot_keep pr L K w p s i sl sl' :
  winv pr L K w -> sw_sessions w !! p = Some s -> fc_slots s !! i = Some sl ->
  unprotected pr (session_id s) i \/ sequence sl' = sequence sl -> cached_result sl' = cached_result sl ->
  winv pr L K (set_sessions <[p := with_slots (<[i := sl']> (fc_slots s)) s]> w).
Proof.
  intros Hinv Hs Hi Hun Hc. eapply winv_upd_slot; [done..| |].
  - destruct Hun; auto.
  - intros r. unfold slot_count. by rewrite Hc.
Qed.

Lemma with_slots_id s i sl : fc_slots s !! i = Some sl -> with_slots (<[i := sl]> (fc_slots s)) s = s.
Proof. intros Hi. rewrite list_insert_id by done. by destruct s. Qed.

(** After [release_slot] the slot caches nothing. *)
Lemma wp_release_slot pr L K p s i sl (Q : unit -> world -> Prop) w :
  winv pr L K w -> sw_sessions w !! p = Some s -> fc_slots s !! i = Some sl ->
  unprotected pr (session_id s) i ->
  (forall m', res_keep L (sw_res w) m' ->
     winv pr L K (set_sessions <[p := with_slots (<[i := with_cached None sl]> (fc_slots s)) s]>
                             (set_res (fun _ => m') w)) ->
     Q tt (set_sessions <[p := with_slots (<[i := with_cached None sl]> (fc_slots s)) s]>
             (set_res (fun _ => m') w))) ->
  wp (release_slot p i) Q w.
Proof.
  intros Hinv Hs Hi Hun HQ. unfold release_slot. apply wp_bind, (wp_get_slot _ p s i sl); [done|done|].
  destruct (cached_result sl) as [r|] eqn:Hc.
  - (* the slot's reference is handed to the release *)
    set (u := set_sessions <[p := with_slots (<[i := with_cached None sl]> (fc_slots s)) s]> w).
    assert (winv pr (r :: L) K u) as Hu.
    { eapply winv_upd_slot; [done..|by left|]. intros x. unfold slot_count. cbn [cached_result with_cached]. rewrite Hc, count_id_cons.
      rewrite (decide_False (P := None = Some x)) by done. repeat case_decide; simplify_eq; lia. }
    apply wp_bind. eapply wp_release_view; [exact Hu|done|]. intros m' Hk Hm'.
    apply (wp_upd_slot_run _ p s i sl); [done|done|]. by apply (HQ m').
  - apply wp_ret. replace (with_cached None sl) with sl in HQ by (destruct sl; cbn in Hc; by subst).
    rewrite (with_slots_id s i sl Hi) in HQ. specialize (HQ (sw_res w)).
    replace (set_sessions <[p := s]> (set_res (fun _ => sw_res w) w)) with w in HQ; [apply HQ; [apply res_keep_refl|done]|].
    unfold set_sessions, set_res. cbn. rewrite insert_id by done. by destruct w.
Qed.

(** ** Rules for session references *)

Definition same_session (s s' : nfs41_session_t) : Prop :=
  session_id s' = session_id s /\ fc_slots s' = fc_slots s /\ clientid_record s' = clientid_record s /\
  fore_channel_attrs s' = fore_channel_attrs s /\ nb_slots s' = nb_slots s.

(** Sessions may go away, and those that stay have the same slots; the responses of
    [L] keep their content. *)
Definition frame L w w' : Prop :=
  (forall p s', sw_sessions w' !! p = Some s' ->
     exists s, sw_sessions w !! p = Some s /\ same_session s s') /\
  res_keep L (sw_res w) (sw_res w') /\ sw_global_sequence w' = sw_global_sequence w.

Lemma frame_refl L w : frame L w w.
Proof. split; [|by split; [apply res_keep_refl|]]. intros p s' Hs. exists s'. by repeat split. Qed.

Lemma frame_trans L w1 w2 w3 : frame L w1 w2 -> frame L w2 w3 -> frame L w1 w3.
Proof.
  intros (H1 & R1 & G1) (H2 & R2 & G2). split; [|split; [by eapply res_keep_trans|congruence]].
  intros p s3 Hs3. destruct (H2 p s3 Hs3) as (s2 & Hs2 & E2). destruct (H1 p s2 Hs2) as (s1 & Hs1 & E1).
  exists s1. split; [done|]. unfold same_session in *. naive_solver congruence.
Qed.

(** What [dec_session_ref] leaves alone. *)
Definition same_rest w w' : Prop :=
  sw_table w' = sw_table w /\ sw_clients w' = sw_clients w /\ sw_server w' = sw_server w.

Lemma frame_update L w p s s' :
  sw_sessions w !! p = Some s -> same_session s s' -> frame L w (set_sessions <[p := s']> w).
Proof.
  intros Hs He. split; [|split; [apply res_keep_refl|done]]. intros q t. cbn. rewrite lookup_insert.
  case_decide; [|intros Ht; exists t; by repeat split]. subst q. intros [= <-]. eauto.
Qed.

(** Changing the count of a session. *)
Lemma winv_refcount pr L K K' w p s s' :
  winv pr L K w -> sw_sessions w !! p = Some s -> same_session s s' ->
  (forall q, q <> p -> count_id q K' = count_id q K) ->
  refcount s' - Z.of_nat (count_id p K') = refcount s - Z.of_nat (count_id p K) -> 1 <= refcount s' ->
  (forall q, q ∈ K' -> q = p \/ q ∈ K) ->
  winv pr L K' (set_sessions <[p := s']> w).
Proof.
  intros [] Hs (Eid & Efc & Ecl & Eat & Enb) Hq Hp Hl Hk. constructor.
  - intros r. cbn [sw_res set_sessions sw_sessions]. rewrite (nrefs_same r L _ p s s') by done. apply wi_res0.
  - intros q t. cbn [sw_sessions set_sessions sw_table sw_global_sequence sw_clients]. rewrite lookup_insert.
    case_decide as Hqp.
    + subst q. intros [= <-]. destruct (wi_session0 p s Hs).
      constructor; rewrite ?Eid, ?Efc, ?Ecl, ?Eat, ?Enb; try done. lia.
    + intros Ht. destruct (wi_session0 q t Ht). constructor; try done. by rewrite Hq.
  - intros sid q Ht. destruct (wi_table0 sid q Ht) as (t & Hqt & Hid). cbn. rewrite lookup_insert.
    case_decide; [subst q; simplify_eq; eauto|eauto].
  - intros q Hin. cbn. rewrite lookup_insert. case_decide; [done|]. destruct (Hk q Hin); [by subst|auto].
  - intros q1 q2 t1 t2. cbn. rewrite !lookup_insert. repeat case_decide; intros; simplify_eq; rewrite ?Eid in *; eauto.
  - destruct pr as [[[[sid j] n] R]|]; [|done]. destruct wi_prot0 as [Hle Hpr]. split; [done|].
    intros q t. cbn. rewrite lookup_insert. case_decide; [|apply Hpr]. subst q. intros Ht [= <-].
    destruct (Hpr p s Ht Hs) as (sl & r & c & Hx). exists sl, r, c. by rewrite Efc.
Qed.

Lemma wp_inc_session_ref pr L K p s (Q : unit -> world -> Prop) w :
  winv pr L K w -> sw_sessions w !! p = Some s ->
  (winv pr L (p :: K) (set_sessions <[p := with_refcount (refcount s + 1) s]> w) ->
     Q tt (set_sessions <[p := with_refcount (refcount s + 1) s]> w)) ->
  wp (inc_session_ref p) Q w.
Proof.
  intros Hinv Hs HQ. unfold inc_session_ref. apply wp_bind, (wp_get_session _ p s), wp_modify, HQ; [done|].
  pose proof (so_live _ _ _ _ _ _ (wi_session _ _ _ _ Hinv p s Hs)).
  eapply winv_refcount; try done.
  - intros q Hq. by rewrite count_id_cons, decide_False by done.
  - cbn [refcount with_refcount]. rewrite count_id_cons, decide_True by done. lia.
  - cbn. lia.
  - intros q. rewrite elem_of_cons. naive_solver.
Qed.

(** The slots of a session that goes away: [u] is the world without it. *)
Lemma wp_release_slots pr K p n : forall L s (Q : unit -> world -> Prop) w,
  sw_sessions w !! p = Some s -> (n <= length (fc_slots s))%nat ->
  winv pr (omap cached_result (take n (fc_slots s)) ++ L) K (set_sessions (delete p) w) ->
  (forall w', winv pr L K (set_sessions (delete p) w') -> res_keep L (sw_res w) (sw_res w') ->
     same_rest w w' -> sw_global_sequence w' = sw_global_sequence w ->
     delete p (sw_sessions w') = delete p (sw_sessions w) ->
     (exists s', sw_sessions w' !! p = Some s' /\ length (fc_slots s') = length (fc_slots s) /\
        forall i, (n <= i)%nat -> fc_slots s' !! i = fc_slots s !! i) -> Q tt w') ->
  wp (release_slots p n) Q w.
Proof.
  induction n as [|n IH]; intros L s Q w Hs Hn Hinv HQ.
  { apply wp_ret, HQ; [done|apply res_keep_refl|done|done|done|eauto]. }
  cbn [release_slots]. apply wp_bind.
  destruct (lookup_lt_is_Some_2 (fc_slots s) n) as [sl Hsl]; [lia|].
  rewrite (take_S_r _ _ _ Hsl), omap_app, <- app_assoc in Hinv.
  assert (omap cached_result [sl] = option_list (cached_result sl)) as Ho
    by (cbn; by destruct (cached_result sl)).
  rewrite Ho in Hinv. eapply IH; [done|lia|exact Hinv|].
  intros w1 Hinv1 Hk1 (T1 & C1 & S1) G1 D1 (s1 & Hs1 & Hl1 & Hi1). unfold release_slot.
  apply wp_bind, (wp_get_slot _ p s1 n sl); [done|by rewrite Hi1|].
  assert (forall m', res_keep (option_list (cached_result sl) ++ L) (sw_res w) m' -> res_keep L (sw_res w) m')
    as Hsub.
  { intros m Hm r c Hin. apply Hm, elem_of_app. by right. }
  destruct (cached_result sl) as [r|] eqn:Hc; cbn [option_list app] in Hinv1.
  - apply wp_bind. eapply wp_release_view; [exact Hinv1|done|]. intros m' Hk2 Hinv2.
    apply (wp_upd_slot_run _ p s1 n sl); [done|by rewrite Hi1|]. apply HQ; cbn.
    + unfold set_sessions, set_res in *. cbn in *. by rewrite delete_insert_eq.
    + eapply res_keep_trans; [by apply Hsub|done].
    + done.
    + done.
    + by rewrite delete_insert_eq.
    + eexists. rewrite lookup_insert_eq. split; [done|]. cbn. rewrite length_insert. split; [done|].
      intros i Hi. rewrite list_lookup_insert_ne by lia. apply Hi1. lia.
  - apply wp_ret, HQ; [done|by apply Hsub|done|done|done|]. exists s1. split; [done|]. split; [done|].
    intros i Hi. apply Hi1. lia.
Qed.

Lemma wp_dec_session_ref pr L K p (Q : unit -> world -> Prop) w :
  winv pr L (p :: K) w ->
  (forall w', winv pr L K w' -> frame L w w' -> same_rest w w' -> Q tt w') ->
  wp (dec_session_ref p) Q w.
Proof.
  intros Hinv HQ. destruct (wi_held _ _ _ _ Hinv p) as [s Hs]; [by left|].
  unfold dec_session_ref. apply wp_bind, (wp_get_session _ p s); [done|]. cbv zeta.
  destruct (wi_session _ _ _ _ Hinv p s Hs). rewrite count_id_cons, decide_True in so_refs0 by done.
  destruct (Z.ltb_spec (refcount s - 1) 0); [lia|]. apply wp_bind, wp_modify.
  set (s0 := with_refcount (refcount s - 1) s). set (w0 := set_sessions <[p := s0]> w).
  destruct (Z.eqb_spec (refcount s - 1) 0) as [Hz|Hz].
  - assert (sw_table w !! session_id s <> Some p) as Hnt
      by (intros Ht; rewrite bool_decide_true in so_refs0 by done; simpl in so_refs0; lia).
    assert (p ∉ K) as HnK by (intros Hin%count_id_pos; destruct (bool_decide _); simpl in *; lia).
    assert (winv pr (omap cached_result (fc_slots s) ++ L) K (set_sessions (delete p) w0)) as Hdel.
    { assert (set_sessions (delete p) w0 = set_sessions (delete p) w) as ->
        by (unfold w0, set_sessions; cbn; by rewrite delete_insert_eq).
      assert (forall sid, sw_table w !! sid <> Some p) as Hnt'.
      { intros sid Ht. destruct (wi_table _ _ _ _ Hinv sid p Ht) as (t & Hq & Hid). by simplify_eq. }
      destruct Hinv. constructor.
      - intros r. specialize (wi_res0 r). cbn [sw_res set_sessions sw_sessions]. unfold nrefs in *.
        assert (count_id r (slot_refs (sw_sessions w)) = count_id r (omap cached_result (fc_slots s))
                  + count_id r (slot_refs (delete p (sw_sessions w))))%nat as He
          by by rewrite (slot_refs_delete p s _ Hs), count_id_app.
        rewrite count_id_app. destruct (sw_res w !! r); lia.
      - intros q t Hqt. cbn in Hqt. apply lookup_delete_Some in Hqt as [Hq Ht]. destruct (wi_session0 q t Ht). constructor; try done.
        by rewrite count_id_cons, decide_False in so_refs1 by done.
      - intros sid q Ht. destruct (wi_table0 sid q Ht) as (t & Hq & Hid). exists t. split; [|done].
        cbn. rewrite lookup_delete_ne; [done|]. intros ->. by destruct (Hnt' sid).
      - intros q Hq. cbn. rewrite lookup_delete_ne by (intros ->; done). apply wi_held0. by right.
      - intros q1 q2 t1 t2 Hq1 Hq2. cbn in Hq1, Hq2. apply lookup_delete_Some in Hq1 as [_ Hq1].
        apply lookup_delete_Some in Hq2 as [_ Hq2]. eauto.
      - destruct pr as [[[[sid j] n] R]|]; [|done]. destruct wi_prot0 as [Hle Hpr]. split; [done|].
        intros q t Ht Hqt. cbn in Hqt. apply lookup_delete_Some in Hqt as [_ Hq]. by apply (Hpr q). }
    apply wp_bind. rewrite so_slots0, Nat2Z.id.
    eapply (wp_release_slots pr K p _ L s0); [unfold w0; cbn; apply lookup_insert_eq|done| |].
    { unfold s0. cbn [fc_slots with_refcount]. rewrite take_ge by done. exact Hdel. }
    intros w1 Hinv1 Hk1 (T1 & C1 & S1) G1 D1 _. apply wp_modify, HQ; [done| |done].
    split; [|done]. intros q t. cbn. rewrite D1. unfold w0. cbn. rewrite delete_insert_eq.
    intros [_ Hq]%lookup_delete_Some. exists t. by repeat split.
  - apply wp_ret, HQ; [|by apply (frame_update _ _ p s)|done].
    eapply winv_refcount; try done.
    + intros q Hq. by rewrite count_id_cons, decide_False by done.
    + unfold s0. cbn [refcount with_refcount]. rewrite count_id_cons, decide_True by done. lia.
    + cbn. lia.
    + intros q Hin. right. by right.
Qed.

(** ** The table and the clients *)

Lemma winv_set_server pr L K w f : winv pr L K w -> winv pr L K (set_server f w).
Proof. intros []. by constructor. Qed.

Lemma winv_set_clients pr L K w f :
  winv pr L K w -> (forall cl, is_Some (sw_clients w !! cl) -> is_Some (f (sw_clients w) !! cl)) ->
  winv pr L K (set_clients f w).
Proof.
  intros [] Hf. constructor; try done. intros p s Hs. destruct (wi_session0 p s Hs). constructor; auto.
Qed.

Lemma winv_insert_client pr L K w cl c : winv pr L K w -> winv pr L K (set_clients <[cl := c]> w).
Proof. intros Hinv. apply winv_set_clients; [done|]. intros x Hx. rewrite lookup_insert. by case_decide. Qed.

(** A session in the table is live, and so is one that is held. *)
Lemma winv_live pr L K w p s :
  winv pr L K w -> sw_sessions w !! p = Some s -> sw_table w !! session_id s = Some p \/ p ∈ K.
Proof.
  intros Hinv Hs. destruct (wi_session _ _ _ _ Hinv p s Hs).
  destruct (decide (sw_table w !! session_id s = Some p)) as [|Hn]; [by left|]. right. apply count_id_elem.
  rewrite bool_decide_false in so_refs0 by done. simpl in so_refs0. lia.
Qed.

Lemma winv_table_delete pr L K w sid p :
  winv pr L K w -> sw_table w !! sid = Some p -> winv pr L (p :: K) (set_table (delete sid) w).
Proof.
  intros Hinv Ht. destruct (wi_table _ _ _ _ Hinv sid p Ht) as (s & Hs & Hid). subst sid.
  destruct Hinv. constructor; try done.
  - intros q t Hq. destruct (wi_session0 q t Hq). constructor; try done. cbn [sw_table set_table].
    rewrite count_id_cons. destruct (decide (p = q)) as [->|Hne].
    + cbn in Hq. simplify_eq. rewrite bool_decide_true in so_refs0 by done. rewrite bool_decide_false.
      2:{ by rewrite lookup_delete_eq. }
      simpl in *. lia.
    + rewrite so_refs0. f_equal. f_equal. apply bool_decide_ext. rewrite lookup_delete_ne; [done|].
      intros He. apply Hne. by eapply wi_inj0.
  - intros sid q Hq. cbn in Hq. apply lookup_delete_Some in Hq as [_ Hq]. auto.
  - intros q [->|Hq]%elem_of_cons; [eauto|auto].
  - destruct pr as [[[[sid j] n] R]|]; [|done]. destruct wi_prot0 as [Hle Hpr]. split; [done|].
    intros q t Hq. cbn in Hq. apply lookup_delete_Some in Hq as [_ Hq]. by apply Hpr.
Qed.

Lemma wp_Session_Get_Pointer pr L K sid (Q : option positive -> world -> Prop) w :
  winv pr L K w -> (sw_table w !! sid = None -> Q None w) ->
  (forall p s, sw_table w !! sid = Some p -> sw_sessions w !! p = Some s -> session_id s = sid ->
     winv pr L (p :: K) (set_sessions <[p := with_refcount (refcount s + 1) s]> w) ->
     Q (Some p) (set_sessions <[p := with_refcount (refcount s + 1) s]> w)) ->
  wp (nfs41_Session_Get_Pointer sid) Q w.
Proof.
  intros Hinv HN HS. unfold nfs41_Session_Get_Pointer. apply wp_bind, wp_gets.
  destruct (sw_table w !! sid) as [p|] eqn:Ht; [|by apply wp_ret, HN].
  destruct (wi_table _ _ _ _ Hinv sid p Ht) as (s & Hs & Hid).
  apply wp_bind. eapply wp_inc_session_ref; [done..|]. intros H1. apply wp_ret. by apply (HS p s).
Qed.

Lemma wp_Session_Del pr L K sid (Q : bool -> world -> Prop) w :
  winv pr L K w ->
  (forall b w', winv pr L K w' -> frame L w w' -> sw_table w' = delete sid (sw_table w) ->
     sw_clients w' = sw_clients w -> sw_server w' = sw_server w -> Q b w') ->
  wp (nfs41_Session_Del sid) Q w.
Proof.
  intros Hinv HQ. unfold nfs41_Session_Del. apply wp_bind, wp_gets.
  destruct (sw_table w !! sid) as [p|] eqn:Ht.
  - apply wp_bind, wp_modify, wp_bind. eapply wp_dec_session_ref; [by apply winv_table_delete|].
    intros w' Hw' Hf (? & ? & ?). apply wp_ret. by apply HQ.
  - apply wp_ret, HQ; [done|apply frame_refl| |done|done]. by rewrite delete_id.
Qed.

Lemma wp_delete_sessions pr L K l : forall (Q : unit -> world -> Prop) w,
  winv pr L K w -> NoDup l -> (forall p, p ∈ l -> is_Some (sw_sessions w !! p)) ->
  (forall w', winv pr L K w' -> frame L w w' -> (forall sid, sw_table w !! sid = None -> sw_table w' !! sid = None) ->
     sw_clients w' = sw_clients w -> sw_server w' = sw_server w -> Q tt w') ->
  wp (delete_sessions l) Q w.
Proof.
  induction l as [|p l IH]; intros Q w Hinv Hnd Hl HQ.
  { apply wp_ret, HQ; try done. apply frame_refl. }
  apply NoDup_cons in Hnd as [Hp Hnd]. destruct (Hl p) as [s Hs]; [by left|]. cbn [delete_sessions].
  apply wp_bind, (wp_get_session _ p s); [done|]. apply wp_bind.
  eapply wp_Session_Del; [done|]. intros b w1 Hinv1 Hf1 T1 C1 S1. apply IH; [done|done| |].
  - intros q Hq. destruct (Hl q) as [t Ht]; [by right|].
    destruct (winv_live _ _ _ _ _ _ Hinv Ht) as [Hin|Hin]; [|by apply (wi_held _ _ _ _ Hinv1)].
    destruct (wi_table _ _ _ _ Hinv1 (session_id t) q) as (t' & Ht' & _); [|by rewrite Ht'].
    rewrite T1. rewrite lookup_delete_ne; [done|]. intros He.
    assert (p = q) as -> by (by eapply (wi_inj _ _ _ _ Hinv)). done.
  - intros w2 Hinv2 Hf2 T2 C2 S2. apply HQ; [done|by eapply frame_trans| |congruence|congruence].
    intros sid Hsid. apply T2. rewrite T1. apply lookup_delete_None. by right.
Qed.

Lemma wp_get_client (Q : nfs_client_id_t -> world -> Prop) cl c w :
  sw_clients w !! cl = Some c -> Q c w -> wp (get_client cl) Q w.
Proof. intros Hs HQ. unfold wp, get_client. by rewrite Hs. Qed.

Lemma wp_expire_client pr L K es cl c (Q : unit -> world -> Prop) w :
  winv pr L K w -> sw_clients w !! cl = Some c ->
  (forall w', winv pr L K w' -> frame L w w' ->
     (forall sid, sw_table w !! sid = None -> sw_table w' !! sid = None) -> Q tt w') ->
  wp (expire_client es cl) Q w.
Proof.
  intros Hinv Hc HQ. unfold expire_client. apply wp_bind, (wp_get_client _ cl c); [done|].
  case_decide; [apply wp_ret, HQ; [done|apply frame_refl|done]|].
  apply wp_bind, wp_modify, wp_bind, wp_modify, wp_bind, wp_gets.
  set (w1 := set_server _ _). assert (winv pr L K w1) as H1 by (apply winv_set_server, winv_insert_client, Hinv).
  eapply wp_delete_sessions; [done| | |].
  - unfold client_sessions. apply NoDup_fmap_fst; [|apply NoDup_filter, NoDup_map_to_list].
    intros q t1 t2 [_ H1']%list_elem_of_filter [_ H2']%list_elem_of_filter.
    apply elem_of_map_to_list in H1', H2'. congruence.
  - intros q. unfold client_sessions. intros ([q' t] & -> & [_ Hin]%list_elem_of_filter)%list_elem_of_fmap.
    apply elem_of_map_to_list in Hin. eauto.
  - intros w' Hw' Hf T _ _. apply HQ; [done| |done].
    destruct Hf as (F1 & F2 & F3). by split.
Qed.

(** The reservation of a lease at the start of a compound. *)
Lemma wp_client_reserve_or_expire pr L K lt es now cl c (Q : bool -> world -> Prop) w :
  winv pr L K w -> sw_clients w !! cl = Some c ->
  (valid_lease lt now c = true ->
     winv pr L K (set_clients <[cl := (reserve_lease lt now c).2]> w) ->
     Q true (set_clients <[cl := (reserve_lease lt now c).2]> w)) ->
  (forall w', valid_lease lt now c = false -> winv pr L K w' -> frame L w w' -> Q false w') ->
  wp (client_reserve_or_expire lt es now cl) Q w.
Proof.
  intros Hinv Hc HT HF. unfold client_reserve_or_expire. apply wp_bind, (wp_get_client _ cl c); [done|].
  destruct (valid_lease lt now c).
  - apply wp_bind, wp_modify, wp_ret, HT; [done|]. by apply winv_insert_client.
  - apply wp_bind. eapply wp_expire_client; [done..|]. intros w' Hw' Hf _. apply wp_ret. by apply HF.
Qed.

Lemma wp_check_session_conn pr L K p s addr can (Q : bool -> world -> Prop) w :
  winv pr L K w -> sw_sessions w !! p = Some s ->
  (forall b w', winv pr L K w' -> frame L w w' -> same_rest w w' -> sw_res w' = sw_res w ->
     (exists s', sw_sessions w' !! p = Some s') -> Q b w') ->
  wp (check_session_conn p addr can) Q w.
Proof.
  intros Hinv Hs HQ. unfold check_session_conn. apply wp_bind, (wp_get_session _ p s); [done|].
  case_match; [apply wp_ret, HQ; eauto using frame_refl; done|].
  case_match; [apply wp_ret, HQ; eauto using frame_refl; done|].
  apply wp_bind, wp_modify, wp_ret, HQ; [|by apply (frame_update _ _ p s)|done|done|].
  - pose proof (so_live _ _ _ _ _ _ (wi_session _ _ _ _ Hinv p s Hs)). eapply winv_refcount; try done. auto.
  - eexists. cbn. apply lookup_insert_eq.
Qed.

End inv.
