(* ===== verification/CompoundInv.v ===== *)
(** * Compounds against the invariant

    One rule per function of [Compound], up to the whole of [nfs4_Compound]: none of
    them is undefined, the references they take and drop are the ones the invariant
    counts, and the slot of an accepted request ends up with its reply. *)
From S2P Require Import Prelude Status Owners Lease Session Compound SessionInv.
Local Open Scope Z_scope.

(** What SEQUENCE makes of a request, read off the state before it. *)
Inductive seq_verdict : Set := seq_refused | seq_replay (r : positive) | seq_accepted.

Section rules.
Context {A B C S : Type} `{O : Ops A B C S}.
Abbreviation world := (session_world B S).
Abbreviation data_t := (compound_data C).
Implicit Types (w : world) (data : data_t) (p r : positive) (L K : list positive).

(** The slot a request names, with its session: in the table, its client's lease valid, the slot
    in range. *)
Definition named_slot (now : Z) w (sid slotid : Z) : option (positive * nfs41_session_t * nfs41_session_slot_t) :=
  p ← sw_table w !! sid;
  s ← sw_sessions w !! p;
  c ← sw_clients w !! clientid_record s;
  if negb (valid_lease lease_lifetime now c) then None
  else if ca_maxrequests (fore_channel_attrs s) <=? slotid then None
  else (fun sl => (p, s, sl)) <$> fc_slots s !! Z.to_nat slotid.

Definition verdict (now : Z) w (sid slotid seq : Z) : seq_verdict :=
  match named_slot now w sid slotid with
  | None => seq_refused
  | Some (_, _, sl) =>
      if u32 (sequence sl + 1) =? seq then seq_accepted
      else if sequence sl =? seq then
        match cached_result sl with Some r => seq_replay r | None => seq_refused end
      else seq_refused
  end.

(** ** The state of a compound between two operations *)

(** [g] is the slot the compound has been given: session id, slot and sequence number. *)
Definition slot_ok (g : option (Z * nat * Z)) data w : Prop :=
  match g, d_slot data with
  | None, None => d_session data = None /\ sa_cachethis data = false
  | Some (sid, i, n), Some (p, j) => i = j /\ n = d_sequence data /\
      exists s sl, sw_sessions w !! p = Some s /\ session_id s = sid /\ fc_slots s !! i = Some sl /\
        sequence sl = n /\ cached_result sl = None
  | _, _ => False
  end.

Definition grant_ok (pr : @protection B) (g : option (Z * nat * Z)) : Prop :=
  match g with Some (sid, i, _) => unprotected pr sid i | None => True end.

Record data_ok (pr : @protection B) L (g : option (Z * nat * Z)) data w : Prop := {
  do_inv : winv pr (d_res data :: L) (option_list (d_session data)) w;
  do_own : nrefs (d_res data) L (sw_sessions w) = 0%nat;
  do_slot : slot_ok g data w;
  do_grant : grant_ok pr g;
  do_client cl : preserved_clientid data = Some cl -> is_Some (sw_clients w !! cl)
}.

(** Between operations the compound holds the session of its slot. *)
Definition holds_slot data : Prop := forall p i, d_slot data = Some (p, i) -> d_session data = Some p.

(** A retry found in the cache. *)
Record replay_ok (pr : @protection B) L (reply : nfsstat4 * list (nfs_resop4 B)) data w : Prop := {
  ro_inv : winv pr (d_res data :: L) [] w;
  ro_session : d_session data = None;
  ro_cachethis : sa_cachethis data = false;
  ro_res : exists c, sw_res w !! d_res data = Some c /\ reply_of c = reply /\
             c_status c = cached_result_status data;
  ro_client cl : preserved_clientid data = Some cl -> is_Some (sw_clients w !! cl)
}.

Lemma data_not_cached pr L g data w : data_ok pr L g data w -> d_res data ∉ slot_refs (sw_sessions w).
Proof. intros [] Hin%count_id_pos. unfold nrefs in *. lia. Qed.

Lemma data_session pr L g data w p :
  data_ok pr L g data w -> d_session data = Some p -> exists s, sw_sessions w !! p = Some s.
Proof. intros [] Hp. apply (wi_held _ _ _ _ do_inv0). rewrite Hp. by left. Qed.

(** Steps that only touch the rest of the compound data. *)
Lemma data_ok_data pr L g data data' w :
  d_res data' = d_res data -> d_session data' = d_session data -> d_slot data' = d_slot data ->
  d_sequence data' = d_sequence data -> sa_cachethis data' = sa_cachethis data ->
  preserved_clientid data' = preserved_clientid data ->
  data_ok pr L g data w -> data_ok pr L g data' w.
Proof.
  intros E1 E2 E3 E4 E5 E6 []. constructor; unfold slot_ok; rewrite ?E1, ?E2, ?E3, ?E4, ?E5, ?E6; done.
Qed.

Lemma holds_slot_data data data' :
  d_session data' = d_session data -> d_slot data' = d_slot data -> holds_slot data -> holds_slot data'.
Proof. unfold holds_slot. by intros -> ->. Qed.

(** The responses some slot caches. *)
Definition caches (m : gmap positive nfs41_session_t) r : Prop :=
  exists p s i sl, m !! p = Some s /\ fc_slots s !! i = Some sl /\ cached_result sl = Some r.

Lemma elem_slot_refs m r : r ∈ slot_refs m -> caches m r.
Proof.
  unfold slot_refs. intros ([p s] & Hc & Hps)%list_elem_of_bind. apply elem_of_map_to_list in Hps.
  cbn in Hc. unfold cached in Hc. apply list_elem_of_omap in Hc as (sl & Hsl & Hr).
  apply list_elem_of_lookup in Hsl as [i Hi]. by exists p, s, i, sl.
Qed.

Lemma nrefs_shrink r L m m' : (caches m' r -> caches m r) -> nrefs r L m = 0%nat -> nrefs r L m' = 0%nat.
Proof.
  intros Hsub. unfold nrefs. intros H0. assert (count_id r L = 0%nat) as -> by lia.
  apply count_id_0. intros Hin%elem_slot_refs. destruct (Hsub Hin) as (p & s & i & sl & Hs & Hi & Hr).
  pose proof (nrefs_cached_pos r L _ p s i sl Hs Hi Hr). unfold nrefs in *. lia.
Qed.

Lemma caches_same m p s s' r :
  m !! p = Some s -> fc_slots s' = fc_slots s -> caches (<[p := s']> m) r -> caches m r.
Proof.
  intros Hs Hf (q & t & i & sl & Hq & Hi & Hr). rewrite lookup_insert in Hq. case_decide; [|by exists q, t, i, sl].
  simplify_eq. rewrite Hf in Hi. by exists q, s, i, sl.
Qed.

Lemma caches_slot m p s i sl' r :
  m !! p = Some s -> caches (<[p := with_slots (<[i := sl']> (fc_slots s)) s]> m) r ->
  cached_result sl' = Some r \/ caches m r.
Proof.
  intros Hs (q & t & j & sl & Hq & Hj & Hr). rewrite lookup_insert in Hq. case_decide; [|right; by exists q, t, j, sl].
  simplify_eq. cbn in Hj. apply list_lookup_insert_Some in Hj as [(-> & -> & _)|[_ Hj]]; [by left|].
  right. by exists q, s, j, sl.
Qed.

Lemma frame_caches L w w' r : frame L w w' -> caches (sw_sessions w') r -> caches (sw_sessions w) r.
Proof.
  intros [F _] (p & s & i & sl & Hs & Hi & Hr). destruct (F p s Hs) as (s0 & Hs0 & _ & Hf & _).
  rewrite Hf in Hi. by exists p, s0, i, sl.
Qed.

(** Steps that only take sessions away, and not the one the compound holds. *)
Lemma data_ok_frame pr L g data w w' :
  data_ok pr L g data w -> holds_slot data ->
  winv pr (d_res data :: L) (option_list (d_session data)) w' -> frame (d_res data :: L) w w' ->
  (forall cl, is_Some (sw_clients w !! cl) -> is_Some (sw_clients w' !! cl)) ->
  data_ok pr L g data w'.
Proof.
  intros [] Hh Hinv (F1 & F2 & F3) Hcl. constructor; [done| | |done|eauto].
  - eapply nrefs_shrink; [|done]. by apply (frame_caches _ _ _ _ (conj F1 (conj F2 F3))).
  - unfold slot_ok in *. destruct g as [[[sid i] n]|], (d_slot data) as [[p j]|] eqn:Hd; try done.
    destruct do_slot0 as (-> & -> & s & sl & Hs & Hid & Hi & Hn & Hc). split; [done|]. split; [done|].
    destruct (wi_held _ _ _ _ Hinv p) as [s' Hs']; [rewrite (Hh _ _ Hd); by left|].
    destruct (F1 p s' Hs') as (s0 & Hs0 & E1 & E2 & _). simplify_eq. exists s', sl.
    by rewrite E1, E2.
Qed.

(** ** Checks *)

Lemma wp_check_resp_room pr L g mv data data' size (Q : nfsstat4 -> world -> Prop) w :
  data_ok pr L g data w -> d_session data' = d_session data -> (forall st, Q st w) ->
  wp (check_resp_room mv data' size) Q w.
Proof.
  intros Hd He HQ. unfold check_resp_room. rewrite He. case_match; [|apply wp_ret, HQ].
  assert (d_session data = Some p) as Hp by (by destruct (mv =? 0)).
  destruct (data_session _ _ _ _ _ _ Hd Hp) as [s Hs]. apply wp_bind, (wp_get_session _ p s); [done|].
  apply wp_ret, HQ.
Qed.

Lemma wp_op_checks pr L g q data pos arg opcode (Q : nfsstat4 -> world -> Prop) w :
  data_ok pr L g data w ->
  (forall st, ~ (st = NFS4_OK /\ 0 < Z.of_nat pos /\ opcode = NFS4_OP_SEQUENCE) -> Q st w) ->
  wp (op_checks q data pos arg opcode) Q w.
Proof.
  intros Hd HQ. unfold op_checks. cbv zeta.
  destruct ((0 <? Z.of_nat pos) && (opcode =? NFS4_OP_BIND_CONN_TO_SESSION)); [by apply wp_ret, HQ; intros []|].
  destruct ((0 <? Z.of_nat pos) && (opcode =? NFS4_OP_SEQUENCE)) eqn:Hs; [by apply wp_ret, HQ; intros []|].
  assert (forall st, Q st w) as HQ'.
  { intros st. apply HQ. intros (_ & Hpos & ->). rewrite Z.eqb_refl, andb_true_r in Hs. by apply Z.ltb_ge in Hs; lia. }
  clear HQ Hs. match goal with |- wp (if ?b then _ else _) _ _ => destruct b end; [by apply wp_ret|].
  apply wp_bind. set (Q2 := fun a : bool => _).
  assert (forall b, Q2 b w) as H2.
  { intros b. unfold Q2. destruct b; [by apply wp_ret|]. case_decide; [by apply wp_ret|].
    eapply wp_check_resp_room; [done|done|auto]. }
  destruct (rq_minorversion q =? 0); [by apply wp_ret|].
  destruct (d_session data) as [p|] eqn:Hp; [|by apply wp_ret].
  destruct (data_session _ _ _ _ _ _ Hd Hp) as [s Hs]. by apply wp_bind, (wp_get_session _ p s), wp_ret.
Qed.

(** ** SEQUENCE *)

(** The slot of an accepted request: the next sequence number, nothing cached. *)
Lemma wp_start_slot {X} pr L K p s i sl n (k : M world X) (Q : X -> world -> Prop) w :
  winv pr L K w -> sw_sessions w !! p = Some s -> fc_slots s !! i = Some sl ->
  unprotected pr (session_id s) i ->
  (forall w' s' sl', winv pr L K w' -> same_rest w w' -> res_keep L (sw_res w) (sw_res w') ->
     (forall r, caches (sw_sessions w') r -> caches (sw_sessions w) r) ->
     sw_sessions w' !! p = Some s' -> session_id s' = session_id s -> clientid_record s' = clientid_record s ->
     fc_slots s' !! i = Some sl' -> sequence sl' = n -> cached_result sl' = None -> wp k Q w') ->
  wp (upd_slot p i (with_sequence n);; release_slot p i;; k) Q w.
Proof.
  intros Hinv Hs Hi Hun HQ. apply wp_bind, (wp_upd_slot_run _ p s i sl); [done..|].
  pose proof (lookup_lt_Some _ _ _ Hi) as Hlt.
  set (s1 := with_slots _ s). set (w1 := set_sessions _ w).
  assert (winv pr L K w1) as H1 by (eapply winv_upd_slot_keep; [done..|by left|done]).
  assert (sw_sessions w1 !! p = Some s1) as Hs1 by apply lookup_insert_eq.
  assert (fc_slots s1 !! i = Some (with_sequence n sl)) as Hi1 by (by apply list_lookup_insert_eq).
  apply wp_bind. eapply (wp_release_slot pr L K p s1 i (with_sequence n sl)); [done..|]. intros m' Hk Hw.
  eapply (HQ _ _ (with_cached None (with_sequence n sl))); [done|done|done| |apply lookup_insert_eq|done|done| |done|done].
  - intros r Hr. cbn in Hr. destruct (caches_slot _ p s1 i _ r Hs1 Hr) as [|Hr1]; [done|].
    destruct (caches_slot _ p s i _ r Hs Hr1) as [Hc|]; [|done]. by exists p, s, i, sl.
  - apply list_lookup_insert_eq. unfold s1. cbn. by rewrite length_insert.
Qed.

(** The lease of the client of a session, where there is one. *)
Definition lease_ok (now : Z) w (sid : Z) : Prop :=
  forall p s c, sw_table w !! sid = Some p -> sw_sessions w !! p = Some s ->
    sw_clients w !! clientid_record s = Some c -> valid_lease lease_lifetime now c = true.

Lemma named_slot_Some now w sid slotid p s sl :
  named_slot now w sid slotid = Some (p, s, sl) ->
  sw_table w !! sid = Some p /\ sw_sessions w !! p = Some s /\ fc_slots s !! Z.to_nat slotid = Some sl.
Proof.
  unfold named_slot. intros (p' & Hp & (s' & Hs & (c & Hc & H)%bind_Some)%bind_Some)%bind_Some.
  destruct (negb _); [done|]. destruct (_ <=? _); [done|].
  apply fmap_Some in H as (sl' & Hsl & H). by simplify_eq.
Qed.

(** An accepted request is the next one of its slot, so not a protected one unless it is the next
    one there. *)
Lemma accepted_unprotected pr L K now w sid slotid seq :
  winv pr L K w -> verdict now w sid slotid seq = seq_accepted ->
  match pr with
  | Some (sid', i, n, _) => ~ (sid = sid' /\ Z.to_nat slotid = i /\ seq = u32 (n + 1))
  | None => True
  end -> unprotected pr sid (Z.to_nat slotid).
Proof.
  intros Hinv Hv Hpr. unfold verdict in Hv. destruct (named_slot _ _ _ _) as [[[p s] sl]|] eqn:Hn; [|done].
  apply named_slot_Some in Hn as (Ht & Hs & Hi). destruct pr as [[[[sid' i] n] R]|]; [|done].
  intros -> ->. apply Hpr. destruct (wi_prot _ _ _ _ Hinv) as [_ Hp].
  destruct (Hp p s Ht Hs) as (sl' & r & c & Hi' & Hsq & _). simplify_eq.
  repeat case_match; try done. by split_and!; [..|symmetry; apply Z.eqb_eq].
Qed.

Section op_sequence.
Context (pr : @protection B) (L : list positive) (now : Z) (q : compound_request A C) (data : data_t).
Context (sid slotid seq : Z) (ct : bool) (w : world).
Hypothesis Hdata : data_ok pr L None data w.
Hypothesis Hfirst : preserved_clientid data = None.
Hypothesis Hslotid : 0 <= slotid.
Hypothesis Hminor : rq_minorversion q <> 0.
Hypothesis Hgrant : verdict now w sid slotid seq = seq_accepted -> unprotected pr sid (Z.to_nat slotid).

(** What the rules for the three verdicts promise. *)
Definition refused_post (data' : data_t) w' : Prop :=
  data_ok pr L None data' w' /\ holds_slot data' /\ (lease_ok now w sid -> sw_server w' = sw_server w).
Definition replay_post r (data' : data_t) w' : Prop :=
  sw_server w' = sw_server w /\ exists c, sw_res w !! r = Some c /\ replay_ok pr L (reply_of c) data' w'.
Definition accepted_post (res : nfs_req_result) (data' : data_t) w' : Prop :=
  data_ok pr L (Some (sid, Z.to_nat slotid, seq)) data' w' /\ sa_cachethis data' = ct /\
  (res = NFS_REQ_OK /\ holds_slot data' \/ res = NFS_REQ_ERROR).
Definition sequence_post (res : nfs_req_result) (data' : data_t) w' : Prop :=
  match verdict now w sid slotid seq with
  | seq_refused => res = NFS_REQ_ERROR /\ refused_post data' w'
  | seq_replay r => res = NFS_REQ_REPLAY /\ replay_post r data' w'
  | seq_accepted => accepted_post res data' w'
  end.

Lemma fresh_data : d_slot data = None /\ d_session data = None /\ sa_cachethis data = false.
Proof using Hdata. destruct Hdata. unfold slot_ok in *. by destruct (d_slot data). Qed.

(** Refused after the session was looked up: its reference is given back. *)
Lemma wp_refused p data' w1 (Q : unit -> world -> Prop) :
  winv pr (d_res data :: L) [p] w1 -> nrefs (d_res data) L (sw_sessions w1) = 0%nat ->
  (lease_ok now w sid -> sw_server w1 = sw_server w) ->
  d_res data' = d_res data -> d_slot data' = None -> d_session data' = None -> sa_cachethis data' = false ->
  (forall cl, preserved_clientid data' = Some cl -> is_Some (sw_clients w1 !! cl)) ->
  (forall w', refused_post data' w' -> Q tt w') ->
  wp (dec_session_ref p) Q w1.
Proof using Hdata.
  intros Hinv Hown Hsv E1 E2 E3 E4 Hcl HQ. eapply wp_dec_session_ref; [done|].
  intros w' Hw' Hf (T & Cl & Sv). apply HQ. split; [|split; [|by rewrite Sv]].
  - constructor; rewrite ?E1, ?E3.
    + done.
    + eapply nrefs_shrink; [by eapply frame_caches|done].
    + unfold slot_ok. by rewrite E2.
    + done.
    + rewrite Cl. done.
  - intros x i. by rewrite E2.
Qed.

(** A retry: the response of the compound is dropped for the cached one. *)
Lemma wp_replayed p s i sl r data' w1 (Q : @op_ret B C -> world -> Prop) :
  winv pr (d_res data :: L) [p] w1 -> sw_sessions w1 !! p = Some s -> fc_slots s !! i = Some sl ->
  cached_result sl = Some r -> sw_res w1 = sw_res w -> sw_server w1 = sw_server w ->
  d_res data' = d_res data -> d_session data' = None -> sa_cachethis data' = false ->
  (forall cl, preserved_clientid data' = Some cl -> is_Some (sw_clients w1 !! cl)) ->
  (forall st w', replay_post r (set_replay (p, i) r st data') w' ->
     Q (NFS_REQ_REPLAY, NFS4_OK, no_body, set_replay (p, i) r st data') w') ->
  wp (release_nfs4_res_compound (d_res data');;
      inc_res_refcnt r;;
      c ← get_res r;
      dec_session_ref p;;
      mret (NFS_REQ_REPLAY, NFS4_OK, no_body, set_replay (p, i) r (c_status c) data')) Q w1.
Proof using Hdata.
  intros Hinv Hs Hi Hc Hr Hsv E1 E2 E3 Hcl HQ. rewrite E1. apply wp_bind.
  pose proof (slot_refs_cached p s i sl r _ Hs Hi Hc) as Hin.
  assert (exists c, sw_res w1 !! r = Some c) as [c Hrc].
  { pose proof (wi_res _ _ _ _ Hinv r) as Hx. destruct (sw_res w1 !! r); [eauto|].
    pose proof (nrefs_cached_pos r (d_res data :: L) _ p s i sl Hs Hi Hc). lia. }
  eapply wp_release; [done|]. intros m Hk Hm.
  destruct (Hk r c) as [n Hmr]; [apply elem_of_app; by left|done|].
  apply wp_bind. eapply wp_inc_res; [done|done|]. intros m2 Hm2 Hinv2.
  apply wp_bind; eapply (wp_get_res _ r); [done|]. apply wp_bind. eapply wp_dec_session_ref; [done|].
  intros w' Hw' (F1 & F2 & F3) (T & Cl & Sv). apply wp_ret, HQ. split; [by rewrite Sv|].
  exists c. split; [by rewrite <- Hr|]. constructor; cbn.
  - done.
  - done.
  - done.
  - destruct (F2 r _ ltac:(left) Hm2) as [k Hk']. by eexists.
  - intros cl Hpc. rewrite Cl. by apply Hcl.
Qed.

(** A new request, from the first change of the slot on. *)
Lemma wp_accepted p s sl data' w1 (Q : @op_ret B C -> world -> Prop) :
  winv pr (d_res data :: L) [p] w1 -> nrefs (d_res data) L (sw_sessions w1) = 0%nat ->
  sw_table w1 !! sid = Some p ->
  sw_sessions w1 !! p = Some s -> session_id s = sid -> fc_slots s !! Z.to_nat slotid = Some sl ->
  unprotected pr sid (Z.to_nat slotid) -> u32 (sequence sl + 1) = seq ->
  d_res data' = d_res data -> (forall cl, preserved_clientid data' = Some cl -> is_Some (sw_clients w1 !! cl)) ->
  (forall res st body data2 w', accepted_post res data2 w' -> Q (res, st, body, data2) w') ->
  wp (upd_slot p (Z.to_nat slotid) (with_sequence (u32 (sequence sl + 1)));;
      release_slot p (Z.to_nat slotid);;
      srv ← gets sw_server;
      let body := sr_resok4 sid (u32 (sequence sl + 1)) slotid (u32 (nb_slots s - 1))
                    (u32 (ca_maxrequests (fore_channel_attrs s) - 1))
                    (if chan_down (clientid_record s) srv then 1 else 0) in
      let data := set_slot (Some p) (p, Z.to_nat slotid) seq ct data' in
      status ← check_resp_room (rq_minorversion q) data (op_resp_size data);
      if decide (status <> NFS4_OK) then
        dec_session_ref p;;
        mret (NFS_REQ_ERROR, status, body,
              set_op_resp_size 4 (set_slot None (p, Z.to_nat slotid) seq ct data))
      else
        check_session_conn p (rq_addr q) true;;
        mret (NFS_REQ_OK, NFS4_OK, body, data)) Q w1.
Proof using Hdata.
  intros Hinv Hown Ht Hs Hid Hi Hun Hseq E1 Hcl HQ.
  eapply wp_start_slot; [done..|by rewrite Hid|].
  intros w2 s2 sl2 Hw2 (T2 & C2 & S2) Hk2 Hc2 Hs2 Hid2 Hcl2 Hi2 Hsq2 Hca2.
  apply wp_bind, wp_gets. cbv zeta.
  set (data2 := set_slot (Some p) _ seq ct data').
  assert (data_ok pr L (Some (sid, Z.to_nat slotid, seq)) data2 w2) as Hd2.
  { constructor; cbn; rewrite ?E1; [done| | |done|rewrite C2; done].
    - eapply nrefs_shrink; [apply Hc2|done].
    - split; [done|]. split; [done|]. exists s2, sl2. by rewrite Hid2, Hsq2. }
  apply wp_bind. eapply wp_check_resp_room; [done|done|]. intros st. case_decide.
  - apply wp_bind. eapply wp_dec_session_ref; [apply (do_inv _ _ _ _ _ Hd2)|].
    intros w' Hw' Hf (T & Cl & Sv). apply wp_ret, HQ. split; [|by split; [|right]].
    constructor; cbn; [done| | |done|rewrite Cl; apply (do_client _ _ _ _ _ Hd2)].
    + eapply nrefs_shrink; [by eapply frame_caches|apply (do_own _ _ _ _ _ Hd2)].
    + split; [done|]. split; [done|]. destruct (wi_table _ _ _ _ Hw' sid p) as (s' & Hs' & Hid'); [congruence|].
      destruct Hf as [F _]. destruct (F p s' Hs') as (s0 & Hs0 & _ & Hf0 & _). simplify_eq.
      exists s', sl2. by rewrite Hf0, Hsq2.
  - apply wp_bind. eapply wp_check_session_conn; [apply (do_inv _ _ _ _ _ Hd2)|done|].
    intros b w' Hw' Hf (T & Cl & Sv) _ _. apply wp_ret, HQ.
    assert (holds_slot data2) as Hh by (intros x i [= <- _]; done).
    split; [|split; [done|by left]]. eapply data_ok_frame; [done|done|done|done|]. by rewrite Cl.
Qed.

Lemma wp_op_sequence (Q : @op_ret B C -> world -> Prop) :
  (forall res st body data' w', sequence_post res data' w' -> Q (res, st, body, data') w') ->
  wp (nfs4_op_sequence now q data sid slotid seq ct) Q w.
Proof using Hdata Hfirst Hslotid Hminor Hgrant.
  intros HQ. unfold nfs4_op_sequence. apply Z.eqb_neq in Hminor as ->.
  destruct fresh_data as (E1 & E2 & E3).
  destruct Hdata as [Hinv Hown _ _ _]. rewrite E2 in Hinv. unfold sequence_post, verdict, named_slot in HQ.
  apply wp_bind. eapply wp_Session_Get_Pointer; [done| |].
  { intros Ht. apply wp_ret, HQ. rewrite Ht. split; [done|]. split; [done|]. split; [|done].
    intros x i. by rewrite E1. }
  intros p s Ht Hs Hid Hinv1. set (s1 := with_refcount _ s). set (w1 := set_sessions _ w).
  assert (sw_sessions w1 !! p = Some s1) as Hs1 by apply lookup_insert_eq.
  assert (nrefs (d_res data) L (sw_sessions w1) = 0%nat) as Hown1.
  { eapply nrefs_shrink; [|done]. by eapply caches_same. }
  apply wp_bind, (wp_get_session _ p s1); [done|]. rewrite Ht in HQ. cbn in HQ. rewrite Hs in HQ. cbn in HQ.
  destruct (wi_session _ _ _ _ Hinv p s Hs) as [Hnb Hmr _ _ [c Hc] _]. rewrite Hc in HQ. cbn in HQ.
  apply wp_bind. eapply wp_client_reserve_or_expire; [done|done| |].
  2:{ (* the lease has run out *)
    intros w2 Hv Hinv2 Hf2. rewrite Hv in HQ. cbn in HQ. cbn [negb]. apply wp_bind.
    eapply wp_refused; [done| | |done..|by rewrite Hfirst|].
    - eapply nrefs_shrink; [by eapply frame_caches|done].
    - intros Hl. by rewrite (Hl p s c Ht Hs Hc) in Hv.
    - intros w' Hw'. by apply wp_ret, HQ. }
  intros Hv Hinv2. rewrite Hv in HQ. cbn in HQ. cbn [negb]. set (w2 := set_clients _ w1) in *.
  assert (forall cl, Some (clientid_record s1) = Some cl -> is_Some (sw_clients w2 !! cl)) as Hcl.
  { intros cl [= <-]. cbn. rewrite lookup_insert_eq. eauto. }
  change (fore_channel_attrs s1) with (fore_channel_attrs s).
  destruct (Z.leb_spec (ca_maxrequests (fore_channel_attrs s)) slotid) as [|Hlt].
  { apply wp_bind. eapply (wp_refused p (set_preserved (clientid_record s1) data)); try done. intros w' Hw'. by apply wp_ret, HQ. }
  destruct (lookup_lt_is_Some_2 (fc_slots s) (Z.to_nat slotid)) as [sl Hsl]; [lia|]. rewrite Hsl in HQ. cbn in HQ.
  apply wp_bind, (wp_get_slot _ p s1 _ sl); [done|done|].
  destruct (Z.eqb_spec (u32 (sequence sl + 1)) seq) as [Hseq|Hseq]; cbn [negb].
  { eapply (wp_accepted p s1 sl (set_preserved (clientid_record s1) data)); try done. apply Hgrant. unfold verdict, named_slot.
    rewrite Ht. cbn. rewrite Hs. cbn. rewrite Hc. cbn. rewrite Hv. cbn.
    destruct (Z.leb_spec (ca_maxrequests (fore_channel_attrs s)) slotid); [lia|]. rewrite Hsl. cbn.
    by rewrite (proj2 (Z.eqb_eq _ _) Hseq). }
  destruct (sequence sl =? seq).
  2:{ apply wp_bind. eapply (wp_refused p (set_preserved (clientid_record s1) data)); try done. intros w' Hw'. by apply wp_ret, HQ. }
  destruct (cached_result sl) as [r|] eqn:Hr.
  2:{ apply wp_bind. eapply (wp_refused p (set_preserved (clientid_record s1) data)); try done. intros w' Hw'. by apply wp_ret, HQ. }
  eapply (wp_replayed p s1 _ sl _ (set_preserved (clientid_record s1) data)); try done. intros st w' Hw'. by apply HQ.
Qed.

End op_sequence.

(** ** The other operations *)

Lemma wp_op_destroy_session pr L g (q : compound_request A C) data sid (Q : @op_ret B C -> world -> Prop) w :
  data_ok pr L g data w -> holds_slot data ->
  (forall res st body w', res = NFS_REQ_OK \/ res = NFS_REQ_ERROR -> data_ok pr L g data w' ->
     sw_server w' = sw_server w -> Q (res, st, body, data) w') ->
  wp (nfs4_op_destroy_session q data sid) Q w.
Proof.
  intros Hd Hh HQ. unfold nfs4_op_destroy_session. destruct (_ =? _); [apply wp_ret, HQ; auto|].
  apply wp_bind. eapply wp_Session_Get_Pointer; [apply (do_inv _ _ _ _ _ Hd)|intros _; apply wp_ret, HQ; auto|].
  intros p s Ht Hs Hid Hinv1. set (w1 := set_sessions _ w) in *.
  assert (frame (d_res data :: L) w w1) as F1 by (eapply frame_update; [done|by repeat split]).
  apply wp_bind. eapply wp_check_session_conn; [done|apply lookup_insert_eq|].
  intros b w2 Hinv2 F2 (T2 & C2 & S2) _ _. destruct b; cbn [negb].
  - apply wp_bind. eapply wp_Session_Del; [done|]. intros b w3 Hinv3 F3 _ C3 S3.
    apply wp_bind. eapply wp_dec_session_ref; [done|]. intros w4 Hinv4 F4 (T4 & C4 & S4). apply wp_ret.
    assert (data_ok pr L g data w4) as Hd4.
    { eapply data_ok_frame; [done|done|done|eauto using frame_trans|]. rewrite C4, C3, C2. done. }
    assert (sw_server w4 = sw_server w) as Hsv by (rewrite S4, S3, S2; done).
    destruct b; apply HQ; auto.
  - apply wp_bind. eapply wp_dec_session_ref; [done|]. intros w4 Hinv4 F4 (T4 & C4 & S4). apply wp_ret, HQ.
    + by right.
    + eapply data_ok_frame; [done|done|done|eauto using frame_trans|]. rewrite C4, C2. done.
    + rewrite S4, S2. done.
Qed.

Lemma data_ok_server pr L g data w f : data_ok pr L g data w -> data_ok pr L g data (set_server f w).
Proof. intros []. constructor; [by apply winv_set_server|done..]. Qed.

(** Writing to the compound's own response. *)
Lemma wp_upd_own pr L g data f (Q : unit -> world -> Prop) w :
  data_ok pr L g data w -> (forall c, res_refcnt (f c) = res_refcnt c) ->
  (forall c, sw_res w !! d_res data = Some c ->
     data_ok pr L g data (set_res <[d_res data := f c]> w) -> Q tt (set_res <[d_res data := f c]> w)) ->
  wp (upd_res (d_res data) f) Q w.
Proof.
  intros Hd Hf HQ. destruct (winv_res_live _ _ _ _ _ (do_inv _ _ _ _ _ Hd)) as [c Hc].
  eapply wp_upd_res; [apply (do_inv _ _ _ _ _ Hd)|done|done|left; by eapply data_not_cached|].
  intros Hw. apply (HQ c Hc). destruct Hd. by constructor.
Qed.

(** ** One operation, and all of them *)

(** The requests a protected slot puts up with: any but the next one of the slot. *)
Definition not_next (pr : @protection B) (arg : nfs_argop4 A) : Prop :=
  match pr, arg with
  | Some (sid', i, n, _), opsequence sid slotid seq _ =>
      ~ (sid = sid' /\ Z.to_nat slotid = i /\ seq = u32 (n + 1))
  | _, _ => True
  end.

(** Slot numbers are unsigned. *)
Definition arg_ok (arg : nfs_argop4 A) : Prop :=
  match arg with opsequence _ slotid _ _ => in_u 32 slotid | _ => True end.

(** Where a compound stands when an operation has returned OK or an error. *)
Definition op_post pr L g (res : nfs_req_result) data w : Prop :=
  data_ok pr L g data w /\ (res = NFS_REQ_OK /\ holds_slot data \/ res = NFS_REQ_ERROR).

Lemma op_post_data pr L g res data data' w :
  d_res data' = d_res data -> d_session data' = d_session data -> d_slot data' = d_slot data ->
  d_sequence data' = d_sequence data -> sa_cachethis data' = sa_cachethis data ->
  preserved_clientid data' = preserved_clientid data ->
  op_post pr L g res data w -> op_post pr L g res data' w.
Proof.
  intros E1 E2 E3 E4 E5 E6 [Hd Hr]. split; [by eapply data_ok_data|].
  destruct Hr as [[-> Hh]| ->]; [left; split; [done|by eapply holds_slot_data]|by right].
Qed.

(** The response of an operation is written, and the size of the compound's grows. *)
Lemma wp_finish_op pr L g data pos opcode res st (v : nfs_resop4 B)
    (Q : nfs_req_result * nfsstat4 * data_t -> world -> Prop) w :
  op_post pr L g res data w ->
  (forall data' w', op_post pr L g res data' w' -> sa_cachethis data' = sa_cachethis data ->
     sw_server w' = sw_server w -> Q (res, st, data') w') ->
  wp (upd_res (d_res data) (with_resop pos v);; complete_op data pos opcode res st) Q w.
Proof.
  intros Hp HQ. assert (res <> NFS_REQ_REPLAY) as Hr by (by destruct Hp as [_ [[-> _]| ->]]).
  apply wp_bind. eapply wp_upd_own; [apply Hp|done|]. intros c Hc Hd1. unfold complete_op.
  rewrite decide_False by done. cbv zeta. set (data1 := if _ && _ then _ else data).
  assert (d_res data1 = d_res data /\ d_session data1 = d_session data /\ d_slot data1 = d_slot data /\
    d_sequence data1 = d_sequence data /\ sa_cachethis data1 = sa_cachethis data /\
    preserved_clientid data1 = preserved_clientid data) as (E1 & E2 & E3 & E4 & E5 & E6)
    by (unfold data1; by destruct (_ && _)).
  clearbody data1. cbn [d_res add_resp_size]. rewrite E1.
  assert (forall w2, data_ok pr L g data w2 -> sw_server w2 = sw_server w ->
            Q (res, st, add_resp_size (4 + op_resp_size data1) data1) w2) as HQ2.
  { intros w2 Hd2 Hs2. apply HQ; [|done|done]. eapply (op_post_data _ _ _ _ data); [done..|]. split; [done|apply Hp]. }
  apply wp_bind. case_decide.
  - eapply wp_upd_own; [done|done|]. intros c2 _ Hd2. by apply wp_ret, HQ2.
  - by apply wp_ret, wp_ret, HQ2.
Qed.

(** An operation past the first. *)
Lemma wp_process_later pr L g now (q : compound_request A C) data pos arg
    (Q : nfs_req_result * nfsstat4 * data_t -> world -> Prop) w :
  data_ok pr L g data w -> holds_slot data ->
  0 < Z.of_nat pos \/ match arg with opsequence _ _ _ _ => rq_minorversion q = 0 | _ => True end ->
  (forall res st data' w', op_post pr L g res data' w' -> sa_cachethis data' = sa_cachethis data ->
     Q (res, st, data') w') ->
  wp (process_one_op now q data pos arg) Q w.
Proof.
  intros Hd Hh Hpos HQ. unfold process_one_op. cbv zeta. set (opcode := if _ <? _ then 0 else _).
  assert (data_ok pr L g (set_op_resp_size 4 data) w) as Hd0 by (by eapply (data_ok_data _ _ _ data)).
  apply wp_bind. eapply wp_op_checks; [done|]. intros st Hst. case_decide as Hbad.
  { apply wp_bind, (wp_upd_own _ _ _ _ _ _ _ Hd0); [done|]. intros c1 _ Hd1.
    apply wp_bind, (wp_upd_own _ _ _ _ _ _ _ Hd1); [done|]. intros c2 _ Hd2.
    apply wp_ret, HQ; [|done]. split; [by eapply (data_ok_data _ _ _ (set_op_resp_size 4 data))|by right]. }
  set (data1 := set_op_resp_size _ _).
  assert (data_ok pr L g data1 w) as Hd1 by (by eapply (data_ok_data _ _ _ data)).
  assert (holds_slot data1) as Hh1 by done.
  apply wp_bind. unfold op_call.
  assert (forall res st body data2 rop w2, op_post pr L g res data2 w2 -> sa_cachethis data2 = sa_cachethis data ->
     wp ((if decide (res = NFS_REQ_REPLAY) then mret tt
          else upd_res (d_res data2) (with_resop pos {| resop := rop; res_status := st; res_body := body |}));;
         complete_op data2 pos opcode res st) Q w2) as Hfin.
  { intros res st2 body data2 rop w2 Hp Hc. rewrite decide_False by (by destruct Hp as [_ [[-> _]| ->]]).
    eapply wp_finish_op; [done|]. intros data3 w3 Hp3 Hc3 _. apply HQ; [done|congruence]. }
  match goal with |- wp (match _ with Some _ => _ | None => ?f end) ?Q2 _ =>
    assert (wp f Q2 w) as Hother end.
  { apply wp_bind, wp_gets, wp_bind, wp_modify, wp_ret, Hfin; [|done].
    assert (data_ok pr L g data1 (set_server (fun _ => or_server (funct opcode arg (rq_minorversion q) (d_ctx data1) (sw_server w))) w))
      as Hd2 by (by apply data_ok_server).
    split; [by eapply (data_ok_data _ _ _ data1)|]. destruct (or_ok _); [by left|by right]. }
  destruct (Z.eqb_spec opcode 0) as [|Hnz]; [done|].
  destruct arg as [sid slot seq ct|sid|op a]; [| |done].
  - exfalso. unfold opcode in *. cbn [argop] in *. destruct Hpos as [Hpos|Hm].
    + destruct (_ <? _); [done|]. by destruct Hst.
    + rewrite Hm in Hnz. by apply Hnz.
  - apply wp_bind. eapply wp_op_destroy_session; [done|done|]. intros res st2 body w2 Hres Hd2 _.
    apply wp_ret, Hfin; [|done]. split; [done|]. destruct Hres; auto.
Qed.

Lemma wp_process_ops_later pr L g now (q : compound_request A C) args : forall data pos st
    (Q : nfs_req_result * nfsstat4 * data_t -> world -> Prop) w,
  data_ok pr L g data w -> holds_slot data ->
  0 < Z.of_nat pos \/ Forall (fun arg => match arg with opsequence _ _ _ _ => rq_minorversion q = 0 | _ => True end) args ->
  (forall res st' data' w', op_post pr L g res data' w' -> sa_cachethis data' = sa_cachethis data ->
     Q (res, st', data') w') ->
  wp (process_ops now q data pos args st) Q w.
Proof.
  induction args as [|arg args IH]; intros data pos st Q w Hd Hh Hpos HQ; cbn [process_ops].
  { apply wp_ret, HQ; [|done]. split; [done|by left]. }
  apply wp_bind. eapply wp_process_later; [done|done| |].
  { destruct Hpos as [|Ha]; [by left|]. apply Forall_cons in Ha as [Ha _]. by right. }
  intros res st' data' w' [Hd' Hr] Hc. case_decide as Hok.
  - apply IH; [done|by destruct Hr as [[_ ?]| ?]; [|congruence]|left; lia|].
    intros res2 st2 data2 w2 Hp2 Hc2. apply HQ; [done|congruence].
  - apply wp_ret, HQ; [|done]. by split.
Qed.

(** ** A compound that starts with SEQUENCE *)

(** What the table and the configuration have to say for SEQUENCE to be called: no
    permissions are asked for, and its response fits. *)
Class SequenceAdmitted : Prop := {
  sequence_perms : exp_perm_flags NFS4_OP_SEQUENCE = 0;
  sequence_fits : u32 (compound_res_size + 4 + resp_size NFS4_OP_SEQUENCE + 4 + 4) <= default_max_resp_room
}.
Context `{!SequenceAdmitted}.

Lemma wp_op_checks_first (q : compound_request A C) data arg (Q : nfsstat4 -> world -> Prop) w :
  d_session data = None -> d_resp_size data = compound_res_size -> Q NFS4_OK w ->
  wp (op_checks q data 0 arg NFS4_OP_SEQUENCE) Q w.
Proof using All.
  intros Hs Hr HQ. unfold op_checks. cbn [andb Z.ltb Z.of_nat Z.compare].
  rewrite Hs. apply wp_bind. replace (if rq_minorversion q =? 0 then None else None) with (@None positive)
    by (by destruct (_ =? _)). apply wp_ret.
  rewrite sequence_perms. cbn. unfold check_resp_room. rewrite Hs, Hr.
  replace (if rq_minorversion q =? 0 then None else None) with (@None positive) by (by destruct (_ =? _)).
  destruct (Z.ltb_spec default_max_resp_room (u32 (compound_res_size + 4 + resp_size NFS4_OP_SEQUENCE + 4 + 4)));
    [pose proof sequence_fits; lia|]. by apply wp_ret.
Qed.

Lemma wp_process_ops_sequence pr L now (q : compound_request A C) data sid slotid seq ct args
    (Q : nfs_req_result * nfsstat4 * data_t -> world -> Prop) w :
  data_ok pr L None data w -> preserved_clientid data = None -> d_resp_size data = compound_res_size ->
  in_u 32 slotid -> 0 < rq_minorversion q ->
  (verdict now w sid slotid seq = seq_accepted -> unprotected pr sid (Z.to_nat slotid)) ->
  (forall res st data' w', sequence_post pr L now sid slotid seq ct w res data' w' ->
     (res = NFS_REQ_REPLAY -> st = cached_result_status data') -> Q (res, st, data') w') ->
  wp (process_ops now q data 0 (opsequence sid slotid seq ct :: args) NFS4_OK) Q w.
Proof using All.
  intros Hd Hp Hrs Hslot Hminor Hg HQ. cbn [process_ops].
  assert (d_session data = None) as Hses by (eapply fresh_data; done).
  assert (LastOpcode (rq_minorversion q) <? NFS4_OP_SEQUENCE = false) as Hlast.
  { unfold LastOpcode. destruct (Z.eqb_spec (rq_minorversion q) 0); [lia|]. by destruct (_ =? 1). }
  apply wp_bind. unfold process_one_op. cbn [argop]. rewrite Hlast. cbv zeta.
  apply wp_bind, wp_op_checks_first; [done|done|]. rewrite decide_False by (intros Hx; by apply Hx).
  set (data1 := set_op_resp_size _ _). unfold op_call. cbn [Z.eqb NFS4_OP_SEQUENCE].
  apply wp_bind, wp_bind. eapply (wp_op_sequence pr L); [|done|unfold in_u in *; lia|lia|done|].
  { by eapply (data_ok_data _ _ _ data). }
  intros res st body data2 w2 Hpost. apply wp_ret. unfold sequence_post in *.
  destruct (verdict now w sid slotid seq) as [|r|] eqn:Hv.
  - destruct Hpost as [-> (Hd2 & Hh2 & Hs2)]. rewrite decide_False by done.
    eapply (wp_finish_op pr L None); [split; [done|by right]|]. intros data3 w3 [Hd3 _] _ Hs3.
    rewrite decide_False by done. apply wp_ret, HQ; [|done]. split; [done|].
    split; [done|]. split; [|by rewrite Hs3].
    intros x i Hx. destruct Hd3 as [_ _ Hsl _ _]. unfold slot_ok in Hsl. by rewrite Hx in Hsl.
  - destruct Hpost as [-> Hpost]. rewrite decide_True by done. apply wp_bind, wp_ret. unfold complete_op.
    rewrite decide_True by done. apply wp_ret. rewrite decide_False by done. by apply wp_ret, HQ.
  - destruct Hpost as (Hd2 & Hc2 & Hres). rewrite decide_False by (by destruct Hres as [[-> _]| ->]).
    eapply (wp_finish_op pr L); [by split|]. intros data3 w3 [Hd3 Hres3] Hc3 Hs3. case_decide.
    + eapply wp_process_ops_later; [done|by destruct Hres3 as [[_ ?]| ?]; [|congruence]|left; lia|].
      intros res4 st4 data4 w4 [Hd4 Hr4] Hc4. apply HQ; [|by destruct Hr4 as [[-> _]| ->]].
      split; [done|]. split; [congruence|done].
    + apply wp_ret, HQ; [|by destruct Hres3 as [[-> _]| ->]]. split; [done|]. split; [congruence|done].
Qed.

(** ** The end of a compound *)

(** The slot takes over a reference to the reply. *)
Lemma wp_cache_reply {X} pr L K (q : compound_request A C) data p s i sl r (k : M world X) (Q : X -> world -> Prop) w :
  winv pr (r :: L) K w -> sw_sessions w !! p = Some s -> fc_slots s !! i = Some sl -> cached_result sl = None ->
  unprotected pr (session_id s) i ->
  (forall w' s' sl', winv pr L K w' -> same_rest w w' -> sw_res w' = sw_res w ->
     sw_global_sequence w' = sw_global_sequence w ->
     sw_sessions w' !! p = Some s' -> session_id s' = session_id s ->
     fc_slots s' !! i = Some sl' -> sequence sl' = sequence sl -> cached_result sl' = Some r -> wp k Q w') ->
  wp (upd_slot p i (with_cached (Some r));; set_slot_last_req q data (p, i);; k) Q w.
Proof using Type.
  intros Hinv Hs Hi Hc Hun HQ. apply wp_bind, (wp_upd_slot_run _ p s i sl); [done..|].
  pose proof (lookup_lt_Some _ _ _ Hi) as Hlt.
  set (s1 := with_slots _ s). set (w1 := set_sessions _ w).
  assert (winv pr L K w1) as H1.
  { eapply winv_upd_slot; [done..|by left|]. intros x. unfold slot_count. cbn [cached_result with_cached].
    rewrite Hc, count_id_cons, (decide_False (P := None = Some x)) by done. repeat case_decide; simplify_eq; lia. }
  assert (sw_sessions w1 !! p = Some s1) as Hs1 by apply lookup_insert_eq.
  assert (fc_slots s1 !! i = Some (with_cached (Some r) sl)) as Hi1 by (by apply list_lookup_insert_eq).
  apply wp_bind. unfold set_slot_last_req. cbn [fst snd].
  apply (wp_upd_slot_run _ p s1 i (with_cached (Some r) sl)); [done..|].
  eapply HQ; [by eapply winv_upd_slot_keep; eauto|done|done|done|apply lookup_insert_eq|done| | |].
  - cbn. apply list_lookup_insert_eq. unfold s1. cbn. by rewrite length_insert.
  - done.
  - done.
Qed.

Lemma wp_tail {X} (m : M world X) (n : M world unit) (Q : unit -> world -> Prop) w :
  wp (m;; n;; mret tt) Q w -> wp (m;; n) Q w.
Proof using Type.
  unfold wp, mbind, M_bind. destruct (m w) as [[a w']|]; [|done]. by destruct (n w') as [[[] w'']|].
Qed.

Lemma wp_update_lease now cl c (Q : unit -> world -> Prop) w :
  sw_clients w !! cl = Some c -> Q tt (set_clients <[cl := update_lease now c]> w) ->
  wp (client_update_lease now cl) Q w.
Proof using Type. intros Hc HQ. unfold client_update_lease. by apply wp_bind, (wp_get_client _ cl c), wp_modify. Qed.

(** The slot that has just been written has the reply, whichever session the table has. *)
Lemma protected_now pr L K w p s sid i sl r c :
  winv pr L K w -> sw_sessions w !! p = Some s -> session_id s = sid -> fc_slots s !! i = Some sl ->
  cached_result sl = Some r -> sw_res w !! r = Some c ->
  protected (Some (sid, i, sequence sl, reply_of c)) w.
Proof using Type.
  intros Hinv Hs Hid Hi Hr Hc. split; [rewrite <- Hid; apply (wi_session _ _ _ _ Hinv p s Hs)|].
  intros p' s' Ht Hs'. destruct (wi_table _ _ _ _ Hinv sid p' Ht) as (t & Ht' & Hid').
  assert (p' = p) as -> by (eapply (wi_inj _ _ _ _ Hinv); [done|done|congruence]). simplify_eq. by exists sl, r, c.
Qed.

(** The reply a slot remembers of a request. *)
Definition remembered (ct : bool) (c : COMPOUND4res_extended B) : nfsstat4 * list (nfs_resop4 B) :=
  reply_of (if ct then c else uncached_res c).

Lemma remembered_refcnt ct n c : remembered ct (with_refcnt n c) = remembered ct c.
Proof using Type. by destruct ct. Qed.

Lemma wp_finish_lease now data (Q : unit -> world -> Prop) w :
  (forall cl, preserved_clientid data = Some cl -> is_Some (sw_clients w !! cl)) ->
  (forall f, (forall cl, is_Some (sw_clients w !! cl) -> is_Some (f (sw_clients w) !! cl)) -> Q tt (set_clients f w)) ->
  wp (match preserved_clientid data with Some cl => client_update_lease now cl | None => mret tt end) Q w.
Proof using Type.
  intros Hcl HQ. destruct (preserved_clientid data) as [cl|].
  - destruct (Hcl cl eq_refl) as [c Hc]. apply (wp_update_lease _ _ c); [done|]. apply HQ.
    intros x Hx. rewrite lookup_insert. by case_decide.
  - apply wp_ret. specialize (HQ id). destruct w. by apply HQ.
Qed.

Lemma protected_clients pr w f : protected pr w -> protected pr (set_clients f w).
Proof using Type. by destruct pr as [[[[? ?] ?] ?]|]. Qed.

Section complete.
Context (pr : @protection B) (L : list positive) (now : Z) (q : compound_request A C) (data : data_t).

(** A compound without a slot. *)
Lemma wp_complete_plain st res (Q : unit -> world -> Prop) w :
  data_ok pr L None data w ->
  (forall w', winv pr (d_res data :: L) [] w' -> sw_server w' = sw_server w -> Q tt w') ->
  wp (complete_nfs4_compound now q data st res) Q w.
Proof using Type.
  intros Hd HQ. unfold complete_nfs4_compound. apply wp_bind. eapply wp_upd_own; [done|done|].
  intros c Hc Hd1. destruct (fresh_data _ _ _ _ Hd1) as (E1 & E2 & E3). rewrite E3, E1. apply wp_bind, wp_ret.
  apply wp_finish_lease; [apply (do_client _ _ _ _ _ Hd1)|]. intros f Hf. apply HQ; [|done].
  apply winv_set_clients; [|done]. pose proof (do_inv _ _ _ _ _ Hd1) as Hi. by rewrite E2 in Hi.
Qed.

(** A retry: the cached response is sent as it is. *)
Lemma wp_complete_replay R (Q : unit -> world -> Prop) w :
  replay_ok pr L R data w ->
  (forall w' c, winv pr (d_res data :: L) [] w' -> sw_server w' = sw_server w ->
     sw_res w' !! d_res data = Some c -> reply_of c = R -> Q tt w') ->
  wp (complete_nfs4_compound now q data (cached_result_status data) NFS_REQ_REPLAY) Q w.
Proof using Type.
  intros [Hinv Hs Hct (c & Hc & HR & Hst) Hcl] HQ. unfold complete_nfs4_compound. apply wp_bind.
  assert (with_c_status (cached_result_status data) c = c) as Hid by (rewrite <- Hst; by destruct c).
  eapply wp_upd_res; [done|done|done|right; by rewrite Hid|]. rewrite Hid. intros Hinv1. rewrite Hct.
  apply wp_bind. rewrite bool_decide_false by (intros Hx; by apply Hx). rewrite andb_false_r. cbn [andb].
  assert (wp (match d_slot data with Some _ | None => mret () end)
             (fun _ => wp (match preserved_clientid data with
                Some cl => client_update_lease now cl | None => mret () end) Q)
             (set_res (fun _ => <[d_res data := c]> (sw_res w)) w)) as Hend.
  { case_match; apply wp_ret, wp_finish_lease; try done; intros f Hf; (eapply HQ; [by apply winv_set_clients|done|apply lookup_insert_eq|done]). }
  destruct (d_slot data) as [sl|]; [|done]. by destruct (head _).
Qed.

(** An accepted request: its slot has the reply. *)
Lemma wp_complete_accepted sid i n st res (Q : unit -> world -> Prop) w :
  data_ok pr L (Some (sid, i, n)) data w -> 0 < rq_minorversion q -> res <> NFS_REQ_REPLAY ->
  head (argop <$> rq_argarray q) = Some NFS4_OP_SEQUENCE ->
  (forall w' c, winv pr (d_res data :: L) (option_list (d_session data)) w' ->
     sw_res w' !! d_res data = Some c ->
     protected (Some (sid, i, n, remembered (sa_cachethis data) c)) w' -> Q tt w') ->
  wp (complete_nfs4_compound now q data st res) Q w.
Proof using Type.
  intros Hd Hminor Hres Hhead HQ. unfold complete_nfs4_compound. apply wp_bind.
  eapply wp_upd_own; [done|done|]. intros c Hc [Hinv Hown Hslot Hgrant Hcl].
  unfold slot_ok in Hslot. destruct (d_slot data) as [[p j]|]; [|done].
  destruct Hslot as (<- & -> & s & sl & Hs & Hid & Hi & Hn & Hca).
  cbn [grant_ok] in Hgrant. rewrite <- Hid in Hgrant. apply wp_bind.
  set (w1 := set_res _ w) in *. set (c1 := with_c_status st c).
  assert (sw_res w1 !! d_res data = Some c1) as Hc1 by apply lookup_insert_eq.
  destruct (sa_cachethis data).
  - apply wp_bind, wp_ret. cbn [fst snd].
    eapply wp_cache_reply; [done|done|done|done|done|].
    intros w2 s2 sl2 Hw2 (T2 & C2 & S2) R2 G2 Hs2 Hid2 Hi2 Hsq2 Hca2.
    rewrite <- R2 in Hc1. eapply wp_inc_res; [done|done|]. intros m' Hm' Hinv3.
    apply wp_finish_lease; [by cbn; rewrite C2|]. intros f Hf.
    eapply HQ; [by apply winv_set_clients|done|]. apply protected_clients.
    assert (protected (Some (session_id s2, i, sequence sl2, reply_of (with_refcnt (res_refcnt c1 + 1) c1)))
              (set_res (fun _ => m') w2)) as Hp by (by eapply protected_now).
    rewrite Hid2, Hsq2, Hn, Hid in Hp. done.
  - rewrite Hhead. rewrite bool_decide_true by done.
    destruct (Z.ltb_spec 0 (rq_minorversion q)); [|lia]. cbn [andb Z.eqb NFS4_OP_SEQUENCE Pos.eqb fst snd].
    apply wp_bind. eapply wp_release_slot; [done..|]. intros m Hk Hinv2.
    set (s2 := with_slots _ s) in *. set (w2 := set_sessions _ _) in *.
    assert (sw_sessions w2 !! p = Some s2) as Hs2 by apply lookup_insert_eq.
    assert (fc_slots s2 !! i = Some (with_cached None sl)) as Hi2
      by (apply list_lookup_insert_eq; by eapply lookup_lt_Some).
    destruct (Hk _ _ ltac:(left) Hc1) as [n2 Hc2].
    apply wp_bind; eapply (wp_get_res _ (d_res data)); [done|].
    apply wp_bind. eapply wp_alloc_res; [done|done|]. intros rc m3 Hnew -> Hinv3.
    assert (rc <> d_res data) as Hne by (intros ->; cbn in Hnew; congruence).
    apply wp_tail. eapply wp_cache_reply; [done|done|done|done|done|].
    intros w4 s4 sl4 Hw4 (T4 & C4 & S4) R4 G4 Hs4 Hid4 Hi4 Hsq4 Hca4. apply wp_ret.
    apply wp_finish_lease; [by cbn; rewrite C4|]. intros f Hf.
    eapply HQ; [by apply winv_set_clients|cbn; rewrite R4; cbn; rewrite lookup_insert_ne by done; done|].
    apply protected_clients.
    assert (protected (Some (session_id s4, i, sequence sl4, reply_of (uncached_res (with_refcnt n2 c1)))) w4) as Hp
      by (eapply protected_now; try done; rewrite R4; apply lookup_insert_eq).
    rewrite Hid4, Hsq4 in Hp. cbn in Hp. by rewrite Hn, Hid in Hp.
Qed.

End complete.
(** ** The whole compound *)

Lemma winv_reprotect pr pr2 L K w : winv pr L K w -> protected pr2 w -> winv pr2 L K w.
Proof using Type. intros [] Hp. by constructor. Qed.

Lemma wp_data_Free pr pr2 L data (Q : unit -> world -> Prop) w :
  winv pr L (option_list (d_session data)) w -> protected pr2 w ->
  (forall w', winv pr L [] w' -> protected pr2 w' -> res_keep L (sw_res w) (sw_res w') ->
     sw_server w' = sw_server w -> Q tt w') ->
  wp (compound_data_Free data) Q w.
Proof using Type.
  intros Hinv Hp HQ. unfold compound_data_Free. destruct (d_session data) as [p|].
  - assert (winv pr2 L [p] w) as H2 by (by eapply winv_reprotect).
    eapply wp_mono; [apply wp_and|].
    + eapply (wp_dec_session_ref pr L [] p (fun _ w' => winv pr L [] w')); [done|]. auto.
    + eapply (wp_dec_session_ref pr2 L [] p (fun _ w' => winv pr2 L [] w' /\
        res_keep L (sw_res w) (sw_res w') /\ sw_server w' = sw_server w)); [done|].
      intros w' Hw' (_ & F & _) (_ & _ & Sv). done.
    + cbn. intros [] w' (H1 & [] & H4 & H5). by apply HQ.
  - apply wp_ret, HQ; try done. apply res_keep_refl.
Qed.

(** The data a compound starts with. *)
Lemma wp_start_compound {X} pr L (q : compound_request A C) (k : positive -> M world X) (Q : X -> world -> Prop) w :
  winv pr L [] w ->
  (forall r m, data_ok pr L None (new_data q r) (set_res (fun _ => m) w) ->
     (forall x c, caches (sw_sessions w) x -> m !! x = Some c -> sw_res w !! x = Some c) ->
     wp (k r) Q (set_res (fun _ => m) w)) ->
  wp (r ← alloc_res new_res; k r) Q w.
Proof using Type.
  intros Hinv HQ. apply wp_bind. eapply wp_alloc_res; [done|done|]. intros r m Hr -> Hinv1.
  pose proof (wi_res _ _ _ _ Hinv r) as H0. rewrite Hr in H0. apply HQ.
  - by constructor.
  - intros x c (p & s & i & sl & Hs & Hi & Hx). rewrite lookup_insert. case_decide; [|done]. subst x.
    pose proof (nrefs_cached_pos r L _ p s i sl Hs Hi Hx). lia.
Qed.

(** Any compound that does not ask for the next request of the protected slot. *)
Definition request_ok (q : compound_request A C) : Prop := Forall arg_ok (rq_argarray q).
Definition leaves_alone (pr : @protection B) (q : compound_request A C) : Prop := Forall (not_next pr) (rq_argarray q).

(** What becomes of a compound that starts with SEQUENCE. *)
Definition compound_post pr L now sid slotid seq ct w r w' : Prop :=
  winv pr (r :: L) [] w' /\
  match verdict now w sid slotid seq with
  | seq_refused => lease_ok now w sid -> sw_server w' = sw_server w
  | seq_replay r0 => sw_server w' = sw_server w /\ exists c c', sw_res w !! r0 = Some c /\
      sw_res w' !! r = Some c' /\ reply_of c' = reply_of c
  | seq_accepted => exists c, sw_res w' !! r = Some c /\
      protected (Some (sid, Z.to_nat slotid, seq, remembered ct c)) w'
  end.

Lemma verdict_replay_caches now w sid slotid seq r :
  verdict now w sid slotid seq = seq_replay r -> caches (sw_sessions w) r.
Proof using Type.
  unfold verdict. destruct (named_slot now w sid slotid) as [[[p s] sl]|] eqn:Hn; [|done].
  apply named_slot_Some in Hn as (_ & Hs & Hi). repeat case_match; try done. intros [= <-]. by exists p, s, (Z.to_nat slotid), sl.
Qed.

Lemma wp_Compound_sequence pr L now (q : compound_request A C) sid slotid seq ct args
    (Q : nfs_req_result * positive -> world -> Prop) w :
  winv pr L [] w -> compound_checks q = go_on -> rq_argarray q = opsequence sid slotid seq ct :: args ->
  0 < rq_minorversion q -> in_u 32 slotid -> not_next pr (opsequence sid slotid seq ct) ->
  (forall r w', compound_post pr L now sid slotid seq ct w r w' -> Q (NFS_REQ_OK, r) w') ->
  wp (nfs4_Compound now q) Q w.
Proof using All.
  intros Hinv Hgo Hargs Hminor Hslot Hnn HQ. unfold nfs4_Compound. eapply (wp_start_compound pr L q); [done|].
  intros r m Hd0 Hold. rewrite Hgo. apply wp_bind.
  apply (wp_upd_own _ _ _ _ _ _ _ Hd0); [done|]. intros c0 Hc0 Hd1.
  apply wp_bind. rewrite Hargs in Hd1 |- *. match type of Hd1 with data_ok _ _ _ _ ?w0 => set (w1 := w0) in * end.
  assert (d_res (new_data q r) = r) as Hr by done. unfold compound_post in HQ.
  eapply wp_process_ops_sequence; [done|done|done|done|done| |].
  { intros Hv. eapply (accepted_unprotected pr _ [] now w); [done|done|].
    by destruct pr as [[[[? ?] ?] ?]|]. }
  intros res st data w2 Hpost Hst. unfold sequence_post in Hpost.
  change (verdict now w1 sid slotid seq) with (verdict now w sid slotid seq) in Hpost.
  destruct (verdict now w sid slotid seq) as [|r0|] eqn:Hv.
  - destruct Hpost as [-> (Hd2 & _ & Hsv)]. destruct (fresh_data _ _ _ _ Hd2) as (_ & E2 & _).
    apply wp_bind. eapply wp_complete_plain; [done|]. intros w3 Hw3 S3.
    apply wp_bind. eapply (wp_data_Free pr None); [by rewrite E2|done|]. intros w4 Hw4 _ _ S4.
    apply wp_ret, HQ. split; [done|]. intros Hl. rewrite S4, S3. by apply Hsv.
  - destruct Hpost as [-> (Hsv & c & Hc & Hro)]. rewrite (Hst eq_refl). apply wp_bind.
    eapply wp_complete_replay; [done|]. intros w3 c3 Hw3 S3 Hc3 HR3.
    apply wp_bind. eapply (wp_data_Free pr None); [by rewrite (ro_session _ _ _ _ _ Hro)|done|].
    intros w4 Hw4 _ Hk S4. apply wp_ret, HQ. split; [done|]. split; [by rewrite S4, S3|].
    destruct (Hk _ _ ltac:(left) Hc3) as [n Hc4]. exists c, (with_refcnt n c3). split; [|done].
    pose proof (verdict_replay_caches _ _ _ _ _ _ Hv) as Hca.
    assert (r0 <> r) as Hne.
    { intros ->. destruct Hca as (p & s & i & sl & Hs & Hi & Hx). destruct Hd0 as [_ Hown _ _ _].
      pose proof (nrefs_cached_pos r L _ p s i sl Hs Hi Hx). cbn [sw_sessions set_res] in Hown. rewrite Hr in Hown. lia. }
    apply Hold; [done|]. cbn in Hc. by rewrite lookup_insert_ne in Hc.
  - destruct Hpost as (Hd2 & Hct & Hres). apply wp_bind. subst ct.
    eapply wp_complete_accepted; [done|done|by destruct Hres as [[-> _]| ->]|by rewrite Hargs|].
    intros w3 c3 Hw3 Hc3 Hp3. apply wp_bind. eapply wp_data_Free; [done|done|].
    intros w4 Hw4 Hp4 Hk S4. apply wp_ret, HQ. split; [done|].
    destruct (Hk _ _ ltac:(left) Hc3) as [n Hc4]. exists (with_refcnt n c3).
    by rewrite remembered_refcnt.
Qed.

(** A compound that is not given a slot: SEQUENCE is not its first operation, or not one of its
    minor version. *)
Lemma wp_Compound_no_slot pr L now (q : compound_request A C) (Q : nfs_req_result * positive -> world -> Prop) w :
  winv pr L [] w -> compound_checks q = go_on ->
  match rq_argarray q with opsequence _ _ _ _ :: _ => False | _ :: _ => True | [] => False end \/
  Forall (fun arg => match arg with opsequence _ _ _ _ => rq_minorversion q = 0 | _ => True end) (rq_argarray q) ->
  (forall res r w', winv pr (r :: L) [] w' -> Q (res, r) w') ->
  wp (nfs4_Compound now q) Q w.
Proof using All.
  intros Hinv Hgo Hargs HQ. unfold nfs4_Compound. eapply (wp_start_compound pr L q); [done|].
  intros r m Hd0 _. rewrite Hgo. apply wp_bind, (wp_upd_own _ _ _ _ _ _ _ Hd0); [done|].
  intros c0 Hc0 Hd1. apply wp_bind.
  assert (forall res st data w2, op_post pr L None res data w2 ->
    wp (complete_nfs4_compound now q data st res;; compound_data_Free data;; mret (NFS_REQ_OK, d_res data)) Q w2) as Hend.
  { intros res st data w2 [Hd2 _]. destruct (fresh_data _ _ _ _ Hd2) as (_ & E2 & _).
    apply wp_bind. eapply wp_complete_plain; [done|]. intros w3 Hw3 _.
    apply wp_bind. eapply (wp_data_Free pr None); [by rewrite E2|done|]. intros w4 Hw4 _ _ _. by apply wp_ret, HQ. }
  destruct Hargs as [Hargs|Hargs].
  - destruct (rq_argarray q) as [|arg args]; [done|]. cbn [process_ops]. apply wp_bind.
    eapply wp_process_later; [exact Hd1|done|right; by destruct arg|].
    intros res st data w2 [Hd2 Hr2] _. case_decide.
    + eapply wp_process_ops_later; [done|by destruct Hr2 as [[_ ?]| ?]; [|congruence]|left; lia|]. auto.
    + apply wp_ret, Hend. by split.
  - eapply wp_process_ops_later; [exact Hd1|done|by right|]. auto.
Qed.

(** Every compound is defined and keeps the invariant. *)
Lemma wp_Compound pr L now (q : compound_request A C) (Q : nfs_req_result * positive -> world -> Prop) w :
  winv pr L [] w -> request_ok q -> leaves_alone pr q -> 0 <= rq_minorversion q ->
  (forall res r w', winv pr (r :: L) [] w' -> Q (res, r) w') ->
  wp (nfs4_Compound now q) Q w.
Proof using All.
  intros Hinv Hok Hpr Hmv HQ.
  destruct (compound_checks q) as [|st|] eqn:Hchk.
  2:{ unfold nfs4_Compound. eapply (wp_start_compound pr L q); [done|]. intros r m Hd0 _. rewrite Hchk.
      apply wp_bind, (wp_upd_own _ _ _ _ _ _ _ Hd0); [done|]. intros c0 _ Hd1.
      apply wp_ret, HQ, (do_inv _ _ _ _ _ Hd1). }
  2:{ unfold nfs4_Compound. eapply (wp_start_compound pr L q); [done|]. intros r m Hd0 _. rewrite Hchk.
      apply wp_ret, HQ, (do_inv _ _ _ _ _ Hd0). }
  destruct (decide (rq_minorversion q = 0)) as [Hz|Hnz].
  { apply (wp_Compound_no_slot pr L); [done|done|right; eapply Forall_impl; [exact Hok|]; by intros []|done]. }
  destruct (rq_argarray q) as [|[sid slotid seq ct|sid|op a] args] eqn:Hargs.
  - apply (wp_Compound_no_slot pr L); [done|done|rewrite Hargs; by right|done].
  - unfold request_ok, leaves_alone in *. rewrite Hargs in *.
    apply Forall_cons in Hok as [Hok _]. apply Forall_cons in Hpr as [Hpr _].
    eapply wp_Compound_sequence; [done|done|done|lia|done|done|]. intros r w' [Hw' _]. by apply HQ.
  - apply (wp_Compound_no_slot pr L); [done|done| |done]. rewrite Hargs. by left.
  - apply (wp_Compound_no_slot pr L); [done|done| |done]. rewrite Hargs. by left.
Qed.

End rules.
