(* ===== verification/CompoundTheorems.v ===== *)
(** * Properties of COMPOUND and its reply cache

    The server as a sequence of events on its sessions and responses: compounds, replies
    that have been sent, new sessions, clients that expire.  Every event is defined and
    keeps the counts exact, and a request is executed once however often it is sent. *)
From S2P Require Import Prelude Status Owners Lease Session Compound SessionInv CompoundInv.
Local Open Scope Z_scope.

Section theorems.
Context {A B C S : Type} `{O : Ops A B C S}.
Abbreviation world := (session_world B S).
Implicit Types (w : world) (p r : positive) (L K : list positive).

(** ** New sessions *)

Lemma cached_fresh n : omap cached_result (replicate n fresh_slot) = [].
Proof. induction n; done. Qed.

(** A session that is added, in the table and held once. *)
Lemma winv_add_session pr L w p s :
  winv pr L [] w -> sw_sessions w !! p = None -> session_id s = sw_global_sequence w + 1 ->
  cached s = [] -> nb_slots s = Z.of_nat (length (fc_slots s)) ->
  ca_maxrequests (fore_channel_attrs s) = nb_slots s -> refcount s = 2 ->
  is_Some (sw_clients w !! clientid_record s) ->
  winv pr L [p] (set_table <[session_id s := p]>
    (set_sessions <[p := s]> (set_global_sequence (sw_global_sequence w + 1) w))).
Proof.
  intros Hinv Hp Hid Hc Hn Hmr Href Hcl.
  assert (forall q t, sw_sessions w !! q = Some t -> session_id t <= sw_global_sequence w) as Hold
    by (intros q t Hq; apply (wi_session _ _ _ _ Hinv q t Hq)).
  assert (forall sid q, sw_table w !! sid = Some q -> sid <= sw_global_sequence w /\ q <> p) as Htab.
  { intros sid q Ht. destruct (wi_table _ _ _ _ Hinv sid q Ht) as (t & Hq & <-). split; [by eapply Hold|].
    intros ->. congruence. }
  destruct Hinv as [Hres Hses Htb Hheld Hinj Hprot]. constructor.
  - intros r. specialize (Hres r). cbn [sw_res set_table set_sessions set_global_sequence sw_sessions].
    assert (nrefs r L (<[p := s]> (sw_sessions w)) = nrefs r L (sw_sessions w)) as ->; [|done].
    unfold nrefs. by rewrite slot_refs_insert_new, Hc.
  - intros q t. cbn. rewrite lookup_insert. case_decide as Hpq.
    + subst q. intros [= <-]. constructor; try done; [|lia|lia].
      rewrite count_id_cons, decide_True by done. rewrite bool_decide_true by apply lookup_insert_eq. cbn. lia.
    + intros Hq. destruct (Hses q t Hq). constructor; try done; [|lia].
      rewrite count_id_cons, decide_False by done. cbn [sw_table]. rewrite lookup_insert_ne by lia. done.
  - intros sid q. cbn. rewrite !lookup_insert. repeat case_decide; intros; simplify_eq; eauto.
    + exfalso. by destruct (Htab sid q).
  - intros q. rewrite list_elem_of_singleton. intros ->. cbn. rewrite lookup_insert_eq. eauto.
  - intros q1 q2 t1 t2. cbn. rewrite !lookup_insert. repeat case_decide; intros; simplify_eq; eauto.
    + pose proof (Hold _ _ ltac:(eassumption)). lia.
    + pose proof (Hold _ _ ltac:(eassumption)). lia.
  - destruct pr as [[[[sid i] n] R]|]; [|done]. destruct Hprot as [Hle Hpr]. split; [cbn; lia|].
    intros q t. cbn. rewrite lookup_insert_ne by lia. intros Ht. destruct (Htab sid q Ht) as [_ Hq].
    rewrite lookup_insert_ne by done. by apply Hpr.
Qed.

Lemma wp_create_session pr L nb addr found attrs (Q : nfsstat4 -> world -> Prop) w :
  winv pr L [] w -> is_Some (sw_clients w !! found) -> 0 <= nb -> 0 <= ca_maxrequests attrs ->
  (forall w', winv pr L [] w' -> Q NFS4_OK w') ->
  wp (create_session nb addr found attrs) Q w.
Proof.
  intros Hinv Hcl Hnb Hmr HQ. unfold create_session, nfs41_Build_sessionid. apply wp_bind, wp_gets.
  set (p := fresh _). assert (sw_sessions w !! p = None) as Hp by (apply not_elem_of_dom, is_fresh).
  cbv zeta. apply wp_bind, wp_bind, wp_gets, wp_bind, wp_modify, wp_ret, wp_bind, wp_modify.
  set (s := Build_nfs41_session_t _ _ _ _ _ _ _).
  apply wp_bind. unfold nfs41_Session_Set.
  apply wp_bind, (wp_get_session _ p s); [apply lookup_insert_eq|]. apply wp_bind, wp_gets. cbn [sw_table set_sessions set_global_sequence].
  destruct (sw_table w !! session_id s) as [q|] eqn:Ht.
  { exfalso. destruct (wi_table _ _ _ _ Hinv _ q Ht) as (t & Hq & Hid).
    pose proof (so_id _ _ _ _ _ _ (wi_session _ _ _ _ Hinv q t Hq)). cbn in *. lia. }
  apply wp_bind, wp_modify, wp_ret. cbn [negb].
  apply wp_bind. eapply wp_dec_session_ref.
  { eapply winv_add_session; [done|done|done| | |done|done|done].
    - apply cached_fresh.
    - cbn. rewrite length_replicate. lia. }
  intros w' Hw' _ _. by apply wp_ret, HQ.
Qed.

(** ** Events *)

(** What happens to the sessions and responses: a compound is executed, a reply has been sent
    (the [i]th of those outstanding), CREATE_SESSION makes a session, a client expires, other
    procedures change a client record or the state of the server. *)
Inductive event : Type :=
  | Request (now : Z) (q : compound_request A C)
  | Reply_sent (i : nat)
  | Create_session (nb : Z) (addr : sockaddr_t) (found : positive) (attrs : channel_attrs4)
  | Expire (cl : positive)
  | Client (cl : positive) (c : nfs_client_id_t)
  | Server (f : S -> S).

Definition run_event (e : event) L : M world (list positive) :=
  match e with
  | Request now q => out ← nfs4_Compound now q; mret (out.2 :: L)
  | Reply_sent i => r ← deref (L !! i); nfs4_Compound_Free r;; mret (delete i L)
  | Create_session nb addr found attrs => create_session nb addr found attrs;; mret L
  | Expire cl => expire_client expire_state cl;; mret L
  | Client cl c => modify (set_clients <[cl := c]>);; mret L
  | Server f => modify (set_server f);; mret L
  end.

(** The arguments are of their types, and name what there is. *)
Definition event_ok (e : event) L w : Prop :=
  match e with
  | Request _ q => request_ok q /\ in_u 32 (rq_minorversion q)
  | Reply_sent i => (i < length L)%nat
  | Create_session nb _ found attrs =>
      is_Some (sw_clients w !! found) /\ in_u 32 nb /\ in_u 32 (ca_maxrequests attrs)
  | Expire cl => is_Some (sw_clients w !! cl)
  | Client _ _ | Server _ => True
  end.

(** The events a protected slot puts up with. *)
Definition event_leaves (pr : @protection B) (e : event) : Prop :=
  match e with Request _ q => leaves_alone pr q | _ => True end.

Inductive steps (P : event -> Prop) : list positive -> world -> list positive -> world -> Prop :=
  | steps_refl L w : steps P L w L w
  | steps_trans e L w L1 w1 L2 w2 :
      P e -> event_ok e L w -> run_event e L w = Some (L1, w1) -> steps P L1 w1 L2 w2 -> steps P L w L2 w2.

Definition initial w : Prop := sw_res w = ∅ /\ sw_sessions w = ∅ /\ sw_table w = ∅.
Definition reachable L w : Prop := exists w0, initial w0 /\ steps (fun _ => True) [] w0 L w.

Context `{!SequenceAdmitted}.

Lemma wp_event pr e L (Q : list positive -> world -> Prop) w :
  winv pr L [] w -> event_ok e L w -> event_leaves pr e ->
  (forall L' w', winv pr L' [] w' -> Q L' w') -> wp (run_event e L) Q w.
Proof using All.
  intros Hinv Hok Hpr HQ. destruct e as [now q|i|nb addr found attrs|cl|cl c|f]; cbn [run_event event_ok] in *.
  - apply wp_bind. eapply wp_Compound; [done|apply Hok|done|apply Hok|]. intros res r w' Hw'. by apply wp_ret, HQ.
  - destruct (lookup_lt_is_Some_2 L i Hok) as [r Hr]. apply wp_bind, (wp_deref _ r); [done|].
    apply wp_bind. eapply wp_release; [eapply winv_perm; [by apply delete_Permutation|done|done]|].
    intros m _ Hm. by apply wp_ret, HQ.
  - destruct Hok as (Hcl & Hnb & Hmr). apply wp_bind.
    eapply wp_create_session; [done|done|apply Hnb|apply Hmr|]. intros w' Hw'. by apply wp_ret, HQ.
  - destruct Hok as [c Hc]. apply wp_bind. eapply wp_expire_client; [done|done|]. intros w' Hw' _ _. by apply wp_ret, HQ.
  - apply wp_bind, wp_modify, wp_ret, HQ. by apply winv_insert_client.
  - apply wp_bind, wp_modify, wp_ret, HQ. by apply winv_set_server.
Qed.

Lemma steps_inv pr P L w L' w' :
  (forall e, P e -> event_leaves pr e) -> steps P L w L' w' -> winv pr L [] w -> winv pr L' [] w'.
Proof using All.
  intros HP. induction 1 as [|e L w L1 w1 L2 w2 He Hok Hrun _ IH]; [done|]. intros Hinv. apply IH.
  pose proof (wp_event pr e L (fun L' w' => winv pr L' [] w') w Hinv Hok (HP e He) ltac:(done)) as Hwp.
  unfold wp in Hwp. by rewrite Hrun in Hwp.
Qed.

Lemma reachable_inv L w : reachable L w -> winv None L [] w.
Proof using All.
  intros (w0 & (Hr & Hs & Ht) & Hst). eapply steps_inv; [|done|].
  - intros [] _; cbn; try done. apply Forall_forall. by intros [].
  - constructor; try done.
    + intros r. rewrite Hr, lookup_empty, Hs. done.
    + intros p s. by rewrite Hs, lookup_empty.
    + intros sid p. by rewrite Ht, lookup_empty.
    + intros p. by rewrite elem_of_nil.
    + intros p q s t. by rewrite Hs, lookup_empty.
Qed.

(** ** Properties *)

(** C27: whatever compounds, replies, new sessions and expiries have happened, every further event runs to
    its end: no assertion on a reference count fails, and no freed response or session is touched.  Each
    response has exactly as many references as there are replies to be sent and slots that cache it, and
    the sessions between two events are those of the table, with the table's reference alone: none
    leaks and none goes too early. *)
Theorem compound_events_safe L w :
  reachable L w ->
  (forall e, event_ok e L w -> is_Some (run_event e L w)) /\
  (forall r, match sw_res w !! r with
             | Some c => res_refcnt c = Z.of_nat (count_id r L + count_id r (slot_refs (sw_sessions w))) /\
                         1 <= res_refcnt c
             | None => r ∉ L /\ r ∉ slot_refs (sw_sessions w)
             end) /\
  (forall p s, sw_sessions w !! p = Some s -> refcount s = 1 /\ sw_table w !! session_id s = Some p).
Proof using All.
  intros Hinv%reachable_inv. split; [|split].
  - intros e Hok. assert (wp (run_event e L) (fun _ _ => True) w) as Hwp.
    { eapply wp_event; [done|done| |done]. destruct e; cbn; try done. apply Forall_forall. by intros []. }
    unfold wp in Hwp. destruct (run_event e L w) as [x|]; [by exists x|done].
  - intros r. pose proof (wi_res _ _ _ _ Hinv r) as Hr. destruct (sw_res w !! r); [done|]. unfold nrefs in Hr.
    split; intros Hin%count_id_pos; lia.
  - intros p s Hs. pose proof (wi_session _ _ _ _ Hinv p s Hs) as [_ _ Href Hlive _ _].
    cbn [count_id filter list_filter length] in Href. case_bool_decide; [|cbn in *; lia]. split; [cbn in *; lia|done].
Qed.

Lemma u32_next n : u32 (n + 1) <> n.
Proof using Type.
  unfold u32, wrapu. pose proof (Z.div_mod (n + 1) (2 ^ 32) ltac:(lia)) as H1. intros H2. lia.
Qed.

(** The slot of a reply that is protected answers a retry from the cache. *)
Lemma protected_verdict L K now w sid slotid seq R p s sl :
  winv (Some (sid, Z.to_nat slotid, seq, R)) L K w -> named_slot now w sid slotid = Some (p, s, sl) ->
  exists r c, verdict now w sid slotid seq = seq_replay r /\ sw_res w !! r = Some c /\ reply_of c = R.
Proof using Type.
  intros Hinv Hn. pose proof (named_slot_Some _ _ _ _ _ _ _ Hn) as (Ht & Hs & Hi).
  destruct (wi_prot _ _ _ _ Hinv) as [_ Hp]. destruct (Hp p s Ht Hs) as (sl' & r & c & Hi' & Hsq & Hr & Hc & HR).
  simplify_eq. exists r, c. split; [|done]. unfold verdict. rewrite Hn.
  destruct (Z.eqb_spec (u32 (sequence sl + 1)) (sequence sl)) as [He|_]; [by apply u32_next in He|].
  by rewrite Z.eqb_refl, Hr.
Qed.

(** A compound that SEQUENCE starts, in a world it can be run in. *)
Record sequenced (q : compound_request A C) (sid slotid seq : Z) (ct : bool) : Prop := {
  sq_checks : compound_checks q = go_on;
  sq_minor : 0 < rq_minorversion q;
  sq_slot : in_u 32 slotid;
  sq_args : exists args, rq_argarray q = opsequence sid slotid seq ct :: args
}.

Lemma run_sequenced pr L now q sid slotid seq ct w :
  winv pr L [] w -> sequenced q sid slotid seq ct -> not_next (A := A) pr (opsequence sid slotid seq ct) ->
  exists r w', nfs4_Compound now q w = Some ((NFS_REQ_OK, r), w') /\
    compound_post pr L now sid slotid seq ct w r w'.
Proof using All.
  intros Hinv [Hgo Hm Hs [args Ha]] Hn.
  assert (wp (nfs4_Compound now q) (fun out w' => out.1 = NFS_REQ_OK /\
            compound_post pr L now sid slotid seq ct w out.2 w') w) as Hwp
    by (by eapply wp_Compound_sequence).
  unfold wp in Hwp. destruct (nfs4_Compound now q w) as [[[res r] w']|]; [|done].
  destruct Hwp as [Hr Hp]. cbn in Hr. subst res. eauto.
Qed.

(** C28: a request is executed once.  When SEQUENCE has accepted it, the slot keeps its reply (all of it if
    the client asked for that, else SEQUENCE with the status of the next operation): whatever other
    requests, replies, sessions and expiries come in between, except the next request of the same slot,
    a retry with the same session, slot and sequence number gets that reply, and the state of the
    server is as the retry found it, as long as the session is there and its client's lease valid. *)
Theorem request_executed_once L w q sid slotid seq ct now res r w1 c L2 w2 q' ct' now' :
  reachable L w -> sequenced q sid slotid seq ct -> verdict now w sid slotid seq = seq_accepted ->
  nfs4_Compound now q w = Some ((res, r), w1) -> sw_res w1 !! r = Some c ->
  steps (event_leaves (Some (sid, Z.to_nat slotid, seq, remembered ct c))) (r :: L) w1 L2 w2 ->
  is_Some (named_slot now' w2 sid slotid) -> sequenced q' sid slotid seq ct' ->
  exists r' w3 c', nfs4_Compound now' q' w2 = Some ((NFS_REQ_OK, r'), w3) /\
    sw_res w3 !! r' = Some c' /\ reply_of c' = remembered ct c /\ sw_server w3 = sw_server w2.
Proof using All.
  intros Hinv%reachable_inv Hq Hv Hrun Hc Hst [[[p s] sl] Hn] Hq'.
  destruct (run_sequenced None L now q sid slotid seq ct w Hinv Hq I) as (r0 & w0 & Hrun0 & Hinv1 & Hpost).
  rewrite Hv in Hpost. simplify_eq. destruct Hpost as (c0 & Hc0 & Hp). simplify_eq.
  assert (winv (Some (sid, Z.to_nat slotid, seq, remembered ct c)) L2 [] w2) as Hinv2.
  { eapply (steps_inv _ _ (r :: L) w1); [|done|by eapply winv_reprotect]. done. }
  destruct (protected_verdict _ _ _ _ _ _ _ _ _ _ _ Hinv2 Hn) as (rc & cc & Hv2 & Hcc & HR).
  destruct (run_sequenced _ L2 now' q' sid slotid seq ct' w2 Hinv2 Hq') as (r' & w3 & Hrun3 & Hinv3 & Hpost).
  { cbn. intros (_ & _ & He). by apply (u32_next seq). }
  rewrite Hv2 in Hpost. destruct Hpost as (Hsv & c1 & c' & Hc1 & Hc' & HR').
  assert (c1 = cc) as -> by congruence.
  exists r', w3, c'. split_and!; [done|done|congruence|done].
Qed.

(** C29: a request that SEQUENCE does not accept (an unknown session, a slot out of range, a retry, a sequence
    number out of order) executes nothing: the compound ends with the state of the server as it
    was, unless it found the client's lease run out. *)
Theorem refused_request_executes_nothing L w q sid slotid seq ct now :
  reachable L w -> sequenced q sid slotid seq ct -> verdict now w sid slotid seq <> seq_accepted ->
  lease_ok now w sid ->
  exists r w', nfs4_Compound now q w = Some ((NFS_REQ_OK, r), w') /\ sw_server w' = sw_server w.
Proof using All.
  intros Hinv%reachable_inv Hq Hv Hl.
  destruct (run_sequenced None L now q sid slotid seq ct w Hinv Hq I) as (r & w' & Hrun & _ & Hpost).
  exists r, w'. split; [done|]. destruct (verdict now w sid slotid seq); [by apply Hpost|apply Hpost|done].
Qed.

End theorems.

(** ** A server that counts its operations *)
Module Demo.

(** Every operation but SEQUENCE and DESTROY_SESSION adds one to the state. *)
Definition count_op (opcode : Z) (_ : nfs_argop4 unit) (_ : Z) (_ : unit) (n : Z) : op_result unit unit Z :=
  {| or_ok := true; or_resop := opcode; or_status := NFS4_OK; or_body := tt; or_resp_size := 4; or_ctx := tt;
     or_server := n + 1 |}.

#[export] Instance counting : Ops unit unit unit Z := {
  lease_lifetime := 60; default_max_resp_room := 1048576; compound_res_size := 32; minor_versions := 7;
  resp_size := fun _ => 40; exp_perm_flags := fun _ => 0; Is_Fh_Empty := fun _ => NFS4_OK;
  export_options := fun _ => 0; funct := count_op; chan_down := fun _ _ => false; expire_state := fun _ n => n
}.

#[export] Instance counting_admits : SequenceAdmitted.
Proof. split; vm_compute; done. Qed.

Definition addr : sockaddr_t := sockaddr_in 2130706433 701.
Definition request (args : list (nfs_argop4 unit)) : compound_request unit unit :=
  {| rq_minorversion := 1; rq_tag_ok := true; rq_cred_ok := true; rq_addr := addr; rq_xid := 9; rq_ctx := tt;
     rq_argarray := args |}.
Definition put_root (slotid seq : Z) (ct : bool) : compound_request unit unit :=
  request [opsequence 1 slotid seq ct; other_op 24 tt; other_op 10 tt].

Definition after {X} (o : option (X * session_world unit Z)) (w : session_world unit Z) : session_world unit Z :=
  match o with Some (_, w') => w' | None => w end.

(** A client; it makes a session of two slots; a request in slot 0, which asks for its reply to be kept;
    one in slot 1; the reply to the first is sent. *)
Definition w0 : session_world unit Z :=
  {| sw_res := ∅; sw_sessions := ∅; sw_table := ∅; sw_global_sequence := 0;
     sw_clients := {[ 1%positive := {| cid_confirmed := CONFIRMED_CLIENT_ID; cid_lease_reservations := 0;
                                       cid_last_renew := 0 |} ]};
     sw_server := 0 |}.
Definition creation : @event unit unit Z :=
  Create_session 2 addr 1 {| ca_maxresponsesize := 65536; ca_maxresponsesize_cached := 65536;
                             ca_maxoperations := 16; ca_maxrequests := 64 |}.
Definition w1 : session_world unit Z := after (run_event creation [] w0) w0.
Definition w2 : session_world unit Z := after (nfs4_Compound 10 (put_root 0 1 true) w1) w1.
Definition w3 : session_world unit Z := after (run_event (Request 11 (put_root 1 1 false)) [1%positive] w2) w2.
Definition w4 : session_world unit Z := after (run_event (Reply_sent 1) [2%positive; 1%positive] w3) w3.

Lemma w1_reachable : reachable [] w1.
Proof.
  exists w0. split; [done|]. eapply (steps_trans _ creation); [done| |vm_compute; reflexivity|apply steps_refl].
  cbn. split; [eexists; reflexivity|]. split; vm_compute; done.
Qed.

Lemma sequenced_put_root slotid seq ct : in_u 32 slotid -> sequenced (put_root slotid seq ct) 1 slotid seq ct.
Proof. intros Hs. split; [done|done|done|by eexists]. Qed.

Lemma request_put_root slotid seq ct : in_u 32 slotid -> event_ok (Request 11 (put_root slotid seq ct)) [1%positive] w2.
Proof. intros Hs. split; [|by vm_compute]. repeat (apply Forall_cons; split; [done|]). apply Forall_nil_2. Qed.

End Demo.
#[local] Existing Instance Demo.counting.
#[local] Existing Instance Demo.counting_admits.

Lemma compound_events_safe_witness :
  is_Some (run_event (Request 10 (Demo.put_root 0 1 true)) [] Demo.w1) /\
  (forall p s, sw_sessions Demo.w1 !! p = Some s -> refcount s = 1).
Proof.
  destruct (compound_events_safe [] Demo.w1 Demo.w1_reachable) as (He & _ & Hs). split.
  - apply He. split; [|by vm_compute]. repeat (apply Forall_cons; split; [done|]). apply Forall_nil_2.
  - intros p s Hp. by apply (Hs p s).
Defined.

Lemma request_executed_once_witness :
  exists r' w5 c', nfs4_Compound 20 (Demo.put_root 0 1 false) Demo.w4 = Some ((NFS_REQ_OK, r'), w5) /\
    sw_res w5 !! r' = Some c' /\ (reply_of c').1 = NFS4_OK /\ length (reply_of c').2 = 3%nat /\ sw_server w5 = 4.
Proof.
  destruct (request_executed_once [] Demo.w1 (Demo.put_root 0 1 true) 1 0 1 true 10 NFS_REQ_OK 1%positive Demo.w2
    (default new_res (sw_res Demo.w2 !! 1%positive)) [2%positive] Demo.w4 (Demo.put_root 0 1 false) false 20)
    as (r' & w5 & c' & Hrun & Hc & HR & Hs).
  - apply Demo.w1_reachable.
  - by apply Demo.sequenced_put_root.
  - vm_compute. reflexivity.
  - vm_compute. reflexivity.
  - vm_compute. reflexivity.
  - eapply (steps_trans _ (Request 11 (Demo.put_root 1 1 false)));
      [|by apply Demo.request_put_root|vm_compute; reflexivity|].
    + apply Forall_cons. split; [by intros (_ & [=] & _)|]. repeat (apply Forall_cons; split; [done|]). apply Forall_nil_2.
    + eapply (steps_trans _ (Reply_sent 1)); [done|cbn; lia|vm_compute; reflexivity|apply steps_refl].
  - eexists. vm_compute. reflexivity.
  - by apply Demo.sequenced_put_root.
  - exists r', w5, c'. split; [done|]. split; [done|]. rewrite HR, Hs. split_and!; vm_compute; reflexivity.
Defined.

(** A gap in the sequence numbers. *)
Lemma refused_request_executes_nothing_witness :
  exists r w', nfs4_Compound 20 (Demo.put_root 0 7 true) Demo.w1 = Some ((NFS_REQ_OK, r), w') /\
    sw_server w' = sw_server Demo.w1.
Proof.
  apply (refused_request_executes_nothing [] Demo.w1 (Demo.put_root 0 7 true) 1 0 7 true 20).
  - apply Demo.w1_reachable.
  - by apply Demo.sequenced_put_root.
  - by vm_compute.
  - intros p s c Ht Hs Hc. vm_compute in Ht. injection Ht as <-. vm_compute in Hs. injection Hs as <-.
    vm_compute in Hc. injection Hc as <-. reflexivity.
Defined.
