(* ===== verification/Cidr.v ===== *)
(** * Address blocks

    [cidr/cidr_get.c], [cidr/cidr_compare.c] and [cidr/cidr_inaddr.c]: blocks of IPv4 and
    IPv6 addresses, as client lists name them, and the test whether a client is in
    one.  Addresses and masks are 16 bytes; an IPv4 address has its four bytes at the
    end, behind those of a mapped IPv6 address. *)
From S2P Require Import Prelude.
Local Open Scope Z_scope.

Definition CIDR_NOPROTO : Z := 0.
Definition CIDR_IPV4 : Z := 1.
Definition CIDR_IPV6 : Z := 2.

Record CIDR : Set := {
  c_addr : list Z;
  c_mask : list Z;
  c_proto : Z
}.

(** Bit [i] of an array of bytes, bit 0 being the highest of the first byte. *)
Definition bit_at (a : list Z) (i : Z) : Z :=
  let oct := i / 8 in
  let bit := 7 - i `mod` 8 in
  Z.land (default 0 (a !! Z.to_nat oct)) (Z.shiftl 1 bit).

(** The loop over the [n] bits of a mask from bit [i]. *)
Fixpoint pflen_loop (mask : list Z) (n : nat) (i : Z) (foundnmh : bool) (pflen : Z) : Z :=
  match n with
  | O => pflen
  | S n =>
      if negb (bit_at mask i =? 0) then
        if foundnmh then -1 else pflen_loop mask n (i + 1) foundnmh (pflen + 1)
      else pflen_loop mask n (i + 1) true pflen
  end.

Definition cidr_get_pflen (block : CIDR) : Z :=
  if c_proto block =? CIDR_IPV4 then pflen_loop (c_mask block) 32 96 false 0
  else if c_proto block =? CIDR_IPV6 then pflen_loop (c_mask block) 128 0 false 0
  else -1.

(** The loop over the [n] bits from bit [i]. *)
Fixpoint contains_loop (big little : list Z) (n : nat) (i : Z) : Z :=
  match n with
  | O => 0
  | S n => if negb (bit_at big i =? bit_at little i) then -1 else contains_loop big little n (i + 1)
  end.

Definition cidr_contains (big little : CIDR) : Z :=
  if negb (c_proto big =? c_proto little) then -1
  else if negb (c_proto big =? CIDR_IPV4) && negb (c_proto big =? CIDR_IPV6) then -1
  else
    let pflen := cidr_get_pflen big in
    if cidr_get_pflen little <? pflen then -1
    else if c_proto big =? CIDR_IPV4
    then contains_loop (c_addr big) (c_addr little) (Z.to_nat (pflen + 96 - 96)) 96
    else contains_loop (c_addr big) (c_addr little) (Z.to_nat pflen) 0.

Fixpoint equals_loop (one two : CIDR) (n : nat) (i : nat) : Z :=
  match n with
  | O => 0
  | S n =>
      if negb (default 0 (c_addr one !! i) =? default 0 (c_addr two !! i)) then -1
      else if negb (default 0 (c_mask one !! i) =? default 0 (c_mask two !! i)) then -1
      else equals_loop one two n (S i)
  end.

Definition cidr_equals (one two : CIDR) : Z :=
  if negb (c_proto one =? c_proto two) then -1
  else if c_proto one =? CIDR_IPV4 then equals_loop one two 4 12 else equals_loop one two 16 0.

(** [ntohl] of a host with the low byte first. *)
Definition ntohl (x : Z) : Z :=
  Z.lor (Z.lor (Z.shiftl (Z.land x 255) 24) (Z.shiftl (Z.land (Z.shiftr x 8) 255) 16))
        (Z.lor (Z.shiftl (Z.land (Z.shiftr x 16) 255) 8) (Z.land (Z.shiftr x 24) 255)).

(** [s_addr] is in network order. *)
Definition cidr_from_inaddr (s_addr : Z) : CIDR :=
  let taddr := ntohl s_addr in
  {| c_addr := replicate 10 0 ++ replicate 2 255 ++
       [Z.land (Z.shiftr taddr 24) 255; Z.land (Z.shiftr taddr 16) 255; Z.land (Z.shiftr taddr 8) 255;
        Z.land taddr 255];
     c_mask := replicate 16 255;
     c_proto := CIDR_IPV4 |}.

Definition cidr_from_in6addr (s6_addr : list Z) : CIDR :=
  {| c_addr := s6_addr; c_mask := replicate 16 255; c_proto := CIDR_IPV6 |}.

(** ** What is contained

    The bits of the addresses of the protocol, as booleans. *)
Definition family_bits (p : Z) : nat * Z := if p =? CIDR_IPV4 then (32%nat, 96) else (128%nat, 0).

Fixpoint bits_from (a : list Z) (n : nat) (i : Z) : list bool :=
  match n with O => [] | S n => negb (bit_at a i =? 0) :: bits_from a n (i + 1) end.

(** The address and the mask of a block, bit by bit. *)
Definition addr_bits (c : CIDR) : list bool := bits_from (c_addr c) (family_bits (c_proto c)).1 (family_bits (c_proto c)).2.
Definition mask_bits (c : CIDR) : list bool := bits_from (c_mask c) (family_bits (c_proto c)).1 (family_bits (c_proto c)).2.

Lemma length_bits_from a n i : length (bits_from a n i) = n.
Proof. revert i. induction n as [|n IH]; intros i; simpl; [done|by rewrite IH]. Qed.

(** A masked bit is 0 or the mask. *)
Lemma bit_at_cases a i : bit_at a i = 0 \/ bit_at a i = Z.shiftl 1 (7 - i `mod` 8).
Proof.
  unfold bit_at. set (x := default 0 _). set (k := 7 - _). assert (0 <= k) as Hk by (unfold k; pose proof (Z.mod_pos_bound i 8); lia).
  rewrite Z.shiftl_1_l. destruct (Z.testbit x k) eqn:E; [right|left]; apply Z.bits_inj'; intros j Hj;
    rewrite Z.land_spec, Z.pow2_bits_eqb, ?Z.bits_0 by done; destruct (Z.eqb_spec k j) as [<-|]; by rewrite ?E, ?andb_false_r.
Qed.

Lemma bit_at_eqb a b i : (bit_at a i =? bit_at b i) = bool_decide (negb (bit_at a i =? 0) = negb (bit_at b i =? 0)).
Proof.
  assert (Z.shiftl 1 (7 - i `mod` 8) <> 0) as Hne.
  { rewrite Z.shiftl_1_l. pose proof (Z.mod_pos_bound i 8). pose proof (Z.pow_pos_nonneg 2 (7 - i `mod` 8)). lia. }
  destruct (bit_at_cases a i) as [-> | ->], (bit_at_cases b i) as [-> | ->];
    repeat match goal with |- context [?x =? ?y] => destruct (Z.eqb_spec x y) end; try done; congruence.
Qed.

Lemma contains_loop_prefix a b m n i :
  (n <= m)%nat -> contains_loop a b n i = if bool_decide (take n (bits_from a m i) = take n (bits_from b m i)) then 0 else -1.
Proof.
  revert m i. induction n as [|n IH]; intros [|m] i Hm; simpl; try done; [lia|].
  rewrite bit_at_eqb. destruct (bool_decide_reflect (negb (bit_at a i =? 0) = negb (bit_at b i =? 0))) as [E|E]; simpl.
  - rewrite (IH m) by lia. rewrite E. apply (f_equal (fun t : bool => if t then 0 else -1)), bool_decide_ext.
    split; [by intros ->|by intros [= ->]].
  - rewrite bool_decide_false; [done|]. congruence.
Qed.

(** A mask is [n] network bits followed by host bits, or its length is -1. *)
Lemma pflen_loop_host mask n i k : pflen_loop mask n i true k = if bool_decide (true ∈ bits_from mask n i) then -1 else k.
Proof.
  revert i. induction n as [|n IH]; intros i; [done|]; cbn [pflen_loop bits_from].
  destruct (bit_at mask i =? 0); cbn [negb].
  - rewrite IH. apply (f_equal (fun b : bool => if b then -1 else k)), bool_decide_ext. rewrite elem_of_cons. naive_solver.
  - by rewrite bool_decide_true by left.
Qed.

Lemma pflen_loop_network mask n i k l :
  bits_from mask n i = replicate l true ++ replicate (n - l) false -> (l <= n)%nat ->
  pflen_loop mask n i false k = k + Z.of_nat l.
Proof.
  revert i k l. induction n as [|n IH]; intros i k l Hb Hl; simpl in *; [assert (l = 0%nat) as -> by lia; simpl; lia|].
  destruct l as [|l]; simpl in Hb; injection Hb as Hh Ht.
  - rewrite Hh. rewrite pflen_loop_host, bool_decide_false; [lia|]. rewrite Ht, elem_of_replicate. naive_solver.
  - rewrite Hh, (IH _ _ l); [lia|done|lia].
Qed.

(** Conversely, a length tells the mask. *)
Lemma pflen_loop_shape mask n i k r :
  pflen_loop mask n i false k = r -> 0 <= k -> r <> -1 ->
  exists l, (l <= n)%nat /\ r = k + Z.of_nat l /\ bits_from mask n i = replicate l true ++ replicate (n - l) false.
Proof.
  revert i k. induction n as [|n IH]; intros i k Hr Hk Hne; simpl in Hr.
  - exists 0%nat. simpl. split_and!; [lia|lia|done].
  - destruct (bit_at mask i =? 0) eqn:E; simpl in Hr.
    + rewrite pflen_loop_host in Hr. case_bool_decide as Hin; [congruence|]. exists 0%nat. simpl. rewrite E. simpl.
      split_and!; [lia|lia|]. f_equal. replace (n - 0)%nat with n by lia.
      rewrite <- (length_bits_from mask n (i + 1)) at 2. symmetry. apply replicate_as_elem_of. split; [done|].
      intros []; [|done]. intros ?. by destruct Hin.
    + destruct (IH _ _ Hr) as (l & Hl & -> & Hb); [lia|done|]. exists (S l). simpl. rewrite E, Hb. simpl. split_and!; [lia|lia|done].
Qed.

(** ** Blocks as sets of addresses

    An address, as bits, is in a block when it agrees with the block's address wherever
    the mask has a bit. *)
Definition in_block (c : CIDR) (x : list bool) : Prop :=
  length x = (family_bits (c_proto c)).1 /\ forall i, mask_bits c !! i = Some true -> x !! i = addr_bits c !! i.

Definition known_proto (c : CIDR) : Prop := c_proto c = CIDR_IPV4 \/ c_proto c = CIDR_IPV6.

(** The mask is network bits, then host bits. *)
Definition contiguous (c : CIDR) : Prop := known_proto c /\ cidr_get_pflen c <> -1.

Lemma contiguous_shape c :
  contiguous c -> exists l, (l <= (family_bits (c_proto c)).1)%nat /\ cidr_get_pflen c = Z.of_nat l /\ mask_bits c = replicate l true ++ replicate ((family_bits (c_proto c)).1 - l) false.
Proof.
  intros [[Hp|Hp] Hn]; unfold mask_bits, cidr_get_pflen in *; rewrite Hp in *; simpl (family_bits _) in *; simpl (_ =? _) in *; cbn [fst snd] in *;
    destruct (pflen_loop_shape _ _ _ 0 _ eq_refl (Z.le_refl 0) Hn) as (l & Hl & E & Hm); exists l; rewrite E; by split_and!.
Qed.

Lemma length_addr_bits c : length (addr_bits c) = (family_bits (c_proto c)).1.
Proof. apply length_bits_from. Qed.

Lemma in_block_prefix c l x :
  mask_bits c = replicate l true ++ replicate ((family_bits (c_proto c)).1 - l) false ->
  (l <= (family_bits (c_proto c)).1)%nat ->
  in_block c x <-> length x = (family_bits (c_proto c)).1 /\ take l x = take l (addr_bits c).
Proof.
  intros Hm Hl. unfold in_block. rewrite Hm. apply and_iff_compat_l. split.
  - intros H. apply list_eq. intros i. destruct (decide (i < l)%nat) as [Hi|Hi].
    + rewrite !lookup_take_lt by done. apply H. rewrite lookup_app_l by (by rewrite length_replicate). by apply lookup_replicate.
    + by rewrite !lookup_take_ge by lia.
  - intros H i [Hi|[_ Hi]]%lookup_app_Some; [|by apply lookup_replicate in Hi as [? _]].
    apply lookup_replicate in Hi as [_ Hi]. rewrite <- (lookup_take_lt x l i), <- (lookup_take_lt (addr_bits c) l i) by done. by rewrite H.
Qed.

(** [cidr_contains] by prefixes. *)
Lemma cidr_contains_prefix big little :
  known_proto big -> c_proto little = c_proto big -> forall l, (l <= (family_bits (c_proto big)).1)%nat ->
  cidr_get_pflen big = Z.of_nat l ->
  cidr_contains big little = 0 <->
  Z.of_nat l <= cidr_get_pflen little /\ take l (addr_bits big) = take l (addr_bits little).
Proof.
  intros Hk Hp l Hl E. unfold cidr_contains, addr_bits. rewrite E, Hp, Z.eqb_refl. simpl.
  destruct (Z.ltb_spec (cidr_get_pflen little) (Z.of_nat l)) as [?|?].
  { case_match; split; intros; try done; lia. }
  replace (Z.of_nat l + 96 - 96) with (Z.of_nat l) by lia. rewrite Nat2Z.id. revert Hl.
  destruct Hk as [-> | ->]; intros Hl; cbn -[bits_from contains_loop take]; rewrite (contains_loop_prefix _ _ _ l _ Hl);
    cbn -[bits_from contains_loop take]; case_bool_decide; naive_solver.
Qed.

(** A block contains another exactly when all addresses of the latter are its own. *)
Theorem cidr_contains_correct big little :
  contiguous big -> contiguous little -> c_proto little = c_proto big ->
  cidr_contains big little = 0 <-> forall x, in_block little x -> in_block big x.
Proof.
  intros Hb Hl Hp. destruct (contiguous_shape _ Hb) as (lb & Hlb & Eb & Hmb), (contiguous_shape _ Hl) as (ll & Hll & El & Hml).
  rewrite (cidr_contains_prefix big little (proj1 Hb) Hp lb Hlb Eb), El.
  setoid_rewrite (in_block_prefix _ _ _ Hmb Hlb). setoid_rewrite (in_block_prefix _ _ _ Hml Hll). pose proof (length_addr_bits little) as Hlen.
  rewrite Hp in *. split.
  - intros [Hle E] x [Hx Ex]. split; [done|]. rewrite E. replace lb with (lb `min` ll)%nat by lia.
    by rewrite <- !take_take, Ex.
  - intros H. destruct (H (addr_bits little) (conj Hlen eq_refl)) as [_ E]. split; [|done].
    destruct (decide (Z.of_nat lb <= Z.of_nat ll)) as [|Hn]; [done|exfalso].
    destruct (lookup_lt_is_Some_2 (addr_bits little) ll ltac:(lia)) as [b Eb'].
    destruct (H (<[ll := negb b]> (addr_bits little))) as [_ E'].
    { by rewrite length_insert, take_insert_ge by lia. }
    apply (f_equal (lookup ll)) in E'. rewrite <- E, !lookup_take_lt, list_lookup_insert_eq, Eb' in E' by lia. by destruct b.
Qed.

(** A /24 network holds one of its hosts. *)
Lemma cidr_contains_correct_witness :
  let net := {| c_addr := replicate 10 0 ++ [255; 255; 192; 168; 0; 0]; c_mask := replicate 15 255 ++ [0]; c_proto := CIDR_IPV4 |} in
  let host := cidr_from_inaddr 0x0500a8c0 in
  contiguous net /\ contiguous host /\ cidr_contains net host = 0 /\ forall x, in_block host x -> in_block net x.
Proof.
  intros net host.
  assert (contiguous net) as Hn by (split; [by left|by vm_compute]).
  assert (contiguous host) as Hh by (split; [by left|by vm_compute]).
  split; [done|]. split; [done|]. split; [by vm_compute|].
  by apply (proj1 (cidr_contains_correct net host Hn Hh eq_refl)).
Defined.

(** The block of one host. *)
Definition host_bits (c : CIDR) : Prop := known_proto c /\ mask_bits c = replicate (family_bits (c_proto c)).1 true.

Lemma cidr_from_inaddr_host s_addr : host_bits (cidr_from_inaddr s_addr).
Proof. split; [by left|]. by vm_compute. Qed.

Lemma cidr_from_in6addr_host s6_addr : host_bits (cidr_from_in6addr s6_addr).
Proof. split; [by right|]. by vm_compute. Qed.

Lemma host_pflen c : host_bits c -> cidr_get_pflen c = Z.of_nat (family_bits (c_proto c)).1.
Proof.
  intros [Hk Hm]. unfold cidr_get_pflen, mask_bits in *. 
  destruct Hk as [Hp|Hp]; rewrite Hp in *; cbn -[pflen_loop bits_from replicate] in *;
    (erewrite pflen_loop_network; [|rewrite Hm, Nat.sub_diag; cbn [replicate]; symmetry; apply app_nil_r|done]); done.
Qed.

(** A host is in a block exactly when its address is; a block whose mask has host bits
    before network bits takes every host of its protocol. *)
Theorem cidr_contains_host big host :
  known_proto big -> host_bits host -> c_proto host = c_proto big ->
  cidr_contains big host = 0 <-> cidr_get_pflen big = -1 \/ in_block big (addr_bits host).
Proof.
  intros Hk Hh Hp. destruct (decide (cidr_get_pflen big = -1)) as [E|E].
  - split; [by left|intros _]. unfold cidr_contains. rewrite E, Hp, Z.eqb_refl, (host_pflen host Hh). cbn [negb].
    rewrite (proj2 (Z.ltb_ge _ _)) by lia. by destruct Hk as [-> | ->].
  - destruct (contiguous_shape big (conj Hk E)) as (l & Hl & El & Hm).
    rewrite (cidr_contains_prefix big host Hk Hp l Hl El), (in_block_prefix _ _ _ Hm Hl), (host_pflen host Hh), length_addr_bits, Hp.
    split; [intros [_ ->]; by right|]. intros [?|[_ ->]]; [done|]. split; [lia|done].
Qed.
