(* ===== verification/Netgroup.v ===== *)
(** * The netgroup cache

    [support/netgroup_cache.c]: answers of [innetgr], kept for half an hour in a positive and a
    negative tree, with an array of pointers to recent positive entries in front.  Strings
    are the values of their characters, without the final 0.  The trees, ordered by host and
    group, are finite maps.  A part of the code under [ng_lock] is one step: readers write nothing
    but slots of the array. *)
From S2P Require Import Prelude.
Local Open Scope Z_scope.

Abbreviation chars := (list Z).

Record ng_cache_info : Set := {
  ng_group : chars;
  ng_host : chars;
  ng_epoch : Z
}.

Definition NG_CACHE_SIZE : Z := 1009.
Definition FNV_PRIME32 : Z := 16777619.
Definition FNV_OFFSET32 : Z := 2166136261.

(** A character has a sign; it is extended to the width of [hash]. *)
Definition ng_hash_bytes (hash : Z) (bp : chars) : Z :=
  foldl (fun hash c => u32 (Z.lxor hash (u32 c) * FNV_PRIME32)) hash (bp ++ [0]).

Definition ng_hash_key (host group : chars) : Z :=
  ng_hash_bytes (ng_hash_bytes FNV_OFFSET32 host) group `mod` NG_CACHE_SIZE.

#[global] Arguments ng_hash_key : simpl never.

(** A call of [innetgr] that was made: when it returned, its arguments and its answer. *)
Record asked : Set := { asked_at : Z; asked_group : chars; asked_host : chars; asked_answer : bool }.

(** Live entries, the trees by (host, group), the array, the clock, and as a history variable
    the calls of [innetgr]. *)
Record ng_state : Set := {
  ng_heap : gmap positive ng_cache_info;
  pos_ng_tree : gmap (chars * chars) positive;
  neg_ng_tree : gmap (chars * chars) positive;
  ng_cache : gmap Z positive;
  ng_now : Z;
  ng_asked : list asked
}.

Definition set_ng_heap f (s : ng_state) := {| ng_heap := f (ng_heap s); pos_ng_tree := pos_ng_tree s; neg_ng_tree := neg_ng_tree s;
  ng_cache := ng_cache s; ng_now := ng_now s; ng_asked := ng_asked s |}.
Definition set_pos_ng_tree f (s : ng_state) := {| ng_heap := ng_heap s; pos_ng_tree := f (pos_ng_tree s); neg_ng_tree := neg_ng_tree s;
  ng_cache := ng_cache s; ng_now := ng_now s; ng_asked := ng_asked s |}.
Definition set_neg_ng_tree f (s : ng_state) := {| ng_heap := ng_heap s; pos_ng_tree := pos_ng_tree s; neg_ng_tree := f (neg_ng_tree s);
  ng_cache := ng_cache s; ng_now := ng_now s; ng_asked := ng_asked s |}.
Definition set_ng_cache f (s : ng_state) := {| ng_heap := ng_heap s; pos_ng_tree := pos_ng_tree s; neg_ng_tree := neg_ng_tree s;
  ng_cache := f (ng_cache s); ng_now := ng_now s; ng_asked := ng_asked s |}.
Definition set_ng_now n (s : ng_state) := {| ng_heap := ng_heap s; pos_ng_tree := pos_ng_tree s; neg_ng_tree := neg_ng_tree s;
  ng_cache := ng_cache s; ng_now := n; ng_asked := ng_asked s |}.
Definition set_ng_asked f (s : ng_state) := {| ng_heap := ng_heap s; pos_ng_tree := pos_ng_tree s; neg_ng_tree := neg_ng_tree s;
  ng_cache := ng_cache s; ng_now := ng_now s; ng_asked := f (ng_asked s) |}.

Definition tree_of (negative : bool) (s : ng_state) := if negative then neg_ng_tree s else pos_ng_tree s.
Definition set_tree (negative : bool) f (s : ng_state) := if negative then set_neg_ng_tree f s else set_pos_ng_tree f s.

Definition ng_key (i : ng_cache_info) : chars * chars := (ng_host i, ng_group i).

Abbreviation NG := (M ng_state).

(** The entry a pointer points to. *)
Definition ng_at (node : positive) : NG ng_cache_info := gets (fun s => ng_heap s !! node) ≫= deref.

Definition ng_expired (node : positive) : NG bool :=
  info ← ng_at node;
  now ← gets ng_now;
  mret (30 * 60 <? now - ng_epoch info).

Definition ng_free (node : positive) : NG unit :=
  _ ← ng_at node;
  modify (set_ng_heap (delete node)).

(** [avltree_remove]: a node that is in the tree leaves it. *)
Definition avltree_remove (node : positive) (negative : bool) : NG unit :=
  info ← ng_at node;
  t ← gets (tree_of negative);
  if bool_decide (t !! ng_key info = Some node) then modify (set_tree negative (delete (ng_key info))) else undef.

(** [avltree_insert]: the node that is there already, or the new one goes in. *)
Definition avltree_insert (node : positive) (negative : bool) : NG (option positive) :=
  info ← ng_at node;
  t ← gets (tree_of negative);
  match t !! ng_key info with
  | Some found => mret (Some found)
  | None => modify (set_tree negative (insert (ng_key info) node));; mret None
  end.

Definition ng_remove (node : positive) (negative : bool) : NG unit :=
  if negative then avltree_remove node true
  else
    info ← ng_at node;
    modify (set_ng_cache (delete (ng_hash_key (ng_host info) (ng_group info))));;
    avltree_remove node false.

(** [found_info->ng_epoch = info->ng_epoch] *)
Definition set_epoch (found node : positive) : NG unit :=
  info ← ng_at node;
  _ ← ng_at found;
  modify (set_ng_heap (alter (fun i => {| ng_group := ng_group i; ng_host := ng_host i; ng_epoch := ng_epoch info |}) found)).

(** [gsh_malloc] of an entry: an address that is not in use. *)
Definition ng_alloc (i : ng_cache_info) : NG positive :=
  s ← gets id;
  let node := fresh (dom (ng_heap s)) in
  modify (set_ng_heap (insert node i));;
  mret node.

Definition ng_add (group host : chars) (negative : bool) : NG unit :=
  now ← gets ng_now;
  node ← ng_alloc {| ng_group := group; ng_host := host; ng_epoch := now |};
  found_node ← avltree_insert node negative;
  if negative then
    match found_node with
    | Some found => set_epoch found node;; ng_free node
    | None => mret tt
    end
  else
    match found_node with
    | Some found =>
        found_info ← ng_at found;
        modify (set_ng_cache (insert (ng_hash_key (ng_host found_info) (ng_group found_info)) found));;
        set_epoch found node;;
        ng_free node
    | None => modify (set_ng_cache (insert (ng_hash_key host group) node))
    end.

(** [ng_lookup] up to its label [expired], under the read lock. *)
Variant lookup_result := NgHit | NgMiss | NgExpired.
#[export] Instance lookup_result_eq_dec : EqDecision lookup_result.
Proof. solve_decision. Defined.

Definition ng_lookup_read (group host : chars) (negative : bool) : NG lookup_result :=
  if negative then
    t ← gets neg_ng_tree;
    match t !! (host, group) with
    | None => mret NgMiss
    | Some node => e ← ng_expired node; mret (if (e : bool) then NgExpired else NgHit)
    end
  else
    let slot := ng_hash_key host group in
    c ← gets ng_cache;
    hit ← match c !! slot with
          | None => mret None
          | Some node => info ← ng_at node; mret (if bool_decide (ng_key info = (host, group)) then Some node else None)
          end;
    match hit with
    | Some node => e ← ng_expired node; mret (if (e : bool) then NgExpired else NgHit)
    | None =>
        t ← gets pos_ng_tree;
        match t !! (host, group) with
        | None => mret NgMiss
        | Some node =>
            e ← ng_expired node;
            if (e : bool) then mret NgExpired
            else modify (set_ng_cache (insert slot node));; mret NgHit
        end
    end.

(** From the label [expired], under the write lock. *)
Definition ng_lookup_expired (group host : chars) (negative : bool) : NG unit :=
  t ← gets (tree_of negative);
  match t !! (host, group) with
  | None => mret tt
  | Some node => ng_remove node negative;; ng_free node
  end.

Definition ng_lookup (group host : chars) (negative : bool) : NG bool :=
  r ← ng_lookup_read group host negative;
  match r with
  | NgHit => mret true
  | NgMiss => mret false
  | NgExpired => ng_lookup_expired group host negative;; mret false
  end.

(** The call of [innetgr] under the write lock, whose answer is [rc]. *)
Definition ng_ask (group host : chars) (rc : bool) : NG bool :=
  now ← gets ng_now;
  modify (set_ng_asked (cons {| asked_at := now; asked_group := group; asked_host := host; asked_answer := rc |}));;
  (if rc then ng_add group host false else ng_add group host true);;
  mret rc.

Definition ng_innetgr (innetgr : chars -> chars -> bool) (group host : chars) : NG bool :=
  pos ← ng_lookup group host false;
  if (pos : bool) then mret true
  else
    neg ← ng_lookup group host true;
    if (neg : bool) then mret false
    else ng_ask group host (innetgr group host).

(** [while ((node = avltree_first(...)))]: [n] bounds the rounds. *)
Fixpoint ng_clear_tree (negative : bool) (n : nat) : NG unit :=
  t ← gets (tree_of negative);
  match n, map_to_list t with
  | _, [] => mret tt
  | O, _ => undef
  | S n, (_, node) :: _ => ng_remove node negative;; ng_free node;; ng_clear_tree negative n
  end.

Definition ng_clear_cache : NG unit :=
  s ← gets id;
  ng_clear_tree false (size (pos_ng_tree s));;
  ng_clear_tree true (size (neg_ng_tree s));;
  s ← gets id;
  if bool_decide (pos_ng_tree s = ∅) && bool_decide (neg_ng_tree s = ∅) then mret tt else undef.

(** ** Threads

    A thread in [ng_innetgr]: between the sections it runs under the lock. *)
Variant ng_pc : Set :=
  | NgIdle
  | NgLookup (group host : chars) (negative : bool)
  | NgDrop (group host : chars) (negative : bool)
  | NgAsk (group host : chars)
  | NgReturned (group host : chars) (answer : bool) (at_ : Z).

(** After a lookup without a hit. *)
Definition ng_continue (group host : chars) (negative : bool) : ng_pc :=
  if negative then NgAsk group host else NgLookup group host true.

(** One section of a thread; [rc] is the answer of [innetgr] if it is called. *)
Definition ng_section (pc : ng_pc) (rc : bool) : NG ng_pc :=
  now ← gets ng_now;
  match pc with
  | NgIdle | NgReturned _ _ _ _ => mret pc
  | NgLookup group host negative =>
      r ← ng_lookup_read group host negative;
      mret match r with
           | NgHit => NgReturned group host (negb negative) now
           | NgMiss => ng_continue group host negative
           | NgExpired => NgDrop group host negative
           end
  | NgDrop group host negative => ng_lookup_expired group host negative;; mret (ng_continue group host negative)
  | NgAsk group host => answer ← ng_ask group host rc; mret (NgReturned group host answer now)
  end.

Record ng_world : Set := { ng_st : ng_state; ng_threads : gmap positive ng_pc }.

Definition ng_pc_of (w : ng_world) (t : positive) : ng_pc := default NgIdle (ng_threads w !! t).

(** A thread that may call [ng_innetgr]. *)
Definition ng_free_pc (pc : ng_pc) : bool :=
  match pc with NgIdle | NgReturned _ _ _ _ => true | _ => false end.

Inductive ng_step : ng_world -> ng_world -> Prop :=
  | ng_step_call w t group host :
      ng_free_pc (ng_pc_of w t) = true ->
      ng_step w {| ng_st := ng_st w; ng_threads := <[t := NgLookup group host false]> (ng_threads w) |}
  | ng_step_section w t rc pc s :
      ng_section (ng_pc_of w t) rc (ng_st w) = Some (pc, s) ->
      ng_step w {| ng_st := s; ng_threads := <[t := pc]> (ng_threads w) |}
  | ng_step_clear w s :
      ng_clear_cache (ng_st w) = Some (tt, s) -> ng_step w {| ng_st := s; ng_threads := ng_threads w |}
  | ng_step_tick w n :
      0 <= n -> ng_step w {| ng_st := set_ng_now (ng_now (ng_st w) + n) (ng_st w); ng_threads := ng_threads w |}.

Definition ng_init (now : Z) : ng_world :=
  {| ng_st := {| ng_heap := ∅; pos_ng_tree := ∅; neg_ng_tree := ∅; ng_cache := ∅; ng_now := now; ng_asked := [] |};
     ng_threads := ∅ |}.

(** ** The invariant *)

(** Some call of [innetgr] gave this answer at this time. *)
Definition was_asked (s : ng_state) (group host : chars) (answer : bool) (at_ : Z) : Prop :=
  {| asked_at := at_; asked_group := group; asked_host := host; asked_answer := answer |} ∈ ng_asked s.

Definition entry_ok (s : ng_state) (negative : bool) (k : chars * chars) (node : positive) : Prop :=
  exists i, ng_heap s !! node = Some i /\ ng_key i = k /\ ng_epoch i <= ng_now s /\
    was_asked s (ng_group i) (ng_host i) (negb negative) (ng_epoch i).

Record ng_inv (s : ng_state) : Prop := {
  inv_tree negative k node : tree_of negative s !! k = Some node -> entry_ok s negative k node;
  inv_heap node i : ng_heap s !! node = Some i -> exists negative, tree_of negative s !! ng_key i = Some node;
  inv_disjoint k k' node : pos_ng_tree s !! k = Some node -> neg_ng_tree s !! k' = Some node -> False;
  inv_slot slot node : ng_cache s !! slot = Some node ->
    exists i, ng_heap s !! node = Some i /\ pos_ng_tree s !! ng_key i = Some node /\ slot = ng_hash_key (ng_host i) (ng_group i)
}.

Lemma inv_pos s k node : ng_inv s -> pos_ng_tree s !! k = Some node -> entry_ok s false k node.
Proof. intros H. apply (inv_tree s H false). Qed.

Lemma inv_neg s k node : ng_inv s -> neg_ng_tree s !! k = Some node -> entry_ok s true k node.
Proof. intros H. apply (inv_tree s H true). Qed.

(** A recent answer. *)
Definition fresh_answer (s : ng_state) (group host : chars) (answer : bool) (tm : Z) : Prop :=
  exists at_, was_asked s group host answer at_ /\ tm - 30 * 60 <= at_ <= tm.

(** A tree has a recent entry. *)
Definition ng_recent (negative : bool) (s : ng_state) (k : chars * chars) : bool :=
  match tree_of negative s !! k ≫= fun node => ng_heap s !! node with
  | Some i => ng_now s - ng_epoch i <=? 30 * 60
  | None => false
  end.

Lemma wp_ng_expired s negative k node (Q : bool -> ng_state -> Prop) :
  ng_inv s -> tree_of negative s !! k = Some node ->
  Q (negb (ng_recent negative s k)) s -> wp (ng_expired node) Q s.
Proof.
  intros Hinv Ht. destruct (inv_tree s Hinv _ _ _ Ht) as (i & Hi & <- & _). unfold ng_recent. rewrite Ht. simpl. rewrite Hi. intros HQ.
  unfold ng_expired, ng_at. wp_go. eapply wp_deref; [done|]. wp_go. by rewrite Z.ltb_antisym.
Qed.

Lemma ng_recent_fresh s negative host group :
  ng_inv s -> ng_recent negative s (host, group) = true -> fresh_answer s group host (negb negative) (ng_now s).
Proof.
  intros Hinv. unfold ng_recent. destruct (tree_of negative s !! (host, group)) as [node|] eqn:Ht; [|done].
  destruct (inv_tree s Hinv _ _ _ Ht) as (i & Hi & Hk & Hle & Hasked). simpl. rewrite Hi. intros He%Z.leb_le.
  unfold ng_key in Hk. injection Hk as <- <-. exists (ng_epoch i). split; [done|lia].
Qed.

(** What a lookup keeps: everything but the array. *)
Definition same_but_slots (s s' : ng_state) : Prop :=
  ng_heap s' = ng_heap s /\ pos_ng_tree s' = pos_ng_tree s /\ neg_ng_tree s' = neg_ng_tree s /\ ng_now s' = ng_now s /\
  ng_asked s' = ng_asked s.

Lemma ng_inv_slots s s' :
  ng_inv s -> same_but_slots s s' ->
  (forall slot node, ng_cache s' !! slot = Some node ->
    exists i, ng_heap s !! node = Some i /\ pos_ng_tree s !! ng_key i = Some node /\ slot = ng_hash_key (ng_host i) (ng_group i)) ->
  ng_inv s'.
Proof.
  destruct s', s. intros [Ht Hh Hd _] (E1 & E2 & E3 & E4 & E5) Hs. simpl in *. subst. by split.
Qed.

(** The outcomes of a lookup. *)
Definition lookup_outcome (s : ng_state) (group host : chars) (negative : bool) : lookup_result :=
  if ng_recent negative s (host, group) then NgHit
  else if tree_of negative s !! (host, group) then NgExpired else NgMiss.

Lemma outcome_found s group host negative node :
  tree_of negative s !! (host, group) = Some node ->
  lookup_outcome s group host negative = if negb (ng_recent negative s (host, group)) then NgExpired else NgHit.
Proof. unfold lookup_outcome. intros ->. by destruct (ng_recent _ _ _). Qed.

Lemma outcome_missing s group host negative :
  tree_of negative s !! (host, group) = None -> lookup_outcome s group host negative = NgMiss.
Proof. unfold lookup_outcome, ng_recent. by intros ->. Qed.

(** A positive lookup that the array does not answer. *)
Lemma wp_ng_lookup_tree s group host :
  ng_inv s ->
  wp (t ← gets pos_ng_tree;
      match t !! (host, group) with
      | None => mret NgMiss
      | Some node =>
          e ← ng_expired node;
          if (e : bool) then mret NgExpired
          else modify (set_ng_cache (insert (ng_hash_key host group) node));; mret NgHit
      end)
    (fun r s' => ng_inv s' /\ same_but_slots s s' /\ r = lookup_outcome s group host false) s.
Proof.
  intros Hinv. wp_step; wp_step. simpl. destruct (pos_ng_tree s !! (host, group)) as [node|] eqn:Ht; [|by rewrite outcome_missing].
  rewrite (outcome_found _ _ _ _ _ (Ht : tree_of false s !! _ = _)).
  apply wp_bind. eapply (wp_ng_expired s false); [done..|]. destruct (negb (ng_recent _ _ _)); [done|]. wp_go. split_and!; [|done|done].
  apply (ng_inv_slots s); [done|done|]. intros slot node'. simpl. rewrite lookup_insert. case_decide as E; [|by apply inv_slot].
  intros [= <-]. destruct (inv_pos _ _ _ Hinv Ht) as (i & Hi & Hk & _). exists i. rewrite Hk. split_and!; [done..|].
  unfold ng_key in Hk. by injection Hk as -> ->.
Qed.

Lemma wp_ng_lookup_read s group host negative :
  ng_inv s ->
  wp (ng_lookup_read group host negative)
    (fun r s' => ng_inv s' /\ same_but_slots s s' /\ r = lookup_outcome s group host negative) s.
Proof.
  intros Hinv. pose proof (wp_ng_lookup_tree s group host Hinv) as Htree. unfold ng_lookup_read. destruct negative; wp_step; wp_step; cbn beta.
  - destruct (neg_ng_tree s !! (host, group)) as [node|] eqn:Ht; [|by rewrite outcome_missing].
    apply wp_bind. eapply (wp_ng_expired s true); [done..|]. wp_step. by rewrite (outcome_found _ _ _ _ _ (Ht : tree_of true s !! _ = _)).
  - apply wp_bind. destruct (ng_cache s !! ng_hash_key host group) as [node|] eqn:Hslot; [|by apply wp_ret].
    destruct (inv_slot s Hinv _ _ Hslot) as (i & Hi & Hpos & _). unfold ng_at. wp_step. wp_step. wp_step. eapply wp_deref; [done|]. wp_step.
    case_bool_decide as Hk; [|done].
    rewrite Hk in Hpos. wp_step. eapply (wp_ng_expired s false); [done..|]. wp_step.
    by rewrite (outcome_found _ _ _ _ _ (Hpos : tree_of false s !! _ = _)).
Qed.

(** ** Removing *)

(** Runs the code as far as the lookups are known. *)
Ltac ng_go :=
  repeat (wp_go; match goal with
    | H : ?x = Some _ |- wp (deref ?x) _ _ => eapply wp_deref; [exact H|]
    | H : ?x = Some ?y |- context [bool_decide (?x = Some ?y)] => rewrite (bool_decide_true _ H)
    | H : ?P, E : bool_decide ?P = false |- _ => by rewrite bool_decide_true in E
    end); wp_go.

Definition ng_removed (negative : bool) (k : chars * chars) (node : positive) (s : ng_state) : ng_state :=
  {| ng_heap := delete node (ng_heap s);
     pos_ng_tree := if negative then pos_ng_tree s else delete k (pos_ng_tree s);
     neg_ng_tree := if negative then delete k (neg_ng_tree s) else neg_ng_tree s;
     ng_cache := if negative then ng_cache s else delete (ng_hash_key k.1 k.2) (ng_cache s);
     ng_now := ng_now s;
     ng_asked := ng_asked s |}.

Lemma wp_ng_remove s negative k node (Q : unit -> ng_state -> Prop) :
  ng_inv s -> tree_of negative s !! k = Some node -> Q tt (ng_removed negative k node s) ->
  wp (ng_remove node negative;; ng_free node) Q s.
Proof.
  intros Hinv Ht HQ. destruct (inv_tree s Hinv _ _ _ Ht) as (i & Hi & Hk & _).
  apply wp_bind. unfold ng_remove, avltree_remove, ng_free, ng_at. destruct negative; simpl in Ht.
  - subst k. ng_go. done.
  - subst k. ng_go. done.
Qed.

Lemma tree_of_removed negative k node s negative' :
  tree_of negative' (ng_removed negative k node s) = if eqb negative' negative then delete k (tree_of negative s) else tree_of negative' s.
Proof. by destruct negative, negative'. Qed.

(** An address is in one place of the trees. *)
Lemma ng_inv_unique s negative negative' k k' node :
  ng_inv s -> tree_of negative s !! k = Some node -> tree_of negative' s !! k' = Some node -> negative = negative' /\ k = k'.
Proof.
  intros Hinv Ht Ht'. destruct (inv_tree s Hinv _ _ _ Ht) as (i & Hi & Hk & _), (inv_tree s Hinv _ _ _ Ht') as (i' & Hi' & Hk' & _).
  simplify_eq. split; [|done]. destruct negative, negative'; try done; exfalso; eauto using inv_disjoint.
Qed.

Lemma ng_inv_removed s negative k node : ng_inv s -> tree_of negative s !! k = Some node -> ng_inv (ng_removed negative k node s).
Proof.
  intros Hinv Ht. destruct (inv_tree s Hinv _ _ _ Ht) as (i & Hi & Hk & _). split.
  - intros n k' node'. rewrite tree_of_removed. intros Ht'.
    assert (tree_of n s !! k' = Some node' /\ ~ (n = negative /\ k' = k)) as [Hold Hne].
    { destruct (Bool.eqb_spec n negative) as [->|]; [apply lookup_delete_Some in Ht'|]; naive_solver. }
    destruct (inv_tree s Hinv _ _ _ Hold) as (i' & Hi' & Hk' & Hr). exists i'. split; [|done]. simpl.
    rewrite lookup_delete_ne; [done|]. intros <-. destruct Hne. by eapply ng_inv_unique.
  - intros node' i'. simpl. intros [Hne Hi']%lookup_delete_Some. destruct (inv_heap s Hinv _ _ Hi') as [n Hn]. exists n.
    rewrite tree_of_removed. destruct (Bool.eqb_spec n negative) as [->|]; [|done]. rewrite lookup_delete_ne; [done|]. intros ->. congruence.
  - intros k1 k2 node' H1 H2. apply (inv_disjoint s Hinv k1 k2 node').
    + simpl in H1. destruct negative; [done|]. by apply lookup_delete_Some in H1 as [_ ?].
    + simpl in H2. destruct negative; [|done]. by apply lookup_delete_Some in H2 as [_ ?].
  - intros slot node' Hs. simpl in *. destruct negative.
    + destruct (inv_slot s Hinv _ _ Hs) as (i' & Hi' & Hp & ->). exists i'. rewrite lookup_delete_ne; [done|].
      intros <-. exfalso. by eapply (inv_disjoint s Hinv).
    + apply lookup_delete_Some in Hs as [Hne Hs]. destruct (inv_slot s Hinv _ _ Hs) as (i' & Hi' & Hp & ->). exists i'.
      assert (ng_key i' <> k) as Hk' by (intros <-; done).
      rewrite !lookup_delete_ne; [done|done|]. intros <-. destruct (ng_inv_unique s false false _ _ node Hinv Hp Ht). done.
Qed.

Lemma wp_ng_lookup_expired s group host negative :
  ng_inv s -> wp (ng_lookup_expired group host negative) (fun _ s' => ng_inv s' /\ ng_now s' = ng_now s /\ ng_asked s' = ng_asked s) s.
Proof.
  intros Hinv. unfold ng_lookup_expired. wp_step. wp_step. destruct (_ !! _) as [node|] eqn:Ht; [|done].
  eapply wp_ng_remove; [done..|]. split; [by apply ng_inv_removed|done].
Qed.

(** ** Adding *)
Definition refresh (now : Z) (i : ng_cache_info) : ng_cache_info :=
  {| ng_group := ng_group i; ng_host := ng_host i; ng_epoch := now |}.

(** The entry of a tree has a new time. *)
Definition ng_refreshed (negative : bool) (k : chars * chars) (node : positive) (s : ng_state) : ng_state :=
  {| ng_heap := alter (refresh (ng_now s)) node (ng_heap s);
     pos_ng_tree := pos_ng_tree s;
     neg_ng_tree := neg_ng_tree s;
     ng_cache := if negative then ng_cache s else <[ng_hash_key k.1 k.2 := node]> (ng_cache s);
     ng_now := ng_now s;
     ng_asked := ng_asked s |}.

Definition ng_added (negative : bool) (k : chars * chars) (node : positive) (s : ng_state) : ng_state :=
  {| ng_heap := <[node := {| ng_group := k.2; ng_host := k.1; ng_epoch := ng_now s |}]> (ng_heap s);
     pos_ng_tree := if negative then pos_ng_tree s else <[k := node]> (pos_ng_tree s);
     neg_ng_tree := if negative then <[k := node]> (neg_ng_tree s) else neg_ng_tree s;
     ng_cache := if negative then ng_cache s else <[ng_hash_key k.1 k.2 := node]> (ng_cache s);
     ng_now := ng_now s;
     ng_asked := ng_asked s |}.

(** A new entry that is given back at once. *)
Lemma heap_scratch (h : gmap positive ng_cache_info) f found a x :
  found <> a -> h !! a = None -> delete a (alter f found (<[a := x]> h)) = alter f found h.
Proof.
  intros Hne Ha. apply map_eq. intros b. destruct (decide (b = a)) as [->|Hb].
  - by rewrite lookup_delete_eq, lookup_alter_ne.
  - rewrite lookup_delete_ne by done. destruct (decide (found = b)) as [->|].
    + by rewrite !lookup_alter_eq, lookup_insert_ne.
    + by rewrite !lookup_alter_ne, lookup_insert_ne.
Qed.

Lemma wp_ng_add s group host negative (Q : unit -> ng_state -> Prop) :
  ng_inv s ->
  (forall node, ng_heap s !! node = None -> tree_of negative s !! (host, group) = None -> Q tt (ng_added negative (host, group) node s)) ->
  (forall node, tree_of negative s !! (host, group) = Some node -> Q tt (ng_refreshed negative (host, group) node s)) ->
  wp (ng_add group host negative) Q s.
Proof.
  intros Hinv Hnew Hold. unfold ng_add, ng_alloc, avltree_insert, set_epoch, ng_free, ng_at.
  set (a := fresh (dom (ng_heap s))). assert (ng_heap s !! a = None) as Ha by (apply not_elem_of_dom, is_fresh).
  specialize (Hnew a Ha).
  assert (forall found, tree_of negative s !! (host, group) = Some found -> found <> a /\ exists i, ng_heap s !! found = Some i /\ ng_key i = (host, group)) as Hfound.
  { intros found Hf. destruct (inv_tree s Hinv _ _ _ Hf) as (i & Hi & Hk & _). split; [|by exists i]. intros ->. congruence. }
  destruct negative; wp_go; fold a; rewrite lookup_insert_eq; wp_go; cbn [ng_key ng_host ng_group] in *.
  - destruct (Hfound _ Heqo) as (Hne & i & Hi & _). fold a. rewrite lookup_insert_eq. wp_go. fold a.
    rewrite lookup_insert_ne by done. rewrite Hi. wp_go. fold a. rewrite lookup_alter_ne, lookup_insert_eq by done. wp_go.
    eapply (eq_rect _ (Q tt)); [exact (Hold _ Heqo)|]. unfold ng_refreshed, set_ng_heap. simpl. by rewrite (heap_scratch _ _ _ _ _ Hne Ha).
  - by apply Hnew.
  - destruct (Hfound _ Heqo) as (Hne & i & Hi & Hk). rewrite lookup_insert_ne by done. rewrite Hi. wp_go. fold a. rewrite lookup_insert_eq. wp_go.
    fold a. rewrite lookup_insert_ne by done. rewrite Hi. wp_go. fold a. rewrite lookup_alter_ne, lookup_insert_eq by done. wp_go.
    eapply (eq_rect _ (Q tt)); [exact (Hold _ Heqo)|]. unfold ng_refreshed, set_ng_heap, set_ng_cache. simpl.
    rewrite (heap_scratch _ _ _ _ _ Hne Ha). unfold ng_key in Hk. by injection Hk as -> ->.
  - by apply Hnew.
Qed.

Lemma tree_of_added negative k node s negative' :
  tree_of negative' (ng_added negative k node s) = if eqb negative' negative then <[k := node]> (tree_of negative s) else tree_of negative' s.
Proof. by destruct negative, negative'. Qed.

Lemma tree_of_refreshed negative k node s negative' : tree_of negative' (ng_refreshed negative k node s) = tree_of negative' s.
Proof. by destruct negative'. Qed.

Lemma ng_inv_added s negative k node :
  ng_inv s -> ng_heap s !! node = None -> tree_of negative s !! k = None -> was_asked s k.2 k.1 (negb negative) (ng_now s) ->
  ng_inv (ng_added negative k node s).
Proof.
  intros Hinv Hn Ht Hasked.
  assert (forall n k', tree_of n s !! k' = Some node -> False) as Hnot.
  { intros n k' H. destruct (inv_tree s Hinv _ _ _ H) as (i & Hi & _). congruence. }
  split.
  - intros n k' node'. rewrite tree_of_added. intros Ht'. destruct (decide (node' = node)) as [->|Hne].
    + destruct (Bool.eqb_spec n negative) as [->|]; [|by apply Hnot in Ht'].
      apply lookup_insert_Some in Ht' as [[<- _]|[_ Ht']]; [|by apply Hnot in Ht'].
      eexists. simpl. rewrite lookup_insert_eq. split; [done|]. split_and!; [by destruct k|simpl; lia|done].
    + assert (tree_of n s !! k' = Some node') as Hold.
      { destruct (Bool.eqb_spec n negative) as [->|]; [|done]. apply lookup_insert_Some in Ht'. naive_solver. }
      destruct (inv_tree s Hinv _ _ _ Hold) as (i & Hi & Hr). exists i. simpl. by rewrite lookup_insert_ne.
  - intros node' i. simpl. intros [[<- <-]|[Hne Hi]]%lookup_insert_Some.
    + exists negative. rewrite tree_of_added, eqb_reflx. destruct k. by rewrite lookup_insert_eq.
    + destruct (inv_heap s Hinv _ _ Hi) as [n Hn']. exists n. rewrite tree_of_added.
      destruct (Bool.eqb_spec n negative) as [->|]; [|done]. rewrite lookup_insert_ne; [done|]. intros ->. congruence.
  - intros k1 k2 node' H1 H2. simpl in *. pose proof (Hnot true k2). pose proof (Hnot false k1).
    destruct negative; simpl in *; [apply lookup_insert_Some in H2|apply lookup_insert_Some in H1]; destruct_or!; destruct_and!; simplify_eq; eauto using inv_disjoint.
  - intros slot node' Hs. simpl in *. destruct negative.
    + destruct (inv_slot s Hinv _ _ Hs) as (i & Hi & Hp & ->). exists i. rewrite lookup_insert_ne by congruence. done.
    + apply lookup_insert_Some in Hs as [[<- <-]|[Hne Hs]].
      * eexists. rewrite lookup_insert_eq. split; [done|]. destruct k. simpl. by rewrite lookup_insert_eq.
      * destruct (inv_slot s Hinv _ _ Hs) as (i & Hi & Hp & ->). exists i. rewrite lookup_insert_ne by congruence. split_and!; [done| |done].
        rewrite lookup_insert_ne; [done|]. simpl in Ht. congruence.
Qed.

Lemma ng_inv_refreshed s negative k node :
  ng_inv s -> tree_of negative s !! k = Some node -> was_asked s k.2 k.1 (negb negative) (ng_now s) ->
  ng_inv (ng_refreshed negative k node s).
Proof.
  intros Hinv Ht Hasked. destruct (inv_tree s Hinv _ _ _ Ht) as (i & Hi & Hk & _).
  assert (forall node' i', ng_heap s !! node' = Some i' -> exists i'', ng_heap (ng_refreshed negative k node s) !! node' = Some i'' /\
    ng_host i'' = ng_host i' /\ ng_group i'' = ng_group i') as Hfwd.
  { intros node' i' Hi'. simpl. rewrite lookup_alter. case_decide; [|by exists i']. subst. rewrite Hi'. simpl. by eexists. }
  assert (forall node' i', ng_heap (ng_refreshed negative k node s) !! node' = Some i' -> exists i'', ng_heap s !! node' = Some i'' /\
    ng_key i' = ng_key i'') as Hbwd.
  { intros node' i'. simpl. rewrite lookup_alter. case_decide; [|by exists i']. subst. rewrite Hi. simpl. intros [= <-]. by exists i. }
  split.
  - intros n k' node'. rewrite tree_of_refreshed. intros Ht'. destruct (inv_tree s Hinv _ _ _ Ht') as (i' & Hi' & Hk' & Hr).
    unfold entry_ok. simpl. rewrite lookup_alter. case_decide as E; [|by exists i']. subst node'.
    destruct (ng_inv_unique s _ _ _ _ _ Hinv Ht Ht') as [-> ->]. rewrite Hi'. eexists. split; [done|]. simpl.
    split_and!; [done|lia|]. rewrite <- Hk' in Hasked. exact Hasked.
  - intros node' i' (i'' & Hi'' & ->)%Hbwd. setoid_rewrite tree_of_refreshed. by apply inv_heap.
  - apply (inv_disjoint s Hinv).
  - intros slot node' Hs.
    assert (exists i, ng_heap s !! node' = Some i /\ pos_ng_tree s !! ng_key i = Some node' /\ slot = ng_hash_key (ng_host i) (ng_group i))
      as (i' & Hi' & Hp & ->).
    { simpl in Hs. destruct negative; [by apply inv_slot|]. apply lookup_insert_Some in Hs as [[<- <-]|[_ Hs]]; [|by apply inv_slot].
      exists i. by rewrite <- Hk in *. }
    destruct (Hfwd _ _ Hi') as (i'' & Hi'' & Eh & Eg). exists i''. unfold ng_key in *. by rewrite Eh, Eg.
Qed.

(** ** Answers *)
Lemma ng_recent_slots s s' n k : same_but_slots s s' -> ng_recent n s' k = ng_recent n s k.
Proof. intros (Hh & Hp & Hn & Ht & _). unfold ng_recent, tree_of. destruct n; by rewrite ?Hp, ?Hn, Hh, Ht. Qed.

Lemma ng_recent_removed s negative k node n k' :
  ng_inv s -> tree_of negative s !! k = Some node ->
  ng_recent n (ng_removed negative k node s) k' = if bool_decide (n = negative /\ k' = k) then false else ng_recent n s k'.
Proof.
  intros Hinv Ht. unfold ng_recent. rewrite tree_of_removed. simpl. case_bool_decide as E.
  - destruct E as [-> ->]. by rewrite eqb_reflx, lookup_delete_eq.
  - assert (forall node', tree_of n s !! k' = Some node' -> node <> node') as Hne.
    { intros node' Ht' <-. destruct E. destruct (ng_inv_unique s _ _ _ _ _ Hinv Ht Ht'). by split. }
    replace (_ !! k') with (tree_of n s !! k').
    + destruct (tree_of n s !! k') as [node'|]; [|done]. simpl. rewrite lookup_delete_ne; [done|]. by apply Hne.
    + destruct (Bool.eqb_spec n negative) as [->|]; [|done]. rewrite lookup_delete_ne; [done|]. naive_solver.
Qed.

Lemma ng_recent_added s negative k node n k' :
  ng_inv s -> ng_heap s !! node = None ->
  ng_recent n (ng_added negative k node s) k' = if bool_decide (n = negative /\ k' = k) then true else ng_recent n s k'.
Proof.
  intros Hinv Ha. unfold ng_recent. rewrite tree_of_added. simpl. case_bool_decide as E.
  - destruct E as [-> ->]. rewrite eqb_reflx, lookup_insert_eq. simpl. rewrite lookup_insert_eq. simpl. apply Z.leb_le. lia.
  - replace (_ !! k') with (tree_of n s !! k').
    + destruct (tree_of n s !! k') as [node'|] eqn:Ht'; [|done]. simpl. rewrite lookup_insert_ne; [done|]. intros <-.
      destruct (inv_tree s Hinv _ _ _ Ht') as (i & Hi & _). congruence.
    + destruct (Bool.eqb_spec n negative) as [->|]; [|done]. rewrite lookup_insert_ne; [done|]. naive_solver.
Qed.

Lemma ng_recent_refreshed s negative k node n k' :
  ng_inv s -> tree_of negative s !! k = Some node ->
  ng_recent n (ng_refreshed negative k node s) k' = if bool_decide (n = negative /\ k' = k) then true else ng_recent n s k'.
Proof.
  intros Hinv Ht. unfold ng_recent. rewrite tree_of_refreshed. case_bool_decide as E.
  - destruct E as [-> ->]. destruct (inv_tree s Hinv _ _ _ Ht) as (i & Hi & _). rewrite Ht. simpl. rewrite lookup_alter_eq, Hi. simpl. apply Z.leb_le. lia.
  - destruct (tree_of n s !! k') as [node'|] eqn:Ht'; [|done]. simpl. rewrite lookup_alter_ne; [done|]. intros <-.
    destruct E. destruct (ng_inv_unique s _ _ _ _ _ Hinv Ht Ht'). by split.
Qed.

(** A lookup says whether there is a recent entry, and keeps the recent entries. *)
Lemma wp_ng_lookup s group host negative :
  ng_inv s ->
  wp (ng_lookup group host negative)
    (fun b s' => ng_inv s' /\ b = ng_recent negative s (host, group) /\ ng_now s' = ng_now s /\
                 forall n k, ng_recent n s' k = ng_recent n s k) s.
Proof.
  intros Hinv. unfold ng_lookup. apply wp_bind. eapply wp_mono; [by apply wp_ng_lookup_read|].
  intros r s1 (Hinv1 & Hsame & ->). unfold lookup_outcome. pose proof (fun n k => ng_recent_slots s s1 n k Hsame) as Hr.
  destruct (ng_recent negative s (host, group)) eqn:E; [split_and!; [done|done|by apply Hsame|done]|].
  destruct (tree_of negative s !! (host, group)) as [node|] eqn:Ht; [|split_and!; [done|done|by apply Hsame|done]].
  assert (tree_of negative s1 !! (host, group) = Some node) as Ht1.
  { destruct Hsame as (_ & Hp & Hn & _). rewrite <- Ht. unfold tree_of. destruct negative; by rewrite ?Hp, ?Hn. }
  apply wp_bind. unfold ng_lookup_expired. wp_step. wp_step. rewrite Ht1. eapply wp_ng_remove; [done..|]. wp_step.
  split_and!; [by apply ng_inv_removed|done|by apply Hsame|]. intros n k. rewrite (ng_recent_removed s1) by done. rewrite <- Hr.
  case_bool_decide as Ek; [|done]. destruct Ek as [-> ->]. by rewrite Hr, E.
Qed.

Lemma ng_inv_asked s r : ng_inv s -> ng_inv (set_ng_asked (cons r) s).
Proof.
  intros [Ht Hh Hd Hs]. split; [|done..]. intros n k node H. destruct (Ht n k node) as (i & Hi & Hk & Hle & Ha); [by destruct n|].
  exists i. split_and!; [done..|]. by right.
Qed.

Lemma wp_ng_ask s group host rc :
  ng_inv s ->
  wp (ng_ask group host rc)
    (fun b s' => ng_inv s' /\ b = rc /\ ng_now s' = ng_now s /\
       ng_asked s' = {| asked_at := ng_now s; asked_group := group; asked_host := host; asked_answer := rc |} :: ng_asked s /\
       forall n k, ng_recent n s' k = if bool_decide (n = negb rc /\ k = (host, group)) then true else ng_recent n s k) s.
Proof.
  intros Hinv. unfold ng_ask. do 4 wp_step. set (s1 := set_ng_asked _ s). apply wp_bind.
  assert (ng_inv s1) as Hinv1 by by apply ng_inv_asked.
  assert (was_asked s1 group host rc (ng_now s)) as Ha by (left).
  assert (forall n k, ng_recent n s1 k = ng_recent n s k) as Hr by by intros [].
  replace (if rc then _ else _) with (ng_add group host (negb rc)) by by destruct rc.
  apply wp_ng_add; [done|intros node Hn Ht|intros node Ht]; wp_step; (split_and!; [|done|done|done|]).
  - apply ng_inv_added; [done..|]. by rewrite negb_involutive.
  - intros n k. rewrite <- Hr. by apply ng_recent_added.
  - apply ng_inv_refreshed; [done..|]. by rewrite negb_involutive.
  - intros n k. rewrite <- Hr. by apply ng_recent_refreshed.
Qed.

(** What [ng_innetgr] answers: a recent answer, or a new one. *)
Definition ng_answer (innetgr : chars -> chars -> bool) (s : ng_state) (group host : chars) : bool :=
  if ng_recent false s (host, group) then true
  else if ng_recent true s (host, group) then false
  else innetgr group host.

(** The answer, and later answers at the same time are not changed by it. *)
Lemma wp_ng_innetgr innetgr s group host :
  ng_inv s ->
  wp (ng_innetgr innetgr group host)
    (fun b s' => ng_inv s' /\ ng_now s' = ng_now s /\ b = ng_answer innetgr s group host /\
                 forall g h, ng_answer innetgr s' g h = ng_answer innetgr s g h) s.
Proof.
  intros Hinv. unfold ng_innetgr, ng_answer. apply wp_bind. eapply wp_mono; [by apply wp_ng_lookup|].
  intros b s1 (Hinv1 & -> & Hn1 & Hr1). destruct (ng_recent false s (host, group)) eqn:Ep.
  { wp_step. split_and!; [done..|]. intros g h. by rewrite !Hr1. }
  apply wp_bind. eapply wp_mono; [by apply wp_ng_lookup|]. intros b s2 (Hinv2 & -> & Hn2 & Hr2). rewrite Hr1.
  destruct (ng_recent true s (host, group)) eqn:En.
  { wp_step. split_and!; [done|congruence|done|]. intros g h. by rewrite !Hr2, !Hr1. }
  eapply wp_mono; [by apply wp_ng_ask|]. intros b s3 (Hinv3 & -> & Hn3 & _ & Hr3). split_and!; [done|congruence|done|].
  intros g h. rewrite !Hr3, !Hr2, !Hr1. destruct (decide ((h, g) = (host, group))) as [[= -> ->]|Hne].
  - rewrite Ep, En. destruct (innetgr group host); simpl; by repeat case_bool_decide; naive_solver.
  - by rewrite !bool_decide_false by naive_solver.
Qed.

(** ** Clearing *)
Lemma wp_ng_clear_tree negative n s :
  ng_inv s -> n = size (tree_of negative s) ->
  wp (ng_clear_tree negative n)
    (fun _ s' => ng_inv s' /\ tree_of negative s' = ∅ /\ tree_of (negb negative) s' = tree_of (negb negative) s /\
                 ng_now s' = ng_now s /\ ng_asked s' = ng_asked s) s.
Proof.
  revert s. induction n as [|n IH]; intros s Hinv Hn; simpl; wp_step; wp_step.
  - symmetry in Hn. apply map_size_empty_inv in Hn. rewrite Hn, map_to_list_empty. by wp_step.
  - destruct (map_to_list (tree_of negative s)) as [|[k node] l] eqn:El.
    { apply map_to_list_empty_iff in El. by rewrite El, map_size_empty in Hn. }
    assert (tree_of negative s !! k = Some node) as Ht. { apply elem_of_map_to_list. rewrite El. left. }
    apply wp_bind. eapply wp_mono; [eapply wp_bind_inv, wp_ng_remove; [done..|]|intros ? s' H; apply wp_bind; exact H].
    assert (tree_of negative (ng_removed negative k node s) = delete k (tree_of negative s)) as Hd
      by by rewrite tree_of_removed, eqb_reflx.
    eapply wp_mono; [apply IH; [by apply ng_inv_removed|]|].
    + rewrite Hd, map_size_delete, Ht. simpl. lia.
    + intros _ s' (Hinv' & He & Ho & Hnow & Hask). split_and!; [done|done| |done|done]. rewrite Ho. by destruct negative.
Qed.

Lemma wp_ng_clear_cache s :
  ng_inv s ->
  wp ng_clear_cache (fun _ s' => ng_inv s' /\ ng_heap s' = ∅ /\ ng_now s' = ng_now s /\ ng_asked s' = ng_asked s) s.
Proof.
  intros Hinv. unfold ng_clear_cache. do 3 wp_step. eapply wp_mono; [by apply wp_ng_clear_tree|].
  intros _ s1 (Hinv1 & He1 & Ho1 & Hn1 & Ha1). simpl in *. wp_step. eapply wp_mono; [apply wp_ng_clear_tree; [done|by rewrite <- Ho1]|].
  intros _ s2 (Hinv2 & He2 & Ho2 & Hn2 & Ha2). simpl in *. do 2 wp_step. simpl. rewrite He2, Ho2, He1, !bool_decide_true by done. simpl. wp_step.
  split_and!; [done| |congruence|congruence]. apply map_eq. intros node. rewrite lookup_empty.
  destruct (ng_heap s2 !! node) as [i|] eqn:Hi; [|done]. destruct (inv_heap s2 Hinv2 _ _ Hi) as [[] H]; simpl in H; by rewrite ?He2, ?Ho2, ?He1 in H.
Qed.

(** ** Every interleaving *)
Definition ng_pc_ok (s : ng_state) (pc : ng_pc) : Prop :=
  match pc with NgReturned group host answer tm => fresh_answer s group host answer tm | _ => True end.

Lemma fresh_answer_mono s s' group host answer tm :
  (forall r, r ∈ ng_asked s -> r ∈ ng_asked s') -> fresh_answer s group host answer tm -> fresh_answer s' group host answer tm.
Proof. intros Hsub (at_ & Ha & Hr). exists at_. split; [by apply Hsub|done]. Qed.

Lemma ng_pc_ok_mono s s' pc : (forall r, r ∈ ng_asked s -> r ∈ ng_asked s') -> ng_pc_ok s pc -> ng_pc_ok s' pc.
Proof. destruct pc; simpl; eauto using fresh_answer_mono. Qed.

Lemma wp_ng_section s pc rc :
  ng_inv s -> ng_pc_ok s pc ->
  wp (ng_section pc rc) (fun pc' s' => ng_inv s' /\ ng_pc_ok s' pc' /\ forall r, r ∈ ng_asked s -> r ∈ ng_asked s') s.
Proof.
  intros Hinv Hpc. unfold ng_section. wp_step. wp_step. destruct pc as [|g h n|g h n|g h|g h b tm]; try done; apply wp_bind.
  - eapply wp_mono; [by apply wp_ng_lookup_read|]. intros r s' (Hinv' & Hs & ->). wp_step.
    assert (ng_asked s' = ng_asked s) as Ha by apply Hs. split_and!; [done| |by rewrite Ha].
    unfold lookup_outcome. destruct (ng_recent n s (h, g)) eqn:E.
    + apply (ng_pc_ok_mono s); [by rewrite Ha|]. simpl. by apply ng_recent_fresh.
    + destruct (tree_of n s !! (h, g)), n; done.
  - eapply wp_mono; [by apply wp_ng_lookup_expired|]. intros r s' (Hinv' & _ & Ha). wp_step. rewrite Ha. split_and!; [done| |done]. by destruct n.
  - eapply wp_mono; [by apply wp_ng_ask|]. intros b s' (Hinv' & -> & _ & Ha & _). wp_step. rewrite Ha. split_and!; [done| |by right].
    simpl. exists (ng_now s). split; [unfold was_asked; rewrite Ha; left|lia].
Qed.

Definition ng_world_ok (w : ng_world) : Prop := ng_inv (ng_st w) /\ forall t, ng_pc_ok (ng_st w) (ng_pc_of w t).

Lemma ng_pc_of_insert s w t pc t' :
  ng_pc_of {| ng_st := s; ng_threads := <[t := pc]> (ng_threads w) |} t' = if decide (t = t') then pc else ng_pc_of w t'.
Proof. unfold ng_pc_of. simpl. rewrite lookup_insert. by case_decide. Qed.

Lemma ng_step_ok w w' : ng_step w w' -> ng_world_ok w -> ng_world_ok w'.
Proof.
  intros [w1 t g h _|w1 t rc pc s Hs|w1 s Hs|w1 n Hn] [Hinv Hpc].
  - split; [done|]. intros t'. rewrite ng_pc_of_insert. case_decide; [done|apply Hpc].
  - pose proof (wp_ng_section _ _ rc Hinv (Hpc t)) as H. unfold wp in H. rewrite Hs in H. destruct H as (Hinv' & Hpc' & Hsub).
    split; [done|]. intros t'. rewrite ng_pc_of_insert. case_decide; [done|]. eapply ng_pc_ok_mono; [done|apply Hpc].
  - pose proof (wp_ng_clear_cache _ Hinv) as H. unfold wp in H. rewrite Hs in H. destruct H as (Hinv' & _ & _ & Ha).
    split; [done|]. intros t'. eapply ng_pc_ok_mono; [by rewrite <- Ha|apply Hpc].
  - split; [|apply Hpc]. destruct Hinv as [Ht Hh Hd Hsl]. split; [|done..].
    intros n' k node H. destruct (Ht n' k node) as (i & Hi & Hk & Hle & Ha); [by destruct n'|]. exists i. split_and!; [done|done|simpl; lia|done].
Qed.

Lemma ng_init_ok now : ng_world_ok (ng_init now).
Proof. split; [|by intros t]. split; [by intros []| | |]; done. Qed.

Lemma ng_reachable_ok now w : rtc ng_step (ng_init now) w -> ng_world_ok w.
Proof.
  intros H. pose proof (ng_init_ok now) as H0. induction H; [done|]. apply IHrtc. by eapply ng_step_ok.
Qed.

(** C20: in every interleaving of callers of [ng_innetgr], [ng_clear_cache] and the clock, each
    section and the clearing can run (they read no freed entry and remove no node that is not in
    its tree), an answer was given by [innetgr] for this group and host at most half an hour
    before it was returned, and the entries in memory are those of the trees. *)
Theorem ng_cache_sound (now : Z) (w : ng_world) :
  rtc ng_step (ng_init now) w ->
  (forall t rc, is_Some (ng_section (ng_pc_of w t) rc (ng_st w))) /\
  is_Some (ng_clear_cache (ng_st w)) /\
  (forall t group host answer tm, ng_pc_of w t = NgReturned group host answer tm ->
     exists at_, {| asked_at := at_; asked_group := group; asked_host := host; asked_answer := answer |} ∈ ng_asked (ng_st w) /\
       tm - 1800 <= at_ <= tm) /\
  (forall node i, ng_heap (ng_st w) !! node = Some i ->
     pos_ng_tree (ng_st w) !! ng_key i = Some node \/ neg_ng_tree (ng_st w) !! ng_key i = Some node).
Proof.
  intros [Hinv Hpc]%ng_reachable_ok. split_and!.
  - intros t rc. destruct (proj1 (wp_run _ _ _) (wp_ng_section _ _ rc Hinv (Hpc t))) as (? & ? & -> & _). done.
  - destruct (proj1 (wp_run _ _ _) (wp_ng_clear_cache _ Hinv)) as (? & ? & -> & _). done.
  - intros t g h b tm E. specialize (Hpc t). by rewrite E in Hpc.
  - intros node i Hi. destruct (inv_heap _ Hinv _ _ Hi) as [[] H]; [by right|by left].
Qed.

(** Runs that can be computed. *)
Variant ng_op := OpCall (t : positive) (group host : chars) | OpSection (t : positive) (rc : bool) | OpClear | OpTick (n : Z).

Definition ng_exec (o : ng_op) (w : ng_world) : option ng_world :=
  match o with
  | OpCall t g h =>
      if ng_free_pc (ng_pc_of w t) then Some {| ng_st := ng_st w; ng_threads := <[t := NgLookup g h false]> (ng_threads w) |} else None
  | OpSection t rc =>
      '(pc, s) ← ng_section (ng_pc_of w t) rc (ng_st w); Some {| ng_st := s; ng_threads := <[t := pc]> (ng_threads w) |}
  | OpClear => '(_, s) ← ng_clear_cache (ng_st w); Some {| ng_st := s; ng_threads := ng_threads w |}
  | OpTick n =>
      if 0 <=? n then Some {| ng_st := set_ng_now (ng_now (ng_st w) + n) (ng_st w); ng_threads := ng_threads w |} else None
  end.

Fixpoint ng_run (l : list ng_op) (w : ng_world) : option ng_world :=
  match l with [] => Some w | o :: l => ng_exec o w ≫= ng_run l end.

Lemma ng_exec_step o w w' : ng_exec o w = Some w' -> ng_step w w'.
Proof.
  destruct o as [t g h|t rc| |n]; simpl; intros H.
  - destruct (ng_free_pc _) eqn:E; simplify_eq. by apply ng_step_call.
  - destruct (ng_section _ _ _) as [[pc s]|] eqn:E; simplify_eq/=. by apply ng_step_section with rc.
  - destruct (ng_clear_cache _) as [[[] s]|] eqn:E; simplify_eq/=. by apply ng_step_clear.
  - destruct (Z.leb_spec 0 n); simplify_eq. by apply ng_step_tick.
Qed.

Lemma ng_run_rtc l w w' : ng_run l w = Some w' -> rtc ng_step w w'.
Proof.
  revert w. induction l as [|o l IH]; intros w; simpl; [intros [= ->]; apply rtc_refl|].
  destruct (ng_exec o w) as [w1|] eqn:E; [|done]. intros H. eapply rtc_l; [by apply ng_exec_step with o|by apply IH].
Qed.

(** Two threads ask for the same host, an hour passes, and it is asked for again. *)
Definition ng_example : list ng_op :=
  [OpCall 1 [103] [104]; OpSection 1 true; OpCall 2 [103] [104]; OpSection 1 true; OpSection 2 true; OpSection 1 true;
   OpSection 2 true; OpSection 2 true; OpTick 3600; OpCall 1 [103] [104]; OpSection 1 false; OpSection 1 false;
   OpSection 1 false; OpSection 1 false].

Definition ng_example_end : ng_world := Eval vm_compute in default (ng_init 0) (ng_run ng_example (ng_init 0)).

Lemma ng_cache_sound_witness :
  rtc ng_step (ng_init 0) ng_example_end /\ ng_pc_of ng_example_end 1 = NgReturned [103] [104] false 3600 /\
  exists at_, {| asked_at := at_; asked_group := [103]; asked_host := [104]; asked_answer := false |} ∈ ng_asked (ng_st ng_example_end) /\
    3600 - 1800 <= at_ <= 3600.
Proof.
  assert (rtc ng_step (ng_init 0) ng_example_end) as H by (apply (ng_run_rtc ng_example); by vm_compute).
  assert (ng_pc_of ng_example_end 1 = NgReturned [103] [104] false 3600) as E by by vm_compute.
  split_and!; [exact H|exact E|]. exact (proj1 (proj2 (proj2 (ng_cache_sound 0 ng_example_end H))) 1%positive [103] [104] false 3600 E).
Defined.
