(* ===== verification/Clients.v ===== *)
(** * Client lists

    [support/client_mgr.c] ([client_match], [haproxy_match]) and [support/nfs_ip_name.c]: the
    entry of a list of clients that an address matches, with the cache of the names of
    addresses.  The lists are those of exports, of the defaults for exports and of proxies. *)
From S2P Require Import Prelude Owners Cidr Netgroup.
Local Open Scope Z_scope.

(** The union of [base_client_entry] with its type. *)
Inductive base_client_entry : Set :=
  | PROTO_CLIENT
  | NETWORK_CLIENT (cidr : CIDR)
  | NETGROUP_CLIENT (netgroupname : chars)
  | WILDCARDHOST_CLIENT (wildcard : chars)
  | GSSPRINCIPAL_CLIENT (princname : chars)
  | MATCH_ANY_CLIENT
  | BAD_CLIENT.

Definition SOCK_NAME_MAX : Z := 128.
Definition NI_MAXHOST : Z := 1025.

Definition IP_NAME_SUCCESS : Z := 0.
Definition IP_NAME_INSERT_MALLOC_ERROR : Z := 1.
Definition IP_NAME_NOT_FOUND : Z := 2.

(** ** What is asked outside

    The functions of the C library with which hosts are found: [getnameinfo] gives the name of an
    address or fails, [inet_ntop] its text, [fnmatch] (with [FNM_PATHNAME]) matches a
    pattern, [innetgr] is asked behind the cache of [Netgroup].  A name fits in the buffer it is
    written to, with its final 0. *)
Class HostNames := {
  getnameinfo : sockaddr_t -> option chars;
  inet_ntop : sockaddr_t -> option chars;
  fnmatch : chars -> chars -> bool;
  innetgr : chars -> chars -> bool;
  expiration_time : Z;
  getnameinfo_fits a n : getnameinfo a = Some n -> Z.of_nat (length n) < NI_MAXHOST;
  inet_ntop_fits a n : inet_ntop a = Some n -> Z.of_nat (length n) < SOCK_NAME_MAX;
  expiration_time_pos : 0 < expiration_time
}.

Record nfs_ip_name_t : Set := { ip_key : sockaddr_t; timestamp : Z; hostname : chars }.

(** The table of names and the state of the netgroup cache, whose clock is that of [time]. *)
Record host_state : Set := { ht_ip_name : list nfs_ip_name_t; hs_ng : ng_state }.

Abbreviation H := (M host_state).

Definition set_names (f : list nfs_ip_name_t -> list nfs_ip_name_t) (s : host_state) : host_state :=
  {| ht_ip_name := f (ht_ip_name s); hs_ng := hs_ng s |}.

(** Code of the netgroup cache. *)
Definition in_ng {A} (m : NG A) : H A := fun s =>
  match m (hs_ng s) with
  | Some (a, g) => Some (a, {| ht_ip_name := ht_ip_name s; hs_ng := g |})
  | None => None
  end.

Definition time_now (s : host_state) : Z := ng_now (hs_ng s).

Section Hosts.
Context {HN : HostNames}.

Definition sprint_sockip (addr : sockaddr_t) : option chars :=
  match addr with
  | sockaddr_in _ _ | sockaddr_in6 _ _ => inet_ntop addr
  | _ => None
  end.

(** [HashTable_Get], [HashTable_Del] and [HashTable_Set] of the table of names, whose keys are
    compared by [compare_ip_name]. *)
Definition ip_name_key (ipaddr : sockaddr_t) (e : nfs_ip_name_t) : bool := cmp_sockaddr (ip_key e) ipaddr true.
Definition ip_name_find (ipaddr : sockaddr_t) (l : list nfs_ip_name_t) : option nfs_ip_name_t :=
  head (filter (fun e => ip_name_key ipaddr e = true) l).
Definition ip_name_del (ipaddr : sockaddr_t) (l : list nfs_ip_name_t) : list nfs_ip_name_t :=
  filter (fun e => ip_name_key ipaddr e = false) l.

(** The status, and the name if it is [IP_NAME_SUCCESS]. *)
Definition nfs_ip_name_get (ipaddr : sockaddr_t) (size : Z) : H (Z * chars) :=
  match sprint_sockip ipaddr with
  | None => mret (IP_NAME_NOT_FOUND, [])
  | Some _ =>
      t ← gets ht_ip_name;
      now ← gets time_now;
      match ip_name_find ipaddr t with
      | Some nfs_ip_name =>
          if expiration_time <? now - timestamp nfs_ip_name then
            modify (set_names (ip_name_del ipaddr));;
            mret (IP_NAME_NOT_FOUND, [])
          else if size <=? Z.of_nat (length (hostname nfs_ip_name))
          then mret (IP_NAME_INSERT_MALLOC_ERROR, [])
          else mret (IP_NAME_SUCCESS, hostname nfs_ip_name)
      | None => mret (IP_NAME_NOT_FOUND, [])
      end
  end.

Definition nfs_ip_name_add (ipaddr : sockaddr_t) (maxsize : Z) : H (Z * chars) :=
  let rc := getnameinfo ipaddr in
  match sprint_sockip ipaddr with
  | None => mret (IP_NAME_INSERT_MALLOC_ERROR, [])
  | Some ipstring =>
      if bool_decide (rc = None) && (maxsize <? SOCK_NAME_MAX) then mret (IP_NAME_INSERT_MALLOC_ERROR, [])
      else
        let hn := default ipstring rc in
        now ← gets time_now;
        t ← gets ht_ip_name;
        match ip_name_find ipaddr t with
        | Some _ => mret tt
        | None => modify (set_names (cons {| ip_key := ipaddr; timestamp := now; hostname := hn |}))
        end;;
        mret (IP_NAME_SUCCESS, hn)
  end.

Definition nfs_ip_name_remove (ipaddr : sockaddr_t) : H Z :=
  match sprint_sockip ipaddr with
  | None => mret IP_NAME_NOT_FOUND
  | Some _ =>
      t ← gets ht_ip_name;
      match ip_name_find ipaddr t with
      | Some _ => modify (set_names (ip_name_del ipaddr));; mret IP_NAME_SUCCESS
      | None => mret IP_NAME_NOT_FOUND
      end
  end.

(** The name from the cache, which is asked for and added when it is not there. *)
Definition ip_name_lookup (hostaddr : sockaddr_t) : H (Z * chars) :=
  r ← nfs_ip_name_get hostaddr NI_MAXHOST;
  if r.1 =? IP_NAME_NOT_FOUND then nfs_ip_name_add hostaddr NI_MAXHOST else mret r.

(** Four bytes as an [in_addr_t]. *)
Definition load_in_addr (b : list Z) : Z :=
  default 0 (b !! 0%nat) + default 0 (b !! 1%nat) * 2 ^ 8 + default 0 (b !! 2%nat) * 2 ^ 16 + default 0 (b !! 3%nat) * 2 ^ 24.

Definition convert_ipv6_to_ipv4 (ipv6 : sockaddr_t) : sockaddr_t :=
  match ipv6 with
  | sockaddr_in6 s6_addr sin6_port =>
      if bool_decide (take 10 s6_addr = replicate 10 0) && (default 0 (s6_addr !! 10%nat) =? 255)
         && (default 0 (s6_addr !! 11%nat) =? 255)
      then sockaddr_in (load_in_addr (drop 12 s6_addr)) sin6_port
      else ipv6
  | _ => ipv6
  end.

(** The prefix of the host.  (Of another family the code reads the bytes where an IPv4 address would
    be; there are no such clients.) *)
Definition host_cidr (hostaddr : sockaddr_t) : option CIDR :=
  match hostaddr with
  | sockaddr_in6 s6_addr _ => Some (cidr_from_in6addr s6_addr)
  | sockaddr_in s_addr _ => Some (cidr_from_inaddr s_addr)
  | _ => None
  end.

(** One entry of the list: does it match?  [host_prefix] and [ipstring] are computed when
    they are first used; the second is [None] as long as [ipvalid] is negative. *)
Definition match_entry (hostaddr : sockaddr_t) (host_prefix : option CIDR) (ipstring : option (option chars))
  (client : base_client_entry) : H (bool * option CIDR * option (option chars)) :=
  match client with
  | NETWORK_CLIENT cidr =>
      prefix ← match host_prefix with Some prefix => mret prefix | None => deref (host_cidr hostaddr) end;
      mret (cidr_contains cidr prefix =? 0, Some prefix, ipstring)
  | NETGROUP_CLIENT netgroupname =>
      r ← ip_name_lookup hostaddr;
      if negb (r.1 =? IP_NAME_SUCCESS) then mret (false, host_prefix, ipstring)
      else
        b ← in_ng (ng_innetgr innetgr netgroupname r.2);
        mret (b, host_prefix, ipstring)
  | WILDCARDHOST_CLIENT wildcard =>
      let ip := default (sprint_sockip hostaddr) ipstring in
      if match ip with Some s => fnmatch wildcard s | None => false end then mret (true, host_prefix, Some ip)
      else
        r ← ip_name_lookup hostaddr;
        if negb (r.1 =? IP_NAME_SUCCESS) then mret (false, host_prefix, Some ip)
        else mret (fnmatch wildcard r.2, host_prefix, Some ip)
  | MATCH_ANY_CLIENT => mret (true, host_prefix, ipstring)
  | GSSPRINCIPAL_CLIENT _ | PROTO_CLIENT | BAD_CLIENT => mret (false, host_prefix, ipstring)
  end.

(** [glist_for_each] over the entries, which are part of structures [A]. *)
Fixpoint match_loop {A} (entry : A -> base_client_entry) (hostaddr : sockaddr_t) (host_prefix : option CIDR)
  (ipstring : option (option chars)) (clients : list A) : H (option A) :=
  match clients with
  | [] => mret None
  | client :: clients =>
      '(found, host_prefix, ipstring) ← match_entry hostaddr host_prefix ipstring (entry client);
      if (found : bool) then mret (Some client)
      else match_loop entry hostaddr host_prefix ipstring clients
  end.

Definition client_match {A} (entry : A -> base_client_entry) (clientaddr : sockaddr_t) (clients : list A) : H (option A) :=
  let hostaddr := convert_ipv6_to_ipv4 clientaddr in
  match_loop entry hostaddr None None clients.

(** [xp_proxy] is the address of the proxy. *)
Definition haproxy_match (haproxy_hosts : list base_client_entry) (xp_proxy : sockaddr_t) : H bool :=
  if bool_decide (haproxy_hosts = []) then mret false
  else
    host ← client_match id xp_proxy haproxy_hosts;
    mret (bool_decide (is_Some host)).

(** ** The first entry that matches *)

(** The name an address has now. *)
Definition name_of (s : host_state) (a : sockaddr_t) : option chars :=
  match sprint_sockip a with
  | None => None
  | Some ip =>
      match ip_name_find a (ht_ip_name s) with
      | Some e =>
          if expiration_time <? time_now s - timestamp e then Some (default ip (getnameinfo a))
          else if NI_MAXHOST <=? Z.of_nat (length (hostname e)) then None else Some (hostname e)
      | None => Some (default ip (getnameinfo a))
      end
  end.

Definition entry_matches (s : host_state) (a : sockaddr_t) (c : base_client_entry) : bool :=
  match c with
  | NETWORK_CLIENT cidr => match host_cidr a with Some h => cidr_contains cidr h =? 0 | None => false end
  | NETGROUP_CLIENT g => match name_of s a with Some n => ng_answer innetgr (hs_ng s) g n | None => false end
  | WILDCARDHOST_CLIENT w =>
      match sprint_sockip a with Some ip => fnmatch w ip | None => false end ||
      match name_of s a with Some n => fnmatch w n | None => false end
  | MATCH_ANY_CLIENT => true
  | GSSPRINCIPAL_CLIENT _ | PROTO_CLIENT | BAD_CLIENT => false
  end.

(** The same name of the host and the same netgroups. *)
Record same_host (a : sockaddr_t) (s s' : host_state) : Prop := {
  same_name : name_of s' a = name_of s a;
  same_groups g h : ng_answer innetgr (hs_ng s') g h = ng_answer innetgr (hs_ng s) g h;
  same_ng_inv : ng_inv (hs_ng s')
}.

Lemma same_host_matches a s s' c : same_host a s s' -> entry_matches s' a c = entry_matches s a c.
Proof. intros [Hn Hg _]. destruct c; simpl; rewrite ?Hn; try done. destruct (name_of s a); [apply Hg|done]. Qed.

Lemma same_host_trans a s1 s2 s3 : same_host a s1 s2 -> same_host a s2 s3 -> same_host a s1 s3.
Proof. intros [Hn Hg _] [Hn' Hg' Hi]. split; [by rewrite Hn'|intros g h; by rewrite Hg'|done]. Qed.

Lemma sprint_sockip_internet a ip : sprint_sockip a = Some ip -> cmp_sockaddr a a true = true.
Proof.
  destruct a; simpl; try done; intros _; [by rewrite Z.eqb_refl|by rewrite bool_decide_true].
Qed.

Lemma ip_name_find_del a l : ip_name_find a (ip_name_del a l) = None.
Proof.
  unfold ip_name_find, ip_name_del. destruct (filter _ (filter _ l)) as [|e k] eqn:E; [done|]. exfalso.
  assert (e ∈ e :: k) as He by left. rewrite <- E in He. apply list_elem_of_filter in He as [H1 [H2 _]%list_elem_of_filter]. congruence.
Qed.

(** Adding a name that is not in the table. *)
Lemma wp_nfs_ip_name_add s a ip :
  sprint_sockip a = Some ip -> ip_name_find a (ht_ip_name s) = None ->
  wp (nfs_ip_name_add a NI_MAXHOST)
    (fun r s' => r = (IP_NAME_SUCCESS, default ip (getnameinfo a)) /\ hs_ng s' = hs_ng s /\ name_of s' a = Some (default ip (getnameinfo a))) s.
Proof.
  intros Hip Hf. unfold nfs_ip_name_add. rewrite Hip.
  replace (NI_MAXHOST <? SOCK_NAME_MAX) with false by done. rewrite andb_false_r. do 5 wp_step. rewrite Hf. do 2 wp_step. split_and!; [done..|].
  unfold name_of. rewrite Hip. unfold ip_name_find. cbn [ht_ip_name set_names].
  rewrite filter_cons_True by (unfold ip_name_key; by eapply sprint_sockip_internet). cbn -[Z.ltb Z.leb].
  pose proof expiration_time_pos. rewrite (proj2 (Z.ltb_ge _ _)) by (unfold time_now; simpl; lia).
  assert (Z.of_nat (length (default ip (getnameinfo a))) < NI_MAXHOST) as Hfit.
  { destruct (getnameinfo a) as [n|] eqn:E; simpl; [by eapply getnameinfo_fits|].
    unfold sprint_sockip in Hip. assert (inet_ntop a = Some ip) as Hn by by destruct a. apply inet_ntop_fits in Hn.
    unfold SOCK_NAME_MAX, NI_MAXHOST in *. lia. }
  by rewrite (proj2 (Z.leb_gt _ _)).
Qed.

(** The lookup gives the name of the host, which stays as it is. *)
Lemma wp_ip_name_lookup s a :
  wp (ip_name_lookup a)
    (fun r s' => hs_ng s' = hs_ng s /\ name_of s' a = name_of s a /\
       match name_of s a with Some n => r = (IP_NAME_SUCCESS, n) | None => r.1 = IP_NAME_INSERT_MALLOC_ERROR end) s.
Proof.
  unfold ip_name_lookup. apply wp_bind. unfold nfs_ip_name_get. destruct (sprint_sockip a) as [ip|] eqn:Hip.
  - do 4 wp_step. destruct (ip_name_find a (ht_ip_name s)) as [e|] eqn:Hf.
    + destruct (expiration_time <? time_now s - timestamp e) eqn:Ex.
      * do 3 wp_step. simpl. eapply wp_mono; [apply wp_nfs_ip_name_add; [done|apply ip_name_find_del]|].
        intros r s' (-> & Hg & Hn). unfold name_of at 2 3. by rewrite Hip, Hf, Ex, Hn.
      * destruct (NI_MAXHOST <=? Z.of_nat (length (hostname e))) eqn:El; wp_step; simpl; wp_step; unfold name_of;
          by rewrite Hip, Hf, Ex, El.
    + wp_step. simpl. eapply wp_mono; [by apply wp_nfs_ip_name_add|].
      intros r s' (-> & Hg & Hn). unfold name_of at 2 3. by rewrite Hip, Hf, Hn.
  - wp_step. simpl. unfold nfs_ip_name_add. rewrite Hip. wp_step. unfold name_of. by rewrite Hip.
Qed.

Lemma wp_in_ng {A} (m : NG A) (Q : A -> host_state -> Prop) s :
  wp m (fun a g => Q a {| ht_ip_name := ht_ip_name s; hs_ng := g |}) (hs_ng s) -> wp (in_ng m) Q s.
Proof. unfold wp, in_ng. by destruct (m (hs_ng s)) as [[a g]|]. Qed.

(** What the loop has computed. *)
Definition memo_ok (a : sockaddr_t) (host_prefix : option CIDR) (ipstring : option (option chars)) : Prop :=
  (forall p, host_prefix = Some p -> host_cidr a = Some p) /\ (forall i, ipstring = Some i -> i = sprint_sockip a).

Lemma wp_match_entry s a hp ips c :
  ng_inv (hs_ng s) -> is_Some (host_cidr a) -> memo_ok a hp ips ->
  wp (match_entry a hp ips c)
    (fun r s' => r.1.1 = entry_matches s a c /\ memo_ok a r.1.2 r.2 /\ same_host a s s') s.
Proof.
  intros Hinv [h Hh] [Hp Hi]. assert (same_host a s s) as Hrefl by by split.
  assert (forall s', hs_ng s' = hs_ng s -> name_of s' a = name_of s a -> same_host a s s') as Hsame.
  { intros s' E En. split; [done|by rewrite E|by rewrite E]. }
  destruct c as [|cidr|g|w|p| |]; simpl; try done.
  - assert (hp = None \/ hp = Some h) as Hhp. { destruct hp as [p|]; [|by left]. right. rewrite <- Hh. symmetry. by apply Hp. }
    rewrite Hh. apply wp_bind. destruct Hhp as [-> | ->]; do 2 wp_step; (split_and!; [done| |done]); by split; [intros ? [= <-]|].
  - apply wp_bind. eapply wp_mono; [by apply wp_ip_name_lookup|]. intros r s1 (Hg & Hn & Hr).
    destruct (name_of s a) as [n|] eqn:En; [|rewrite Hr; simpl; wp_step; split_and!; [done|done|apply Hsame; [done|congruence]]].
    subst r. simpl. apply wp_bind, wp_in_ng. rewrite Hg. eapply wp_mono; [by apply wp_ng_innetgr|].
    intros b g' (Hinv' & Hnow & -> & Hans). wp_step. split_and!; [done|done|]. split; [|done|done].
    rewrite En. rewrite <- Hn. unfold name_of, time_now. simpl. by rewrite Hnow, Hg.
  - assert (default (sprint_sockip a) ips = sprint_sockip a) as ->. { destruct ips as [i|]; simpl; [by apply Hi|done]. }
    assert (memo_ok a hp (Some (sprint_sockip a))) as Hm. { split; [done|]. by intros ? [= <-]. }
    destruct (match sprint_sockip a with Some ip => fnmatch w ip | None => false end) eqn:Ef; [by wp_step|]. simpl.
    apply wp_bind. eapply wp_mono; [by apply wp_ip_name_lookup|]. intros r s1 (Hg & Hn & Hr).
    destruct (name_of s a) as [n|] eqn:En.
    + subst r. simpl. wp_step. split_and!; [done|done|]. apply Hsame; [done|congruence].
    + rewrite Hr. simpl. wp_step. split_and!; [done|done|]. apply Hsame; [done|congruence].
Qed.

Lemma wp_match_loop {A} (entry : A -> base_client_entry) s a hp ips clients :
  ng_inv (hs_ng s) -> is_Some (host_cidr a) -> memo_ok a hp ips ->
  wp (match_loop entry a hp ips clients)
    (fun r s' => r = List.find (fun c => entry_matches s a (entry c)) clients /\ same_host a s s') s.
Proof.
  intros Hinv Hh. revert s hp ips Hinv. induction clients as [|c clients IH]; intros s hp ips Hinv Hm; simpl; [by wp_step|].
  apply wp_bind. eapply wp_mono; [by apply wp_match_entry|]. intros [[found hp'] ips'] s1 (Hf & Hm' & Hs). simpl in *. rewrite <- Hf.
  destruct found; [by wp_step|]. eapply wp_mono; [apply IH; [apply Hs|done]|]. intros r s2 [-> Hs2]. split; [|by eapply same_host_trans].
  clear -Hs. induction clients as [|c' clients IH]; simpl; [done|]. rewrite (same_host_matches a s s1) by done. by rewrite IH.
Qed.

Lemma convert_internet a : is_Some (host_cidr a) -> is_Some (host_cidr (convert_ipv6_to_ipv4 a)).
Proof. destruct a; simpl; try done. by case_match. Qed.

Lemma client_match_spec {A} (entry : A -> base_client_entry) s a clients :
  ng_inv (hs_ng s) -> is_Some (host_cidr a) ->
  wp (client_match entry a clients)
    (fun r s' => r = List.find (fun c => entry_matches s (convert_ipv6_to_ipv4 a) (entry c)) clients /\
                 same_host (convert_ipv6_to_ipv4 a) s s') s.
Proof. intros Hinv Ha. apply wp_match_loop; [done|by apply convert_internet|by split]. Qed.

(** C19: for a client with an IPv4 or IPv6 address [client_match] returns, with the first entry of the list that the
    client matches, if any: a network that contains its address, a netgroup its name is in (by an answer
    at most half an hour old), a pattern of its address or its name, or any client; and
    the names and netgroups looked up on the way stay what they were. *)
Theorem client_match_first {A} (entry : A -> base_client_entry) s a clients :
  ng_inv (hs_ng s) -> is_Some (host_cidr a) ->
  exists r s', client_match entry a clients s = Some (r, s') /\
    r = List.find (fun c => entry_matches s (convert_ipv6_to_ipv4 a) (entry c)) clients /\
    same_host (convert_ipv6_to_ipv4 a) s s'.
Proof. intros Hinv Ha. apply wp_run. by apply client_match_spec. Qed.

End Hosts.

(** ** An example *)
Definition hosts_example : HostNames.
Proof.
  refine {| getnameinfo := fun a => match a with sockaddr_in s _ => if s =? 0x0500a8c0 then Some [119; 115] else None | _ => None end;
            inet_ntop := fun _ => Some [49; 46; 50];
            fnmatch := fun p s => bool_decide (p = s);
            innetgr := fun g h => bool_decide (g = [103] /\ h = [119; 115]);
            expiration_time := 3600 |}.
  - intros a n E. assert (n = [119; 115]) as -> by (destruct a; repeat case_match; naive_solver). by vm_compute.
  - by intros a n [= <-].
  - done.
Defined.

Definition hosts_start : host_state := {| ht_ip_name := []; hs_ng := ng_st (ng_init 5) |}.

(** 192.168.1.0/24, the netgroup g, any client. *)
Definition clients_example : list base_client_entry :=
  [NETWORK_CLIENT {| c_addr := replicate 10 0 ++ [255; 255; 192; 168; 1; 0]; c_mask := replicate 15 255 ++ [0]; c_proto := CIDR_IPV4 |};
   NETGROUP_CLIENT [103]; MATCH_ANY_CLIENT].

Lemma client_match_first_witness :
  exists r s', client_match (HN := hosts_example) id (sockaddr_in6 (replicate 10 0 ++ [255; 255; 192; 168; 0; 5]) 700) clients_example hosts_start = Some (r, s') /\
    r = Some (NETGROUP_CLIENT [103]).
Proof.
  destruct (client_match_first (HN := hosts_example) id hosts_start (sockaddr_in6 (replicate 10 0 ++ [255; 255; 192; 168; 0; 5]) 700) clients_example)
    as (r & s' & E & -> & _); [apply (ng_init_ok 5)|done|]. exists (Some (NETGROUP_CLIENT [103])), s'. split; [|done].
  rewrite E. f_equal.
Defined.
