(* ===== verification/Exports.v ===== *)
(** * Permissions of exports

    [support/exports.c] ([export_check_access], [export_check_options], [export_check_security],
    [get_anonymous_uid], [get_anonymous_gid]) with the options of [include/nfs_exports.h]: what a
    client may do on an export, put together from the entry of its client list, the export, the block
    EXPORT_DEFAULTS and the defaults of the code. *)
From S2P Require Import Prelude Owners Cidr Netgroup Clients.
Local Open Scope Z_scope.

Definition EXPORT_OPTION_ROOT_ID_SQUASH : Z := 0x00000001.
Definition EXPORT_OPTION_ROOT_SQUASH : Z := 0x00000002.
Definition EXPORT_OPTION_ALL_ANONYMOUS : Z := 0x00000004.
Definition EXPORT_OPTION_SQUASH_TYPES : Z :=
  Z.lor (Z.lor EXPORT_OPTION_ROOT_SQUASH EXPORT_OPTION_ROOT_ID_SQUASH) EXPORT_OPTION_ALL_ANONYMOUS.
Definition EXPORT_OPTION_ANON_UID_SET : Z := 0x00000008.
Definition EXPORT_OPTION_ANON_GID_SET : Z := 0x00000010.
Definition EXPORT_OPTION_READ_ACCESS : Z := 0x00000020.
Definition EXPORT_OPTION_WRITE_ACCESS : Z := 0x00000040.
Definition EXPORT_OPTION_MD_READ_ACCESS : Z := 0x00000080.
Definition EXPORT_OPTION_MD_WRITE_ACCESS : Z := 0x00000100.
Definition EXPORT_OPTION_ACCESS_MASK : Z :=
  Z.lor (Z.lor EXPORT_OPTION_READ_ACCESS EXPORT_OPTION_WRITE_ACCESS)
        (Z.lor EXPORT_OPTION_MD_WRITE_ACCESS EXPORT_OPTION_MD_READ_ACCESS).
Definition EXPORT_OPTION_PRIVILEGED_PORT : Z := 0x00000200.
Definition EXPORT_OPTION_AUTH_NONE : Z := 0x00001000.
Definition EXPORT_OPTION_AUTH_UNIX : Z := 0x00002000.
Definition EXPORT_OPTION_RPCSEC_GSS_NONE : Z := 0x00004000.
Definition EXPORT_OPTION_RPCSEC_GSS_INTG : Z := 0x00008000.
Definition EXPORT_OPTION_RPCSEC_GSS_PRIV : Z := 0x00010000.
Definition EXPORT_OPTION_EXPIRE_SET : Z := 0x00080000.
Definition EXPORT_OPTION_NFSV3 : Z := 0x00100000.
Definition EXPORT_OPTION_NFSV4 : Z := 0x00200000.
Definition EXPORT_OPTION_UDP : Z := 0x01000000.
Definition EXPORT_OPTION_TCP : Z := 0x02000000.
Definition EXPORT_OPTION_MANAGE_GIDS : Z := 0x40000000.

Record export_perms : Set := {
  anonymous_uid : Z;
  anonymous_gid : Z;
  expire_time_attr : Z;
  options : Z;
  set : Z
}.

(** [memset(&op_ctx->export_perms, 0, ...)] *)
Definition no_perms : export_perms :=
  {| anonymous_uid := 0; anonymous_gid := 0; expire_time_attr := 0; options := 0; set := 0 |}.

Record exportlist_client_entry : Set := {
  client_entry : base_client_entry;
  client_perms : export_perms
}.

Record gsh_export : Set := {
  exp_perms : export_perms;
  exp_clients : list exportlist_client_entry
}.

Record global_export_perms : Set := {
  def : export_perms;
  conf : export_perms;
  opt_clients : list exportlist_client_entry
}.

(** A flag of an options word. *)
Definition has (x flag : Z) : bool := negb (Z.land x flag =? 0).

(** ** Putting the permissions together *)

(** Client options. *)
Definition take_client (c : export_perms) (p : export_perms) : export_perms :=
  {| options := Z.land (options c) (set c);
     anonymous_uid := if has (set c) EXPORT_OPTION_ANON_UID_SET then anonymous_uid c else anonymous_uid p;
     anonymous_gid := if has (set c) EXPORT_OPTION_ANON_GID_SET then anonymous_gid c else anonymous_gid p;
     expire_time_attr := expire_time_attr p;
     set := set c |}.

(** Options not set so far are taken from [e], the export or EXPORT_DEFAULTS. *)
Definition take_unset (e : export_perms) (p : export_perms) : export_perms :=
  {| options := Z.lor (options p) (Z.ldiff (Z.land (options e) (set e)) (set p));
     anonymous_uid := if negb (has (set p) EXPORT_OPTION_ANON_UID_SET) && has (set e) EXPORT_OPTION_ANON_UID_SET
                      then anonymous_uid e else anonymous_uid p;
     anonymous_gid := if negb (has (set p) EXPORT_OPTION_ANON_GID_SET) && has (set e) EXPORT_OPTION_ANON_GID_SET
                      then anonymous_gid e else anonymous_gid p;
     expire_time_attr := if negb (has (set p) EXPORT_OPTION_EXPIRE_SET) && has (set e) EXPORT_OPTION_EXPIRE_SET
                         then expire_time_attr e else expire_time_attr p;
     set := Z.lor (set p) (set e) |}.

(** What is still not set is taken from the defaults of the code. *)
Definition take_defaults (d : export_perms) (p : export_perms) : export_perms :=
  {| options := Z.lor (options p) (Z.ldiff (options d) (set p));
     anonymous_uid := if negb (has (set p) EXPORT_OPTION_ANON_UID_SET) then anonymous_uid d else anonymous_uid p;
     anonymous_gid := if negb (has (set p) EXPORT_OPTION_ANON_GID_SET) then anonymous_gid d else anonymous_gid p;
     expire_time_attr := if negb (has (set p) EXPORT_OPTION_EXPIRE_SET) then expire_time_attr d else expire_time_attr p;
     set := Z.lor (set p) (set d) |}.

Section Exports.
Context {HN : HostNames}.

Definition export_check_access (export_opt : global_export_perms) (ctx_export : option gsh_export)
  (caller_addr : sockaddr_t) : H export_perms :=
  p ← match ctx_export with
      | None => mret no_perms
      | Some e =>
          client ← (if bool_decide (length (exp_clients e) = 0%nat)
                    then client_match client_entry caller_addr (opt_clients export_opt)
                    else client_match client_entry caller_addr (exp_clients e));
          mret (take_unset (exp_perms e)
                  match client with Some expclient => take_client (client_perms expclient) no_perms | None => no_perms end)
      end;
  mret (take_defaults (def export_opt) (take_unset (conf export_opt) p)).

End Exports.

Definition export_check_options (export_opt : global_export_perms) (exp : gsh_export) : Z :=
  let options1 := Z.land (options (exp_perms exp)) (set (exp_perms exp)) in
  let set1 := set (exp_perms exp) in
  let options2 := Z.lor options1 (Z.ldiff (Z.land (options (conf export_opt)) (set (conf export_opt))) set1) in
  let set2 := Z.lor set1 (set (conf export_opt)) in
  Z.lor options2 (Z.ldiff (options (def export_opt)) set2).

(** [perms] is [op_ctx->export_perms], [None] without [op_ctx]. *)
Definition get_anonymous_uid (export_opt : global_export_perms) (perms : option export_perms) : Z :=
  let configured :=
    if has (set (conf export_opt)) EXPORT_OPTION_ANON_UID_SET then anonymous_uid (conf export_opt)
    else anonymous_uid (def export_opt) in
  match perms with
  | Some p => if has (set p) EXPORT_OPTION_ANON_UID_SET then anonymous_uid p else configured
  | None => configured
  end.

Definition get_anonymous_gid (export_opt : global_export_perms) (perms : option export_perms) : Z :=
  let configured :=
    if has (set (conf export_opt)) EXPORT_OPTION_ANON_GID_SET then anonymous_gid (conf export_opt)
    else anonymous_gid (def export_opt) in
  match perms with
  | Some p => if has (set p) EXPORT_OPTION_ANON_GID_SET then anonymous_gid p else configured
  | None => configured
  end.

(** ** Flavours of authentication *)
Definition AUTH_NONE : Z := 0.
Definition AUTH_UNIX : Z := 1.
Definition RPCSEC_GSS : Z := 6.
Definition RPCSEC_GSS_SVC_NONE : Z := 1.
Definition RPCSEC_GSS_SVC_INTEGRITY : Z := 2.
Definition RPCSEC_GSS_SVC_PRIVACY : Z := 3.

(** [gc_svc] is read for RPCSEC_GSS only. *)
Definition export_check_security (opts oa_flavor gc_svc : Z) : bool :=
  if oa_flavor =? AUTH_NONE then has opts EXPORT_OPTION_AUTH_NONE
  else if oa_flavor =? AUTH_UNIX then has opts EXPORT_OPTION_AUTH_UNIX
  else if oa_flavor =? RPCSEC_GSS then
    if negb (has opts (Z.lor (Z.lor EXPORT_OPTION_RPCSEC_GSS_NONE EXPORT_OPTION_RPCSEC_GSS_INTG) EXPORT_OPTION_RPCSEC_GSS_PRIV))
    then false
    else if gc_svc =? RPCSEC_GSS_SVC_NONE then has opts EXPORT_OPTION_RPCSEC_GSS_NONE
    else if gc_svc =? RPCSEC_GSS_SVC_INTEGRITY then has opts EXPORT_OPTION_RPCSEC_GSS_INTG
    else if gc_svc =? RPCSEC_GSS_SVC_PRIVACY then has opts EXPORT_OPTION_RPCSEC_GSS_PRIV
    else false
  else false.

(** ** What the permissions are

    The sources of a permission in the order in which they count. *)
Definition first_setting (flag : nat) (sources : list export_perms) : option export_perms :=
  List.find (fun p => Z.testbit (set p) (Z.of_nat flag)) sources.

Definition option_on (flag : nat) (sources : list export_perms) (d : export_perms) : bool :=
  match first_setting flag sources with
  | Some p => Z.testbit (options p) (Z.of_nat flag)
  | None => Z.testbit (options d) (Z.of_nat flag)
  end.

(** A value that belongs to a flag. *)
Definition value_of (flag : nat) (f : export_perms -> Z) (sources : list export_perms) (d : export_perms) : Z :=
  f (default d (first_setting flag sources)).

(** The permissions [p] are those of the sources; the expiry time is compared for sources from [sx] on. *)
Definition perms_from (sources : list export_perms) (p : export_perms) : Prop :=
  (forall i, Z.testbit (options p) (Z.of_nat i) = match first_setting i sources with Some q => Z.testbit (options q) (Z.of_nat i) | None => false end) /\
  (forall i, Z.testbit (set p) (Z.of_nat i) = bool_decide (is_Some (first_setting i sources))) /\
  (forall q, first_setting 3 sources = Some q -> anonymous_uid p = anonymous_uid q) /\
  (forall q, first_setting 4 sources = Some q -> anonymous_gid p = anonymous_gid q) /\
  (forall q, first_setting 19 sources = Some q -> expire_time_attr p = expire_time_attr q).

Lemma has_pow2 x k : 0 <= k -> has x (2 ^ k) = Z.testbit x k.
Proof.
  intros Hk. unfold has. assert (Z.land x (2 ^ k) = if Z.testbit x k then 2 ^ k else 0) as ->.
  { apply Z.bits_inj'. intros j Hj. rewrite Z.land_spec, Z.pow2_bits_eqb by done.
    destruct (Z.testbit x k) eqn:E; rewrite ?Z.pow2_bits_eqb, ?Z.bits_0 by done; destruct (Z.eqb_spec k j) as [<-|]; by rewrite ?E, ?andb_false_r. }
  pose proof (Z.pow_pos_nonneg 2 k ltac:(lia) Hk). destruct (Z.testbit x k); [|done]. by rewrite (proj2 (Z.eqb_neq _ _)) by lia.
Qed.

Lemma has_uid x : has x EXPORT_OPTION_ANON_UID_SET = Z.testbit x (Z.of_nat 3).
Proof. exact (has_pow2 x 3 ltac:(lia)). Qed.
Lemma has_gid x : has x EXPORT_OPTION_ANON_GID_SET = Z.testbit x (Z.of_nat 4).
Proof. exact (has_pow2 x 4 ltac:(lia)). Qed.
Lemma has_expire x : has x EXPORT_OPTION_EXPIRE_SET = Z.testbit x (Z.of_nat 19).
Proof. exact (has_pow2 x 19 ltac:(lia)). Qed.

Lemma first_setting_app i l k :
  first_setting i (l ++ k) = match first_setting i l with Some p => Some p | None => first_setting i k end.
Proof. unfold first_setting. induction l as [|p l IH]; simpl; [done|]. by destruct (Z.testbit _ _). Qed.

Lemma perms_from_nil : perms_from [] no_perms.
Proof. split_and!; try done; intros i; apply Z.bits_0. Qed.

Lemma perms_from_client c : Z.testbit (set c) 19 = false -> perms_from [c] (take_client c no_perms).
Proof.
  intros Hx. unfold perms_from, take_client, first_setting. cbn -[Z.testbit Z.of_nat]. rewrite has_uid, has_gid. split_and!.
  - intros i. rewrite Z.land_spec. destruct (Z.testbit (set c) (Z.of_nat i)); [apply andb_true_r|apply andb_false_r].
  - intros i. by destruct (Z.testbit (set c) (Z.of_nat i)).
  - by destruct (Z.testbit (set c) (Z.of_nat 3)); intros q [= ->].
  - by destruct (Z.testbit (set c) (Z.of_nat 4)); intros q [= ->].
  - change (Z.of_nat 19) with 19. by rewrite Hx.
Qed.

(** A value stays what the first source made it. *)
Lemma value_kept i (f : export_perms -> Z) sources e p v :
  Z.testbit (set p) (Z.of_nat i) = bool_decide (is_Some (first_setting i sources)) ->
  (forall q, first_setting i sources = Some q -> f p = f q) ->
  v = (if negb (Z.testbit (set p) (Z.of_nat i)) && Z.testbit (set e) (Z.of_nat i) then f e else f p) ->
  forall q, first_setting i (sources ++ [e]) = Some q -> v = f q.
Proof.
  intros Hs Hf -> q. rewrite first_setting_app, Hs. destruct (first_setting i sources) as [q'|]; simpl.
  - intros [= ->]. by apply Hf.
  - unfold first_setting. simpl. by destruct (Z.testbit (set e) (Z.of_nat i)); intros [= ->].
Qed.

Lemma perms_from_unset sources e p : perms_from sources p -> perms_from (sources ++ [e]) (take_unset e p).
Proof.
  intros (Ho & Hs & Hu & Hg & Hx). unfold take_unset. rewrite !has_uid, !has_gid, !has_expire. split_and!; cbn -[Z.testbit Z.of_nat first_setting].
  - intros i. rewrite Z.lor_spec, Z.ldiff_spec, Z.land_spec, Ho, Hs, first_setting_app. destruct (first_setting i sources) as [q|]; simpl.
    + by rewrite andb_false_r, orb_false_r.
    + unfold first_setting. simpl. destruct (Z.testbit (set e) (Z.of_nat i)); by rewrite ?andb_true_r, ?andb_false_r.
  - intros i. rewrite Z.lor_spec, Hs, first_setting_app. destruct (first_setting i sources) as [q|]; simpl; [done|].
    unfold first_setting. simpl. by destruct (Z.testbit (set e) (Z.of_nat i)).
  - by eapply (value_kept 3 anonymous_uid).
  - by eapply (value_kept 4 anonymous_gid).
  - by eapply (value_kept 19 expire_time_attr).
Qed.

(** The permissions are those of the first source that sets them, or the defaults. *)
Definition perms_are (sources : list export_perms) (d p : export_perms) : Prop :=
  (forall i, Z.testbit (options p) (Z.of_nat i) = option_on i sources d) /\
  anonymous_uid p = value_of 3 anonymous_uid sources d /\
  anonymous_gid p = value_of 4 anonymous_gid sources d /\
  expire_time_attr p = value_of 19 expire_time_attr sources d.

Lemma perms_from_defaults sources d p : perms_from sources p -> perms_are sources d (take_defaults d p).
Proof.
  intros (Ho & Hs & Hu & Hg & Hx). unfold take_defaults. rewrite has_uid, has_gid, has_expire.
  split_and!; cbn -[Z.testbit Z.of_nat first_setting]; unfold option_on, value_of.
  - intros i. rewrite Z.lor_spec, Z.ldiff_spec, Ho, Hs. destruct (first_setting i sources) as [q|]; simpl;
      by rewrite ?andb_false_r, ?andb_true_r, ?orb_false_r.
  - rewrite Hs. destruct (first_setting 3 sources) as [q|]; simpl; [by apply Hu|done].
  - rewrite Hs. destruct (first_setting 4 sources) as [q|]; simpl; [by apply Hg|done].
  - rewrite Hs. destruct (first_setting 19 sources) as [q|]; simpl; [by apply Hx|done].
Qed.

(** The client's entry, in the list of the export or, if that is empty, of EXPORT_DEFAULTS. *)
Definition client_of {HN : HostNames} (s : host_state) (export_opt : global_export_perms) (e : gsh_export) (a : sockaddr_t) :
  option exportlist_client_entry :=
  List.find (fun c => entry_matches s (convert_ipv6_to_ipv4 a) (client_entry c))
    (match exp_clients e with [] => opt_clients export_opt | l => l end).

Definition perm_sources {HN : HostNames} (s : host_state) (export_opt : global_export_perms) (ctx_export : option gsh_export) (a : sockaddr_t) :
  list export_perms :=
  match ctx_export with
  | None => []
  | Some e => match client_of s export_opt e a with Some c => [client_perms c] | None => [] end ++ [exp_perms e]
  end ++ [conf export_opt].

(** The entries of client lists do not set an expiry time. *)
Definition no_client_expiry (l : list exportlist_client_entry) : Prop :=
  Forall (fun c => Z.testbit (set (client_perms c)) 19 = false) l.

Lemma export_check_access_spec {HN : HostNames} export_opt ctx_export a s :
  ng_inv (hs_ng s) -> is_Some (host_cidr a) -> no_client_expiry (opt_clients export_opt) ->
  (forall e, ctx_export = Some e -> no_client_expiry (exp_clients e)) ->
  wp (export_check_access export_opt ctx_export a)
    (fun p s' => perms_are (perm_sources s export_opt ctx_export a) (def export_opt) p /\ same_host (convert_ipv6_to_ipv4 a) s s') s.
Proof.
  intros Hinv Ha Hx He. unfold export_check_access, perm_sources. apply wp_bind. destruct ctx_export as [e|].
  2:{ do 2 wp_step. split; [|by split]. apply perms_from_defaults, perms_from_unset, perms_from_nil. }
  set (l := match exp_clients e with [] => opt_clients export_opt | l => l end).
  assert (no_client_expiry l) as Hl. { subst l. specialize (He e eq_refl). by destruct (exp_clients e). }
  replace (if bool_decide _ then _ else _) with (client_match client_entry a l) by (subst l; by destruct (exp_clients e)).
  apply wp_bind. eapply wp_mono; [by apply client_match_spec|]. intros r s' [-> Hs]. do 2 wp_step. split; [|done].
  apply perms_from_defaults, perms_from_unset, perms_from_unset. unfold client_of. fold l. destruct (List.find _ l) as [c|] eqn:E; [|apply perms_from_nil].
  apply perms_from_client. apply find_some in E as [Hin _]. apply (proj1 (List.Forall_forall _ _) Hl c). done.
Qed.

(** What [export_check_options] gives are the options of a client without an entry. *)
Lemma export_check_options_spec export_opt e i :
  Z.testbit (export_check_options export_opt e) (Z.of_nat i) = option_on i [exp_perms e; conf export_opt] (def export_opt).
Proof.
  unfold export_check_options, option_on, first_setting. rewrite !Z.lor_spec, !Z.ldiff_spec, !Z.lor_spec, !Z.land_spec. simpl.
  destruct (Z.testbit (set (exp_perms e)) (Z.of_nat i)), (Z.testbit (set (conf export_opt)) (Z.of_nat i)); simpl;
    by rewrite ?andb_false_r, ?andb_true_r, ?orb_false_r.
Qed.

(** C13: [export_check_access] returns, and each option of the result is that of the first of these that sets it: the
    entry of the client's list that the client matches first, the export, EXPORT_DEFAULTS, or else the default of
    the code; so are the anonymous user and group and the expiry time, which entries of client lists do not
    set.  The list is that of the export unless it is empty.  Without an entry the options are those of
    [export_check_options]. *)
Theorem export_check_access_correct {HN : HostNames} export_opt ctx_export a s :
  ng_inv (hs_ng s) -> is_Some (host_cidr a) -> no_client_expiry (opt_clients export_opt) ->
  (forall e, ctx_export = Some e -> no_client_expiry (exp_clients e)) ->
  exists p s', export_check_access export_opt ctx_export a s = Some (p, s') /\
    perms_are (perm_sources s export_opt ctx_export a) (def export_opt) p /\
    same_host (convert_ipv6_to_ipv4 a) s s' /\
    (forall e i, ctx_export = Some e -> client_of s export_opt e a = None ->
       Z.testbit (options p) (Z.of_nat i) = Z.testbit (export_check_options export_opt e) (Z.of_nat i)).
Proof.
  intros Hinv Ha Hx He. destruct (proj1 (wp_run _ _ _) (export_check_access_spec export_opt ctx_export a s Hinv Ha Hx He))
    as (p & s' & E & Hp & Hs). exists p, s'. split_and!; [done..|]. intros e i -> Hc. rewrite export_check_options_spec.
  destruct Hp as [Hp _]. rewrite Hp. unfold perm_sources. by rewrite Hc.
Qed.

(** An export for reading whose client list gives one netgroup write access. *)
Definition perms_ro : export_perms :=
  {| anonymous_uid := 0; anonymous_gid := 0; expire_time_attr := 0; options := EXPORT_OPTION_READ_ACCESS; set := EXPORT_OPTION_ACCESS_MASK |}.
Definition perms_rw : export_perms :=
  {| anonymous_uid := 99; anonymous_gid := 0; expire_time_attr := 0; options := EXPORT_OPTION_ACCESS_MASK;
     set := Z.lor EXPORT_OPTION_ACCESS_MASK EXPORT_OPTION_ANON_UID_SET |}.
Definition perms_def : export_perms :=
  {| anonymous_uid := 4294967294; anonymous_gid := 4294967294; expire_time_attr := 60; options := EXPORT_OPTION_AUTH_UNIX; set := 0 |}.
Definition opt_example : global_export_perms := {| def := perms_def; conf := no_perms; opt_clients := [] |}.
Definition export_example : gsh_export :=
  {| exp_perms := perms_ro; exp_clients := [{| client_entry := NETGROUP_CLIENT [103]; client_perms := perms_rw |}] |}.
Definition caller_example : sockaddr_t := sockaddr_in 0x0500a8c0 700.

Lemma export_check_access_correct_witness :
  exists p s', export_check_access (HN := hosts_example) opt_example (Some export_example) caller_example hosts_start = Some (p, s') /\
    anonymous_uid p = 99 /\ expire_time_attr p = 60 /\ Z.testbit (options p) 6 = true.
Proof.
  destruct (export_check_access_correct (HN := hosts_example) opt_example (Some export_example) caller_example hosts_start)
    as (p & s' & E & (Ho & Hu & _ & Hx) & _); [apply (ng_init_ok 5)|done|by constructor| |].
  - intros e [= <-]. by repeat constructor.
  - exists p, s'. split_and!; [exact E|rewrite Hu; by vm_compute|rewrite Hx; by vm_compute|].
    change 6 with (Z.of_nat 6). rewrite Ho. by vm_compute.
Defined.
