(* ===== verification/Creds.v ===== *)
(** * Credentials of a request

    [support/nfs_creds.c]: the user and groups a request runs as on an export ([nfs_req_creds]), with
    the squashing of root, and what is prepared and freed around a request.  A compound may enter several
    exports; the context keeps group lists and copies of them from one to the next. *)
From S2P Require Import Prelude Status Owners Acl AclTheorems Cidr Netgroup Clients Exports.
Local Open Scope Z_scope.

(** What [caller_garray] points to: nothing, the groups in the RPC message, those of [caller_gdata],
    or one of the copies [caller_garray_copy] and [managed_garray_copy]. *)
Variant garray_ref : Set := GNull | GRpc | GData | GCopy | GManaged.
#[export] Instance garray_ref_eq_dec : EqDecision garray_ref.
Proof. solve_decision. Defined.

(** [struct user_cred] *)
Record op_creds : Set := {
  oc_uid : Z;
  oc_gid : Z;
  oc_glen : Z;
  oc_garray : garray_ref
}.
Definition zero_creds : op_creds := {| oc_uid := 0; oc_gid := 0; oc_glen := 0; oc_garray := GNull |}.

(** The message of the request: its flavour, the service of RPCSEC_GSS, and the members of
    [authunix_parms]. *)
Record svc_req : Set := {
  oa_flavor : Z;
  gc_svc : Z;
  aup_uid : Z;
  aup_gid : Z;
  aup_gids : list Z
}.

(** The answers of the identity mapper during a call: the ids of the principal, the groups of a user. *)
Record id_answers : Set := {
  principal2uid : option (Z * Z);
  uid2grp : Z -> option (list Z)
}.

Definition CREDS_LOADED : Z := 0x01.
Definition CREDS_ANON : Z := 0x02.
Definition UID_SQUASHED : Z := 0x04.
Definition GID_SQUASHED : Z := 0x08.
Definition GARRAY_SQUASHED : Z := 0x10.
Definition MANAGED_GIDS : Z := 0x20.

(** The members of [op_ctx] that belong to credentials. *)
Record req_op_context : Set := {
  cred_flags : Z;
  creds : op_creds;
  original_creds : op_creds;
  caller_gdata : option (list Z);
  caller_garray_copy : option (list Z);
  managed_garray_copy : option (list Z);
  op_perms : export_perms
}.

Abbreviation OC := (M req_op_context).

Definition set_flags (f : Z) (c : req_op_context) : req_op_context :=
  {| cred_flags := f; creds := creds c; original_creds := original_creds c; caller_gdata := caller_gdata c;
     caller_garray_copy := caller_garray_copy c; managed_garray_copy := managed_garray_copy c; op_perms := op_perms c |}.
Definition set_creds (f : op_creds -> op_creds) (c : req_op_context) : req_op_context :=
  {| cred_flags := cred_flags c; creds := f (creds c); original_creds := original_creds c; caller_gdata := caller_gdata c;
     caller_garray_copy := caller_garray_copy c; managed_garray_copy := managed_garray_copy c; op_perms := op_perms c |}.
Definition set_original (o : op_creds) (c : req_op_context) : req_op_context :=
  {| cred_flags := cred_flags c; creds := creds c; original_creds := o; caller_gdata := caller_gdata c;
     caller_garray_copy := caller_garray_copy c; managed_garray_copy := managed_garray_copy c; op_perms := op_perms c |}.
Definition set_gdata (g : option (list Z)) (c : req_op_context) : req_op_context :=
  {| cred_flags := cred_flags c; creds := creds c; original_creds := original_creds c; caller_gdata := g;
     caller_garray_copy := caller_garray_copy c; managed_garray_copy := managed_garray_copy c; op_perms := op_perms c |}.
Definition set_op_perms (p : export_perms) (c : req_op_context) : req_op_context :=
  {| cred_flags := cred_flags c; creds := creds c; original_creds := original_creds c; caller_gdata := caller_gdata c;
     caller_garray_copy := caller_garray_copy c; managed_garray_copy := managed_garray_copy c; op_perms := p |}.

(** [*garray_copy] *)
Definition copy_of (managed : bool) (c : req_op_context) : option (list Z) :=
  if managed then managed_garray_copy c else caller_garray_copy c.
Definition set_copy (managed : bool) (l : option (list Z)) (c : req_op_context) : req_op_context :=
  {| cred_flags := cred_flags c; creds := creds c; original_creds := original_creds c; caller_gdata := caller_gdata c;
     caller_garray_copy := if managed then caller_garray_copy c else l;
     managed_garray_copy := if managed then l else managed_garray_copy c; op_perms := op_perms c |}.

Definition or_flags (f : Z) : OC unit := modify (fun c => set_flags (Z.lor (cred_flags c) f) c).

Definition set_uid (u : Z) (o : op_creds) := {| oc_uid := u; oc_gid := oc_gid o; oc_glen := oc_glen o; oc_garray := oc_garray o |}.
Definition set_gid (g : Z) (o : op_creds) := {| oc_uid := oc_uid o; oc_gid := g; oc_glen := oc_glen o; oc_garray := oc_garray o |}.
Definition set_groups (n : Z) (a : garray_ref) (o : op_creds) := {| oc_uid := oc_uid o; oc_gid := oc_gid o; oc_glen := n; oc_garray := a |}.

(** The method [is_superuser] of the FSAL's export, as [FSAL/default_methods.c] has it. *)
Definition superuser (o : op_creds) : bool := is_superuser {| caller_uid := oc_uid o; caller_gid := oc_gid o; caller_garray := [] |}.

Section Creds.
(** The configuration parameter. *)
Context (enable_rpc_cred_fallback : bool).
Context (req : svc_req) (ids : id_answers).

(** The array behind a pointer. *)
Definition garray_at (a : garray_ref) (c : req_op_context) : option (list Z) :=
  match a with
  | GNull => None
  | GRpc => Some (aup_gids req)
  | GData => caller_gdata c
  | GCopy => caller_garray_copy c
  | GManaged => managed_garray_copy c
  end.

(** The flavour: [None] for one that is not supported, else whether [garray_copy] is that of the managed groups. *)
Definition load_creds : OC (option bool) :=
  modify (fun c => set_flags (Z.land (cred_flags c) (Z.lor CREDS_LOADED CREDS_ANON)) c);;
  if oa_flavor req =? AUTH_NONE then
    or_flags (Z.lor CREDS_LOADED CREDS_ANON);; mret (Some false)
  else if oa_flavor req =? AUTH_UNIX then
    f ← gets cred_flags;
    mwhen (negb (has f CREDS_LOADED))
      (modify (set_original {| oc_uid := aup_uid req; oc_gid := aup_gid req; oc_glen := Z.of_nat (length (aup_gids req)); oc_garray := GRpc |});;
       or_flags CREDS_LOADED);;
    modify (fun c => set_creds (fun _ => original_creds c) c);;
    p ← gets op_perms;
    if has (options p) EXPORT_OPTION_MANAGE_GIDS then or_flags MANAGED_GIDS;; mret (Some true) else mret (Some false)
  else if oa_flavor req =? RPCSEC_GSS then
    f ← gets cred_flags;
    mapped ← (if negb (has f CREDS_LOADED) then
                match principal2uid ids with
                | None => or_flags (Z.lor CREDS_ANON CREDS_LOADED);; mret false
                | Some (uid, gid) =>
                    modify (fun c => set_original (set_gid gid (set_uid uid (original_creds c))) c);;
                    or_flags CREDS_LOADED;; mret true
                end
              else mret true);
    if (mapped : bool) then or_flags MANAGED_GIDS;; mret (Some true) else mret (Some false)
  else mret None.

(** The loop over the groups from [i] on, [n] of them. *)
Fixpoint squash_loop (managed : bool) (n i : nat) : OC unit :=
  match n with
  | O => mret tt
  | S n =>
      c ← gets id;
      src ← deref (garray_at (oc_garray (creds c)) c);
      g ← deref (src !! i);
      mwhen (g =? 0)
        ((match copy_of managed c with
          | None =>
              if Z.of_nat (length src) <? oc_glen (creds c) then undef
              else modify (set_copy managed (Some (take (Z.to_nat (oc_glen (creds c))) src)))
          | Some _ => mret tt
          end);;
         c ← gets id;
         copy ← deref (copy_of managed c);
         (if (i <? length copy)%nat then modify (set_copy managed (Some (<[i := anonymous_gid (op_perms c)]> copy))) else undef);;
         or_flags GARRAY_SQUASHED);;
      squash_loop managed n (S i)
  end.

(** The groups, of the user or of the message; [None] when they cannot be had. *)
Definition choose_groups : OC bool :=
  c ← gets id;
  if has (cred_flags c) MANAGED_GIDS then
    let answer := match caller_gdata c with Some g => Some g | None => uid2grp ids (oc_uid (original_creds c)) end in
    match answer with
    | None =>
        if enable_rpc_cred_fallback then
          modify (set_creds (set_groups (oc_glen (original_creds c)) (oc_garray (original_creds c))));; mret true
        else mret false
    | Some g =>
        modify (set_gdata (Some g));;
        modify (set_creds (set_groups (Z.of_nat (length g)) GData));; mret true
    end
  else
    modify (set_creds (set_groups (oc_glen (original_creds c)) (oc_garray (original_creds c))));; mret true.

(** Root in the groups. *)
Definition squash_groups (managed : bool) : OC unit :=
  c ← gets id;
  if negb (has (options (op_perms c)) EXPORT_OPTION_SQUASH_TYPES) || (oc_glen (creds c) =? 0) then mret tt
  else
    squash_loop managed (Z.to_nat (oc_glen (creds c))) 0;;
    f ← gets cred_flags;
    mwhen (has f GARRAY_SQUASHED)
      (modify (set_creds (fun o => set_groups (oc_glen o) (if managed then GManaged else GCopy) o))).

Definition nfs_req_creds : OC nfsstat4 :=
  flavor ← load_creds;
  match flavor with
  | None => mret NFS4ERR_ACCESS
  | Some managed =>
      c ← gets id;
      let opts := options (op_perms c) in
      let root := superuser (original_creds c) in
      if has (cred_flags c) CREDS_ANON || has opts EXPORT_OPTION_ALL_ANONYMOUS || (has opts EXPORT_OPTION_ROOT_SQUASH && root) then
        modify (set_creds (fun o => set_groups 0 (oc_garray o) (set_gid (anonymous_gid (op_perms c)) (set_uid (anonymous_uid (op_perms c)) o))));;
        or_flags (Z.lor UID_SQUASHED GID_SQUASHED);;
        mret NFS4_OK
      else
        (if has opts EXPORT_OPTION_ROOT_ID_SQUASH && root then
           modify (set_creds (set_uid (anonymous_uid (op_perms c))));; or_flags UID_SQUASHED
         else modify (set_creds (set_uid (oc_uid (original_creds c)))));;
        (if (has opts EXPORT_OPTION_ROOT_SQUASH || has opts EXPORT_OPTION_ROOT_ID_SQUASH) && (oc_gid (original_creds c) =? 0) then
           modify (set_creds (set_gid (anonymous_gid (op_perms c))));; or_flags GID_SQUASHED
         else modify (set_creds (set_gid (oc_gid (original_creds c)))));;
        ok ← choose_groups;
        if negb ok then mret NFS4ERR_ACCESS
        else squash_groups managed;; mret NFS4_OK
  end.

(** [memset] and assignments. *)
Definition init_credentials : OC unit :=
  modify (fun c => {| cred_flags := 0;
                      creds := set_gid (anonymous_gid (op_perms c)) (set_uid (anonymous_uid (op_perms c)) zero_creds);
                      original_creds := zero_creds; caller_gdata := None; caller_garray_copy := None; managed_garray_copy := None;
                      op_perms := op_perms c |}).

(** The references and copies are given up before the context is prepared for another request. *)
Definition clean_credentials : OC unit :=
  modify (set_gdata None);;
  modify (set_copy true None);;
  modify (set_copy false None);;
  init_credentials.

(** ** What the credentials are

    The user, group and groups that the credentials name. *)
Definition effective (c : req_op_context) : option user_cred :=
  let o := creds c in
  groups ← (if oc_glen o =? 0 then Some []
            else l ← garray_at (oc_garray o) c; if Z.of_nat (length l) <? oc_glen o then None else Some (take (Z.to_nat (oc_glen o)) l));
  Some {| caller_uid := oc_uid o; caller_gid := oc_gid o; caller_garray := groups |}.

(** The ids [uid], [gid] and groups [groups] on an export with permissions [p]; [anon]: there are none. *)
Definition squash (p : export_perms) (anon : bool) (uid gid : Z) (groups : list Z) : user_cred :=
  let opts := options p in
  let root_squash := has opts EXPORT_OPTION_ROOT_SQUASH in
  let root_id_squash := has opts EXPORT_OPTION_ROOT_ID_SQUASH in
  if anon || has opts EXPORT_OPTION_ALL_ANONYMOUS || (root_squash && (uid =? 0))
  then {| caller_uid := anonymous_uid p; caller_gid := anonymous_gid p; caller_garray := [] |}
  else
    {| caller_uid := if root_id_squash && (uid =? 0) then anonymous_uid p else uid;
       caller_gid := if (root_squash || root_id_squash) && (gid =? 0) then anonymous_gid p else gid;
       caller_garray := if root_squash || root_id_squash then (fun g => if g =? 0 then anonymous_gid p else g) <$> groups else groups |}.

(** ** What stays true from export to export *)

(** A copy of [src] in which root may have been replaced. *)
Definition copy_ok (src copy : list Z) : Prop :=
  length copy = length src /\ forall j g, src !! j = Some g -> g <> 0 -> copy !! j = Some g.

Record creds_inv (c : req_op_context) : Prop := {
  inv_loaded : Z.testbit (cred_flags c) 0 = true -> oa_flavor req = AUTH_UNIX ->
    original_creds c = {| oc_uid := aup_uid req; oc_gid := aup_gid req; oc_glen := Z.of_nat (length (aup_gids req)); oc_garray := GRpc |};
  inv_gss : oa_flavor req <> AUTH_UNIX -> oc_glen (original_creds c) = 0;
  inv_anon : oa_flavor req = AUTH_UNIX -> Z.testbit (cred_flags c) 1 = false;
  inv_copy l : caller_garray_copy c = Some l -> copy_ok (aup_gids req) l;
  inv_managed l : managed_garray_copy c = Some l -> exists g, caller_gdata c = Some g /\ copy_ok g l
}.

(** The ids as first loaded. *)
Definition rpc_creds : op_creds :=
  {| oc_uid := aup_uid req; oc_gid := aup_gid req; oc_glen := Z.of_nat (length (aup_gids req)); oc_garray := GRpc |}.

(** The array the credentials point to does not change with the copies and flags. *)
Definition is_source (a : garray_ref) : Prop := a = GRpc \/ a = GData.

Lemma garray_at_source a managed l f c : is_source a -> garray_at a (set_flags f (set_copy managed l c)) = garray_at a c.
Proof. by intros [-> | ->]. Qed.

Lemma copy_ok_refl src : copy_ok src src.
Proof. done. Qed.

Lemma copy_ok_insert src copy i x : copy_ok src copy -> src !! i = Some 0 -> copy_ok src (<[i := x]> copy).
Proof.
  intros [Hl Hc] Hi. split; [by rewrite length_insert|]. intros j g Hj Hg. rewrite list_lookup_insert_ne; [by apply Hc|].
  intros <-. congruence.
Qed.

(** The state of the loop: what it has made of the flags and the copy. *)
Definition loop_state (managed : bool) (c : req_op_context) (copy : option (list Z)) (f : Z) : req_op_context :=
  set_flags f (set_copy managed copy c).

Lemma loop_state_eta managed c : loop_state managed c (copy_of managed c) (cred_flags c) = c.
Proof. by destruct managed, c. Qed.

Lemma copy_of_loop managed c copy f : copy_of managed (loop_state managed c copy f) = copy.
Proof. by destruct managed. Qed.

Lemma garray_at_loop a managed c copy f : is_source a -> garray_at a (loop_state managed c copy f) = garray_at a c.
Proof. apply garray_at_source. Qed.

(** One squashed group of the loop. *)
Lemma wp_squash_one managed c copy f src i (Q : unit -> req_op_context -> Prop) :
  (forall l, copy = Some l -> copy_ok src l) -> src !! i = Some 0 -> oc_glen (creds c) = Z.of_nat (length src) ->
  (forall l, copy_ok src l -> l !! i = Some (anonymous_gid (op_perms c)) ->
     (forall j, j <> i -> l !! j = default src copy !! j) ->
     Q tt (loop_state managed c (Some l) (Z.lor f GARRAY_SQUASHED))) ->
  wp ((match copy with
       | None =>
           if Z.of_nat (length src) <? oc_glen (creds c) then undef
           else modify (set_copy managed (Some (take (Z.to_nat (oc_glen (creds c))) src)))
       | Some _ => mret tt
       end);;
      c ← gets id;
      copy ← deref (copy_of managed c);
      (if (i <? length copy)%nat then modify (set_copy managed (Some (<[i := anonymous_gid (op_perms c)]> copy))) else undef);;
      or_flags GARRAY_SQUASHED) Q (loop_state managed c copy f).
Proof.
  intros Hcopy Hi Hlen HQ. apply wp_bind.
  assert (wp (match copy with
       | None =>
           if Z.of_nat (length src) <? oc_glen (creds c) then undef
           else modify (set_copy managed (Some (take (Z.to_nat (oc_glen (creds c))) src)))
       | Some _ => mret tt
       end) (fun _ c' => c' = loop_state managed c (Some (default src copy)) f) (loop_state managed c copy f)) as Hmake.
  { destruct copy as [l|]; [by wp_step|]. rewrite Hlen, Z.ltb_irrefl, Nat2Z.id, take_ge by done. wp_step. by destruct managed. }
  eapply wp_mono; [exact Hmake|]. intros _ c' ->. apply wp_bind, wp_gets. apply wp_bind.
  eapply wp_deref; [by destruct managed|]. apply wp_bind.
  assert (copy_ok src (default src copy)) as Hok. { destruct copy; [by apply Hcopy|apply copy_ok_refl]. }
  assert (i < length src)%nat as Hlt by by eapply lookup_lt_Some.
  rewrite (proj2 (Nat.ltb_lt _ _)) by (destruct Hok as [-> _]; done). wp_step. unfold or_flags. wp_step.
  specialize (HQ (<[i := anonymous_gid (op_perms c)]> (default src copy))).
  replace (set_flags _ _) with (loop_state managed c (Some (<[i := anonymous_gid (op_perms c)]> (default src copy))) (Z.lor f GARRAY_SQUASHED))
    by by destruct managed, c.
  apply HQ; [by apply copy_ok_insert| |].
  - apply list_lookup_insert_eq. destruct Hok as [-> _]. done.
  - intros j Hj. by apply list_lookup_insert_ne.
Qed.

(** What the loop from [i] on leaves: root is replaced from there on. *)
Definition squashed_from (i : nat) (anon : Z) (src : list Z) (copy copy' : option (list Z)) : Prop :=
  (forall l, copy' = Some l -> copy_ok src l) /\
  if bool_decide (0 ∈ drop i src)
  then exists l, copy' = Some l /\ (forall j, (i <= j)%nat -> src !! j = Some 0 -> l !! j = Some anon) /\
         (forall j, (j < i)%nat -> l !! j = default src copy !! j)
  else copy' = copy.

Lemma squashed_from_step i anon src copy l copy' :
  src !! i = Some 0 -> l !! i = Some anon -> (forall j, j <> i -> l !! j = default src copy !! j) -> copy_ok src l ->
  squashed_from (S i) anon src (Some l) copy' -> squashed_from i anon src copy copy'.
Proof.
  intros Hi Hl Hother Hok [Hall H]. split; [done|].
  rewrite (bool_decide_true (0 ∈ drop i src)) by (rewrite (drop_S _ _ _ Hi); left).
  case_bool_decide as Hin.
  - destruct H as (l' & -> & Hz & Hk). exists l'. split_and!; [done| |].
    + intros j Hj Hs. destruct (decide (j = i)) as [->|]; [rewrite Hk by lia; done|]. apply Hz; [lia|done].
    + intros j Hj. rewrite Hk by lia. apply Hother. lia.
  - subst copy'. exists l. split_and!; [done| |].
    + intros j Hj Hs. destruct (decide (j = i)) as [->|]; [done|]. destruct Hin. apply list_elem_of_lookup. exists (j - S i)%nat.
      rewrite lookup_drop. by replace (S i + (j - S i))%nat with j by lia.
    + intros j Hj. apply Hother. lia.
Qed.

Lemma wp_squash_loop managed c src n i copy f :
  garray_at (oc_garray (creds c)) c = Some src -> is_source (oc_garray (creds c)) -> oc_glen (creds c) = Z.of_nat (length src) ->
  (i + n = length src)%nat -> (forall l, copy = Some l -> copy_ok src l) ->
  wp (squash_loop managed n i)
    (fun _ c' => exists copy', squashed_from i (anonymous_gid (op_perms c)) src copy copy' /\
       c' = loop_state managed c copy' (if bool_decide (0 ∈ drop i src) then Z.lor f GARRAY_SQUASHED else f))
    (loop_state managed c copy f).
Proof.
  intros Hsrc Hs Hlen. revert i copy f. induction n as [|n IH]; intros i copy f Hi Hcopy.
  - cbn [squash_loop]. wp_step. exists copy. unfold squashed_from. rewrite drop_ge, !bool_decide_false by (try lia; by intros ?%elem_of_nil). done.
  - cbn [squash_loop]. wp_step. wp_step. cbn [id].
    change (creds (loop_state managed c copy f)) with (creds c). rewrite copy_of_loop, garray_at_loop by done.
    wp_step. eapply wp_deref; [exact Hsrc|]. wp_step. destruct (lookup_lt_is_Some_2 src i ltac:(lia)) as [g Hg].
    eapply wp_deref; [exact Hg|]. wp_step. rewrite (drop_S _ _ _ Hg). destruct (Z.eqb_spec g 0) as [->|Hne]; cbn [mwhen].
    + eapply wp_squash_one; [done..|]. intros l Hok Hl Ho. eapply wp_mono; [apply IH; [lia|by intros ? [= <-]]|].
      intros _ c' (copy' & Hsq & ->). exists copy'. split; [by eapply squashed_from_step|].
      rewrite (bool_decide_true (0 ∈ 0 :: _)) by left. case_bool_decide; [|done]. by rewrite <- Z.lor_assoc, Z.lor_diag.
    + wp_step. eapply wp_mono; [apply IH; [lia|done]|]. intros _ c' (copy' & [Hall Hsq] & ->). exists copy'.
      assert (bool_decide (0 ∈ g :: drop (S i) src) = bool_decide (0 ∈ drop (S i) src)) as E.
      { apply bool_decide_ext. rewrite elem_of_cons. naive_solver. }
      unfold squashed_from. rewrite (drop_S _ _ _ Hg), E. split; [|done]. split; [done|].
      destruct (bool_decide (0 ∈ drop (S i) src)); [|done]. destruct Hsq as (l & -> & Hz & Hk). exists l. split_and!; [done| |].
      * intros j Hj Hs'. apply Hz; [|done]. destruct (decide (j = i)) as [->|]; [congruence|lia].
      * intros j Hj. apply Hk. lia.
Qed.

(** The copy of a whole list in which root is replaced. *)
Lemma squashed_whole anon src l copy :
  squashed_from 0 anon src copy (Some l) -> 0 ∈ src -> l = (fun g => if g =? 0 then anon else g) <$> src.
Proof.
  intros [Hok Hsq] Hin. destruct (Hok l eq_refl) as [Hlen Hk]. rewrite drop_0, bool_decide_true in Hsq by done.
  destruct Hsq as (l' & [= <-] & Hz & _). apply list_eq. intros j. rewrite list_lookup_fmap.
  destruct (src !! j) as [g|] eqn:E; simpl.
  - destruct (Z.eqb_spec g 0) as [->|]; [apply Hz; [lia|done]|by apply Hk].
  - apply lookup_ge_None. apply lookup_ge_None in E. lia.
Qed.

(** ** Loading *)
Lemma has_loaded f : has f CREDS_LOADED = Z.testbit f 0.
Proof. exact (has_pow2 f 0 ltac:(lia)). Qed.
Lemma has_anon f : has f CREDS_ANON = Z.testbit f 1.
Proof. exact (has_pow2 f 1 ltac:(lia)). Qed.
Lemma has_garray f : has f GARRAY_SQUASHED = Z.testbit f 4.
Proof. exact (has_pow2 f 4 ltac:(lia)). Qed.
Lemma has_managed f : has f MANAGED_GIDS = Z.testbit f 5.
Proof. exact (has_pow2 f 5 ltac:(lia)). Qed.

Definition supported : bool := (oa_flavor req =? AUTH_NONE) || (oa_flavor req =? AUTH_UNIX) || (oa_flavor req =? RPCSEC_GSS).

(** The context after loading. *)
Record loaded (c c' : req_op_context) (managed : bool) : Prop := {
  ld_inv : creds_inv c';
  ld_perms : op_perms c' = op_perms c;
  ld_gdata : caller_gdata c' = caller_gdata c;
  ld_bit0 : Z.testbit (cred_flags c') 0 = true;
  ld_anon : oa_flavor req = AUTH_NONE -> Z.testbit (cred_flags c') 1 = true;
  ld_clear k : In k [2; 3; 4] -> Z.testbit (cred_flags c') k = false;
  ld_managed : Z.testbit (cred_flags c') 1 = false -> Z.testbit (cred_flags c') 5 = managed;
  ld_groups : managed = false -> Z.testbit (cred_flags c') 1 = false -> oa_flavor req = AUTH_UNIX;
  ld_unix : oa_flavor req = AUTH_UNIX -> managed = has (options (op_perms c)) EXPORT_OPTION_MANAGE_GIDS;
  ld_gss : oa_flavor req = RPCSEC_GSS -> Z.testbit (cred_flags c) 0 = true -> original_creds c' = original_creds c;
  ld_map : oa_flavor req = RPCSEC_GSS -> Z.testbit (cred_flags c) 0 = false ->
    match principal2uid ids with
    | Some (u, g) => oc_uid (original_creds c') = u /\ oc_gid (original_creds c') = g
    | None => Z.testbit (cred_flags c') 1 = true
    end
}.

Lemma land_pow2 x k : 0 <= k -> Z.land x (2 ^ k) = if Z.testbit x k then 2 ^ k else 0.
Proof.
  intros Hk. apply Z.bits_inj'. intros j Hj. rewrite Z.land_spec, Z.pow2_bits_eqb by done.
  destruct (Z.testbit x k) eqn:E; rewrite ?Z.pow2_bits_eqb, ?Z.bits_0 by done; destruct (Z.eqb_spec k j) as [<-|]; by rewrite ?E, ?andb_false_r.
Qed.

Lemma flags_low f : Z.land f (Z.lor CREDS_LOADED CREDS_ANON) = Z.lor (if Z.testbit f 0 then 1 else 0) (if Z.testbit f 1 then 2 else 0).
Proof.
  change (Z.lor CREDS_LOADED CREDS_ANON) with (Z.lor (2 ^ 0) (2 ^ 1)). by rewrite Z.land_lor_distr_r, !land_pow2.
Qed.

(** The flags are known, and so are the branches. *)
Ltac run_flags := repeat (wp_step; cbn -[has options EXPORT_OPTION_MANAGE_GIDS]).

Lemma wp_load_creds c :
  creds_inv c ->
  wp load_creds (fun r c' => match r with
    | None => supported = false /\ creds_inv c' /\ op_perms c' = op_perms c
    | Some managed => supported = true /\ loaded c c' managed
    end) c.
Proof.
  intros [Hl Hg Ha Hc Hm]. unfold load_creds, supported. wp_step. wp_step. rewrite flags_low.
  destruct (Z.eqb_spec (oa_flavor req) AUTH_NONE) as [E|E1]; [|destruct (Z.eqb_spec (oa_flavor req) AUTH_UNIX) as [E|E2];
    [|destruct (Z.eqb_spec (oa_flavor req) RPCSEC_GSS) as [E|E3]; [|wp_step; by split_and!]]];
  destruct (Z.testbit (cred_flags c) 0) eqn:B0, (Z.testbit (cred_flags c) 1) eqn:B1; unfold or_flags.
  all: run_flags; try by match goal with H : negb (has _ CREDS_LOADED) = _ |- _ => discriminate H end.
  all: split; [done|split; [split|..]]; rewrite ?E; cbn -[has options EXPORT_OPTION_MANAGE_GIDS]; try done;
    try (by intros k [<-|[<-|[<-|[]]]]); try (intros; first [done|congruence|by auto|by specialize (Ha E)]).
  1-4: intros _; by rewrite Hg by by rewrite E.
  all: intros _ Hodd; change (Z.odd (cred_flags c)) with (Z.testbit (cred_flags c) 0) in Hodd; try congruence;
    by match goal with H : principal2uid ids = _ |- _ => rewrite H end.
Qed.

(** ** Groups *)

(** The groups before squashing. *)
Definition source_groups (c : req_op_context) (managed : bool) : list Z :=
  if managed then default [] (caller_gdata c) else aup_gids req.

(** The fields that a later part of [nfs_req_creds] keeps. *)
Definition kept (c c' : req_op_context) : Prop :=
  op_perms c' = op_perms c /\ original_creds c' = original_creds c /\
  oc_uid (creds c') = oc_uid (creds c) /\ oc_gid (creds c') = oc_gid (creds c).

(** With groups that are those of the user, or of the message. *)
Lemma wp_choose_groups c managed :
  enable_rpc_cred_fallback = false ->
  creds_inv c -> Z.testbit (cred_flags c) 5 = managed -> Z.testbit (cred_flags c) 0 = true -> (managed = false -> oa_flavor req = AUTH_UNIX) ->
  wp choose_groups
    (fun ok c' => creds_inv c' /\ kept c c' /\ cred_flags c' = cred_flags c /\
       if (ok : bool) then
         oc_glen (creds c') = Z.of_nat (length (source_groups c' managed)) /\ is_source (oc_garray (creds c')) /\
         garray_at (oc_garray (creds c')) c' = Some (source_groups c' managed) /\
         (managed = true -> caller_gdata c' = Some (source_groups c' managed) /\
            caller_gdata c' = match caller_gdata c with Some g => Some g | None => uid2grp ids (oc_uid (original_creds c)) end)
       else managed = true /\ caller_gdata c = None /\ uid2grp ids (oc_uid (original_creds c)) = None) c.
Proof.
  intros Hfb Hinv H5 H0 Hunix. unfold choose_groups. wp_step. wp_step. cbn [id]. rewrite has_managed, H5. destruct managed.
  - destruct (caller_gdata c) as [g|] eqn:Eg; [|destruct (uid2grp ids (oc_uid (original_creds c))) as [g|] eqn:Eu];
      [| |rewrite Hfb; by wp_step].
    all: do 4 wp_step; split_and!; try done; [|by right]; destruct Hinv as [Hl Hg Ha Hc Hm]; split; try done;
      intros l Hl'; exists g; split; [done|]; destruct (Hm l Hl') as (g' & E' & Hok); congruence.
  - do 2 wp_step. pose proof (inv_loaded _ Hinv H0 (Hunix eq_refl)) as Ho. split_and!; try done; cbn; rewrite Ho; try done; [by destruct Hinv|by left].
Qed.

(** Root is replaced if the export squashes. *)
Lemma wp_squash_groups c managed src :
  creds_inv c -> (managed = true -> caller_gdata c = Some src) -> (managed = false -> aup_gids req = src) ->
  oc_glen (creds c) = Z.of_nat (length src) -> is_source (oc_garray (creds c)) -> garray_at (oc_garray (creds c)) c = Some src ->
  Z.testbit (cred_flags c) 4 = false ->
  let squashing := has (options (op_perms c)) EXPORT_OPTION_SQUASH_TYPES in
  wp (squash_groups managed)
    (fun _ c' => creds_inv c' /\ kept c c' /\
       cred_flags c' = (if squashing && bool_decide (0 ∈ src) then Z.lor (cred_flags c) GARRAY_SQUASHED else cred_flags c) /\
       effective c' = Some {| caller_uid := oc_uid (creds c); caller_gid := oc_gid (creds c);
                              caller_garray := if squashing then (fun g => if g =? 0 then anonymous_gid (op_perms c) else g) <$> src else src |}) c.
Proof.
  intros Hinv Hm Hr Hlen Hs Hsrc H4 squashing. unfold squash_groups. wp_step. wp_step. cbn [id]. fold squashing.
  assert (0 ∉ src -> (fun g => if g =? 0 then anonymous_gid (op_perms c) else g) <$> src = src) as Hnone.
  { intros Hn. rewrite <- (list_fmap_id src) at 2. apply list_fmap_ext. intros i x Hx. destruct (Z.eqb_spec x 0) as [->|]; [|done].
    destruct Hn. by eapply list_elem_of_lookup_2. }
  assert (effective c = Some {| caller_uid := oc_uid (creds c); caller_gid := oc_gid (creds c); caller_garray := src |}) as Heff.
  { unfold effective. rewrite Hsrc, Hlen. destruct (Z.eqb_spec (Z.of_nat (length src)) 0) as [E|E]; simpl.
    - destruct src; [done|simpl in E; lia].
    - by rewrite Z.ltb_irrefl, Nat2Z.id, take_ge by done. }
  destruct (negb squashing || (oc_glen (creds c) =? 0)) eqn:Eno.
  { wp_step. split_and!; try done.
    - destruct squashing; [|done]. simpl in Eno. apply Z.eqb_eq in Eno. destruct src; [done|simpl in *; lia].
    - rewrite Heff. destruct squashing; [|done]. simpl in Eno. apply Z.eqb_eq in Eno. destruct src; [done|simpl in *; lia]. }
  apply orb_false_iff in Eno as [Esq%negb_false_iff Egl]. rewrite Esq. wp_step.
  rewrite <- (loop_state_eta managed c) at 2. rewrite Hlen, Nat2Z.id. eapply wp_mono.
  { apply (wp_squash_loop managed c src); [done..|lia|]. intros l El. destruct managed; simpl in El.
    - destruct (inv_managed _ Hinv l El) as (g & Eg & Hok). specialize (Hm eq_refl). congruence.
    - rewrite <- (Hr eq_refl). by apply (inv_copy _ Hinv). }
  intros _ c' (copy' & Hsq & ->). rewrite drop_0. pose proof Hsq as [Hok Hcase]. rewrite drop_0 in Hcase.
  do 2 wp_step; cbn [loop_state set_flags cred_flags]; rewrite has_garray. case_bool_decide as Hin; cbn [andb].
  1: rewrite Z.lor_spec, orb_true_r; cbn [mwhen]; wp_step.
  2: rewrite H4; cbn [mwhen]; wp_step.
  - destruct copy' as [l|]; [|by destruct Hcase as (? & ? & _)].
    assert (l = (fun g => if g =? 0 then anonymous_gid (op_perms c) else g) <$> src) as El by by eapply squashed_whole.
    split_and!; [|by destruct managed|done|].
    + destruct Hinv as [Hl Hg Ha Hc Hmg]. split; try by destruct managed.
      * cbn -[Z.testbit Z.lor]. rewrite Z.lor_spec, orb_false_r. by destruct managed.
      * cbn -[Z.testbit Z.lor]. intros E. rewrite Z.lor_spec, (Ha E). done.
      * cbn -[Z.testbit Z.lor]. destruct managed; [done|]. intros l' [= <-]. rewrite (Hr eq_refl). by apply Hok.
      * cbn -[Z.testbit Z.lor]. destruct managed; [|done]. intros l' [= <-]. exists src. split; [by apply Hm|by apply Hok].
    + unfold effective. cbn. rewrite Hlen. destruct (Z.eqb_spec (Z.of_nat (length src)) 0) as [E0|E0]; simpl.
      * destruct src; [by apply elem_of_nil in Hin|simpl in E0; lia].
      * replace (garray_at _ _) with (Some l) by by destruct managed. simpl.
        rewrite El, length_fmap, Z.ltb_irrefl, Nat2Z.id, take_ge by (by rewrite length_fmap). done.
  - subst copy'. rewrite loop_state_eta. split_and!; try done. by rewrite Hnone.
Qed.

(** ** The whole function *)

(** The groups come from the server, not from the message. *)
Definition managed_groups (p : export_perms) : bool := negb (oa_flavor req =? AUTH_UNIX) || has (options p) EXPORT_OPTION_MANAGE_GIDS.

(** Every id is replaced. *)
Definition all_squashed (p : export_perms) (anon : bool) (uid : Z) : bool :=
  anon || has (options p) EXPORT_OPTION_ALL_ANONYMOUS || (has (options p) EXPORT_OPTION_ROOT_SQUASH && (uid =? 0)).

(** The groups of the user, as they were found on an export before or are found now. *)
Definition gdata_for (c : req_op_context) (uid : Z) : option (list Z) :=
  match caller_gdata c with Some g => Some g | None => uid2grp ids uid end.

Lemma has_lor x a b : has x (Z.lor a b) = has x a || has x b.
Proof.
  unfold has. rewrite Z.land_lor_distr_r, <- negb_andb. f_equal. apply eq_true_iff_eq. by rewrite andb_true_iff, !Z.eqb_eq, Z.lor_eq_0_iff.
Qed.

Lemma has_squash_types x :
  has x EXPORT_OPTION_SQUASH_TYPES = has x EXPORT_OPTION_ROOT_SQUASH || has x EXPORT_OPTION_ROOT_ID_SQUASH || has x EXPORT_OPTION_ALL_ANONYMOUS.
Proof. unfold EXPORT_OPTION_SQUASH_TYPES. by rewrite !has_lor. Qed.

Lemma creds_inv_flags c f g :
  creds_inv c -> Z.testbit f 0 = Z.testbit (cred_flags c) 0 -> Z.testbit f 1 = Z.testbit (cred_flags c) 1 -> creds_inv (set_flags f (set_creds g c)).
Proof. intros [Hl Hg Ha Hc Hm] E0 E1. split; try done; cbn -[Z.testbit]; by rewrite ?E0, ?E1. Qed.

(** Setting an id, with the flag that tells that it is not the caller's. *)
Lemma wp_set_id (b : bool) g g' F c (Q : unit -> req_op_context -> Prop) :
  Q tt (set_flags (if b then Z.lor (cred_flags c) F else cred_flags c) (set_creds (if b then g else g') c)) ->
  wp (if b then modify (set_creds g);; or_flags F else modify (set_creds g')) Q c.
Proof. destruct b; intros HQ; [by do 2 wp_step|]. by wp_step; destruct c. Qed.

(** The outcome of the checks on the ids. *)
Definition creds_result (c c' : req_op_context) (st : nfsstat4) : Prop :=
  let p := op_perms c in
  let o := original_creds c' in
  let anon := Z.testbit (cred_flags c') 1 in
  (oa_flavor req = AUTH_NONE -> anon = true) /\
  (oa_flavor req = AUTH_UNIX -> anon = false /\ o = rpc_creds) /\
  (oa_flavor req = RPCSEC_GSS -> Z.testbit (cred_flags c) 0 = true -> o = original_creds c) /\
  (oa_flavor req = RPCSEC_GSS -> Z.testbit (cred_flags c) 0 = false ->
     match principal2uid ids with Some (u, g) => oc_uid o = u /\ oc_gid o = g | None => anon = true end) /\
  match (if all_squashed p anon (oc_uid o) then Some []
         else if managed_groups p then gdata_for c (oc_uid o) else Some (aup_gids req)) with
  | Some groups => st = NFS4_OK /\ effective c' = Some (squash p anon (oc_uid o) (oc_gid o) groups)
  | None => st = NFS4ERR_ACCESS
  end.

(** A context with the flags and ids of the one after loading. *)
Lemma creds_result_intro c c1 c' managed st :
  loaded c c1 managed -> original_creds c' = original_creds c1 ->
  Z.testbit (cred_flags c') 1 = Z.testbit (cred_flags c1) 1 ->
  match (if all_squashed (op_perms c) (Z.testbit (cred_flags c1) 1) (oc_uid (original_creds c1)) then Some []
         else if managed then gdata_for c (oc_uid (original_creds c1)) else Some (aup_gids req)) with
  | Some groups => st = NFS4_OK /\
      effective c' = Some (squash (op_perms c) (Z.testbit (cred_flags c1) 1) (oc_uid (original_creds c1)) (oc_gid (original_creds c1)) groups)
  | None => st = NFS4ERR_ACCESS
  end -> creds_result c c' st.
Proof.
  intros Hld Ho H1 Hres. unfold creds_result. rewrite Ho, H1. split_and!.
  - apply (ld_anon _ _ _ Hld).
  - intros E. split; [apply (inv_anon _ (ld_inv _ _ _ Hld) E)|]. apply (inv_loaded _ (ld_inv _ _ _ Hld)); [apply (ld_bit0 _ _ _ Hld)|done].
  - apply (ld_gss _ _ _ Hld).
  - apply (ld_map _ _ _ Hld).
  - destruct (all_squashed _ _ _) eqn:Eall; [done|]. replace (managed_groups (op_perms c)) with managed; [done|].
    assert (Z.testbit (cred_flags c1) 1 = false) as Hb. { unfold all_squashed in Eall. by destruct (Z.testbit (cred_flags c1) 1). }
    unfold managed_groups. destruct (Z.eqb_spec (oa_flavor req) AUTH_UNIX) as [E|E]; simpl; [by apply (ld_unix _ _ _ Hld)|].
    destruct managed; [done|]. by specialize (ld_groups _ _ _ Hld eq_refl Hb).
Qed.

Lemma nfs_req_creds_spec c :
  enable_rpc_cred_fallback = false -> creds_inv c ->
  wp nfs_req_creds
    (fun st c' => creds_inv c' /\ op_perms c' = op_perms c /\ if supported then creds_result c c' st else st = NFS4ERR_ACCESS) c.
Proof.
  intros Hfb Hinv. unfold nfs_req_creds. apply wp_bind. eapply wp_mono; [by apply wp_load_creds|].
  intros [managed|] c1; [|intros (-> & ? & ?); by wp_step].
  intros [-> Hld]. pose proof (ld_inv _ _ _ Hld) as Hinv1. pose proof (ld_perms _ _ _ Hld) as Hp.
  wp_step. wp_step. cbn [id]. rewrite has_anon. unfold superuser, is_superuser. cbn [caller_uid]. rewrite Hp.
  set (anon := Z.testbit (cred_flags c1) 1). set (uid := oc_uid (original_creds c1)). set (p := op_perms c) in *.
  destruct (anon || has (options p) EXPORT_OPTION_ALL_ANONYMOUS || (has (options p) EXPORT_OPTION_ROOT_SQUASH && (uid =? 0))) eqn:Eall.
  { unfold or_flags. do 4 wp_step. split_and!; [apply creds_inv_flags; [done|cbn -[Z.testbit Z.lor]; by rewrite Z.lor_spec, orb_false_r..]|done|].
    eapply creds_result_intro; [done|done|cbn -[Z.testbit Z.lor]; by rewrite Z.lor_spec, orb_false_r|].
    fold anon uid p. unfold all_squashed. rewrite Eall. split; [done|]. unfold effective, squash. rewrite Eall. done. }
  wp_step. apply wp_set_id. wp_step. apply wp_set_id. cbn [cred_flags set_flags set_creds creds].
  set (c2 := set_flags _ _).
  assert (creds_inv c2 /\ op_perms c2 = p /\ original_creds c2 = original_creds c1 /\ caller_gdata c2 = caller_gdata c1) as (Hinv2 & Hp2 & Ho2 & Hg2).
  { split; [|done]. subst c2. apply creds_inv_flags; [apply creds_inv_flags; [done|..]|..]; cbn -[Z.testbit Z.lor];
      repeat case_match; by rewrite ?Z.lor_spec, ?orb_false_r. }
  assert (oc_uid (creds c2) = if has (options p) EXPORT_OPTION_ROOT_ID_SQUASH && (uid =? 0) then anonymous_uid p else uid) as Huid2.
  { subst c2. cbn -[has]. by repeat case_match. }
  assert (oc_gid (creds c2) = if (has (options p) EXPORT_OPTION_ROOT_SQUASH || has (options p) EXPORT_OPTION_ROOT_ID_SQUASH) &&
    (oc_gid (original_creds c1) =? 0) then anonymous_gid p else oc_gid (original_creds c1)) as Hgid2.
  { subst c2. cbn -[has]. by repeat case_match. }
  assert (forall k, In k [0; 1; 4; 5] -> Z.testbit (cred_flags c2) k = Z.testbit (cred_flags c1) k) as Hbits.
  { intros k Hk. subst c2. cbn -[Z.testbit Z.lor]. repeat case_match; destruct Hk as [<-|[<-|[<-|[<-|[]]]]]; by rewrite ?Z.lor_spec, ?orb_false_r. }
  assert (anon = false) as Hanon. { by destruct anon. }
  wp_step. eapply wp_mono.
  { apply (wp_choose_groups c2 managed); [done|done| | |].
    - rewrite Hbits by naive_solver. by apply (ld_managed _ _ _ Hld).
    - rewrite Hbits by naive_solver. apply (ld_bit0 _ _ _ Hld).
    - intros ->. by apply (ld_groups _ _ _ Hld). }
  intros ok c3 (Hinv3 & (Hp3 & Ho3 & Hu3 & Hgid3) & Hf3 & Hok). rewrite Ho2, Hg2, (ld_gdata _ _ _ Hld) in Hok.
  assert (Z.testbit (cred_flags c3) 1 = anon) as H1. { rewrite Hf3. by rewrite Hbits by naive_solver. }
  destruct ok; cbn [negb].
  - destruct Hok as (Hlen & Hsrc & Hat & Hgd). wp_step. eapply wp_mono.
    { apply (wp_squash_groups c3 managed (source_groups c3 managed)); try done.
      - intros ->. by apply Hgd.
      - by intros ->.
      - rewrite Hf3, Hbits by naive_solver. apply (ld_clear _ _ _ Hld). naive_solver. }
    intros _ c4 (Hinv4 & (Hp4 & Ho4 & _) & Hf4 & He4). wp_step. split_and!; [done|congruence|].
    eapply creds_result_intro; [done|congruence| |].
    { rewrite Hf4. destruct (_ && bool_decide _); [|exact H1]. rewrite Z.lor_spec, H1. apply orb_false_r. }
    fold anon uid p. unfold all_squashed. rewrite Eall.
    assert (effective c4 = Some (squash p anon uid (oc_gid (original_creds c1)) (source_groups c3 managed))) as ->.
    { rewrite He4, Hp3, Hp2, Hu3, Hgid3, Huid2, Hgid2. unfold squash. rewrite Eall, has_squash_types.
      apply orb_false_iff in Eall as [[_ ->]%orb_false_iff _]. by rewrite orb_false_r. }
    destruct managed; [|done]. destruct (Hgd eq_refl) as [Hs3 Hg3].
    assert (gdata_for c uid = Some (source_groups c3 true)) as ->; [|done]. by rewrite <- Hs3, Hg3.
  - destruct Hok as (-> & Hgd & Hu). wp_step. split_and!; [done|congruence|]. eapply creds_result_intro; [done|congruence|done|].
    fold anon uid p. unfold all_squashed. rewrite Eall.
    assert (gdata_for c uid = None) as ->; [|done]. unfold gdata_for. by rewrite Hgd.
Qed.

End Creds.
