(* ===== verification/Admission.v ===== *)
(** * Requests on exports

    The checks of an NFSv4 request on entering an export ([support/nfs_creds.c],
    [nfs4_export_check_access]) and of an NFSv3 or NLM request
    ([MainNFSD/nfs_worker_thread.c]), attributes from squashed callers ([squash_setattr]), and what the
    credentials of [Creds] guarantee. *)
From S2P Require Import Prelude Status Owners Acl AclTheorems Cidr Netgroup Clients Exports Creds.
Local Open Scope Z_scope.

(** ** State of a request *)
Record req_state : Set := { rs_hosts : host_state; rs_ctx : req_op_context }.

Abbreviation R := (M req_state).

Definition in_hosts {A} (m : M host_state A) : R A := fun s =>
  match m (rs_hosts s) with Some (a, h) => Some (a, {| rs_hosts := h; rs_ctx := rs_ctx s |}) | None => None end.
Definition in_ctx {A} (m : M req_op_context A) : R A := fun s =>
  match m (rs_ctx s) with Some (a, c) => Some (a, {| rs_hosts := rs_hosts s; rs_ctx := c |}) | None => None end.

Inductive xprt_type_t : Set :=
  | XPRT_UNKNOWN | XPRT_NON_RENDEZVOUS | XPRT_UDP | XPRT_UDP_RENDEZVOUS | XPRT_TCP | XPRT_TCP_RENDEZVOUS
  | XPRT_SCTP | XPRT_SCTP_RENDEZVOUS | XPRT_RDMA | XPRT_RDMA_RENDEZVOUS | XPRT_VSOCK | XPRT_VSOCK_RENDEZVOUS.
#[export] Instance xprt_type_t_eq_dec : EqDecision xprt_type_t.
Proof. solve_decision. Defined.

Definition IPPORT_RESERVED : Z := 1024.
Definition EXPORT_OPTION_RW_ACCESS : Z := Z.lor EXPORT_OPTION_READ_ACCESS EXPORT_OPTION_WRITE_ACCESS.

(** [ntohs] of a host with the low byte first. *)
Definition ntohs (x : Z) : Z := Z.lor (Z.shiftl (Z.land x 255) 8) (Z.land (Z.shiftr x 8) 255).

Definition get_port (addr : sockaddr_t) : Z :=
  match addr with
  | sockaddr_in _ sin_port => ntohs sin_port
  | sockaddr_in6 _ sin6_port => ntohs sin6_port
  | _ => -1
  end.

(** The transport is not one the export allows. *)
Definition transport_refused (opts : Z) (xprt_type : xprt_type_t) : bool :=
  (bool_decide (xprt_type = XPRT_UDP) && negb (has opts EXPORT_OPTION_UDP)) ||
  (bool_decide (xprt_type = XPRT_TCP) && negb (has opts EXPORT_OPTION_TCP)).

Section Admission.
Context {HN : HostNames}.
Context (enable_rpc_cred_fallback : bool) (export_opt : global_export_perms).
Context (req : svc_req) (ids : id_answers) (caller_addr : sockaddr_t) (xprt_type : xprt_type_t).

(** [ctx_export] is the current export; the code takes it for granted that there is one. *)
Definition nfs4_export_check_access (ctx_export : gsh_export) : R nfsstat4 :=
  let port := get_port caller_addr in
  p ← in_hosts (export_check_access export_opt (Some ctx_export) caller_addr);
  in_ctx (modify (set_op_perms p));;
  let opts := options p in
  if negb (has opts EXPORT_OPTION_ACCESS_MASK) then mret NFS4ERR_ACCESS
  else if negb (has opts EXPORT_OPTION_NFSV4) then mret NFS4ERR_ACCESS
  else if transport_refused opts xprt_type then mret NFS4ERR_ACCESS
  else if has opts EXPORT_OPTION_PRIVILEGED_PORT && (IPPORT_RESERVED <=? port) then mret NFS4ERR_ACCESS
  else if negb (export_check_security opts (oa_flavor req) (gc_svc req)) then mret NFS4ERR_WRONGSEC
  else in_ctx (nfs_req_creds enable_rpc_cred_fallback req ids).

(** ** NFSv3 and NLM

    What becomes of a request: the RPC is rejected, answered with a status, dropped or processed. *)
Variant v3_outcome : Set :=
  | AuthFailure (auth_stat : Z)
  | ReplyStatus (status : Z)
  | DropRequest
  | Process.

Definition AUTH_TOOWEAK : Z := 5.
Definition AUTH_FAILED : Z := 7.
Definition NFS3ERR_ROFS : Z := 30.
Definition NFS3ERR_DQUOT : Z := 69.
Definition MAKES_WRITE : Z := 0x0001.
Definition NEEDS_CRED : Z := 0x0002.
Definition SUPPORTS_GSS : Z := 0x0008.
Definition MAKES_IO : Z := 0x0010.

(** The request has an export, or none; [is_nfs]: the program is NFS; [is_v3]: its version is 3. *)
Definition v3_check_access (ctx_export : option gsh_export) (dispatch_behaviour : Z) (is_nfs is_v3 : bool) : R v3_outcome :=
  let port := get_port caller_addr in
  let refuse st := if is_nfs then if is_v3 then ReplyStatus st else DropRequest else DropRequest in
  refused ← match ctx_export with
            | None => mret None
            | Some _ =>
                p ← in_hosts (export_check_access export_opt ctx_export caller_addr);
                in_ctx (modify (set_op_perms p));;
                let opts := options p in
                mret (if negb (has opts EXPORT_OPTION_ACCESS_MASK) then Some (AuthFailure AUTH_TOOWEAK)
                      else if negb (has opts EXPORT_OPTION_NFSV3) then Some (AuthFailure AUTH_FAILED)
                      else if transport_refused opts xprt_type then Some (AuthFailure AUTH_FAILED)
                      else if has dispatch_behaviour SUPPORTS_GSS && negb (export_check_security opts (oa_flavor req) (gc_svc req))
                      then Some (AuthFailure AUTH_TOOWEAK)
                      else if is_nfs && has opts EXPORT_OPTION_PRIVILEGED_PORT && (IPPORT_RESERVED <=? port)
                      then Some (AuthFailure AUTH_TOOWEAK)
                      else None)
            end;
  match refused with
  | Some o => mret o
  | None =>
      c ← gets rs_ctx;
      let opts := options (op_perms c) in
      let has_export := bool_decide (is_Some ctx_export) in
      if has_export && has dispatch_behaviour MAKES_IO && negb (has opts EXPORT_OPTION_RW_ACCESS) then mret (refuse NFS3ERR_DQUOT)
      else if has_export && has dispatch_behaviour MAKES_WRITE &&
              negb (has opts (Z.lor EXPORT_OPTION_WRITE_ACCESS EXPORT_OPTION_MD_WRITE_ACCESS)) then mret (refuse NFS3ERR_ROFS)
      else if has_export && negb (has opts (Z.lor EXPORT_OPTION_READ_ACCESS EXPORT_OPTION_MD_READ_ACCESS))
      then mret (AuthFailure AUTH_TOOWEAK)
      else if has dispatch_behaviour NEEDS_CRED then
        match ctx_export with
        | None =>
            in_ctx (modify (fun c => set_op_perms {| anonymous_uid := anonymous_uid (op_perms c); anonymous_gid := anonymous_gid (op_perms c);
              expire_time_attr := expire_time_attr (op_perms c); options := Z.ldiff (options (op_perms c)) EXPORT_OPTION_SQUASH_TYPES;
              set := set (op_perms c) |} c));;
            mret Process
        | Some _ =>
            st ← in_ctx (nfs_req_creds enable_rpc_cred_fallback req ids);
            mret (if decide (st = NFS4_OK) then Process else AuthFailure AUTH_TOOWEAK)
        end
      else mret Process
  end.

End Admission.

(** ** Attributes set by squashed callers *)
Definition ATTR_OWNER : Z := 0x200.
Definition ATTR_GROUP : Z := 0x400.

(** The new owner and group. *)
Definition squash_setattr (p : export_perms) (cred_flags : Z) (valid_mask owner group : Z) : Z * Z :=
  let opts := options p in
  let root := has opts EXPORT_OPTION_ROOT_SQUASH || has opts EXPORT_OPTION_ROOT_ID_SQUASH in
  (if has valid_mask ATTR_OWNER && negb (anonymous_uid p =? 0) then
     if has opts EXPORT_OPTION_ALL_ANONYMOUS then anonymous_uid p
     else if root && (owner =? 0) && has cred_flags UID_SQUASHED then anonymous_uid p else owner
   else owner,
   if has valid_mask ATTR_GROUP && negb (anonymous_gid p =? 0) then
     if has opts EXPORT_OPTION_ALL_ANONYMOUS then anonymous_gid p
     else if root && (group =? 0) && has cred_flags (Z.lor GID_SQUASHED GARRAY_SQUASHED) then anonymous_gid p else group
   else group).

(** ** Credentials on every export a request enters

    The contexts of a request: prepared by [init_credentials], with other permissions after
    entering an export, with credentials after [nfs_req_creds], whatever the identity mapper
    answers each time. *)
Inductive creds_reach (req : svc_req) : req_op_context -> Prop :=
  | reach_init c c' : init_credentials c = Some (tt, c') -> creds_reach req c'
  | reach_export p c : creds_reach req c -> creds_reach req (set_op_perms p c)
  | reach_creds ids st c c' : creds_reach req c -> nfs_req_creds false req ids c = Some (st, c') -> creds_reach req c'.

Lemma creds_inv_perms req p c : creds_inv req c -> creds_inv req (set_op_perms p c).
Proof. by intros []. Qed.

Lemma creds_reach_inv req c : creds_reach req c -> creds_inv req c.
Proof.
  induction 1 as [c c' E|p c _ IH|ids st c c' _ IH E].
  - injection E as <-. by split.
  - by apply creds_inv_perms.
  - pose proof (nfs_req_creds_spec false req ids c eq_refl IH) as H. unfold wp in H. rewrite E in H. apply H.
Qed.

(** C14: wherever a request has been before, [nfs_req_creds] returns, reading and writing inside the group
    lists and their copies, and the user, group and groups it sets are those of the message or of the
    mapped principal, squashed as the present export says; groups are those of the message, or with
    [Manage_Gids] and RPCSEC_GSS those the server has for the user.  (For the parameter
    [enable_rpc_cred_fallback] off.) *)
Theorem nfs_req_creds_correct req ids c :
  creds_reach req c ->
  exists st c', nfs_req_creds false req ids c = Some (st, c') /\ op_perms c' = op_perms c /\
    if supported req then creds_result req ids c c' st else st = NFS4ERR_ACCESS.
Proof.
  intros Hr. destruct (proj1 (wp_run _ _ _) (nfs_req_creds_spec false req ids c eq_refl (creds_reach_inv _ _ Hr)))
    as (st & c' & E & _ & Hp & Hres). by exists st, c'.
Qed.

(** The groups of a squashed caller. *)
Lemma squash_no_root p anon uid gid groups :
  has (options p) EXPORT_OPTION_SQUASH_TYPES = true -> anonymous_uid p <> 0 -> anonymous_gid p <> 0 ->
  let u := squash p anon uid gid groups in caller_uid u <> 0 /\ caller_gid u <> 0 /\ 0 ∉ caller_garray u.
Proof.
  rewrite has_squash_types. intros Hsq Hu Hg. unfold squash.
  destruct (anon || _ || _) eqn:Eall; [split_and!; [done..|apply not_elem_of_nil]|].
  apply orb_false_iff in Eall as [[_ Ea]%orb_false_iff Er]. rewrite Ea, orb_false_r in Hsq.
  split_and!; cbn [caller_uid caller_gid caller_garray].
  - destruct (Z.eqb_spec uid 0) as [->|]; [|by rewrite andb_false_r]. rewrite andb_true_r in *. rewrite Er in Hsq. simpl in Hsq. by rewrite Hsq.
  - rewrite Hsq. by destruct (Z.eqb_spec gid 0).
  - rewrite Hsq. intros (g & Hz & _)%list_elem_of_fmap. destruct (Z.eqb_spec g 0); congruence.
Qed.

(** C15: on an export that squashes root or everybody, with an anonymous user and group other than root, no request
    runs as root: neither its user, nor its group, nor any of its groups is 0. *)
Theorem squash_excludes_root req ids c st c' :
  creds_reach req c -> nfs_req_creds false req ids c = Some (st, c') -> st = NFS4_OK ->
  has (options (op_perms c)) EXPORT_OPTION_SQUASH_TYPES = true -> anonymous_uid (op_perms c) <> 0 -> anonymous_gid (op_perms c) <> 0 ->
  exists u, effective req c' = Some u /\ caller_uid u <> 0 /\ caller_gid u <> 0 /\ 0 ∉ caller_garray u.
Proof.
  intros Hr E -> Hsq Hu Hg. pose proof (nfs_req_creds_spec false req ids c eq_refl (creds_reach_inv _ _ Hr)) as H.
  unfold wp in H. rewrite E in H. destruct H as (_ & _ & Hres). destruct (supported req); [|done].
  destruct Hres as (_ & _ & _ & _ & Hres). case_match; [|done]. destruct Hres as [_ ->]. eexists. split; [done|].
  by apply squash_no_root.
Qed.

(** A user with root among its groups enters an export without squashing, then one that squashes root and
    whose groups the server manages, then one that squashes root. *)
Definition req_example : svc_req := {| oa_flavor := AUTH_UNIX; gc_svc := 0; aup_uid := 501; aup_gid := 20; aup_gids := [0; 20; 0] |}.
Definition ids_example : id_answers := {| principal2uid := None; uid2grp := fun _ => Some [20; 80; 0] |}.
Definition perms_with (opts : Z) : export_perms :=
  {| anonymous_uid := 99; anonymous_gid := 98; expire_time_attr := 60; options := opts; set := opts |}.
Definition ctx_start : req_op_context :=
  {| cred_flags := 0; creds := set_gid 98 (set_uid 99 zero_creds); original_creds := zero_creds; caller_gdata := None;
     caller_garray_copy := None; managed_garray_copy := None; op_perms := perms_with 0 |}.
Definition enter (opts : Z) (c : req_op_context) : req_op_context :=
  match nfs_req_creds false req_example ids_example (set_op_perms (perms_with opts) c) with Some (_, c') => c' | None => c end.
Definition ctx_example : req_op_context :=
  Eval vm_compute in enter (Z.lor EXPORT_OPTION_ROOT_SQUASH EXPORT_OPTION_MANAGE_GIDS) (enter 0 ctx_start).

Lemma enter_reach opts c :
  is_Some (nfs_req_creds false req_example ids_example (set_op_perms (perms_with opts) c)) -> creds_reach req_example c -> creds_reach req_example (enter opts c).
Proof.
  intros [[st c'] E] H. unfold enter. rewrite E. eapply reach_creds; [|exact E]. by apply reach_export.
Qed.

Lemma ctx_example_reach : creds_reach req_example (set_op_perms (perms_with EXPORT_OPTION_ROOT_SQUASH) ctx_example).
Proof.
  apply reach_export. change ctx_example with (enter (Z.lor EXPORT_OPTION_ROOT_SQUASH EXPORT_OPTION_MANAGE_GIDS) (enter 0 ctx_start)).
  apply enter_reach; [eexists; vm_compute; reflexivity|]. apply enter_reach; [eexists; vm_compute; reflexivity|]. by apply (reach_init _ ctx_start).
Qed.

Lemma nfs_req_creds_correct_witness :
  exists st c', nfs_req_creds false req_example ids_example (set_op_perms (perms_with EXPORT_OPTION_ROOT_SQUASH) ctx_example) = Some (st, c') /\
    st = NFS4_OK /\ effective req_example c' = Some {| caller_uid := 501; caller_gid := 20; caller_garray := [98; 20; 98] |}.
Proof.
  destruct (nfs_req_creds_correct req_example ids_example (set_op_perms (perms_with EXPORT_OPTION_ROOT_SQUASH) ctx_example))
    as (st & c' & E & _ & Hres); [exact ctx_example_reach|]. exists st, c'. split; [exact E|].
  change (supported req_example) with true in Hres. destruct Hres as (_ & Hunix & _ & _ & Hres).
  destruct (Hunix eq_refl) as [Ha Ho]. rewrite Ha, Ho in Hres. exact Hres.
Defined.

Lemma squash_excludes_root_witness :
  exists st c' u, nfs_req_creds false req_example ids_example (set_op_perms (perms_with EXPORT_OPTION_ROOT_SQUASH) ctx_example) = Some (st, c') /\
    effective req_example c' = Some u /\ 0 ∉ caller_garray u.
Proof.
  destruct (nfs_req_creds false req_example ids_example (set_op_perms (perms_with EXPORT_OPTION_ROOT_SQUASH) ctx_example)) as [[st c']|] eqn:E;
    [|by vm_compute in E].
  assert (st = NFS4_OK) as -> by (vm_compute in E; by injection E).
  destruct (squash_excludes_root req_example ids_example _ NFS4_OK c' ctx_example_reach E eq_refl) as (u & Hu & _ & _ & Hg); [by vm_compute..|].
  by exists NFS4_OK, c', u.
Defined.

(** With [enable_rpc_cred_fallback] on, a copy made of the groups of the message is used for the groups of the
    user when these are found later: the store is past the end of the copy. *)
Definition ids_down : id_answers := {| principal2uid := None; uid2grp := fun _ => None |}.
Definition req_short : svc_req := {| oa_flavor := AUTH_UNIX; gc_svc := 0; aup_uid := 501; aup_gid := 20; aup_gids := [0] |}.
Definition managed_squash : export_perms := perms_with (Z.lor EXPORT_OPTION_ROOT_SQUASH EXPORT_OPTION_MANAGE_GIDS).

Example fallback_overflow :
  exists c, nfs_req_creds true req_short ids_down (set_op_perms managed_squash ctx_start) = Some (NFS4_OK, c) /\
    nfs_req_creds true req_short ids_example (set_op_perms managed_squash c) = None.
Proof. eexists. split; [by vm_compute|by vm_compute]. Qed.

(** ** Admission *)
Section AdmissionTheorems.
Context {HN : HostNames}.
Context (export_opt : global_export_perms) (req : svc_req) (ids : id_answers) (caller_addr : sockaddr_t) (xprt_type : xprt_type_t).

(** What an NFSv4 request needs, apart from its flavour. *)
Definition admits4 (opts : Z) : bool :=
  has opts EXPORT_OPTION_ACCESS_MASK && has opts EXPORT_OPTION_NFSV4 && negb (transport_refused opts xprt_type) &&
  (negb (has opts EXPORT_OPTION_PRIVILEGED_PORT) || (get_port caller_addr <? IPPORT_RESERVED)).

(** What an NFSv3 or NLM request of a procedure with this behaviour needs. *)
Definition admits3 (opts behaviour : Z) (is_nfs : bool) : bool :=
  has opts EXPORT_OPTION_ACCESS_MASK && has opts EXPORT_OPTION_NFSV3 && negb (transport_refused opts xprt_type) &&
  (negb (has behaviour SUPPORTS_GSS) || export_check_security opts (oa_flavor req) (gc_svc req)) &&
  (negb is_nfs || negb (has opts EXPORT_OPTION_PRIVILEGED_PORT) || (get_port caller_addr <? IPPORT_RESERVED)) &&
  (negb (has behaviour MAKES_IO) || has opts EXPORT_OPTION_RW_ACCESS) &&
  (negb (has behaviour MAKES_WRITE) || has opts EXPORT_OPTION_WRITE_ACCESS || has opts EXPORT_OPTION_MD_WRITE_ACCESS) &&
  (has opts EXPORT_OPTION_READ_ACCESS || has opts EXPORT_OPTION_MD_READ_ACCESS).

(** The caller and the lists of clients. *)
Record callable (ctx_export : option gsh_export) (s : req_state) : Prop := {
  ca_ng : ng_inv (hs_ng (rs_hosts s));
  ca_addr : is_Some (host_cidr caller_addr);
  ca_opt : no_client_expiry (opt_clients export_opt);
  ca_exp e : ctx_export = Some e -> no_client_expiry (exp_clients e);
  ca_ctx : creds_reach req (rs_ctx s)
}.

Lemma wp_in_hosts {A} (m : M host_state A) (Q : A -> req_state -> Prop) s :
  wp m (fun a h => Q a {| rs_hosts := h; rs_ctx := rs_ctx s |}) (rs_hosts s) -> wp (in_hosts m) Q s.
Proof. unfold wp, in_hosts. by destruct (m (rs_hosts s)) as [[a h]|]. Qed.

Lemma wp_in_ctx {A} (m : M req_op_context A) (Q : A -> req_state -> Prop) s :
  wp m (fun a c => Q a {| rs_hosts := rs_hosts s; rs_ctx := c |}) (rs_ctx s) -> wp (in_ctx m) Q s.
Proof. unfold wp, in_ctx. by destruct (m (rs_ctx s)) as [[a c]|]. Qed.

(** The checks one after another. *)
Lemma admits4_cascade {A} opts (x y : A) :
  (if negb (has opts EXPORT_OPTION_ACCESS_MASK) then x
   else if negb (has opts EXPORT_OPTION_NFSV4) then x
   else if transport_refused opts xprt_type then x
   else if has opts EXPORT_OPTION_PRIVILEGED_PORT && (IPPORT_RESERVED <=? get_port caller_addr) then x else y)
  = if admits4 opts then y else x.
Proof.
  unfold admits4. rewrite Z.leb_antisym. destruct (has _ EXPORT_OPTION_ACCESS_MASK), (has _ EXPORT_OPTION_NFSV4), (transport_refused _ _); try done.
  by destruct (has _ EXPORT_OPTION_PRIVILEGED_PORT), (_ <? _).
Qed.

(** The permissions of the export are in the context. *)
Lemma wp_export_perms {A} ctx_export s (k : export_perms -> R A) (Q : A -> req_state -> Prop) :
  callable ctx_export s ->
  (forall p h, perms_are (perm_sources (rs_hosts s) export_opt ctx_export caller_addr) (def export_opt) p ->
     wp (k p) Q {| rs_hosts := h; rs_ctx := set_op_perms p (rs_ctx s) |}) ->
  wp (p ← in_hosts (export_check_access export_opt ctx_export caller_addr); in_ctx (modify (set_op_perms p));; k p) Q s.
Proof.
  intros [H1 H2 H3 H4 H5] HQ. apply wp_bind, wp_in_hosts. eapply wp_mono; [by apply export_check_access_spec|].
  intros p h [Hp _]. apply wp_bind, wp_in_ctx. wp_step. by apply HQ.
Qed.

(** The credentials on the export. *)
Lemma wp_creds c h (Q : nfsstat4 -> req_state -> Prop) :
  creds_reach req c ->
  (forall st c', creds_reach req c' -> op_perms c' = op_perms c ->
     (if supported req then creds_result req ids c c' st else st = NFS4ERR_ACCESS) -> Q st {| rs_hosts := h; rs_ctx := c' |}) ->
  wp (in_ctx (nfs_req_creds false req ids)) Q {| rs_hosts := h; rs_ctx := c |}.
Proof.
  intros Hr HQ. apply wp_in_ctx. cbn [rs_ctx rs_hosts]. apply wp_run.
  destruct (proj1 (wp_run _ _ _) (nfs_req_creds_spec false req ids c eq_refl (creds_reach_inv _ _ Hr))) as (st & c' & E & _ & Hp & Hres).
  exists st, c'. split; [done|]. apply HQ; [by eapply reach_creds|done|done].
Qed.

(** C16: entering an export with an NFSv4 request returns; the permissions are those of client, export and defaults.
    Where they do not allow access, NFSv4, the transport or the port, the answer is ACCESS; WRONGSEC is the answer exactly where they
    allow all that but not the flavour.  Where they allow everything, the answer is ACCESS if the flavour is none of NONE, UNIX and GSS
    or the groups that the server is to look up for the caller cannot be found, and else OK, with the credentials of the caller as the export
    squashes them ([creds_result]). *)
Theorem nfs4_export_check_access_correct ctx_export s :
  callable (Some ctx_export) s ->
  exists st s', nfs4_export_check_access false export_opt req ids caller_addr xprt_type ctx_export s = Some (st, s') /\
    let p := op_perms (rs_ctx s') in
    let flavour_ok := export_check_security (options p) (oa_flavor req) (gc_svc req) in
    perms_are (perm_sources (rs_hosts s) export_opt (Some ctx_export) caller_addr) (def export_opt) p /\
    creds_reach req (rs_ctx s') /\
    (st = NFS4_OK \/ st = NFS4ERR_ACCESS \/ st = NFS4ERR_WRONGSEC) /\
    (st = NFS4_OK -> admits4 (options p) = true /\ flavour_ok = true) /\
    (admits4 (options p) = false -> st = NFS4ERR_ACCESS) /\
    (st = NFS4ERR_WRONGSEC <-> admits4 (options p) = true /\ flavour_ok = false) /\
    (admits4 (options p) = true -> flavour_ok = true ->
       if supported req then creds_result req ids (set_op_perms p (rs_ctx s)) (rs_ctx s') st else st = NFS4ERR_ACCESS).
Proof.
  intros Hca. apply wp_run. unfold nfs4_export_check_access. apply (wp_export_perms (Some ctx_export)); [done|]. intros p h Hp.
  assert (creds_reach req (set_op_perms p (rs_ctx s))) as Hr by apply reach_export, Hca.
  rewrite admits4_cascade. destruct (admits4 (options p)) eqn:Ead; [|wp_step; cbn -[has]; rewrite Ead; split_and!; naive_solver].
  destruct (export_check_security _ _ _) eqn:Es; cbn [negb]; [|wp_step; cbn -[has]; rewrite Ead, Es; split_and!; naive_solver].
  apply wp_creds; [done|]. intros st c' Hr' Hp' Hres. cbn -[has] in Hp' |- *. rewrite Hp', Ead, Es.
  assert (st = NFS4_OK \/ st = NFS4ERR_ACCESS) as Hst.
  { destruct (supported req); [|by right]. destruct Hres as (_ & _ & _ & _ & Hg). destruct (if all_squashed _ _ _ then _ else _); [left; by destruct Hg|by right]. }
  split_and!; [done|done|tauto|done|done|naive_solver|done].
Qed.

(** The first checks, before those of what the procedure does. *)
Definition admits3_refused (opts behaviour : Z) (is_nfs : bool) : option v3_outcome :=
  if negb (has opts EXPORT_OPTION_ACCESS_MASK) then Some (AuthFailure AUTH_TOOWEAK)
  else if negb (has opts EXPORT_OPTION_NFSV3) then Some (AuthFailure AUTH_FAILED)
  else if transport_refused opts xprt_type then Some (AuthFailure AUTH_FAILED)
  else if has behaviour SUPPORTS_GSS && negb (export_check_security opts (oa_flavor req) (gc_svc req)) then Some (AuthFailure AUTH_TOOWEAK)
  else if is_nfs && has opts EXPORT_OPTION_PRIVILEGED_PORT && (IPPORT_RESERVED <=? get_port caller_addr) then Some (AuthFailure AUTH_TOOWEAK)
  else None.

Lemma admits3_cascade opts behaviour is_nfs :
  match admits3_refused opts behaviour is_nfs with
  | Some o => o <> Process /\ admits3 opts behaviour is_nfs = false
  | None => admits3 opts behaviour is_nfs =
      (negb (has behaviour MAKES_IO) || has opts EXPORT_OPTION_RW_ACCESS) &&
      (negb (has behaviour MAKES_WRITE) || has opts EXPORT_OPTION_WRITE_ACCESS || has opts EXPORT_OPTION_MD_WRITE_ACCESS) &&
      (has opts EXPORT_OPTION_READ_ACCESS || has opts EXPORT_OPTION_MD_READ_ACCESS)
  end.
Proof.
  unfold admits3_refused, admits3. rewrite Z.leb_antisym.
  destruct (has opts EXPORT_OPTION_ACCESS_MASK); [|done]. destruct (has opts EXPORT_OPTION_NFSV3); [|done].
  destruct (transport_refused opts xprt_type); [done|].
  destruct (has behaviour SUPPORTS_GSS), (export_check_security _ _ _); try done;
    destruct is_nfs, (has opts EXPORT_OPTION_PRIVILEGED_PORT), (_ <? _); done.
Qed.

(** What is true of the outcome [o]. *)
Definition v3_post (e : gsh_export) (s : req_state) (behaviour : Z) (is_nfs : bool) (o : v3_outcome) (s' : req_state) : Prop :=
  let p := op_perms (rs_ctx s') in
  perms_are (perm_sources (rs_hosts s) export_opt (Some e) caller_addr) (def export_opt) p /\
  creds_reach req (rs_ctx s') /\
  (admits3 (options p) behaviour is_nfs = false -> o <> Process) /\
  (admits3 (options p) behaviour is_nfs = true ->
     if has behaviour NEEDS_CRED
     then exists st, (if supported req then creds_result req ids (set_op_perms p (rs_ctx s)) (rs_ctx s') st else st = NFS4ERR_ACCESS) /\
            (o = Process <-> st = NFS4_OK)
     else o = Process).

(** C17: an NFSv3 or NLM request on an export returns from its checks, and is processed only if the permissions of the export
    allow access, the protocol, the transport, the flavour, the port and what the procedure does: I/O, changes, reading; and then
    exactly if its credentials can be had, where it needs them. *)
Theorem v3_check_access_correct e s behaviour is_nfs is_v3 :
  callable (Some e) s ->
  exists o s', v3_check_access false export_opt req ids caller_addr xprt_type (Some e) behaviour is_nfs is_v3 s = Some (o, s') /\
    let p := op_perms (rs_ctx s') in
    perms_are (perm_sources (rs_hosts s) export_opt (Some e) caller_addr) (def export_opt) p /\
    creds_reach req (rs_ctx s') /\
    (admits3 (options p) behaviour is_nfs = false -> o <> Process) /\
    (admits3 (options p) behaviour is_nfs = true ->
       if has behaviour NEEDS_CRED
       then exists st, (if supported req then creds_result req ids (set_op_perms p (rs_ctx s)) (rs_ctx s') st else st = NFS4ERR_ACCESS) /\
              (o = Process <-> st = NFS4_OK)
       else o = Process).
Proof.
  intros Hca. apply wp_run. change (wp (v3_check_access false export_opt req ids caller_addr xprt_type (Some e) behaviour is_nfs is_v3)
    (v3_post e s behaviour is_nfs) s).
  unfold v3_check_access. apply wp_bind. apply (wp_export_perms (Some e)); [done|]. intros p h Hp. wp_step.
  assert (creds_reach req (set_op_perms p (rs_ctx s))) as Hr by apply reach_export, Hca.
  assert (forall o, o <> Process -> admits3 (options p) behaviour is_nfs = false ->
    v3_post e s behaviour is_nfs o {| rs_hosts := h; rs_ctx := set_op_perms p (rs_ctx s) |}) as Hno.
  { intros o Ho Ea. unfold v3_post. cbn -[has]. by rewrite Ea. }
  pose proof (admits3_cascade (options p) behaviour is_nfs) as Hcas. destruct (admits3_refused _ _ _) as [o|] eqn:Eref; unfold admits3_refused in Eref; rewrite Eref.
  { wp_step. destruct Hcas. by apply Hno. }
  wp_step. wp_step. cbn -[has in_ctx nfs_req_creds]. rewrite !has_lor.
  destruct (has behaviour MAKES_IO && negb (has (options p) EXPORT_OPTION_RW_ACCESS)) eqn:Eio.
  { wp_step. apply Hno; [by destruct is_nfs, is_v3|]. rewrite Hcas. by destruct (has behaviour MAKES_IO), (has (options p) EXPORT_OPTION_RW_ACCESS). }
  destruct (has behaviour MAKES_WRITE && negb (has (options p) EXPORT_OPTION_WRITE_ACCESS || has (options p) EXPORT_OPTION_MD_WRITE_ACCESS)) eqn:Ewr.
  { wp_step. apply Hno; [by destruct is_nfs, is_v3|]. rewrite Hcas.
    destruct (has behaviour MAKES_WRITE), (has (options p) EXPORT_OPTION_WRITE_ACCESS), (has (options p) EXPORT_OPTION_MD_WRITE_ACCESS); try done. by rewrite andb_false_r. }
  destruct (has (options p) EXPORT_OPTION_READ_ACCESS || has (options p) EXPORT_OPTION_MD_READ_ACCESS) eqn:Erd; cbn [negb].
  2:{ wp_step. apply Hno; [done|]. by rewrite Hcas, andb_false_r. }
  assert (admits3 (options p) behaviour is_nfs = true) as Ead.
  { rewrite Hcas, <- orb_assoc, andb_true_r. apply andb_true_iff. split; apply negb_false_iff; by rewrite negb_orb, negb_involutive. }
  destruct (has behaviour NEEDS_CRED) eqn:En.
  - apply wp_bind, wp_creds; [done|]. intros st c' Hr' Hp' Hres. wp_step. unfold v3_post. cbn -[has] in Hp' |- *. rewrite Hp', Ead, En. split_and!; [done..|].
    intros _. exists st. split; [done|]. by case_decide.
  - wp_step. unfold v3_post. cbn -[has]. rewrite Ead, En. by split_and!.
Qed.

End AdmissionTheorems.

Definition perms_admit : export_perms :=
  perms_with (Z.lor (Z.lor EXPORT_OPTION_ACCESS_MASK (Z.lor EXPORT_OPTION_NFSV3 EXPORT_OPTION_NFSV4))
                    (Z.lor (Z.lor EXPORT_OPTION_TCP EXPORT_OPTION_AUTH_UNIX) EXPORT_OPTION_ROOT_SQUASH)).
Definition export_admit : gsh_export := {| exp_perms := perms_admit; exp_clients := [{| client_entry := MATCH_ANY_CLIENT; client_perms := perms_ro |}] |}.
Definition state_admit : req_state := {| rs_hosts := hosts_start; rs_ctx := ctx_start |}.

Lemma callable_example : callable opt_example req_example caller_example (Some export_admit) state_admit.
Proof.
  split; [apply (ng_init_ok 5)|done|by constructor| |by apply (reach_init _ ctx_start)]. intros e [= <-]. by repeat constructor.
Qed.

Lemma nfs4_export_check_access_correct_witness :
  exists st s', nfs4_export_check_access (HN := hosts_example) false opt_example req_example ids_example caller_example XPRT_TCP export_admit state_admit
      = Some (st, s') /\ admits4 caller_example XPRT_TCP (options (op_perms (rs_ctx s'))) = true.
Proof.
  destruct (nfs4_export_check_access_correct (HN := hosts_example) opt_example req_example ids_example caller_example XPRT_TCP export_admit state_admit
    callable_example) as (st & s' & E & _ & _ & _ & Hok & _). exists st, s'. split; [exact E|]. apply Hok. vm_compute in E. by injection E.
Defined.

(** A procedure that writes is refused, since the entry of the client is for reading. *)
Lemma v3_check_access_correct_witness :
  exists o s', v3_check_access (HN := hosts_example) false opt_example req_example ids_example caller_example XPRT_TCP (Some export_admit)
      (Z.lor MAKES_WRITE NEEDS_CRED) true true state_admit = Some (o, s') /\ o <> Process.
Proof.
  destruct (v3_check_access_correct (HN := hosts_example) opt_example req_example ids_example caller_example XPRT_TCP export_admit state_admit
    (Z.lor MAKES_WRITE NEEDS_CRED) true true callable_example) as (o & s' & E & _ & _ & Hno & _). exists o, s'. split; [exact E|].
  apply Hno. vm_compute in E. injection E as _ <-. by vm_compute.
Defined.
