(* ===== verification/AccessOp.v ===== *)
(** * ACCESS

    [nfs_access_op] of [support/nfs_creds.c], which NFSv3 and NFSv4 share: the kinds of access that are granted, by
    the check of [Acl] and the permissions of the export. *)
From S2P Require Import Prelude Status Acl AclTheorems Exports Creds.
Local Open Scope Z_scope.

Definition ACCESS3_READ : Z := 0x0001.
Definition ACCESS3_LOOKUP : Z := 0x0002.
Definition ACCESS3_MODIFY : Z := 0x0004.
Definition ACCESS3_EXTEND : Z := 0x0008.
Definition ACCESS3_DELETE : Z := 0x0010.
Definition ACCESS3_EXECUTE : Z := 0x0020.
Definition ACCESS4_XAREAD : Z := 0x0040.
Definition ACCESS4_XAWRITE : Z := 0x0080.
Definition ACCESS4_XALIST : Z := 0x0100.

(** [if (b) mask |= flags] and [if (b) mask &= ~flags] *)
Definition or_if (b : bool) (flags mask : Z) : Z := if b then Z.lor mask flags else mask.
Definition clear_if (b : bool) (flags mask : Z) : Z := if b then Z.ldiff mask flags else mask.

(** [access_mask] *)
Definition access_mask_of (type_ : object_file_type_t) (requested_access : Z) : Z :=
  let dir := bool_decide (type_ = DIRECTORY) in
  let wants := has requested_access in
  let m := or_if (wants (Z.lor ACCESS3_READ (Z.lor ACCESS4_XAREAD ACCESS4_XALIST))) (Z.lor FSAL_R_OK FSAL_ACE_PERM_READ_DATA) 0 in
  let m := or_if (wants ACCESS3_LOOKUP && dir) (Z.lor FSAL_X_OK FSAL_ACE_PERM_EXECUTE) m in
  let m := or_if (wants (Z.lor ACCESS3_MODIFY ACCESS4_XAWRITE))
             (Z.lor FSAL_W_OK (if dir then FSAL_ACE_PERM_DELETE_CHILD else FSAL_ACE_PERM_WRITE_DATA)) m in
  let m := or_if (wants ACCESS3_EXTEND)
             (Z.lor FSAL_W_OK (if dir then Z.lor FSAL_ACE_PERM_ADD_FILE FSAL_ACE_PERM_ADD_SUBDIRECTORY else FSAL_ACE_PERM_APPEND_DATA)) m in
  let m := or_if (wants ACCESS3_DELETE && dir) (Z.lor FSAL_W_OK FSAL_ACE_PERM_DELETE_CHILD) m in
  let m := or_if (wants ACCESS3_EXECUTE && negb dir) (Z.lor FSAL_X_OK FSAL_ACE_PERM_EXECUTE) m in
  or_if (negb (m =? 0)) (Z.lor FSAL_MODE_MASK_FLAG (Z.lor FSAL_ACE4_MASK_FLAG FSAL_ACE4_PERM_CONTINUE)) m.

(** [granted_mask] *)
Definition granted_mask_of (type_ : object_file_type_t) (requested_access : Z) : Z :=
  let dir := bool_decide (type_ = DIRECTORY) in
  let wants := has requested_access in
  let m := clear_if (wants ACCESS3_LOOKUP && negb dir) ACCESS3_LOOKUP requested_access in
  let m := clear_if (wants ACCESS3_DELETE && negb dir) ACCESS3_DELETE m in
  clear_if (wants ACCESS3_EXECUTE && dir) ACCESS3_EXECUTE m.

(** What is granted for [access_allowed]. *)
Definition granted_of (type_ : object_file_type_t) (opts access_allowed granted_mask : Z) : Z :=
  let dir := bool_decide (type_ = DIRECTORY) in
  let may := has access_allowed in
  let read := Z.lor ACCESS3_READ (Z.lor ACCESS4_XAREAD ACCESS4_XALIST) in
  let g := or_if (may FSAL_R_OK) read 0 in
  let g := or_if (may FSAL_W_OK) (Z.lor (Z.lor ACCESS3_MODIFY ACCESS3_EXTEND) (Z.lor ACCESS3_DELETE ACCESS4_XAWRITE)) g in
  let g := or_if (may FSAL_X_OK) (Z.lor ACCESS3_LOOKUP ACCESS3_EXECUTE) g in
  let g := or_if (may FSAL_ACE_PERM_READ_DATA) read g in
  let g := or_if (dir && may FSAL_ACE_PERM_DELETE_CHILD) (Z.lor ACCESS3_MODIFY (Z.lor ACCESS3_DELETE ACCESS4_XAWRITE)) g in
  let g := or_if (dir && may FSAL_ACE_PERM_ADD_FILE) (Z.lor ACCESS3_EXTEND ACCESS4_XAWRITE) g in
  let g := or_if (dir && may FSAL_ACE_PERM_ADD_SUBDIRECTORY) (Z.lor ACCESS3_EXTEND ACCESS4_XAWRITE) g in
  let g := or_if (negb dir && may FSAL_ACE_PERM_WRITE_DATA) (Z.lor ACCESS3_MODIFY ACCESS4_XAWRITE) g in
  let g := or_if (negb dir && may FSAL_ACE_PERM_APPEND_DATA) (Z.lor ACCESS3_EXTEND ACCESS4_XAWRITE) g in
  let g := or_if (may FSAL_ACE_PERM_EXECUTE) (Z.lor ACCESS3_LOOKUP ACCESS3_EXECUTE) g in
  let g := clear_if (negb (has opts EXPORT_OPTION_WRITE_ACCESS))
             (Z.lor (Z.lor ACCESS3_EXTEND ACCESS3_MODIFY) (Z.lor ACCESS3_DELETE ACCESS4_XAWRITE)) g in
  Z.land g granted_mask.

(** [test_access] is the method of the object: for an access mask, and what its result variables
    hold before the call, a status and what they hold after it.  The result is the status,
    [*granted_access] and [*supported_access] if it is set. *)
Definition nfs_access_op (type_ : object_file_type_t) (test_access : Z -> Z -> Z -> fsal_errors_t * option Z * option Z)
  (opts requested_access garbage : Z) : fsal_errors_t * Z * option Z :=
  let access_mask := access_mask_of type_ requested_access in
  let granted_mask := granted_mask_of type_ requested_access in
  let '(status, access_allowed, _) := test_access access_mask garbage garbage in
  if decide (status = ERR_FSAL_NO_ERROR \/ status = ERR_FSAL_ACCESS)
  then (status, granted_of type_ opts (default garbage access_allowed) granted_mask, Some granted_mask)
  else (status, 0, None).

(** ** ACCESS and access control lists *)
Lemma or_if_spec b flags m i : Z.testbit (or_if b flags m) i = Z.testbit m i || (b && Z.testbit flags i).
Proof. unfold or_if. destruct b; simpl; [apply Z.lor_spec|by rewrite orb_false_r]. Qed.

Lemma clear_if_spec b flags m i : Z.testbit (clear_if b flags m) i = Z.testbit m i && negb (b && Z.testbit flags i).
Proof. unfold clear_if. destruct b; simpl; [apply Z.ldiff_spec|by rewrite andb_true_r]. Qed.

(** The access the entries of the ACL and the permissions of the export give, bit by bit of ACCESS:
    [allow k] is what the ACL says of permission [k] (0 reading, 1 writing or adding files, 2 appending or adding directories,
    5 executing, 6 deleting children), [write] whether the export may be written.  Extending a directory (3) takes one of two
    permissions; writing extended attributes (7) goes with modifying, but also with extending if that is asked for in the same
    request. *)
Definition acl_access (dir write : bool) (allow : Z -> bool) (requested : Z) (i : Z) : bool :=
  let ask := Z.testbit requested in
  if i =? 0 then ask 0 && allow 0
  else if i =? 1 then ask 1 && dir && allow 5
  else if i =? 2 then ask 2 && write && allow (if dir then 6 else 1)
  else if i =? 3 then ask 3 && write && (allow 2 || (dir && allow 1))
  else if i =? 4 then ask 4 && write && dir && allow 6
  else if i =? 5 then ask 5 && negb dir && allow 5
  else if i =? 6 then ask 6 && allow 0
  else if i =? 7 then ask 7 && write && (allow (if dir then 6 else 1) || (ask 3 && (allow 2 || (dir && allow 1))))
  else if i =? 8 then ask 8 && allow 0
  else false.

(** The loop with a denied mask and the request to continue does not return early, and what is missing only shrinks. *)
Lemma check_aces_continues rfc creds v4mask d o g aces m al de :
  Z.testbit v4mask 30 = true ->
  exists m' al' de', check_aces rfc creds v4mask d o g false aces m (Some al) (Some de) = inl (m', Some al', Some de') /\
    forall i, 0 <= i -> Z.testbit m' i = true -> Z.testbit m i = true.
Proof.
  intros H30. assert ((Z.land v4mask FSAL_ACE4_PERM_CONTINUE =? 0) = false) as Hc.
  { pose proof (has_pow2 v4mask 30 ltac:(lia)) as Hh. rewrite H30 in Hh. by apply negb_true_iff in Hh. }
  revert m al de. induction aces as [|a aces IH]; intros m al de; cbn [check_aces]; [by eexists _, _, _|].
  assert (forall x y i, 0 <= i -> Z.testbit (clear_bits x y) i = true -> Z.testbit x i = true) as Hsub.
  { intros x y i Hi. rewrite clear_bits_spec by done. by intros [? _]%andb_true_iff. }
  assert (forall x y al de, exists m' al' de',
    check_aces rfc creds v4mask d o g false aces (clear_bits x y) (Some al) (Some de) = inl (m', Some al', Some de') /\
    forall i, 0 <= i -> Z.testbit m' i = true -> Z.testbit x i = true) as Hstep.
  { intros x y al0 de0. destruct (IH (clear_bits x y) al0 de0) as (m' & al' & de' & -> & Hm). eexists _, _, _. split; [done|]. eauto. }
  rewrite Hc, bool_decide_false by done. cbn [orb or_out fmap option_fmap option_map].
  destruct (_ && _); [apply IH|]. destruct (fsal_check_ace_applicable _ _ _ _ _ _); [|apply IH].
  destruct (IS_FSAL_ACE_ALLOW a).
  - destruct (clear_bits m _ =? 0); [|apply Hstep]. eexists _, _, _. split; [done|]. eauto.
  - destruct (_ && _); [|apply IH]. destruct (clear_bits m _ =? 0); [|apply Hstep]. eexists _, _, _. split; [done|]. eauto.
Qed.

(** Permissions whose denial is ACCESS. *)
Lemma denied_access rfc p :
  Z.testbit p 8 = false -> Z.testbit p 18 = false -> Z.testbit p 19 = false -> denied_status rfc p = ERR_FSAL_ACCESS.
Proof.
  intros H8 H18 H19. unfold denied_status. destruct rfc; [done|].
  assert (has p (Z.lor FSAL_ACE_PERM_WRITE_ATTR (Z.lor FSAL_ACE_PERM_WRITE_ACL FSAL_ACE_PERM_WRITE_OWNER)) = false) as Hh.
  { rewrite !has_lor. pose proof (has_pow2 p 8 ltac:(lia)). pose proof (has_pow2 p 18 ltac:(lia)). pose proof (has_pow2 p 19 ltac:(lia)).
    change FSAL_ACE_PERM_WRITE_ATTR with (2 ^ 8). change FSAL_ACE_PERM_WRITE_ACL with (2 ^ 18). change FSAL_ACE_PERM_WRITE_OWNER with (2 ^ 19). by rewrite !has_pow2, H8, H18, H19. }
  unfold has in Hh. unfold IS_FSAL_ACE_BIT. by rewrite Hh.
Qed.

Lemma acl_status rfc creds v4mask a0 d0 attrs aces :
  Z.testbit v4mask 30 = true -> Forall (fun i => Z.testbit v4mask i = false) [8; 18; 19; 28] ->
  attr_acl attrs = Some aces -> is_superuser creds = false ->
  let st := (fsal_check_access_acl rfc creds v4mask (Some a0) (Some d0) attrs).1.1 in st = ERR_FSAL_NO_ERROR \/ st = ERR_FSAL_ACCESS.
Proof.
  intros H30 Hf Hacl Hsu. unfold fsal_check_access_acl. rewrite Hacl, Hsu. cbv zeta. set (ms := clear_bits _ _).
  destruct (ms =? 0); [by left|]. unfold check_access_aces. cbv zeta. set (o := fsal_check_ace_owner _ _).
  set (m := if o then clear_bits ms owner_perms else ms). destruct (o && (m =? 0)); [by left|].
  replace (if o then or_out _ _ else _) with (Some (if o then Z.land v4mask owner_perms else 0)) by by destruct o.
  destruct (check_aces_continues rfc creds v4mask (bool_decide (attr_type attrs = DIRECTORY)) o (fsal_check_ace_group (attr_group attrs) creds) aces m
    (if o then Z.land v4mask owner_perms else 0) 0 H30) as (m' & al' & de' & E & Hsub).
  cbn [set_out fmap option_fmap option_map]. rewrite E.
  assert (forall i, 0 <= i -> Z.testbit v4mask i = false -> Z.testbit m' i = false) as Hm'.
  { intros i Hi Hv. destruct (Z.testbit m' i) eqn:Eb; [|done]. apply Hsub in Eb; [|done]. unfold m in Eb.
    assert (Z.testbit ms i = true) as Ems. { destruct o; [|done]. rewrite clear_bits_spec in Eb by done. by apply andb_true_iff in Eb as [? _]. }
    unfold ms in Ems. rewrite clear_bits_spec, Hv in Ems by done. done. }
  apply Forall_cons in Hf as [H8 [H18 [H19 [H28 _]%Forall_cons]%Forall_cons]%Forall_cons].
  assert (IS_FSAL_ACE4_REQ v4mask = false) as ->. { transitivity (has v4mask (2 ^ 28)); [done|]. by rewrite has_pow2. }
  cbn [andb fst]. destruct (negb (m' =? 0) || negb (de' =? 0)); [right|by left]. apply denied_access; apply Hm'; done.
Qed.

(** ** The bits of the masks *)
Ltac bits := rewrite ?or_if_spec, ?clear_if_spec, ?Z.land_spec, ?Z.lor_spec, ?has_lor.

(** A bit of a closed number. *)
Ltac closed_bits :=
  repeat match goal with |- context [Z.testbit ?f ?k] =>
    let b := eval vm_compute in (Z.testbit f k) in
    first [unify b true|unify b false]; change (Z.testbit f k) with b end.

Lemma has_bit x k flag : flag = 2 ^ k -> 0 <= k -> has x flag = Z.testbit x k.
Proof. intros ->. apply has_pow2. Qed.

(** Flags as bits. *)
Ltac flags_to_bits :=
  repeat match goal with |- context [has ?x ?f] =>
    let k := eval vm_compute in (Z.log2 f) in rewrite (has_bit x k f eq_refl ltac:(lia)) end.

(** The permissions asked of the ACL. *)
Lemma access_mask_bits type_ requested :
  let dir := bool_decide (type_ = DIRECTORY) in
  let ask := Z.testbit requested in
  let m := access_mask_of type_ requested in
  Z.testbit m 0 = ask 0 || ask 6 || ask 8 /\
  Z.testbit m 1 = (negb dir && (ask 2 || ask 7)) || (dir && ask 3) /\
  Z.testbit m 2 = ask 3 /\
  Z.testbit m 5 = (ask 1 && dir) || (ask 5 && negb dir) /\
  Z.testbit m 6 = dir && (ask 2 || ask 7 || ask 4).
Proof.
  intros dir ask m. subst ask m. unfold access_mask_of. fold dir.
  split_and!; bits; flags_to_bits; closed_bits; destruct dir; closed_bits; cbn [andb orb negb]; rewrite ?andb_true_r, ?andb_false_r, ?orb_false_r;
    repeat match goal with |- context [Z.testbit requested ?k] => destruct (Z.testbit requested k) end; try reflexivity.
Qed.

(** A mask that asks for something asks to continue after a denial, and asks nothing else. *)
Lemma access_mask_flags type_ requested :
  let m := access_mask_of type_ requested in
  m = 0 \/ (Z.testbit m 30 = true /\ Z.testbit m 31 = true /\ Z.testbit m 8 = false /\ Z.testbit m 18 = false /\ Z.testbit m 19 = false /\
            Z.testbit m 28 = false).
Proof.
  intros m. subst m. unfold access_mask_of. set (dir := bool_decide _). cbv zeta. set (m := or_if (has requested ACCESS3_EXECUTE && negb dir) _ _).
  destruct (Z.eqb_spec m 0) as [->|Hne]; [by left|]. right. clear Hne. cbn [negb].
  split_and!; [rewrite or_if_spec; apply orb_true_iff; by right..| | | |]; subst m; bits; destruct dir; closed_bits; by rewrite ?andb_false_r.
Qed.

(** The access the check of the ACL allows. *)
Lemma test_access_allowed rfc creds attrs aces requested a0 d0 :
  attr_acl attrs = Some aces -> is_superuser creds = false ->
  let m := access_mask_of (attr_type attrs) requested in
  exists st al de, fsal_test_access rfc (inr attrs) creds m (Some a0) (Some d0) false = (st, Some al, de) /\
    (st = ERR_FSAL_NO_ERROR \/ st = ERR_FSAL_ACCESS) /\
    (forall k, In k [0; 1; 2; 5; 6] -> Z.testbit al k = Z.testbit m k && bool_decide (decided creds attrs k aces = Some true)) /\
    (forall k, In k [24; 25; 26] -> Z.testbit al k = false).
Proof.
  intros Hacl Hsu m. unfold fsal_test_access. cbn [andb].
  pose proof (access_mask_flags (attr_type attrs) requested) as Hf. cbv zeta in Hf. fold m in Hf.
  clearbody m. destruct Hf as [E|(H30 & H31 & H8 & H18 & H19 & H28)].
  - rewrite E. rewrite andb_false_r. cbn [orb]. exists ERR_FSAL_NO_ERROR, 0, (Some 0). split_and!; [done|by left| |]; intros k _; by rewrite Z.bits_0.
  - assert (IS_FSAL_ACE4_MASK_VALID m = true) as Hv.
    { unfold IS_FSAL_ACE4_MASK_VALID. apply Z.eqb_eq. change FSAL_ACCESS_FLAG_BIT_MASK with (2 ^ 31). rewrite land_pow2, H31 by lia. done. }
    rewrite Hv, Hacl, bool_decide_true, orb_true_r by done. cbn [andb].
    set (v := FSAL_ACE4_MASK m).
    assert (forall k, Z.testbit v k = Z.testbit m k && Z.testbit FSAL_ACE4_BIT_MASK k) as Hvb by (intros k; apply Z.land_spec).
    destruct (fsal_check_access_acl_allowed rfc creds v a0 d0 attrs aces) as (st & al & de & E & Hal); [by rewrite Hvb, H30|done|done|].
    exists st, al, de. split_and!; [done| | |].
    + pose proof (acl_status rfc creds v a0 d0 attrs aces) as Hst. cbv zeta in Hst. rewrite E in Hst. apply Hst; [by rewrite Hvb, H30| |done|done].
      repeat constructor; by rewrite Hvb, ?H8, ?H18, ?H19, ?H28.
    + intros k Hk. rewrite Hal, Hvb by (destruct Hk as [<-|[<-|[<-|[<-|[<-|[]]]]]]; done). unfold implicit_perm.
      destruct Hk as [<-|[<-|[<-|[<-|[<-|[]]]]]]; closed_bits; by rewrite andb_true_r, andb_false_r.
    + intros k Hk. rewrite Hal, Hvb by (destruct Hk as [<-|[<-|[<-|[]]]]; done). destruct Hk as [<-|[<-|[<-|[]]]]; closed_bits; by rewrite andb_false_r.
Qed.

(** The bits of what is granted. *)
Lemma granted_bits type_ opts al gm i :
  let dir := bool_decide (type_ = DIRECTORY) in
  let write := has opts EXPORT_OPTION_WRITE_ACCESS in
  let may k := Z.testbit al k in
  (forall k, In k [24; 25; 26] -> may k = false) -> 0 <= i ->
  Z.testbit (granted_of type_ opts al gm) i = Z.testbit gm i &&
    (if i =? 0 then may 0
     else if i =? 1 then may 5
     else if i =? 2 then write && may (if dir then 6 else 1)
     else if i =? 3 then write && (may 2 || (dir && may 1))
     else if i =? 4 then write && dir && may 6
     else if i =? 5 then may 5
     else if i =? 6 then may 0
     else if i =? 7 then write && (may (if dir then 6 else 1) || may 2 || (dir && may 1))
     else if i =? 8 then may 0
     else false).
Proof.
  intros dir write may Hmode Hi. unfold granted_of. fold dir. cbv zeta.
  assert (may 24 = false /\ may 25 = false /\ may 26 = false) as (M24 & M25 & M26) by (split_and!; apply Hmode; naive_solver).
  rewrite Z.land_spec, andb_comm. f_equal. fold write. clearbody write dir. 
  rewrite !clear_if_spec, !or_if_spec. flags_to_bits. subst may. cbv beta in *. rewrite M24, M25, M26. cbn [andb orb].
  destruct (decide (i < 9)) as [Hlt|Hge].
  - assert (In i [0; 1; 2; 3; 4; 5; 6; 7; 8]) as Hin by (simpl; lia). clear Hmode Hi Hlt.
    repeat destruct Hin as [<-|Hin]; [..|done]; closed_bits; cbn [Z.eqb Pos.eqb andb orb negb];
      destruct dir, write; cbn [andb orb negb]; rewrite ?andb_true_r, ?andb_false_r, ?orb_false_r;
      repeat match goal with |- context [Z.testbit al ?k] => destruct (Z.testbit al k) end; reflexivity.
  - rewrite !(proj2 (Z.eqb_neq _ _)) by lia.
    repeat match goal with |- context [Z.testbit ?f i] =>
      rewrite (Z.bits_above_log2 f i) by first [by vm_compute|let n := eval vm_compute in (Z.log2 f) in change (Z.log2 f) with n; lia] end.
    by rewrite ?andb_false_r.
Qed.

Lemma granted_mask_bits type_ requested i :
  let dir := bool_decide (type_ = DIRECTORY) in
  Z.testbit (granted_mask_of type_ requested) i = Z.testbit requested i &&
    (if i =? 1 then dir else if i =? 4 then dir else if i =? 5 then negb dir else true).
Proof.
  intros dir. unfold granted_mask_of. fold dir. cbv zeta. clearbody dir. rewrite !clear_if_spec. flags_to_bits.
  change ACCESS3_LOOKUP with (2 ^ 1). change ACCESS3_DELETE with (2 ^ 4). change ACCESS3_EXECUTE with (2 ^ 5).
  rewrite !Z.pow2_bits_eqb by lia. rewrite !(Z.eqb_sym _ i).
  destruct (Z.eqb_spec i 1) as [->|]; [|destruct (Z.eqb_spec i 4) as [->|]; [|destruct (Z.eqb_spec i 5) as [->|]]]; cbn [Z.eqb Pos.eqb];
    rewrite ?andb_true_r, ?andb_false_r; cbn [negb]; rewrite ?andb_true_r; try done;
    match goal with |- context [Z.testbit requested ?k] => destruct (Z.testbit requested k) end; by destruct dir.
Qed.

(** C18: ACCESS on an object with an ACL, for a caller that is not the superuser, where a permission is allowed if the first
    entry that applies to the caller and names it is an ALLOW entry.  Each of the nine kinds of access is granted exactly as
    [acl_access] says: only if it is asked for; changes only if the export may be written; READ, XAREAD and XALIST if reading is
    allowed; LOOKUP on a directory and EXECUTE on another object if executing is; MODIFY if deleting children (on a directory) or writing is;
    EXTEND if appending or, on a directory, adding files or directories is; DELETE on a directory if deleting children is; and XAWRITE if
    MODIFY would be, or if EXTEND is asked for as well and granted. *)
Theorem nfs_access_op_acl rfc creds attrs aces opts requested garbage :
  attr_acl attrs = Some aces -> is_superuser creds = false ->
  let allow k := bool_decide (decided creds attrs k aces = Some true) in
  exists st g, nfs_access_op (attr_type attrs) (fun m al de => fsal_test_access rfc (inr attrs) creds m (Some al) (Some de) false) opts requested garbage
      = (st, g, Some (granted_mask_of (attr_type attrs) requested)) /\
    (st = ERR_FSAL_NO_ERROR \/ st = ERR_FSAL_ACCESS) /\
    forall i, 0 <= i -> Z.testbit g i = acl_access (bool_decide (attr_type attrs = DIRECTORY)) (has opts EXPORT_OPTION_WRITE_ACCESS) allow requested i.
Proof.
  intros Hacl Hsu allow. unfold nfs_access_op.
  destruct (test_access_allowed rfc creds attrs aces requested garbage garbage Hacl Hsu) as (st & al & de & E & Hst & Hal & Hmode). rewrite E.
  rewrite decide_True by done. change (default garbage (Some al)) with al. eexists _, _. split_and!; [done|done|]. intros i Hi.
  rewrite granted_bits, granted_mask_bits by done. cbv beta zeta.
  destruct (access_mask_bits (attr_type attrs) requested) as (B0 & B1 & B2 & B5 & B6).
  rewrite (Hal (if bool_decide (attr_type attrs = DIRECTORY) then 6 else 1)), (Hal 0), (Hal 1), (Hal 2), (Hal 5), (Hal 6)
    by (destruct (bool_decide (attr_type attrs = DIRECTORY)); simpl; tauto).
  fold (allow 0) (allow 1) (allow 2) (allow 5) (allow 6) (allow (if bool_decide (attr_type attrs = DIRECTORY) then 6 else 1)).
  destruct (bool_decide (attr_type attrs = DIRECTORY)); rewrite ?B0, ?B1, ?B2, ?B5, ?B6; clear B0 B1 B2 B5 B6 Hal Hmode Hst E Hi; unfold acl_access; cbn [negb andb orb];
    rewrite ?andb_true_r, ?andb_false_r, ?orb_false_r.
  all: repeat match goal with |- context [?j =? ?k] => is_var j; destruct (Z.eqb_spec j k) as [->|_]; cbn [Z.eqb Pos.eqb] end.
  all: generalize (allow 0) (allow 1) (allow 2) (allow 5) (allow 6) (has opts EXPORT_OPTION_WRITE_ACCESS); intros a0 a1 a2 a5 a6 w;
    repeat match goal with |- context [Z.testbit ?r ?k] => generalize (Z.testbit r k); intros [] end; destruct w; cbn [andb orb];
    rewrite ?andb_false_r, ?andb_true_r, ?orb_false_r; try done; by destruct a0, a1, a2, a5, a6.
Qed.

(** A file that anyone may read and its owner's group may append to. *)
Definition attrs_example : fsal_attrlist :=
  {| attr_owner := 1; attr_group := 20; attr_mode := 0; attr_type := REGULAR_FILE; valid_mask := 0;
     attr_acl := Some [{| ace_type := FSAL_ACE_TYPE_ALLOW; ace_perm := FSAL_ACE_PERM_APPEND_DATA; ace_flag := FSAL_ACE_FLAG_GROUP_ID;
                          ace_iflag := FSAL_ACE_IFLAG_SPECIAL_ID; ace_who := FSAL_ACE_SPECIAL_GROUP |};
                       {| ace_type := FSAL_ACE_TYPE_ALLOW; ace_perm := FSAL_ACE_PERM_READ_DATA; ace_flag := 0;
                          ace_iflag := FSAL_ACE_IFLAG_SPECIAL_ID; ace_who := FSAL_ACE_SPECIAL_EVERYONE |}] |}.
Definition creds_example : user_cred := {| caller_uid := 501; caller_gid := 20; caller_garray := [98] |}.

Lemma nfs_access_op_acl_witness :
  exists st g sup, nfs_access_op REGULAR_FILE (fun m al de => fsal_test_access false (inr attrs_example) creds_example m (Some al) (Some de) false)
      EXPORT_OPTION_WRITE_ACCESS 0x3f 0 = (st, g, sup) /\ Z.testbit g 0 = true /\ Z.testbit g 2 = false /\ Z.testbit g 3 = true.
Proof.
  destruct (nfs_access_op_acl false creds_example attrs_example (default [] (attr_acl attrs_example)) EXPORT_OPTION_WRITE_ACCESS 0x3f 0 eq_refl eq_refl)
    as (st & g & E & _ & Hg). exists st, g, (Some (granted_mask_of REGULAR_FILE 0x3f)). split; [exact E|].
  rewrite !Hg by done. by vm_compute.
Defined.

(** Whether extended attributes may be written depends on what else is asked: with writing denied and appending allowed, XAWRITE
    is refused when asked for alone and granted with EXTEND. *)
Example xawrite_depends_on_extend :
  let ace t p := {| ace_type := t; ace_perm := p; ace_flag := 0; ace_iflag := FSAL_ACE_IFLAG_SPECIAL_ID; ace_who := FSAL_ACE_SPECIAL_EVERYONE |} in
  let attrs := {| attr_owner := 1; attr_group := 20; attr_mode := 0; attr_type := REGULAR_FILE; valid_mask := 0;
                  attr_acl := Some [ace FSAL_ACE_TYPE_DENY FSAL_ACE_PERM_WRITE_DATA; ace FSAL_ACE_TYPE_ALLOW FSAL_ACE_PERM_APPEND_DATA] |} in
  let granted r := (nfs_access_op REGULAR_FILE (fun m al de => fsal_test_access false (inr attrs) creds_example m (Some al) (Some de) false)
                      EXPORT_OPTION_WRITE_ACCESS r 0).1.2 in
  granted ACCESS4_XAWRITE = 0 /\ granted (Z.lor ACCESS4_XAWRITE ACCESS3_EXTEND) = Z.lor ACCESS4_XAWRITE ACCESS3_EXTEND.
Proof. by vm_compute. Qed.

(** What is granted when the attributes cannot be read is what the variable held before. *)
Example access_uninitialised :
  let op := nfs_access_op REGULAR_FILE (fun m al de => fsal_test_access false (inl ERR_FSAL_ACCESS) creds_example m (Some al) (Some de) false)
              EXPORT_OPTION_WRITE_ACCESS 0x3f in
  op 0 = (ERR_FSAL_ACCESS, 0, Some 0x2d) /\ op UINT32_MAX = (ERR_FSAL_ACCESS, 0x2d, Some 0x2d).
Proof. by vm_compute. Qed.
