(* ===== verification/VfsHandle.v ===== *)
(** * Wire handles of the VFS back end

    File system ids and their encodings ([FSAL/commonlib.c], [include/fsal_api.h]), and the
    handles of [FSAL/FSAL_VFS/os/linux/handle_syscalls.c]: a byte of flags, the fsid, the
    type of the kernel's handle in one, two or four bytes, and the kernel's handle.
    Bytes are integers below 256; a multi-byte integer is stored with the low byte first. *)
From S2P Require Import Prelude.
Local Open Scope Z_scope.

(** ** Bytes *)

Fixpoint le_bytes (n : nat) (x : Z) : list Z :=
  match n with O => [] | S n' => x `mod` 256 :: le_bytes n' (x / 256) end.
Fixpoint le_value (l : list Z) : Z :=
  match l with [] => 0 | b :: l' => b + 256 * le_value l' end.

(** [memcpy] into and out of an array; undefined outside of it. *)
Definition store_at (off : nat) (bs l : list Z) : option (list Z) :=
  if bool_decide (off + length bs <= length l)%nat
  then Some (take off l ++ bs ++ drop (off + length bs) l) else None.
Definition load_at (off n : nat) (l : list Z) : option (list Z) :=
  if bool_decide (off + n <= length l)%nat then Some (take n (drop off l)) else None.

(** ** File system ids *)

Inductive fsid_type : Set :=
  | FSID_NO_TYPE | FSID_ONE_UINT64 | FSID_MAJOR_64 | FSID_TWO_UINT64 | FSID_TWO_UINT32 | FSID_DEVICE.
#[export] Instance fsid_type_eq_dec : EqDecision fsid_type.
Proof. solve_decision. Defined.

Definition fsid_num (t : fsid_type) : Z :=
  match t with
  | FSID_NO_TYPE => 0 | FSID_ONE_UINT64 => 1 | FSID_MAJOR_64 => 2 | FSID_TWO_UINT64 => 3
  | FSID_TWO_UINT32 => 4 | FSID_DEVICE => 5
  end.
(** The cast of a number to the enumeration; the numbers without a name are not cases of any switch. *)
Definition fsid_of_num (n : Z) : option fsid_type :=
  match n with
  | 0 => Some FSID_NO_TYPE | 1 => Some FSID_ONE_UINT64 | 2 => Some FSID_MAJOR_64
  | 3 => Some FSID_TWO_UINT64 | 4 => Some FSID_TWO_UINT32 | 5 => Some FSID_DEVICE | _ => None
  end.

Record fsal_fsid__ : Set := { fsid_major : Z; fsid_minor : Z }.

Definition sizeof_fsid (t : fsid_type) : Z :=
  match t with
  | FSID_NO_TYPE => 0
  | FSID_ONE_UINT64 | FSID_MAJOR_64 => 8
  | FSID_TWO_UINT64 => 16
  | FSID_TWO_UINT32 | FSID_DEVICE => 8
  end.

(** The bytes written; [None] is the answer -1. *)
Definition encode_fsid (max : Z) (fsid : fsal_fsid__) (t : fsid_type) : option (list Z) :=
  if max <? sizeof_fsid t then None else
  Some match t with
       | FSID_NO_TYPE => []
       | FSID_ONE_UINT64 | FSID_MAJOR_64 => le_bytes 8 (fsid_major fsid)
       | FSID_TWO_UINT64 => le_bytes 8 (fsid_major fsid) ++ le_bytes 8 (fsid_minor fsid)
       | FSID_TWO_UINT32 | FSID_DEVICE => le_bytes 4 (u32 (fsid_major fsid)) ++ le_bytes 4 (u32 (fsid_minor fsid))
       end.

(** [decode_fsid] on the bytes of [buf]: undefined when it reads past them, else -1 or the fsid. *)
Definition decode_fsid (buf : list Z) (max : Z) (t : fsid_type) : option (option fsal_fsid__) :=
  if max <? sizeof_fsid t then Some None else
  match t with
  | FSID_NO_TYPE => Some (Some {| fsid_major := 0; fsid_minor := 0 |})
  | FSID_ONE_UINT64 | FSID_MAJOR_64 =>
      a ← load_at 0 8 buf;
      Some (Some {| fsid_major := le_value a; fsid_minor := 0 |})
  | FSID_TWO_UINT64 =>
      a ← load_at 0 8 buf; b ← load_at 8 8 buf;
      Some (Some {| fsid_major := le_value a; fsid_minor := le_value b |})
  | FSID_TWO_UINT32 | FSID_DEVICE =>
      a ← load_at 0 4 buf; b ← load_at 4 4 buf;
      Some (Some {| fsid_major := le_value a; fsid_minor := le_value b |})
  end.

Definition fsal_fs_compare_fsid (lt : fsid_type) (l : fsal_fsid__) (rt : fsid_type) (r : fsal_fsid__) : Z :=
  if fsid_num lt <? fsid_num rt then -1
  else if fsid_num rt <? fsid_num lt then 1
  else if fsid_major l <? fsid_major r then -1
  else if fsid_major r <? fsid_major l then 1
  else if decide (lt = FSID_MAJOR_64) then 0
  else if fsid_minor l <? fsid_minor r then -1
  else if fsid_minor r <? fsid_minor l then 1
  else 0.

(** ** Handles *)

Definition VFS_HANDLE_LEN : nat := 59.
Definition VFS_MAX_HANDLE : Z := 48.
Definition VFS_MIN_HANDLE_SIZE : Z := 4.
Definition HANDLE_TYPE_8 : Z := 64.
Definition HANDLE_TYPE_16 : Z := 128.
Definition HANDLE_TYPE_32 : Z := 192.
Definition HANDLE_TYPE_MASK : Z := 192.
Definition HANDLE_DUMMY : Z := 32.
Definition HANDLE_FSID_MASK : Z := Z.lnot (Z.lor HANDLE_TYPE_MASK HANDLE_DUMMY).

Record vfs_file_handle_t : Set := { handle_len : Z; handle_data : list Z }.

(** The kernel's [struct file_handle]; [handle_bytes] is the length of [f_handle]. *)
Record file_handle : Set := { handle_type : Z; f_handle : list Z }.

(** What the handles need of a [struct fsal_filesystem]. *)
Record fs_id : Set := { fs_fsid_type : fsid_type; fs_fsid : fsal_fsid__ }.

Definition EINVAL : Z := 22.
Definition EOVERFLOW : Z := 75.
Definition ESTALE : Z := 116.

Abbreviation HM := (M vfs_file_handle_t).

Definition set_data (d : list Z) (fh : vfs_file_handle_t) : vfs_file_handle_t :=
  {| handle_len := handle_len fh; handle_data := d |}.
Definition set_len (n : Z) (fh : vfs_file_handle_t) : vfs_file_handle_t :=
  {| handle_len := n; handle_data := handle_data fh |}.

Definition put_bytes (off : nat) (bs : list Z) : HM unit :=
  fh ← gets id;
  d ← deref (store_at off bs (handle_data fh));
  modify (set_data d).

(** Bytes at the cursor, which moves past them. *)
Definition append_bytes (bs : list Z) : HM unit :=
  n ← gets handle_len;
  put_bytes (Z.to_nat n) bs;;
  modify (set_len (u8 (n + Z.of_nat (length bs)))).

(** [fh->handle_data[0] |= f]. *)
Definition or_flag (f : Z) : HM unit :=
  fh ← gets id;
  b ← deref (handle_data fh !! 0%nat);
  put_bytes 0 [Z.lor b f].

(** The type of the kernel's handle, in one, two or four bytes. *)
Definition put_type (ty : Z) : HM unit :=
  if ty <=? 255 then append_bytes [u8 ty];; or_flag HANDLE_TYPE_8
  else if (ty <=? 32767) && (-32768 <=? ty) then append_bytes (le_bytes 2 (wrapu 16 ty));; or_flag HANDLE_TYPE_16
  else append_bytes (le_bytes 4 (u32 ty));; or_flag HANDLE_TYPE_32.

(** Flags and fsid, which both kinds of handle start with; [false] is the failure of [encode_fsid]. *)
Definition put_header (flags : Z) (fs : fs_id) : HM bool :=
  put_bytes 0 [u8 flags];;
  modify (set_len 1);;
  match encode_fsid (sizeof_fsid (fs_fsid_type fs)) (fs_fsid fs) (fs_fsid_type fs) with
  | None => mret false
  | Some bs => append_bytes bs;; mret true
  end.

(** [kernel_fh] is what [name_to_handle_at] answers, [None] when it fails.  The result is the return
    code with [errno]. *)
Definition vfs_map_name_to_handle_at (kernel_fh : option file_handle) (fs : fs_id) (kernel_errno : Z) : HM (Z * Z) :=
  match kernel_fh with
  | None => mret (-1, kernel_errno)
  | Some kfh =>
      ok ← put_header (fsid_num (fs_fsid_type fs)) fs;
      if negb ok then mret (-1, EINVAL) else
      put_type (handle_type kfh);;
      n ← gets handle_len;
      if Z.of_nat VFS_HANDLE_LEN <? n + Z.of_nat (length (f_handle kfh)) then mret (-1, EOVERFLOW)
      else append_bytes (f_handle kfh);; mret (0, 0)
  end.

Definition vfs_encode_dummy_handle (fs : fs_id) : HM (Z * Z) :=
  ok ← put_header (Z.lor (fsid_num (fs_fsid_type fs)) HANDLE_DUMMY) fs;
  if (ok : bool) then mret (0, 0) else mret (-1, EINVAL).

(** The width of the type in the handle. *)
Definition kind_width (kind : Z) : Z :=
  if kind =? HANDLE_TYPE_8 then 1 else if kind =? HANDLE_TYPE_16 then 2 else 4.

(** The kernel's handle that [vfs_open_by_handle] opens, or the error before the call: undefined
    when it reads outside the handle or writes outside the buffer for the kernel's. *)
Definition vfs_open_by_handle (fs : fs_id) (fh : vfs_file_handle_t) : option (Z + file_handle) :=
  let handle_cursor := u8 (sizeof_fsid (fs_fsid_type fs) + 1) in
  b ← handle_data fh !! 0%nat;
  let kind := Z.land b HANDLE_TYPE_MASK in
  if kind =? 0 then Some (inl EINVAL) else
  let width := kind_width kind in
  raw ← load_at (Z.to_nat handle_cursor) (Z.to_nat width) (handle_data fh);
  let ty := if kind =? HANDLE_TYPE_8 then le_value raw
            else if kind =? HANDLE_TYPE_16 then wraps 16 (le_value raw) else i32 (le_value raw) in
  let handle_cursor := u8 (handle_cursor + width) in
  let handle_bytes := u32 (handle_len fh - handle_cursor) in
  if VFS_MAX_HANDLE <? handle_bytes then None else
  f ← load_at (Z.to_nat handle_cursor) (Z.to_nat handle_bytes) (handle_data fh);
  Some (inr {| handle_type := ty; f_handle := f |}).

(** The answer with the type and the fsid; undefined when it reads outside the handle. *)
Definition vfs_extract_fsid (fh : vfs_file_handle_t) : option (Z * option (fsid_type * fsal_fsid__)) :=
  b ← handle_data fh !! 0%nat;
  match fsid_of_num (Z.land b HANDLE_FSID_MASK) with
  | None => Some (ESTALE, None)
  | Some t =>
      o ← decode_fsid (drop 1 (handle_data fh)) (handle_len fh - 1) t;
      Some match o with Some fsid => (0, Some (t, fsid)) | None => (ESTALE, None) end
  end.

Definition vfs_is_dummy_handle (fh : vfs_file_handle_t) : option bool :=
  b ← handle_data fh !! 0%nat;
  Some (negb (Z.land b HANDLE_DUMMY =? 0)).

(** On the bytes from the wire; the last comparison of the source is only logged. *)
Definition vfs_valid_handle (desc : list Z) : option bool :=
  if Z.of_nat VFS_HANDLE_LEN <? Z.of_nat (length desc) then Some false else
  handle0 ← desc !! 0%nat;
  match fsid_of_num (Z.land handle0 HANDLE_FSID_MASK) with
  | None => Some false
  | Some t =>
      let len := 1 + sizeof_fsid t in
      if negb (Z.land handle0 HANDLE_DUMMY =? 0) then Some (len =? Z.of_nat (length desc)) else
      let len := len + 4 in
      let kind := Z.land handle0 HANDLE_TYPE_MASK in
      if kind =? 0 then Some false else
      let len := len + kind_width kind in
      Some (len + VFS_MIN_HANDLE_SIZE <=? Z.of_nat (length desc))
  end.

(** The handle [vfs_check_handle] copies the bytes to: zeroed by [vfs_alloc_handle]. *)
Definition received (desc : list Z) : vfs_file_handle_t :=
  {| handle_len := u8 (Z.of_nat (length desc));
     handle_data := desc ++ replicate (VFS_HANDLE_LEN - length desc) 0 |}.

(** ** Lemmas on bytes *)

Definition byte_ok (b : Z) : Prop := in_u 8 b.

Lemma length_le_bytes n x : length (le_bytes n x) = n.
Proof. revert x. induction n as [|n IH]; intros x; simpl; [done|]. by rewrite IH. Qed.

Lemma le_bytes_ok n x : Forall byte_ok (le_bytes n x).
Proof.
  revert x. induction n as [|n IH]; intros x; simpl; constructor; [|done].
  unfold byte_ok, in_u. pose proof (Z.mod_pos_bound x 256). lia.
Qed.

Lemma le_value_bytes n x : in_u (8 * Z.of_nat n) x -> le_value (le_bytes n x) = x.
Proof.
  revert x. induction n as [|n IH]; intros x Hx; simpl le_value.
  - unfold in_u in Hx. simpl in Hx. lia.
  - rewrite IH; [pose proof (Z.div_mod x 256); lia|]. unfold in_u in *.
    replace (8 * Z.of_nat (S n)) with (8 + 8 * Z.of_nat n) in Hx by lia.
    rewrite Z.pow_add_r in Hx by lia. change (2 ^ 8) with 256 in Hx.
    split; [apply Z.div_pos; lia|]. apply Z.div_lt_upper_bound; lia.
Qed.

Lemma store_at_end bs (l rest : list Z) :
  (length bs <= length rest)%nat ->
  store_at (length l) bs (l ++ rest) = Some ((l ++ bs) ++ drop (length bs) rest).
Proof.
  intros Hl. unfold store_at. rewrite bool_decide_true by (rewrite length_app; lia).
  rewrite take_app_length, drop_app_ge by lia. rewrite <- app_assoc. do 3 f_equal. f_equal. lia.
Qed.

Lemma load_at_middle (l bs rest : list Z) off n :
  off = length l -> n = length bs -> load_at off n (l ++ bs ++ rest) = Some bs.
Proof.
  intros -> ->. unfold load_at. rewrite bool_decide_true by (rewrite !length_app; lia).
  by rewrite drop_app_length, take_app_length.
Qed.

Lemma load_at_start (bs rest : list Z) n : n = length bs -> load_at 0 n (bs ++ rest) = Some bs.
Proof. intros Hn. by apply (load_at_middle []). Qed.

(** ** The state of a handle that is being written: [pre] is there, the cursor behind it. *)
Definition written (pre : list Z) (fh : vfs_file_handle_t) : Prop :=
  handle_len fh = Z.of_nat (length pre) /\ (length pre <= VFS_HANDLE_LEN)%nat /\
  exists rest, handle_data fh = pre ++ rest /\ (length pre + length rest = VFS_HANDLE_LEN)%nat.

Lemma wp_append_bytes pre bs (Q : unit -> vfs_file_handle_t -> Prop) fh :
  written pre fh -> (length pre + length bs <= VFS_HANDLE_LEN)%nat ->
  (forall fh', written (pre ++ bs) fh' -> Q tt fh') -> wp (append_bytes bs) Q fh.
Proof.
  intros (Hl & Hle & rest & Hd & Hr) Hfit HQ. unfold append_bytes, put_bytes.
  apply wp_bind, wp_gets, wp_bind, wp_bind, wp_gets, wp_bind. rewrite Hl, Nat2Z.id. cbn [id]. rewrite Hd.
  rewrite store_at_end by lia. apply wp_ret, wp_modify, wp_modify, HQ. unfold written. cbn. rewrite length_app.
  unfold VFS_HANDLE_LEN in *. split; [rewrite wrapu_small; [lia|unfold in_u; simpl; lia]|]. split; [lia|]. eexists. split; [done|].
  rewrite length_drop. lia.
Qed.

Lemma wp_or_flag b pre f (Q : unit -> vfs_file_handle_t -> Prop) fh :
  written (b :: pre) fh -> (forall fh', written (Z.lor b f :: pre) fh' -> Q tt fh') -> wp (or_flag f) Q fh.
Proof.
  intros (Hl & Hle & rest & Hd & Hr) HQ. unfold or_flag, put_bytes. apply wp_bind, wp_gets, wp_bind.
  cbn [id]. rewrite Hd. apply wp_ret, wp_bind, wp_gets, wp_bind. cbn [id]. rewrite Hd.
  change ((b :: pre) ++ rest) with ([] ++ (b :: pre ++ rest)). rewrite (store_at_end _ []) by (simpl; lia).
  apply wp_ret, wp_modify, HQ. split; [done|]. split; [done|]. by exists rest.
Qed.

(** The bytes of the header and of a type, with the flag for its width. *)
Definition fsid_bytes (fs : fs_id) : list Z :=
  default [] (encode_fsid (sizeof_fsid (fs_fsid_type fs)) (fs_fsid fs) (fs_fsid_type fs)).
Definition type_bytes (ty : Z) : list Z :=
  if ty <=? 255 then [u8 ty]
  else if (ty <=? 32767) && (-32768 <=? ty) then le_bytes 2 (wrapu 16 ty) else le_bytes 4 (u32 ty).
Definition type_flag (ty : Z) : Z :=
  if ty <=? 255 then HANDLE_TYPE_8
  else if (ty <=? 32767) && (-32768 <=? ty) then HANDLE_TYPE_16 else HANDLE_TYPE_32.

Lemma length_fsid_bytes fs : Z.of_nat (length (fsid_bytes fs)) = sizeof_fsid (fs_fsid_type fs).
Proof. unfold fsid_bytes, encode_fsid. rewrite Z.ltb_irrefl. by destruct (fs_fsid_type fs). Qed.

Lemma wp_put_header flags fs (Q : bool -> vfs_file_handle_t -> Prop) fh :
  length (handle_data fh) = VFS_HANDLE_LEN ->
  (forall fh', written (u8 flags :: fsid_bytes fs) fh' -> Q true fh') -> wp (put_header flags fs) Q fh.
Proof.
  intros Hd HQ. pose proof (length_fsid_bytes fs) as Hlen. unfold put_header, put_bytes.
  apply wp_bind, wp_bind, wp_gets, wp_bind. cbn [id].
  change (handle_data fh) with ([] ++ handle_data fh). rewrite (store_at_end _ []) by (rewrite Hd; simpl; unfold VFS_HANDLE_LEN; lia).
  apply wp_ret, wp_modify, wp_bind, wp_modify.
  unfold fsid_bytes in *. unfold encode_fsid in *. rewrite Z.ltb_irrefl in *. cbn [default] in *.
  apply wp_bind. eapply (wp_append_bytes [u8 flags]).
  - split; [done|]. split; [simpl; unfold VFS_HANDLE_LEN; lia|]. eexists. split; [done|]. cbn. rewrite length_drop, Hd. done.
  - simpl length at 1. unfold VFS_HANDLE_LEN. destruct (fs_fsid_type fs); simpl in *; lia.
  - intros fh' Hfh'. by apply wp_ret, HQ.
Qed.

Lemma wp_put_type ty b pre (Q : unit -> vfs_file_handle_t -> Prop) fh :
  written (b :: pre) fh -> (1 + length pre + 4 <= VFS_HANDLE_LEN)%nat ->
  (forall fh', written (Z.lor b (type_flag ty) :: pre ++ type_bytes ty) fh' -> Q tt fh') -> wp (put_type ty) Q fh.
Proof.
  intros Hw Hfit HQ. unfold put_type, type_flag, type_bytes in *.
  destruct (ty <=? 255); [|destruct ((ty <=? 32767) && (-32768 <=? ty))]; apply wp_bind;
    (eapply wp_append_bytes; [done|simpl in *; lia|]); intros fh1 H1; (eapply wp_or_flag; [exact H1|done]).
Qed.

(** ** Reading a handle back *)

(** The fsid of a file system is of its type. *)
Definition fsid_ok (t : fsid_type) (f : fsal_fsid__) : Prop :=
  match t with
  | FSID_NO_TYPE => fsid_major f = 0 /\ fsid_minor f = 0
  | FSID_ONE_UINT64 => in_u 64 (fsid_major f) /\ fsid_minor f = 0
  | FSID_MAJOR_64 | FSID_TWO_UINT64 => in_u 64 (fsid_major f) /\ in_u 64 (fsid_minor f)
  | FSID_TWO_UINT32 | FSID_DEVICE => in_u 32 (fsid_major f) /\ in_u 32 (fsid_minor f)
  end.

(** What a handle says of it: not the minor number of [FSID_MAJOR_64]. *)
Definition sent_fsid (t : fsid_type) (f : fsal_fsid__) : fsal_fsid__ :=
  match t with FSID_MAJOR_64 => {| fsid_major := fsid_major f; fsid_minor := 0 |} | _ => f end.

Lemma sent_fsid_same t f : fsid_ok t f -> fsal_fs_compare_fsid t (sent_fsid t f) t f = 0.
Proof. intros _. unfold fsal_fs_compare_fsid. destruct t; simpl; rewrite ?Z.ltb_irrefl; done. Qed.

Lemma decode_fsid_bytes fs rest max :
  fsid_ok (fs_fsid_type fs) (fs_fsid fs) -> sizeof_fsid (fs_fsid_type fs) <= max ->
  decode_fsid (fsid_bytes fs ++ rest) max (fs_fsid_type fs)
  = Some (Some (sent_fsid (fs_fsid_type fs) (fs_fsid fs))).
Proof.
  intros Hok Hmax. unfold decode_fsid, fsid_bytes, encode_fsid. rewrite Z.ltb_irrefl. cbn [default from_option id].
  destruct (Z.ltb_spec max (sizeof_fsid (fs_fsid_type fs))); [lia|].
  assert (forall n x, in_u (8 * Z.of_nat n) x -> le_value (le_bytes n x) = x) as Hv by apply le_value_bytes.
  destruct fs as [t [ma mi]]; cbn [fs_fsid_type fs_fsid fsid_ok fsid_major fsid_minor sent_fsid] in *.
  destruct t; destruct Hok as [H1 H2]; cbn [fsid_major fsid_minor sent_fsid] in *.
  - by subst.
  - rewrite load_at_start by (rewrite ?length_le_bytes; done). cbn [mbind option_bind id]. by rewrite (Hv 8%nat), H2.
  - rewrite load_at_start by (rewrite ?length_le_bytes; done). cbn [mbind option_bind id]. by rewrite (Hv 8%nat).
  - rewrite <- app_assoc, load_at_start by (rewrite ?length_le_bytes; done). cbn [mbind option_bind id].
    rewrite load_at_middle by (rewrite ?length_le_bytes; done). cbn [mbind option_bind id]. by rewrite !(Hv 8%nat).
  - rewrite !wrapu_small by done. rewrite <- app_assoc, load_at_start by (rewrite ?length_le_bytes; done). cbn [mbind option_bind id].
    rewrite load_at_middle by (rewrite ?length_le_bytes; done). cbn [mbind option_bind id]. by rewrite !(Hv 4%nat).
  - rewrite !wrapu_small by done. rewrite <- app_assoc, load_at_start by (rewrite ?length_le_bytes; done). cbn [mbind option_bind id].
    rewrite load_at_middle by (rewrite ?length_le_bytes; done). cbn [mbind option_bind id]. by rewrite !(Hv 4%nat).
Qed.

(** The flags of a handle, taken apart. *)
Definition flags_of (t : fsid_type) (ty : Z) : Z := Z.lor (u8 (fsid_num t)) (type_flag ty).

Lemma flags_parts t ty :
  Z.land (flags_of t ty) HANDLE_TYPE_MASK = type_flag ty /\
  fsid_of_num (Z.land (flags_of t ty) HANDLE_FSID_MASK) = Some t /\
  Z.land (flags_of t ty) HANDLE_DUMMY = 0.
Proof.
  unfold flags_of, type_flag. destruct (ty <=? 255), ((ty <=? 32767) && (-32768 <=? ty)), t; vm_compute; done.
Qed.

Definition read_type (ty : Z) (raw : list Z) : Z :=
  if type_flag ty =? HANDLE_TYPE_8 then le_value raw
  else if type_flag ty =? HANDLE_TYPE_16 then wraps 16 (le_value raw) else i32 (le_value raw).

Lemma read_type_bytes ty :
  -2147483648 <= ty <= 2147483647 -> read_type ty (type_bytes ty) = if 0 <=? ty then ty else u8 ty.
Proof.
  intros Hty. unfold read_type, type_bytes, type_flag.
  destruct (Z.leb_spec ty 255).
  - simpl. rewrite Z.add_0_r. destruct (Z.leb_spec 0 ty); [|done]. rewrite wrapu_small; [done|]. unfold in_u. simpl. lia.
  - destruct (Z.leb_spec 0 ty); [|lia]. destruct (Z.leb_spec (-32768) ty); [|lia].
    destruct (Z.leb_spec ty 32767); cbn [andb Z.eqb HANDLE_TYPE_16 HANDLE_TYPE_8 HANDLE_TYPE_32 Pos.eqb].
    + rewrite wrapu_small by (unfold in_u; simpl; lia). rewrite (le_value_bytes 2) by (unfold in_u; simpl; lia).
      unfold wraps. rewrite wrapu_small by (unfold in_u; simpl; lia). cbv zeta.
      change (2 ^ (16 - 1)) with 32768. destruct (Z.ltb_spec ty 32768); lia.
    + rewrite wrapu_small by (unfold in_u; simpl; lia). rewrite (le_value_bytes 4) by (unfold in_u; simpl; lia).
      unfold wraps. rewrite wrapu_small by (unfold in_u; simpl; lia). cbv zeta.
      change (2 ^ (32 - 1)) with 2147483648. destruct (Z.ltb_spec ty 2147483648); lia.
Qed.

Lemma type_width ty : kind_width (type_flag ty) = Z.of_nat (length (type_bytes ty)).
Proof. unfold kind_width, type_flag, type_bytes. by destruct (ty <=? 255), ((ty <=? 32767) && (-32768 <=? ty)). Qed.

Lemma type_flag_pos ty : type_flag ty =? 0 = false.
Proof. unfold type_flag. by destruct (ty <=? 255), ((ty <=? 32767) && (-32768 <=? ty)). Qed.

Lemma sizeof_fsid_bound t : 0 <= sizeof_fsid t <= 16.
Proof. by destruct t. Qed.

Lemma type_bytes_bound ty : (1 <= length (type_bytes ty) <= 4)%nat.
Proof. unfold type_bytes. destruct (ty <=? 255), ((ty <=? 32767) && (-32768 <=? ty)); simpl; lia. Qed.

Section read.
Context (fs : fs_id) (ty : Z) (f : list Z) (fh : vfs_file_handle_t).
Hypothesis Hw : written (flags_of (fs_fsid_type fs) ty :: fsid_bytes fs ++ type_bytes ty ++ f) fh.

Lemma written_data : exists rest,
  handle_data fh = flags_of (fs_fsid_type fs) ty :: fsid_bytes fs ++ type_bytes ty ++ f ++ rest.
Proof using Hw. destruct Hw as (_ & _ & rest & Hd & _). exists rest. rewrite Hd. simpl. by rewrite <- !app_assoc. Qed.

Lemma written_length :
  handle_len fh = 1 + sizeof_fsid (fs_fsid_type fs) + Z.of_nat (length (type_bytes ty)) + Z.of_nat (length f) /\
  handle_len fh <= 59.
Proof using Hw.
  destruct Hw as (Hl & Hle & _). pose proof (length_fsid_bytes fs). unfold VFS_HANDLE_LEN in Hle.
  simpl in *. rewrite !length_app in *. lia.
Qed.

Lemma open_written :
  Z.of_nat (length f) <= VFS_MAX_HANDLE ->
  vfs_open_by_handle fs fh = Some (inr {| handle_type := read_type ty (type_bytes ty); f_handle := f |}).
Proof using Hw.
  intros Hf. destruct written_data as [rest Hd]. destruct written_length as [Hl Hle].
  pose proof (sizeof_fsid_bound (fs_fsid_type fs)). pose proof (type_bytes_bound ty).
  pose proof (length_fsid_bytes fs) as Hfl. destruct (flags_parts (fs_fsid_type fs) ty) as (F1 & _ & _).
  unfold vfs_open_by_handle. rewrite Hd. cbn [lookup list_lookup mbind option_bind].
  rewrite F1, type_flag_pos, type_width. rewrite (wrapu_small 8 (sizeof_fsid _ + 1)) by (unfold in_u; simpl; lia).
  rewrite (app_comm_cons _ _ (flags_of (fs_fsid_type fs) ty)).
  rewrite (load_at_middle _ (type_bytes ty) _ (Z.to_nat (sizeof_fsid (fs_fsid_type fs) + 1))) by (cbn [length]; lia).
  cbn [mbind option_bind]. rewrite (wrapu_small 8) by (unfold in_u; simpl; lia).
  replace (handle_len fh - (sizeof_fsid (fs_fsid_type fs) + 1 + Z.of_nat (length (type_bytes ty))))
    with (Z.of_nat (length f)) by lia.
  rewrite wrapu_small by (unfold in_u; simpl; lia).
  destruct (Z.ltb_spec VFS_MAX_HANDLE (Z.of_nat (length f))); [lia|].
  rewrite (app_assoc _ (type_bytes ty)), load_at_middle by (rewrite ?length_app; cbn [length]; lia).
  done.
Qed.

Lemma extract_written :
  fsid_ok (fs_fsid_type fs) (fs_fsid fs) ->
  vfs_extract_fsid fh = Some (0, Some (fs_fsid_type fs, sent_fsid (fs_fsid_type fs) (fs_fsid fs))).
Proof using Hw.
  intros Hok. destruct written_data as [rest Hd]. destruct written_length as [Hl Hle].
  destruct (flags_parts (fs_fsid_type fs) ty) as (_ & F2 & _).
  unfold vfs_extract_fsid. rewrite Hd. cbn [lookup list_lookup mbind option_bind]. rewrite F2. cbn [skipn]. rewrite drop_0.
  rewrite decode_fsid_bytes; [done|done|lia].
Qed.

Lemma dummy_written : vfs_is_dummy_handle fh = Some false.
Proof using Hw.
  destruct written_data as [rest Hd]. destruct (flags_parts (fs_fsid_type fs) ty) as (_ & _ & F3).
  unfold vfs_is_dummy_handle. rewrite Hd. cbn [lookup list_lookup mbind option_bind]. by rewrite F3.
Qed.

Lemma valid_written :
  vfs_valid_handle (take (Z.to_nat (handle_len fh)) (handle_data fh)) = Some (8 <=? Z.of_nat (length f)).
Proof using Hw.
  destruct Hw as (Hl & Hle & rest & Hd & Hr). destruct written_length as [Hl' _].
  destruct (flags_parts (fs_fsid_type fs) ty) as (F1 & F2 & F3).
  rewrite Hd, Hl, Nat2Z.id, take_app_length. unfold vfs_valid_handle. rewrite <- Hl, Hl'.
  destruct (Z.ltb_spec (Z.of_nat VFS_HANDLE_LEN) (1 + sizeof_fsid (fs_fsid_type fs) + Z.of_nat (length (type_bytes ty)) + Z.of_nat (length f)));
    [lia|].
  cbn [lookup list_lookup mbind option_bind]. rewrite F2, F3, F1, type_flag_pos, type_width. cbn [negb Z.eqb].
  f_equal. apply eq_bool_prop_intro. rewrite !Is_true_true, !Z.leb_le. unfold VFS_MIN_HANDLE_SIZE. lia.
Qed.

End read.

(** ** Properties *)

(** C35: handles round trip.  For every file system and every handle of the kernel,
    [vfs_map_name_to_handle_at] stays inside the handle and fails, with EOVERFLOW, exactly when the
    parts do not fit; else the handle gives back the kernel's handle (with its type, unless that is
    negative: then its low byte), the type and the fsid of the file system, which compare equal
    to those it was made of, is no dummy handle, and is accepted from the wire exactly when the
    kernel's handle has at least eight bytes. *)
Theorem vfs_handle_roundtrip fs ty f err fh0 :
  length (handle_data fh0) = VFS_HANDLE_LEN -> fsid_ok (fs_fsid_type fs) (fs_fsid fs) ->
  -2147483648 <= ty <= 2147483647 -> Z.of_nat (length f) <= VFS_MAX_HANDLE ->
  exists fh rc,
    vfs_map_name_to_handle_at (Some {| handle_type := ty; f_handle := f |}) fs err fh0 = Some (rc, fh) /\
    if 1 + sizeof_fsid (fs_fsid_type fs) + Z.of_nat (length (type_bytes ty)) + Z.of_nat (length f) <=? 59 then
      rc = (0, 0) /\
      vfs_open_by_handle fs fh = Some (inr {| handle_type := if 0 <=? ty then ty else u8 ty; f_handle := f |}) /\
      (exists fsid, vfs_extract_fsid fh = Some (0, Some (fs_fsid_type fs, fsid)) /\
         fsal_fs_compare_fsid (fs_fsid_type fs) fsid (fs_fsid_type fs) (fs_fsid fs) = 0) /\
      vfs_is_dummy_handle fh = Some false /\
      vfs_valid_handle (take (Z.to_nat (handle_len fh)) (handle_data fh)) = Some (8 <=? Z.of_nat (length f))
    else rc = (-1, EOVERFLOW).
Proof.
  intros Hd Hok Hty Hf. pose proof (sizeof_fsid_bound (fs_fsid_type fs)). pose proof (type_bytes_bound ty).
  pose proof (length_fsid_bytes fs) as Hfl.
  set (P := fun (rc : Z * Z) (fh : vfs_file_handle_t) =>
    if 1 + sizeof_fsid (fs_fsid_type fs) + Z.of_nat (length (type_bytes ty)) + Z.of_nat (length f) <=? 59
    then rc = (0, 0) /\ written (flags_of (fs_fsid_type fs) ty :: fsid_bytes fs ++ type_bytes ty ++ f) fh
    else rc = (-1, EOVERFLOW)).
  assert (wp (vfs_map_name_to_handle_at (Some {| handle_type := ty; f_handle := f |}) fs err) P fh0) as Hwp.
  { cbn [vfs_map_name_to_handle_at]. apply wp_bind, wp_put_header; [done|]. intros fh1 H1. cbn [negb].
    apply wp_bind. eapply wp_put_type; [done|unfold VFS_HANDLE_LEN; lia|]. intros fh2 H2.
    apply wp_bind, wp_gets. destruct H2 as (Hl2 & Hle2 & H2). unfold P. cbn [f_handle handle_type] in *.
    assert (handle_len fh2 = 1 + sizeof_fsid (fs_fsid_type fs) + Z.of_nat (length (type_bytes ty))) as Hlen
      by (rewrite Hl2; cbn [length]; rewrite length_app; lia).
    rewrite Hlen. unfold VFS_HANDLE_LEN.
    destruct (Z.ltb_spec (Z.of_nat 59) (1 + sizeof_fsid (fs_fsid_type fs) + Z.of_nat (length (type_bytes ty)) + Z.of_nat (length f)));
    destruct (Z.leb_spec (1 + sizeof_fsid (fs_fsid_type fs) + Z.of_nat (length (type_bytes ty)) + Z.of_nat (length f)) 59); try lia.
    - by apply wp_ret.
    - apply wp_bind. eapply wp_append_bytes; [done| |].
      + unfold VFS_HANDLE_LEN. cbn [length]. rewrite length_app. lia.
      + intros fh3 Hw3. apply wp_ret. split; [done|]. cbn in Hw3. by rewrite <- app_assoc in Hw3. }
  unfold wp in Hwp. destruct (vfs_map_name_to_handle_at _ fs err fh0) as [[rc fh]|]; [|done]. exists fh, rc.
  split; [done|]. unfold P in Hwp. destruct (_ <=? 59); [|done]. destruct Hwp as [-> Hw]. split; [done|].
  split; [by rewrite (open_written fs ty f fh Hw), read_type_bytes|].
  split; [eexists; split; [by apply (extract_written fs ty f)|by apply sent_fsid_same]|].
  split; [by apply (dummy_written fs ty f)|by apply (valid_written fs ty f)].
Qed.

Definition two_words : fs_id := {| fs_fsid_type := FSID_TWO_UINT32; fs_fsid := {| fsid_major := 3; fsid_minor := 70000 |} |}.
Definition blank_handle : vfs_file_handle_t := received [].

Lemma vfs_handle_roundtrip_witness :
  exists fh, vfs_map_name_to_handle_at (Some {| handle_type := 1; f_handle := replicate 12 7 |}) two_words 0 blank_handle
             = Some ((0, 0), fh) /\
    vfs_open_by_handle two_words fh = Some (inr {| handle_type := 1; f_handle := replicate 12 7 |}).
Proof.
  destruct (vfs_handle_roundtrip two_words 1 (replicate 12 7) 0 blank_handle) as (fh & rc & Hrun & Hpost).
  - reflexivity.
  - split; split; simpl; lia.
  - lia.
  - vm_compute. discriminate.
  - cbn in Hpost. destruct Hpost as (-> & Hopen & _). exists fh. by split.
Defined.

Lemma load_at_fits off n (l : list Z) : (off + n <= length l)%nat -> exists bs, load_at off n l = Some bs.
Proof. intros Hl. unfold load_at. rewrite bool_decide_true by done. eauto. Qed.

Lemma decode_fsid_fits buf max t :
  sizeof_fsid t <= max -> (16 <= length buf)%nat -> exists fsid, decode_fsid buf max t = Some (Some fsid).
Proof.
  intros Hm Hl. unfold decode_fsid. destruct (Z.ltb_spec max (sizeof_fsid t)); [lia|].
  destruct (load_at_fits 0 8 buf) as [a Ha]; [lia|]. destruct (load_at_fits 8 8 buf) as [b Hb]; [lia|].
  destruct (load_at_fits 0 4 buf) as [c Hc]; [lia|]. destruct (load_at_fits 4 4 buf) as [d Hd]; [lia|].
  destruct t; rewrite ?Ha, ?Hb, ?Hc, ?Hd; cbn; eauto.
Qed.

Lemma kind_width_bound k : 1 <= kind_width k <= 4.
Proof. unfold kind_width. repeat case_match; lia. Qed.

Lemma received_data desc b :
  (length desc <= VFS_HANDLE_LEN)%nat -> desc !! 0%nat = Some b ->
  length (handle_data (received desc)) = VFS_HANDLE_LEN /\ handle_data (received desc) !! 0%nat = Some b /\
  handle_len (received desc) = Z.of_nat (length desc).
Proof.
  unfold VFS_HANDLE_LEN. intros Hlen Hb. cbn. split; [|split].
  - rewrite length_app, length_replicate. unfold VFS_HANDLE_LEN. lia.
  - by rewrite lookup_app_l by (by eapply lookup_lt_Some).
  - rewrite wrapu_small; [done|]. unfold in_u. simpl. lia.
Qed.

(** Opening a handle whose fsid and type are inside: what is copied is the rest, with its length
    in 32 bits. *)
Lemma open_defined fs fh b n :
  length (handle_data fh) = VFS_HANDLE_LEN -> handle_data fh !! 0%nat = Some b ->
  handle_len fh = Z.of_nat n -> (n <= VFS_HANDLE_LEN)%nat ->
  let kind := Z.land b HANDLE_TYPE_MASK in
  let rest := Z.of_nat n - (1 + sizeof_fsid (fs_fsid_type fs) + kind_width kind) in
  vfs_open_by_handle fs fh = None <-> kind <> 0 /\ (rest < 0 \/ VFS_MAX_HANDLE < rest).
Proof.
  unfold VFS_HANDLE_LEN. intros Hdata Hb0 Hl Hn. cbv zeta.
  pose proof (sizeof_fsid_bound (fs_fsid_type fs)) as Hsz.
  unfold vfs_open_by_handle. rewrite Hb0, Hl. cbn [mbind option_bind].
  set (kind := Z.land b HANDLE_TYPE_MASK). pose proof (kind_width_bound kind) as Hw.
  destruct (Z.eqb_spec kind 0) as [Hk|Hk]; [by split; [done|intros [? _]]|].
  rewrite (wrapu_small 8 (sizeof_fsid _ + 1)) by (unfold in_u; simpl; lia).
  rewrite (wrapu_small 8) by (unfold in_u; simpl; lia).
  destruct (load_at_fits (Z.to_nat (sizeof_fsid (fs_fsid_type fs) + 1)) (Z.to_nat (kind_width kind)) (handle_data fh))
    as [raw Hraw]; [lia|]. rewrite Hraw. cbn [mbind option_bind].
  replace (Z.of_nat n - (1 + sizeof_fsid (fs_fsid_type fs) + kind_width kind))
    with (Z.of_nat n - (sizeof_fsid (fs_fsid_type fs) + 1 + kind_width kind)) by lia.
  set (rest := Z.of_nat n - (sizeof_fsid (fs_fsid_type fs) + 1 + kind_width kind)).
  assert (-21 <= rest <= 59) as Hrest by lia.
  destruct (decide (rest < 0)) as [Hneg|Hpos].
  - unfold wrapu. change (2 ^ 32) with 4294967296.
    replace (rest mod 4294967296) with (rest + 4294967296) by (apply Z.mod_unique_pos with (-1); lia).
    destruct (Z.ltb_spec VFS_MAX_HANDLE (rest + 4294967296)) as [|Hx]; [|unfold VFS_MAX_HANDLE in Hx; lia].
    split; [by auto|done].
  - rewrite wrapu_small by (unfold in_u; simpl; lia).
    destruct (Z.ltb_spec VFS_MAX_HANDLE rest); [by split; auto|].
    destruct (load_at_fits (Z.to_nat (sizeof_fsid (fs_fsid_type fs) + 1 + kind_width kind)) (Z.to_nat rest) (handle_data fh))
      as [f Hf']; [lia|]. rewrite Hf'. cbn. split; [done|lia].
Qed.

(** C36: what is accepted from the wire.  A handle that passes [vfs_valid_handle] has an fsid that
    [vfs_extract_fsid] reads inside the handle.  Opened on a file system with an fsid of the type
    in the handle, it makes [vfs_open_by_handle] leave its buffers in exactly two cases: the handle
    is no dummy, and what follows the type is longer than [VFS_MAX_HANDLE], the buffer for the
    kernel's handle; or it is a dummy handle that carries the bits of a handle type all the same,
    where the length of what follows the type is negative and wraps around. *)
Theorem vfs_valid_handle_bounds desc b :
  vfs_valid_handle desc = Some true -> desc !! 0%nat = Some b ->
  let kind := Z.land b HANDLE_TYPE_MASK in
  exists t fsid dummy, vfs_extract_fsid (received desc) = Some (0, Some (t, fsid)) /\
    vfs_is_dummy_handle (received desc) = Some dummy /\
    forall fs, fs_fsid_type fs = t ->
      (vfs_open_by_handle fs (received desc) = None <->
       if dummy then kind <> 0
       else VFS_MAX_HANDLE < Z.of_nat (length desc) - (1 + sizeof_fsid t + kind_width kind)).
Proof.
  intros Hv Hb. cbv zeta. unfold vfs_valid_handle in Hv.
  destruct (Z.ltb_spec (Z.of_nat VFS_HANDLE_LEN) (Z.of_nat (length desc))) as [|Hlen]; [done|].
  rewrite Hb in Hv. cbn [mbind option_bind] in Hv. destruct (fsid_of_num _) as [t|] eqn:Ht; [|done].
  pose proof (sizeof_fsid_bound t) as Hsz. set (kind := Z.land b HANDLE_TYPE_MASK) in *.
  pose proof (kind_width_bound kind) as Hw.
  destruct (received_data desc b) as (Hdata & Hb0 & Hl); [lia|done|].
  generalize dependent (received desc). intros fh Hdata Hb0 Hl.
  set (rest := Z.of_nat (length desc) - (1 + sizeof_fsid t + kind_width kind)).
  set (dummy := negb (Z.land b HANDLE_DUMMY =? 0)) in *.
  assert (1 + sizeof_fsid t <= Z.of_nat (length desc) /\ (dummy = true -> rest < 0) /\
    (dummy = false -> kind <> 0 /\ 0 <= rest)) as (Hfit & Hd & Hnd).
  { unfold rest. destruct dummy; simplify_eq/=; [apply Z.eqb_eq in Hv; lia|].
    destruct (Z.eqb_spec kind 0); simplify_eq/=. apply Z.leb_le in Hv. unfold VFS_MIN_HANDLE_SIZE in *. lia. }
  unfold VFS_HANDLE_LEN in Hlen, Hdata.
  destruct (decode_fsid_fits (drop 1 (handle_data fh)) (Z.of_nat (length desc) - 1) t) as [fsid Hf];
    [lia|rewrite length_drop; lia|].
  exists t, fsid, dummy. split; [|split].
  - unfold vfs_extract_fsid. rewrite Hb0. cbn [mbind option_bind]. by rewrite Ht, Hl, Hf.
  - unfold vfs_is_dummy_handle. by rewrite Hb0.
  - intros fs <-. rewrite (open_defined fs fh b (length desc)) by (done || (unfold VFS_HANDLE_LEN; lia)).
    fold kind rest. destruct dummy; [|destruct (Hnd eq_refl)]; intuition lia.
Qed.

(** The largest handle with an fsid of eight bytes and a type of one: 49 bytes are copied to a
    buffer of 48. *)
Definition forged : list Z := 65 :: replicate 58 1.

(** A dummy handle of no fsid with the bits of a type: nothing is left behind the type, and
    [handle_bytes] is 2^32 - 1. *)
Definition forged_dummy : list Z := [Z.lor HANDLE_DUMMY HANDLE_TYPE_8].

Lemma vfs_valid_handle_bounds_witness :
  (exists fs, vfs_open_by_handle fs (received forged) = None) /\
  exists fs, vfs_open_by_handle fs (received forged_dummy) = None.
Proof.
  split.
  - destruct (vfs_valid_handle_bounds forged 65) as (t & fsid & dummy & Hx & Hd & Ho).
    + vm_compute. reflexivity.
    + reflexivity.
    + exists {| fs_fsid_type := t; fs_fsid := fsid |}. apply Ho; [reflexivity|].
      vm_compute in Hx, Hd. injection Hx as <- _. injection Hd as <-. vm_compute. reflexivity.
  - destruct (vfs_valid_handle_bounds forged_dummy (Z.lor HANDLE_DUMMY HANDLE_TYPE_8)) as (t & fsid & dummy & Hx & Hd & Ho).
    + vm_compute. reflexivity.
    + reflexivity.
    + exists {| fs_fsid_type := t; fs_fsid := fsid |}. apply Ho; [reflexivity|].
      vm_compute in Hd. injection Hd as <-. vm_compute. discriminate.
Defined.
