(* ===== verification/FsIndex.v ===== *)
(** * The index of file systems by fsid

    [FSAL/localfs.c]: the AVL tree that finds the file system of a handle, and the functions
    that change the fsid of a file system.  The tree is the list of its nodes in order; its
    search and its insertion compare with the nodes from the left and stop at the first one
    that is not smaller, so they find what is there as long as the list is sorted. *)
From S2P Require Import Prelude VfsHandle.
Local Open Scope Z_scope.

(** The fields of [struct fsal_filesystem] the index works on. *)
Record fsal_filesystem : Set := {
  ff_fsid_type : fsid_type;
  ff_fsid : fsal_fsid__;
  ff_dev_major : Z;
  ff_dev_minor : Z;
  ff_in_fsid_avl : bool
}.

Record fs_world : Set := { fw_fs : gmap positive fsal_filesystem; fw_avl : list positive }.
Abbreviation FM := (M fs_world).

Definition EEXIST : Z := 17.

Definition set_fs (p : positive) (fs : fsal_filesystem) (w : fs_world) : fs_world :=
  {| fw_fs := <[p := fs]> (fw_fs w); fw_avl := fw_avl w |}.
Definition set_avl (l : list positive) (w : fs_world) : fs_world := {| fw_fs := fw_fs w; fw_avl := l |}.

Definition with_fsid (t : fsid_type) (f : fsal_fsid__) (fs : fsal_filesystem) : fsal_filesystem :=
  {| ff_fsid_type := t; ff_fsid := f; ff_dev_major := ff_dev_major fs; ff_dev_minor := ff_dev_minor fs;
     ff_in_fsid_avl := ff_in_fsid_avl fs |}.
Definition with_in_avl (b : bool) (fs : fsal_filesystem) : fsal_filesystem :=
  {| ff_fsid_type := ff_fsid_type fs; ff_fsid := ff_fsid fs; ff_dev_major := ff_dev_major fs;
     ff_dev_minor := ff_dev_minor fs; ff_in_fsid_avl := b |}.

Definition get_fs (p : positive) : FM fsal_filesystem :=
  fun w => match fw_fs w !! p with Some fs => Some (fs, w) | None => None end.

Definition fsal_fs_cmpf_fsid (t : fsid_type) (f : fsal_fsid__) (fs : fsal_filesystem) : Z :=
  fsal_fs_compare_fsid t f (ff_fsid_type fs) (ff_fsid fs).

Fixpoint avl_search (m : gmap positive fsal_filesystem) (t : fsid_type) (f : fsal_fsid__) (l : list positive) :
    option positive :=
  match l with
  | [] => None
  | p :: l' =>
      match m !! p with
      | None => None
      | Some fs =>
          let c := fsal_fs_cmpf_fsid t f fs in
          if c =? 0 then Some p else if c <? 0 then None else avl_search m t f l'
      end
  end.
Fixpoint avl_place (m : gmap positive fsal_filesystem) (t : fsid_type) (f : fsal_fsid__) (n : positive)
    (l : list positive) : list positive :=
  match l with
  | [] => [n]
  | p :: l' =>
      match m !! p with
      | None => n :: l
      | Some fs => if fsal_fs_cmpf_fsid t f fs <? 0 then n :: l else p :: avl_place m t f n l'
      end
  end.

(** The node that was there already, if any. *)
Definition avltree_insert (p : positive) : FM (option positive) :=
  fs ← get_fs p;
  w ← gets id;
  match avl_search (fw_fs w) (ff_fsid_type fs) (ff_fsid fs) (fw_avl w) with
  | Some q => mret (Some q)
  | None => modify (set_avl (avl_place (fw_fs w) (ff_fsid_type fs) (ff_fsid fs) p (fw_avl w)));; mret None
  end.
Definition avltree_remove (p : positive) : FM unit :=
  l ← gets fw_avl; modify (set_avl (remove_id p l)).

Definition lookup_fsid_locked (f : fsal_fsid__) (t : fsid_type) : FM (option positive) :=
  gets (fun w => avl_search (fw_fs w) t f (fw_avl w)).

Definition re_index_fs_fsid (p : positive) (t : fsid_type) (f : fsal_fsid__) : FM Z :=
  old ← get_fs p;
  if decide (t = FSID_NO_TYPE) then mret (- EINVAL) else
  mwhen (ff_in_fsid_avl old) (avltree_remove p);;
  modify (set_fs p (with_fsid t f old));;
  node ← avltree_insert p;
  match node with
  | Some _ =>
      modify (set_fs p old);;
      mwhen (ff_in_fsid_avl old)
        (node ← avltree_insert p; match node with Some _ => undef | None => mret tt end);;
      mret (- EEXIST)
  | None =>
      modify (set_fs p (with_in_avl true (with_fsid t f old)));;
      mret 0
  end.

Definition MASK_32 : Z := UINT32_MAX.
Definition squash_fsid (f : fsal_fsid__) : Z :=
  Z.lxor (fsid_major f) (Z.lor (u64 (Z.shiftl (fsid_minor f) 32)) (Z.shiftr (fsid_minor f) 32)).
Definition fold_32 (x : Z) : Z := Z.lxor (Z.land x MASK_32) (Z.shiftr x 32).

(** The new fsid that [change_fsid_type] computes, where it has a conversion; the conversion to
    [FSID_DEVICE] runs into the one to [FSID_TWO_UINT32]. *)
Definition converted_fsid (fs : fsal_filesystem) (t : fsid_type) : option fsal_fsid__ :=
  let f := ff_fsid fs in
  let two_uint32 (o : option fsal_fsid__) :=
    match ff_fsid_type fs with
    | FSID_TWO_UINT64 => Some {| fsid_major := fold_32 (fsid_major f); fsid_minor := fold_32 (fsid_minor f) |}
    | FSID_ONE_UINT64 => Some {| fsid_major := Z.shiftr (fsid_major f) 32; fsid_minor := Z.land (fsid_major f) MASK_32 |}
    | _ => o
    end in
  match t with
  | FSID_ONE_UINT64 =>
      match ff_fsid_type fs with
      | FSID_TWO_UINT64 => Some {| fsid_major := squash_fsid f; fsid_minor := 0 |}
      | FSID_TWO_UINT32 =>
          Some {| fsid_major := Z.lor (u64 (Z.shiftl (fsid_major f) 32)) (fsid_minor f); fsid_minor := 0 |}
      | _ => None
      end
  | FSID_MAJOR_64 => Some f
  | FSID_TWO_UINT64 => if decide (ff_fsid_type fs = FSID_MAJOR_64) then Some f else None
  | FSID_DEVICE => two_uint32 (Some {| fsid_major := ff_dev_major fs; fsid_minor := ff_dev_minor fs |})
  | FSID_TWO_UINT32 => two_uint32 None
  | FSID_NO_TYPE => None
  end.

(** Types that become [FSID_TWO_UINT64] as they are, without a change of the index. *)
Definition changes_in_place (fs : fsal_filesystem) (t : fsid_type) : bool :=
  bool_decide (t = FSID_TWO_UINT64) && bool_decide (ff_fsid_type fs <> FSID_MAJOR_64).

Definition change_fsid_type (p : positive) (t : fsid_type) : FM Z :=
  fs ← get_fs p;
  if decide (ff_fsid_type fs = t) then mret 0 else
  if changes_in_place fs t then modify (set_fs p (with_fsid t (ff_fsid fs) fs));; mret 0 else
  match converted_fsid fs t with
  | None => mret (- EINVAL)
  | Some f => re_index_fs_fsid p t f
  end.

(** ** Order *)

(** Keys as the comparison sees them. *)
Definition key (t : fsid_type) (f : fsal_fsid__) : Z * Z * Z :=
  (fsid_num t, fsid_major f, if decide (t = FSID_MAJOR_64) then 0 else fsid_minor f).
Definition lex (a b : Z * Z * Z) : Z :=
  let '(a1, a2, a3) := a in let '(b1, b2, b3) := b in
  if a1 <? b1 then -1 else if b1 <? a1 then 1 else if a2 <? b2 then -1 else if b2 <? a2 then 1
  else if a3 <? b3 then -1 else if b3 <? a3 then 1 else 0.

Lemma fsid_num_inj t u : fsid_num t = fsid_num u -> t = u.
Proof. by destruct t, u. Qed.

Lemma compare_lex t f u g : fsal_fs_compare_fsid t f u g = lex (key t f) (key u g).
Proof.
  unfold fsal_fs_compare_fsid, lex, key.
  destruct (Z.ltb_spec (fsid_num t) (fsid_num u)); [done|]. destruct (Z.ltb_spec (fsid_num u) (fsid_num t)); [done|].
  assert (t = u) as -> by (apply fsid_num_inj; lia). destruct (decide (u = FSID_MAJOR_64)); [|done].
  by rewrite Z.ltb_irrefl.
Qed.

Ltac lex_cases :=
  repeat match goal with x : (Z * Z * Z)%type |- _ => destruct x as [[? ?] ?] end; unfold lex in *;
  repeat match goal with
         | H : context [?x <? ?y] |- _ => destruct (Z.ltb_spec x y)
         | |- context [?x <? ?y] => destruct (Z.ltb_spec x y)
         end; try lia; try done.

Lemma lex_eq a b : lex a b = 0 <-> a = b.
Proof. split; [|intros ->]; lex_cases. intros _. do 2 f_equal; lia. Qed.

Lemma lex_sym a b : lex a b = - lex b a.
Proof. lex_cases. Qed.

Lemma lex_trans a b c : lex a b < 0 -> lex b c < 0 -> lex a c < 0.
Proof. lex_cases. Qed.

(** ** The list of nodes *)

Abbreviation fsmap := (gmap positive fsal_filesystem).
Definition fkey (fs : fsal_filesystem) : Z * Z * Z := key (ff_fsid_type fs) (ff_fsid fs).

Lemma cmpf_lex t f fs : fsal_fs_cmpf_fsid t f fs = lex (key t f) (fkey fs).
Proof. apply compare_lex. Qed.

(** The nodes are file systems, in the order of their keys. *)
Definition before (m : fsmap) (p q : positive) : Prop :=
  exists fs gs, m !! p = Some fs /\ m !! q = Some gs /\ lex (fkey fs) (fkey gs) < 0.
Definition ordered (m : fsmap) (l : list positive) : Prop :=
  StronglySorted (before m) l /\ Forall (fun p => is_Some (m !! p)) l.

Lemma ordered_cons m p l : ordered m (p :: l) <-> ordered m l /\ Forall (before m p) l /\ is_Some (m !! p).
Proof.
  unfold ordered. rewrite Forall_cons. split.
  - intros [Hs [Hp Hf]]. by apply StronglySorted_inv in Hs as [].
  - intros ([Hs Hf] & Hb & Hp). split; [by constructor|done].
Qed.

(** A node whose key is not asked for may change. *)
Lemma ordered_update m p fs l : p ∉ l -> ordered m l -> ordered (<[p := fs]> m) l.
Proof.
  induction l as [|q l IH]; [by intros _ _; split; constructor|]. rewrite not_elem_of_cons, !ordered_cons.
  intros [Hq Hl] (Ho & Hb & [gs Hgs]). split; [by apply IH|]. split; [|by rewrite lookup_insert_ne].
  apply Forall_forall. intros x Hx. rewrite Forall_forall in Hb. destruct (Hb x Hx) as (a & b & Ha & Hb' & Hlt).
  exists a, b. rewrite !lookup_insert_ne by (intros ->; done). done.
Qed.

Lemma ordered_before m p l fs q gs :
  ordered m (p :: l) -> m !! p = Some fs -> q ∈ l -> m !! q = Some gs -> lex (fkey fs) (fkey gs) < 0.
Proof.
  rewrite ordered_cons, !Forall_forall. intros (_ & Hb & _) Hp Hq Hgs.
  destruct (Hb q Hq) as (a & b & Ha & Hb' & Hlt). by simplify_eq.
Qed.

Lemma search_Some m t f l p :
  avl_search m t f l = Some p -> p ∈ l /\ exists fs, m !! p = Some fs /\ fkey fs = key t f.
Proof.
  induction l as [|q l IH]; simpl; [done|]. destruct (m !! q) as [fs|] eqn:Hq; [|done]. rewrite cmpf_lex.
  destruct (Z.eqb_spec (lex (key t f) (fkey fs)) 0) as [He|He].
  - intros [= <-]. split; [by left|]. exists fs. split; [done|]. symmetry. by apply lex_eq.
  - destruct (_ <? 0); [done|]. intros (Hin & Hfs)%IH. split; [by right|done].
Qed.

Lemma search_complete m t f l p fs :
  ordered m l -> p ∈ l -> m !! p = Some fs -> fkey fs = key t f -> avl_search m t f l = Some p.
Proof.
  induction l as [|q l IH]; intros Ho Hin Hfs Hk; [by apply elem_of_nil in Hin|]. simpl.
  pose proof (proj1 (ordered_cons _ _ _) Ho) as (Ho' & Hb & [gs Hgs]). rewrite Hgs, cmpf_lex, <- Hk.
  apply elem_of_cons in Hin as [->|Hin].
  - simplify_eq. by rewrite (proj2 (lex_eq _ _) eq_refl).
  - pose proof (ordered_before _ _ _ _ _ _ Ho Hgs Hin Hfs) as Hlt. rewrite lex_sym in Hlt.
    destruct (Z.eqb_spec (lex (fkey fs) (fkey gs)) 0); [lia|].
    destruct (Z.ltb_spec (lex (fkey fs) (fkey gs)) 0); [lia|]. by apply IH.
Qed.

Lemma elem_of_place m t f n l x : x ∈ avl_place m t f n l <-> x = n \/ x ∈ l.
Proof.
  induction l as [|q l IH]; simpl; [rewrite elem_of_cons; done|]. destruct (m !! q); [|rewrite elem_of_cons; done].
  destruct (_ <? 0); rewrite !elem_of_cons; [done|]. rewrite IH. naive_solver.
Qed.

Lemma place_ordered m t f n fs l :
  ordered m l -> avl_search m t f l = None -> m !! n = Some fs -> fkey fs = key t f ->
  ordered m (avl_place m t f n l).
Proof.
  induction l as [|q l IH]; intros Ho Hs Hn Hk; simpl.
  { rewrite ordered_cons. split; [done|]. split; [constructor|eauto]. }
  pose proof (proj1 (ordered_cons _ _ _) Ho) as (Ho' & Hb & [gs Hgs]). simpl in Hs.
  rewrite Hgs, cmpf_lex in Hs |- *. destruct (Z.eqb_spec (lex (key t f) (fkey gs)) 0) as [|Hne]; [done|].
  destruct (Z.ltb_spec (lex (key t f) (fkey gs)) 0) as [Hlt|Hge].
  - rewrite ordered_cons. split; [done|]. split; [|eauto]. apply Forall_forall. intros x [->|Hx]%elem_of_cons.
    + exists fs, gs. by rewrite Hk.
    + rewrite Forall_forall in Hb. destruct (Hb x Hx) as (a & b & Ha & Hb' & Hab). simplify_eq.
      exists fs, b. rewrite Hk. split; [done|]. split; [done|]. by eapply lex_trans.
  - rewrite ordered_cons. split; [by apply IH|]. split; [|eauto]. apply Forall_forall.
    intros x [->|Hx]%elem_of_place; [|by rewrite Forall_forall in Hb; apply Hb].
    exists gs, fs. rewrite Hk, lex_sym. split; [done|]. split; [done|]. lia.
Qed.

Lemma ordered_remove m p l : ordered m l -> ordered m (remove_id p l).
Proof.
  induction l as [|q l IH]; [done|]. rewrite ordered_cons. intros (Ho & Hb & Hq).
  unfold remove_id in *. rewrite filter_cons. case_decide; [|by apply IH].
  rewrite ordered_cons. split; [by apply IH|]. split; [|done]. rewrite Forall_forall in *.
  intros x [_ Hx]%list_elem_of_filter. by apply Hb.
Qed.

(** A node that was taken out goes back to its place. *)
Lemma place_back m p fs l :
  ordered m l -> p ∈ l -> m !! p = Some fs ->
  avl_search m (ff_fsid_type fs) (ff_fsid fs) (remove_id p l) = None /\
  avl_place m (ff_fsid_type fs) (ff_fsid fs) p (remove_id p l) = l.
Proof.
  induction l as [|q l IH]; intros Ho Hin Hfs; [by apply elem_of_nil in Hin|].
  pose proof (proj1 (ordered_cons _ _ _) Ho) as (Ho' & Hb & [gs Hgs]).
  destruct (decide (q = p)) as [->|Hne].
  - assert (p ∉ l) as Hnin.
    { intros Hl. pose proof (ordered_before _ _ _ _ _ _ Ho Hfs Hl Hfs) as Hx.
      rewrite (proj2 (lex_eq _ _) eq_refl) in Hx. lia. }
    unfold remove_id. rewrite filter_cons_False by naive_solver. fold (remove_id p l).
    rewrite remove_id_not_in by done. destruct l as [|x l]; [done|]. simpl.
    apply ordered_cons in Ho' as (_ & _ & [xs Hxs]). rewrite Hxs, cmpf_lex.
    pose proof (ordered_before _ _ _ _ _ _ Ho Hfs ltac:(left) Hxs) as Hlt. fold (fkey fs).
    destruct (Z.eqb_spec (lex (fkey fs) (fkey xs)) 0); [lia|].
    destruct (Z.ltb_spec (lex (fkey fs) (fkey xs)) 0); [done|lia].
  - apply elem_of_cons in Hin as [|Hin]; [done|]. destruct (IH Ho' Hin Hfs) as [IH1 IH2].
    unfold remove_id. rewrite filter_cons_True by naive_solver. fold (remove_id p l). simpl. rewrite Hgs, cmpf_lex.
    pose proof (ordered_before _ _ _ _ _ _ Ho Hgs Hin Hfs) as Hlt. rewrite lex_sym in Hlt. fold (fkey fs).
    destruct (Z.eqb_spec (lex (fkey fs) (fkey gs)) 0); [lia|].
    destruct (Z.ltb_spec (lex (fkey fs) (fkey gs)) 0); [lia|]. by rewrite IH1, IH2.
Qed.

(** ** The invariant of the index *)

Record index_ok (w : fs_world) : Prop := {
  io_ordered : ordered (fw_fs w) (fw_avl w);
  io_flag p fs : fw_fs w !! p = Some fs -> (p ∈ fw_avl w <-> ff_in_fsid_avl fs = true)
}.

Lemma search_update m p fs t f l : p ∉ l -> avl_search (<[p := fs]> m) t f l = avl_search m t f l.
Proof.
  induction l as [|q l IH]; simpl; [done|]. rewrite not_elem_of_cons. intros [Hq Hl].
  rewrite lookup_insert_ne by done. destruct (m !! q); [|done]. repeat case_match; auto.
Qed.

Lemma place_update m p fs t f n l : p ∉ l -> avl_place (<[p := fs]> m) t f n l = avl_place m t f n l.
Proof.
  induction l as [|q l IH]; simpl; [done|]. rewrite not_elem_of_cons. intros [Hq Hl].
  rewrite lookup_insert_ne by done. destruct (m !! q); [|done]. case_match; [done|]. f_equal. auto.
Qed.

Lemma wp_avltree_insert p fs (Q : option positive -> fs_world -> Prop) w :
  fw_fs w !! p = Some fs ->
  match avl_search (fw_fs w) (ff_fsid_type fs) (ff_fsid fs) (fw_avl w) with
  | Some q => Q (Some q) w
  | None => Q None (set_avl (avl_place (fw_fs w) (ff_fsid_type fs) (ff_fsid fs) p (fw_avl w)) w)
  end -> wp (avltree_insert p) Q w.
Proof.
  intros Hp HQ. unfold avltree_insert. apply wp_bind. unfold wp at 1, get_fs. rewrite Hp.
  apply wp_bind, wp_gets. cbn [id]. destruct (avl_search _ _ _ _); [by apply wp_ret|].
  by apply wp_bind, wp_modify, wp_ret.
Qed.

(** What becomes of the index when the fsid of [p] is to be [f], of type [t]. *)
Definition re_index_post p (t : fsid_type) (f : fsal_fsid__) (w : fs_world) (rc : Z) (w' : fs_world) : Prop :=
  (rc = 0 /\ t <> FSID_NO_TYPE /\ index_ok w' /\ avl_search (fw_fs w') t f (fw_avl w') = Some p /\
     forall q, q <> p -> fw_fs w' !! q = fw_fs w !! q /\ (q ∈ fw_avl w' <-> q ∈ fw_avl w)) \/
  (w' = w /\ (rc = - EINVAL /\ t = FSID_NO_TYPE \/
     rc = - EEXIST /\ exists q gs, q <> p /\ q ∈ fw_avl w /\ fw_fs w !! q = Some gs /\ fkey gs = key t f)).

Lemma wp_re_index p t f old (Q : Z -> fs_world -> Prop) w :
  index_ok w -> fw_fs w !! p = Some old ->
  (forall rc w', re_index_post p t f w rc w' -> Q rc w') -> wp (re_index_fs_fsid p t f) Q w.
Proof.
  intros Hok Hp HQ. unfold re_index_fs_fsid. apply wp_bind. unfold wp at 1, get_fs. rewrite Hp.
  case_decide as Ht; [apply wp_ret, HQ; right; auto|].
  destruct w as [m l]. destruct Hok as [Ho Hflag]. cbn [fw_fs fw_avl] in *. pose proof (Hflag p old Hp) as Hpin.
  apply wp_bind. apply (wp_mono _ (fun _ w1 => w1 = {| fw_fs := m; fw_avl := remove_id p l |})).
  { unfold mwhen. destruct (ff_in_fsid_avl old) eqn:Hin; [by apply wp_bind, wp_gets, wp_modify|].
    apply wp_ret. rewrite remove_id_not_in; [done|]. intros Hx. naive_solver. }
  intros [] w1 ->. apply wp_bind, wp_modify. set (l0 := remove_id p l).
  assert (p ∉ l0) as Hnin by (unfold l0; rewrite elem_of_remove_id; naive_solver).
  assert (ordered m l0) as Ho0 by (by apply ordered_remove).
  apply wp_bind. eapply wp_avltree_insert; [cbn; apply lookup_insert_eq|].
  cbn [fw_fs fw_avl set_fs with_fsid ff_fsid_type ff_fsid]. rewrite search_update by done.
  destruct (avl_search m t f l0) as [q|] eqn:Hs.
  - apply search_Some in Hs as (Hq & gs & Hgs & Hk). apply wp_bind, wp_modify.
    assert (set_fs p old (set_fs p (with_fsid t f old) {| fw_fs := m; fw_avl := l0 |}) = {| fw_fs := m; fw_avl := l0 |}) as ->.
    { unfold set_fs. cbn. by rewrite insert_insert_eq, insert_id. }
    assert (Q (- EEXIST) {| fw_fs := m; fw_avl := l |}) as HQ'.
    { apply HQ. right. split; [done|]. right. split; [done|]. exists q, gs.
      unfold l0 in Hq. apply elem_of_remove_id in Hq as [Hq Hne]. done. }
    apply wp_bind. unfold mwhen. destruct (ff_in_fsid_avl old) eqn:Hin.
    + destruct (place_back m p old l Ho (proj2 Hpin eq_refl) Hp) as [H1 H2].
      apply wp_bind. eapply wp_avltree_insert; [done|]. cbn [fw_fs fw_avl]. unfold l0. rewrite H1, H2.
      by apply wp_ret, wp_ret.
    + apply wp_ret, wp_ret. unfold l0. rewrite remove_id_not_in; [done|]. intros Hx. naive_solver.
  - apply wp_bind, wp_modify, wp_ret, HQ. left. unfold set_fs, set_avl. cbn [fw_fs fw_avl].
    rewrite insert_insert_eq, place_update by done. set (new := with_in_avl true (with_fsid t f old)).
    assert (ordered (<[p := new]> m) (avl_place m t f p l0)) as Hnew.
    { rewrite <- (place_update m p new) by done.
      eapply place_ordered; [by apply ordered_update|by rewrite search_update|apply lookup_insert_eq|done]. }
    split; [done|]. split; [done|]. split; [|split].
    + split; [done|]. cbn [fw_fs fw_avl]. intros q fs. rewrite lookup_insert, elem_of_place. unfold l0. rewrite elem_of_remove_id.
      case_decide; [intros [= <-]; subst q; naive_solver|]. intros Hq. rewrite <- (Hflag q fs Hq). naive_solver.
    + eapply search_complete; [done|apply elem_of_place; by left|apply lookup_insert_eq|done].
    + intros q Hq. rewrite lookup_insert_ne by done. split; [done|]. rewrite elem_of_place. unfold l0. rewrite elem_of_remove_id. naive_solver.
Qed.

(** C37: the index of file systems.  With the index in order, a change of the type of an fsid returns and
    either finds nothing to do, or gives the file system the converted fsid under which the index,
    still in order, now finds it, all other file systems as before, or fails and leaves everything as
    it was: because there is no such conversion, or because another file system of the index has that
    fsid.  Left out are the changes to [FSID_TWO_UINT64] that do not go through the index. *)
Theorem change_fsid_type_correct p t fs w :
  index_ok w -> fw_fs w !! p = Some fs -> changes_in_place fs t = false ->
  exists rc w', change_fsid_type p t w = Some (rc, w') /\
    ((ff_fsid_type fs = t /\ rc = 0 /\ w' = w) \/
     (converted_fsid fs t = None /\ rc = - EINVAL /\ w' = w) \/
     (exists f, converted_fsid fs t = Some f /\ re_index_post p t f w rc w')).
Proof.
  intros Hok Hp Hip.
  assert (wp (change_fsid_type p t) (fun rc w' =>
    (ff_fsid_type fs = t /\ rc = 0 /\ w' = w) \/
     (converted_fsid fs t = None /\ rc = - EINVAL /\ w' = w) \/
     (exists f, converted_fsid fs t = Some f /\ re_index_post p t f w rc w')) w) as Hwp.
  { unfold change_fsid_type. apply wp_bind. unfold wp at 1, get_fs. rewrite Hp.
    case_decide; [apply wp_ret; auto|]. rewrite Hip. destruct (converted_fsid fs t) as [f|]; [|apply wp_ret; auto].
    eapply wp_re_index; [done|done|]. intros rc w' Hpost. right. right. eauto. }
  unfold wp in Hwp. destruct (change_fsid_type p t w) as [[rc w']|]; [|done]. eauto.
Qed.

(** ** Examples *)

Definition disk (t : fsid_type) (major minor : Z) (inn : bool) : fsal_filesystem :=
  {| ff_fsid_type := t; ff_fsid := {| fsid_major := major; fsid_minor := minor |}; ff_dev_major := 8;
     ff_dev_minor := 1; ff_in_fsid_avl := inn |}.
Definition two_disks : fs_world :=
  {| fw_fs := {[ 1%positive := disk FSID_ONE_UINT64 9 0 true; 2%positive := disk FSID_TWO_UINT32 4 5 true ]};
     fw_avl := [1%positive; 2%positive] |}.

Lemma two_disks_ok : index_ok two_disks.
Proof.
  split.
  - unfold ordered. split; [|repeat constructor; eexists; reflexivity].
    repeat constructor. exists (disk FSID_ONE_UINT64 9 0 true), (disk FSID_TWO_UINT32 4 5 true). by vm_compute.
  - intros p fs. cbn. rewrite lookup_insert_Some, lookup_singleton_Some.
    intros [[<- <-]|[? [<- <-]]]; cbn; set_solver.
Qed.

Lemma change_fsid_type_correct_witness :
  exists rc w', change_fsid_type 2 FSID_ONE_UINT64 two_disks = Some (rc, w') /\
    (rc = 0 -> avl_search (fw_fs w') FSID_ONE_UINT64 {| fsid_major := 17179869189; fsid_minor := 0 |} (fw_avl w') = Some 2%positive).
Proof.
  destruct (change_fsid_type_correct 2 FSID_ONE_UINT64 (disk FSID_TWO_UINT32 4 5 true) two_disks)
    as (rc & w' & Hrun & Hpost).
  - apply two_disks_ok.
  - reflexivity.
  - reflexivity.
  - exists rc, w'. split; [done|]. intros ->. destruct Hpost as [[[=] _]|[[[=] _]|(f & Hf & Hpost)]].
    vm_compute in Hf. injection Hf as <-. destruct Hpost as [(_ & _ & _ & Hs & _)|[_ [[[=] _]|[[=] _]]]]. exact Hs.
Defined.

(** A change in place leaves the index out of order: the node of a file system that has become
    [FSID_TWO_UINT64] is still among those of type [FSID_ONE_UINT64]. *)
Example in_place_change_breaks_order :
  exists w', change_fsid_type 1 FSID_TWO_UINT64
    {| fw_fs := {[ 1%positive := disk FSID_ONE_UINT64 1 0 true; 2%positive := disk FSID_ONE_UINT64 2 0 true;
                   3%positive := disk FSID_TWO_UINT64 0 3 true ]}; fw_avl := [1%positive; 2%positive; 3%positive] |}
    = Some (0, w') /\
    avl_search (fw_fs w') FSID_ONE_UINT64 {| fsid_major := 2; fsid_minor := 0 |} (fw_avl w') = None.
Proof. eexists. split; vm_compute; reflexivity. Qed.

(** A change to [FSID_DEVICE] takes the folded fsid, not the device. *)
Example device_type_without_device :
  converted_fsid (disk FSID_TWO_UINT64 1 2 true) FSID_DEVICE = Some {| fsid_major := 1; fsid_minor := 2 |}.
Proof. reflexivity. Qed.
