(* ===== verification/Utf8.v ===== *)
(** * Names from the wire

    [path_filter] of [Protocols/NFS/nfs_proto_tools.c] and [nfs4_utf8string_scan] of
    [include/nfs_proto_tools.h]: the scan of a component or path for slashes, the names
    "." and ".." and bytes that are not UTF-8.  Strings are lists of bytes with their
    terminating 0; reading past the list is undefined. *)
From S2P Require Import Prelude Status.
Local Open Scope Z_scope.

Definition UTF8_SCAN_NONE : Z := 0.
Definition UTF8_SCAN_NOSLASH : Z := 1.
Definition UTF8_SCAN_NODOT : Z := 2.
Definition UTF8_SCAN_CKUTF8 : Z := 4.
Definition UTF8_SCAN_PATH : Z := 16.
Definition MAXNAMLEN : Z := 255.
Definition MAXPATHLEN : Z := 4096.

Definition scan_flag (scan flag : Z) : bool := negb (Z.land scan flag =? 0).

(** The loop of [path_filter] from [np] on; [first] at the start of the name. *)
Fixpoint filter_from (scan : Z) (first : bool) (np : list Z) : option nfsstat4 :=
  match np with
  | [] => None
  | c :: np =>
      if c =? 0 then Some NFS4_OK
      else if c <? 128 then
        if (c =? 47) && scan_flag scan UTF8_SCAN_NOSLASH then Some NFS4ERR_BADCHAR
        else if first && (c =? 46) && scan_flag scan UTF8_SCAN_NODOT then
          match np with
          | [] => None
          | n0 :: np1 =>
              if n0 =? 0 then Some NFS4ERR_BADNAME
              else if n0 =? 46 then
                match np1 with
                | [] => None
                | n1 :: _ => if n1 =? 0 then Some NFS4ERR_BADNAME else filter_from scan false np
                end
              else filter_from scan false np
          end
        else filter_from scan false np
      else if scan_flag scan UTF8_SCAN_CKUTF8 then
        if Z.land c 224 =? 192 then
          match np with
          | [] => None
          | n0 :: np1 =>
              if negb (Z.land n0 192 =? 128) || (Z.land c 254 =? 192) then Some NFS4ERR_INVAL
              else filter_from scan false np1
          end
        else if Z.land c 240 =? 224 then
          match np with
          | [] => None
          | n0 :: np1 =>
              if negb (Z.land n0 192 =? 128) then Some NFS4ERR_INVAL else
              match np1 with
              | [] => None
              | n1 :: np2 =>
                  if negb (Z.land n1 192 =? 128) || ((c =? 224) && (Z.land n0 224 =? 128))
                     || ((c =? 237) && (Z.land n0 224 =? 160))
                     || ((c =? 239) && (n0 =? 191) && (Z.land n1 254 =? 190)) then Some NFS4ERR_INVAL
                  else filter_from scan false np2
              end
          end
        else if Z.land c 248 =? 240 then
          match np with
          | [] => None
          | n0 :: np1 =>
              if negb (Z.land n0 192 =? 128) then Some NFS4ERR_INVAL else
              match np1 with
              | [] => None
              | n1 :: np2 =>
                  if negb (Z.land n1 192 =? 128) then Some NFS4ERR_INVAL else
                  match np2 with
                  | [] => None
                  | n2 :: np3 =>
                      if negb (Z.land n2 192 =? 128) || ((c =? 240) && (Z.land n0 240 =? 128))
                         || ((c =? 244) && (143 <? n0)) || (244 <? c) then Some NFS4ERR_INVAL
                      else filter_from scan false np3
                  end
              end
          end
        else Some NFS4ERR_INVAL
      else filter_from scan false np
  end.

Definition path_filter (name : list Z) (scan : Z) : option nfsstat4 := filter_from scan true name.

(** The string is given without its terminating 0; [None] is a NULL pointer. *)
Definition nfs4_utf8string_scan (input : option (list Z)) (scan : Z) : option nfsstat4 :=
  match input with
  | None => Some NFS4ERR_INVAL
  | Some val =>
      if bool_decide (length val = 0%nat) then Some NFS4ERR_INVAL
      else if (scan_flag scan UTF8_SCAN_PATH && (MAXPATHLEN <? Z.of_nat (length val)))
              || (negb (scan_flag scan UTF8_SCAN_PATH) && (MAXNAMLEN <? Z.of_nat (length val)))
      then Some NFS4ERR_NAMETOOLONG
      else if (scan =? UTF8_SCAN_NONE) || (scan =? UTF8_SCAN_PATH) then Some NFS4_OK
      else path_filter (val ++ [0]) scan
  end.

(** ** UTF-8 *)

(** The encoding of a code point, from the definition of UTF-8. *)
Definition utf8_encode (cp : Z) : list Z :=
  if cp <? 128 then [cp]
  else if cp <? 2048 then [192 + cp / 64; 128 + cp `mod` 64]
  else if cp <? 65536 then [224 + cp / 4096; 128 + (cp / 64) `mod` 64; 128 + cp `mod` 64]
  else [240 + cp / 262144; 128 + (cp / 4096) `mod` 64; 128 + (cp / 64) `mod` 64; 128 + cp `mod` 64].

(** The code points a name may have: no surrogates, no U+FFFE and U+FFFF. *)
Definition allowed (cp : Z) : Prop :=
  0 < cp <= 1114111 /\ ~ 55296 <= cp <= 57343 /\ cp <> 65534 /\ cp <> 65535.

Definition utf8_valid (name : list Z) : Prop := exists cps, Forall allowed cps /\ name = cps ≫= utf8_encode.

(** ** Masks on bytes are intervals *)

Lemma byte_forall (P : Z -> bool) :
  forallb P (Z.of_nat <$> seq 0 256) = true -> forall b, in_u 8 b -> P b = true.
Proof.
  intros HP b Hb. unfold in_u in Hb. change (2 ^ 8) with 256 in Hb. rewrite forallb_forall in HP. apply HP.
  apply list_elem_of_In, list_elem_of_fmap. exists (Z.to_nat b). split; [lia|]. apply elem_of_seq. lia.
Qed.


Definition between (lo hi b : Z) : bool := (lo <=? b) && (b <=? hi).

Lemma masks b : in_u 8 b ->
  (Z.land b 192 =? 128) = between 128 191 b /\ (Z.land b 224 =? 192) = between 192 223 b /\
  (Z.land b 254 =? 192) = between 192 193 b /\ (Z.land b 240 =? 224) = between 224 239 b /\
  (Z.land b 248 =? 240) = between 240 247 b /\ (Z.land b 224 =? 128) = between 128 159 b /\
  (Z.land b 224 =? 160) = between 160 191 b /\ (Z.land b 254 =? 190) = between 190 191 b /\
  (Z.land b 240 =? 128) = between 128 143 b.
Proof.
  intros Hb. split_and!; apply eqb_prop; revert b Hb; apply byte_forall; vm_compute; reflexivity.
Qed.

(** ** Chunks: the byte sequences of one code point *)

Definition cont (b : Z) : bool := between 128 191 b.
Definition wf_chunk (l : list Z) : bool :=
  match l with
  | [c] => between 1 127 c
  | [c; n0] => between 194 223 c && cont n0
  | [c; n0; n1] =>
      between 224 239 c && cont n0 && cont n1 && negb ((c =? 224) && (n0 <=? 159))
      && negb ((c =? 237) && (160 <=? n0)) && negb ((c =? 239) && (n0 =? 191) && (190 <=? n1))
  | [c; n0; n1; n2] =>
      between 240 244 c && cont n0 && cont n1 && cont n2 && negb ((c =? 240) && (n0 <=? 143))
      && negb ((c =? 244) && (143 <? n0))
  | _ => false
  end.

Ltac byte_facts :=
  unfold cont, between in *;
  repeat match goal with
         | H : _ && _ = true |- _ => apply andb_true_iff in H as [? ?]
         | H : (_ <=? _) = true |- _ => apply Z.leb_le in H
         end.

Lemma encode_wf cp : allowed cp -> wf_chunk (utf8_encode cp) = true.
Proof.
  intros (Hr & Hs & He & Hf). unfold utf8_encode.
  destruct (Z.ltb_spec cp 128); [simpl; unfold between; lia|].
  destruct (Z.ltb_spec cp 2048); [|destruct (Z.ltb_spec cp 65536)]; cbn [wf_chunk]; unfold cont, between;
    Z.to_euclidean_division_equations; lia.
Qed.

Lemma wf_encode l : wf_chunk l = true -> exists cp, allowed cp /\ utf8_encode cp = l.
Proof.
  destruct l as [|c [|n0 [|n1 [|n2 [|]]]]]; cbn [wf_chunk]; unfold cont, between; intros H; try done.
  - exists c. unfold allowed, utf8_encode. destruct (Z.ltb_spec c 128); [|lia]. split; [lia|done].
  - exists ((c - 192) * 64 + (n0 - 128)). unfold allowed, utf8_encode.
    destruct (Z.ltb_spec ((c - 192) * 64 + (n0 - 128)) 128); [lia|].
    destruct (Z.ltb_spec ((c - 192) * 64 + (n0 - 128)) 2048); [|lia]. split; [lia|].
    repeat f_equal; Z.to_euclidean_division_equations; lia.
  - set (cp := (c - 224) * 4096 + (n0 - 128) * 64 + (n1 - 128)). exists cp. unfold allowed, utf8_encode.
    destruct (Z.ltb_spec cp 128); [lia|]. destruct (Z.ltb_spec cp 2048); [lia|]. destruct (Z.ltb_spec cp 65536); [|lia].
    split; [lia|]. unfold cp. repeat f_equal; Z.to_euclidean_division_equations; lia.
  - set (cp := (c - 240) * 262144 + (n0 - 128) * 4096 + (n1 - 128) * 64 + (n2 - 128)). exists cp. unfold allowed, utf8_encode.
    destruct (Z.ltb_spec cp 128); [lia|]. destruct (Z.ltb_spec cp 2048); [lia|]. destruct (Z.ltb_spec cp 65536); [lia|].
    split; [lia|]. unfold cp. repeat f_equal; Z.to_euclidean_division_equations; lia.
Qed.

Lemma utf8_valid_nil : utf8_valid [].
Proof. by exists []. Qed.

(** A valid name starts with a chunk, and with only one. *)
Lemma utf8_valid_cons c s :
  utf8_valid (c :: s) <-> exists k rest, wf_chunk k = true /\ c :: s = k ++ rest /\ utf8_valid rest.
Proof.
  split.
  - intros ([|cp cps] & Hall & Hs); [done|]. apply Forall_cons in Hall as [Hcp Hall].
    exists (utf8_encode cp), (cps ≫= utf8_encode). split; [by apply encode_wf|]. split; [done|]. by exists cps.
  - intros (k & rest & Hk & Hs & cps & Hall & ->). destruct (wf_encode k Hk) as (cp & Hcp & <-).
    exists (cp :: cps). split; [by constructor|done].
Qed.

Lemma wf_chunk_length k c l :
  k = c :: l -> wf_chunk k = true ->
  length k = if c <? 128 then 1%nat else if c <? 224 then 2%nat else if c <? 240 then 3%nat else 4%nat.
Proof.
  intros -> H. destruct l as [|n0 [|n1 [|n2 [|]]]]; cbn [wf_chunk] in H; unfold cont, between in H; try done;
    repeat case_match; simpl; lia.
Qed.

Lemma valid_chunk k rest : wf_chunk k = true -> utf8_valid (k ++ rest) <-> utf8_valid rest.
Proof.
  intros Hk. destruct k as [|c l]; [done|]. cbn [app]. rewrite utf8_valid_cons. split.
  - intros (k' & rest' & Hk' & Hs & Hv). destruct k' as [|c' l']; [done|]. cbn in Hs. injection Hs as <- Hs.
    pose proof (wf_chunk_length _ _ _ eq_refl Hk) as H1. pose proof (wf_chunk_length _ _ _ eq_refl Hk') as H2.
    assert (length l = length l') as Hl by (simpl in *; lia).
    apply app_inj_1 in Hs as [_ ->]; done.
  - intros Hv. by exists (c :: l), rest.
Qed.

(** No chunk starts as [s] does. *)
Lemma no_chunk c s :
  (forall l rest, s = l ++ rest -> wf_chunk (c :: l) = false) -> ~ utf8_valid (c :: s).
Proof.
  intros Hno. rewrite utf8_valid_cons. intros ([|c' l] & rest & Hk & Hs & _); [done|]. injection Hs as <- Hs.
  by rewrite (Hno l rest Hs) in Hk.
Qed.

(** ** The scan *)

Definition name_byte (b : Z) : Prop := 1 <= b <= 255.

Definition good (scan : Z) (s : list Z) : Prop :=
  (scan_flag scan UTF8_SCAN_NOSLASH = true -> 47 ∉ s) /\ (scan_flag scan UTF8_SCAN_CKUTF8 = true -> utf8_valid s).

Definition scanned (scan : Z) (s : list Z) (o : option nfsstat4) : Prop :=
  exists st, o = Some st /\ (st = NFS4_OK <-> good scan s) /\
    (st = NFS4_OK \/ st = NFS4ERR_BADCHAR \/ st = NFS4ERR_INVAL).

Lemma no_chunk_prefix c s m :
  m = (if c <? 128 then 0%nat else if c <? 224 then 1%nat else if c <? 240 then 2%nat else 3%nat) ->
  wf_chunk (c :: take m s) = false -> ~ utf8_valid (c :: s).
Proof.
  intros Hm Hwf. apply no_chunk. intros l rest ->. destruct (wf_chunk (c :: l)) eqn:Hl; [|done].
  pose proof (wf_chunk_length _ _ _ eq_refl Hl) as Hlen. cbn [length] in Hlen.
  assert (length l = m) as <- by (rewrite Hm; destruct (c <? 128), (c <? 224), (c <? 240); lia).
  rewrite take_app_length in Hwf. congruence.
Qed.

Lemma scanned_invalid scan c s m :
  scan_flag scan UTF8_SCAN_CKUTF8 = true ->
  m = (if c <? 128 then 0%nat else if c <? 224 then 1%nat else if c <? 240 then 2%nat else 3%nat) ->
  wf_chunk (c :: take m s) = false -> scanned scan (c :: s) (Some NFS4ERR_INVAL).
Proof.
  intros Hf Hm Hwf. exists NFS4ERR_INVAL. split; [done|]. split; [|auto]. split; [done|].
  intros [_ Hv]. by destruct (no_chunk_prefix c s m Hm Hwf (Hv Hf)).
Qed.

(** Past a chunk, or a byte that is not looked at. *)
Lemma good_chunk scan k rest :
  wf_chunk k = true -> (scan_flag scan UTF8_SCAN_NOSLASH = true -> 47 ∉ k) -> good scan (k ++ rest) <-> good scan rest.
Proof. intros Hk H47. unfold good. rewrite (valid_chunk k rest Hk), not_elem_of_app. intuition. Qed.

Lemma scanned_chunk scan k rest o :
  wf_chunk k = true -> (scan_flag scan UTF8_SCAN_NOSLASH = true -> 47 ∉ k) ->
  scanned scan rest o -> scanned scan (k ++ rest) o.
Proof.
  intros Hk H47 (st & Ho & Hst & Hin). exists st. split; [done|]. by rewrite (good_chunk scan k rest Hk H47).
Qed.

Lemma scanned_skip scan c s o :
  scan_flag scan UTF8_SCAN_CKUTF8 = false -> c <> 47 -> scanned scan s o -> scanned scan (c :: s) o.
Proof.
  intros Hf Hc (st & Ho & Hst & Hin). exists st. split; [done|]. split; [|done]. rewrite Hst. unfold good.
  rewrite Hf. split; intros [H1 _]; (split; [intros Hx; specialize (H1 Hx)|done]).
  - apply not_elem_of_cons. split; [congruence|done].
  - by apply not_elem_of_cons in H1 as [].
Qed.

Lemma high_chunk c l : 128 <= c -> wf_chunk (c :: l) = true -> 47 ∉ c :: l.
Proof.
  intros Hc H Hin. assert (exists b, b ∈ c :: l /\ b < 128) as (b & Hb & Hlt) by (exists 47; split; [done|lia]).
  destruct l as [|n0 [|n1 [|n2 [|]]]]; cbn [wf_chunk] in H; unfold cont, between in H; try done;
    repeat (apply elem_of_cons in Hb as [->|Hb]; [lia|]); by apply elem_of_nil in Hb.
Qed.

Lemma byte_in b : name_byte b -> in_u 8 b.
Proof. unfold name_byte, in_u. simpl. lia. Qed.

(** The bytes after a lead byte: those of the name, then the terminating 0. *)
Ltac scan_masks :=
  repeat match goal with
         | H : name_byte ?b |- context [Z.land ?b _] =>
             let M := fresh in pose proof (masks b (byte_in b H)) as M;
             destruct M as (M1 & M2 & M3 & M4 & M5 & M6 & M7 & M8 & M9);
             rewrite ?M1, ?M2, ?M3, ?M4, ?M5, ?M6, ?M7, ?M8, ?M9; clear M1 M2 M3 M4 M5 M6 M7 M8 M9
         end.

Ltac chunk_lia :=
  unfold name_byte in *; cbn [firstn];
  repeat match goal with |- context [firstn (S _) ?s] => destruct s; cbn [firstn] end;
  rewrite ?take_0; cbn [wf_chunk]; unfold cont, between in *; lia.
Ltac lead_lia :=
  match goal with |- context [?c <? 128] =>
    destruct (Z.ltb_spec c 128), (Z.ltb_spec c 224), (Z.ltb_spec c 240); lia end.
Ltac by_invalid m :=
  apply (scanned_invalid _ _ _ m); [done|lead_lia|chunk_lia].
Ltac by_chunk k IH :=
  apply (scanned_chunk _ k); [chunk_lia|intros _; apply high_chunk; [lia|chunk_lia]|];
  apply IH; [simpl in *; lia|done].

Lemma filter_scanned scan tail n : forall s,
  (length s <= n)%nat -> Forall name_byte s -> scanned scan s (filter_from scan false (s ++ 0 :: tail)).
Proof.
  induction n as [|n IH]; intros s Hn Hs.
  { destruct s; [|simpl in Hn; lia]. exists NFS4_OK. split; [done|]. split; [|auto]. split; [|done].
    intros _. split; intros _; [apply not_elem_of_nil|apply utf8_valid_nil]. }
  destruct s as [|c s]; [apply (IH []); [simpl; lia|done]|]. apply Forall_cons in Hs as [Hc Hs]. simpl in Hn.
  pose proof Hc as Hc'. unfold name_byte in Hc'. cbn [app filter_from andb].
  destruct (Z.eqb_spec c 0); [lia|]. destruct (Z.ltb_spec c 128) as [Hlow|Hhigh].
  { destruct (Z.eqb_spec c 47) as [->|H47]; cbn [andb].
    - destruct (scan_flag scan UTF8_SCAN_NOSLASH) eqn:Hf.
      + exists NFS4ERR_BADCHAR. split; [done|]. split; [|auto]. split; [done|]. intros [Hg _]. destruct (Hg Hf). by left.
      + apply (scanned_chunk scan [47]); [done|congruence|]. apply IH; [lia|done].
    - apply (scanned_chunk scan [c]); [cbn; unfold between; lia| |apply IH; [lia|done]].
      intros _. rewrite list_elem_of_singleton. congruence. }
  destruct (scan_flag scan UTF8_SCAN_CKUTF8) eqn:Hf.
  2:{ apply scanned_skip; [done|lia|]. apply IH; [lia|done]. }
  scan_masks. unfold between at 1.
  destruct ((192 <=? c) && (c <=? 223)) eqn:H2; [|unfold between at 1; destruct ((224 <=? c) && (c <=? 239)) eqn:H3;
    [|unfold between at 1; destruct ((240 <=? c) && (c <=? 247)) eqn:H4]].
  - destruct s as [|b0 s]; [by_invalid 1%nat|]. apply Forall_cons in Hs as [Hb0 Hs]. cbn [app]. scan_masks.
    destruct (_ || _) eqn:Ht; [by_invalid 1%nat|]. by_chunk [c; b0] IH.
  - destruct s as [|b0 s]; [by_invalid 2%nat|]. apply Forall_cons in Hs as [Hb0 Hs]. cbn [app]. scan_masks.
    destruct (negb _) eqn:Ht0; [by_invalid 2%nat|].
    destruct s as [|b1 s]; [by_invalid 2%nat|]. apply Forall_cons in Hs as [Hb1 Hs]. cbn [app]. scan_masks.
    destruct (_ || _) eqn:Ht; [by_invalid 2%nat|]. by_chunk [c; b0; b1] IH.
  - destruct s as [|b0 s]; [by_invalid 3%nat|]. apply Forall_cons in Hs as [Hb0 Hs]. cbn [app]. scan_masks.
    destruct (negb _) eqn:Ht0; [by_invalid 3%nat|].
    destruct s as [|b1 s]; [by_invalid 3%nat|]. apply Forall_cons in Hs as [Hb1 Hs]. cbn [app]. scan_masks.
    destruct (negb (between 128 191 b1)) eqn:Ht1; [by_invalid 3%nat|].
    destruct s as [|b2 s]; [by_invalid 3%nat|]. apply Forall_cons in Hs as [Hb2 Hs]. cbn [app]. scan_masks.
    destruct (_ || _) eqn:Ht; [by_invalid 3%nat|]. by_chunk [c; b0; b1; b2] IH.
  - destruct (Z.ltb_spec c 224); [by_invalid 1%nat|by_invalid 3%nat].
Qed.

Definition dots (name : list Z) : Prop := name = [46] \/ name = [46; 46].

(** At the start of the name only "." and ".." make a difference. *)
Lemma filter_first scan name tail :
  Forall name_byte name ->
  filter_from scan true (name ++ 0 :: tail) =
  if scan_flag scan UTF8_SCAN_NODOT && (bool_decide (name = [46]) || bool_decide (name = [46; 46]))
  then Some NFS4ERR_BADNAME else filter_from scan false (name ++ 0 :: tail).
Proof.
  intros Hb. destruct name as [|c s]; [by destruct (scan_flag scan UTF8_SCAN_NODOT)|].
  destruct (Z.eqb_spec c 46) as [->|Hc].
  - destruct (scan_flag scan UTF8_SCAN_NODOT) eqn:Hf; cbn [app filter_from andb Z.eqb Pos.eqb Z.ltb Z.compare Pos.compare Pos.compare_cont];
      rewrite ?Hf; cbn [andb]; [|done].
    destruct s as [|b s]; [done|]. apply Forall_cons in Hb as [_ Hb]. apply Forall_cons in Hb as [Hb Hs]. cbn [app].
    unfold name_byte in Hb. destruct (Z.eqb_spec b 0); [lia|]. destruct (Z.eqb_spec b 46) as [->|Hne].
    + destruct s as [|x s]; [done|]. apply Forall_cons in Hs as [Hx _]. unfold name_byte in Hx. cbn [app].
      destruct (Z.eqb_spec x 0); [lia|]. done.
    + rewrite !bool_decide_false by congruence. done.
  - rewrite !bool_decide_false by congruence. rewrite andb_false_r. cbn [app filter_from].
    assert (c =? 46 = false) as -> by by apply Z.eqb_neq. by destruct (c =? 0), (c <? 128).
Qed.

(** What is asked of a name. *)
Definition acceptable (scan : Z) (name : list Z) : Prop :=
  (scan_flag scan UTF8_SCAN_NOSLASH = true -> 47 ∉ name) /\
  (scan_flag scan UTF8_SCAN_NODOT = true -> ~ dots name) /\
  (scan_flag scan UTF8_SCAN_CKUTF8 = true -> utf8_valid name).

Lemma path_filter_spec scan name tail :
  Forall name_byte name ->
  exists st, path_filter (name ++ 0 :: tail) scan = Some st /\
    (st = NFS4_OK <-> acceptable scan name) /\
    (st = NFS4ERR_BADNAME <-> scan_flag scan UTF8_SCAN_NODOT = true /\ dots name) /\
    (st = NFS4_OK \/ st = NFS4ERR_BADNAME \/ st = NFS4ERR_BADCHAR \/ st = NFS4ERR_INVAL).
Proof.
  intros Hb. unfold path_filter, acceptable. rewrite filter_first by done.
  destruct (scan_flag scan UTF8_SCAN_NODOT) eqn:Hf; cbn [andb].
  1: destruct (bool_decide (name = [46]) || bool_decide (name = [46; 46])) eqn:Hd.
  - assert (dots name) as Hdots.
    { apply orb_true_iff in Hd as [Hd|Hd]; apply bool_decide_eq_true in Hd; [by left|by right]. }
    exists NFS4ERR_BADNAME. split; [done|]. split; [|split; [done|auto]]. split; [done|]. intros (_ & Hn & _). by destruct (Hn eq_refl).
  - assert (~ dots name) as Hdots.
    { apply orb_false_iff in Hd as [H1 H2]. apply bool_decide_eq_false in H1, H2. by intros [|]. }
    destruct (filter_scanned scan tail _ name (le_n _) Hb) as (st & -> & Hst & Hin). exists st. split; [done|].
    unfold good in Hst. split; [rewrite Hst; tauto|]. split; [|naive_solver]. split; [intros ->; naive_solver|naive_solver].
  - destruct (filter_scanned scan tail _ name (le_n _) Hb) as (st & -> & Hst & Hin). exists st. split; [done|].
    unfold good in Hst. split; [rewrite Hst; naive_solver|]. split; [|naive_solver]. split; [intros ->; naive_solver|naive_solver].
Qed.

(** The part of a string that C functions see: up to the first 0. *)
Fixpoint c_string (val : list Z) : list Z :=
  match val with [] => [] | b :: val' => if b =? 0 then [] else b :: c_string val' end.

Lemma c_string_split val :
  Forall (in_u 8) val -> Forall name_byte (c_string val) /\ exists tail, val ++ [0] = c_string val ++ 0 :: tail.
Proof.
  induction 1 as [|b val Hb _ [IH1 [tail IH2]]]; [by split; [constructor|exists []]|]. simpl.
  destruct (Z.eqb_spec b 0) as [->|Hne]; [split; [constructor|by eexists]|]. split; [|exists tail; simpl; by rewrite IH2].
  constructor; [|done]. unfold in_u in Hb. unfold name_byte. simpl in Hb. lia.
Qed.

Definition too_long (scan : Z) (val : list Z) : Prop :=
  (if scan_flag scan UTF8_SCAN_PATH then MAXPATHLEN else MAXNAMLEN) < Z.of_nat (length val).

(** C38: the scan of names.  For a string of any bytes the scan reads no further than the 0 behind it and
    answers OK exactly when the string is not empty, not too long, and, up to its first 0, has no slash, is
    not "." or ".." and is made of the UTF-8 encodings of code points other than surrogates, U+FFFE
    and U+FFFF, each as far as the scan asks for it.  NAMETOOLONG is the answer exactly to what is too
    long, BADNAME exactly to "." and "..". *)
Theorem nfs4_utf8string_scan_correct val scan :
  Forall (in_u 8) val ->
  exists st, nfs4_utf8string_scan (Some val) scan = Some st /\
    (st = NFS4_OK <-> val <> [] /\ ~ too_long scan val /\ acceptable scan (c_string val)) /\
    (st = NFS4ERR_NAMETOOLONG <-> val <> [] /\ too_long scan val) /\
    (st = NFS4ERR_BADNAME <-> val <> [] /\ ~ too_long scan val /\
       scan_flag scan UTF8_SCAN_NODOT = true /\ dots (c_string val)).
Proof.
  intros Hb. destruct (c_string_split val Hb) as (Hn & tail & Htail). unfold nfs4_utf8string_scan.
  case_bool_decide as Hlen.
  { exists NFS4ERR_INVAL. apply length_zero_iff_nil in Hlen. subst val. naive_solver. }
  assert (val <> []) as Hne by (intros ->; done).
  destruct (_ || _) eqn:Hlong.
  { assert (too_long scan val) as Ht by (unfold too_long; destruct (scan_flag scan UTF8_SCAN_PATH); simpl in Hlong; lia).
    exists NFS4ERR_NAMETOOLONG. split; [done|]. split_and!; split; naive_solver. }
  assert (~ too_long scan val) as Ht by (unfold too_long; destruct (scan_flag scan UTF8_SCAN_PATH); simpl in Hlong; lia).
  destruct ((scan =? UTF8_SCAN_NONE) || (scan =? UTF8_SCAN_PATH)) eqn:Hnone.
  { assert (forall fl, fl ∈ [1; 2; 4] -> scan_flag scan fl = false) as Hfl.
    { assert (scan = 0 \/ scan = 16) as [-> | ->] by (unfold UTF8_SCAN_NONE, UTF8_SCAN_PATH in Hnone; lia);
        intros fl Hin; repeat (apply elem_of_cons in Hin as [->|Hin]; [done|]); by apply elem_of_nil in Hin. }
    exists NFS4_OK. split; [done|]. unfold acceptable, UTF8_SCAN_NOSLASH, UTF8_SCAN_NODOT, UTF8_SCAN_CKUTF8.
    rewrite !Hfl by set_solver. split_and!; split; naive_solver. }
  rewrite Htail. destruct (path_filter_spec scan (c_string val) tail Hn) as (st & -> & Hok & Hbad & Hin).
  exists st. split; [done|]. rewrite Hok, Hbad. split_and!; split; naive_solver.
Qed.

(** "café", with its last letter in two bytes. *)
Lemma nfs4_utf8string_scan_correct_witness :
  exists st, nfs4_utf8string_scan (Some [99; 97; 102; 195; 169]) 7 = Some st /\ st = NFS4_OK.
Proof.
  destruct (nfs4_utf8string_scan_correct [99; 97; 102; 195; 169] 7) as (st & Hrun & Hok & _).
  - repeat constructor; lia.
  - exists st. split; [exact Hrun|]. apply Hok. split; [done|]. split; [vm_compute; discriminate|].
    split_and!; intros _.
    + cbn. rewrite !not_elem_of_cons. split_and!; try done. apply not_elem_of_nil.
    + by intros [|].
    + exists [99; 97; 102; 233]. split; [|reflexivity]. repeat constructor; unfold allowed; lia.
Defined.

(** An overlong form, a lead byte alone, and names of dots. *)
Example path_filter_rejects :
  path_filter [192; 175; 0] 7 = Some NFS4ERR_INVAL /\ path_filter [195; 0] 7 = Some NFS4ERR_INVAL /\
  path_filter [46; 46; 0] 7 = Some NFS4ERR_BADNAME /\ path_filter [46; 46; 46; 0] 7 = Some NFS4_OK.
Proof. by vm_compute. Qed.
