(* ===== verification/Rbtree.v ===== *)
(** * Red-black trees

    [libntirpc/src/rbtree.c].  The nodes are embedded in the entries of a client and
    linked by pointers to children and parents.  A position in a tree is a subtree with
    the path from it to the root: following [node->parent] is taking the first frame
    of the path.  Reading through a NULL pointer has no result.

    [gen] of a node is not kept: it is not 0 exactly while the node is in the tree. *)
From S2P Require Import Prelude.
Local Open Scope Z_scope.

(** What a comparison function promises: a total order of the keys of the nodes. *)
Class TreeOrder {node K : Type} (cmpf : node -> node -> Z) (key : node -> K) : Prop := {
  cmpf_range a b : cmpf a b = -1 \/ cmpf a b = 0 \/ cmpf a b = 1;
  cmpf_zero a b : cmpf a b = 0 <-> key a = key b;
  cmpf_flip a b : cmpf a b = 1 <-> cmpf b a = -1;
  cmpf_trans a b c : cmpf a b = -1 -> cmpf b c = -1 -> cmpf a c = -1
}.

Section rbtree.
Context {node : Type} `{EqDecision node}.

(** ** Trees and positions *)

(** [Leaf] is the NULL pointer. *)
Inductive tree : Type :=
  | Leaf
  | Node (red : bool) (l : tree) (n : node) (r : tree).

Record opr_rbtree : Type := { rt_root : tree; rt_size : Z }.

Definition opr_rbtree_init : opr_rbtree := {| rt_root := Leaf; rt_size := 0 |}.

(** The parent of a position, without the subtree of the position. *)
Inductive frame : Type :=
  | InLeft (red : bool) (n : node) (r : tree)
  | InRight (red : bool) (l : tree) (n : node).

(** [update_parent_ptr]: the subtree at a position becomes [t]. *)
Definition fill (f : frame) (t : tree) : tree :=
  match f with
  | InLeft red n r => Node red t n r
  | InRight red l n => Node red l n t
  end.

Fixpoint plug (t : tree) (p : list frame) : tree :=
  match p with [] => t | f :: p => plug (fill f t) p end.

Definition is_red (t : tree) : bool := match t with Leaf => false | Node red _ _ _ => red end.

Definition set_red (red : bool) (t : tree) : tree :=
  match t with Leaf => Leaf | Node _ l n r => Node red l n r end.

Definition rotateright (t : tree) : option tree :=
  match t with
  | Node red (Node lred ll ln lr) n r => Some (Node lred ll ln (Node red lr n r))
  | _ => None
  end.

Definition rotateleft (t : tree) : option tree :=
  match t with
  | Node red l n (Node rred rl rn rr) => Some (Node rred (Node red l n rl) rn rr)
  | _ => None
  end.

(** ** Lookup and insertion *)

Fixpoint lookup_loop (cmpf : node -> node -> Z) (iter : tree) (n : node) : option node :=
  match iter with
  | Leaf => None
  | Node _ l parent r =>
      if cmpf n parent =? -1 then lookup_loop cmpf l n
      else if cmpf n parent =? 1 then lookup_loop cmpf r n
      else Some parent
  end.

Definition opr_rbtree_lookup (cmpf : node -> node -> Z) (head : opr_rbtree) (n : node) : option node :=
  lookup_loop cmpf (rt_root head) n.

(** [t] is the node at the path [p].  After a rotation the parent of the node is
    black, which ends the loop. *)
Fixpoint insert_recolour (t : tree) (p : list frame) : option tree :=
  match p with
  | f :: p' =>
      let parent := fill f t in
      if is_red parent then
        match p' with
        | InLeft _ gramps uncle :: rest =>
            if is_red uncle then insert_recolour (Node true (set_red false parent) gramps (set_red false uncle)) rest
            else
              top ← (match f with InRight _ _ _ => rotateleft parent | InLeft _ _ _ => Some parent end);
              t' ← rotateright (Node true (set_red false top) gramps uncle);
              Some (set_red false (plug t' rest))
        | InRight _ uncle gramps :: rest =>
            if is_red uncle then insert_recolour (Node true (set_red false uncle) gramps (set_red false parent)) rest
            else
              top ← (match f with InLeft _ _ _ => rotateright parent | InRight _ _ _ => Some parent end);
              t' ← rotateleft (Node true uncle gramps (set_red false top));
              Some (set_red false (plug t' rest))
        | [] => None
        end
      else Some (set_red false (plug t p))
  | [] => Some (set_red false (plug t p))
  end.

Definition opr_rbtree_insert_at (p : list frame) (n : node) : option tree :=
  insert_recolour (Node true Leaf n Leaf) p.

(** The walk down to the place of a new node, or to a node that compares equal. *)
Fixpoint insert_loop (cmpf : node -> node -> Z) (iter : tree) (p : list frame) (n : node) : node + list frame :=
  match iter with
  | Leaf => inr p
  | Node red l parent r =>
      if cmpf n parent =? -1 then insert_loop cmpf l (InLeft red parent r :: p) n
      else if cmpf n parent =? 1 then insert_loop cmpf r (InRight red l parent :: p) n
      else inl parent
  end.

Definition opr_rbtree_insert (cmpf : node -> node -> Z) (head : opr_rbtree) (n : node) :
    option (option node * opr_rbtree) :=
  match insert_loop cmpf (rt_root head) [] n with
  | inl parent => Some (Some parent, head)
  | inr p =>
      root ← opr_rbtree_insert_at p n;
      Some (None, {| rt_root := root; rt_size := u64 (rt_size head + 1) |})
  end.

(** ** Removal *)

(** [t] is the node (or NULL) at the path [p], one black node short.  A red sibling is
    rotated above the parent first; the two children that are painted are red, so they
    are there. *)
Fixpoint remove_recolour (fuel : nat) (t : tree) (p : list frame) : option tree :=
  match fuel with
  | O => None
  | S fuel =>
      if is_red t then Some (plug (set_red false t) p)
      else
        match p with
        | [] => Some (set_red false t)
        | InLeft red parent other :: rest =>
            '(red, other, rest) ← (match other with
              | Leaf => None
              | Node true ol o or => Some (true, ol, InLeft false o or :: rest)
              | Node false _ _ _ => Some (red, other, rest)
              end);
            match other with
            | Leaf => None
            | Node _ ol o or =>
                if negb (is_red ol) && negb (is_red or) then
                  remove_recolour fuel (Node red t parent (Node true ol o or)) rest
                else
                  other ← (if negb (is_red or) then rotateright (Node true (set_red false ol) o or) else Some other);
                  match other with
                  | Leaf => None
                  | Node _ ol o or =>
                      t' ← rotateleft (Node false t parent (Node red ol o (set_red false or)));
                      Some (set_red false (plug t' rest))
                  end
            end
        | InRight red other parent :: rest =>
            '(red, other, rest) ← (match other with
              | Leaf => None
              | Node true ol o or => Some (true, or, InRight false ol o :: rest)
              | Node false _ _ _ => Some (red, other, rest)
              end);
            match other with
            | Leaf => None
            | Node _ ol o or =>
                if negb (is_red ol) && negb (is_red or) then
                  remove_recolour fuel (Node red (Node true ol o or) parent t) rest
                else
                  other ← (if negb (is_red ol) then rotateleft (Node true ol o (set_red false or)) else Some other);
                  match other with
                  | Leaf => None
                  | Node _ ol o or =>
                      t' ← rotateright (Node false (Node red (set_red false ol) o or) parent t);
                      Some (set_red false (plug t' rest))
                  end
            end
        end
  end.

(** The position of a node: its colour, its children and its path. *)
Fixpoint locate (n : node) (t : tree) (p : list frame) : option (bool * tree * tree * list frame) :=
  match t with
  | Leaf => None
  | Node red l x r =>
      if decide (x = n) then Some (red, l, r, p)
      else
        match locate n l (InLeft red x r :: p) with
        | Some z => Some z
        | None => locate n r (InRight red l x :: p)
        end
  end.

(** The left-most node below a child: the next node in the tree. *)
Fixpoint leftmost (t : tree) (p : list frame) : option (bool * node * tree * list frame) :=
  match t with
  | Leaf => None
  | Node red Leaf n r => Some (red, n, r, p)
  | Node red l n r => leftmost l (InLeft red n r :: p)
  end.

(** The subtree [t] takes the place of a node that was [red]. *)
Definition take_out (red : bool) (t : tree) (p : list frame) : option tree :=
  if red then Some (plug t p) else remove_recolour (S (S (length p))) t p.

(** A node with children [l] and [r] leaves its position. *)
Definition remove_at (red : bool) (l r : tree) (p : list frame) : option tree :=
  match l, r with
  | Leaf, Leaf => take_out red Leaf p
  | Node _ _ _ _, Node _ _ _ _ =>
      '(nred, next, child, q) ← leftmost r [];
      take_out nred child (q ++ InRight red l next :: p)
  | Leaf, child | child, Leaf => take_out red child p
  end.

Definition opr_rbtree_remove (head : opr_rbtree) (n : node) : option opr_rbtree :=
  match locate n (rt_root head) [] with
  | None => Some head
  | Some (red, l, r, p) =>
      root ← remove_at red l r p;
      Some {| rt_root := root; rt_size := u64 (rt_size head - 1) |}
  end.

(** ** The nodes in order *)

Fixpoint nodes (t : tree) : list node :=
  match t with Leaf => [] | Node _ l n r => nodes l ++ n :: nodes r end.

(** The nodes before and after a position. *)
Fixpoint before (p : list frame) : list node :=
  match p with
  | [] => []
  | InLeft _ _ _ :: p => before p
  | InRight _ l n :: p => before p ++ nodes l ++ [n]
  end.
Fixpoint after (p : list frame) : list node :=
  match p with
  | [] => []
  | InLeft _ n r :: p => n :: nodes r ++ after p
  | InRight _ _ _ :: p => after p
  end.

Lemma nodes_set_red c t : nodes (set_red c t) = nodes t.
Proof. by destruct t. Qed.

Lemma nodes_plug t p : nodes (plug t p) = before p ++ nodes t ++ after p.
Proof.
  revert t. induction p as [|[c n r|c l n] p IH]; intros t; simpl; [by rewrite app_nil_r|..]; rewrite IH; simpl;
    by rewrite <- !app_assoc.
Qed.

#[local] Arguments rotateright : simpl never.
#[local] Arguments rotateleft : simpl never.

Lemma plug_nodes t t' p : nodes t = nodes t' -> nodes (plug t p) = nodes (plug t' p).
Proof. intros E. by rewrite !nodes_plug, E. Qed.

Lemma rotateright_nodes t t' : rotateright t = Some t' -> nodes t' = nodes t.
Proof. destruct t as [|c [|] n r]; try done. intros [= <-]. simpl. by rewrite <- app_assoc. Qed.

Lemma rotateleft_nodes t t' : rotateleft t = Some t' -> nodes t' = nodes t.
Proof. destruct t as [|c l n [|]]; try done. intros [= <-]. simpl. by rewrite <- app_assoc. Qed.

(** The nodes of a tree that was painted, and of one that was rotated. *)
Ltac flatten := simpl; rewrite ?nodes_set_red; simpl; rewrite ?nodes_set_red, <- ?app_assoc; simpl.
Ltac rotated :=
  repeat match goal with
  | H : rotateright _ = Some _ |- _ => apply rotateright_nodes in H
  | H : rotateleft _ = Some _ |- _ => apply rotateleft_nodes in H
  end;
  repeat match goal with
  | H : nodes _ = _ |- _ => progress (simpl in H; rewrite ?nodes_set_red, <- ?app_assoc in H; simpl in H)
  end;
  flatten; try congruence;
  repeat match goal with H : nodes ?t = _ |- context [nodes ?t] => rewrite H; flatten end; try congruence.

Lemma insert_recolour_nodes p t t' : insert_recolour t p = Some t' -> nodes t' = nodes (plug t p).
Proof.
  revert t. induction p as [p IH] using (induction_ltof1 _ length). unfold ltof in IH. intros t.
  assert (Some (set_red false (plug t p)) = Some t' -> nodes t' = nodes (plug t p)) as Hend
    by (intros [= <-]; apply nodes_set_red).
  destruct p as [|f [|g rest]]; simpl; [done| |].
  - by destruct (is_red (fill f t)).
  - destruct (is_red (fill f t)); [|done]. destruct g as [c g u|c u g]; destruct (is_red u).
    1, 3: intros E; apply IH in E; [|simpl; lia]; rewrite E; apply plug_nodes; by flatten.
    all: intros (top & Htop & (x & Hx & [= <-])%bind_Some)%bind_Some; rewrite nodes_set_red; apply plug_nodes;
      destruct f; simplify_eq/=; rotated.
Qed.

(** The nodes of a tree after the rotation of a red sibling. *)
Lemma sibling_rotated c t n other rest (o : tree) red rest' :
  match other with
  | Leaf => None
  | Node true ol o or => Some (true, ol, InLeft false o or :: rest)
  | Node false _ _ _ => Some (c, other, rest)
  end = Some (red, o, rest') ->
  nodes (plug (Node red t n o) rest') = nodes (plug (Node c t n other) rest).
Proof. destruct other as [|[] ol on or]; intros [= <- <- <-]; [|done]. simpl. apply plug_nodes. by flatten. Qed.

Lemma sibling_rotated_right c t n other rest (o : tree) red rest' :
  match other with
  | Leaf => None
  | Node true ol o or => Some (true, or, InRight false ol o :: rest)
  | Node false _ _ _ => Some (c, other, rest)
  end = Some (red, o, rest') ->
  nodes (plug (Node red o n t) rest') = nodes (plug (Node c other n t) rest).
Proof. destruct other as [|[] ol on or]; intros [= <- <- <-]; [|done]. simpl. apply plug_nodes. by flatten. Qed.

Lemma remove_recolour_nodes fuel t p t' :
  remove_recolour fuel t p = Some t' -> nodes t' = nodes (plug t p).
Proof.
  revert t p. induction fuel as [|fuel IH]; intros t p; [done|]. simpl. destruct (is_red t).
  { intros [= <-]. apply plug_nodes, nodes_set_red. }
  destruct p as [|[c n other|c other n] rest].
  - intros [= <-]. apply nodes_set_red.
  - intros ([[red o] rest'] & Ho & E)%bind_Some. simpl. rewrite <- (sibling_rotated _ _ _ _ _ _ _ _ Ho). clear Ho.
    destruct o as [|oc ol on or]; [done|]. destruct (negb (is_red ol) && negb (is_red or)); [apply IH in E as ->; by apply plug_nodes|].
    apply bind_Some in E as ([|oc' ol' on' or'] & Ho' & E); [done|].
    injection E as <-. rewrite nodes_set_red. apply plug_nodes.
    destruct (negb (is_red or)); simplify_eq; rotated.
  - intros ([[red o] rest'] & Ho & E)%bind_Some. simpl. rewrite <- (sibling_rotated_right _ _ _ _ _ _ _ _ Ho). clear Ho.
    destruct o as [|oc ol on or]; [done|]. destruct (negb (is_red ol) && negb (is_red or)); [apply IH in E as ->; by apply plug_nodes|].
    apply bind_Some in E as ([|oc' ol' on' or'] & Ho' & E); [done|].
    injection E as <-. rewrite nodes_set_red. apply plug_nodes.
    destruct (negb (is_red ol)); simplify_eq; rotated.
    apply (f_equal (.++ n :: nodes t)) in Ho'. by rewrite <- !app_assoc in Ho'.
Qed.

(** ** Balance *)

(** [rb any h t]: every path down [t] has [h] black nodes and no two red nodes in a row;
    without [any] the root is black. *)
Inductive rb : bool -> nat -> tree -> Prop :=
  | rb_leaf any : rb any 0 Leaf
  | rb_black any h l n r : rb true h l -> rb true h r -> rb any (S h) (Node false l n r)
  | rb_red h l n r : rb false h l -> rb false h r -> rb true h (Node true l n r).

(** [rb_path any h p]: a tree [t] with [rb any h t] at the position makes a balanced tree
    with a black root. *)
Inductive rb_path : bool -> nat -> list frame -> Prop :=
  | rbp_nil h : rb_path false h []
  | rbp_left any h n r p : rb true h r -> rb_path any (S h) p -> rb_path true h (InLeft false n r :: p)
  | rbp_right any h l n p : rb true h l -> rb_path any (S h) p -> rb_path true h (InRight false l n :: p)
  | rbp_left_red h n r p : rb false h r -> rb_path true h p -> rb_path false h (InLeft true n r :: p)
  | rbp_right_red h l n p : rb false h l -> rb_path true h p -> rb_path false h (InRight true l n :: p).

#[local] Hint Constructors rb rb_path : core.

Lemma rb_any any h t : rb false h t -> rb any h t.
Proof. inversion 1; subst; auto. Qed.

Lemma rb_weaken any h t : rb any h t -> rb true h t.
Proof. inversion 1; subst; auto. Qed.

Lemma rb_not_red h t : rb true h t -> is_red t = false -> rb false h t.
Proof. inversion 1; subst; auto; done. Qed.

#[local] Hint Resolve rb_any rb_weaken rb_not_red : core.

Lemma rb_plug p any h t : rb any h t -> rb_path any h p -> exists h', rb false h' (plug t p).
Proof.
  intros Ht Hp. revert t Ht. induction Hp; intros t Ht; simpl; eauto.
Qed.

(** A red tree that is painted black. *)
Lemma rb_painted any h t : rb any h t -> exists h', rb false h' (set_red false t).
Proof. inversion 1; subst; simpl; eauto. Qed.

Lemma rb_done p any h t : rb any h t -> rb_path any h p ->
  exists t' h', Some (set_red false (plug t p)) = Some t' /\ rb false h' t'.
Proof. intros Ht Hp. destruct (rb_plug p any h t) as [h' Hb]; [auto..|]. destruct (rb_painted _ _ _ Hb). eauto. Qed.

Lemma rb_red_children h t : rb true h t -> is_red t = true ->
  exists l n r, t = Node true l n r /\ rb false h l /\ rb false h r.
Proof. inversion 1; subst; simpl; [done..|eauto 10]. Qed.

(** Insertion: a red node at a position, whose parent may be red. *)
Lemma insert_recolour_rb p any h l n r :
  rb false h l -> rb false h r -> rb_path any h p ->
  exists t' h', insert_recolour (Node true l n r) p = Some t' /\ rb false h' t'.
Proof.
  revert any h l n r. induction p as [p IH] using (induction_ltof1 _ length). unfold ltof in IH.
  intros any h l n r Hl Hr Hp.
  inversion Hp as [h1|any1 h1 m x p1 Hx Hp1|any1 h1 x m p1 Hx Hp1|h1 m x p1 Hx Hp1|h1 x m p1 Hx Hp1]; subst.
  - simpl. eauto 10.
  - simpl. apply (rb_done p1 any1 (S h) (Node false (Node true l n r) m x)); auto.
  - simpl. apply (rb_done p1 any1 (S h) (Node false x m (Node true l n r))); auto.
  - inversion Hp1 as [|any2 h2 g u rest Hu Hrest|any2 h2 u g rest Hu Hrest| |]; subst; simpl; destruct (is_red u) eqn:Eu.
    1, 3: destruct (rb_red_children _ _ Hu Eu) as (ul & un & ur & -> & Hul & Hur); eapply IH; simpl; [lia|eauto..].
    all: eapply rb_done; [|done]; auto 7.
  - inversion Hp1 as [|any2 h2 g u rest Hu Hrest|any2 h2 u g rest Hu Hrest| |]; subst; simpl; destruct (is_red u) eqn:Eu.
    1, 3: destruct (rb_red_children _ _ Hu Eu) as (ul & un & ur & -> & Hul & Hur); eapply IH; simpl; [lia|eauto..].
    all: eapply rb_done; [|done]; auto 7.
Qed.

Lemma rb_node (red any : bool) h l n r : rb false h l -> rb false h r -> (red = true -> any = true) ->
  rb any (if red then h else S h) (Node red l n r).
Proof. intros Hl Hr Hc. destruct red; [rewrite Hc by done|]; auto. Qed.

(** Removal: the position is one black node short of what the path expects. *)
Definition removes (fuel : nat) : Prop := forall any h t p,
  rb true h t -> rb_path any (S h) p -> (S (length p) < fuel)%nat ->
  exists t' h', remove_recolour fuel t p = Some t' /\ rb false h' t'.

(** The sibling is black: a rotation ends the loop, or the parent is the next position. *)
Lemma remove_black_left fuel (red any : bool) h t n ol o or rest :
  removes fuel -> rb false h t -> rb true h ol -> rb true h or ->
  rb_path any (if red then S h else S (S h)) rest -> (red = true -> any = true) ->
  ((if red then 0 else S (length rest)) < fuel)%nat ->
  exists t' h', remove_recolour (S fuel) t (InLeft red n (Node false ol o or) :: rest) = Some t' /\ rb false h' t'.
Proof.
  intros IH Ht Hol Hor Hp Hc Hf. simpl. assert (is_red t = false) as -> by by inversion Ht.
  destruct (is_red ol) eqn:El, (is_red or) eqn:Er; simpl.
  - destruct (rb_red_children _ _ Hor Er) as (a & b & c & -> & Ha & Hb).
    eapply rb_done; [|done]. simpl. apply rb_node; auto.
  - destruct (rb_red_children _ _ Hol El) as (a & b & c & -> & Ha & Hb).
    eapply rb_done; [|done]. simpl. apply rb_node; auto.
  - destruct (rb_red_children _ _ Hor Er) as (a & b & c & -> & Ha & Hb).
    eapply rb_done; [|done]. simpl. apply rb_node; auto.
  - destruct red.
    + destruct fuel; [lia|]. simpl. destruct (rb_plug rest any (S h) (Node false t n (Node true ol o or))); eauto 7.
    + eapply (IH any (S h)); eauto 7.
Qed.

Lemma remove_black_right fuel (red any : bool) h t n ol o or rest :
  removes fuel -> rb false h t -> rb true h ol -> rb true h or ->
  rb_path any (if red then S h else S (S h)) rest -> (red = true -> any = true) ->
  ((if red then 0 else S (length rest)) < fuel)%nat ->
  exists t' h', remove_recolour (S fuel) t (InRight red (Node false ol o or) n :: rest) = Some t' /\ rb false h' t'.
Proof.
  intros IH Ht Hol Hor Hp Hc Hf. simpl. assert (is_red t = false) as -> by by inversion Ht.
  destruct (is_red ol) eqn:El, (is_red or) eqn:Er; simpl.
  - destruct (rb_red_children _ _ Hol El) as (a & b & c & -> & Ha & Hb).
    eapply rb_done; [|done]. simpl. apply rb_node; auto.
  - destruct (rb_red_children _ _ Hol El) as (a & b & c & -> & Ha & Hb).
    eapply rb_done; [|done]. simpl. apply rb_node; auto.
  - destruct (rb_red_children _ _ Hor Er) as (a & b & c & -> & Ha & Hb).
    eapply rb_done; [|done]. simpl. apply rb_node; auto.
  - destruct red.
    + destruct fuel; [lia|]. simpl. destruct (rb_plug rest any (S h) (Node false (Node true ol o or) n t)); eauto 7.
    + eapply (IH any (S h)); eauto 7.
Qed.

Lemma rb_black_children h t : rb false (S h) t -> exists l n r, t = Node false l n r /\ rb true h l /\ rb true h r.
Proof. inversion 1; subst. eauto 10. Qed.

Lemma remove_recolour_rb fuel : removes fuel.
Proof.
  induction fuel as [|fuel IH]; intros any h t p Ht Hp Hf; [lia|]. destruct (is_red t) eqn:Et.
  { destruct (rb_red_children _ _ Ht Et) as (l & n & r & -> & Hl & Hr). simpl.
    destruct (rb_plug p any (S h) (Node false l n r)); eauto. }
  pose proof (rb_not_red _ _ Ht Et) as Hb. clear Ht.
  inversion Hp as [h1|any1 h1 m x p1 Hx Hp1|any1 h1 x m p1 Hx Hp1|h1 m x p1 Hx Hp1|h1 x m p1 Hx Hp1]; subst; simpl in Hf.
  - simpl. rewrite Et. destruct (rb_painted _ _ _ Hb). eauto.
  - destruct (is_red x) eqn:Ex.
    + destruct (rb_red_children _ _ Hx Ex) as (a & b & c & -> & Ha & Hc).
      destruct (rb_black_children _ _ Ha) as (al & an & ar & -> & Hal & Har).
      assert (remove_recolour (S fuel) t (InLeft false m (Node true (Node false al an ar) b c) :: p1) =
              remove_recolour (S fuel) t (InLeft true m (Node false al an ar) :: InLeft false b c :: p1)) as ->
        by (simpl; by rewrite Et).
      eapply (remove_black_left fuel true true); eauto; lia.
    + destruct (rb_black_children _ _ (rb_not_red _ _ Hx Ex)) as (al & an & ar & -> & Hal & Har).
      eapply (remove_black_left fuel false); eauto; [done|lia].
  - destruct (is_red x) eqn:Ex.
    + destruct (rb_red_children _ _ Hx Ex) as (a & b & c & -> & Ha & Hc).
      destruct (rb_black_children _ _ Hc) as (al & an & ar & -> & Hal & Har).
      assert (remove_recolour (S fuel) t (InRight false (Node true a b (Node false al an ar)) m :: p1) =
              remove_recolour (S fuel) t (InRight true (Node false al an ar) m :: InRight false a b :: p1)) as ->
        by (simpl; by rewrite Et).
      eapply (remove_black_right fuel true true); eauto; lia.
    + destruct (rb_black_children _ _ (rb_not_red _ _ Hx Ex)) as (al & an & ar & -> & Hal & Har).
      eapply (remove_black_right fuel false); eauto; [done|lia].
  - destruct (rb_black_children _ _ Hx) as (al & an & ar & -> & Hal & Har).
    eapply (remove_black_left fuel true true); eauto; lia.
  - destruct (rb_black_children _ _ Hx) as (al & an & ar & -> & Hal & Har).
    eapply (remove_black_right fuel true true); eauto; lia.
Qed.

(** ** Positions of insertion and removal *)

(** A position with the balance around it: the subtree and the path fit together. *)
Definition rb_at (t : tree) (p : list frame) : Prop := exists any h, rb any h t /\ rb_path any h p.

Lemma rb_at_left red l n r p : rb_at (Node red l n r) p -> rb_at l (InLeft red n r :: p).
Proof. intros (any & h & Ht & Hp). inversion Ht; subst; eexists _, _; eauto. Qed.

Lemma rb_at_right m red l n r p : rb_at (Node red l n r) p -> rb_at r (InRight red l m :: p).
Proof. intros (any & h & Ht & Hp). inversion Ht; subst; eexists _, _; eauto. Qed.

Lemma locate_found n t p red l r q : locate n t p = Some (red, l, r, q) ->
  plug (Node red l n r) q = plug t p /\ (rb_at t p -> rb_at (Node red l n r) q).
Proof.
  revert p. induction t as [|c tl IHl y tr IHr]; intros p; simpl; [done|]. case_decide as E.
  { by intros [= -> -> -> ->]; subst. }
  destruct (locate n tl _) as [z|] eqn:Hz.
  - intros [= ->]. apply IHl in Hz as [? ?]. eauto using rb_at_left.
  - intros [? ?]%IHr. eauto using rb_at_right.
Qed.

Lemma locate_none n t p : locate n t p = None <-> n ∉ nodes t.
Proof.
  revert p. induction t as [|c l IHl y r IHr]; intros p; simpl; [set_solver|]. rewrite elem_of_app, elem_of_cons.
  case_decide as E; [split; [done|]; intros Hn; destruct Hn; auto|]. destruct (locate n l _) as [z|] eqn:Hz.
  - split; [done|]. intros Hn. exfalso. assert (locate n l (InLeft c y r :: p) = None) by (apply IHl; tauto). congruence.
  - apply IHl in Hz. rewrite IHr. split; [intros Hr [?|[?|?]]; auto|auto].
Qed.

(** The next node: its position below a child [t] with the path [p]. *)
Lemma leftmost_found t p : t <> Leaf -> exists c m r q, leftmost t [] = Some (c, m, r, q) /\
  nodes t = m :: nodes r ++ after q /\ before q = [] /\ (rb_at t p -> rb_at (Node c Leaf m r) (q ++ p)).
Proof.
  assert (forall q0, t <> Leaf -> exists c m r q, leftmost t q0 = Some (c, m, r, q ++ q0) /\
    nodes t = m :: nodes r ++ after q /\ before q = [] /\
    forall p, rb_at t p -> rb_at (Node c Leaf m r) (q ++ p)) as Hgen.
  { induction t as [|c l IHl y r _]; intros q0; [done|]. intros _. destruct l as [|lc ll ly lr] eqn:El.
    - exists c, y, r, []. split_and!; [done| |done|done]. simpl. by rewrite app_nil_r.
    - destruct (IHl (InLeft c y r :: q0)) as (c' & m & r' & q & E & He & Hb & Hrb); [done|].
      exists c', m, r', (q ++ [InLeft c y r]). split_and!.
      + simpl in *. rewrite E. by rewrite <- app_assoc.
      + simpl in He |- *. rewrite He. simpl. f_equal. rewrite <- app_assoc. f_equal. clear.
        induction q as [|[] q IH]; simpl; rewrite ?app_nil_r; [done|by rewrite <- IH, <- !app_assoc|done].
      + clear -Hb. induction q as [|[] q IH]; simpl in *; [done|auto|].
        by apply app_eq_nil in Hb as [_ [_ ?]%app_eq_nil].
      + intros p' Hp. rewrite <- app_assoc. apply Hrb, rb_at_left, Hp. }
  intros Ht. destruct (Hgen [] Ht) as (c & m & r & q & E & ? & ? & ?). rewrite app_nil_r in E. eauto 10.
Qed.

Lemma before_app q p : before (q ++ p) = before p ++ before q.
Proof. induction q as [|[] q IH]; simpl; rewrite ?app_nil_r, ?IH, <- ?app_assoc; done. Qed.

Lemma after_app q p : after (q ++ p) = after q ++ after p.
Proof. induction q as [|[] q IH]; simpl; rewrite ?IH, <- ?app_assoc; done. Qed.

(** A node with at most one child is replaced by it. *)
Lemma take_out_ok c l m r p child :
  rb_at (Node c l m r) p -> (l = Leaf /\ child = r) \/ (r = Leaf /\ child = l) ->
  exists t' h', take_out c child p = Some t' /\ rb false h' t' /\
    nodes t' = before p ++ nodes child ++ after p.
Proof.
  intros (any & h & Ht & Hp) Hc. unfold take_out. destruct c.
  - assert (rb true h child) as Hch.
    { inversion Ht; subst. destruct Hc as [[-> ->]|[-> ->]]; auto. }
    inversion Ht; subst. destruct (rb_plug p true h child) as [h' Hb]; [done..|].
    exists (plug child p), h'. by rewrite nodes_plug.
  - inversion Ht as [|any1 h1 l1 n1 r1 Hl Hr|]; subst.
    assert (rb true h1 child) as Hch by by destruct Hc as [[-> ->]|[-> ->]].
    destruct (remove_recolour_rb (S (S (length p))) any h1 child p) as (t' & h' & E & Hb); [done..|lia|].
    exists t', h'. split_and!; [done..|]. apply remove_recolour_nodes in E as ->. apply nodes_plug.
Qed.

Lemma remove_at_ok red l n r p : rb_at (Node red l n r) p ->
  exists t' h', remove_at red l r p = Some t' /\ rb false h' t' /\
    nodes t' = (before p ++ nodes l) ++ nodes r ++ after p.
Proof.
  intros Hat. destruct l as [|lc ll ln lr]; [destruct r as [|rc rl rn rr]|destruct r as [|rc rl rn rr]].
  - destruct (take_out_ok _ _ _ _ _ Leaf Hat) as (t' & h' & ? & ? & ?); [auto|]. exists t', h'. by rewrite app_nil_r.
  - destruct (take_out_ok _ _ _ _ _ (Node rc rl rn rr) Hat) as (t' & h' & ? & ? & ?); [auto|]. exists t', h'. by rewrite app_nil_r.
  - destruct (take_out_ok _ _ _ _ _ (Node lc ll ln lr) Hat) as (t' & h' & ? & ? & ?); [auto|]. exists t', h'. by rewrite <- app_assoc.
  - set (l := Node lc ll ln lr) in *. set (r := Node rc rl rn rr) in *.
    destruct (leftmost_found r []) as (c & m & child & q & E & _ & _ & _); [done|].
    destruct (leftmost_found r (InRight red l m :: p)) as (c' & m' & child' & q' & E' & He & Hb & Hrb); [done|].
    rewrite E in E'. injection E' as <- <- <- <-. specialize (Hrb (rb_at_right m _ _ _ _ _ Hat)).
    destruct (take_out_ok _ _ _ _ _ child Hrb) as (t' & h' & Ht' & ? & Hel); [auto|]. exists t', h'. split_and!; [|done|].
    + unfold remove_at. fold l r. subst l r. rewrite E. apply Ht'.
    + rewrite Hel, before_app, after_app, Hb, He. simpl. rewrite app_nil_r, <- !app_assoc. simpl. by rewrite <- ?app_assoc.
Qed.

(** ** The order of the nodes *)

Context {K : Type} (cmpf : node -> node -> Z) (key : node -> K).

Lemma insert_loop_found t p n x : insert_loop cmpf t p n = inl x -> lookup_loop cmpf t n = Some x.
Proof.
  revert p. induction t as [|c l IHl y r IHr]; intros p; simpl; [done|].
  destruct (cmpf n y =? -1); [by apply IHl|]. destruct (cmpf n y =? 1); [by apply IHr|]. by intros [= ->].
Qed.

Lemma insert_loop_place t p n q : insert_loop cmpf t p n = inr q ->
  lookup_loop cmpf t n = None /\ plug Leaf q = plug t p /\ (rb_at t p -> rb_at Leaf q).
Proof.
  revert p. induction t as [|c l IHl y r IHr]; intros p; simpl; [by intros [= ->]|].
  destruct (cmpf n y =? -1).
  { intros (? & ? & ?)%IHl. split_and!; auto using rb_at_left. }
  destruct (cmpf n y =? 1); [|done]. intros (? & ? & ?)%IHr. split_and!; eauto using rb_at_right.
Qed.


Definition before_in_tree (a b : node) : Prop := cmpf a b = -1.
Abbreviation sorted := (StronglySorted before_in_tree).

Context {O : TreeOrder cmpf key}.

Lemma cmp_eq_irrefl a b : key a = key b -> ~ before_in_tree a b.
Proof using O. unfold before_in_tree. rewrite <- (cmpf_zero a b). lia. Qed.

Lemma before_trans a b c : before_in_tree a b -> before_in_tree b c -> before_in_tree a c.
Proof using O. apply cmpf_trans. Qed.

(** The comparison of the walk decides the order. *)
Lemma cmp_cases n y : (cmpf n y = -1 /\ before_in_tree n y) \/ (cmpf n y = 1 /\ before_in_tree y n) \/
  (cmpf n y = 0 /\ key n = key y).
Proof using O.
  destruct (cmpf_range n y) as [?|[?|?]]; [left|right; right|right; left]; split; try done; [by apply cmpf_zero|by apply cmpf_flip].
Qed.

Lemma sorted_node l n r :
  sorted (l ++ n :: r) <-> sorted (l ++ r) /\ (forall x, x ∈ l -> before_in_tree x n) /\ (forall x, x ∈ r -> before_in_tree n x).
Proof.
  rewrite !StronglySorted_app, StronglySorted_cons, Forall_forall. setoid_rewrite elem_of_cons. naive_solver.
Qed.

Lemma sorted_children l n r : sorted (l ++ n :: r) -> sorted l /\ sorted r.
Proof. intros [[_ ?]%StronglySorted_app _]%sorted_node. done. Qed.

Lemma lookup_loop_spec t n x :
  sorted (nodes t) -> lookup_loop cmpf t n = Some x <-> x ∈ nodes t /\ key n = key x.
Proof using O.
  induction t as [|c l IHl y r IHr]; simpl; intros Hs; [split; [done|]; by intros [?%elem_of_nil _]|].
  pose proof (sorted_children _ _ _ Hs) as [Hl Hr]. apply sorted_node in Hs as (_ & Hly & Hyr).
  rewrite elem_of_app, elem_of_cons. destruct (cmp_cases n y) as [[-> Hn]|[[-> Hn]|[-> Hn]]]; simpl.
  - rewrite (IHl Hl). split; [naive_solver|]. intros [[Hx|[->|Hx]] Hk]; [done|..]; exfalso.
    + by apply (cmp_eq_irrefl _ _ Hk).
    + apply (cmp_eq_irrefl _ _ Hk). eauto using before_trans.
  - rewrite (IHr Hr). split; [naive_solver|]. intros [[Hx|[->|Hx]] Hk]; [| |done]; exfalso; symmetry in Hk.
    + apply (cmp_eq_irrefl _ _ Hk). eauto using before_trans.
    + by apply (cmp_eq_irrefl _ _ Hk).
  - split; [naive_solver|]. intros [[Hx|[->|Hx]] Hk]; [|done|]; exfalso.
    + apply (cmp_eq_irrefl x y); [congruence|auto].
    + apply (cmp_eq_irrefl y x); [congruence|auto].
Qed.

Lemma insert_loop_order t p n q :
  insert_loop cmpf t p n = inr q -> sorted (nodes t) ->
  (forall x, x ∈ before p -> before_in_tree x n) -> (forall x, x ∈ after p -> before_in_tree n x) ->
  (forall x, x ∈ before q -> before_in_tree x n) /\ (forall x, x ∈ after q -> before_in_tree n x).
Proof using O.
  revert p. induction t as [|c l IHl y r IHr]; intros p; simpl; [by intros [= ->]|]. intros E Hs Hb Ha.
  pose proof (sorted_children _ _ _ Hs) as [Hl Hr]. apply sorted_node in Hs as (_ & Hly & Hyr).
  destruct (cmp_cases n y) as [[C Hn]|[[C Hn]|[C Hn]]]; rewrite C in E; simpl in E; [| |done].
  - apply (IHl _ E Hl); simpl; [done|]. intros x. rewrite elem_of_cons, elem_of_app.
    intros [->|[Hx|Hx]]; eauto using before_trans.
  - apply (IHr _ E Hr); simpl; [|done]. intros x. rewrite !elem_of_app, list_elem_of_singleton.
    intros [Hx|[Hx| ->]]; eauto using before_trans.
Qed.

(** ** The operations on ordered, balanced trees *)

Record rb_ok (t : opr_rbtree) : Prop := {
  rb_sorted : sorted (nodes (rt_root t));
  rb_balanced : exists h, rb false h (rt_root t);
  rb_size : rt_size t = u64 (Z.of_nat (length (nodes (rt_root t))))
}.

Lemma rb_ok_init : rb_ok opr_rbtree_init.
Proof. constructor; simpl; [constructor|eauto|done]. Qed.

Lemma rb_ok_at t : rb_ok t -> rb_at (rt_root t) [].
Proof. intros [_ [h Hh] _]. exists false, h. auto. Qed.

Lemma lookup_spec t n x :
  rb_ok t -> opr_rbtree_lookup cmpf t n = Some x <-> x ∈ nodes (rt_root t) /\ key n = key x.
Proof using O. intros Ht. apply lookup_loop_spec, Ht. Qed.

Lemma insert_found t n x : rb_ok t -> opr_rbtree_lookup cmpf t n = Some x ->
  opr_rbtree_insert cmpf t n = Some (Some x, t).
Proof using O.
  unfold opr_rbtree_lookup, opr_rbtree_insert. intros Ht Hx. destruct (insert_loop cmpf _ [] n) as [y|q] eqn:E.
  - apply insert_loop_found in E. by simplify_eq.
  - apply insert_loop_place in E as [? _]. congruence.
Qed.

Lemma insert_new t n : rb_ok t -> opr_rbtree_lookup cmpf t n = None ->
  exists t', opr_rbtree_insert cmpf t n = Some (None, t') /\ rb_ok t' /\
    forall x, x ∈ nodes (rt_root t') <-> x = n \/ x ∈ nodes (rt_root t).
Proof using O.
  unfold opr_rbtree_lookup, opr_rbtree_insert. intros Ht Hx. destruct (insert_loop cmpf _ [] n) as [y|q] eqn:E.
  { apply insert_loop_found in E. congruence. }
  destruct (insert_loop_order _ _ _ _ E (rb_sorted _ Ht)) as [Hb Ha]; [by intros x ?%elem_of_nil..|].
  apply insert_loop_place in E as (_ & Hp & Hat). apply (f_equal nodes) in Hp. rewrite nodes_plug in Hp. simpl in Hp.
  destruct (Hat (rb_ok_at _ Ht)) as (any & h & Hleaf & Hq).
  unfold opr_rbtree_insert_at. assert (h = 0%nat) as -> by by inversion Hleaf.
  destruct (insert_recolour_rb q any 0 Leaf n Leaf) as (t' & h' & E & Hrb); [auto..|]. rewrite E. simpl.
  apply insert_recolour_nodes in E. rewrite nodes_plug in E. simpl in E.
  eexists; split; [done|]. split; [constructor; simpl|].
  - rewrite E. apply sorted_node. split; [|done]. rewrite Hp. apply Ht.
  - eauto.
  - rewrite (rb_size _ Ht), <- Hp, E, !length_app. simpl. unfold u64, wrapu. rewrite Zplus_mod_idemp_l. f_equal. lia.
  - simpl. intros x. rewrite E, <- Hp, !elem_of_app, elem_of_cons. naive_solver.
Qed.

Lemma remove_spec t n : rb_ok t ->
  exists t', opr_rbtree_remove t n = Some t' /\ rb_ok t' /\
    forall x, x ∈ nodes (rt_root t') <-> x <> n /\ x ∈ nodes (rt_root t).
Proof using O.
  intros Ht. unfold opr_rbtree_remove. destruct (locate n (rt_root t) []) as [[[[red l] r] p]|] eqn:E.
  2:{ apply locate_none in E. exists t. split_and!; [done..|]. naive_solver. }
  apply locate_found in E as [Hp Hat]. specialize (Hat (rb_ok_at _ Ht)).
  apply (f_equal nodes) in Hp. rewrite nodes_plug in Hp. simpl in Hp. rewrite <- app_assoc in Hp. simpl in Hp.
  rewrite (app_assoc (before p)) in Hp.
  destruct (remove_at_ok _ _ _ _ _ Hat) as (t' & h' & -> & Hrb & Hel). simpl.
  pose proof (rb_sorted _ Ht) as Hs. rewrite <- Hp in Hs. apply sorted_node in Hs as (Hs & Hb & Ha).
  eexists; split; [done|]. split; [constructor; simpl|].
  - by rewrite Hel.
  - eauto.
  - rewrite (rb_size _ Ht), <- Hp, Hel, !length_app. simpl. unfold u64, wrapu. rewrite Zminus_mod_idemp_l. f_equal.
    rewrite !length_app. lia.
  - simpl. intros x. rewrite Hel, <- Hp, (elem_of_app _ (n :: _)), (elem_of_app (before p ++ nodes l) (_ ++ _)), elem_of_cons.
    split; [|naive_solver]. intros Hx. split; [|naive_solver]. intros ->.
    destruct Hx as [Hx|Hx]; [apply Hb in Hx|apply Ha in Hx]; by apply cmp_eq_irrefl in Hx.
Qed.

(** ** The height of a tree, and the finite map it implements *)

Fixpoint height (t : tree) : nat :=
  match t with Leaf => 0 | Node _ l _ r => S (Nat.max (height l) (height r)) end.

Lemma rb_height any h t : rb any h t -> (height t <= 2 * h + (if any then 1 else 0))%nat.
Proof. induction 1; simpl in *; try destruct any; lia. Qed.

Lemma rb_nodes any h t : rb any h t -> (2 ^ h <= S (length (nodes t)))%nat.
Proof. induction 1; simpl in *; rewrite ?length_app; simpl; lia. Qed.

Lemma rb_ok_height t : rb_ok t ->
  (height (rt_root t) <= 2 * Nat.log2 (S (length (nodes (rt_root t)))))%nat.
Proof.
  intros [_ [h Hh] _]. apply rb_height in Hh as Hle. apply rb_nodes in Hh. apply Nat.log2_le_mono in Hh.
  rewrite Nat.log2_pow2 in Hh by lia. lia.
Qed.

(** What a client does to a tree. *)
Inductive tree_op : Type := Insert (n : node) | Remove (n : node).

Definition tree_do (head : opr_rbtree) (op : tree_op) : option opr_rbtree :=
  match op with
  | Insert n => '(_, head) ← opr_rbtree_insert cmpf head n; Some head
  | Remove n => opr_rbtree_remove head n
  end.

Fixpoint tree_run (head : opr_rbtree) (ops : list tree_op) : option opr_rbtree :=
  match ops with [] => Some head | op :: ops => head ← tree_do head op; tree_run head ops end.

Context `{Countable K}.

(** The map from keys to nodes after an operation: a key that is taken keeps its node,
    and a node that is not in the tree is not removed. *)
Definition map_do (m : gmap K node) (op : tree_op) : gmap K node :=
  match op with
  | Insert n => match m !! key n with Some _ => m | None => <[key n := n]> m end
  | Remove n => if decide (m !! key n = Some n) then delete (key n) m else m
  end.

Definition tree_rep (t : opr_rbtree) (m : gmap K node) : Prop :=
  rb_ok t /\ forall k n, m !! k = Some n <-> n ∈ nodes (rt_root t) /\ key n = k.

Lemma rep_tree_lookup t m n : tree_rep t m -> opr_rbtree_lookup cmpf t n = m !! key n.
Proof using O.
  intros [Ht Hm]. apply option_eq. intros x. rewrite (lookup_spec t n x Ht), Hm. naive_solver.
Qed.

Lemma rep_tree_do t m op : tree_rep t m -> exists t', tree_do t op = Some t' /\ tree_rep t' (map_do m op).
Proof using O.
  intros Hr. pose proof Hr as [Ht Hm]. destruct op as [n|n]; simpl.
  - rewrite <- (rep_tree_lookup t m n Hr). destruct (opr_rbtree_lookup cmpf t n) as [x|] eqn:E.
    { rewrite (insert_found t n x Ht E). eauto. }
    destruct (insert_new t n Ht E) as (t' & -> & Ht' & Hel). exists t'. split; [done|]. split; [done|].
    intros k x. rewrite Hel, lookup_insert_Some, Hm. rewrite (rep_tree_lookup t m n Hr) in E.
    split; [naive_solver|]. intros [[->|Hx] Hk]; [naive_solver|]. right. split; [|done].
    intros <-. assert (m !! key n = Some x) by by apply Hm. congruence.
  - destruct (remove_spec t n Ht) as (t' & E & Ht' & Hel). exists t'. split; [done|]. split; [done|].
    intros k x. rewrite Hel.
    case_decide as Hn.
    + rewrite lookup_delete_Some, Hm. split; [naive_solver|]. intros [[Hne Hx] Hk]. split_and!; [|done..].
      intros <-. assert (m !! key n = Some x) by by apply Hm. congruence.
    + rewrite Hm. split; [|naive_solver]. intros [Hx Hk]. split_and!; [|done..]. intros ->. apply Hn. by apply Hm.
Qed.

Lemma rep_tree_run ops t m : tree_rep t m -> exists t', tree_run t ops = Some t' /\ tree_rep t' (foldl map_do m ops).
Proof using O.
  revert t m. induction ops as [|op ops IH]; intros t m Hr; simpl; [eauto|].
  destruct (rep_tree_do t m op Hr) as (t1 & -> & Hr1). by apply IH.
Qed.

Lemma sorted_keys l : sorted l -> NoDup (key <$> l).
Proof using O.
  induction 1 as [|a l Hs IH Ha]; simpl; [constructor|]. constructor; [|done].
  intros (b & Hk & Hb)%list_elem_of_fmap. rewrite Forall_forall in Ha. by apply (cmp_eq_irrefl a b), Ha.
Qed.

Lemma rep_tree_size t m : tree_rep t m -> size m = length (nodes (rt_root t)).
Proof using O.
  intros [Ht Hm]. set (l := (fun n => (key n, n)) <$> nodes (rt_root t)).
  assert (NoDup l.*1) as Hnd.
  { unfold l. rewrite <- list_fmap_compose. apply sorted_keys, Ht. }
  assert (m = list_to_map l) as ->.
  { apply map_eq. intros k. apply option_eq. intros n. rewrite Hm, <- elem_of_list_to_map by done.
    unfold l. rewrite list_elem_of_fmap. naive_solver. }
  rewrite map_size_list_to_map by done. unfold l. by rewrite length_fmap.
Qed.

(** C33: a red-black tree is a finite map.  Whatever nodes are inserted and removed, no
    NULL pointer is read; then a lookup finds the node of a key exactly when the map
    has it, the nodes are in order, the tree is at most twice as high as a
    complete one, and it counts its nodes. *)
Theorem rbtree_refines_map ops :
  exists t, tree_run opr_rbtree_init ops = Some t /\
    (forall n, opr_rbtree_lookup cmpf t n = foldl map_do ∅ ops !! key n) /\
    sorted (nodes (rt_root t)) /\
    (height (rt_root t) <= 2 * Nat.log2 (S (length (nodes (rt_root t)))))%nat /\
    rt_size t = u64 (Z.of_nat (size (foldl map_do ∅ ops))).
Proof using O.
  destruct (rep_tree_run ops opr_rbtree_init ∅) as (t & E & Hr).
  { split; [apply rb_ok_init|]. intros k n. rewrite lookup_empty. split; [done|]. by intros [?%elem_of_nil _]. }
  exists t. pose proof Hr as [Ht Hm]. split_and!; [done|..].
  - intros n. by apply rep_tree_lookup.
  - apply Ht.
  - by apply rb_ok_height.
  - rewrite (rb_size _ Ht). by rewrite (rep_tree_size _ _ Hr).
Qed.
End rbtree.
