(* ===== verification/RbtreeX.v ===== *)
(** * Partitioned trees with a cache

    [libntirpc/ntirpc/misc/rbtree_x.h]: a red-black tree split into partitions by
    the hash of the key, each partition with a direct-mapped cache in front of its
    tree.  The duplicate request cache keeps its entries in one. *)
From S2P Require Import Prelude Rbtree.
Local Open Scope Z_scope.

Definition RBT_X_FLAG_ALLOC : Z := 1.
Definition RBT_X_FLAG_CACHE_RT : Z := 2.
Definition RBT_X_FLAG_CACHE_WT : Z := 4.

(** What the comparison function and the hash promise about the nodes of a tree. *)
Class KeyOrder {node K : Type} (cmpf : node -> node -> Z) (key : node -> K) (hash : node -> Z) : Prop := {
  key_order :: TreeOrder cmpf key;
  key_hash a b : key a = key b -> hash a = hash b
}.

Section rbtree_x.
Context {node : Type} `{EqDecision node} (cmpf : node -> node -> Z).

(** ** Partitions and caches *)

Record rbtree_x_part : Type := { xp_cache : gmap Z node; xp_t : opr_rbtree (node := node) }.

Record rbtree_x : Type := {
  xt_npart : Z;
  xt_cachesz : Z;
  xt_flags : Z;
  xt_tree : gmap Z rbtree_x_part
}.

Definition rbtx_idx_of_scalar (xt : rbtree_x) (k : Z) : Z := k `mod` xt_npart xt.

Definition rbtx_partition_of_ix (xt : rbtree_x) (ix : Z) : rbtree_x_part :=
  default {| xp_cache := ∅; xp_t := opr_rbtree_init |} (xt_tree xt !! ix).

Definition rbtx_partition_of_scalar (xt : rbtree_x) (k : Z) : rbtree_x_part :=
  rbtx_partition_of_ix xt (rbtx_idx_of_scalar xt k).

(** The partition of [hk] becomes [t]. *)
Definition with_part (xt : rbtree_x) (hk : Z) (t : rbtree_x_part) : rbtree_x :=
  {| xt_npart := xt_npart xt; xt_cachesz := xt_cachesz xt; xt_flags := xt_flags xt;
     xt_tree := <[rbtx_idx_of_scalar xt hk := t]> (xt_tree xt) |}.

Definition rbtx_init (npart cachesz flags : Z) : rbtree_x :=
  {| xt_npart := npart; xt_cachesz := cachesz; xt_flags := flags; xt_tree := ∅ |}.

Definition has_flag (xt : rbtree_x) (flag : Z) : bool := negb (Z.land (xt_flags xt) flag =? 0).

Definition rbtree_x_cached_lookup (xt : rbtree_x) (nk : node) (hk : Z) : option node * rbtree_x :=
  let t := rbtx_partition_of_scalar xt hk in
  let offset := hk `mod` xt_cachesz xt in
  let through :=
    let nv := opr_rbtree_lookup cmpf (xp_t t) nk in
    (nv, match nv with
         | Some n =>
             if has_flag xt RBT_X_FLAG_CACHE_RT
             then with_part xt hk {| xp_cache := <[offset := n]> (xp_cache t); xp_t := xp_t t |} else xt
         | None => xt
         end) in
  match xp_cache t !! offset with
  | Some nv_cached => if cmpf nv_cached nk =? 0 then (Some nv_cached, xt) else through
  | None => through
  end.

Definition rbtree_x_cached_insert (xt : rbtree_x) (nk : node) (hk : Z) : option (node * rbtree_x) :=
  let t := rbtx_partition_of_scalar xt hk in
  let offset := hk `mod` xt_cachesz xt in
  if has_flag xt RBT_X_FLAG_CACHE_WT then
    match xp_cache t !! offset with
    | None => Some (nk, with_part xt hk {| xp_cache := <[offset := nk]> (xp_cache t); xp_t := xp_t t |})
    | Some _ =>
        '(nv, t') ← opr_rbtree_insert cmpf (xp_t t) nk;
        Some (default nk nv, with_part xt hk {| xp_cache := xp_cache t; xp_t := t' |})
    end
  else
    '(_, t') ← opr_rbtree_insert cmpf (xp_t t) nk;
    Some (nk, with_part xt hk {| xp_cache := <[offset := nk]> (xp_cache t); xp_t := t' |}).

Definition rbtree_x_cached_remove (xt : rbtree_x) (nk : node) (hk : Z) : option rbtree_x :=
  let t := rbtx_partition_of_scalar xt hk in
  let offset := hk `mod` xt_cachesz xt in
  let hit := match xp_cache t !! offset with Some v_cached => cmpf nk v_cached =? 0 | None => false end in
  let cleared := if hit then delete offset (xp_cache t) else xp_cache t in
  t' ← (if has_flag xt RBT_X_FLAG_CACHE_WT && hit then Some (xp_t t) else opr_rbtree_remove (xp_t t) nk);
  Some (with_part xt hk {| xp_cache := cleared; xp_t := t' |}).

(** ** The finite map behind the tree *)

Context {K : Type} `{Countable K} (key : node -> K) (hash : node -> Z).

(** The nodes of the tree of a partition. *)
Definition part_nodes (t : rbtree_x_part) : list node := nodes (rt_root (xp_t t)).

(** [n] is in the cache or the tree of its partition. *)
Definition xt_member (xt : rbtree_x) (n : node) : Prop :=
  let t := rbtx_partition_of_scalar xt (hash n) in
  xp_cache t !! (hash n `mod` xt_cachesz xt) = Some n \/ n ∈ part_nodes t.

(** The trees are in order and balanced; the nodes are where their hash says, none both
    in a cache and in a tree, and they are the nodes of the map [m]. *)
Record xt_rep (xt : rbtree_x) (m : gmap K node) : Prop := {
  xr_ok ix : rb_ok cmpf (xp_t (rbtx_partition_of_ix xt ix));
  xr_flags : xt_flags xt = Z.lor RBT_X_FLAG_ALLOC RBT_X_FLAG_CACHE_WT;
  xr_cache ix o n : xp_cache (rbtx_partition_of_ix xt ix) !! o = Some n ->
    ix = rbtx_idx_of_scalar xt (hash n) /\ o = hash n `mod` xt_cachesz xt /\
    n ∉ part_nodes (rbtx_partition_of_ix xt ix);
  xr_tree ix n : n ∈ part_nodes (rbtx_partition_of_ix xt ix) -> ix = rbtx_idx_of_scalar xt (hash n);
  xr_map k n : m !! k = Some n <-> xt_member xt n /\ key n = k
}.

Context {O : KeyOrder cmpf key hash}.

Lemma lookup_tree t n x :
  rb_ok cmpf (xp_t t) -> opr_rbtree_lookup cmpf (xp_t t) n = Some x -> x ∈ part_nodes t /\ key n = key x.
Proof using O. intros Ht. by apply (lookup_spec cmpf key). Qed.

Lemma lookup_tree_none t n x :
  rb_ok cmpf (xp_t t) -> opr_rbtree_lookup cmpf (xp_t t) n = None -> x ∈ part_nodes t -> key n <> key x.
Proof using O.
  intros Ht Hl Hx Hk. assert (opr_rbtree_lookup cmpf (xp_t t) n = Some x) by by apply (lookup_spec cmpf key). congruence.
Qed.

Lemma partition_with xt hk t ix :
  rbtx_partition_of_ix (with_part xt hk t) ix =
  if decide (rbtx_idx_of_scalar xt hk = ix) then t else rbtx_partition_of_ix xt ix.
Proof. unfold rbtx_partition_of_ix. simpl. rewrite lookup_insert. by case_decide. Qed.

Lemma rep_same_key xt m a b : xt_rep xt m -> xt_member xt a -> xt_member xt b -> key a = key b -> a = b.
Proof.
  intros [] Ha Hb Hk. assert (m !! key a = Some a) by by apply xr_map0.
  assert (m !! key a = Some b) by (apply xr_map0; by rewrite Hk). congruence.
Qed.

(** A cached lookup finds what the map holds under the key, and changes nothing. *)
Lemma rep_lookup xt m nk : xt_rep xt m -> rbtree_x_cached_lookup xt nk (hash nk) = (m !! key nk, xt).
Proof using O.
  intros Hr. unfold rbtree_x_cached_lookup, has_flag. rewrite (xr_flags _ _ Hr). simpl.
  set (t := rbtx_partition_of_scalar xt (hash nk)).
  assert (forall n, key n = key nk -> xt_member xt n -> m !! key nk = Some n) as Hm
    by (intros n Hk ?; apply (xr_map _ _ Hr); done).
  assert ((forall n, xp_cache t !! (hash nk `mod` xt_cachesz xt) = Some n -> key n <> key nk) ->
            opr_rbtree_lookup cmpf (xp_t t) nk = m !! key nk) as Ht.
  { intros Hno. assert (rb_ok cmpf (xp_t t)) as Hok by apply (xr_ok _ _ Hr).
    destruct (opr_rbtree_lookup cmpf (xp_t t) nk) as [n|] eqn:Hl.
    - apply lookup_tree in Hl as [Hin Hk]; [|done]. symmetry. apply Hm; [done|]. right. by rewrite <- (key_hash _ _ Hk).
    - symmetry. apply eq_None_not_Some. intros [n Hn]. apply (xr_map _ _ Hr) in Hn as [[Hn|Hn] Hk];
        rewrite (key_hash _ _ Hk) in Hn; [by apply (Hno n)|by eapply lookup_tree_none]. }
  destruct (xp_cache t !! (hash nk `mod` xt_cachesz xt)) as [n|] eqn:Hn.
  - destruct (Z.eqb_spec (cmpf n nk) 0) as [E|E]; rewrite cmpf_zero in E.
    + rewrite (Hm n); [done|done|]. left. by rewrite (key_hash _ _ E).
    + rewrite Ht by (intros ? [= <-]; done). by destruct (m !! key nk).
  - rewrite Ht by done. by destruct (m !! key nk).
Qed.

(** One partition changes. *)
Lemma rep_update xt m m' hk t' :
  xt_rep xt m -> rb_ok cmpf (xp_t t') ->
  (forall o n, xp_cache t' !! o = Some n -> rbtx_idx_of_scalar xt hk = rbtx_idx_of_scalar xt (hash n) /\
     o = hash n `mod` xt_cachesz xt /\ n ∉ part_nodes t') ->
  (forall n, n ∈ part_nodes t' -> rbtx_idx_of_scalar xt hk = rbtx_idx_of_scalar xt (hash n)) ->
  (forall k n, m' !! k = Some n <->
     (if decide (rbtx_idx_of_scalar xt hk = rbtx_idx_of_scalar xt (hash n))
      then (xp_cache t' !! (hash n `mod` xt_cachesz xt) = Some n \/ n ∈ part_nodes t') else xt_member xt n) /\ key n = k) ->
  xt_rep (with_part xt hk t') m'.
Proof.
  intros [] Hok Hc Ht Hm. constructor.
  - intros ix. rewrite partition_with. by case_decide.
  - done.
  - intros ix o n. rewrite partition_with. case_decide; [|apply xr_cache0]. subst ix. apply Hc.
  - intros ix n. rewrite partition_with. case_decide; [|apply xr_tree0]. subst ix. apply Ht.
  - intros k n. rewrite Hm. unfold xt_member at 2. unfold rbtx_partition_of_scalar. rewrite partition_with.
    change (rbtx_idx_of_scalar (with_part xt hk t')) with (rbtx_idx_of_scalar xt). simpl.
    by case_decide.
Qed.

Lemma part_cache xt m hk o n :
  xt_rep xt m -> xp_cache (rbtx_partition_of_scalar xt hk) !! o = Some n ->
  rbtx_idx_of_scalar xt hk = rbtx_idx_of_scalar xt (hash n) /\ o = hash n `mod` xt_cachesz xt /\
  n ∉ part_nodes (rbtx_partition_of_scalar xt hk) /\ xt_member xt n.
Proof.
  intros Hr Hn. destruct (xr_cache _ _ Hr _ _ _ Hn) as (Hi & -> & Ht). split_and!; [done..|].
  left. unfold rbtx_partition_of_scalar in *. by rewrite <- Hi.
Qed.

Lemma part_tree xt m hk n :
  xt_rep xt m -> n ∈ part_nodes (rbtx_partition_of_scalar xt hk) ->
  rbtx_idx_of_scalar xt hk = rbtx_idx_of_scalar xt (hash n) /\ xt_member xt n.
Proof.
  intros Hr Hn. pose proof (xr_tree _ _ Hr _ _ Hn) as Hi. split; [done|].
  right. unfold rbtx_partition_of_scalar in *. by rewrite <- Hi.
Qed.

Lemma member_part xt hk n :
  rbtx_idx_of_scalar xt hk = rbtx_idx_of_scalar xt (hash n) ->
  xt_member xt n <-> xp_cache (rbtx_partition_of_scalar xt hk) !! (hash n `mod` xt_cachesz xt) = Some n \/
                     n ∈ part_nodes (rbtx_partition_of_scalar xt hk).
Proof. intros Hi. unfold xt_member, rbtx_partition_of_scalar. by rewrite Hi. Qed.

(** An insertion under a key that is not in the map adds the node. *)
Lemma rep_insert xt m nk :
  xt_rep xt m -> m !! key nk = None ->
  exists xt', rbtree_x_cached_insert xt nk (hash nk) = Some (nk, xt') /\ xt_rep xt' (<[key nk := nk]> m).
Proof using O.
  intros Hr Hnew. unfold rbtree_x_cached_insert, has_flag. rewrite (xr_flags _ _ Hr). simpl.
  set (t := rbtx_partition_of_scalar xt (hash nk)).
  assert (forall n, xt_member xt n -> key n <> key nk) as Hno.
  { intros n Hn Hk. assert (m !! key nk = Some n) by by apply (xr_map _ _ Hr). congruence. }
  assert (forall n k, <[key nk := nk]> m !! k = Some n <-> (n = nk \/ xt_member xt n) /\ key n = k) as Hm.
  { intros n k. rewrite lookup_insert_Some, (xr_map _ _ Hr). naive_solver. }
  destruct (xp_cache t !! (hash nk `mod` xt_cachesz xt)) as [c|] eqn:Hc.
  - assert (rb_ok cmpf (xp_t t)) as Hok by apply (xr_ok _ _ Hr).
    destruct (opr_rbtree_lookup cmpf (xp_t t) nk) as [x|] eqn:Hl.
    { apply lookup_tree in Hl as [Hin Hk]; [|done]. exfalso. apply (Hno x); [|done]. right. by rewrite <- (key_hash _ _ Hk). }
    destruct (insert_new cmpf key (xp_t t) nk Hok Hl) as (t' & -> & Hok' & Hel). simpl.
    eexists; split; [done|]. apply (rep_update xt m); unfold part_nodes; simpl; [done|done|..].
    + intros o n Hn. destruct (part_cache _ _ _ _ _ Hr Hn) as (? & ? & ? & Hin). split_and!; [done..|].
      rewrite Hel. intros [->|?]; [by apply (Hno nk)|done].
    + intros n [->|Hn]%Hel; [done|]. by apply (part_tree _ _ _ _ Hr Hn).
    + intros k n. rewrite Hm. case_decide as Hi.
      * rewrite (member_part _ _ _ Hi), Hel. naive_solver.
      * naive_solver.
  - eexists; split; [done|]. apply (rep_update xt m); unfold part_nodes; simpl; [done|apply (xr_ok _ _ Hr)|..].
    + intros o n [[<- <-]|[Ho Hn]]%lookup_insert_Some.
      * split_and!; [done..|]. intros Hin. apply (Hno nk); [|done]. by right.
      * by destruct (part_cache _ _ _ _ _ Hr Hn) as (? & ? & ? & Hin).
    + intros n Hn. by apply (part_tree _ _ _ _ Hr Hn).
    + intros k n. rewrite Hm. case_decide as Hi; [|naive_solver].
      rewrite (member_part _ _ _ Hi), lookup_insert_Some. fold t. split; [|naive_solver].
      intros [[->|[Hn|Hn]] Hk]; [naive_solver| |naive_solver]. split; [|done]. left. right. split; [|done].
      intros Ho. rewrite Ho in Hc. unfold t in *. congruence.
Qed.

(** The removal of a node of the map deletes it. *)
Lemma rep_remove xt m nk :
  xt_rep xt m -> m !! key nk = Some nk ->
  exists xt', rbtree_x_cached_remove xt nk (hash nk) = Some xt' /\ xt_rep xt' (delete (key nk) m).
Proof using O.
  intros Hr Hold. unfold rbtree_x_cached_remove, has_flag. rewrite (xr_flags _ _ Hr). simpl.
  set (t := rbtx_partition_of_scalar xt (hash nk)).
  assert (forall n, xt_member xt n -> key n = key nk -> n = nk) as Hsame.
  { intros n Hn Hk. assert (m !! key nk = Some n) by by apply (xr_map _ _ Hr). congruence. }
  assert (xt_member xt nk) as Hin by by apply (xr_map _ _ Hr) in Hold as [].
  assert (forall n k, delete (key nk) m !! k = Some n <-> (n <> nk /\ xt_member xt n) /\ key n = k) as Hm.
  { intros n k. rewrite lookup_delete_Some, (xr_map _ _ Hr). naive_solver. }
  assert ((match xp_cache t !! (hash nk `mod` xt_cachesz xt) with Some v => cmpf nk v =? 0 | None => false end) = true
          <-> xp_cache t !! (hash nk `mod` xt_cachesz xt) = Some nk) as Hhit.
  { destruct (xp_cache t !! _) as [v|] eqn:Hv; [|naive_solver]. rewrite Z.eqb_eq, cmpf_zero. split; [|naive_solver].
    intros Hk. f_equal. apply Hsame; [|done]. by apply (part_cache _ _ _ _ _ Hr Hv). }
  destruct (match _ with Some v => _ | None => _ end).
  - destruct Hhit as [Hhit _]. specialize (Hhit eq_refl). eexists; split; [done|].
    apply (rep_update xt m); unfold part_nodes; simpl; [done|apply (xr_ok _ _ Hr)|..].
    + intros o n [Ho Hn]%lookup_delete_Some. by destruct (part_cache _ _ _ _ _ Hr Hn) as (? & ? & ? & ?).
    + intros n Hn. by apply (part_tree _ _ _ _ Hr Hn).
    + intros k n. rewrite Hm. case_decide as Hi; [|naive_solver].
      rewrite (member_part _ _ _ Hi), lookup_delete_Some. fold t.
      assert (nk ∉ part_nodes t) by by apply (part_cache _ _ _ _ _ Hr Hhit).
      split; [|naive_solver]. intros [[Hne [Hn|Hn]] Hk]; (split; [|done]); [left|by right].
      split; [|done]. intros Ho. rewrite <- Ho in Hn. congruence.
  - assert (xp_cache t !! (hash nk `mod` xt_cachesz xt) <> Some nk) as Hmiss by (intros ?; naive_solver).
    assert (nk ∈ part_nodes t) by by destruct Hin. clear Hhit.
    destruct (remove_spec cmpf key (xp_t t) nk (xr_ok _ _ Hr _)) as (t' & -> & Hok' & Hel). simpl.
    eexists; split; [done|]. apply (rep_update xt m); unfold part_nodes; simpl; [done|done|..].
    + intros o n Hn. destruct (part_cache _ _ _ _ _ Hr Hn) as (? & ? & Hno & ?). split_and!; [done..|].
      rewrite Hel. naive_solver.
    + intros n [? Hn]%Hel. by apply (part_tree _ _ _ _ Hr Hn).
    + intros k n. rewrite Hm. case_decide as Hi; [|naive_solver].
      rewrite (member_part _ _ _ Hi), Hel. fold t. naive_solver.
Qed.

Lemma rep_init npart cachesz : xt_rep (rbtx_init npart cachesz (Z.lor RBT_X_FLAG_ALLOC RBT_X_FLAG_CACHE_WT)) ∅.
Proof.
  constructor; [|done|..]; unfold rbtx_init, rbtx_partition_of_ix; simpl.
  - intros ix. rewrite lookup_empty. apply rb_ok_init.
  - intros ix o n. rewrite lookup_empty. simpl. by rewrite lookup_empty.
  - intros ix n. rewrite lookup_empty. by intros ?%elem_of_nil.
  - intros k n. rewrite lookup_empty. split; [done|]. intros [[Hn|Hn] _]; revert Hn;
      unfold rbtx_partition_of_scalar, rbtx_partition_of_ix; simpl; rewrite lookup_empty; simpl.
    + by rewrite lookup_empty.
    + by intros ?%elem_of_nil.
Qed.
End rbtree_x.
