(* ===== verification/RbtTree.v ===== *)
(** * The red-black trees of the hash table

    The macros of [include/rbt_tree.h].  Unlike the trees of [Rbtree] these may hold several nodes
    with the same value, and the header also points to the first and the last node.  Trees and
    positions are those of [Rbtree]; a pointer to a node is its position where the macros follow
    links from it ([locate]).  Reading through a NULL pointer, or the value of a node that is not
    there, has no result. *)
From S2P Require Import Prelude Rbtree.
Local Open Scope Z_scope.

(** A list without repetition splits at an element in one way. *)
Lemma NoDup_middle {A} (x : A) l k l' k' : l ++ x :: k = l' ++ x :: k' -> NoDup (l ++ x :: k) -> l = l' /\ k = k'.
Proof.
  revert l'. induction l as [|y l IH]; intros [|y' l']; simpl; intros E Hnd; simplify_eq; [done|..].
  - exfalso. apply NoDup_cons in Hnd as [Hn _]. set_solver.
  - exfalso. apply NoDup_cons in Hnd as [Hn _]. set_solver.
  - apply NoDup_cons in Hnd as [_ Hnd]. by destruct (IH l') as [-> ->].
Qed.

Section rbt.
Context {node : Type} `{EqDecision node}.

Record rbt_head : Type := {
  rbt_root : @tree node;
  rbt_leftmost : option node;
  rbt_rightmost : option node;
  rbt_num_node : Z
}.

Definition RBT_HEAD_INIT : rbt_head :=
  {| rbt_root := Leaf; rbt_leftmost := None; rbt_rightmost := None; rbt_num_node := 0 |}.

Definition has_node (t : @tree node) : bool := match t with Leaf => false | _ => true end.

(** ** Moving *)

Definition frame_node (f : @frame node) : node := match f with InLeft _ n _ => n | InRight _ _ n => n end.

(** [__node->parent] of a position, and the loop that climbs as long as it comes from the right. *)
Definition parent_node (p : list (@frame node)) : option node := frame_node <$> head p.
Fixpoint climb (p : list (@frame node)) : option node :=
  match p with
  | [] => None
  | InRight _ _ _ :: p => climb p
  | InLeft _ n _ :: _ => Some n
  end.

Definition first_node (t : @tree node) : option node := '(_, n, _, _) ← leftmost t []; Some n.
Fixpoint last_node (t : @tree node) : option node :=
  match t with Leaf => None | Node _ _ n Leaf => Some n | Node _ _ _ r => last_node r end.

Definition RBT_INCREMENT (header : rbt_head) (n : node) : option (option node) :=
  '(_, _, r, p) ← locate n (rbt_root header) [];
  match r with Leaf => Some (climb p) | _ => Some (first_node r) end.

(** ** Searching *)

Section find.
(** [RBT_VALUE] *)
Context (value : node -> option Z).

Fixpoint find_loop (x : @tree node) (n : option node) (val : Z) : option (option node) :=
  match x with
  | Leaf => Some n
  | Node _ l a r =>
      v ← value a;
      if val <? v then find_loop l (Some a) val
      else if v <? val then find_loop r (Some a) val
      else Some (Some a)
  end.

Definition RBT_FIND (header : rbt_head) (val : Z) : option (option node) := find_loop (rbt_root header) None val.

(** The two inner loops, each having gone to a child [x]: to the left while the value is not
    smaller, then to the right up to a node with the value. *)
Fixpoint find_left_in (leftwards : bool) (x : @tree node) (n : option node) (val : Z) : option (option node) :=
  match x with
  | Leaf => Some n
  | Node _ l a r =>
      v ← value a;
      if leftwards then
        if v <? val then find_left_in false r n val else find_left_in true l (Some a) val
      else
        if v =? val then find_left_in true l (Some a) val else find_left_in false r n val
  end.

Fixpoint RBT_FIND_LEFT_loop (x : @tree node) (val : Z) : option (option node) :=
  match x with
  | Leaf => Some None
  | Node _ l a r =>
      v ← value a;
      if val <? v then RBT_FIND_LEFT_loop l val
      else if v <? val then RBT_FIND_LEFT_loop r val
      else find_left_in true l (Some a) val
  end.

Definition RBT_FIND_LEFT (header : rbt_head) (val : Z) : option (option node) := RBT_FIND_LEFT_loop (rbt_root header) val.

(** ** Insertion *)

(** The loop: the node [t] at the path [p] becomes red if it has a parent. *)
Fixpoint insert_fix (t : @tree node) (p : list (@frame node)) : option (@tree node) :=
  match p with
  | [] => Some t
  | f :: p' =>
      let t := set_red true t in
      let parent := fill f t in
      if negb (is_red parent) then Some (plug t p)
      else
        match p' with
        | [] => None
        | InLeft red gramps y :: rest =>
            if is_red y then insert_fix (Node red (set_red false parent) gramps (set_red false y)) rest
            else
              x ← (match f with InRight _ _ _ => rotateleft parent | InLeft _ _ _ => Some parent end);
              x ← rotateright (Node true (set_red false x) gramps y);
              Some (plug x rest)
        | InRight red y gramps :: rest =>
            if is_red y then insert_fix (Node red (set_red false y) gramps (set_red false parent)) rest
            else
              x ← (match f with InLeft _ _ _ => rotateright parent | InRight _ _ _ => Some parent end);
              x ← rotateleft (Node true y gramps (set_red false x));
              Some (plug x rest)
        end
  end.

(** The last node below a child. *)
Fixpoint rightmost (t : @tree node) (p : list (@frame node)) : option (bool * @tree node * node * list (@frame node)) :=
  match t with
  | Leaf => None
  | Node red l n Leaf => Some (red, l, n, p)
  | Node red l n r => rightmost r (InRight red l n :: p)
  end.

(** The node [n] at the path [p], with the new first and last node. *)
Definition insert_at (header : rbt_head) (n : node) (p : list (@frame node)) (lm rm : option node) : option rbt_head :=
  root ← insert_fix (Node false Leaf n Leaf) p;
  Some {| rbt_root := root; rbt_leftmost := lm; rbt_rightmost := rm; rbt_num_node := u32 (rbt_num_node header + 1) |}.

Definition RBT_INSERT (header : rbt_head) (n : node) (par : option node) : option rbt_head :=
  match par with
  | None => insert_at header n [] (Some n) (Some n)
  | Some y =>
      '(red, l, r, p) ← locate y (rbt_root header) [];
      vn ← value n;
      vy ← value y;
      if (vn =? vy) && has_node r && has_node l then
        '(c, ml, m, q) ← rightmost l [];
        insert_at header n (InRight c ml m :: q ++ InLeft red y r :: p) (rbt_leftmost header) (rbt_rightmost header)
      else if (vy <? vn) || ((vn =? vy) && has_node l) then
        insert_at header n (InRight red l y :: p) (rbt_leftmost header)
          (if decide (rbt_rightmost header = Some y) then Some n else rbt_rightmost header)
      else
        insert_at header n (InLeft red y r :: p)
          (if decide (rbt_leftmost header = Some y) then Some n else rbt_leftmost header) (rbt_rightmost header)
  end.

End find.

(** ** Removal *)

(** The loop: the subtree [t] (or NULL) at the path [p] is one black node short. *)
Fixpoint unlink_fix (fuel : nat) (t : @tree node) (p : list (@frame node)) : option (@tree node) :=
  match fuel with
  | O => None
  | S fuel =>
      match p with
      | [] => Some (set_red false t)
      | f :: rest =>
          if is_red t then Some (plug (set_red false t) p)
          else
            match f with
            | InLeft red z y =>
                '(red, y, rest) ← (match y with
                  | Leaf => None
                  | Node true yl a yr => Some (true, yl, InLeft false a yr :: rest)
                  | Node false _ _ _ => Some (red, y, rest)
                  end);
                match y with
                | Leaf => None
                | Node _ yl a yr =>
                    if negb (is_red yl) && negb (is_red yr) then
                      unlink_fix fuel (Node red t z (Node true yl a yr)) rest
                    else
                      y ← (if negb (is_red yr) then rotateright (Node true (set_red false yl) a yr) else Some y);
                      match y with
                      | Leaf => None
                      | Node _ yl a yr =>
                          t' ← rotateleft (Node false t z (Node red yl a (set_red false yr)));
                          Some (plug t' rest)
                      end
                end
            | InRight red y z =>
                '(red, y, rest) ← (match y with
                  | Leaf => None
                  | Node true yl a yr => Some (true, yr, InRight false yl a :: rest)
                  | Node false _ _ _ => Some (red, y, rest)
                  end);
                match y with
                | Leaf => None
                | Node _ yl a yr =>
                    if negb (is_red yl) && negb (is_red yr) then
                      unlink_fix fuel (Node red (Node true yl a yr) z t) rest
                    else
                      y ← (if negb (is_red yl) then rotateleft (Node true yl a (set_red false yr)) else Some y);
                      match y with
                      | Leaf => None
                      | Node _ yl a yr =>
                          t' ← rotateright (Node false (Node red (set_red false yl) a yr) z t);
                          Some (plug t' rest)
                      end
                end
            end
      end
  end.

(** The subtree [x] takes the place of a node that was [red]. *)
Definition unlink_out (red : bool) (x : @tree node) (p : list (@frame node)) : option (@tree node) :=
  if red then Some (plug x p) else unlink_fix (S (S (length p))) x p.

Definition RBT_UNLINK (header : rbt_head) (n : node) : option rbt_head :=
  '(red, l, r, p) ← locate n (rbt_root header) [];
  '(root, lm, rm) ← (match l, r with
    | Node _ _ _ _, Node _ _ _ _ =>
        '(yred, y, x, q) ← leftmost r [];
        root ← unlink_out yred x (q ++ InRight red l y :: p);
        Some (root, rbt_leftmost header, rbt_rightmost header)
    | _, _ =>
        let x := match r with Leaf => l | _ => r end in
        root ← unlink_out red x p;
        Some (root,
              if decide (rbt_leftmost header = Some n) then
                match x with Leaf => parent_node p | _ => first_node x end
              else rbt_leftmost header,
              if decide (rbt_rightmost header = Some n) then
                match x with Leaf => parent_node p | _ => last_node x end
              else rbt_rightmost header)
    end);
  Some {| rbt_root := root; rbt_leftmost := lm; rbt_rightmost := rm; rbt_num_node := u32 (rbt_num_node header - 1) |}.

(** ** Balance

    Both tree libraries rebalance alike: this one leaves out to paint the root, which is black
    anyway. *)

Definition frame_red (f : @frame node) : bool := match f with InLeft red _ _ => red | InRight red _ _ => red end.

(** The colour of the root above a position. *)
Definition path_red (p : list (@frame node)) : bool := default false (frame_red <$> last p).

Lemma is_red_fill f (t : @tree node) : is_red (fill f t) = frame_red f.
Proof. by destruct f. Qed.

Lemma is_red_plug f p (t : @tree node) : is_red (plug t (f :: p)) = path_red (f :: p).
Proof.
  revert f t. induction p as [|g p IH]; intros f t; [apply is_red_fill|]. change (is_red (plug (fill f t) (g :: p)) = path_red (g :: p)). apply IH.
Qed.

Lemma set_red_black (t : @tree node) : is_red t = false -> set_red false t = t.
Proof. destruct t; simpl; [done|by intros ->]. Qed.

Lemma plug_black (t : @tree node) p : path_red p = false -> (p = [] -> is_red t = false) -> set_red false (plug t p) = plug t p.
Proof. intros Hp Ht. apply set_red_black. destruct p as [|f p]; [by apply Ht|]. by rewrite is_red_plug. Qed.

Lemma path_red_cons f p : path_red (f :: p) = false -> path_red p = false /\ (p = [] -> frame_red f = false).
Proof. unfold path_red. destruct p as [|g p]; simpl; [auto|]. by intros. Qed.

Lemma rb_path_black any h (p : list (@frame node)) : rb_path any h p -> path_red p = false /\ (any = true -> p <> []).
Proof.
  induction 1 as [|any h n r p _ _ [IH _]|any h l n p _ _ [IH _]|h n r p _ _ [IH Hn]|h l n p _ _ [IH Hn]]; (split; [|done]); [done|..].
  1, 2: by destruct p.
  all: destruct p; [by destruct (Hn eq_refl)|done].
Qed.

Lemma unlink_fix_eq fuel (t : @tree node) p : path_red p = false -> unlink_fix fuel t p = remove_recolour fuel t p.
Proof.
  revert t p. induction fuel as [|fuel IH]; intros t p Hp; [done|].
  destruct p as [|f rest]; [simpl; by destruct (is_red t)|].
  apply path_red_cons in Hp as [Hr Hf]. simpl. destruct (is_red t); [done|].
  destruct f as [red z y|red y z]; simpl in Hf.
  - destruct y as [|yc yl a yr]; [done|]. destruct yc; simpl.
    + destruct yl as [|? ? ? ?]; [done|]. destruct (negb (is_red _) && negb (is_red _)); [apply IH; by destruct rest|].
      destruct (if negb (is_red _) then _ else _) as [[|? ? ? ?]|]; simpl; [done| |done]. f_equal. symmetry. apply plug_black; by destruct rest.
    + destruct (negb (is_red _) && negb (is_red _)); [by apply IH|].
      destruct (if negb (is_red _) then _ else _) as [[|? ? ? ?]|]; simpl; [done| |done]. f_equal. symmetry. by apply plug_black.
  - destruct y as [|yc yl a yr]; [done|]. destruct yc; simpl.
    + destruct yr as [|? ? ? ?]; [done|]. destruct (negb (is_red _) && negb (is_red _)); [apply IH; by destruct rest|].
      destruct (if negb (is_red _) then _ else _) as [[|? ? ? ?]|]; simpl; [done| |done]. f_equal. symmetry. apply plug_black; by destruct rest.
    + destruct (negb (is_red _) && negb (is_red _)); [by apply IH|].
      destruct (if negb (is_red _) then _ else _) as [[|? ? ? ?]|]; simpl; [done| |done]. f_equal. symmetry. by apply plug_black.
Qed.

Lemma insert_fix_eq any h l n r (p : list (@frame node)) : rb_path any h p -> insert_fix (Node false l n r) p = insert_recolour (Node true l n r) p.
Proof.
  revert any h l n r. induction p as [p IH] using (induction_ltof1 _ length). unfold ltof in IH. intros any h l n r Hp.
  destruct (rb_path_black _ _ _ Hp) as [Hb _].
  inversion Hp as [h1|any1 h1 m x p1 Hx Hp1|any1 h1 x m p1 Hx Hp1|h1 m x p1 Hx Hp1|h1 x m p1 Hx Hp1]; subst; simpl; [done|..].
  1, 2: f_equal; symmetry; apply plug_black; [by apply path_red_cons in Hb as [? _]|done].
  all: apply path_red_cons in Hb as [Hb _].
  all: inversion Hp1 as [|any2 h2 g u rest Hu Hrest|any2 h2 u g rest Hu Hrest| |]; subst; simpl; apply path_red_cons in Hb as [Hb _].
  all: destruct (is_red u); [eapply IH; [simpl; lia|done]|].
  all: simpl; f_equal; symmetry; by apply plug_black.
Qed.

(** ** Nodes next to a position *)

Lemma first_node_head (t : @tree node) : first_node t = head (nodes t).
Proof.
  destruct t as [|c l n r]; [done|]. unfold first_node.
  destruct (leftmost_found (Node c l n r) []) as (c' & m & r' & q & -> & -> & _); done.
Qed.

Lemma last_node_last (t : @tree node) : last_node t = last (nodes t).
Proof.
  induction t as [|c l _ n r IH]; [done|]. destruct r as [|c' l' n' r']; [simpl; by rewrite last_snoc|].
  change (last_node (Node c' l' n' r') = last (nodes l ++ [n] ++ nodes (Node c' l' n' r'))).
  rewrite IH, !last_app. destruct (last (nodes (Node c' l' n' r'))) eqn:E; [done|]. apply last_None, app_eq_nil in E as [_ ?]. done.
Qed.

Lemma climb_after (p : list (@frame node)) : climb p = head (after p).
Proof. induction p as [|[] p IH]; simpl; auto. Qed.

Lemma plug_app (t : @tree node) p q : plug t (p ++ q) = plug (plug t p) q.
Proof. revert t. induction p as [|f p IH]; intros t; simpl; [done|apply IH]. Qed.

Lemma rightmost_found (t : @tree node) p : t <> Leaf -> exists c l m q, rightmost t [] = Some (c, l, m, q) /\
  nodes t = before q ++ nodes l ++ [m] /\ after q = [] /\ (rb_at t p -> rb_at (Node c l m Leaf) (q ++ p)).
Proof.
  assert (forall q0, t <> Leaf -> exists c l m q, rightmost t q0 = Some (c, l, m, q ++ q0) /\
    nodes t = before q ++ nodes l ++ [m] /\ after q = [] /\
    forall p, rb_at t p -> rb_at (Node c l m Leaf) (q ++ p)) as Hgen.
  { induction t as [|c l _ y r IHr]; intros q0; [done|]. intros _. destruct r as [|rc rl ry rr] eqn:Er.
    - exists c, l, y, []. done.
    - destruct (IHr (InRight c l y :: q0)) as (c' & l' & m & q & E & He & Ha & Hrb); [done|].
      exists c', l', m, (q ++ [InRight c l y]). rewrite before_app, after_app, Ha, <- app_assoc. split_and!.
      + simpl in *. by rewrite E.
      + transitivity (nodes l ++ [y] ++ nodes (Node rc rl ry rr)); [done|]. rewrite He. simpl. by rewrite <- ?app_assoc.
      + done.
      + intros p' Hp. rewrite <- app_assoc. by eapply Hrb, rb_at_right. }
  intros Ht. destruct (Hgen [] Ht) as (c & l & m & q & E & ? & ? & ?). rewrite app_nil_r in E. eauto 10.
Qed.

(** A node is found where it is. *)
Lemma locate_at red l n r (p q : list (@frame node)) :
  NoDup (nodes (plug (Node red l n r) p)) -> locate n (plug (Node red l n r) p) q = Some (red, l, r, p ++ q).
Proof.
  revert q. induction p as [|f p IH] using rev_ind; intros q Hnd; [simpl; by rewrite decide_True|].
  rewrite plug_app in *. rewrite <- app_assoc. simpl in *.
  assert (n ∈ nodes (plug (Node red l n r) p)) as Hn by (rewrite nodes_plug; simpl; set_solver).
  destruct f as [c m x|c x m]; simpl in *.
  - apply NoDup_app in Hnd as (Hnd & Hdis & _). rewrite decide_False by (intros ->; apply (Hdis n); set_solver).
    by rewrite IH.
  - apply NoDup_app in Hnd as (_ & Hdis & Hnd). apply NoDup_cons in Hnd as [Hm Hnd].
    rewrite decide_False by (intros ->; done). rewrite (proj2 (locate_none n x _)) by (intros ?; apply (Hdis n); set_solver).
    by rewrite IH.
Qed.

Lemma located n (t : @tree node) : n ∈ nodes t -> exists red l r p, locate n t [] = Some (red, l, r, p) /\ t = plug (Node red l n r) p.
Proof.
  intros Hn. destruct (locate n t []) as [[[[red l] r] p]|] eqn:E.
  - apply locate_found in E as [E _]. eauto 10.
  - by apply locate_none in E.
Qed.

Lemma rb_at_root h (t : @tree node) : rb false h t -> rb_at t [].
Proof. intros H. exists false, h. split; [done|constructor]. Qed.

(** ** The header *)

Record rbt_ok (header : rbt_head) : Prop := {
  ok_rb : exists h, rb false h (rbt_root header);
  ok_nodup : NoDup (nodes (rbt_root header));
  ok_left : rbt_leftmost header = head (nodes (rbt_root header));
  ok_right : rbt_rightmost header = last (nodes (rbt_root header));
  ok_num : rbt_num_node header = u32 (Z.of_nat (length (nodes (rbt_root header))))
}.

Lemma rbt_ok_init : rbt_ok RBT_HEAD_INIT.
Proof. split; try done; [exists O; constructor|constructor]. Qed.

Lemma RBT_INCREMENT_spec header a n b :
  rbt_ok header -> nodes (rbt_root header) = a ++ n :: b -> RBT_INCREMENT header n = Some (head b).
Proof.
  intros Hok E. unfold RBT_INCREMENT. destruct (located n (rbt_root header)) as (red & l & r & p & -> & Er); [rewrite E; set_solver|].
  simpl. pose proof (ok_nodup _ Hok) as Hnd. rewrite Er, nodes_plug in E, Hnd. simpl in E, Hnd. rewrite <- app_assoc, app_assoc in E, Hnd. simpl in E, Hnd.
  apply NoDup_middle in E as [_ <-]; [|done].
  destruct r as [|rc rl rn rr]; [by rewrite climb_after|]. rewrite first_node_head. simpl. by destruct (nodes rl).
Qed.

(** ** Removal *)

Lemma unlink_out_eq red (x : @tree node) p : path_red p = false -> unlink_out red x p = take_out red x p.
Proof. intros Hp. unfold unlink_out, take_out. destruct red; [done|]. by apply unlink_fix_eq. Qed.

Lemma rb_at_black (t : @tree node) p : rb_at t p -> path_red p = false.
Proof. intros (any & h & _ & Hp). by apply rb_path_black in Hp as [? _]. Qed.

Lemma path_red_app (q : list (@frame node)) f p : path_red (q ++ f :: p) = path_red (f :: p).
Proof. unfold path_red. by rewrite last_app_cons. Qed.

Lemma nodes_nil (t : @tree node) : nodes t = [] -> t = Leaf.
Proof. destruct t; [done|]. simpl. by intros [_ ?]%app_eq_nil. Qed.

Lemma head_parent (p : list (@frame node)) : before p = [] -> parent_node p = head (after p).
Proof. destruct p as [|[c n r|c l n] p]; simpl; [done..|]. by intros [_ [_ ?]%app_eq_nil]%app_eq_nil. Qed.

Lemma last_parent (p : list (@frame node)) : after p = [] -> parent_node p = last (before p).
Proof. destruct p as [|[c n r|c l n] p]; simpl; [done..|]. intros _. by rewrite app_assoc, last_snoc. Qed.

Lemma head_app_ne {A} (l k k' : list A) : l <> [] -> head (l ++ k) = head (l ++ k').
Proof. by destruct l. Qed.

Lemma last_app_ne {A} (l k : list A) : k <> [] -> last (l ++ k) = last k.
Proof. destruct k; [done|]. intros _. apply last_app_cons. Qed.

Lemma head_middle {A} (l k : list A) x : NoDup (l ++ x :: k) -> head (l ++ x :: k) = Some x <-> l = [].
Proof.
  intros Hnd. destruct l as [|y l]; [done|]. split; [|done]. simpl. intros [= ->]. apply NoDup_cons in Hnd as [Hn _]. set_solver.
Qed.

Lemma last_middle {A} (l k : list A) x : NoDup (l ++ x :: k) -> last (l ++ x :: k) = Some x <-> k = [].
Proof.
  intros Hnd. destruct k as [|y k]; [by rewrite last_snoc|]. split; [|done]. rewrite last_app. intros E.
  apply NoDup_app in Hnd as (_ & _ & [Hn _]%NoDup_cons). destruct Hn.
  change (last (x :: y :: k)) with (last (y :: k)) in E. destruct (last (y :: k)) eqn:E2; [|by apply last_None in E2].
  simplify_eq. by apply last_Some_elem_of in E2.
Qed.

Lemma RBT_UNLINK_spec header a n b :
  rbt_ok header -> nodes (rbt_root header) = a ++ n :: b ->
  exists header', RBT_UNLINK header n = Some header' /\ rbt_ok header' /\ nodes (rbt_root header') = a ++ b.
Proof.
  intros Hok E. unfold RBT_UNLINK. destruct (located n (rbt_root header)) as (red & l & r & p & -> & Er); [rewrite E; set_solver|].
  simpl. pose proof (ok_nodup _ Hok) as Hnd. pose proof (ok_left _ Hok) as Hl. pose proof (ok_right _ Hok) as Hr.
  destruct (ok_rb _ Hok) as [h Hrb]. pose proof (ok_num _ Hok) as Hnum. rewrite E in Hl, Hr, Hnd, Hnum.
  assert (rb_at (Node red l n r) p) as Hat.
  { apply (locate_found n (rbt_root header) []); [|by eapply rb_at_root]. rewrite Er. rewrite Er in E. rewrite <- (app_nil_r p) at 2.
    apply locate_at. by rewrite E. }
  destruct (remove_at_ok red l n r p Hat) as (t' & h' & Et & Hrb' & Hn).
  rewrite Er, nodes_plug in E. simpl in E. rewrite <- app_assoc, app_assoc in E. simpl in E. symmetry in E.
  apply NoDup_middle in E as [-> ->]; [|done].
  assert (forall lm rm, lm = head (nodes t') -> rm = last (nodes t') ->
    rbt_ok {| rbt_root := t'; rbt_leftmost := lm; rbt_rightmost := rm; rbt_num_node := u32 (rbt_num_node header - 1) |}) as Hend.
  { intros lm rm -> ->. split; simpl; [eauto| |done..|]; rewrite Hn.
    - apply NoDup_app in Hnd as (Ha & Hdis & [_ Hb]%NoDup_cons). apply NoDup_app. split_and!; [done| |done]. set_solver.
    - rewrite Hnum, !length_app; simpl; rewrite ?length_app. unfold u32, wrapu. rewrite Zminus_mod_idemp_l. f_equal. lia. }
  rewrite Hn in Hend. pose proof (rb_at_black _ _ Hat) as Hblack.
  assert (forall x, (l = Leaf /\ x = r) \/ (r = Leaf /\ x = l) -> unlink_out red x p = Some t' -> exists header' : rbt_head,
    ('(root, lm, rm) ← (root ← unlink_out red x p;
        Some (root,
              if decide (rbt_leftmost header = Some n) then match x with Leaf => parent_node p | _ => first_node x end else rbt_leftmost header,
              if decide (rbt_rightmost header = Some n) then match x with Leaf => parent_node p | _ => last_node x end else rbt_rightmost header));
     Some {| rbt_root := root; rbt_leftmost := lm; rbt_rightmost := rm; rbt_num_node := u32 (rbt_num_node header - 1) |}) = Some header' /\
    rbt_ok header' /\ nodes (rbt_root header') = (before p ++ nodes l) ++ nodes r ++ after p) as Hone.
  { intros x Hx ->. simpl. eexists. split; [done|]. split; [|done]. apply Hend.
    - rewrite Hl. case_decide as Hc.
      + apply head_middle in Hc; [|done]. rewrite Hc. apply app_eq_nil in Hc as [Hp Hc]. simpl.
        assert (x = r) as -> by (destruct Hx as [[_ ->]|[-> ->]]; [done|by apply nodes_nil]).
        destruct r; [by apply head_parent|]. rewrite first_node_head. simpl. by destruct (nodes r1).
      + apply head_app_ne. intros Hc'. apply Hc, head_middle; done.
    - rewrite Hr. case_decide as Hc.
      + apply last_middle in Hc; [|done]. rewrite Hc, app_nil_r. apply app_eq_nil in Hc as [Hc Hp].
        assert (x = l) as -> by (destruct Hx as [[-> ->]|[_ ->]]; [by apply nodes_nil|done]).
        destruct l as [|lc l1 ln l2]; [simpl; rewrite app_nil_r; by apply last_parent|]. rewrite last_node_last. symmetry. apply last_app_ne. simpl. by destruct (nodes l1).
      + assert (nodes r ++ after p <> []) as Hc' by (intros Hc'; apply Hc, last_middle; done).
        rewrite !(last_app_ne (before p ++ nodes l)) by done. by destruct (nodes r ++ after p). }
  destruct l as [|lc l1 ln l2], r as [|rc r1 rn r2]; simpl in Et |- *.
  - apply Hone; [auto|]. by rewrite unlink_out_eq.
  - apply (Hone (Node rc r1 rn r2)); [auto|]. by rewrite unlink_out_eq.
  - apply (Hone (Node lc l1 ln l2)); [auto|]. by rewrite unlink_out_eq.
  - clear Hone. set (L := Node lc l1 ln l2) in *. destruct (leftmost (Node rc r1 rn r2) []) as [[[[yc y] x] q]|] eqn:El; simpl in El; rewrite El in Et |- *; [|done].
    simpl in Et |- *. rewrite unlink_out_eq by (rewrite path_red_app; unfold path_red in *; destruct p; [|done]; simpl in *;
      destruct Hat as (any & h1 & Hn1 & Hp1); inversion Hp1; subst; by inversion Hn1).
    rewrite Et. simpl. eexists. split; [done|]. split; [|done]. apply Hend.
    + rewrite Hl. apply head_app_ne. simpl. destruct (before p); [|done]. by destruct (nodes l1).
    + rewrite Hr, !(last_app_ne (before p ++ _)) by (simpl; by destruct (nodes r1)). simpl. by destruct (nodes r1).
Qed.

Lemma RBT_FIND_ext (value value' : node -> option Z) header v :
  (forall x, x ∈ nodes (rbt_root header) -> value x = value' x) -> RBT_FIND value header v = RBT_FIND value' header v.
Proof.
  unfold RBT_FIND. generalize (@None node) as o. generalize (rbt_root header) as t.
  induction t as [|c l IHl a r IHr]; intros o Hv; simpl in *; [done|]. rewrite Hv by set_solver. destruct (value' a); [|done]. simpl.
  destruct (_ <? _); [apply IHl; set_solver|]. destruct (_ <? _); [apply IHr; set_solver|done].
Qed.

(** ** A new node at a position *)

Lemma insert_at_spec header n p lm rm :
  rbt_ok header -> rb_at Leaf p -> nodes (rbt_root header) = before p ++ after p -> n ∉ nodes (rbt_root header) ->
  lm = head (before p ++ n :: after p) -> rm = last (before p ++ n :: after p) ->
  exists header', insert_at header n p lm rm = Some header' /\ rbt_ok header' /\ nodes (rbt_root header') = before p ++ n :: after p.
Proof.
  intros Hok (any & h & Hl & Hp) E Hn -> ->. unfold insert_at. rewrite (insert_fix_eq _ _ _ _ _ _ Hp).
  destruct (insert_recolour_rb p any h Leaf n Leaf) as (t' & h' & Et & Hrb); [by inversion Hl; subst; constructor..|done|].
  rewrite Et. simpl. eexists. split; [done|]. apply insert_recolour_nodes in Et. rewrite nodes_plug in Et. simpl in Et.
  split; [|done]. pose proof (ok_nodup _ Hok) as Hnd. rewrite E in Hnd, Hn.
  split; simpl; rewrite ?Et; [by exists h'| |done..|].
  - apply NoDup_app in Hnd as (Hb & Hdis & Ha). apply NoDup_app. split_and!; [done| |apply NoDup_cons; set_solver]. set_solver.
  - rewrite (ok_num _ Hok), E, !length_app. simpl. unfold u32, wrapu. rewrite Zplus_mod_idemp_l. f_equal. lia.
Qed.

(** ** The order *)

Section order.
Context (val : node -> Z).

Abbreviation ordered := (StronglySorted (fun a b => val a <= val b)).

Lemma ordered_middle l a r :
  ordered (l ++ a :: r) <-> ordered l /\ ordered r /\ (forall x, x ∈ l -> val x <= val a) /\ (forall x, x ∈ r -> val a <= val x).
Proof.
  rewrite StronglySorted_app, StronglySorted_cons, Forall_forall. setoid_rewrite elem_of_cons. split.
  - intros (Hlr & Hl & Hr & Ha). split_and!; auto.
  - intros (Hl & Hr & Hla & Har). split_and!; [|done..]. intros x y Hx [->|Hy]; [auto|]. specialize (Hla x Hx). specialize (Har y Hy). lia.
Qed.

(** ** Searching *)

Abbreviation first_with v := (List.find (fun a => val a =? v)).

Lemma find_none v l : (forall x, x ∈ l -> val x <> v) -> first_with v l = None.
Proof.
  induction l as [|a l IH]; intros H; simpl; [done|]. destruct (Z.eqb_spec (val a) v); [by destruct (H a); [left|]|]. apply IH. set_solver.
Qed.

Lemma find_app v l k : first_with v (l ++ k) = match first_with v l with Some a => Some a | None => first_with v k end.
Proof. induction l as [|a l IH]; simpl; [done|]. by destruct (val a =? v). Qed.

Context (value : node -> option Z).

(** Every node is there and has its value. *)
Definition valued (l : list node) : Prop := forall a, a ∈ l -> value a = Some (val a).

Lemma valued_app l k : valued (l ++ k) <-> valued l /\ valued k.
Proof. unfold valued. setoid_rewrite elem_of_app. naive_solver. Qed.

Lemma valued_cons a l : valued (a :: l) <-> value a = Some (val a) /\ valued l.
Proof. unfold valued. setoid_rewrite elem_of_cons. naive_solver. Qed.

Lemma find_left_in_spec b t n v :
  ordered (nodes t) -> valued (nodes t) -> (forall x, x ∈ nodes t -> val x <= v) ->
  find_left_in value b t n v = Some match first_with v (nodes t) with Some a => Some a | None => n end.
Proof.
  revert b n. induction t as [|c l IHl a r IHr]; intros b n Ho Hv Hle; [done|]. simpl in *.
  apply ordered_middle in Ho as (Hol & Hor & Hla & Har). apply valued_app in Hv as [Hvl [Ea Hvr]%valued_cons]. rewrite Ea. simpl.
  assert (val a <= v) as Ha by (apply Hle; set_solver).
  assert ((forall x, x ∈ nodes l -> val x <= v) /\ forall x, x ∈ nodes r -> val x <= v) as [Hl Hr] by (split; set_solver).
  rewrite find_app. simpl. destruct (Z.eqb_spec (val a) v) as [->|Hne].
  - rewrite Z.ltb_irrefl. replace (if b then _ else _) with (find_left_in value true l (Some a) v) by by destruct b.
    rewrite IHl by done. by destruct (first_with v (nodes l)).
  - rewrite (proj2 (Z.ltb_lt _ _)) by lia. replace (if b then _ else _) with (find_left_in value false r n v) by by destruct b.
    rewrite IHr by done. rewrite (find_none v (nodes l)); [done|]. intros x Hx. specialize (Hla x Hx). lia.
Qed.

(** The first node with the value. *)
Lemma RBT_FIND_LEFT_spec header v :
  ordered (nodes (rbt_root header)) -> valued (nodes (rbt_root header)) ->
  RBT_FIND_LEFT value header v = Some (first_with v (nodes (rbt_root header))).
Proof.
  unfold RBT_FIND_LEFT. generalize (rbt_root header) as t. induction t as [|c l IHl a r IHr]; intros Ho Hv; [done|]. simpl in *.
  apply ordered_middle in Ho as (Hol & Hor & Hla & Har). apply valued_app in Hv as [Hvl [Ea Hvr]%valued_cons]. rewrite Ea. simpl.
  rewrite find_app. simpl. destruct (Z.ltb_spec v (val a)).
  - rewrite IHl by done. rewrite (proj2 (Z.eqb_neq _ _)) by lia. rewrite (find_none v (nodes r)); [by destruct (first_with v _)|].
    intros x Hx. specialize (Har x Hx). lia.
  - destruct (Z.ltb_spec (val a) v).
    + rewrite IHr by done. rewrite (proj2 (Z.eqb_neq _ _)) by lia. rewrite (find_none v (nodes l)); [done|].
      intros x Hx. specialize (Hla x Hx). lia.
    + rewrite (proj2 (Z.eqb_eq _ _)) by lia. rewrite find_left_in_spec; [by destruct (first_with v _)|done..|].
      intros x Hx. specialize (Hla x Hx). lia.
Qed.

(** ** Insertion *)

(** Where the search for the place of a new node ends: at a node with the value, or at the parent of
    a place that is free. *)
Lemma find_loop_spec t p v :
  ordered (nodes t) -> valued (nodes t) ->
  (forall x, x ∈ before p -> val x < v) -> (forall x, x ∈ after p -> v < val x) ->
  exists n, find_loop value t (parent_node p) v = Some n /\
    ((exists c l y r q, n = Some y /\ plug (Node c l y r) q = plug t p /\ (rb_at t p -> rb_at (Node c l y r) q) /\ val y = v) \/
     (exists q, n = parent_node q /\ plug Leaf q = plug t p /\ (rb_at t p -> rb_at Leaf q) /\
        (forall x, x ∈ before q -> val x < v) /\ (forall x, x ∈ after q -> v < val x))).
Proof.
  revert p. induction t as [|c l IHl a r IHr]; intros p Ho Hv Hb Ha; [simpl; eauto 10|].
  apply ordered_middle in Ho as (Hol & Hor & Hla & Har). apply valued_app in Hv as [Hvl [Ea Hvr]%valued_cons]. simpl. rewrite Ea. simpl.
  destruct (Z.ltb_spec v (val a)) as [Hlt|Hge].
  - destruct (IHl (InLeft c a r :: p)) as (n & E & Hn); [done..| |].
    { intros x. simpl. rewrite elem_of_cons, elem_of_app. intros [->|[Hx|Hx]]; [done| |auto]. specialize (Har x Hx). lia. }
    exists n. split; [done|]. simpl in Hn. destruct Hn as [(c' & l' & y & r' & q & Hn)|(q & Hn)]; [left|right].
    + exists c', l', y, r', q. naive_solver eauto using rb_at_left.
    + exists q. naive_solver eauto using rb_at_left.
  - destruct (Z.ltb_spec (val a) v) as [Hlt|Hge'].
    + destruct (IHr (InRight c l a :: p)) as (n & E & Hn); [done..| |done|].
      { intros x. simpl. rewrite !elem_of_app, list_elem_of_singleton. intros [Hx|[Hx| ->]]; [auto| |done]. specialize (Hla x Hx). lia. }
      exists n. split; [done|]. simpl in Hn. destruct Hn as [(c' & l' & y & r' & q & Hn)|(q & Hn)]; [left|right].
      * exists c', l', y, r', q. naive_solver eauto using rb_at_right.
      * exists q. naive_solver eauto using rb_at_right.
    + eexists. split; [done|]. left. exists c, l, a, r, p. split_and!; [done..|lia].
Qed.

(** A position between the smaller and the larger nodes. *)
Record place (header : rbt_head) (n : node) (p : list (@frame node)) : Prop := {
  pl_rb : rb_at Leaf p;
  pl_nodes : nodes (rbt_root header) = before p ++ after p;
  pl_before x : x ∈ before p -> val x <= val n;
  pl_after x : x ∈ after p -> val n <= val x
}.

(** Insertion at a position, with the first and last node of the result. *)
Abbreviation insert_between header n p :=
  (insert_at header n p (head (before p ++ n :: after p)) (last (before p ++ n :: after p))).

Lemma head_between l k (n y : node) : NoDup (l ++ y :: k) ->
  (if decide (head (l ++ y :: k) = Some y) then Some n else head (l ++ y :: k)) = head (l ++ n :: y :: k).
Proof. intros Hnd. case_decide as E; [by apply head_middle in E as ->|]. rewrite head_middle in E by done. by apply head_app_ne. Qed.

Lemma last_between l k (n y : node) : NoDup (l ++ y :: k) ->
  (if decide (last (l ++ y :: k) = Some y) then Some n else last (l ++ y :: k)) = last ((l ++ [y]) ++ n :: k).
Proof.
  intros Hnd. case_decide as E; [apply last_middle in E as ->; [by rewrite last_snoc|done]|]. rewrite last_middle in E by done.
  rewrite <- app_assoc. simpl. rewrite !last_app_cons. by destruct k.
Qed.

Lemma insert_free header n p :
  rbt_ok header -> valued (n :: nodes (rbt_root header)) -> plug Leaf p = rbt_root header ->
  (forall x, x ∈ before p -> val x < val n) -> (forall x, x ∈ after p -> val n < val x) ->
  RBT_INSERT value header n (parent_node p) = insert_between header n p.
Proof.
  intros Hok [En Hv]%valued_cons Ep Hb Ha. pose proof (ok_nodup _ Hok) as Hnd. pose proof (ok_left _ Hok) as Hl. pose proof (ok_right _ Hok) as Hr.
  destruct p as [|[c y r|c l y] p]; [done|..]; simpl in Ep |- *; (rewrite <- Ep, locate_at, app_nil_r by by rewrite Ep); simpl; rewrite En; simpl;
    (rewrite Hv by (rewrite <- Ep, nodes_plug; simpl; set_solver)); simpl; rewrite <- Ep, nodes_plug in Hl, Hr, Hnd; simpl in Hl, Hr, Hnd.
  - assert (val n < val y) by (apply Ha; left). rewrite (proj2 (Z.eqb_neq _ _)), (proj2 (Z.ltb_ge _ _)) by lia. simpl.
    rewrite Hl, Hr, head_between by done. f_equal. by rewrite !last_app_cons.
  - assert (val y < val n) by (apply Hb; set_solver). rewrite (proj2 (Z.eqb_neq _ _)), (proj2 (Z.ltb_lt _ _)) by lia. simpl.
    rewrite <- app_assoc, app_assoc in Hl, Hr, Hnd. simpl in Hl, Hr, Hnd. rewrite Hl, Hr, last_between, app_assoc by done. f_equal.
    by destruct (before p ++ nodes l).
Qed.

Lemma insert_here header n c l y r p :
  rbt_ok header -> ordered (nodes (rbt_root header)) -> valued (n :: nodes (rbt_root header)) -> plug (Node c l y r) p = rbt_root header ->
  rb_at (Node c l y r) p -> val y = val n ->
  exists p', RBT_INSERT value header n (Some y) = insert_between header n p' /\ place header n p'.
Proof.
  intros Hok Ho [En Hv]%valued_cons Ep Hat Ey. pose proof (ok_nodup _ Hok) as Hnd. pose proof (ok_left _ Hok) as Hl. pose proof (ok_right _ Hok) as Hr.
  simpl. rewrite <- Ep, locate_at, app_nil_r by by rewrite Ep. unfold mbind, option_bind. rewrite En, Hv by (rewrite <- Ep, nodes_plug; simpl; set_solver).
  rewrite Ey, Z.eqb_refl, Z.ltb_irrefl. simpl.
  assert (nodes (rbt_root header) = (before p ++ nodes l) ++ y :: nodes r ++ after p) as E by (rewrite <- Ep, nodes_plug; simpl; by rewrite <- !app_assoc).
  rewrite E in Hl, Hr, Ho, Hnd. apply ordered_middle in Ho as (_ & _ & Hly & Hyr). rewrite Ey in Hly, Hyr.
  destruct (has_node l) eqn:El; [destruct (has_node r) eqn:Er|]; simpl.
  - destruct (rightmost_found l (InLeft c y r :: p)) as (c' & l' & m & q & -> & Enl & Ha & Hrb); [by destruct l|]. simpl.
    exists (InRight c' l' m :: q ++ InLeft c y r :: p).
    assert (before (InRight c' l' m :: q ++ InLeft c y r :: p) = before p ++ nodes l) as Hbe by (simpl; by rewrite before_app, Enl, <- app_assoc).
    assert (after (InRight c' l' m :: q ++ InLeft c y r :: p) = y :: nodes r ++ after p) as Haf by (simpl; by rewrite after_app, Ha).
    rewrite Hbe, Haf. split; [|split; rewrite ?Hbe, ?Haf; [by eapply rb_at_right, Hrb, rb_at_left|done|done|]].
    + f_equal; [rewrite Hl; apply head_app_ne|by rewrite Hr, !last_app_cons]. destruct l as [|? l1 ? ?]; [done|]. simpl. by destruct (before p), (nodes l1).
    + intros x [->|Hx]%elem_of_cons; [lia|auto].
  - destruct r; [|done]. simpl in *. exists (InRight c l y :: p). simpl. split; [|split; simpl].
    + rewrite Hl, Hr, last_between, app_assoc by done. f_equal. by destruct (before p ++ nodes l).
    + by eapply rb_at_right.
    + rewrite E, <- !app_assoc. done.
    + intros x. rewrite app_assoc, elem_of_app, list_elem_of_singleton. intros [Hx| ->]; [auto|lia].
    + done.
  - destruct l; [|done]. simpl in *. rewrite app_nil_r in *. exists (InLeft c y r :: p). simpl. split; [|split; simpl].
    + rewrite andb_false_r, Hl, Hr, head_between by done. f_equal. by rewrite !last_app_cons.
    + by eapply rb_at_left.
    + done.
    + done.
    + intros x [->|Hx]%elem_of_cons; [lia|auto].
Qed.

(** A new node goes behind all smaller and before all larger ones. *)
Lemma RBT_INSERT_spec header n :
  rbt_ok header -> ordered (nodes (rbt_root header)) -> valued (n :: nodes (rbt_root header)) -> n ∉ nodes (rbt_root header) ->
  exists par header' a b, RBT_FIND value header (val n) = Some par /\ RBT_INSERT value header n par = Some header' /\ rbt_ok header' /\
    nodes (rbt_root header) = a ++ b /\ nodes (rbt_root header') = a ++ n :: b /\
    (forall x, x ∈ a -> val x <= val n) /\ (forall x, x ∈ b -> val n <= val x).
Proof.
  intros Hok Ho Hv Hn. destruct (ok_rb _ Hok) as [h Hrb].
  destruct (find_loop_spec (rbt_root header) [] (val n)) as (par & Ef & Hpar); [done|by apply valued_cons in Hv as [_ ?]|by intros ? ?%elem_of_nil..|].
  assert (exists p, RBT_INSERT value header n par = insert_between header n p /\ place header n p) as (p & Ei & Hp).
  { destruct Hpar as [(c & l & y & r & q & -> & Ep & Hat & Ey)|(q & -> & Ep & Hat & Hb & Ha)]; specialize (Hat (rb_at_root _ _ Hrb)).
    - by eapply insert_here.
    - exists q. split; [by apply insert_free|]. simpl in Ep. split; [done|by rewrite <- Ep, nodes_plug|..]; intros x Hx; [specialize (Hb x Hx)|specialize (Ha x Hx)]; lia. }
  destruct (insert_at_spec header n p _ _ Hok (pl_rb _ _ _ Hp) (pl_nodes _ _ _ Hp) Hn eq_refl eq_refl) as (header' & E & Hok' & En).
  exists par, header', (before p), (after p). rewrite Ei. split_and!; [done..|apply Hp|done|apply Hp|apply Hp].
Qed.

End order.
End rbt.
