(* ===== verification/Hashtable.v ===== *)
(** * The hash table

    [hashtable/hashtable.c] and [include/hashtable.h]: partitions, each with a lock, a red-black
    tree ordered by hash ([RbtTree]) and a cache of pointers to nodes.  A look-up may leave its
    partition locked for what follows: the caller holds a latch.  A call that would have to wait for
    a lock has no result here; [HashtableInv] says when calls are made.  Keys and values are
    what the buffer descriptors stand for. *)
From S2P Require Import Prelude Rbtree RbtTree.
Local Open Scope Z_scope.

Inductive hash_error_t : Set :=
  | HASHTABLE_SUCCESS
  | HASHTABLE_UNKNOWN_HASH_TYPE
  | HASHTABLE_ERROR_NO_SUCH_KEY
  | HASHTABLE_ERROR_KEY_ALREADY_EXISTS
  | HASHTABLE_ERROR_INVALID_ARGUMENT
  | HASHTABLE_ERROR_DELALL_FAIL
  | HASHTABLE_NOT_DELETED
  | HASHTABLE_OVERWRITTEN.
#[export] Instance hash_error_t_eq_dec : EqDecision hash_error_t.
Proof. solve_decision. Defined.

Variant hash_set_how_t : Set :=
  | HASHTABLE_SET_HOW_TEST_ONLY
  | HASHTABLE_SET_HOW_SET_OVERWRITE
  | HASHTABLE_SET_HOW_SET_NO_OVERWRITE.
#[export] Instance hash_set_how_t_eq_dec : EqDecision hash_set_how_t.
Proof. solve_decision. Defined.

Definition HT_FLAG_CACHE : Z := 0x0001.

(** [pthread_rwlock_t] *)
Inductive rwlock : Set := Unlocked | ReadLocked (readers : positive) | WriteLocked.

Definition rdlock (l : rwlock) : option rwlock :=
  match l with Unlocked => Some (ReadLocked 1) | ReadLocked n => Some (ReadLocked (n + 1)) | WriteLocked => None end.
Definition wrlock (l : rwlock) : option rwlock :=
  match l with Unlocked => Some WriteLocked | _ => None end.
Definition rwunlock (l : rwlock) : option rwlock :=
  match l with
  | Unlocked => None
  | ReadLocked n => Some (if decide (n = 1%positive) then Unlocked else ReadLocked (Pos.pred n))
  | WriteLocked => Some Unlocked
  end.

(** ** The table *)

Record hash_param {K : Type} : Type := {
  hp_flags : Z;
  cache_entry_count : Z;
  index_size : Z;
  hash_func_key : K -> Z;
  hash_func_rbt : K -> Z;
  hash_func_both : option (K -> option (Z * Z));
  compare_key : K -> K -> Z
}.
Arguments hash_param : clear implicits.

(** What is stored in [struct rbt_node] besides the links. *)
Record rbt_node_t : Set := { rbt_value : Z; rbt_opaq : positive }.

Record hash_partition : Type := {
  p_count : Z;
  p_rbt : @rbt_head positive;
  p_lock : rwlock;
  p_cache : option (list (option positive))
}.

Record hash_latch : Set := { locator : option positive; latch_hash : Z; latch_index : Z }.

Section Hashtable.
Context {K V : Type}.

Record hash_data : Type := { hd_key : K; hd_val : V }.

(** [node_pool] and [data_pool] hold what is allocated. *)
Record hash_table : Type := {
  node_pool : gmap positive rbt_node_t;
  data_pool : gmap positive hash_data;
  partitions : list hash_partition
}.

Definition set_nodes f (s : hash_table) : hash_table :=
  {| node_pool := f (node_pool s); data_pool := data_pool s; partitions := partitions s |}.
Definition set_descs f (s : hash_table) : hash_table :=
  {| node_pool := node_pool s; data_pool := f (data_pool s); partitions := partitions s |}.
Definition set_partitions f (s : hash_table) : hash_table :=
  {| node_pool := node_pool s; data_pool := data_pool s; partitions := f (partitions s) |}.

Definition set_lock l (p : hash_partition) := {| p_count := p_count p; p_rbt := p_rbt p; p_lock := l; p_cache := p_cache p |}.
Definition set_rbt r (p : hash_partition) := {| p_count := p_count p; p_rbt := r; p_lock := p_lock p; p_cache := p_cache p |}.
Definition set_count n (p : hash_partition) := {| p_count := n; p_rbt := p_rbt p; p_lock := p_lock p; p_cache := p_cache p |}.
Definition set_cache c (p : hash_partition) := {| p_count := p_count p; p_rbt := p_rbt p; p_lock := p_lock p; p_cache := c |}.

Abbreviation HT := (M hash_table).

Definition partition_at (index : Z) : HT hash_partition := gets (fun s => partitions s !! Z.to_nat index) ≫= deref.
Definition upd_partition (index : Z) (f : hash_partition -> hash_partition) : HT unit :=
  modify (set_partitions (alter f (Z.to_nat index))).

(** [RBT_OPAQ] of a node and what it points to; [RBT_VALUE]. *)
Definition node_data (c : positive) : HT hash_data :=
  n ← gets (fun s => node_pool s !! c) ≫= deref;
  gets (fun s => data_pool s !! rbt_opaq n) ≫= deref.
Definition value_in (s : hash_table) (c : positive) : option Z := rbt_value <$> node_pool s !! c.

(** [pool_alloc]: an address that is not in use; [pool_free]. *)
Definition node_alloc (n : rbt_node_t) : HT positive :=
  s ← gets id; let c := fresh (dom (node_pool s)) in modify (set_nodes (insert c n));; mret c.
Definition data_alloc (d : hash_data) : HT positive :=
  s ← gets id; let c := fresh (dom (data_pool s)) in modify (set_descs (insert c d));; mret c.
Definition node_free (c : positive) : HT unit :=
  _ ← gets (fun s => node_pool s !! c) ≫= deref; modify (set_nodes (delete c)).
Definition data_free (c : positive) : HT unit :=
  _ ← gets (fun s => data_pool s !! c) ≫= deref; modify (set_descs (delete c)).

Definition lock_partition (index : Z) (may_write : bool) : HT unit :=
  part ← partition_at index;
  l ← deref (if may_write then wrlock (p_lock part) else rdlock (p_lock part));
  upd_partition index (set_lock l).
Definition unlock_partition (index : Z) : HT unit :=
  part ← partition_at index;
  l ← deref (rwunlock (p_lock part));
  upd_partition index (set_lock l).

Context (hp : hash_param K).

Definition cache_offsetof (rbthash : Z) : nat := Z.to_nat (rbthash `mod` cache_entry_count hp).

Definition hash_values (key : K) : option (Z * Z) :=
  match hash_func_both hp with
  | Some f => f key
  | None => Some (hash_func_key hp key, hash_func_rbt hp key)
  end.

(** [None] is HASHTABLE_ERROR_INVALID_ARGUMENT. *)
Definition compute (key : K) : HT (option (Z * Z)) :=
  match hash_values key with
  | None => mret None
  | Some (index, rbt_hash) => if index <? index_size hp then mret (Some (index, rbt_hash)) else undef
  end.

(** ** Look-up *)

(** [partition->cache[...] = cursor], if there is a cache. *)
Definition store_cache (index rbthash : Z) (cursor : option positive) : HT unit :=
  part ← partition_at index;
  match p_cache part with
  | None => mret tt
  | Some cache =>
      if (cache_offsetof rbthash <? length cache)%nat
      then upd_partition index (set_cache (Some (<[cache_offsetof rbthash := cursor]> cache)))
      else undef
  end.

(** The loop over the nodes with the hash, for at most [fuel] nodes. *)
Fixpoint locate_loop (fuel : nat) (rbt : rbt_head) (key : K) (index rbthash : Z) (cursor : option positive) : HT (option positive) :=
  match fuel, cursor with
  | O, _ => undef
  | _, None => mret None
  | S fuel, Some c =>
      s ← gets id;
      v ← deref (value_in s c);
      if v =? rbthash then
        data ← node_data c;
        if compare_key hp key (hd_key data) =? 0 then
          store_cache index rbthash (Some c);;
          mret (Some c)
        else
          next ← deref (RBT_INCREMENT rbt c);
          locate_loop fuel rbt key index rbthash next
      else mret None
  end.

(** The node in the cache, if it has the key. *)
Definition cached (key : K) (index rbthash : Z) : HT (option positive) :=
  part ← partition_at index;
  match p_cache part with
  | None => mret None
  | Some cache =>
      slot ← deref (cache !! cache_offsetof rbthash);
      match slot with
      | None => mret None
      | Some cursor =>
          data ← node_data cursor;
          mret (if compare_key hp key (hd_key data) =? 0 then Some cursor else None)
      end
  end.

(** [None] is HASHTABLE_ERROR_NO_SUCH_KEY. *)
Definition key_locate (key : K) (index rbthash : Z) : HT (option positive) :=
  hit ← cached key index rbthash;
  match hit with
  | Some cursor => mret (Some cursor)
  | None =>
      part ← partition_at index;
      s ← gets id;
      cursor ← deref (RBT_FIND_LEFT (value_in s) (p_rbt part) rbthash);
      locate_loop (S (length (nodes (rbt_root (p_rbt part))))) (p_rbt part) key index rbthash cursor
  end.

(** [want_latch]: [latch] is not NULL.  The result is the status, [*val] if it was set, and the latch if the
    partition is still locked. *)
Definition hashtable_getlatch (key : K) (may_write want_latch : bool) : HT (hash_error_t * option V * option hash_latch) :=
  if may_write && negb want_latch then undef
  else
    h ← compute key;
    match h with
    | None => mret (HASHTABLE_ERROR_INVALID_ARGUMENT, None, None)
    | Some (index, rbt_hash) =>
        lock_partition index may_write;;
        loc ← key_locate key index rbt_hash;
        val ← (match loc return HT (option V) with None => mret None | Some c => data ← node_data c; mret (Some (hd_val data)) end);
        let rc := match loc with Some _ => HASHTABLE_SUCCESS | None => HASHTABLE_ERROR_NO_SUCH_KEY end in
        if want_latch then mret (rc, val, Some {| locator := loc; latch_hash := rbt_hash; latch_index := index |})
        else unlock_partition index;; mret (rc, val, None)
    end.

Definition hashtable_releaselatched (latch : hash_latch) : HT unit := unlock_partition (latch_index latch).

(** The latch has no locator; only the partition is locked. *)
Definition hashtable_acquire_latch (key : K) : HT (hash_error_t * option hash_latch) :=
  h ← compute key;
  match h with
  | None => mret (HASHTABLE_ERROR_INVALID_ARGUMENT, None)
  | Some (index, _) =>
      lock_partition index true;;
      mret (HASHTABLE_SUCCESS, Some {| locator := None; latch_hash := 0; latch_index := index |})
  end.

(** ** Changes *)

(** The status, and [*stored_key] and [*stored_val] if they are set.  (The order of the two allocations does not matter.) *)
Definition hashtable_setlatched (key : K) (val : V) (latch : hash_latch) (overwrite : bool) : HT (hash_error_t * option (K * V)) :=
  r ← match locator latch with
      | Some loc =>
          if negb overwrite then mret (HASHTABLE_ERROR_KEY_ALREADY_EXISTS, None)
          else
            n ← gets (fun s => node_pool s !! loc) ≫= deref;
            descriptors ← gets (fun s => data_pool s !! rbt_opaq n) ≫= deref;
            modify (set_descs (insert (rbt_opaq n) {| hd_key := key; hd_val := val |}));;
            mret (HASHTABLE_OVERWRITTEN, Some (hd_key descriptors, hd_val descriptors))
      | None =>
          part ← partition_at (latch_index latch);
          s ← gets id;
          loc ← deref (RBT_FIND (value_in s) (p_rbt part) (latch_hash latch));
          descriptors ← data_alloc {| hd_key := key; hd_val := val |};
          mutator ← node_alloc {| rbt_value := latch_hash latch; rbt_opaq := descriptors |};
          s ← gets id;
          rbt ← deref (RBT_INSERT (value_in s) (p_rbt part) mutator loc);
          upd_partition (latch_index latch) (fun p => set_count (u64 (p_count p + 1)) (set_rbt rbt p));;
          mret (HASHTABLE_SUCCESS, None)
      end;
  hashtable_releaselatched latch;;
  mret r.

(** What was stored, and the latch without its locator. *)
Definition hashtable_deletelatched (latch : hash_latch) : HT (K * V * hash_latch) :=
  loc ← deref (locator latch);
  n ← gets (fun s => node_pool s !! loc) ≫= deref;
  data ← node_data loc;
  store_cache (latch_index latch) (latch_hash latch) None;;
  part ← partition_at (latch_index latch);
  rbt ← deref (RBT_UNLINK (p_rbt part) loc);
  data_free (rbt_opaq n);;
  node_free loc;;
  upd_partition (latch_index latch) (fun p => set_count (u64 (p_count p - 1)) (set_rbt rbt p));;
  mret (hd_key data, hd_val data, {| locator := None; latch_hash := latch_hash latch; latch_index := latch_index latch |}).

(** The loop over the nodes of a partition, of which there are at most [fuel]; [free_func] returns 0 on failure. *)
Fixpoint delall_loop (free_func : K -> V -> Z) (index : Z) (fuel : nat) : HT bool :=
  part ← partition_at index;
  match rbt_leftmost (p_rbt part), fuel with
  | None, _ => mret true
  | Some _, O => undef
  | Some cursor, S fuel =>
      rbt ← deref (RBT_UNLINK (p_rbt part) cursor);
      n ← gets (fun s => node_pool s !! cursor) ≫= deref;
      data ← node_data cursor;
      data_free (rbt_opaq n);;
      node_free cursor;;
      upd_partition index (fun p => set_count (u64 (p_count p - 1)) (set_rbt rbt p));;
      if free_func (hd_key data) (hd_val data) =? 0 then mret false
      else delall_loop free_func index fuel
  end.

Fixpoint delall_partitions (free_func : K -> V -> Z) (todo : nat) (index : Z) : HT hash_error_t :=
  match todo with
  | O => mret HASHTABLE_SUCCESS
  | S todo =>
      lock_partition index true;;
      part ← partition_at index;
      ok ← delall_loop free_func index (length (nodes (rbt_root (p_rbt part))));
      unlock_partition index;;
      if (ok : bool) then delall_partitions free_func todo (index + 1) else mret HASHTABLE_ERROR_DELALL_FAIL
  end.

Definition hashtable_delall (free_func : K -> V -> Z) : HT hash_error_t := delall_partitions free_func (Z.to_nat (index_size hp)) 0.

(** The table and its pools are freed. *)
Definition hashtable_destroy (free_func : K -> V -> Z) : HT hash_error_t :=
  hrc ← hashtable_delall free_func;
  if decide (hrc <> HASHTABLE_SUCCESS) then mret hrc
  else modify (fun _ => {| node_pool := ∅; data_pool := ∅; partitions := [] |});; mret hrc.

(** ** Calls that do not leave a latch *)

Definition HashTable_Get (key : K) : HT (hash_error_t * option V) :=
  '(rc, val, _) ← hashtable_getlatch key false false;
  mret (rc, val).

Definition HashTable_Set (key : K) (val : V) : HT hash_error_t :=
  '(rc, _, latch) ← hashtable_getlatch key true true;
  if decide (rc <> HASHTABLE_SUCCESS /\ rc <> HASHTABLE_ERROR_NO_SUCH_KEY) then mret rc
  else
    latch ← deref latch;
    r ← hashtable_setlatched key val latch false;
    mret r.1.

Definition HashTable_Del (key : K) : HT (hash_error_t * option (K * V)) :=
  '(rc, _, latch) ← hashtable_getlatch key true true;
  match rc with
  | HASHTABLE_SUCCESS =>
      latch ← deref latch;
      '(k, v, latch) ← hashtable_deletelatched latch;
      hashtable_releaselatched latch;;
      mret (rc, Some (k, v))
  | HASHTABLE_ERROR_NO_SUCH_KEY =>
      latch ← deref latch;
      hashtable_releaselatched latch;;
      mret (rc, None)
  | _ => mret (rc, None)
  end.

Definition hashtable_test_and_set (key : K) (val : V) (how : hash_set_how_t) : HT hash_error_t :=
  '(rc, _, latch) ← hashtable_getlatch key (bool_decide (how <> HASHTABLE_SET_HOW_TEST_ONLY)) true;
  if decide (rc <> HASHTABLE_SUCCESS /\ rc <> HASHTABLE_ERROR_NO_SUCH_KEY) then mret rc
  else
    latch ← deref latch;
    if decide (how = HASHTABLE_SET_HOW_TEST_ONLY) then hashtable_releaselatched latch;; mret rc
    else if decide (how = HASHTABLE_SET_HOW_SET_NO_OVERWRITE /\ rc = HASHTABLE_SUCCESS)
    then hashtable_releaselatched latch;; mret HASHTABLE_ERROR_KEY_ALREADY_EXISTS
    else
      r ← hashtable_setlatched key val latch (bool_decide (how = HASHTABLE_SET_HOW_SET_OVERWRITE));
      mret (if decide (r.1 = HASHTABLE_OVERWRITTEN) then HASHTABLE_SUCCESS else r.1).

(** [get_ref] is called with the value of the result, if there is one, while the partition is locked. *)
Definition hashtable_getref (key : K) : HT (hash_error_t * option V) :=
  '(rc, val, latch) ← hashtable_getlatch key false true;
  match rc with
  | HASHTABLE_SUCCESS | HASHTABLE_ERROR_NO_SUCH_KEY =>
      latch ← deref latch;
      hashtable_releaselatched latch;;
      mret (rc, val)
  | _ => mret (rc, val)
  end.

(** The nodes from [cursor] on, at most [fuel] of them, with what they hold: [RBT_LOOP] and [RBT_INCREMENT]. *)
Fixpoint visit_loop (rbt : rbt_head) (fuel : nat) (cursor : option positive) : HT (list (K * V)) :=
  match cursor, fuel with
  | None, _ => mret []
  | Some _, O => undef
  | Some c, S fuel =>
      data ← node_data c;
      next ← deref (RBT_INCREMENT rbt c);
      rest ← visit_loop rbt fuel next;
      mret ((hd_key data, hd_val data) :: rest)
  end.

Fixpoint visit_partitions (todo : nat) (index : Z) : HT (list (K * V)) :=
  match todo with
  | O => mret []
  | S todo =>
      lock_partition index false;;
      part ← partition_at index;
      l ← visit_loop (p_rbt part) (length (nodes (rbt_root (p_rbt part)))) (rbt_leftmost (p_rbt part));
      unlock_partition index;;
      rest ← visit_partitions todo (index + 1);
      mret (l ++ rest)
  end.

(** The entries for which [callback] is called, in this order. *)
Definition hashtable_for_each : HT (list (K * V)) := visit_partitions (Z.to_nat (index_size hp)) 0.

End Hashtable.
Arguments hash_data : clear implicits.
Arguments hash_table : clear implicits.

(** [hparam->cache_entry_count] is set in the parameters of the caller. *)
Definition fixup {K} (hparam : hash_param K) : hash_param K :=
  if negb (Z.land (hp_flags hparam) HT_FLAG_CACHE =? 0) && (cache_entry_count hparam =? 0) then
    {| hp_flags := hp_flags hparam; cache_entry_count := 32767; index_size := index_size hparam; hash_func_key := hash_func_key hparam;
       hash_func_rbt := hash_func_rbt hparam; hash_func_both := hash_func_both hparam; compare_key := compare_key hparam |}
  else hparam.

Definition hashtable_init {K V} (hparam : hash_param K) : hash_param K * hash_table K V :=
  let hp := fixup hparam in
  let cache := if negb (Z.land (hp_flags hp) HT_FLAG_CACHE =? 0) then Some (replicate (Z.to_nat (cache_entry_count hp)) None) else None in
  (hp, {| node_pool := ∅; data_pool := ∅;
          partitions := replicate (Z.to_nat (index_size hp)) {| p_count := 0; p_rbt := RBT_HEAD_INIT; p_lock := Unlocked; p_cache := cache |} |}).
