(* ===== verification/HashtableInv.v ===== *)
(** * The hash table is a finite map

    The invariant of the hash table: what the pools hold, the trees of the partitions, the caches
    in front of them and the locks; that every function keeps it; and the map from keys to
    values that it stands for, also while several callers hold latches. *)
From S2P Require Import Prelude Rbtree RbtTree Hashtable.
Local Open Scope Z_scope.

(** What the functions in the parameters of a table promise: keys that compare equal, that is, have
    the same [canon], have the same hashes, and the hash for the partition is in range. *)
Class HashLaws {K C : Type} (hp : hash_param K) (canon : K -> C) : Prop := {
  hl_compare a b : compare_key hp a b = 0 <-> canon a = canon b;
  hl_same a b : canon a = canon b -> hash_values hp a = hash_values hp b;
  hl_index a i h : hash_values hp a = Some (i, h) -> 0 <= i < index_size hp
}.

Section HashtableInv.
Context {K V : Type}.

Abbreviation table := (hash_table K V).

(** ** Entries

    A node with its hash, key and value. *)
Abbreviation entries := (gmap positive (Z * K * V)).

(** The pools hold a node and a descriptor for each entry, and nothing else. *)
Record pools_rep (s : table) (E : entries) : Prop := {
  po_entry c h k v : E !! c = Some (h, k, v) <->
    exists d, node_pool s !! c = Some {| rbt_value := h; rbt_opaq := d |} /\ data_pool s !! d = Some {| hd_key := k; hd_val := v |};
  po_node c n : node_pool s !! c = Some n -> is_Some (data_pool s !! rbt_opaq n);
  po_opaq c c' n n' : node_pool s !! c = Some n -> node_pool s !! c' = Some n' -> rbt_opaq n = rbt_opaq n' -> c = c';
  po_data d : is_Some (data_pool s !! d) -> exists c n, node_pool s !! c = Some n /\ rbt_opaq n = d
}.

(** The hash of a node. *)
Definition hash_of (E : entries) (c : positive) : Z := match E !! c with Some (h, _, _) => h | None => 0 end.

Lemma value_in_entry s E c h k v : pools_rep s E -> E !! c = Some (h, k, v) -> value_in s c = Some h.
Proof. intros Hp (d & Hn & _)%(po_entry _ _ Hp). unfold value_in. by rewrite Hn. Qed.

Lemma pools_fresh s E c : pools_rep s E -> E !! c = None <-> node_pool s !! c = None.
Proof.
  intros Hp. split; intros Hc.
  - destruct (node_pool s !! c) as [[h d]|] eqn:En; [|done]. destruct (po_node _ _ Hp _ _ En) as [[k v] Ed]. simpl in Ed.
    assert (E !! c = Some (h, k, v)) by (apply (po_entry _ _ Hp); eauto). congruence.
  - destruct (E !! c) as [[[h k] v]|] eqn:Ee; [|done]. apply (po_entry _ _ Hp) in Ee as (d & ? & _). congruence.
Qed.

Lemma wp_node_data s E c h k v (Q : hash_data K V -> table -> Prop) :
  pools_rep s E -> E !! c = Some (h, k, v) -> Q {| hd_key := k; hd_val := v |} s -> wp (node_data c) Q s.
Proof.
  intros Hp (d & Hn & Hd)%(po_entry _ _ Hp) HQ. unfold node_data. wp_step. wp_step. wp_step. eapply wp_deref; [done|]. simpl.
  wp_step. wp_step. by eapply wp_deref.
Qed.

(** Adding, changing and removing an entry. *)
Definition pools_add (c d : positive) (h : Z) (k : K) (v : V) (s : table) : table :=
  set_nodes (insert c {| rbt_value := h; rbt_opaq := d |}) (set_descs (insert d {| hd_key := k; hd_val := v |}) s).

Lemma pools_rep_add s E c d h k v :
  pools_rep s E -> node_pool s !! c = None -> data_pool s !! d = None -> pools_rep (pools_add c d h k v s) (<[c := (h, k, v)]> E).
Proof.
  intros Hp Hc Hd. pose proof (proj2 (pools_fresh _ _ _ Hp) Hc) as HE.
  assert (forall c' n, node_pool s !! c' = Some n -> c' <> c /\ rbt_opaq n <> d) as Hne.
  { intros c' n Hn. split; [congruence|]. intros <-. destruct (po_node _ _ Hp _ _ Hn). congruence. }
  split; simpl.
  - intros c' h' k' v'. rewrite lookup_insert_Some, (po_entry _ _ Hp). setoid_rewrite lookup_insert_Some. split.
    + intros [[<- [= <- <- <-]]|[Hcc (d' & Hn & Hx)]]; [exists d; naive_solver|]. exists d'. destruct (Hne _ _ Hn) as [_ ?]. simpl in *. naive_solver.
    + intros (d' & [[<- [= <- <-]]|[Hcc Hn]] & Hx).
      * left. split; [done|]. destruct Hx as [[_ [= <- <-]]|[? _]]; done.
      * right. split; [done|]. destruct (Hne _ _ Hn) as [_ ?]. simpl in *. exists d'. naive_solver.
  - intros c' n. rewrite lookup_insert_Some. intros [[<- <-]|[_ Hn]]; simpl.
    + rewrite lookup_insert_eq. eauto.
    + destruct (Hne _ _ Hn). rewrite lookup_insert_ne by done. by apply (po_node _ _ Hp c').
  - intros c1 c2 n1 n2. rewrite !lookup_insert_Some. intros [[<- <-]|[? H1]] [[<- <-]|[? H2]]; simpl; [done|..].
    + destruct (Hne _ _ H2). congruence.
    + destruct (Hne _ _ H1). congruence.
    + by apply (po_opaq _ _ Hp).
  - intros d' [x Hx]. apply lookup_insert_Some in Hx as [[<- <-]|[? Hx]].
    + exists c, {| rbt_value := h; rbt_opaq := d |}. by rewrite lookup_insert_eq.
    + destruct (po_data _ _ Hp d') as (c' & n & Hn & Hd'); [done|]. exists c', n. destruct (Hne _ _ Hn). by rewrite lookup_insert_ne.
Qed.

Lemma pools_rep_change s E c n h k v k' v' :
  pools_rep s E -> E !! c = Some (h, k, v) -> node_pool s !! c = Some n ->
  pools_rep (set_descs (insert (rbt_opaq n) {| hd_key := k'; hd_val := v' |}) s) (<[c := (h, k', v')]> E).
Proof.
  intros Hp He Hn. apply (po_entry _ _ Hp) in He as (d & Hn' & Hd). rewrite Hn in Hn'. injection Hn' as ->. simpl.
  assert (forall c' n, node_pool s !! c' = Some n -> rbt_opaq n = d -> c' = c) as Hd1.
  { intros c' n Hn' Hx. eapply (po_opaq _ _ Hp); [done|apply Hn|done]. }
  split; simpl.
  - intros c1 h1 k1 v1. rewrite lookup_insert_Some, (po_entry _ _ Hp). setoid_rewrite lookup_insert_Some. split.
    + intros [[<- [= <- <- <-]]|[Hc (d1 & Hn1 & Hx)]]; [exists d; auto|]. exists d1. split; [done|]. right. split; [|done].
      intros <-. by destruct Hc; rewrite (Hd1 c1 _ Hn1).
    + intros (d1 & Hn1 & [[<- [= <- <-]]|[Hne Hx]]).
      * assert (c1 = c) as -> by by eapply Hd1. rewrite Hn in Hn1. injection Hn1 as ->. auto.
      * right. split; [|eauto]. intros <-. rewrite Hn in Hn1. by injection Hn1 as -> ->.
  - intros c1 n1 Hn1. destruct (decide (rbt_opaq n1 = d)) as [->|]; [rewrite lookup_insert_eq; eauto|]. rewrite lookup_insert_ne by done. by apply (po_node _ _ Hp c1).
  - apply (po_opaq _ _ Hp).
  - intros d1 [x [[<- _]|[_ Hx]]%lookup_insert_Some]; [eauto|]. apply (po_data _ _ Hp). eauto.
Qed.

Lemma pools_rep_remove s E c n :
  pools_rep s E -> node_pool s !! c = Some n ->
  pools_rep (set_nodes (delete c) (set_descs (delete (rbt_opaq n)) s)) (delete c E).
Proof.
  intros Hp Hn. assert (forall c' n', c' <> c -> node_pool s !! c' = Some n' -> rbt_opaq n' <> rbt_opaq n) as Hne.
  { intros c' n' Hc Hn' Hx. apply Hc. by eapply (po_opaq _ _ Hp). }
  split; simpl.
  - intros c1 h1 k1 v1. rewrite lookup_delete_Some, (po_entry _ _ Hp). setoid_rewrite lookup_delete_Some. split.
    + intros (Hc & d & Hn1 & Hd). pose proof (Hne c1 _ (not_eq_sym Hc) Hn1) as Hx. simpl in Hx. naive_solver.
    + naive_solver.
  - intros c1 n1 [Hc Hn1]%lookup_delete_Some. pose proof (Hne c1 _ (not_eq_sym Hc) Hn1). rewrite lookup_delete_ne by done. by apply (po_node _ _ Hp c1).
  - intros c1 c2 n1 n2 [_ H1]%lookup_delete_Some [_ H2]%lookup_delete_Some. by apply (po_opaq _ _ Hp).
  - intros d1 [x [Hd Hx]%lookup_delete_Some]. destruct (po_data _ _ Hp d1) as (c' & n' & Hn' & <-); [done|]. exists c', n'. split; [|done].
    apply lookup_delete_Some. split; [|done]. intros ->. congruence.
Qed.

(** ** Partitions *)

Context {C : Type} (hp : hash_param K) (canon : K -> C).

Abbreviation pnodes p := (nodes (rbt_root (p_rbt p))).

Record part_inv (E : entries) (i : nat) (p : hash_partition) : Prop := {
  pi_ok : rbt_ok (p_rbt p);
  pi_ordered : StronglySorted (fun a b => hash_of E a <= hash_of E b) (pnodes p);
  pi_entry c : c ∈ pnodes p -> exists h k v, E !! c = Some (h, k, v) /\ hash_values hp k = Some (Z.of_nat i, h);
  pi_count : p_count p = u64 (Z.of_nat (length (pnodes p)));
  pi_cache l : p_cache p = Some l -> 0 < cache_entry_count hp /\ length l = Z.to_nat (cache_entry_count hp) /\
    forall o c, l !! o = Some (Some c) -> c ∈ pnodes p /\ o = cache_offsetof hp (hash_of E c)
}.

Record table_inv (s : table) (E : entries) : Prop := {
  ti_pools : pools_rep s E;
  ti_len : length (partitions s) = Z.to_nat (index_size hp);
  ti_part i p : partitions s !! i = Some p -> part_inv E i p;
  ti_in c x : E !! c = Some x -> exists i p, partitions s !! i = Some p /\ c ∈ pnodes p;
  ti_keys c c' h h' k k' v v' : E !! c = Some (h, k, v) -> E !! c' = Some (h', k', v') -> canon k = canon k' -> c = c'
}.

Definition locks (s : table) : list rwlock := p_lock <$> partitions s.

Lemma hash_of_entry (E : entries) c h k v : E !! c = Some (h, k, v) -> hash_of E c = h.
Proof. unfold hash_of. by intros ->. Qed.

Lemma part_valued s E i p : table_inv s E -> partitions s !! i = Some p -> valued (hash_of E) (value_in s) (pnodes p).
Proof.
  intros Hs Hp c Hc. destruct (pi_entry _ _ _ (ti_part _ _ Hs _ _ Hp) c Hc) as (h & k & v & He & _).
  rewrite (hash_of_entry _ _ _ _ _ He). eapply value_in_entry; [apply Hs|done].
Qed.

Lemma offset_in l o : 0 < cache_entry_count hp -> length l = Z.to_nat (cache_entry_count hp) -> (cache_offsetof hp o < @length (option positive) l)%nat.
Proof. intros Hc ->. unfold cache_offsetof. pose proof (Z.mod_pos_bound o _ Hc). lia. Qed.

(** A change of one partition that leaves its tree. *)
Lemma table_inv_alter s E i f :
  table_inv s E -> (forall p, partitions s !! i = Some p -> p_rbt (f p) = p_rbt p /\ part_inv E i (f p)) ->
  table_inv (set_partitions (alter f i) s) E.
Proof.
  intros Hs Hf. split; simpl.
  - destruct (ti_pools _ _ Hs) as [? ? ? ?]. by split.
  - rewrite length_alter. apply Hs.
  - intros j p. destruct (decide (i = j)) as [<-|Hne].
    + rewrite list_lookup_alter_eq. intros (q & Hq & ->)%fmap_Some. by apply Hf.
    + rewrite list_lookup_alter_ne by done. apply Hs.
  - intros c x (j & p & Hp & Hc)%(ti_in _ _ Hs). destruct (decide (i = j)) as [<-|Hne].
    + exists i, (f p). rewrite list_lookup_alter_eq, Hp. split; [done|]. by destruct (Hf p Hp) as [-> _].
    + exists j, p. by rewrite list_lookup_alter_ne.
  - apply Hs.
Qed.

(** Where the partition of a key is. *)
Context {L : HashLaws hp canon}.

Lemma key_partition s E key i h : table_inv s E -> hash_values hp key = Some (i, h) ->
  exists p, partitions s !! Z.to_nat i = Some p /\ Z.of_nat (Z.to_nat i) = i.
Proof using L.
  intros Hs Hh. apply hl_index in Hh as Hi. destruct (lookup_lt_is_Some_2 (partitions s) (Z.to_nat i)) as [p Hp]; [rewrite (ti_len _ _ Hs); lia|].
  exists p. split; [done|lia].
Qed.

(** An entry with a key that compares equal to [key] is in the partition of [key]. *)
Lemma entry_partition s E key i h c h' k v p :
  table_inv s E -> hash_values hp key = Some (i, h) -> E !! c = Some (h', k, v) -> canon k = canon key ->
  partitions s !! Z.to_nat i = Some p -> c ∈ pnodes p /\ h' = h.
Proof using L.
  intros Hs Hh He Hk Hp. destruct (ti_in _ _ Hs _ _ He) as (j & q & Hq & Hc).
  destruct (pi_entry _ _ _ (ti_part _ _ Hs _ _ Hq) c Hc) as (h1 & k1 & v1 & He1 & Hh1). simplify_eq.
  rewrite (hl_same _ _ Hk), Hh in Hh1. injection Hh1 as -> ->. rewrite Nat2Z.id in Hp. by simplify_eq.
Qed.

(** What a look-up finds. *)
Definition finds (E : entries) (key : K) (loc : option positive) : Prop :=
  match loc with
  | Some c => exists h k v, E !! c = Some (h, k, v) /\ canon k = canon key
  | None => forall c h k v, E !! c = Some (h, k, v) -> canon k <> canon key
  end.

(** ** Look-up *)

Lemma wp_partition_at (s : table) i p (Q : hash_partition -> table -> Prop) :
  partitions s !! Z.to_nat i = Some p -> Q p s -> wp (partition_at i) Q s.
Proof. intros Hp HQ. unfold partition_at. wp_step. wp_step. by eapply wp_deref. Qed.

Lemma locks_alter (s : table) i f : (forall p, p_lock (f p) = p_lock p) -> locks (set_partitions (alter f i) s) = locks s.
Proof.
  intros Hf. apply list_eq. intros j. unfold locks. simpl. rewrite !list_lookup_fmap. destruct (decide (i = j)) as [<-|].
  - rewrite list_lookup_alter_eq. destruct (partitions s !! i); simpl; [by rewrite Hf|done].
  - by rewrite list_lookup_alter_ne.
Qed.

(** A slot of the cache. *)
Definition cache_put (h : Z) (cur : option positive) (p : hash_partition) : hash_partition :=
  match p_cache p with None => p | Some l => set_cache (Some (<[cache_offsetof hp h := cur]> l)) p end.

Lemma alter_same {A} (l : list A) i x f : l !! i = Some x -> f x = x -> alter f i l = l.
Proof.
  intros Hx Hf. apply list_eq. intros j. destruct (decide (i = j)) as [<-|]; [by rewrite list_lookup_alter_eq, Hx; simpl; rewrite Hf|by rewrite list_lookup_alter_ne].
Qed.

Lemma set_partitions_same (s : table) f : f (partitions s) = partitions s -> set_partitions f s = s.
Proof. destruct s. unfold set_partitions. simpl. by intros ->. Qed.

Lemma wp_store_cache s E i p h cur (Q : unit -> table -> Prop) :
  table_inv s E -> partitions s !! Z.to_nat i = Some p ->
  Q tt (set_partitions (alter (cache_put h cur) (Z.to_nat i)) s) -> wp (store_cache hp i h cur) Q s.
Proof.
  intros Hs Hp HQ. unfold store_cache. wp_step. apply (wp_partition_at _ _ p); [done|]. destruct (p_cache p) as [l|] eqn:El.
  - destruct (pi_cache _ _ _ (ti_part _ _ Hs _ _ Hp) l El) as (Hc & Hlen & _). rewrite (proj2 (Nat.ltb_lt _ _)) by by apply offset_in.
    unfold upd_partition. apply wp_modify. replace (set_partitions _ s) with (set_partitions (alter (cache_put h cur) (Z.to_nat i)) s); [done|].
    unfold set_partitions. f_equal. apply list_eq. intros j. destruct (decide (Z.to_nat i = j)) as [<-|].
    + rewrite !list_lookup_alter_eq, Hp. simpl. unfold cache_put. by rewrite El.
    + by rewrite !list_lookup_alter_ne.
  - wp_step. rewrite set_partitions_same in HQ; [done|]. eapply alter_same; [done|]. unfold cache_put. by rewrite El.
Qed.

Lemma part_inv_put E i p h cur :
  part_inv E i p -> (forall c, cur = Some c -> c ∈ pnodes p /\ hash_of E c = h) -> part_inv E i (cache_put h cur p).
Proof.
  intros Hp Hcur. unfold cache_put. destruct (p_cache p) as [l|] eqn:El; [|done]. destruct Hp as [? ? ? ? Hcache]. split; [done..|].
  simpl. intros l' [= <-]. destruct (Hcache l El) as (Hc & Hlen & Hl). rewrite length_insert. split_and!; [done..|].
  intros o c. rewrite list_lookup_insert_Some. intros [(<- & -> & _)|[_ Ho]]; [|by apply Hl]. destruct (Hcur c) as [? <-]; done.
Qed.

Lemma cache_put_frame h cur p : p_rbt (cache_put h cur p) = p_rbt p /\ p_lock (cache_put h cur p) = p_lock p /\ p_count (cache_put h cur p) = p_count p.
Proof. unfold cache_put. by destruct (p_cache p). Qed.

Lemma table_inv_put s E i h cur :
  table_inv s E -> (forall p c, partitions s !! i = Some p -> cur = Some c -> c ∈ pnodes p /\ hash_of E c = h) ->
  table_inv (set_partitions (alter (cache_put h cur) i) s) E /\ locks (set_partitions (alter (cache_put h cur) i) s) = locks s.
Proof.
  intros Hs Hcur. split; [|apply locks_alter; intros p; by destruct (cache_put_frame h cur p) as (_ & ? & _)].
  apply table_inv_alter; [done|]. intros p Hp. split; [by destruct (cache_put_frame h cur p)|]. apply part_inv_put; [by apply Hs|]. intros c. by apply Hcur.
Qed.

Lemma find_split {A} (f : A -> bool) l c : List.find f l = Some c -> exists a b, l = a ++ c :: b /\ f c = true /\ forall x, x ∈ a -> f x = false.
Proof.
  induction l as [|x l IH]; simpl; [done|]. destruct (f x) eqn:Ex.
  - intros [= <-]. exists [], l. split_and!; [done..|]. by intros ? ?%elem_of_nil.
  - intros (a & b & -> & Hc & Ha)%IH. exists (x :: a), b. split_and!; [done..|]. intros y [->|Hy]%elem_of_cons; auto.
Qed.

(** The node with the key of an entry, compared. *)
Lemma compare_keys key k : (compare_key hp key k =? 0) = true <-> canon k = canon key.
Proof using L. rewrite Z.eqb_eq, hl_compare. done. Qed.

Lemma wp_locate_loop s E key i h p fuel a rest (Q : option positive -> table -> Prop) :
  table_inv s E -> hash_values hp key = Some (i, h) -> partitions s !! Z.to_nat i = Some p -> pnodes p = a ++ rest -> (length rest < fuel)%nat ->
  (forall c h k v, c ∈ a -> E !! c = Some (h, k, v) -> canon k <> canon key) -> (forall c, c ∈ rest -> h <= hash_of E c) ->
  (forall r s', finds E key r -> table_inv s' E -> locks s' = locks s -> Q r s') ->
  wp (locate_loop hp fuel (p_rbt p) key i h (head rest)) Q s.
Proof using L.
  intros Hs Hh Hp. revert a rest. induction fuel as [|fuel IH]; intros a rest En Hf Ha Hr HQ; [lia|].
  pose proof (ti_part _ _ Hs _ _ Hp) as Hpi.
  assert ((forall c, c ∈ rest -> forall h' k v, E !! c = Some (h', k, v) -> canon k <> canon key) -> Q None s) as Hnone.
  { intros Hrest. apply HQ; [|done..]. intros c h' k v He Hk. destruct (entry_partition _ _ _ _ _ _ _ _ _ _ Hs Hh He Hk Hp) as [Hc _].
    rewrite En in Hc. apply elem_of_app in Hc as [Hc|Hc]; [by eapply Ha|by eapply Hrest]. }
  destruct rest as [|c rest]; simpl.
  { wp_step. apply Hnone. by intros c ?%elem_of_nil. }
  destruct (pi_entry _ _ _ Hpi c) as (h' & k & v & He & Hk); [rewrite En; set_solver|].
  wp_step. wp_step. wp_step. eapply wp_deref; [eapply value_in_entry; [apply Hs|done]|]. simpl.
  destruct (Z.eqb_spec h' h) as [->|Hne].
  - wp_step. eapply wp_node_data; [apply Hs|done|]. simpl. destruct (compare_key hp key k =? 0) eqn:Ec.
    + apply compare_keys in Ec. wp_step. eapply wp_store_cache; [done..|].
      destruct (table_inv_put s E (Z.to_nat i) h (Some c)) as [Hs' Hl']; [done| |].
      { intros p' c' Hp' [= <-]. simplify_eq. split; [rewrite En; set_solver|by eapply hash_of_entry]. }
      wp_step. apply HQ; [|done..]. by exists h, k, v.
    + assert (canon k <> canon key) as Hck by (intros Hck%compare_keys; congruence).
      wp_step. eapply wp_deref; [by eapply (RBT_INCREMENT_spec _ a c rest); [apply Hpi|]|]. simpl. apply (IH (a ++ [c])); [by rewrite <- app_assoc| |..].
      * simpl in Hf. lia.
      * intros c' h1 k1 v1. rewrite elem_of_app, list_elem_of_singleton. intros [Hc'| ->] He'; [by eapply Ha|by simplify_eq].
      * intros c' Hc'. apply Hr. set_solver.
      * done.
  - wp_step. apply Hnone. intros c' Hc' h1 k1 v1 He' Hk'. assert (h1 = h) as -> by by eapply (entry_partition s E key).
    assert (h' <= h) as Hle; [|specialize (Hr c ltac:(left)); rewrite (hash_of_entry _ _ _ _ _ He) in Hr; lia].
    apply elem_of_cons in Hc' as [->|Hc']; [simplify_eq; lia|]. pose proof (pi_ordered _ _ _ Hpi) as Hord. rewrite En in Hord.
    apply ordered_middle in Hord as (_ & _ & _ & Hord). specialize (Hord c' Hc'). by rewrite (hash_of_entry _ _ _ _ _ He), (hash_of_entry _ _ _ _ _ He') in Hord.
Qed.

Lemma wp_key_locate s E key i h (Q : option positive -> table -> Prop) :
  table_inv s E -> hash_values hp key = Some (i, h) ->
  (forall r s', finds E key r -> table_inv s' E -> locks s' = locks s -> Q r s') ->
  wp (key_locate hp key i h) Q s.
Proof using L.
  intros Hs Hh HQ. destruct (key_partition _ _ _ _ _ Hs Hh) as (p & Hp & Hi). pose proof (ti_part _ _ Hs _ _ Hp) as Hpi.
  unfold key_locate. wp_step. apply (wp_mono _ (fun r s' => s' = s /\ (is_Some r -> finds E key r))).
  - unfold cached. wp_step. apply (wp_partition_at _ _ p); [done|]. destruct (p_cache p) as [l|] eqn:El; [|wp_step; by split; [|intros [? ?]]].
    destruct (pi_cache _ _ _ Hpi l El) as (Hc & Hlen & Hl). destruct (lookup_lt_is_Some_2 l (cache_offsetof hp h)) as [o Ho]; [by apply offset_in|].
    wp_step. eapply wp_deref; [done|]. destruct o as [c|]; [|wp_step; by split; [|intros [? ?]]].
    destruct (Hl _ _ Ho) as [Hcp _]. destruct (pi_entry _ _ _ Hpi c Hcp) as (h' & k & v & He & _). wp_step. eapply wp_node_data; [apply Hs|done|]. wp_step.
    split; [done|]. simpl. destruct (compare_key hp key k =? 0) eqn:Ec; [|by intros [? ?]]. intros _. exists h', k, v. split; [done|]. by apply compare_keys.
  - intros [c|] s' [-> Hr]; [wp_step; apply HQ; [apply Hr; eauto|done..]|]. wp_step. apply (wp_partition_at _ _ p); [done|]. wp_step. wp_step. wp_step.
    eapply wp_deref; [apply (RBT_FIND_LEFT_spec (hash_of E)); [apply Hpi|by eapply part_valued]|].
    destruct (List.find _ _) as [c|] eqn:Ef.
    + apply find_split in Ef as (a & b & En & Hc%Z.eqb_eq & Ha). apply (wp_locate_loop s E key i h p _ a (c :: b) Q); [done..| | | |done].
      * rewrite En, length_app. lia.
      * intros c' h' k' v' Hc' He Hk. assert (h' = h) as -> by by eapply (entry_partition s E key).
        specialize (Ha c' Hc'). rewrite (hash_of_entry _ _ _ _ _ He) in Ha. by apply Z.eqb_neq in Ha.
      * intros c' [->|Hc']%elem_of_cons; [lia|]. pose proof (pi_ordered _ _ _ Hpi) as Hord. rewrite En in Hord.
        apply ordered_middle in Hord as (_ & _ & _ & Hord). specialize (Hord c' Hc'). lia.
    + simpl. wp_step. apply HQ; [|done..]. intros c h' k v He Hk. destruct (entry_partition _ _ _ _ _ _ _ _ _ _ Hs Hh He Hk Hp) as [Hc ->].
      apply List.find_none with (x := c) in Ef; [|by apply list_elem_of_In]. rewrite (hash_of_entry _ _ _ _ _ He) in Ef. by apply Z.eqb_neq in Ef.
Qed.

(** ** Locks *)

Lemma locks_set_lock (s : table) n l : locks (set_partitions (alter (set_lock l) n) s) = <[n := l]> (locks s).
Proof.
  apply list_eq. intros j. unfold locks. simpl. destruct (decide (n = j)) as [<-|].
  - rewrite list_lookup_fmap, list_lookup_alter_eq. destruct (partitions s !! n) eqn:Hp; simpl.
    + rewrite list_lookup_insert_eq; [done|]. rewrite length_fmap. by eapply lookup_lt_Some.
    + symmetry. apply lookup_ge_None_2. rewrite length_insert, length_fmap. by apply lookup_ge_None.
  - rewrite list_lookup_insert_ne by done. by rewrite !list_lookup_fmap, list_lookup_alter_ne.
Qed.

Lemma table_inv_lock s E n l : table_inv s E -> table_inv (set_partitions (alter (set_lock l) n) s) E.
Proof. intros Hs. apply table_inv_alter; [done|]. intros p Hp. split; [done|]. destruct (ti_part _ _ Hs _ _ Hp). by split. Qed.

Lemma lock_at (s : table) n l : locks s !! n = Some l -> exists p, partitions s !! n = Some p /\ p_lock p = l.
Proof. unfold locks. rewrite list_lookup_fmap. intros (p & Hp & ->)%fmap_Some. eauto. Qed.

Lemma wp_lock_partition s E i (mw : bool) l l' (Q : unit -> table -> Prop) :
  table_inv s E -> locks s !! Z.to_nat i = Some l -> (if mw then wrlock l else rdlock l) = Some l' ->
  (forall s', table_inv s' E -> locks s' = <[Z.to_nat i := l']> (locks s) -> Q tt s') -> wp (lock_partition i mw) Q s.
Proof.
  intros Hs (p & Hp & <-)%lock_at Hl HQ. unfold lock_partition. wp_step. apply (wp_partition_at _ _ p); [done|].
  wp_step. eapply wp_deref; [done|]. unfold upd_partition. wp_step. apply HQ; [by apply table_inv_lock|apply locks_set_lock].
Qed.

Lemma wp_unlock_partition s E i l l' (Q : unit -> table -> Prop) :
  table_inv s E -> locks s !! Z.to_nat i = Some l -> rwunlock l = Some l' ->
  (forall s', table_inv s' E -> locks s' = <[Z.to_nat i := l']> (locks s) -> Q tt s') -> wp (unlock_partition i) Q s.
Proof.
  intros Hs (p & Hp & <-)%lock_at Hl HQ. unfold unlock_partition. wp_step. apply (wp_partition_at _ _ p); [done|].
  wp_step. eapply wp_deref; [done|]. unfold upd_partition. wp_step. apply HQ; [by apply table_inv_lock|apply locks_set_lock].
Qed.

(** ** Changes of the entries *)

Lemma part_inv_entries E E' i p :
  part_inv E i p ->
  (forall c h k v, c ∈ pnodes p -> E !! c = Some (h, k, v) -> exists k' v', E' !! c = Some (h, k', v') /\ hash_values hp k' = hash_values hp k) ->
  part_inv E' i p.
Proof.
  intros Hp Hsame. assert (forall c, c ∈ pnodes p -> hash_of E' c = hash_of E c) as Hh.
  { intros c Hc. destruct (pi_entry _ _ _ Hp c Hc) as (h & k & v & He & _). destruct (Hsame c h k v) as (k' & v' & He' & _); [done..|].
    by rewrite (hash_of_entry _ _ _ _ _ He), (hash_of_entry _ _ _ _ _ He'). }
  destruct Hp as [Hok Hord Hent Hcnt Hcache]. split; [done| |..|done|].
  - revert Hh. clear -Hord. induction Hord as [|c l Hord IH Hc]; intros Hh; constructor; [apply IH; set_solver|].
    rewrite Forall_forall in *. intros x Hx. rewrite !Hh by set_solver. auto.
  - intros c Hc. destruct (Hent c Hc) as (h & k & v & He & Hk). destruct (Hsame c h k v) as (k' & v' & He' & E1); [done..|]. exists h, k', v'. by rewrite E1.
  - intros l Hl. destruct (Hcache l Hl) as (Hc & Hlen & Hs). split_and!; [done..|]. intros o c Ho. destruct (Hs o c Ho) as [? ->]. by rewrite Hh.
Qed.

(** A new entry in its partition. *)
Lemma table_inv_add s E n p c d h key val rbt a b :
  table_inv s E -> partitions s !! n = Some p -> hash_values hp key = Some (Z.of_nat n, h) -> finds E key None ->
  node_pool s !! c = None -> data_pool s !! d = None ->
  rbt_ok rbt -> pnodes p = a ++ b -> nodes (rbt_root rbt) = a ++ c :: b ->
  (forall x, x ∈ a -> hash_of E x <= h) -> (forall x, x ∈ b -> h <= hash_of E x) ->
  table_inv (set_partitions (alter (fun p => set_count (u64 (p_count p + 1)) (set_rbt rbt p)) n) (pools_add c d h key val s)) (<[c := (h, key, val)]> E).
Proof using L.
  intros Hs Hp Hh Hnone Hc Hd Hok En En' Ha Hb. pose proof (proj2 (pools_fresh _ _ _ (ti_pools _ _ Hs)) Hc) as HEc.
  pose proof (ti_part _ _ Hs _ _ Hp) as Hpi.
  assert (forall j q c', partitions s !! j = Some q -> c' ∈ pnodes q -> c' <> c) as Hne.
  { intros j q c' Hq Hc' ->. destruct (pi_entry _ _ _ (ti_part _ _ Hs _ _ Hq) c Hc') as (? & ? & ? & ? & _). congruence. }
  assert (forall x, x ∈ pnodes p -> hash_of (<[c := (h, key, val)]> E) x = hash_of E x) as Hhash.
  { intros x Hx. unfold hash_of. by rewrite lookup_insert_ne by (intros <-; by eapply Hne). }
  split; simpl.
  - destruct (pools_rep_add s E c d h key val (ti_pools _ _ Hs) Hc Hd) as [? ? ? ?]. by split.
  - rewrite length_alter. apply Hs.
  - intros j q. destruct (decide (n = j)) as [<-|Hj].
    + rewrite list_lookup_alter_eq, Hp. intros [= <-]. destruct Hpi as [_ Hord Hent Hcnt Hcache]. split; simpl; [done|..]; rewrite ?En'.
      * rewrite En in Hord. apply StronglySorted_app in Hord as (Hab & Hsa & Hsb). apply ordered_middle.
        assert (hash_of (<[c := (h, key, val)]> E) c = h) as -> by (unfold hash_of; by rewrite lookup_insert_eq).
        assert (forall l, (forall x, x ∈ l -> x ∈ pnodes p) -> StronglySorted (fun a b => hash_of E a <= hash_of E b) l ->
          StronglySorted (fun a b => hash_of (<[c := (h, key, val)]> E) a <= hash_of (<[c := (h, key, val)]> E) b) l) as Hmono.
        { intros l Hl. induction 1 as [|x l Hsl IH Hx]; constructor; [apply IH; set_solver|]. rewrite Forall_forall in *. intros y Hy.
          rewrite !Hhash by set_solver. auto. }
        split_and!; [apply Hmono; [rewrite En; set_solver|done]..| |]; intros x Hx; (rewrite Hhash by (rewrite En; set_solver)); auto.
      * intros c'. rewrite elem_of_app, elem_of_cons. intros Hc'. destruct (decide (c' = c)) as [->|Hcc]; [rewrite lookup_insert_eq; eauto|].
        rewrite lookup_insert_ne by done. apply Hent. rewrite En. set_solver.
      * rewrite Hcnt, En, !length_app. simpl. unfold u64, wrapu. rewrite Zplus_mod_idemp_l. f_equal. lia.
      * intros l Hl. destruct (Hcache l Hl) as (? & ? & Hsl). split_and!; [done..|]. intros o c' Ho. destruct (Hsl o c' Ho) as [Hin ->].
        rewrite Hhash by done. rewrite En in Hin. split; [set_solver|done].
    + rewrite list_lookup_alter_ne by done. intros Hq. apply (part_inv_entries E); [by apply Hs|]. intros c' h' k' v' Hc' He. exists k', v'.
      rewrite lookup_insert_ne; [done|]. intros <-. by eapply Hne.
  - intros c' x. rewrite lookup_insert_Some. intros [[<- _]|[Hcc He]].
    + exists n, (set_count (u64 (p_count p + 1)) (set_rbt rbt p)). rewrite list_lookup_alter_eq, Hp. simpl. rewrite En'. set_solver.
    + destruct (ti_in _ _ Hs _ _ He) as (j & q & Hq & Hin). destruct (decide (n = j)) as [<-|Hj].
      * simplify_eq. exists n, (set_count (u64 (p_count p + 1)) (set_rbt rbt p)). rewrite list_lookup_alter_eq, Hp. simpl. rewrite En'. rewrite En in Hin. set_solver.
      * exists j, q. by rewrite list_lookup_alter_ne.
  - intros c1 c2 h1 h2 k1 k2 v1 v2. rewrite !lookup_insert_Some. intros [[<- [= <- <- <-]]|[? H1]] [[<- [= <- <- <-]]|[? H2]] Hk; [done|..].
    + symmetry in Hk. by eapply Hnone in H2.
    + by eapply Hnone in H1.
    + by eapply (ti_keys _ _ Hs).
Qed.

(** An entry leaves its partition, and no slot of the cache holds it. *)
Lemma table_inv_remove s E n p c nd h k v rbt a b :
  table_inv s E -> partitions s !! n = Some p -> E !! c = Some (h, k, v) -> node_pool s !! c = Some nd ->
  rbt_ok rbt -> pnodes p = a ++ c :: b -> nodes (rbt_root rbt) = a ++ b ->
  (forall l, p_cache p = Some l -> l !! cache_offsetof hp h <> Some (Some c)) ->
  table_inv (set_partitions (alter (fun p => set_count (u64 (p_count p - 1)) (set_rbt rbt p)) n)
    (set_nodes (delete c) (set_descs (delete (rbt_opaq nd)) s))) (delete c E).
Proof using L.
  intros Hs Hp He Hn Hok En En' Hslot. pose proof (ti_part _ _ Hs _ _ Hp) as Hpi.
  assert (NoDup (a ++ c :: b)) as Hnd by (rewrite <- En; apply Hpi).
  assert (c ∉ a ++ b) as Hcn.
  { apply NoDup_app in Hnd as (_ & Hdis & [Hcb _]%NoDup_cons). rewrite elem_of_app. intros [Hc|Hc]; [by apply (Hdis c Hc); left|done]. }
  assert (forall x, x ∈ a ++ b -> delete c E !! x = E !! x) as Hsame by (intros x Hx; apply lookup_delete_ne; intros <-; done).
  split; simpl.
  - destruct (pools_rep_remove s E c nd (ti_pools _ _ Hs) Hn) as [? ? ? ?]. by split.
  - rewrite length_alter. apply Hs.
  - intros j q. destruct (decide (n = j)) as [<-|Hj].
    + rewrite list_lookup_alter_eq, Hp. intros [= <-].
      assert (part_inv E n (set_count (u64 (Z.of_nat (length (a ++ b)))) (set_rbt rbt p))) as Hpi'.
      { destruct Hpi as [_ Hord Hent Hcnt Hcache]. split; simpl; [done|..]; rewrite ?En'; [..|done|].
        - rewrite En in Hord. apply ordered_middle in Hord as (Hsa & Hsb & Hac & Hcb). apply StronglySorted_app. split_and!; [|done..].
          intros x y Hx Hy. specialize (Hac x Hx). specialize (Hcb y Hy). lia.
        - intros c' Hc'. apply Hent. rewrite En. set_solver.
        - intros l Hl. destruct (Hcache l Hl) as (? & ? & Hsl). split_and!; [done..|]. intros o c' Ho. destruct (Hsl o c' Ho) as [Hin ->].
          split; [|done]. rewrite En in Hin. apply elem_of_app in Hin. rewrite elem_of_cons in Hin. rewrite elem_of_app. destruct Hin as [?|[->|?]]; [auto| |auto].
          rewrite (hash_of_entry _ _ _ _ _ He) in Ho. by destruct (Hslot l Hl). }
      replace (u64 (p_count p - 1)) with (u64 (Z.of_nat (length (a ++ b)))).
      * apply (part_inv_entries E); [done|]. simpl. rewrite En'. intros c' h' k' v' Hc' He'. exists k', v'. by rewrite Hsame.
      * rewrite (pi_count _ _ _ Hpi), En, !length_app. simpl. unfold u64, wrapu. rewrite Zminus_mod_idemp_l. f_equal. lia.
    + rewrite list_lookup_alter_ne by done. intros Hq. apply (part_inv_entries E); [by apply Hs|]. intros c' h' k' v' Hc' He'. exists k', v'.
      rewrite lookup_delete_ne; [done|]. intros <-. destruct (pi_entry _ _ _ (ti_part _ _ Hs _ _ Hq) c Hc') as (? & ? & ? & ? & Hj').
      destruct (pi_entry _ _ _ Hpi c) as (? & ? & ? & ? & Hj''); [rewrite En; set_solver|]. naive_solver lia.
  - intros c' x [Hcc He']%lookup_delete_Some. destruct (ti_in _ _ Hs _ _ He') as (j & q & Hq & Hin). destruct (decide (n = j)) as [<-|Hj].
    + simplify_eq. eexists n, _. rewrite list_lookup_alter_eq, Hp. split; [done|]. simpl. rewrite En'. rewrite En in Hin. set_solver.
    + exists j, q. by rewrite list_lookup_alter_ne.
  - intros c1 c2 h1 h2 k1 k2 v1 v2 [_ H1]%lookup_delete_Some [_ H2]%lookup_delete_Some. by eapply (ti_keys _ _ Hs).
Qed.

(** An entry gets another key that compares equal, and another value. *)
Lemma table_inv_change s E c nd h k v k' v' :
  table_inv s E -> E !! c = Some (h, k, v) -> node_pool s !! c = Some nd -> canon k' = canon k ->
  table_inv (set_descs (insert (rbt_opaq nd) {| hd_key := k'; hd_val := v' |}) s) (<[c := (h, k', v')]> E).
Proof using L.
  intros Hs He Hn Hk. split; simpl.
  - by eapply pools_rep_change; [apply Hs|..].
  - apply Hs.
  - intros j q Hq. apply (part_inv_entries E); [by apply Hs|]. intros c' h1 k1 v1 Hc' He'. destruct (decide (c = c')) as [<-|].
    + simplify_eq. exists k', v'. rewrite lookup_insert_eq. split; [done|]. by apply hl_same.
    + exists k1, v1. by rewrite lookup_insert_ne.
  - intros c' x. rewrite lookup_insert_Some. intros [[<- _]|[_ He']]; by eapply (ti_in _ _ Hs).
  - intros c1 c2 h1 h2 k1 k2 v1 v2. rewrite !lookup_insert_Some. intros [[<- [= <- <- <-]]|[? H1]] [[<- [= <- <- <-]]|[? H2]] Hk'; [done|..].
    + eapply (ti_keys _ _ Hs); [exact He|exact H2|congruence].
    + eapply (ti_keys _ _ Hs); [exact H1|exact He|congruence].
    + by eapply (ti_keys _ _ Hs).
Qed.

(** ** The map *)

Context `{!EqDecision C, !Countable C}.

Definition rep_map (E : entries) (m : gmap C (K * V)) : Prop :=
  forall x k v, m !! x = Some (k, v) <-> exists c h, E !! c = Some (h, k, v) /\ canon k = x.

(** What look-ups of other keys find stays. *)
Definition kept_but (x : C) (E E' : entries) : Prop :=
  forall key loc, canon key <> x -> finds E key loc -> finds E' key loc.

Lemma finds_map s E m key loc : table_inv s E -> rep_map E m -> finds E key loc ->
  match loc with
  | Some c => exists h k v, E !! c = Some (h, k, v) /\ canon k = canon key /\ m !! canon key = Some (k, v)
  | None => m !! canon key = None
  end.
Proof.
  intros Hs Hm. destruct loc as [c|]; simpl.
  - intros (h & k & v & He & Hk). exists h, k, v. split_and!; [done..|]. apply Hm. eauto.
  - intros Hn. destruct (m !! canon key) as [[k v]|] eqn:Ex; [|done]. apply Hm in Ex as (c & h & He & Hk). by destruct (Hn c h k v).
Qed.

Lemma rep_map_insert s E m c h key val :
  table_inv s E -> rep_map E m -> (E !! c = None /\ finds E key None \/ exists h' k v, E !! c = Some (h', k, v) /\ canon k = canon key) ->
  rep_map (<[c := (h, key, val)]> E) (<[canon key := (key, val)]> m) /\ kept_but (canon key) E (<[c := (h, key, val)]> E).
Proof.
  intros Hs Hm Hc. assert (forall c' h' k' v', E !! c' = Some (h', k', v') -> c' = c <-> canon k' = canon key) as Hkeys.
  { intros c' h' k' v' He'. destruct Hc as [[Hc Hn]|(h1 & k & v & He & Hk)].
    - split; [congruence|]. intros Hk. by destruct (Hn c' h' k' v').
    - split; [intros ->; by simplify_eq|]. intros Hk'. eapply (ti_keys _ _ Hs); [done..|congruence]. }
  split.
  - intros x k v. rewrite lookup_insert_Some, (Hm x k v). setoid_rewrite lookup_insert_Some. split.
    + intros [[<- [= <- <-]]|[Hx (c' & h' & He' & Hk')]]; [exists c, h; auto|]. exists c', h'. split; [|done]. right. split; [|done].
      intros <-. apply Hx. rewrite <- Hk'. symmetry. by eapply Hkeys.
    + intros (c' & h' & [[<- [= <- <- <-]]|[Hcc He']] & <-); [auto|]. right. split; [|eauto]. intros Hx. apply Hcc. symmetry. by eapply Hkeys.
  - intros k' [c'|] Hk'; simpl.
    + intros (h' & k1 & v1 & He' & Hk1). exists h', k1, v1. split; [|done]. rewrite lookup_insert_ne; [done|]. intros <-. apply Hk'.
      rewrite <- Hk1. by eapply Hkeys.
    + intros Hn c' h' k1 v1. rewrite lookup_insert_Some. intros [[<- [= <- <- <-]]|[_ He']]; [done|eauto].
Qed.

Lemma rep_map_delete s E m c h k v :
  table_inv s E -> rep_map E m -> E !! c = Some (h, k, v) ->
  rep_map (delete c E) (delete (canon k) m) /\ kept_but (canon k) E (delete c E) /\ finds (delete c E) k None.
Proof.
  intros Hs Hm He. assert (forall c' h' k' v', E !! c' = Some (h', k', v') -> c' = c <-> canon k' = canon k) as Hkeys.
  { intros c' h' k' v' He'. split; [intros ->; by simplify_eq|]. intros Hk'. by eapply (ti_keys _ _ Hs). }
  split_and!.
  - intros x k' v'. rewrite lookup_delete_Some, (Hm x k' v'). setoid_rewrite lookup_delete_Some. split.
    + intros (Hx & c' & h' & He' & Hk'). exists c', h'. split_and!; [|done..]. intros <-. apply Hx. rewrite <- Hk'. symmetry. by eapply Hkeys.
    + intros (c' & h' & [Hcc He'] & <-). split; [|eauto]. intros Hx. apply Hcc. symmetry. by eapply Hkeys.
  - intros key [c'|] Hk'; simpl.
    + intros (h' & k1 & v1 & He' & Hk1). exists h', k1, v1. split; [|done]. rewrite lookup_delete_ne; [done|]. intros <-. apply Hk'.
      rewrite <- Hk1. by eapply Hkeys.
    + intros Hn c' h' k1 v1 [_ He']%lookup_delete_Some. eauto.
  - intros c' h' k' v' [Hcc He']%lookup_delete_Some Hk'. apply Hcc. symmetry. by eapply Hkeys.
Qed.

(** ** The functions *)

Lemma rdlock_unlock l l' : rdlock l = Some l' -> rwunlock l' = Some l.
Proof.
  destruct l as [|n|]; intros [= <-]; simpl; [done|]. rewrite decide_False by lia. do 2 f_equal. lia.
Qed.

Lemma wrlock_unlock l l' : wrlock l = Some l' -> rwunlock l' = Some l.
Proof. destruct l; by intros [= <-]. Qed.

Definition get_rc (x : option (K * V)) : hash_error_t := if x then HASHTABLE_SUCCESS else HASHTABLE_ERROR_NO_SUCH_KEY.

Lemma wp_getlatch s E m key i h (mw : bool) l l' (Q : hash_error_t * option V * option hash_latch -> table -> Prop) :
  table_inv s E -> rep_map E m -> hash_values hp key = Some (i, h) -> locks s !! Z.to_nat i = Some l -> (if mw then wrlock l else rdlock l) = Some l' ->
  (forall s' loc, table_inv s' E -> locks s' = <[Z.to_nat i := l']> (locks s) -> finds E key loc ->
     Q (get_rc (m !! canon key), snd <$> m !! canon key, Some {| locator := loc; latch_hash := h; latch_index := i |}) s') ->
  wp (hashtable_getlatch hp key mw true) Q s.
Proof using L.
  intros Hs Hm Hh Hl Hlk HQ. unfold hashtable_getlatch. rewrite andb_false_r. unfold compute. rewrite Hh.
  rewrite (proj2 (Z.ltb_lt _ _)) by (apply hl_index in Hh; lia). wp_step. wp_step. wp_step.
  eapply wp_lock_partition; [done..|]. intros s1 Hs1 Hl1. wp_step. eapply wp_key_locate; [done..|]. intros loc s2 Hf Hs2 Hl2.
  pose proof (finds_map _ _ _ _ _ Hs2 Hm Hf) as Hfm. wp_step. destruct loc as [c|].
  - destruct Hfm as (h' & k & v & He & Hk & Hmk). wp_step. eapply wp_node_data; [apply Hs2|done|]. wp_step. wp_step. specialize (HQ s2 (Some c) Hs2 ltac:(congruence) Hf).
    by rewrite Hmk in HQ.
  - wp_step. wp_step. specialize (HQ s2 None Hs2 ltac:(congruence) Hf). by rewrite Hfm in HQ.
Qed.

Lemma wp_getlatch_invalid (s : table) key mw (Q : hash_error_t * option V * option hash_latch -> table -> Prop) :
  hash_values hp key = None -> Q (HASHTABLE_ERROR_INVALID_ARGUMENT, None, None) s -> wp (hashtable_getlatch hp key mw true) Q s.
Proof. intros Hh HQ. unfold hashtable_getlatch. rewrite andb_false_r. unfold compute. rewrite Hh. wp_step. wp_step. by wp_step. Qed.

(** A latch that a look-up of [key] has left. *)
Definition latch_ok (E : entries) (key : K) (latch : hash_latch) : Prop :=
  hash_values hp key = Some (latch_index latch, latch_hash latch) /\ finds E key (locator latch).

(** What setting a key does and returns. *)
Definition set_rc (x : option (K * V)) (overwrite : bool) : hash_error_t * option (K * V) :=
  match x with
  | Some old => if overwrite then (HASHTABLE_OVERWRITTEN, Some old) else (HASHTABLE_ERROR_KEY_ALREADY_EXISTS, None)
  | None => (HASHTABLE_SUCCESS, None)
  end.
Definition set_map (m : gmap C (K * V)) (key : K) (val : V) (overwrite : bool) : gmap C (K * V) :=
  if bool_decide (is_Some (m !! canon key)) && negb overwrite then m else <[canon key := (key, val)]> m.

Lemma latch_partition s E key latch : table_inv s E -> latch_ok E key latch ->
  exists p, partitions s !! Z.to_nat (latch_index latch) = Some p /\ Z.of_nat (Z.to_nat (latch_index latch)) = latch_index latch.
Proof using L. intros Hs [Hh _]. by eapply key_partition. Qed.

(** The insertion of a new entry. *)
Lemma wp_insert_new s E key val latch (Q : hash_error_t * option (K * V) -> table -> Prop) :
  table_inv s E -> latch_ok E key latch -> locator latch = None ->
  (forall s' c, table_inv s' (<[c := (latch_hash latch, key, val)]> E) -> E !! c = None -> locks s' = locks s -> Q (HASHTABLE_SUCCESS, None) s') ->
  wp (part ← partition_at (latch_index latch);
      s ← gets id;
      loc ← deref (RBT_FIND (value_in s) (p_rbt part) (latch_hash latch));
      descriptors ← data_alloc {| hd_key := key; hd_val := val |};
      mutator ← node_alloc {| rbt_value := latch_hash latch; rbt_opaq := descriptors |};
      s ← gets id;
      rbt ← deref (RBT_INSERT (value_in s) (p_rbt part) mutator loc);
      upd_partition (latch_index latch) (fun p => set_count (u64 (p_count p + 1)) (set_rbt rbt p));;
      mret (HASHTABLE_SUCCESS, None)) Q s.
Proof using L.
  intros Hs [Hh Hf] Hloc HQ. rewrite Hloc in Hf. destruct (key_partition _ _ _ _ _ Hs Hh) as (p & Hp & Hi).
  pose proof (ti_part _ _ Hs _ _ Hp) as Hpi. pose proof (part_valued _ _ _ _ Hs Hp) as Hv.
  set (d := fresh (dom (data_pool s))). set (c := fresh (dom (node_pool s))).
  assert (data_pool s !! d = None) as Hd by apply not_elem_of_dom, is_fresh.
  assert (node_pool s !! c = None) as Hc by apply not_elem_of_dom, is_fresh.
  pose proof (proj2 (pools_fresh _ _ _ (ti_pools _ _ Hs)) Hc) as HEc.
  set (E' := <[c := (latch_hash latch, key, val)]> E). set (s1 := pools_add c d (latch_hash latch) key val s).
  assert (c ∉ pnodes p) as Hcn by (intros Hin; destruct (pi_entry _ _ _ Hpi c Hin) as (? & ? & ? & ? & _); congruence).
  assert (forall x, x ∈ pnodes p -> hash_of E' x = hash_of E x /\ value_in s1 x = value_in s x) as Hsame.
  { intros x Hx. assert (c <> x) by congruence. unfold hash_of, value_in, E', s1. simpl. by rewrite !lookup_insert_ne. }
  assert (hash_of E' c = latch_hash latch) as Hhc by (unfold hash_of, E'; by rewrite lookup_insert_eq).
  destruct (RBT_INSERT_spec (hash_of E') (value_in s1) (p_rbt p) c) as (par & rbt & a & b & Efind & Eins & Hok & En & En' & Ha & Hb); [apply Hpi| | |done|].
  { assert (part_inv E' (Z.to_nat (latch_index latch)) p) as Hpi'; [|apply Hpi'].
    apply (part_inv_entries E); [done|]. intros x hx kx vx Hx He. exists kx, vx. unfold E'. rewrite lookup_insert_ne by congruence. done. }
  { apply valued_cons. split; [unfold value_in, s1; simpl; by rewrite lookup_insert_eq, Hhc|]. intros x Hx. destruct (Hsame x Hx) as [-> ->]. by apply Hv. }
  rewrite Hhc in Efind, Ha, Hb.
  assert (RBT_FIND (value_in s) (p_rbt p) (latch_hash latch) = Some par) as Efind'.
  { rewrite <- Efind. apply RBT_FIND_ext. intros x Hx. symmetry. by apply Hsame. }
  wp_step. apply (wp_partition_at _ _ p); [done|]. wp_step. wp_step. wp_step. eapply wp_deref; [done|].
  wp_step. unfold data_alloc. wp_step. wp_step. wp_step. wp_step. wp_step. fold d.
  wp_step. unfold node_alloc. wp_step. wp_step. wp_step. wp_step. wp_step. simpl. fold c. change (set_nodes _ _) with s1.
  wp_step. wp_step. wp_step. eapply wp_deref; [exact Eins|]. wp_step. unfold upd_partition. wp_step. wp_step. apply (HQ _ c); [|done|by rewrite locks_alter].
  eapply table_inv_add; [done|done|by rewrite Hi|done..| |].
  - intros x Hx. rewrite <- (proj1 (Hsame x ltac:(rewrite En; set_solver))). auto.
  - intros x Hx. rewrite <- (proj1 (Hsame x ltac:(rewrite En; set_solver))). auto.
Qed.

Lemma wp_setlatched s E m key val latch ow l l' (Q : hash_error_t * option (K * V) -> table -> Prop) :
  table_inv s E -> rep_map E m -> latch_ok E key latch -> locks s !! Z.to_nat (latch_index latch) = Some l -> rwunlock l = Some l' ->
  (forall s' E', table_inv s' E' -> rep_map E' (set_map m key val ow) -> kept_but (canon key) E E' ->
     locks s' = <[Z.to_nat (latch_index latch) := l']> (locks s) -> Q (set_rc (m !! canon key) ow) s') ->
  wp (hashtable_setlatched key val latch ow) Q s.
Proof using L.
  intros Hs Hm Hok Hl Hl' HQ. pose proof Hok as [Hh Hf]. pose proof (finds_map _ _ _ _ _ Hs Hm Hf) as Hfm.
  assert (forall r s1 E1, table_inv s1 E1 -> locks s1 = locks s -> rep_map E1 (set_map m key val ow) -> kept_but (canon key) E E1 ->
    r = set_rc (m !! canon key) ow -> wp (hashtable_releaselatched latch;; mret r) Q s1) as Hend.
  { intros r s1 E1 Hs1 Hl1 Hm1 Hk ->. unfold hashtable_releaselatched. wp_step. eapply wp_unlock_partition; [done|by rewrite Hl1|done|].
    intros s2 Hs2 Hl2. wp_step. apply (HQ s2 E1); [done..|congruence]. }
  unfold hashtable_setlatched. wp_step. unfold set_map in Hend. destruct (locator latch) as [c|] eqn:Eloc.
  - destruct Hfm as (h & k & v & He & Hk & Hmk). rewrite Hmk in Hend. rewrite bool_decide_true in Hend by eauto. destruct ow; simpl in *.
    + apply (po_entry _ _ (ti_pools _ _ Hs)) in He as Hpe. destruct Hpe as (d & Hn & Hd).
      wp_step. wp_step. wp_step. eapply wp_deref; [done|]. wp_step. wp_step. wp_step. eapply wp_deref; [done|]. wp_step. wp_step. wp_step.
      destruct (rep_map_insert s E m c h key val Hs Hm) as [Hm1 Hk1]; [right; eauto|]. eapply Hend; [|done..]. by eapply (table_inv_change _ _ _ {| rbt_value := h; rbt_opaq := d |}).
    + wp_step. eapply Hend; [done..| |done]. by intros ? ? ?.
  - rewrite Hfm in Hend. rewrite bool_decide_false in Hend by by intros [? ?]. simpl in Hend. apply (wp_insert_new s E key val latch); [done..|].
    intros s1 c Hs1 HEc Hl1. destruct (rep_map_insert s E m c (latch_hash latch) key val Hs Hm) as [Hm1 Hk1]; [auto|]. by eapply Hend.
Qed.

Lemma wp_deletelatched s E m key k v latch (Q : K * V * hash_latch -> table -> Prop) :
  table_inv s E -> rep_map E m -> latch_ok E key latch -> m !! canon key = Some (k, v) ->
  (forall s' E' latch', table_inv s' E' -> rep_map E' (delete (canon key) m) -> kept_but (canon key) E E' -> locks s' = locks s ->
     latch_ok E' key latch' -> latch_index latch' = latch_index latch -> Q (k, v, latch') s') ->
  wp (hashtable_deletelatched hp latch) Q s.
Proof using L.
  intros Hs Hm [Hh Hf] Hmk HQ. pose proof (finds_map _ _ _ _ _ Hs Hm Hf) as Hfm. destruct (locator latch) as [c|] eqn:Eloc; [|congruence].
  destruct Hfm as (h & k' & v' & He & Hk & Hmk'). rewrite Hmk in Hmk'. injection Hmk' as <- <-.
  destruct (key_partition _ _ _ _ _ Hs Hh) as (p & Hp & Hi). destruct (entry_partition _ _ _ _ _ _ _ _ _ _ Hs Hh He Hk Hp) as [Hin ->].
  destruct (proj1 (po_entry _ _ (ti_pools _ _ Hs) _ _ _ _) He) as (d & Hn & Hd).
  unfold hashtable_deletelatched. rewrite Eloc. wp_step. wp_step. wp_step. wp_step. wp_step. eapply wp_deref; [done|].
  wp_step. eapply wp_node_data; [apply Hs|done|]. wp_step. eapply wp_store_cache; [done..|].
  destruct (table_inv_put s E (Z.to_nat (latch_index latch)) (latch_hash latch) None) as [Hs1 Hl1]; [done|done|].
  set (s1 := set_partitions _ s) in *. set (p1 := cache_put (latch_hash latch) None p).
  assert (partitions s1 !! Z.to_nat (latch_index latch) = Some p1) as Hp1 by (unfold s1; simpl; by rewrite list_lookup_alter_eq, Hp).
  pose proof (ti_part _ _ Hs1 _ _ Hp1) as Hpi. assert (c ∈ pnodes p1) as Hin1 by (unfold p1; by destruct (cache_put_frame (latch_hash latch) None p) as [-> _]).
  apply list_elem_of_split in Hin1 as (a & b & En). destruct (RBT_UNLINK_spec (p_rbt p1) a c b) as (rbt & Eu & Hok & En'); [apply Hpi|done|].
  wp_step. apply (wp_partition_at _ _ p1); [done|]. wp_step. eapply wp_deref; [done|].
  wp_step. unfold data_free. wp_step. wp_step. wp_step. eapply wp_deref; [done|]. wp_step. wp_step. unfold node_free. wp_step. wp_step. wp_step. eapply wp_deref; [done|]. wp_step.
  wp_step. unfold upd_partition. wp_step. wp_step.
  destruct (rep_map_delete s1 E m c (latch_hash latch) k v Hs1 Hm He) as (Hm' & Hk' & Hf'). rewrite Hk in Hm', Hk'.
  apply (HQ _ (delete c E)); [|done|done| | |done].
  - eapply (table_inv_remove s1 E _ p1 c {| rbt_value := latch_hash latch; rbt_opaq := d |}); [done..|].
    intros l0. unfold p1, cache_put. destruct (p_cache p) as [l1|] eqn:Ec; simpl; [|by rewrite Ec]. intros [= <-]. rewrite list_lookup_insert_Some. naive_solver.
  - by rewrite locks_alter.
  - split; [done|]. simpl. intros c' h' k1 v1 He1. rewrite <- Hk. by eapply Hf'.
Qed.

End HashtableInv.
