(* ===== verification/HashtableAll.v ===== *)
(** * Going through the whole hash table

    [hashtable_for_each] lists each entry of the map once; [hashtable_delall] frees them all. *)
From S2P Require Import Prelude Rbtree RbtTree Hashtable HashtableInv.
Local Open Scope Z_scope.

Section HashtableAll.
Context {K V C : Type} (hp : hash_param K) (canon : K -> C).

Abbreviation table := (hash_table K V).
Abbreviation entries := (gmap positive (Z * K * V)).
Abbreviation table_inv := (table_inv hp canon).
Abbreviation pnodes p := (nodes (rbt_root (p_rbt p))).

(** No partition is locked. *)
Definition unlocked (s : table) : Prop := forall n p, partitions s !! n = Some p -> p_lock p = Unlocked.

Lemma wp_lock_unlocked (s : table) n p (mw : bool) (Q : unit -> table -> Prop) :
  partitions s !! n = Some p -> p_lock p = Unlocked ->
  Q tt (set_partitions (alter (set_lock (if mw then WriteLocked else ReadLocked 1)) n) s) -> wp (lock_partition (Z.of_nat n) mw) Q s.
Proof.
  intros Hp Hl HQ. unfold lock_partition, upd_partition. wp_step. apply (wp_partition_at _ _ p); [by rewrite Nat2Z.id|]. wp_step.
  eapply wp_deref; [|wp_step; by rewrite Nat2Z.id]. rewrite Hl. by destruct mw.
Qed.

Lemma wp_unlock_locked (s : table) n p l l' (Q : unit -> table -> Prop) :
  partitions s !! n = Some p -> p_lock p = l -> rwunlock l = Some l' ->
  Q tt (set_partitions (alter (set_lock l') n) s) -> wp (unlock_partition (Z.of_nat n)) Q s.
Proof.
  intros Hp Hl Hu HQ. unfold unlock_partition, upd_partition. wp_step. apply (wp_partition_at _ _ p); [by rewrite Nat2Z.id|]. wp_step.
  eapply wp_deref; [by rewrite Hl|]. wp_step. by rewrite Nat2Z.id.
Qed.

Lemma lock_back (s : table) n p l : partitions s !! n = Some p ->
  set_partitions (alter (set_lock (p_lock p)) n) (set_partitions (alter (set_lock l) n) s) = s.
Proof.
  intros Hp. destruct s as [np dp ps]. unfold set_partitions. simpl in *. f_equal. apply list_eq. intros j. destruct (decide (n = j)) as [<-|].
  - rewrite !list_lookup_alter_eq, Hp. simpl. by destruct p.
  - by rewrite !list_lookup_alter_ne.
Qed.

(** ** Visiting *)

Definition kv (E : entries) (c : positive) : option (K * V) := (fun x => (x.1.2, x.2)) <$> E !! c.

Lemma kv_entry (E : entries) c h k v : E !! c = Some (h, k, v) -> kv E c = Some (k, v).
Proof. unfold kv. by intros ->. Qed.

Lemma wp_visit_loop s E i p fuel (Q : list (K * V) -> table -> Prop) :
  table_inv s E -> partitions s !! i = Some p -> forall a rest, pnodes p = a ++ rest -> (length rest <= fuel)%nat ->
  Q (omap (kv E) rest) s -> wp (visit_loop (p_rbt p) fuel (head rest)) Q s.
Proof.
  intros Hs Hp. pose proof (ti_part _ _ _ _ Hs _ _ Hp) as Hpi. revert Q.
  induction fuel as [|fuel IH]; intros Q a [|c rest] En Hf HQ; simpl in *; [by wp_step|lia|by wp_step|].
  destruct (pi_entry _ _ _ _ Hpi c) as (h & k & v & He & _); [rewrite En; set_solver|]. rewrite (kv_entry _ _ _ _ _ He) in HQ.
  wp_step. eapply wp_node_data; [apply Hs|done|]. wp_step. eapply wp_deref; [eapply RBT_INCREMENT_spec; [apply Hpi|done]|].
  wp_step. apply (IH _ (a ++ [c])); [by rewrite <- app_assoc|lia|]. by wp_step.
Qed.

(** What a partition holds. *)
Definition listed (s : table) (E : entries) (i : nat) : list (K * V) :=
  match partitions s !! i with Some p => omap (kv E) (pnodes p) | None => [] end.

Lemma wp_visit_partitions s E todo : table_inv s E -> unlocked s -> forall i (Q : list (K * V) -> table -> Prop),
  (i + todo <= length (partitions s))%nat -> Q (seq i todo ≫= listed s E) s -> wp (visit_partitions todo (Z.of_nat i)) Q s.
Proof.
  intros Hs Hun. induction todo as [|todo IH]; intros i Q Hi HQ; simpl in *; [by wp_step|].
  destruct (lookup_lt_is_Some_2 (partitions s) i) as [p Hp]; [lia|]. pose proof (Hun i p Hp) as Hl.
  wp_step. apply (wp_lock_unlocked _ _ p); [done..|]. set (s1 := set_partitions _ s).
  assert (partitions s1 !! i = Some (set_lock (ReadLocked 1) p)) as Hp1 by (unfold s1; simpl; by rewrite list_lookup_alter_eq, Hp).
  wp_step. eapply (wp_partition_at s1); [by rewrite Nat2Z.id|].
  assert (table_inv s1 E) as Hs1 by by apply table_inv_lock.
  pose proof (ok_left _ (pi_ok _ _ _ _ (ti_part _ _ _ _ Hs1 _ _ Hp1))) as Hleft. rewrite Hleft.
  wp_step. apply (wp_visit_loop s1 E i _ _ _ Hs1 Hp1 []); [done..|]. wp_step. apply (wp_unlock_locked s1 i _ (ReadLocked 1) Unlocked _ Hp1); [done..|]. rewrite <- Hl. unfold s1.
  rewrite lock_back by done. wp_step. replace (Z.of_nat i + 1) with (Z.of_nat (S i)) by lia. apply IH; [lia|]. wp_step.
  unfold listed at 1 in HQ. by rewrite Hp in HQ.
Qed.

Lemma omap_NoDup {A B} (f : A -> option B) l : (forall x y z, f x = Some z -> f y = Some z -> x = y) -> NoDup l -> NoDup (omap f l).
Proof.
  intros Hf. induction 1 as [|x l Hx Hl IH]; simpl; [constructor|]. destruct (f x) as [z|] eqn:Ez; [|done]. constructor; [|done].
  rewrite list_elem_of_omap. intros (y & Hy & Ey). by rewrite (Hf _ _ _ Ez Ey) in Hx.
Qed.

Lemma listed_elem s E i k v : table_inv s E ->
  (k, v) ∈ listed s E i <-> exists p c h, partitions s !! i = Some p /\ c ∈ pnodes p /\ E !! c = Some (h, k, v).
Proof.
  intros Hs. unfold listed. destruct (partitions s !! i) as [p|] eqn:Hp; [|split; [by intros ?%elem_of_nil|naive_solver]]. rewrite list_elem_of_omap.
  split.
  - intros (c & Hc & Ekv). destruct (pi_entry _ _ _ _ (ti_part _ _ _ _ Hs _ _ Hp) c Hc) as (h & k' & v' & He & _).
    rewrite (kv_entry _ _ _ _ _ He) in Ekv. injection Ekv as -> ->. eauto 10.
  - intros (p' & c & h & [= <-] & Hc & He). exists c. by rewrite (kv_entry _ _ _ _ _ He).
Qed.

Lemma listed_NoDup s E n : table_inv s E -> NoDup (seq 0 n ≫= listed s E).
Proof.
  intros Hs. apply NoDup_bind; [..|apply NoDup_seq].
  - intros i j [k v] _ _ (p & c & h & Hp & Hc & He)%listed_elem (q & d & h' & Hq & Hd & He')%listed_elem; [|done..].
    assert (c = d) as <- by (by eapply (ti_keys _ _ _ _ Hs)).
    destruct (pi_entry _ _ _ _ (ti_part _ _ _ _ Hs _ _ Hp) c Hc) as (h1 & k1 & v1 & He1 & Hk1).
    destruct (pi_entry _ _ _ _ (ti_part _ _ _ _ Hs _ _ Hq) c Hd) as (h2 & k2 & v2 & He2 & Hk2). naive_solver lia.
  - intros i _. unfold listed. destruct (partitions s !! i) as [p|] eqn:Hp; [|constructor]. apply omap_NoDup; [|apply (ti_part _ _ _ _ Hs _ _ Hp)].
    intros c d [k v]. unfold kv. intros ([[h k1] v1] & He & [= -> ->])%fmap_Some ([[h' k2] v2] & He' & [= -> ->])%fmap_Some.
    by eapply (ti_keys _ _ _ _ Hs).
Qed.

Context `{!EqDecision C, !Countable C}.

(** Every entry of the map once. *)
Lemma for_each_spec s E (m : gmap C (K * V)) : table_inv s E -> rep_map canon E m -> unlocked s ->
  exists l, hashtable_for_each hp s = Some (l, s) /\ l ≡ₚ (map_to_list m).*2.
Proof.
  intros Hs Hm Hun. exists (seq 0 (Z.to_nat (index_size hp)) ≫= listed s E). split.
  - assert (wp (hashtable_for_each hp) (fun l s' => l = seq 0 (Z.to_nat (index_size hp)) ≫= listed s E /\ s' = s) s) as Hw.
    { unfold hashtable_for_each. apply (wp_visit_partitions s E _ Hs Hun 0); [|done]. rewrite (ti_len _ _ _ _ Hs). lia. }
    by apply wp_run in Hw as (l & s' & -> & -> & ->).
  - apply NoDup_Permutation; [by apply listed_NoDup| |].
    + apply NoDup_fmap_2_strong; [|apply NoDup_map_to_list].
      intros [x [k v]] [y [k' v']] Hx%elem_of_map_to_list Hy%elem_of_map_to_list [= <- <-].
      apply Hm in Hx as (? & ? & _ & <-). by apply Hm in Hy as (? & ? & _ & <-).
    + intros [k v]. rewrite list_elem_of_bind, list_elem_of_fmap. split.
      * intros (i & (p & c & h & Hp & Hc & He)%listed_elem & _); [|done]. exists (canon k, (k, v)). split; [done|]. apply elem_of_map_to_list, Hm. eauto.
      * intros ([x [k' v']] & [= <- <-] & (c & h & He & _)%elem_of_map_to_list%Hm). destruct (ti_in _ _ _ _ Hs _ _ He) as (i & p & Hp & Hc).
        exists i. split; [apply listed_elem; eauto 10|]. apply elem_of_seq. apply lookup_lt_Some in Hp. rewrite (ti_len _ _ _ _ Hs) in Hp. lia.
Qed.

(** ** Deleting everything

    [hashtable_delall] leaves the caches as they are, so that what holds is the invariant without
    them. *)

Definition uncached (s : table) : table := set_partitions (fmap (set_cache None)) s.

Lemma uncached_partition (s : table) i p : partitions s !! i = Some p -> partitions (uncached s) !! i = Some (set_cache None p).
Proof. intros Hp. simpl. by rewrite list_lookup_fmap, Hp. Qed.

Lemma uncached_alter (s : table) f n : (forall p, set_cache None (f p) = f (set_cache None p)) ->
  uncached (set_partitions (alter f n) s) = set_partitions (alter f n) (uncached s).
Proof.
  intros Hf. unfold uncached, set_partitions. simpl. f_equal. apply list_eq. intros j. rewrite list_lookup_fmap. destruct (decide (n = j)) as [<-|].
  - rewrite !list_lookup_alter_eq, list_lookup_fmap. destruct (partitions s !! n); simpl; [by rewrite Hf|done].
  - by rewrite !list_lookup_alter_ne, list_lookup_fmap.
Qed.

Lemma table_inv_uncached s E : table_inv s E -> table_inv (uncached s) E.
Proof.
  intros Hs. split; simpl.
  - by destruct (ti_pools _ _ _ _ Hs).
  - rewrite length_fmap. apply Hs.
  - intros i p. rewrite list_lookup_fmap. intros (q & Hq & ->)%fmap_Some. destruct (ti_part _ _ _ _ Hs _ _ Hq). by split.
  - intros c x (i & p & Hp & Hc)%(ti_in _ _ _ _ Hs). exists i, (set_cache None p). by rewrite list_lookup_fmap, Hp.
  - apply Hs.
Qed.

Context {L : HashLaws hp canon} (free_func : K -> V -> Z) (Hfree : forall k v, free_func k v <> 0).

Lemma wp_delall_loop n fuel : forall s E p (Q : bool -> table -> Prop),
  table_inv (uncached s) E -> partitions s !! n = Some p -> (length (pnodes p) <= fuel)%nat ->
  (forall s' E' p', table_inv (uncached s') E' -> partitions s' = <[n := p']> (partitions s) -> p_lock p' = p_lock p -> pnodes p' = [] -> Q true s') ->
  wp (delall_loop free_func (Z.of_nat n) fuel) Q s.
Proof using L Hfree.
  induction fuel as [|fuel IH]; intros s E p Q Hs Hp Hf HQ; pose proof (ti_part _ _ _ _ Hs _ _ (uncached_partition _ _ _ Hp)) as Hpi;
    pose proof (ok_left _ (pi_ok _ _ _ _ Hpi)) as Hleft; simpl in Hleft; simpl; (wp_step; eapply (wp_partition_at s); [by rewrite Nat2Z.id|]); rewrite Hleft;
    destruct (pnodes p) as [|c b] eqn:En; simpl in *; try lia.
  1, 2: wp_step; apply (HQ s E p); [done| |done..]; by rewrite list_insert_id.
  destruct (RBT_UNLINK_spec (p_rbt p) [] c b) as (rbt & Eu & Hok & En'); [apply Hpi|done|]. wp_step. eapply wp_deref; [done|].
  destruct (pi_entry _ _ _ _ Hpi c) as (h & k & v & He & _); [simpl; rewrite En; set_solver|].
  destruct (proj1 (po_entry _ _ (ti_pools _ _ _ _ Hs) _ _ _ _) He) as (d & Hn & Hd). simpl in Hn, Hd.
  wp_step. wp_step. wp_step. eapply wp_deref; [done|]. wp_step. unfold node_data. wp_step. wp_step. wp_step. eapply wp_deref; [done|]. wp_step. wp_step. eapply wp_deref; [done|].
  wp_step. unfold data_free. wp_step. wp_step. wp_step. eapply wp_deref; [done|]. wp_step. wp_step. unfold node_free. wp_step. wp_step. wp_step. eapply wp_deref; [done|]. wp_step.
  wp_step. unfold upd_partition. wp_step. rewrite (proj2 (Z.eqb_neq _ _)) by apply Hfree. rewrite Nat2Z.id. set (s1 := set_partitions _ _). simpl in s1.
  assert (partitions s1 !! n = Some (set_count (u64 (p_count p - 1)) (set_rbt rbt p))) as Hp1 by (unfold s1; simpl; by rewrite list_lookup_alter_eq, Hp).
  eapply (IH s1 (delete c E)); [|done|simpl; rewrite En'; simpl; lia|].
  - unfold s1. rewrite uncached_alter by done. apply (table_inv_remove hp canon (uncached s) E n (set_cache None p) c {| rbt_value := h; rbt_opaq := d |} h k v rbt [] b); [done|by apply uncached_partition|done..].
  - intros s' E' p' Hs' Eps Hl Hnil. apply (HQ s' E' p'); [done| |done..]. rewrite Eps. unfold s1. simpl. apply list_eq. intros j.
    destruct (decide (n = j)) as [<-|]; [|by rewrite !list_lookup_insert_ne, list_lookup_alter_ne].
    apply lookup_lt_Some in Hp as Hlt. rewrite !list_lookup_insert_eq; [done|done|by rewrite length_alter].
Qed.

(** The first [i] partitions are empty. *)
Definition emptied (i : nat) (s : table) : Prop := forall j p, (j < i)%nat -> partitions s !! j = Some p -> pnodes p = [].

Lemma wp_delall_partitions todo : forall i s E (Q : hash_error_t -> table -> Prop),
  table_inv (uncached s) E -> unlocked s -> emptied i s -> (i + todo <= length (partitions s))%nat ->
  (forall s' E', table_inv (uncached s') E' -> unlocked s' -> emptied (i + todo) s' -> Q HASHTABLE_SUCCESS s') ->
  wp (delall_partitions free_func todo (Z.of_nat i)) Q s.
Proof using L Hfree.
  induction todo as [|todo IH]; intros i s E Q Hs Hun Hem Hi HQ; simpl.
  { wp_step. apply (HQ s E); [done..|]. by rewrite Nat.add_0_r. }
  destruct (lookup_lt_is_Some_2 (partitions s) i) as [p Hp]; [lia|]. pose proof (Hun i p Hp) as Hl.
  wp_step. apply (wp_lock_unlocked _ _ p); [done..|]. set (s1 := set_partitions _ s).
  assert (partitions s1 !! i = Some (set_lock WriteLocked p)) as Hp1 by (unfold s1; simpl; by rewrite list_lookup_alter_eq, Hp).
  wp_step. eapply (wp_partition_at s1); [by rewrite Nat2Z.id|]. wp_step.
  eapply (wp_delall_loop i _ s1 E); [unfold s1; rewrite uncached_alter by done; by apply table_inv_lock|done|done|].
  intros s2 E2 p2 Hs2 Eps Hl2 Hnil. assert (partitions s2 !! i = Some p2) as Hp2 by (rewrite Eps; apply list_lookup_insert_eq; by eapply lookup_lt_Some).
  wp_step. apply (wp_unlock_locked s2 i p2 WriteLocked Unlocked); [done..|].
  assert (forall j q, partitions (set_partitions (alter (set_lock Unlocked) i) s2) !! j = Some q ->
    j = i /\ q = set_lock Unlocked p2 \/ j <> i /\ partitions s !! j = Some q) as Hpart.
  { intros j q. simpl. destruct (decide (i = j)) as [<-|]; [rewrite list_lookup_alter_eq, Hp2; intros [= <-]; auto|].
    rewrite list_lookup_alter_ne, Eps, list_lookup_insert_ne by done. unfold s1. simpl. rewrite list_lookup_alter_ne by done. auto. }
  replace (Z.of_nat i + 1) with (Z.of_nat (S i)) by lia. eapply (IH (S i) _ E2).
  - rewrite uncached_alter by done. by apply table_inv_lock.
  - intros j q [[-> ->]|[_ Hq]]%Hpart; [done|by apply (Hun j)].
  - intros j q Hj [[-> ->]|[Hne Hq]]%Hpart; [done|]. apply (Hem j); [lia|done].
  - simpl. rewrite length_alter, Eps, length_insert. unfold s1. simpl. rewrite length_alter. lia.
  - intros s3 E3 Hs3 Hun3 Hem3. apply (HQ s3 E3); [done..|]. by rewrite Nat.add_succ_r.
Qed.

(** Nothing stays allocated. *)
Lemma delall_spec s E : table_inv s E -> unlocked s ->
  exists s', hashtable_delall hp free_func s = Some (HASHTABLE_SUCCESS, s') /\ node_pool s' = ∅ /\ data_pool s' = ∅ /\ unlocked s'.
Proof using L Hfree.
  intros Hs Hun.
  assert (wp (hashtable_delall hp free_func) (fun rc s' => rc = HASHTABLE_SUCCESS /\ node_pool s' = ∅ /\ data_pool s' = ∅ /\ unlocked s') s) as Hw;
    [|by apply wp_run in Hw as (rc & s' & E1 & -> & ?); eauto].
  unfold hashtable_delall. apply (wp_delall_partitions _ 0 s E); [by apply table_inv_uncached|done|intros ? ? ?; lia|rewrite (ti_len _ _ _ _ Hs); lia|].
  intros s' E' Hs' Hun' Hem. assert (E' = ∅) as ->.
  { apply map_eq. intros c. rewrite lookup_empty. destruct (E' !! c) as [x|] eqn:He; [|done].
    destruct (ti_in _ _ _ _ Hs' _ _ He) as (i & p & Hp & Hc). apply lookup_lt_Some in Hp as Hlt. rewrite (ti_len _ _ _ _ Hs') in Hlt.
    simpl in Hp. rewrite list_lookup_fmap in Hp. apply fmap_Some in Hp as (q & Hq & ->). simpl in Hc. rewrite (Hem i q) in Hc by (lia || done). by apply elem_of_nil in Hc. }
  pose proof (ti_pools _ _ _ _ Hs') as Hp. assert (node_pool s' = ∅) as Hnodes.
  { apply map_eq. intros c. rewrite lookup_empty. by apply (pools_fresh (uncached s') ∅ c Hp). }
  split_and!; [done..| |done]. apply map_eq. intros d. rewrite lookup_empty. destruct (data_pool s' !! d) as [x|] eqn:Hd; [|done].
  destruct (po_data _ _ Hp d) as (c & nd & Hn & _); [by exists x|]. simpl in Hn. by rewrite Hnodes in Hn.
Qed.

End HashtableAll.
