(* ===== verification/HashtableTheorems.v ===== *)
(** * What the hash table guarantees

    The calls that hold no latch when they return, and runs of callers that hold latches, against a
    finite map. *)
From S2P Require Import Prelude Rbtree RbtTree Hashtable HashtableInv HashtableAll.
Local Open Scope Z_scope.

Section HashtableTheorems.
Context {K V C : Type} `{!EqDecision C, !Countable C} (hp : hash_param K) (canon : K -> C) {L : HashLaws hp canon}.

Abbreviation table := (hash_table K V).
Abbreviation entries := (gmap positive (Z * K * V)).
Abbreviation map := (gmap C (K * V)).
Abbreviation table_inv := (table_inv hp canon).
Abbreviation rep_map := (rep_map canon).
Abbreviation kept_but := (kept_but canon).
Abbreviation latch_ok := (latch_ok hp canon).

(** ** Calls

    A call on a key with hashes [i] and [h] while the lock [l] of its partition can be had. *)

Lemma locks_back (s : table) n l l' : locks s !! n = Some l -> <[n := l]> (<[n := l']> (locks s)) = locks s.
Proof. intros Hl. rewrite list_insert_insert_eq. by apply list_insert_id. Qed.

Section call.
Context (s : table) (E : entries) (m : map) (key : K) (i h : Z) (l l' : rwlock).
Context (Hs : table_inv s E) (Hm : rep_map E m) (Hh : hash_values hp key = Some (i, h)) (Hl : locks s !! Z.to_nat i = Some l).

Lemma lock_there l1 : (<[Z.to_nat i := l1]> (locks s)) !! Z.to_nat i = Some l1.
Proof using Hl. apply list_lookup_insert_eq. by eapply lookup_lt_Some. Qed.

Lemma kept_refl x : kept_but x E E.
Proof. by intros ? ? ?. Qed.

(** The look-up and the release of its latch. *)
Lemma wp_release_latch s1 E1 latch l1 l2 (Q : unit -> table -> Prop) :
  table_inv s1 E1 -> latch_index latch = i -> locks s1 = <[Z.to_nat i := l1]> (locks s) -> rwunlock l1 = Some l2 ->
  (forall s', table_inv s' E1 -> locks s' = <[Z.to_nat i := l2]> (locks s) -> Q tt s') -> wp (hashtable_releaselatched latch) Q s1.
Proof using Hl.
  intros Hs1 Hi Hl1 Hu HQ. unfold hashtable_releaselatched. rewrite Hi. eapply wp_unlock_partition; [done|rewrite Hl1; by apply lock_there|done|].
  intros s2 Hs2 Hl2. apply HQ; [done|]. rewrite Hl2, Hl1. by rewrite list_insert_insert_eq.
Qed.

Lemma wp_Get (Q : hash_error_t * option V -> table -> Prop) :
  rdlock l = Some l' ->
  (forall s', table_inv s' E -> locks s' = locks s -> Q (get_rc (m !! canon key), snd <$> m !! canon key) s') -> wp (HashTable_Get hp key) Q s.
Proof using All.
  intros Hlk HQ. unfold HashTable_Get. wp_step. unfold hashtable_getlatch. simpl. unfold compute. rewrite Hh.
  rewrite (proj2 (Z.ltb_lt _ _)) by (apply hl_index in Hh; lia). wp_step. wp_step. wp_step.
  eapply (wp_lock_partition hp canon _ _ _ false); [done..|]. intros s1 Hs1 Hl1. wp_step. eapply wp_key_locate; [done..|]. intros loc s2 Hf Hs2 Hl2.
  pose proof (finds_map hp canon _ _ _ _ _ Hs2 Hm Hf) as Hfm. pose proof (rdlock_unlock _ _ Hlk) as Hu.
  assert (forall r : hash_error_t * option V * option hash_latch, r.1 = (get_rc (m !! canon key), snd <$> m !! canon key) ->
    wp (unlock_partition i;; mret r) (fun a => wp (let '(rc, val, _) := a in mret (rc, val)) Q) s2) as Hend.
  { intros [[rc v] lt] Er. simpl in Er. injection Er as -> ->. wp_step. eapply wp_unlock_partition; [done|rewrite Hl2, Hl1; by apply lock_there|done|].
    intros s3 Hs3 Hl3. wp_step. wp_step. apply HQ; [done|]. rewrite Hl3, Hl2, Hl1. by apply locks_back. }
  wp_step. destruct loc as [c|].
  - destruct Hfm as (h' & k & v & He & Hk & Hmk). wp_step. eapply wp_node_data; [apply Hs2|done|]. wp_step. apply Hend. by rewrite Hmk.
  - wp_step. apply Hend. by rewrite Hfm.
Qed.

Lemma wp_getref (Q : hash_error_t * option V -> table -> Prop) :
  rdlock l = Some l' ->
  (forall s', table_inv s' E -> locks s' = locks s -> Q (get_rc (m !! canon key), snd <$> m !! canon key) s') -> wp (hashtable_getref hp key) Q s.
Proof using All.
  intros Hlk HQ. unfold hashtable_getref. wp_step. eapply (wp_getlatch hp canon _ _ _ _ _ _ false); [done..|]. intros s1 loc Hs1 Hl1 Hf.
  assert (forall r : hash_error_t * option V, r = (get_rc (m !! canon key), snd <$> m !! canon key) ->
    wp (latch ← deref (Some {| locator := loc; latch_hash := h; latch_index := i |}); hashtable_releaselatched latch;; mret r) Q s1) as Hend.
  { intros r ->. wp_step. wp_step. wp_step. eapply wp_release_latch; [done..|by apply rdlock_unlock in Hlk|]. intros s2 Hs2 Hl2. wp_step. apply HQ; [done|].
    rewrite Hl2. by apply list_insert_id. }
  destruct (m !! canon key) as [[k v]|]; simpl; by apply Hend.
Qed.

Lemma wp_Set val (Q : hash_error_t -> table -> Prop) :
  wrlock l = Some l' ->
  (forall s' E', table_inv s' E' -> rep_map E' (set_map canon m key val false) -> kept_but (canon key) E E' -> locks s' = locks s -> Q (set_rc (m !! canon key) false).1 s') ->
  wp (HashTable_Set hp key val) Q s.
Proof using All.
  intros Hlk HQ. unfold HashTable_Set. wp_step. eapply (wp_getlatch hp canon _ _ _ _ _ _ true); [done..|]. intros s1 loc Hs1 Hl1 Hf.
  rewrite decide_False by (destruct (m !! canon key); simpl; intros [? ?]; done). wp_step. wp_step. wp_step.
  eapply (wp_setlatched hp canon s1 E m); [done..|rewrite Hl1; by apply lock_there|by apply wrlock_unlock in Hlk|]. intros s2 E2 Hs2 Hm2 Hk2 Hl2. wp_step.
  apply (HQ s2 E2); [done..|]. rewrite Hl2, Hl1. by apply locks_back.
Qed.

Lemma wp_Del (Q : hash_error_t * option (K * V) -> table -> Prop) :
  wrlock l = Some l' ->
  (forall s' E', table_inv s' E' -> rep_map E' (delete (canon key) m) -> kept_but (canon key) E E' -> locks s' = locks s -> Q (get_rc (m !! canon key), m !! canon key) s') ->
  wp (HashTable_Del hp key) Q s.
Proof using All.
  intros Hlk HQ. apply wrlock_unlock in Hlk as Hu. unfold HashTable_Del. wp_step. eapply (wp_getlatch hp canon _ _ _ _ _ _ true); [done..|]. intros s1 loc Hs1 Hl1 Hf.
  destruct (m !! canon key) as [[k v]|] eqn:Emk; simpl.
  - wp_step. wp_step. wp_step. eapply (wp_deletelatched hp canon s1 E m key); [done..|]. intros s2 E2 latch2 Hs2 Hm2 Hk2 Hl2 Hok2 Hi2. wp_step.
    eapply (wp_release_latch s2 E2); [done|done|by rewrite Hl2|done|]. intros s3 Hs3 Hl3. wp_step. apply (HQ s3 E2); [done..|]. rewrite Hl3. by apply list_insert_id.
  - wp_step. wp_step. wp_step. eapply (wp_release_latch s1 E); [done..|]. intros s2 Hs2 Hl2. wp_step. apply (HQ s2 E); [done| |apply kept_refl|].
    + by rewrite delete_id.
    + rewrite Hl2. by apply list_insert_id.
Qed.

(** [hashtable_test_and_set] by the way to set. *)
Definition tas_rc (x : option (K * V)) (how : hash_set_how_t) : hash_error_t :=
  match how, x with
  | HASHTABLE_SET_HOW_TEST_ONLY, _ => get_rc x
  | HASHTABLE_SET_HOW_SET_NO_OVERWRITE, Some _ => HASHTABLE_ERROR_KEY_ALREADY_EXISTS
  | _, _ => HASHTABLE_SUCCESS
  end.
Definition tas_map (m : map) (key : K) (val : V) (how : hash_set_how_t) : map :=
  if decide (how = HASHTABLE_SET_HOW_TEST_ONLY) then m else set_map canon m key val (bool_decide (how = HASHTABLE_SET_HOW_SET_OVERWRITE)).

Lemma wp_test_and_set val how (Q : hash_error_t -> table -> Prop) :
  (if bool_decide (how <> HASHTABLE_SET_HOW_TEST_ONLY) then wrlock l else rdlock l) = Some l' ->
  (forall s' E', table_inv s' E' -> rep_map E' (tas_map m key val how) -> E' = E \/ kept_but (canon key) E E' /\ bool_decide (how <> HASHTABLE_SET_HOW_TEST_ONLY) = true -> locks s' = locks s -> Q (tas_rc (m !! canon key) how) s') ->
  wp (hashtable_test_and_set hp key val how) Q s.
Proof using All.
  intros Hlk HQ. assert (rwunlock l' = Some l) as Hu by (case_bool_decide; [by apply wrlock_unlock|by apply rdlock_unlock]).
  unfold hashtable_test_and_set. wp_step. eapply (wp_getlatch hp canon); [done..|]. intros s1 loc Hs1 Hl1 Hf.
  rewrite decide_False by (destruct (m !! canon key); simpl; intros [? ?]; done). wp_step. wp_step. unfold tas_map in HQ.
  destruct (decide (how = HASHTABLE_SET_HOW_TEST_ONLY)) as [->|Ht].
  { wp_step. eapply (wp_release_latch s1 E); [done..|]. intros s2 Hs2 Hl2. wp_step. apply (HQ s2 E); [done..|by left|]. rewrite Hl2. by apply list_insert_id. }
  destruct (decide (_ /\ _)) as [[-> Hrc]|Hn].
  { destruct (m !! canon key) as [x|] eqn:Ex; [|done]. wp_step. eapply (wp_release_latch s1 E); [done..|]. intros s2 Hs2 Hl2. wp_step. apply (HQ s2 E); [done| |by left|].
    - unfold set_map. rewrite Ex, bool_decide_true by eauto. done.
    - rewrite Hl2. by apply list_insert_id. }
  wp_step. eapply (wp_setlatched hp canon s1 E m); [done..|rewrite Hl1; by apply lock_there|done|]. intros s2 E2 Hs2 Hm2 Hk2 Hl2. wp_step.
  replace (if decide _ then _ else _) with (tas_rc (m !! canon key) how); [|destruct how, (m !! canon key); simpl in *; try done; by destruct Hn].
  apply (HQ s2 E2); [done..|right; by rewrite bool_decide_true|]. rewrite Hl2, Hl1. by apply locks_back.
Qed.
End call.

(** ** Callers with latches

    Each caller [t] holds at most one latch: on the partition of a key, for reading or writing. *)

Record hold : Type := { ho_key : K; ho_index : Z; ho_write : bool }.

Inductive ht_op : Type :=
  | OpLatch (t : positive) (key : K) (may_write : bool)
  | OpSetLatched (t : positive) (key : K) (val : V) (overwrite : bool)
  | OpDeleteLatched (t : positive)
  | OpRelease (t : positive)
  | OpGet (key : K)
  | OpGetRef (key : K)
  | OpSet (key : K) (val : V)
  | OpDel (key : K)
  | OpTestAndSet (key : K) (val : V) (how : hash_set_how_t).

(** The status, the value found, what was stored. *)
Abbreviation answer := (hash_error_t * option V * option (K * V))%type.

(** *** The promise: a map *)

Record ht_spec : Type := { sp_map : map; sp_held : gmap positive hold }.

(** No caller holds a latch on partition [i] that keeps another one waiting. *)
Definition available (i : Z) (may_write : bool) (held : gmap positive hold) : bool :=
  bool_decide (map_Forall (fun _ h => ho_index h = i -> may_write = false /\ ho_write h = false) held).

(** A call on [key] that does not leave a latch. *)
Definition spec_call (sp : ht_spec) (key : K) (may_write : bool) (a : answer) (m : map) : option (answer * ht_spec) :=
  match hash_values hp key with
  | None => Some (HASHTABLE_ERROR_INVALID_ARGUMENT, None, None, sp)
  | Some (i, _) => if available i may_write (sp_held sp) then Some (a, {| sp_map := m; sp_held := sp_held sp |}) else None
  end.

(** [None]: the caller would have to wait, or must not make the call. *)
Definition spec_do (sp : ht_spec) (o : ht_op) : option (answer * ht_spec) :=
  let m := sp_map sp in
  match o with
  | OpLatch t key mw =>
      match sp_held sp !! t, hash_values hp key with
      | Some _, _ => None
      | None, None => Some (HASHTABLE_ERROR_INVALID_ARGUMENT, None, None, sp)
      | None, Some (i, _) =>
          if available i mw (sp_held sp)
          then Some (get_rc (m !! canon key), snd <$> m !! canon key, None,
                     {| sp_map := m; sp_held := <[t := {| ho_key := key; ho_index := i; ho_write := mw |}]> (sp_held sp) |})
          else None
      end
  | OpSetLatched t key val ow =>
      h ← sp_held sp !! t;
      if ho_write h && bool_decide (canon key = canon (ho_key h))
      then Some ((set_rc (m !! canon key) ow).1, None, (set_rc (m !! canon key) ow).2,
                 {| sp_map := set_map canon m key val ow; sp_held := delete t (sp_held sp) |})
      else None
  | OpDeleteLatched t =>
      h ← sp_held sp !! t;
      x ← m !! canon (ho_key h);
      if ho_write h then Some (HASHTABLE_SUCCESS, None, Some x, {| sp_map := delete (canon (ho_key h)) m; sp_held := sp_held sp |}) else None
  | OpRelease t => _ ← sp_held sp !! t; Some (HASHTABLE_SUCCESS, None, None, {| sp_map := m; sp_held := delete t (sp_held sp) |})
  | OpGet key | OpGetRef key => spec_call sp key false (get_rc (m !! canon key), snd <$> m !! canon key, None) m
  | OpSet key val => spec_call sp key true ((set_rc (m !! canon key) false).1, None, None) (set_map canon m key val false)
  | OpDel key => spec_call sp key true (get_rc (m !! canon key), None, m !! canon key) (delete (canon key) m)
  | OpTestAndSet key val how =>
      spec_call sp key (bool_decide (how <> HASHTABLE_SET_HOW_TEST_ONLY)) (tas_rc (m !! canon key) how, None, None) (tas_map m key val how)
  end.

Fixpoint spec_run (sp : ht_spec) (ops : list ht_op) : option (list answer * ht_spec) :=
  match ops with
  | [] => Some ([], sp)
  | o :: ops =>
      '(a, sp) ← spec_do sp o;
      '(l, sp) ← spec_run sp ops;
      Some (a :: l, sp)
  end.

(** *** The code *)

Record ht_world : Type := { w_table : table; w_latches : gmap positive hash_latch }.

Definition with_table (w : ht_world) {A} (m : M table A) (f : A -> answer * gmap positive hash_latch) : option (answer * ht_world) :=
  '(a, s) ← m (w_table w);
  Some ((f a).1, {| w_table := s; w_latches := (f a).2 |}).

Definition ht_do (w : ht_world) (o : ht_op) : option (answer * ht_world) :=
  let ls := w_latches w in
  match o with
  | OpLatch t key mw =>
      with_table w (hashtable_getlatch hp key mw true) (fun '(rc, v, latch) => (rc, v, None, match latch with Some latch => <[t := latch]> ls | None => ls end))
  | OpSetLatched t key val ow =>
      latch ← ls !! t;
      with_table w (hashtable_setlatched key val latch ow) (fun '(rc, old) => (rc, None, old, delete t ls))
  | OpDeleteLatched t =>
      latch ← ls !! t;
      with_table w (hashtable_deletelatched hp latch) (fun '(k, v, latch) => (HASHTABLE_SUCCESS, None, Some (k, v), <[t := latch]> ls))
  | OpRelease t =>
      latch ← ls !! t;
      with_table w (hashtable_releaselatched latch) (fun _ => (HASHTABLE_SUCCESS, None, None, delete t ls))
  | OpGet key => with_table w (HashTable_Get hp key) (fun '(rc, v) => (rc, v, None, ls))
  | OpGetRef key => with_table w (hashtable_getref hp key) (fun '(rc, v) => (rc, v, None, ls))
  | OpSet key val => with_table w (HashTable_Set hp key val) (fun rc => (rc, None, None, ls))
  | OpDel key => with_table w (HashTable_Del hp key) (fun '(rc, old) => (rc, None, old, ls))
  | OpTestAndSet key val how => with_table w (hashtable_test_and_set hp key val how) (fun rc => (rc, None, None, ls))
  end.

Fixpoint ht_run (w : ht_world) (ops : list ht_op) : option (list answer * ht_world) :=
  match ops with
  | [] => Some ([], w)
  | o :: ops =>
      '(a, w) ← ht_do w o;
      '(l, w) ← ht_run w ops;
      Some (a :: l, w)
  end.

(** *** Locks and latches *)

(** The latches on a partition. *)
Definition holds_on (i : Z) (held : gmap positive hold) : gmap positive hold := filter (fun th => ho_index th.2 = i) held.

Definition lock_rep (hs : gmap positive hold) (l : rwlock) : Prop :=
  match l with
  | Unlocked => hs = ∅
  | ReadLocked n => size hs = Pos.to_nat n /\ forall t h, hs !! t = Some h -> ho_write h = false
  | WriteLocked => exists t h, hs = {[t := h]} /\ ho_write h = true
  end.

Record held_rep (s : table) (E : entries) (held : gmap positive hold) (ls : gmap positive hash_latch) : Prop := {
  he_locks n l : locks s !! n = Some l -> lock_rep (holds_on (Z.of_nat n) held) l;
  he_latch t h : held !! t = Some h -> exists latch, ls !! t = Some latch /\ latch_ok E (ho_key h) latch /\ latch_index latch = ho_index h
}.

Definition world_rep (w : ht_world) (sp : ht_spec) : Prop :=
  exists E, table_inv (w_table w) E /\ rep_map E (sp_map sp) /\ held_rep (w_table w) E (sp_held sp) (w_latches w).

Lemma holds_on_lookup i held t h : holds_on i held !! t = Some h <-> held !! t = Some h /\ ho_index h = i.
Proof. unfold holds_on. by rewrite map_lookup_filter_Some. Qed.

(** The lock can be had when it should be. *)
Lemma available_lock i held mw l : available i mw held = true -> lock_rep (holds_on i held) l ->
  exists l', (if mw then wrlock l else rdlock l) = Some l'.
Proof.
  unfold available. rewrite bool_decide_eq_true. intros Ha Hl.
  assert (forall t h, holds_on i held !! t = Some h -> mw = false /\ ho_write h = false) as Hh.
  { intros t h [Ht Hi]%holds_on_lookup. by apply (Ha t h). }
  destruct l as [|n|]; simpl in Hl; [destruct mw; eauto|..].
  - destruct Hl as [Hn _]. destruct mw; [|eauto]. destruct (map_choose (holds_on i held)) as (t & h & Ht).
    { intros E0. rewrite E0, map_size_empty in Hn. lia. }
    by destruct (Hh t h Ht).
  - destruct Hl as (t & h & E0 & Hw). destruct (Hh t h) as [_ ?]; [by rewrite E0, lookup_singleton_eq|congruence].
Qed.

Lemma holds_on_insert i held t h : held !! t = None ->
  holds_on i (<[t := h]> held) = if decide (ho_index h = i) then <[t := h]> (holds_on i held) else holds_on i held.
Proof.
  intros Ht. unfold holds_on. case_decide as Hi; [by rewrite map_filter_insert_True|]. rewrite map_filter_insert_False by done. by rewrite delete_id.
Qed.

Lemma lock_rep_add hs t h l l' : hs !! t = None -> lock_rep hs l -> (if ho_write h then wrlock l else rdlock l) = Some l' -> lock_rep (<[t := h]> hs) l'.
Proof.
  intros Ht Hl. destruct (ho_write h) eqn:Ew, l as [|n|]; simpl; intros [= <-]; simpl in *.
  - exists t, h. by rewrite Hl.
  - subst hs. split; [by rewrite insert_empty, map_size_singleton|]. intros t' h'. rewrite insert_empty, lookup_singleton_Some. by intros [_ <-].
  - destruct Hl as [Hn Hr]. split; [rewrite map_size_insert_None by done; lia|]. intros t' h'. rewrite lookup_insert_Some. intros [[_ <-]|[_ ?]]; eauto.
Qed.

Lemma lock_rep_remove hs t h l : hs !! t = Some h -> lock_rep hs l -> exists l', rwunlock l = Some l' /\ lock_rep (delete t hs) l'.
Proof.
  intros Ht. destruct l as [|n|]; simpl.
  - by intros ->.
  - intros [Hn Hr]. eexists. split; [done|]. assert (size (delete t hs) = pred (size hs)) as Hsz by by apply map_size_delete_Some.
    case_decide as Hn1; simpl.
    + subst n. apply map_size_empty_iff. rewrite Hsz, Hn. done.
    + split; [rewrite Hsz, Hn; lia|]. intros t' h' [_ ?]%lookup_delete_Some. eauto.
  - intros (t' & h' & -> & Hw). exists Unlocked. split; [done|]. apply lookup_singleton_Some in Ht as [<- <-]. apply delete_singleton_eq.
Qed.

Lemma lock_rep_writer hs t h l : hs !! t = Some h -> ho_write h = true -> lock_rep hs l -> hs = {[t := h]}.
Proof.
  intros Ht Hw. destruct l as [|n|]; simpl; [by intros ->| |].
  - intros [_ Hr]. specialize (Hr t h Ht). congruence.
  - intros (t' & h' & -> & _). by apply lookup_singleton_Some in Ht as [<- <-].
Qed.

(** *** The code keeps the promise *)

Lemma with_table_wp w {A} (m : M table A) f a (P : ht_world -> Prop) :
  wp m (fun x s => (f x).1 = a /\ P {| w_table := s; w_latches := (f x).2 |}) (w_table w) -> exists w', with_table w m f = Some (a, w') /\ P w'.
Proof. unfold with_table, wp. destruct (m (w_table w)) as [[x s]|]; [|done]. simpl. intros [<- HP]. eauto. Qed.

Lemma held_lock s E held ls i h key :
  table_inv s E -> held_rep s E held ls -> hash_values hp key = Some (i, h) ->
  exists l, locks s !! Z.to_nat i = Some l /\ lock_rep (holds_on i held) l.
Proof using L.
  intros Hs Hh Hk. destruct (key_partition hp canon _ _ _ _ _ Hs Hk) as (p & Hp & Hi). exists (p_lock p).
  assert (locks s !! Z.to_nat i = Some (p_lock p)) as Hl by (unfold locks; by rewrite list_lookup_fmap, Hp). split; [done|].
  apply (he_locks _ _ _ _ Hh) in Hl. by rewrite Hi in Hl.
Qed.

(** Look-ups through latches on other partitions are not affected. *)
Lemma latch_kept (E E' : entries) key i h k latch :
  kept_but (canon key) E E' -> hash_values hp key = Some (i, h) -> latch_ok E k latch -> latch_index latch <> i -> latch_ok E' k latch.
Proof using L.
  intros Hk Hh [Hhk Hf] Hi. split; [done|]. apply Hk; [|done]. intros Hc. apply (hl_same (hp := hp)) in Hc. rewrite Hh, Hhk in Hc. congruence.
Qed.

(** A call that leaves the locks as they were. *)
Lemma held_rep_call s s' E E' key i h held ls :
  held_rep s E held ls -> locks s' = locks s -> hash_values hp key = Some (i, h) ->
  E' = E \/ kept_but (canon key) E E' /\ available i true held = true -> held_rep s' E' held ls.
Proof using L.
  intros Hh Hl Hk HE. split.
  - intros n l. rewrite Hl. apply Hh.
  - intros t h' Ht. destruct (he_latch _ _ _ _ Hh t h' Ht) as (latch & Hls & Hok & Hi). exists latch. split_and!; [done| |done].
    destruct HE as [->|[Hkept Ha]]; [done|]. eapply latch_kept; [done..|]. rewrite Hi. intros Hii.
    unfold available in Ha. rewrite bool_decide_eq_true in Ha. by destruct (Ha t h' Ht Hii).
Qed.

Lemma held_rep_add s s' (E : entries) held ls t key i h (mw : bool) l l' loc :
  held_rep s E held ls -> held !! t = None -> hash_values hp key = Some (i, h) -> 0 <= i -> finds canon E key loc ->
  locks s !! Z.to_nat i = Some l -> (if mw then wrlock l else rdlock l) = Some l' -> locks s' = <[Z.to_nat i := l']> (locks s) ->
  held_rep s' E (<[t := {| ho_key := key; ho_index := i; ho_write := mw |}]> held) (<[t := {| locator := loc; latch_hash := h; latch_index := i |}]> ls).
Proof.
  intros Hh Ht Hk Hi Hf Hl Hlk Hl'. split.
  - intros n l1. rewrite Hl', holds_on_insert by done. simpl. rewrite list_lookup_insert_Some. intros [(<- & -> & _)|[Hn Hl1]].
    + rewrite decide_True by lia. rewrite Z2Nat.id by done. eapply lock_rep_add; [|by apply (he_locks _ _ _ _ Hh) in Hl; rewrite Z2Nat.id in Hl|done].
      destruct (holds_on i held !! t) eqn:Eh; [|done]. apply holds_on_lookup in Eh as [? _]. congruence.
    + rewrite decide_False by lia. by apply Hh.
  - intros t' h'. rewrite lookup_insert_Some. intros [[<- <-]|[Hne Ht']].
    + eexists. rewrite lookup_insert_eq. split_and!; [done|by split|done].
    + rewrite lookup_insert_ne by done. by apply Hh.
Qed.

Lemma held_rep_remove s s' (E E' : entries) held ls t hd l l' :
  held_rep s E held ls -> held !! t = Some hd -> 0 <= ho_index hd ->
  (forall t' h' latch, t' <> t -> held !! t' = Some h' -> latch_index latch = ho_index h' -> latch_ok E (ho_key h') latch -> latch_ok E' (ho_key h') latch) ->
  locks s !! Z.to_nat (ho_index hd) = Some l -> rwunlock l = Some l' -> locks s' = <[Z.to_nat (ho_index hd) := l']> (locks s) ->
  held_rep s' E' (delete t held) (delete t ls).
Proof.
  intros Hh Ht Hi Hkept Hl Hu Hl'. split.
  - intros n l1. unfold holds_on. rewrite Hl', map_filter_delete. rewrite list_lookup_insert_Some. intros [(<- & -> & _)|[Hn Hl1]].
    + apply (he_locks _ _ _ _ Hh) in Hl. rewrite Z2Nat.id in Hl |- * by done. fold (holds_on (ho_index hd) held) in Hl |- *.
      destruct (lock_rep_remove _ t hd _ ltac:(by apply holds_on_lookup) Hl) as (l2 & E2 & ?). congruence.
    + rewrite delete_id; [by apply Hh|]. apply map_lookup_filter_None. right. simpl. intros hd' Ht'. simplify_eq. lia.
  - intros t' h' [Hne Ht']%lookup_delete_Some. destruct (he_latch _ _ _ _ Hh t' h' Ht') as (latch & Hls & Hok & Hi'). exists latch.
    rewrite lookup_delete_ne by done. split_and!; [done|by eapply Hkept|done].
Qed.

(** A caller with a latch for writing is alone on its partition. *)
Lemma writer_alone s E held ls t hd t' h' :
  table_inv s E -> held_rep s E held ls -> held !! t = Some hd -> ho_write hd = true -> held !! t' = Some h' -> t' <> t -> ho_index h' <> ho_index hd.
Proof using L.
  intros Hs Hh Ht Hw Ht' Hne Hi. destruct (he_latch _ _ _ _ Hh t hd Ht) as (latch & _ & [Hk _] & Hix).
  destruct (held_lock _ _ _ _ _ _ _ Hs Hh Hk) as (l & _ & Hl). rewrite Hix in Hl.
  assert (holds_on (ho_index hd) held = {[t := hd]}) as E1 by (eapply lock_rep_writer; [by apply holds_on_lookup|done..]).
  assert (holds_on (ho_index hd) held !! t' = Some h') as E2 by by apply holds_on_lookup. rewrite E1 in E2. apply lookup_singleton_Some in E2 as [? _]. congruence.
Qed.

(** Calls on a key for which there is no hash. *)
Lemma invalid_calls_get (s : table) key : hash_values hp key = None ->
  HashTable_Get hp key s = Some (HASHTABLE_ERROR_INVALID_ARGUMENT, None, s) /\
  hashtable_getref hp key s = Some (HASHTABLE_ERROR_INVALID_ARGUMENT, None, s) /\
  HashTable_Del hp key s = Some (HASHTABLE_ERROR_INVALID_ARGUMENT, None, s).
Proof. intros Hh. unfold HashTable_Get, HashTable_Del, hashtable_getref, hashtable_getlatch, compute. by rewrite !andb_false_r, Hh. Qed.

Lemma invalid_calls_set (s : table) key val how : hash_values hp key = None ->
  HashTable_Set hp key val s = Some (HASHTABLE_ERROR_INVALID_ARGUMENT, s) /\
  hashtable_test_and_set hp key val how s = Some (HASHTABLE_ERROR_INVALID_ARGUMENT, s).
Proof. intros Hh. unfold HashTable_Set, hashtable_test_and_set, hashtable_getlatch, compute. by rewrite !andb_false_r, Hh. Qed.

(** A call that leaves no latch. *)
Lemma sim_call w sp key mw a m' a' sp' {A} (f : M table A) g :
  world_rep w sp -> spec_call sp key mw a m' = Some (a', sp') ->
  (hash_values hp key = None -> exists x, f (w_table w) = Some (x, w_table w) /\ g x = (HASHTABLE_ERROR_INVALID_ARGUMENT, None, None, w_latches w)) ->
  (forall E i h l l', table_inv (w_table w) E -> rep_map E (sp_map sp) -> hash_values hp key = Some (i, h) -> locks (w_table w) !! Z.to_nat i = Some l ->
     (if mw then wrlock l else rdlock l) = Some l' ->
     wp f (fun r s' => exists E', table_inv s' E' /\ rep_map E' m' /\ (E' = E \/ kept_but (canon key) E E' /\ mw = true) /\
       locks s' = locks (w_table w) /\ g r = (a, w_latches w)) (w_table w)) ->
  exists w', with_table w f g = Some (a', w') /\ world_rep w' sp'.
Proof using L.
  intros (E & Hs & Hm & Hh) Hsp Hinv Hval. unfold spec_call in Hsp. destruct (hash_values hp key) as [[i h]|] eqn:Hk.
  - destruct (available i mw (sp_held sp)) eqn:Hav; [|done]. injection Hsp as <- <-.
    destruct (held_lock _ _ _ _ _ _ _ Hs Hh Hk) as (l & Hl & Hlr). destruct (available_lock _ _ _ _ Hav Hlr) as [l' Hlk].
    specialize (Hval E i h l l' Hs Hm eq_refl Hl Hlk). apply wp_run in Hval as (r & s' & Ef & E' & Hs' & Hm' & HE & Hl' & Eg).
    unfold with_table. rewrite Ef. simpl. rewrite Eg. eexists. split; [done|]. exists E'. split_and!; [done..|]. eapply held_rep_call; [done..|].
    destruct HE as [->|[? ->]]; auto.
  - injection Hsp as <- <-. destruct Hinv as (x & Ef & Eg); [done|]. unfold with_table. rewrite Ef. simpl. rewrite Eg. eexists. split; [done|]. by exists E.
Qed.

Lemma sim_latch w sp t key mw a sp' : world_rep w sp -> spec_do sp (OpLatch t key mw) = Some (a, sp') ->
  exists w', ht_do w (OpLatch t key mw) = Some (a, w') /\ world_rep w' sp'.
Proof using L.
  intros (E & Hs & Hm & Hh). simpl. destruct (sp_held sp !! t) eqn:Ht; [done|]. destruct (hash_values hp key) as [[i h]|] eqn:Hk.
  - destruct (available i mw (sp_held sp)) eqn:Hav; [|done]. intros [= <- <-].
    destruct (held_lock _ _ _ _ _ _ _ Hs Hh Hk) as (l & Hl & Hlr). destruct (available_lock _ _ _ _ Hav Hlr) as [l' Hlk].
    apply with_table_wp.
    eapply (wp_getlatch hp canon); [done..|]. intros s' loc Hs' Hl' Hf. split; [done|]. exists E. split_and!; [done..|].
    apply hl_index in Hk as Hi. eapply (held_rep_add (w_table w)); [done..|apply Hi|exact Hf|exact Hl|exact Hlk|exact Hl'].
  - intros [= <- <-]. apply with_table_wp. apply wp_getlatch_invalid; [done|]. split; [done|]. by exists E.
Qed.

Lemma sim_set w sp t key val ow a sp' : world_rep w sp -> spec_do sp (OpSetLatched t key val ow) = Some (a, sp') ->
  exists w', ht_do w (OpSetLatched t key val ow) = Some (a, w') /\ world_rep w' sp'.
Proof using L.
  intros (E & Hs & Hm & Hh). simpl. destruct (sp_held sp !! t) as [hd|] eqn:Ht; [|done]. simpl.
  destruct (ho_write hd) eqn:Hw; [|done]. simpl. case_bool_decide as Hc; [|done]. intros [= <- <-].
  destruct (he_latch _ _ _ _ Hh t hd Ht) as (latch & -> & Hok & Hi). simpl. pose proof Hok as [Hk Hf].
  destruct (held_lock _ _ _ _ _ _ _ Hs Hh Hk) as (l & Hl & Hlr).
  destruct (lock_rep_remove _ t hd _ ltac:(by apply holds_on_lookup) Hlr) as (l' & Hu & _).
  assert (latch_ok E key latch) as Hok'.
  { split; [by rewrite (hl_same (hp := hp) _ _ Hc)|]. destruct (locator latch); simpl in *; by rewrite Hc. }
  apply with_table_wp. eapply (wp_setlatched hp canon); [done..|].
  intros s' E' Hs' Hm' Hkept Hl'. split; [by destruct (set_rc _ _)|]. destruct (set_rc _ _). exists E'. split_and!; [done..|]. simpl.
  eapply (held_rep_remove (w_table w)); [done..|apply hl_index in Hk; lia| |by rewrite <- Hi|done|by rewrite <- Hi].
  intros t' h' lt Hne Ht' Hi' Hok1. eapply latch_kept; [done|by rewrite (hl_same (hp := hp) _ _ Hc)|done|]. rewrite Hi', Hi. exact (writer_alone _ _ _ _ _ _ _ _ Hs Hh Ht Hw Ht' Hne).
Qed.

Lemma sim_delete w sp t a sp' : world_rep w sp -> spec_do sp (OpDeleteLatched t) = Some (a, sp') ->
  exists w', ht_do w (OpDeleteLatched t) = Some (a, w') /\ world_rep w' sp'.
Proof using L.
  intros (E & Hs & Hm & Hh). simpl. destruct (sp_held sp !! t) as [hd|] eqn:Ht; [|done]. simpl.
  destruct (sp_map sp !! canon (ho_key hd)) as [[k v]|] eqn:Hmk; [|done]. simpl. destruct (ho_write hd) eqn:Hw; [|done]. intros [= <- <-].
  destruct (he_latch _ _ _ _ Hh t hd Ht) as (latch & -> & Hok & Hi). simpl. pose proof Hok as [Hk _].
  apply with_table_wp. eapply (wp_deletelatched hp canon); [done..|].
  intros s' E' latch' Hs' Hm' Hkept Hl' Hok' Hi'. split; [done|]. exists E'. split_and!; [done..|]. simpl. split.
  - intros n l. rewrite Hl'. apply Hh.
  - intros t' h' Ht'. destruct (decide (t' = t)) as [->|Hne].
    + rewrite Ht in Ht'. injection Ht' as <-. exists latch'. rewrite lookup_insert_eq. split_and!; [done..|congruence].
    + destruct (he_latch _ _ _ _ Hh t' h' Ht') as (lt & Hls & Hok1 & Hi1). exists lt. rewrite lookup_insert_ne by done. split_and!; [done| |done].
      eapply latch_kept; [done..|]. rewrite Hi, Hi1. exact (writer_alone _ _ _ _ _ _ _ _ Hs Hh Ht Hw Ht' Hne).
Qed.

Lemma sim_release w sp t a sp' : world_rep w sp -> spec_do sp (OpRelease t) = Some (a, sp') ->
  exists w', ht_do w (OpRelease t) = Some (a, w') /\ world_rep w' sp'.
Proof using L.
  intros (E & Hs & Hm & Hh). simpl. destruct (sp_held sp !! t) as [hd|] eqn:Ht; [|done]. intros [= <- <-].
  destruct (he_latch _ _ _ _ Hh t hd Ht) as (latch & -> & Hok & Hi). simpl. pose proof Hok as [Hk Hf].
  destruct (held_lock _ _ _ _ _ _ _ Hs Hh Hk) as (l & Hl & Hlr).
  destruct (lock_rep_remove _ t hd _ ltac:(by apply holds_on_lookup) Hlr) as (l' & Hu & _).
  apply with_table_wp. unfold hashtable_releaselatched. eapply (wp_unlock_partition hp canon); [done..|].
  intros s' Hs' Hl'. split; [done|]. exists E. split_and!; [done..|]. simpl.
  eapply (held_rep_remove (w_table w)); [done..|apply hl_index in Hk; lia|done|by rewrite <- Hi|done|by rewrite <- Hi].
Qed.

Lemma sim_do w sp o a sp' : world_rep w sp -> spec_do sp o = Some (a, sp') -> exists w', ht_do w o = Some (a, w') /\ world_rep w' sp'.
Proof using L.
  intros Hw Hsp. destruct o as [t key mw|t key val ow|t|t|key|key|key val|key|key val how];
    [by eapply sim_latch|by eapply sim_set|by eapply sim_delete|by eapply sim_release|..];
    simpl in Hsp |- *; (eapply sim_call; [exact Hw|exact Hsp|intros Hk|intros E i h l l' Hs Hm Hk Hl Hlk]).
  - destruct (invalid_calls_get (w_table w) key) as (? & ? & ?); [done|]. eauto.
  - eapply wp_Get; [done..|]. intros s' Hs' Hl'. exists E. auto.
  - destruct (invalid_calls_get (w_table w) key) as (? & ? & ?); [done|]. eauto.
  - eapply wp_getref; [done..|]. intros s' Hs' Hl'. exists E. auto.
  - destruct (invalid_calls_set (w_table w) key val HASHTABLE_SET_HOW_TEST_ONLY) as (? & ?); [done|]. eauto.
  - eapply wp_Set; [done..|]. intros s' E' Hs' Hm' Hkept Hl'. exists E'. auto 10.
  - destruct (invalid_calls_get (w_table w) key) as (? & ? & ?); [done|]. eauto.
  - eapply wp_Del; [done..|]. intros s' E' Hs' Hm' Hkept Hl'. exists E'. auto 10.
  - destruct (invalid_calls_set (w_table w) key val how) as (? & ?); [done|]. eauto.
  - eapply wp_test_and_set; [done..|]. intros s' E' Hs' Hm' Hkept Hl'. exists E'. auto 10.
Qed.

Lemma sim_run ops : forall w sp rs sp', world_rep w sp -> spec_run sp ops = Some (rs, sp') -> exists w', ht_run w ops = Some (rs, w') /\ world_rep w' sp'.
Proof using L.
  induction ops as [|o ops IH]; intros w sp rs sp' Hw; simpl; [intros [= <- <-]; eauto|].
  destruct (spec_do sp o) as [[a sp1]|] eqn:E1; [|done]. simpl. destruct (spec_run sp1 ops) as [[l sp2]|] eqn:E2; [|done]. simpl. intros [= <- <-].
  destruct (sim_do _ _ _ _ _ Hw E1) as (w1 & -> & Hw1). simpl. destruct (IH _ _ _ _ Hw1 E2) as (w2 & -> & Hw2). simpl. eauto.
Qed.

(** With no latch held, no partition is locked. *)
Lemma held_none_unlocked s E ls : held_rep s E ∅ ls -> unlocked s.
Proof.
  intros Hh n p Hp. assert (locks s !! n = Some (p_lock p)) as Hl by (unfold locks; by rewrite list_lookup_fmap, Hp).
  apply (he_locks _ _ _ _ Hh) in Hl. unfold holds_on in Hl. rewrite map_filter_empty in Hl. destruct (p_lock p) as [|k|]; simpl in Hl; [done|..].
  - destruct Hl as [Hz _]. rewrite map_size_empty in Hz. lia.
  - destruct Hl as (t & h & Hz & _). by apply symmetry, map_non_empty_singleton in Hz.
Qed.

End HashtableTheorems.

(** ** A new table *)

Lemma init_rep {K V C} `{!EqDecision C, !Countable C} (hparam : hash_param K) (canon : K -> C) :
  0 <= cache_entry_count hparam ->
  world_rep (V := V) (fixup hparam) canon {| w_table := (hashtable_init hparam).2; w_latches := ∅ |} {| sp_map := ∅; sp_held := ∅ |}.
Proof.
  intros Hcount. exists ∅. simpl. split_and!.
  - split; simpl.
    + by split; simpl; [intros; rewrite !lookup_empty; naive_solver|intros; rewrite !lookup_empty in *..|intros ? [? ?]].
    + by rewrite length_replicate.
    + intros i p [-> _]%lookup_replicate. split; simpl; [apply rbt_ok_init|constructor|by intros ? ?%elem_of_nil|done|].
      intros l. destruct (negb _) eqn:Ef; [|done]. intros [= <-]. rewrite length_replicate. split_and!; [|done|].
      * revert Ef. unfold fixup. destruct (negb (Z.land (hp_flags hparam) HT_FLAG_CACHE =? 0)) eqn:Eh; simpl; [|congruence].
        destruct (Z.eqb_spec (cache_entry_count hparam) 0); simpl; lia.
      * by intros o c [? _]%lookup_replicate.
    + done.
    + done.
  - intros x k v. rewrite lookup_empty. split; [done|]. by intros (c & h & ? & _).
  - split; simpl; [|done]. intros n l. unfold locks, holds_on. simpl. rewrite fmap_replicate, map_filter_empty. by intros [-> _]%lookup_replicate.
Qed.

(** C34: the calls of a table, in any order and with any number of callers that hold latches, do what they
    would do to a finite map from keys, up to [compare_key], to pairs of a key and a value, with the
    reservations that the latches are; a caller that need not wait gets its answer. When no latch is
    held, [hashtable_for_each] visits each pair of the map once and changes nothing, and
    [hashtable_delall] with a function that does not fail frees everything. *)
Theorem hashtable_refines_map {K V C} `{!EqDecision C, !Countable C} (hparam : hash_param K) (canon : K -> C) ops rs (sp : ht_spec (V := V)) :
  HashLaws (fixup hparam) canon -> 0 <= cache_entry_count hparam ->
  spec_run (fixup hparam) canon {| sp_map := ∅; sp_held := ∅ |} ops = Some (rs, sp) ->
  exists w, ht_run (fixup hparam) {| w_table := (hashtable_init hparam).2; w_latches := ∅ |} ops = Some (rs, w) /\
    (sp_held sp = ∅ ->
      (exists l, hashtable_for_each (fixup hparam) (w_table w) = Some (l, w_table w) /\ l ≡ₚ (map_to_list (sp_map sp)).*2) /\
      (forall free_func, (forall k v, free_func k v <> 0) ->
        exists s, hashtable_delall (fixup hparam) free_func (w_table w) = Some (HASHTABLE_SUCCESS, s) /\ node_pool s = ∅ /\ data_pool s = ∅)).
Proof.
  intros HL Hcount Hsp. destruct (sim_run _ canon _ _ _ _ _ (init_rep hparam canon Hcount) Hsp) as (w & Ew & E & Hs & Hm & Hh).
  exists w. split; [done|]. intros Hnone. rewrite Hnone in Hh. apply held_none_unlocked in Hh as Hun. split.
  - by apply (for_each_spec _ canon _ E).
  - intros ff Hff. destruct (delall_spec _ canon ff Hff _ _ Hs Hun) as (s & ? & ? & ? & _). eauto.
Qed.

(** *** A table *)

(** Two partitions, three hashes in each, two slots in the cache; negative keys have no hash. *)
Definition small_param : hash_param Z := {|
  hp_flags := HT_FLAG_CACHE; cache_entry_count := 2; index_size := 2;
  hash_func_key := fun k => k `mod` 2; hash_func_rbt := fun k => k `mod` 3;
  hash_func_both := Some (fun k => if k <? 0 then None else Some (k `mod` 2, k `mod` 3));
  compare_key := Z.sub
|}.

#[export] Instance small_laws : HashLaws (fixup small_param) (id : Z -> Z).
Proof.
  split; simpl.
  - intros a b. unfold id. lia.
  - by intros a b <-.
  - intros a i h. unfold hash_values. simpl. destruct (a <? 0); [done|]. intros [= <- _]. by apply Z.mod_pos_bound.
Qed.

(** Two readers of one partition, a writer of the other, keys with one hash, and an invalid key. *)
Definition small_ops : list (ht_op (K := Z) (V := Z)) :=
  [OpSet 1 10; OpSet 7 70; OpSet 13 130; OpSet 7 71; OpSet 2 20; OpLatch 1 7 false; OpLatch 2 13 false; OpGet 1; OpLatch 3 4 true; OpSetLatched 3 4 40 false;
   OpRelease 1; OpRelease 2; OpLatch 1 7 true; OpDeleteLatched 1; OpSetLatched 1 7 72 false; OpDel 13; OpGetRef 13; OpTestAndSet 1 11 HASHTABLE_SET_HOW_SET_OVERWRITE;
   OpTestAndSet 2 21 HASHTABLE_SET_HOW_SET_NO_OVERWRITE; OpGet 1; OpGet (-1)].

Definition small_end :=
  default ([], {| sp_map := ∅; sp_held := ∅ |}) (spec_run (fixup small_param) (id : Z -> Z) {| sp_map := ∅; sp_held := ∅ |} small_ops).

Lemma hashtable_refines_map_witness : exists w,
  ht_run (fixup small_param) {| w_table := (hashtable_init small_param).2; w_latches := ∅ |} small_ops = Some (small_end.1, w) /\
  length small_end.1 = 21%nat /\
  (exists l, hashtable_for_each (fixup small_param) (w_table w) = Some (l, w_table w) /\ l ≡ₚ [(7, 72); (4, 40); (2, 20); (1, 11)]) /\
  exists s, hashtable_delall (fixup small_param) (fun _ _ => 1) (w_table w) = Some (HASHTABLE_SUCCESS, s) /\ node_pool s = ∅ /\ data_pool s = ∅.
Proof.
  destruct (hashtable_refines_map small_param (id : Z -> Z) small_ops small_end.1 small_end.2 small_laws) as (w & Ew & Hw); [done|by vm_compute|].
  destruct Hw as [Hl Hd]; [by vm_compute|]. exists w. split_and!; [done|by vm_compute|done|by apply Hd].
Defined.

(** The code runs. *)
Example small_runs : fst <$> ht_run (fixup small_param) {| w_table := (hashtable_init small_param).2; w_latches := ∅ |} small_ops = Some small_end.1.
Proof. by vm_compute. Qed.

(** [hashtable_delall] frees the nodes and leaves the caches: with a cache, a table is not to be used
    after it, nor after a [hashtable_destroy] that failed.  Here the second look-up finds in the cache a
    node that has been freed. *)
Example delall_leaves_cache :
  let hp := fixup small_param in
  let s := (hashtable_init (V := Z) small_param).2 in
  let calls := a ← HashTable_Set hp 1 10; b ← HashTable_Get hp 1; c ← hashtable_delall hp (fun _ _ => 1); mret (a, b, c) in
  fst <$> calls s = Some (HASHTABLE_SUCCESS, (HASHTABLE_SUCCESS, Some 10), HASHTABLE_SUCCESS) /\ (calls;; HashTable_Get hp 1) s = None.
Proof. by vm_compute. Qed.

(** A latch from [hashtable_acquire_latch] only reserves the partition: it has no locator and no hash, as
    its comment says. Inserting through it puts the entry under hash 0, where look-ups do not find it. *)
Example acquired_latch_is_no_lookup :
  let s := (hashtable_init (V := Z) small_param).2 in
  (r ← hashtable_acquire_latch (fixup small_param) 1; latch ← deref r.2; x ← hashtable_setlatched 1 10 latch false; y ← HashTable_Get (fixup small_param) 1; mret (x.1, y.1)) s
  ≫= (fun r => Some r.1) = Some (HASHTABLE_SUCCESS, HASHTABLE_ERROR_NO_SUCH_KEY).
Proof. by vm_compute. Qed.
