(* ===== verification/Dupreq.v ===== *)
(** * The duplicate request cache

    [RPCAL/nfs_dupreq.c] with the part of [MainNFSD/nfs_worker_thread.c] that calls
    it.  A request that may not be executed twice looks itself up in the cache of
    its connection: a new one gets an entry and is executed, a retransmission is
    answered from the entry, or waits in the entry while the request is executed.
    The entry is counted by the requests that use it and by the tree; finished
    requests retire old entries.

    Requests run interleaved.  One step of a request is one critical section: of the
    lock of a tree partition, of [dre_mtx] of an entry or of [drc_mtx].  The locks of
    the partitions span more than one of these sections in the code, so that it has
    fewer interleavings than the model. *)
From S2P Require Import Prelude Compound RbtreeX.
Local Open Scope Z_scope.

(** ** Addresses and keys *)

Definition AF_INET : Z := 2.
Definition AF_INET6 : Z := 10.

(** A [sockaddr_storage] as [struct sockaddr_in] and [struct sockaddr_in6] overlay it: both
    have the port in the same place, the IPv4 address lies over the flow information
    of IPv6, and the padding of IPv4 over the IPv6 address. *)
Record sockaddr_storage : Set := {
  ss_family : Z;
  sin_port : Z;
  sin_addr : Z;
  sin6_addr : Z
}.

#[export] Instance sockaddr_storage_eq_dec : EqDecision sockaddr_storage.
Proof. solve_decision. Defined.

(** -1, 0 or 1 as the first number is smaller, equal or greater. *)
Definition uint32_cmpf (lhs rhs : Z) : Z := if lhs <? rhs then -1 else if lhs =? rhs then 0 else 1.
Definition uint64_cmpf (lhs rhs : Z) : Z := if lhs <? rhs then -1 else if lhs =? rhs then 0 else 1.

Definition sockaddr_cmpf (addr1 addr2 : sockaddr_storage) (ignore_port : bool) : Z :=
  let ports :=
    if ignore_port then 0
    else if sin_port addr1 <? sin_port addr2 then -1
    else if sin_port addr1 =? sin_port addr2 then 0 else 1 in
  if ss_family addr1 =? AF_INET then
    if sin_addr addr1 <? sin_addr addr2 then -1
    else if sin_addr addr1 =? sin_addr addr2 then ports else 1
  else if ss_family addr1 =? AF_INET6 then
    if sin6_addr addr1 =? sin6_addr addr2 then ports
    else if sin6_addr addr1 <? sin6_addr addr2 then -1 else 1
  else -2.

(** The members of [hin] and [hk] that the comparisons read. *)
Record dupreq_key : Set := {
  hin_addr : sockaddr_storage;
  rq_xid : Z;
  dk_hk : Z
}.

#[export] Instance dupreq_key_eq_dec : EqDecision dupreq_key.
Proof. solve_decision. Defined.

(** A node of the tree: an entry with its key, which never changes. *)
Record dupreq_node : Set := { nd_key : dupreq_key; nd_id : positive }.

#[export] Instance dupreq_node_eq_dec : EqDecision dupreq_node.
Proof. solve_decision. Defined.

Definition dupreq_tcp_cmpf (lhs rhs : dupreq_node) : Z :=
  let lk := nd_key lhs in
  let rk := nd_key rhs in
  if rq_xid lk <? rq_xid rk then -1
  else if rq_xid lk =? rq_xid rk then uint64_cmpf (dk_hk lk) (dk_hk rk)
  else 1.

Definition dupreq_shared_cmpf (lhs rhs : dupreq_node) : Z :=
  let lk := nd_key lhs in
  let rk := nd_key rhs in
  let a := sockaddr_cmpf (hin_addr lk) (hin_addr rk) false in
  if a =? -1 then -1
  else if a =? 0 then
    let x := uint32_cmpf (rq_xid lk) (rq_xid rk) in
    if x =? -1 then -1 else if x =? 0 then uint64_cmpf (dk_hk lk) (dk_hk rk) else 1
  else 1.

(** ** Entries and the cache *)

Definition DUPREQ_MAX_DUPES : Z := 3.
Definition DUPREQ_MAX_RETRIES : Z := 5.
Definition RETWND_START_BIAS : Z := 16.

(** What a handler wrote into an [nfs_res_t], as a number: only whether two results
    are the same matters here. *)
Definition nfs_res_t : Set := Z.

(** [dv_res] is [None] while nothing has been written into the result.  [dv_dupe_cnt]
    is an [int] whose overflow, after 2^31 duplicates, is not modelled. *)
Record dupreq_entry : Set := {
  dv_hin : dupreq_key;
  dv_complete : bool;
  dv_refcnt : Z;
  dv_res : option nfs_res_t;
  dv_rc : nfs_req_result;
  dv_dupe_cnt : Z;
  dv_dupes : list positive
}.

Definition set_refcnt (n : Z) (e : dupreq_entry) : dupreq_entry :=
  {| dv_hin := dv_hin e; dv_complete := dv_complete e; dv_refcnt := n; dv_res := dv_res e;
     dv_rc := dv_rc e; dv_dupe_cnt := dv_dupe_cnt e; dv_dupes := dv_dupes e |}.
Definition set_result (res : nfs_res_t) (e : dupreq_entry) : dupreq_entry :=
  {| dv_hin := dv_hin e; dv_complete := dv_complete e; dv_refcnt := dv_refcnt e; dv_res := Some res;
     dv_rc := dv_rc e; dv_dupe_cnt := dv_dupe_cnt e; dv_dupes := dv_dupes e |}.
Definition set_rc (complete : bool) (rc : nfs_req_result) (e : dupreq_entry) : dupreq_entry :=
  {| dv_hin := dv_hin e; dv_complete := complete; dv_refcnt := dv_refcnt e; dv_res := dv_res e;
     dv_rc := rc; dv_dupe_cnt := dv_dupe_cnt e; dv_dupes := dv_dupes e |}.
Definition set_dupes (cnt : Z) (l : list positive) (e : dupreq_entry) : dupreq_entry :=
  {| dv_hin := dv_hin e; dv_complete := dv_complete e; dv_refcnt := dv_refcnt e; dv_res := dv_res e;
     dv_rc := dv_rc e; dv_dupe_cnt := cnt; dv_dupes := l |}.

(** [alloc_dupreq]; the pool hands out zeroed memory. *)
Definition alloc_dupreq (hin : dupreq_key) : dupreq_entry :=
  {| dv_hin := hin; dv_complete := false; dv_refcnt := 0; dv_res := None; dv_rc := NFS_REQ_OK;
     dv_dupe_cnt := 0; dv_dupes := [] |}.

(** The members of [drc_t] that serve the entries. *)
Record drc_t : Type := {
  drc_xt : rbtree_x (node := dupreq_node);
  drc_dupreq_q : list positive;
  drc_size : Z;
  drc_maxsize : Z;
  drc_hiwat : Z;
  drc_retwnd : Z
}.

Definition set_xt (xt : rbtree_x) (d : drc_t) : drc_t :=
  {| drc_xt := xt; drc_dupreq_q := drc_dupreq_q d; drc_size := drc_size d; drc_maxsize := drc_maxsize d;
     drc_hiwat := drc_hiwat d; drc_retwnd := drc_retwnd d |}.
Definition set_queue (q : list positive) (n : Z) (d : drc_t) : drc_t :=
  {| drc_xt := drc_xt d; drc_dupreq_q := q; drc_size := n; drc_maxsize := drc_maxsize d;
     drc_hiwat := drc_hiwat d; drc_retwnd := drc_retwnd d |}.
Definition set_retwnd (n : Z) (d : drc_t) : drc_t :=
  {| drc_xt := drc_xt d; drc_dupreq_q := drc_dupreq_q d; drc_size := drc_size d; drc_maxsize := drc_maxsize d;
     drc_hiwat := drc_hiwat d; drc_retwnd := n |}.

Definition drc_inc_retwnd (d : drc_t) : drc_t :=
  if drc_retwnd d =? 0 then set_retwnd RETWND_START_BIAS d
  else if drc_retwnd d <? drc_maxsize d then set_retwnd (u32 (drc_retwnd d + 2)) d
  else d.

Definition drc_dec_retwnd (d : drc_t) : drc_t :=
  if 0 <? drc_retwnd d then set_retwnd (drc_retwnd d - 1) d else d.

Definition drc_should_retire (d : drc_t) : bool :=
  if drc_maxsize d <? drc_size d then true
  else if 0 <? drc_retwnd d then false
  else drc_hiwat d <? drc_size d.

(** [alloc_tcp_drc]. *)
Definition alloc_tcp_drc (npart cachesz maxsize hiwat : Z) : drc_t :=
  {| drc_xt := rbtx_init npart cachesz (Z.lor RBT_X_FLAG_ALLOC RBT_X_FLAG_CACHE_WT);
     drc_dupreq_q := []; drc_size := 0; drc_maxsize := maxsize; drc_hiwat := hiwat; drc_retwnd := 0 |}.

(** ** Which requests are cached *)

(** The bits of [include/gsh_rpc.h]; some share a value. *)
Definition NFS_LOOKAHEAD_OPEN : Z := 0x0002.
Definition NFS_LOOKAHEAD_CLOSE : Z := 0x0004.
Definition NFS_LOOKAHEAD_READ : Z := 0x0008.
Definition NFS_LOOKAHEAD_WRITE : Z := 0x0010.
Definition NFS_LOOKAHEAD_COMMIT : Z := 0x0020.
Definition NFS_LOOKAHEAD_CREATE : Z := 0x0040.
Definition NFS_LOOKAHEAD_REMOVE : Z := 0x0080.
Definition NFS_LOOKAHEAD_RENAME : Z := 0x0100.
Definition NFS_LOOKAHEAD_LOCK : Z := 0x0200.
Definition NFS_LOOKAHEAD_READDIR : Z := 0x0400.
Definition NFS_LOOKAHEAD_LAYOUTCOMMIT : Z := 0x0040.
Definition NFS_LOOKAHEAD_SETATTR : Z := 0x0080.
Definition NFS_LOOKAHEAD_SETCLIENTID : Z := 0x0100.
Definition NFS_LOOKAHEAD_SETCLIENTID_CONFIRM : Z := 0x0200.
Definition NFS_LOOKAHEAD_LOOKUP : Z := 0x0400.
Definition NFS_LOOKAHEAD_READLINK : Z := 0x0800.

(** The operations of a compound that leave a mark; [A_OPEN] with whether the file
    is to be created. *)
Inductive argop4 : Set :=
  | A_CLOSE | A_COMMIT | A_CREATE | A_LOCK | A_LOCKU | A_LOOKUP | A_LOOKUPP | A_OPEN (create : bool)
  | A_OPEN_CONFIRM | A_OPEN_DOWNGRADE | A_READ | A_READDIR | A_READLINK | A_REMOVE | A_RENAME
  | A_SETATTR | A_SETCLIENTID | A_SETCLIENTID_CONFIRM | A_WRITE | A_LAYOUTCOMMIT | A_WRITE_SAME
  | A_READ_PLUS | A_OTHER.

(** The bits [xdr_nfs_argop4] sets while it decodes one operation. *)
Definition argop4_lookahead (op : argop4) : Z :=
  match op with
  | A_CLOSE => NFS_LOOKAHEAD_CLOSE
  | A_COMMIT => NFS_LOOKAHEAD_COMMIT
  | A_CREATE => NFS_LOOKAHEAD_CREATE
  | A_LOCK | A_LOCKU => NFS_LOOKAHEAD_LOCK
  | A_LOOKUP | A_LOOKUPP => NFS_LOOKAHEAD_LOOKUP
  | A_OPEN create =>
      if create then Z.lor NFS_LOOKAHEAD_OPEN NFS_LOOKAHEAD_CREATE else NFS_LOOKAHEAD_OPEN
  | A_OPEN_CONFIRM | A_OPEN_DOWNGRADE => NFS_LOOKAHEAD_OPEN
  | A_READ | A_READ_PLUS => NFS_LOOKAHEAD_READ
  | A_READDIR => NFS_LOOKAHEAD_READDIR
  | A_READLINK => NFS_LOOKAHEAD_READLINK
  | A_REMOVE => NFS_LOOKAHEAD_REMOVE
  | A_RENAME => NFS_LOOKAHEAD_RENAME
  | A_SETATTR => NFS_LOOKAHEAD_SETATTR
  | A_SETCLIENTID => NFS_LOOKAHEAD_SETCLIENTID
  | A_SETCLIENTID_CONFIRM => NFS_LOOKAHEAD_SETCLIENTID_CONFIRM
  | A_WRITE | A_WRITE_SAME => NFS_LOOKAHEAD_WRITE
  | A_LAYOUTCOMMIT => NFS_LOOKAHEAD_LAYOUTCOMMIT
  | A_OTHER => 0
  end.

Definition compound_lookahead (ops : list argop4) : Z :=
  foldr (fun op flags => Z.lor (argop4_lookahead op) flags) 0 ops.

Definition nfs_dupreq_v4_cacheable (minorversion flags : Z) : bool :=
  if 0 <? minorversion then false
  else if negb (Z.land flags NFS_LOOKAHEAD_CREATE =? 0) then true
  else if negb (Z.land flags
                  (Z.lor NFS_LOOKAHEAD_OPEN
                  (Z.lor NFS_LOOKAHEAD_CLOSE
                  (Z.lor NFS_LOOKAHEAD_LOCK
                  (Z.lor NFS_LOOKAHEAD_READ
                  (Z.lor NFS_LOOKAHEAD_READLINK NFS_LOOKAHEAD_READDIR))))) =? 0) then false
  else true.

(** Whether [nfs_dupreq_start] looks into the cache at all: [can_be_dup] is the flag of
    the procedure, [disabled] the parameter of the server, [compound] says that the
    procedure is COMPOUND.  A request that it does not look up is executed and leaves
    nothing behind. *)
Definition dupreq_wanted (can_be_dup disabled compound : bool) (minorversion flags : Z) : bool :=
  if negb can_be_dup then false
  else if disabled then false
  else if compound && negb (nfs_dupreq_v4_cacheable minorversion flags) then false
  else true.

(** ** Requests

    Where a request is between two critical sections; [dv] is its [rq_u1].  Program
    points inside [nfs_dupreq_finish] carry also the entry [ov] being retired and the
    number of entries retired. *)
Inductive req_pc : Set :=
  | Idle                                            (* not in the call path *)
  | Start                                           (* nfs_dupreq_start, the DRC is referenced *)
  | Start_window (dv : positive)                    (* a hit: the window is to be extended *)
  | Start_enqueue (dv : positive)                   (* new: in the tree, not yet in the queue *)
  | Queued (dv : positive)                          (* suspended in dv->dupes *)
  | Execute (dv : positive)                         (* in nfs_rpc_process_request *)
  | Send (dv : positive) (rc : nfs_req_result)      (* complete_request *)
  | Finish (dv : positive) (rc : nfs_req_result)    (* nfs_dupreq_finish *)
  | Finish_drc (dv : positive)
  | Retire (dv : positive) (ov_hk cnt : Z)
  | Retire_remove (dv ov : positive) (cnt : Z)
  | Retire_put (dv ov : positive) (cnt : Z)
  | Retire_again (dv : positive) (cnt : Z)
  | Delete (dv : positive) (rc : nfs_req_result)    (* nfs_dupreq_delete *)
  | Delete_drc (dv : positive)
  | Delete_remove (dv : positive)
  | Delete_put (dv : positive)
  | Replay (dv : positive)                          (* process_dupreq *)
  | Resume (dv : positive)                          (* drc_resume *)
  | Resend (dv : positive)                          (* its process_dupreq *)
  | Rele (dv : positive)                            (* nfs_dupreq_rele *)
  | Put (dv : positive)
  | Put_drc                                         (* nfs_dupreq_put_drc *)
  | Dropped.                                        (* gone after DUPREQ_DROP *)

Record nfs_request_t : Set := { rq_key : dupreq_key; rq_pc : req_pc }.

Definition no_request : nfs_request_t :=
  {| rq_key := {| hin_addr := {| ss_family := 0; sin_port := 0; sin_addr := 0; sin6_addr := 0 |};
                  rq_xid := 0; dk_hk := 0 |};
     rq_pc := Idle |}.

(** What the history of the cache remembers: results that handlers wrote into an
    entry, and results of an entry that were sent to a client, each with the key of
    the request. *)
Inductive drc_event : Set :=
  | Executed (k : dupreq_key) (dv : positive) (res : nfs_res_t)
  | Replied (k : dupreq_key) (dv : positive) (res : nfs_res_t).

#[export] Instance drc_event_eq_dec : EqDecision drc_event.
Proof. solve_decision. Defined.

(** [w_entries] are the allocated entries, [w_next] the next entry the pool hands
    out; [w_windows] counts the threads that queued their request and have not yet
    extended the window; [w_log] is the history, the latest event first. *)
Record world : Type := {
  w_drc : drc_t;
  w_entries : gmap positive dupreq_entry;
  w_next : positive;
  w_reqs : gmap positive nfs_request_t;
  w_windows : nat;
  w_log : list drc_event
}.

Definition req_of (r : positive) (w : world) : nfs_request_t := default no_request (w_reqs w !! r).
Definition pc_of (r : positive) (w : world) : req_pc := rq_pc (req_of r w).

Definition set_drc (d : drc_t) (w : world) : world :=
  {| w_drc := d; w_entries := w_entries w; w_next := w_next w; w_reqs := w_reqs w;
     w_windows := w_windows w; w_log := w_log w |}.
Definition set_entries (es : gmap positive dupreq_entry) (w : world) : world :=
  {| w_drc := w_drc w; w_entries := es; w_next := w_next w; w_reqs := w_reqs w;
     w_windows := w_windows w; w_log := w_log w |}.
Definition set_request (r : positive) (q : nfs_request_t) (w : world) : world :=
  {| w_drc := w_drc w; w_entries := w_entries w; w_next := w_next w; w_reqs := <[r := q]> (w_reqs w);
     w_windows := w_windows w; w_log := w_log w |}.
Definition set_next_dv (n : positive) (w : world) : world :=
  {| w_drc := w_drc w; w_entries := w_entries w; w_next := n; w_reqs := w_reqs w;
     w_windows := w_windows w; w_log := w_log w |}.
Definition set_windows (n : nat) (w : world) : world :=
  {| w_drc := w_drc w; w_entries := w_entries w; w_next := w_next w; w_reqs := w_reqs w;
     w_windows := n; w_log := w_log w |}.
Definition add_event (ev : drc_event) (w : world) : world :=
  {| w_drc := w_drc w; w_entries := w_entries w; w_next := w_next w; w_reqs := w_reqs w;
     w_windows := w_windows w; w_log := ev :: w_log w |}.

(** The steps are computations on the world; reading an entry that is not allocated,
    and an assertion that fails, have no result. *)
Definition get_dupreq (dv : positive) : M world dupreq_entry :=
  es ← gets w_entries; deref (es !! dv).
Definition put_dupreq (dv : positive) (e : dupreq_entry) : M world unit :=
  modify (fun w => set_entries (<[dv := e]> (w_entries w)) w).
Definition goto (r : positive) (pc : req_pc) : M world unit :=
  modify (fun w => set_request r {| rq_key := rq_key (req_of r w); rq_pc := pc |} w).
Definition on_drc (f : drc_t -> drc_t) : M world unit := modify (fun w => set_drc (f (w_drc w)) w).

Definition node_of (dv : positive) (e : dupreq_entry) : dupreq_node :=
  {| nd_key := dv_hin e; nd_id := dv |}.

(** ** The operations *)

Definition dupreq_entry_get (dv : positive) : M world unit :=
  e ← get_dupreq dv; put_dupreq dv (set_refcnt (u32 (dv_refcnt e + 1)) e).

(** [nfs_dupreq_free_dupreq]: the entry goes back to the pool. *)
Definition nfs_dupreq_free_dupreq (dv : positive) : M world unit :=
  e ← get_dupreq dv;
  if negb (dv_refcnt e =? 0) then undef
  else modify (fun w => set_entries (delete dv (w_entries w)) w).

(** The result of the decrement is kept in an [int32_t]. *)
Definition dupreq_entry_put (dv : positive) : M world unit :=
  e ← get_dupreq dv;
  let refcnt := u32 (dv_refcnt e - 1) in
  put_dupreq dv (set_refcnt refcnt e);;
  if 2147483648 <=? refcnt then undef
  else mwhen (refcnt =? 0) (nfs_dupreq_free_dupreq dv).

(** [nfs_dupreq_start] up to the end of its first critical section.  The lookup does
    not change a tree that has no read-through cache. *)
Definition nfs_dupreq_start (r : positive) : M world unit :=
  w ← gets id;
  let k := rq_key (req_of r w) in
  let dk := {| nd_key := k; nd_id := w_next w |} in
  let '(nv, xt) := rbtree_x_cached_lookup dupreq_tcp_cmpf (drc_xt (w_drc w)) dk (dk_hk k) in
  on_drc (set_xt xt);;
  match nv with
  | Some n =>
      let dv := nd_id n in
      e ← get_dupreq dv;
      let cnt := dv_dupe_cnt e + 1 in
      if negb (dv_complete e) && (cnt <=? DUPREQ_MAX_DUPES) then
        put_dupreq dv (set_dupes cnt (dv_dupes e ++ [r]) e);;
        dupreq_entry_get dv;;
        modify (fun w => set_windows (S (w_windows w)) w);;
        goto r (Queued dv)
      else
        put_dupreq dv (set_dupes cnt (dv_dupes e) e);;
        if negb (dv_complete e) then goto r Dropped
        else dupreq_entry_get dv;; goto r (Start_window dv)
  | None =>
      let dv := w_next w in
      put_dupreq dv (set_refcnt 2 (alloc_dupreq k));;
      modify (set_next_dv (Pos.succ (w_next w)));;
      nv ← deref (rbtree_x_cached_insert dupreq_tcp_cmpf xt dk (dk_hk k));
      on_drc (set_xt nv.2);;
      goto r (Start_enqueue dv)
  end.

(** The section of [drc_mtx] after a hit. *)
Definition start_window : M world unit := on_drc drc_inc_retwnd.

(** The section of [drc_mtx] for a new entry. *)
Definition start_enqueue (dv : positive) : M world unit :=
  on_drc (fun d => set_queue (drc_dupreq_q d ++ [dv]) (u32 (drc_size d + 1)) d).

(** [nfs_dupreq_finish], the section of [dre_mtx].  [dv->res] is the result of every
    request that has [dv] in its [rq_u1], so that the assertion on it holds. *)
Definition nfs_dupreq_finish (r dv : positive) (rc : nfs_req_result) : M world unit :=
  e ← get_dupreq dv;
  if negb (bool_decide (dv_dupes e = [])) && bool_decide (rc = NFS_REQ_XPRT_DIED) then goto r (Rele dv)
  else put_dupreq dv (set_rc true rc e);; goto r (Finish_drc dv).

(** From the label [dq_again] to where the lock of the DRC is dropped. *)
Definition dq_again (r dv : positive) (cnt : Z) : M world unit :=
  d ← gets w_drc;
  if drc_should_retire d then
    match drc_dupreq_q d with
    | ov :: _ => e ← get_dupreq ov; goto r (Retire dv (dk_hk (dv_hin e)) cnt)
    | [] => goto r (Rele dv)
    end
  else goto r (Rele dv).

(** Both locks are held again. *)
Definition finish_dequeue (r dv : positive) (ov_hk cnt : Z) : M world unit :=
  d ← gets w_drc;
  match drc_dupreq_q d with
  | [] => goto r (Rele dv)
  | ov :: q =>
      e ← get_dupreq ov;
      if negb (dk_hk (dv_hin e) =? ov_hk) then goto r (Rele dv)
      else on_drc (set_queue q (u32 (drc_size d - 1)));; goto r (Retire_remove dv ov cnt)
  end.

(** [rbtree_x_cached_remove] of the entry. *)
Definition remove_from_tree (dv : positive) : M world unit :=
  e ← get_dupreq dv;
  d ← gets w_drc;
  xt ← deref (rbtree_x_cached_remove dupreq_tcp_cmpf (drc_xt d) (node_of dv e) (dk_hk (dv_hin e)));
  on_drc (set_xt xt).

(** [nfs_dupreq_delete], the section of [dre_mtx]. *)
Definition nfs_dupreq_delete (r dv : positive) (rc : nfs_req_result) : M world unit :=
  e ← get_dupreq dv;
  if negb (bool_decide (dv_dupes e = [])) then
    put_dupreq dv (set_rc (dv_complete e) rc e);; goto r (Rele dv)
  else goto r (Delete_drc dv).

(** Its section of [drc_mtx]; an entry is enqueued while its links are not cleared. *)
Definition delete_dequeue (r dv : positive) : M world unit :=
  d ← gets w_drc;
  if negb (bool_decide (dv ∈ drc_dupreq_q d)) then goto r (Rele dv)
  else
    on_drc (set_queue (remove_id dv (drc_dupreq_q d)) (u32 (drc_size d - 1)));;
    goto r (Delete_remove dv).

(** [nfs_dupreq_rele], the section of [dre_mtx]: the next duplicate is resumed. *)
Definition nfs_dupreq_rele (r dv : positive) : M world unit :=
  e ← get_dupreq dv;
  match dv_dupes e with
  | req2 :: rest =>
      put_dupreq dv (set_dupes (dv_dupe_cnt e) rest e);;
      goto req2 (Resume dv)
  | [] => mret tt
  end;;
  goto r (Put dv).

(** [svc_sendreply] of the result of [dv]; [sent] says that it did not fail. *)
Definition svc_sendreply (r dv : positive) (sent : bool) : M world unit :=
  k ← gets (fun w => rq_key (req_of r w));
  e ← get_dupreq dv;
  match dv_res e with
  | Some res => mwhen sent (modify (add_event (Replied k dv res)))
  | None => undef
  end.

(** [complete_request] for a result other than [NFS_REQ_DROP], up to
    [nfs_dupreq_finish]. *)
Definition complete_request (r dv : positive) (rc : nfs_req_result) (sent : bool) : M world unit :=
  svc_sendreply r dv sent;;
  goto r (Finish dv (if sent then rc else NFS_REQ_XPRT_DIED)).

(** [drc_resume] up to what its switch decides. *)
Definition drc_resume (r dv : positive) : M world unit :=
  e ← get_dupreq dv;
  match dv_rc e with
  | NFS_REQ_OK | NFS_REQ_ERROR => goto r (Rele dv)
  | NFS_REQ_DROP => goto r (Execute dv)
  | NFS_REQ_REPLAY | NFS_REQ_ASYNC_WAIT => goto r (Rele dv)
  | NFS_REQ_XPRT_DIED => goto r (Resend dv)
  | NFS_REQ_AUTH_ERR => goto r (Execute dv)
  end.

(** What happens to a request from outside: it arrives, its handler returns, its
    credentials are refused, its reply is sent or not. *)
Inductive input : Set :=
  | In_request (k : dupreq_key)
  | In_handled (rc : nfs_req_result) (res : nfs_res_t)
  | In_auth_failure
  | In_sent (sent : bool)
  | In_none.

(** [nfs_rpc_process_request] behind the label [retry_after_drc_suspend], with
    [complete_request] for [NFS_REQ_DROP] and [auth_failure].  After
    [NFS_REQ_ASYNC_WAIT] the request stays where it is until
    [nfs_rpc_complete_async_request] brings the result. *)
Definition process_request (r dv : positive) (i : input) : M world unit :=
  match i with
  | In_handled rc res =>
      match rc with
      | NFS_REQ_DROP => goto r (Delete dv NFS_REQ_DROP)
      | NFS_REQ_OK | NFS_REQ_ERROR | NFS_REQ_REPLAY =>
          k ← gets (fun w => rq_key (req_of r w));
          e ← get_dupreq dv;
          put_dupreq dv (set_result res e);;
          modify (add_event (Executed k dv res));;
          goto r (Send dv rc)
      | _ => mret tt
      end
  | In_auth_failure => goto r (Delete dv NFS_REQ_AUTH_ERR)
  | _ => mret tt
  end.

(** The next step of request [r]. *)
Definition request_step (r : positive) (i : input) : M world unit :=
  pc ← gets (pc_of r);
  match pc with
  | Idle =>
      match i with
      | In_request k => modify (set_request r {| rq_key := k; rq_pc := Start |})
      | _ => mret tt
      end
  | Start => nfs_dupreq_start r
  | Start_window dv => start_window;; goto r (Replay dv)
  | Start_enqueue dv => start_enqueue dv;; goto r (Execute dv)
  | Queued dv => mret tt
  | Execute dv => process_request r dv i
  | Send dv rc =>
      match i with In_sent sent => complete_request r dv rc sent | _ => mret tt end
  | Finish dv rc => nfs_dupreq_finish r dv rc
  | Finish_drc dv => on_drc drc_dec_retwnd;; dq_again r dv 0
  | Retire dv ov_hk cnt => finish_dequeue r dv ov_hk cnt
  | Retire_remove dv ov cnt => remove_from_tree ov;; goto r (Retire_put dv ov cnt)
  | Retire_put dv ov cnt =>
      dupreq_entry_put ov;;
      goto r (if cnt <? DUPREQ_MAX_RETRIES then Retire_again dv (cnt + 1) else Rele dv)
  | Retire_again dv cnt => dq_again r dv cnt
  | Delete dv rc => nfs_dupreq_delete r dv rc
  | Delete_drc dv => delete_dequeue r dv
  | Delete_remove dv => remove_from_tree dv;; goto r (Delete_put dv)
  | Delete_put dv => dupreq_entry_put dv;; goto r (Rele dv)
  | Replay dv =>
      match i with In_sent sent => svc_sendreply r dv sent;; goto r (Rele dv) | _ => mret tt end
  | Resume dv => drc_resume r dv
  | Resend dv =>
      match i with
      | In_sent sent =>
          svc_sendreply r dv sent;;
          goto r (Finish dv (if sent then NFS_REQ_OK else NFS_REQ_XPRT_DIED))
      | _ => mret tt
      end
  | Rele dv => nfs_dupreq_rele r dv
  | Put dv => dupreq_entry_put dv;; goto r Put_drc
  | Put_drc => goto r Idle
  | Dropped => mret tt
  end.

(** A thread that queued its request extends the window. *)
Definition window_step : M world unit :=
  n ← gets w_windows;
  match n with
  | O => mret tt
  | S n' => modify (set_windows n');; start_window
  end.

(** A step of the cache: of a request among [ts], or of a thread that leaves. *)
Inductive drc_step (ts : gset positive) (w w' : world) : Prop :=
  | step_request r i : r ∈ ts -> request_step r i w = Some (tt, w') -> drc_step ts w w'
  | step_window : window_step w = Some (tt, w') -> drc_step ts w w'.

Definition drc_world (d : drc_t) : world :=
  {| w_drc := d; w_entries := ∅; w_next := 1; w_reqs := ∅; w_windows := 0; w_log := [] |}.

(** The worlds that the requests of [ts] reach from an empty cache. *)
Inductive drc_reachable (npart cachesz maxsize hiwat : Z) (ts : gset positive) : world -> Prop :=
  | dr_init : drc_reachable npart cachesz maxsize hiwat ts
                (drc_world (alloc_tcp_drc npart cachesz maxsize hiwat))
  | dr_step w w' : drc_reachable npart cachesz maxsize hiwat ts w -> drc_step ts w w' ->
      drc_reachable npart cachesz maxsize hiwat ts w'.
