(* ===== verification/DupreqInv.v ===== *)
(** * Invariants of the duplicate request cache

    What holds between any two steps of the requests of [Dupreq]: the references are
    counted exactly, an unfinished entry belongs to one request, a finished one is
    never written again. *)
From S2P Require Import Prelude Compound RbtreeX Dupreq.
Local Open Scope Z_scope.

(** ** Keys *)

(** What the tree of a connection compares. *)
Definition key_id (k : dupreq_key) : Z * Z := (rq_xid k, dk_hk k).
Definition node_id (n : dupreq_node) : Z * Z := key_id (nd_key n).
Definition node_hash (n : dupreq_node) : Z := dk_hk (nd_key n).

Lemma uint64_cmpf_zero a b : uint64_cmpf a b = 0 <-> a = b.
Proof. unfold uint64_cmpf. destruct (Z.ltb_spec a b), (Z.eqb_spec a b); lia. Qed.

Lemma uint64_cmpf_range a b : uint64_cmpf a b = -1 \/ uint64_cmpf a b = 0 \/ uint64_cmpf a b = 1.
Proof. unfold uint64_cmpf. destruct (a <? b), (a =? b); auto. Qed.

Ltac compare_cases :=
  repeat match goal with
  | |- context [?x <? ?y] => destruct (Z.ltb_spec x y)
  | |- context [?x =? ?y] => destruct (Z.eqb_spec x y)
  end; lia.

#[export] Instance dupreq_tcp_order : KeyOrder dupreq_tcp_cmpf node_id node_hash.
Proof.
  constructor; [constructor|]; intros [a ?] [b ?]; unfold dupreq_tcp_cmpf, node_id, key_id, node_hash; simpl.
  - destruct (_ <? _); [auto|]. destruct (_ =? _); [apply uint64_cmpf_range|auto].
  - destruct (Z.ltb_spec (rq_xid a) (rq_xid b)).
    + split; [done|]. intros [= E _]. lia.
    + destruct (Z.eqb_spec (rq_xid a) (rq_xid b)) as [E|E].
      * rewrite uint64_cmpf_zero, E. split; [by intros ->|by intros [= ->]].
      * split; [done|]. by intros [= ? _].
  - unfold uint64_cmpf. compare_cases.
  - intros [c ?]. simpl. unfold uint64_cmpf. compare_cases.
  - by intros [= _ ->].
Qed.

(** ** Counting requests *)

(** The entry a request has in its [rq_u1]. *)
Definition own (pc : req_pc) : option positive :=
  match pc with
  | Idle | Start | Put_drc | Dropped => None
  | Start_window dv | Start_enqueue dv | Queued dv | Execute dv | Send dv _ | Finish dv _ | Finish_drc dv
  | Retire dv _ _ | Retire_remove dv _ _ | Retire_put dv _ _ | Retire_again dv _ | Delete dv _
  | Delete_drc dv | Delete_remove dv | Delete_put dv | Replay dv | Resume dv | Resend dv | Rele dv
  | Put dv => Some dv
  end.

(** The entry whose reference for the tree a request is about to release. *)
Definition puts (pc : req_pc) : option positive :=
  match pc with Delete_put dv => Some dv | Retire_put _ ov _ => Some ov | _ => None end.

(** The entry that a request has in the tree but not in the queue. *)
Definition unlinked (pc : req_pc) : option positive :=
  match pc with
  | Start_enqueue dv | Delete_remove dv => Some dv
  | Retire_remove _ ov _ => Some ov
  | _ => None
  end.

Definition queued (pc : req_pc) : option positive := match pc with Queued dv => Some dv | _ => None end.
Definition resumed (pc : req_pc) : option positive := match pc with Resume dv => Some dv | _ => None end.

(** The entry that a request executes or is about to complete or delete. *)
Definition active (pc : req_pc) : option positive :=
  match pc with
  | Start_enqueue dv | Execute dv | Send dv _ | Finish dv _ | Delete dv _ | Delete_drc dv
  | Delete_remove dv | Delete_put dv | Resend dv => Some dv
  | _ => None
  end.

(** The entry that a request may hand on to a queued duplicate. *)
Definition baton (pc : req_pc) : option positive :=
  match pc with Resume dv | Rele dv => Some dv | pc => active pc end.

(** The number of requests at a point where [f] gives [dv]. *)
Definition nreq (f : req_pc -> option positive) (dv : positive) (w : world) : Z :=
  count_threads (fun q => bool_decide (f (rq_pc q) = Some dv)) (w_reqs w).

Lemma nreq_nonneg f dv w : 0 <= nreq f dv w.
Proof. apply count_threads_nonneg. Qed.

Lemma nreq_insert f dv r q w w' :
  f Idle = None -> w_reqs w' = <[r := q]> (w_reqs w) ->
  nreq f dv w' = nreq f dv w - Z.b2z (bool_decide (f (pc_of r w) = Some dv)) +
                 Z.b2z (bool_decide (f (rq_pc q) = Some dv)).
Proof.
  intros Hi Hw. unfold nreq. rewrite Hw.
  apply (count_threads_insert no_request). simpl. by rewrite Hi.
Qed.

Lemma nreq_pos f dv r w : f Idle = None -> f (pc_of r w) = Some dv -> 0 < nreq f dv w.
Proof.
  intros Hi Hr. apply (count_threads_pos no_request _ r); [simpl; by rewrite Hi|].
  by apply bool_decide_eq_true.
Qed.

Lemma nreq_bound f dv w (ts : gset positive) : dom (w_reqs w) ⊆ ts -> nreq f dv w <= Z.of_nat (size ts).
Proof. apply count_threads_bound. Qed.

(** Two requests at such a point count twice. *)
Lemma nreq_two f dv r r' w :
  f Idle = None -> r <> r' -> f (pc_of r w) = Some dv -> f (pc_of r' w) = Some dv -> 2 <= nreq f dv w.
Proof.
  intros Hi Hne Hr Hr'. pose proof (nreq_insert f dv r no_request w (set_request r no_request w) Hi eq_refl) as H.
  assert (0 < nreq f dv (set_request r no_request w)).
  { apply (nreq_pos f dv r'); [done|]. unfold pc_of, req_of in *. simpl. by rewrite lookup_insert_ne. }
  rewrite Hr in H. simpl in H. rewrite Hi, bool_decide_true, bool_decide_false in H by done. simpl in H. lia.
Qed.

(** [f] asks for less than [g]. *)
Lemma nreq_le f g dv w : (forall pc, f pc = Some dv -> g pc = Some dv) -> nreq f dv w <= nreq g dv w.
Proof.
  intros Hfg. unfold nreq, count_threads. apply inj_le, map_subseteq_size, map_filter_subseteq_ext.
  intros i x _ Hx. simpl in *. rewrite !bool_decide_eq_true in *. auto.
Qed.

Lemma req_of_insert r q w w' r' :
  w_reqs w' = <[r := q]> (w_reqs w) -> req_of r' w' = if decide (r = r') then q else req_of r' w.
Proof. unfold req_of. intros ->. rewrite lookup_insert. by case_decide. Qed.

Lemma pc_of_insert r q w w' r' :
  w_reqs w' = <[r := q]> (w_reqs w) -> pc_of r' w' = if decide (r = r') then rq_pc q else pc_of r' w.
Proof. unfold pc_of. intros E. rewrite (req_of_insert _ _ _ _ _ E). by case_decide. Qed.

(** ** References *)

(** The entry is the node of the tree that the map holds under its key. *)
Definition in_tree (es : gmap positive dupreq_entry) (m : gmap (Z * Z) dupreq_node) (dv : positive) : bool :=
  match es !! dv with
  | Some e => bool_decide (m !! key_id (dv_hin e) = Some (node_of dv e))
  | None => false
  end.

Definition refcount (es : gmap positive dupreq_entry) (dv : positive) : Z :=
  match es !! dv with Some e => dv_refcnt e | None => 0 end.

(** The tree holds the nodes of [m], all of allocated entries.  The count of an entry
    is the number of requests that have it, one for the tree, and one for each
    request that took it from the tree and has not released it.  An entry of the
    tree is in the queue or with one request.  The requests in [dv->dupes] are those
    that wait. *)
Record refs_inv (ts : gset positive) (w : world) (m : gmap (Z * Z) dupreq_node) : Prop := {
  ri_dom : dom (w_reqs w) ⊆ ts;
  ri_rep : xt_rep dupreq_tcp_cmpf node_id node_hash (drc_xt (w_drc w)) m;
  ri_node k n : m !! k = Some n -> exists e, w_entries w !! nd_id n = Some e /\ node_of (nd_id n) e = n;
  ri_refs dv : nreq own dv w + nreq puts dv w + Z.b2z (in_tree (w_entries w) m dv) = refcount (w_entries w) dv;
  ri_pos dv e : w_entries w !! dv = Some e -> 1 <= dv_refcnt e;
  ri_links dv : Z.b2z (bool_decide (dv ∈ drc_dupreq_q (w_drc w))) + nreq unlinked dv w =
                Z.b2z (in_tree (w_entries w) m dv);
  ri_queue : NoDup (drc_dupreq_q (w_drc w));
  ri_size : drc_size (w_drc w) = u32 (Z.of_nat (length (drc_dupreq_q (w_drc w))));
  ri_queued r dv : pc_of r w = Queued dv <-> exists e, w_entries w !! dv = Some e /\ r ∈ dv_dupes e;
  ri_dupes dv e : w_entries w !! dv = Some e -> NoDup (dv_dupes e);
  ri_next dv e : w_entries w !! dv = Some e -> (dv < w_next w)%positive;
  ri_key r dv e : own (pc_of r w) = Some dv -> w_entries w !! dv = Some e ->
    key_id (rq_key (req_of r w)) = key_id (dv_hin e)
}.

Section refs.
Context (ts : gset positive).

(** What a request has or is about to release is allocated. *)
Lemma refs_used w m f r dv :
  refs_inv ts w m -> f Idle = None -> (forall pc, f pc = Some dv -> own pc = Some dv \/ puts pc = Some dv) ->
  f (pc_of r w) = Some dv -> exists e, w_entries w !! dv = Some e.
Proof.
  intros Hi Hf Hop Hr. pose proof (ri_refs _ _ _ Hi dv) as Hc. unfold refcount in Hc.
  destruct (w_entries w !! dv) as [e|]; [by exists e|].
  pose proof (nreq_nonneg own dv w). pose proof (nreq_nonneg puts dv w).
  assert (0 <= Z.b2z (in_tree (w_entries w) m dv)) by (destruct (in_tree _ _ _); simpl; lia).
  destruct (Hop _ Hr) as [H'|H'].
  - pose proof (nreq_pos own dv r w eq_refl H'). lia.
  - pose proof (nreq_pos puts dv r w eq_refl H'). lia.
Qed.

Lemma refs_owned w m r dv :
  refs_inv ts w m -> own (pc_of r w) = Some dv -> exists e, w_entries w !! dv = Some e.
Proof. intros Hi. apply (refs_used w m own r); [done|done|auto]. Qed.

Lemma in_tree_entry es m dv : in_tree es m dv = true -> exists e, es !! dv = Some e.
Proof. unfold in_tree. destruct (es !! dv) as [e|]; [by exists e|done]. Qed.

(** Entries of the queue are in the tree, and allocated. *)
Lemma refs_linked w m dv :
  refs_inv ts w m -> dv ∈ drc_dupreq_q (w_drc w) -> in_tree (w_entries w) m dv = true.
Proof.
  intros Hi Hq. pose proof (ri_links _ _ _ Hi dv) as Hl. rewrite bool_decide_true in Hl by done.
  pose proof (nreq_nonneg unlinked dv w). destruct (in_tree _ _ _); [done|]. simpl in Hl. lia.
Qed.

Lemma refs_unlinked w m r dv :
  refs_inv ts w m -> unlinked (pc_of r w) = Some dv ->
  in_tree (w_entries w) m dv = true /\ dv ∉ drc_dupreq_q (w_drc w).
Proof.
  intros Hi Hr. pose proof (ri_links _ _ _ Hi dv) as Hl.
  pose proof (nreq_pos unlinked dv r w eq_refl Hr).
  case_bool_decide; destruct (in_tree _ _ _); simpl in Hl; try lia; done.
Qed.

Lemma refs_bound w m dv e :
  2 * Z.of_nat (size ts) + 2 < 2 ^ 31 -> refs_inv ts w m -> w_entries w !! dv = Some e -> 1 <= dv_refcnt e < 2 ^ 31 - 1.
Proof.
  intros Hts Hi He. split; [by eapply ri_pos|]. pose proof (ri_refs _ _ _ Hi dv) as Hc.
  unfold refcount in Hc. rewrite He in Hc.
  pose proof (nreq_bound own dv w ts (ri_dom _ _ _ Hi)). pose proof (nreq_bound puts dv w ts (ri_dom _ _ _ Hi)).
  assert (Z.b2z (in_tree (w_entries w) m dv) <= 1) by (destruct (in_tree _ _ _); simpl; lia). lia.
Qed.

(** The members that count. *)
Definition refs_view (e : dupreq_entry) : dupreq_key * Z * list positive := (dv_hin e, dv_refcnt e, dv_dupes e).

(** Two tables of entries agree on them. *)
Definition same_view (es es' : gmap positive dupreq_entry) : Prop :=
  forall dv, refs_view <$> es' !! dv = refs_view <$> es !! dv.

Lemma same_view_refl es : same_view es es.
Proof. done. Qed.

Lemma same_view_insert es dv e e' :
  es !! dv = Some e -> refs_view e' = refs_view e -> same_view es (<[dv := e']> es).
Proof. intros He Hv x. rewrite lookup_insert. case_decide; [subst|done]. by rewrite He; simpl; f_equal. Qed.

Lemma same_view_lookup es es' dv e :
  same_view es es' -> es' !! dv = Some e -> exists e0, es !! dv = Some e0 /\ refs_view e = refs_view e0.
Proof. intros Hs He. specialize (Hs dv). rewrite He in Hs. destruct (es !! dv) as [e0|]; [|done]. apply (inj Some) in Hs. eauto. Qed.

Lemma same_view_lookup_back es es' dv e :
  same_view es es' -> es !! dv = Some e -> exists e', es' !! dv = Some e' /\ refs_view e' = refs_view e.
Proof. intros Hs He. specialize (Hs dv). rewrite He in Hs. destruct (es' !! dv) as [e0|]; [|done]. apply (inj Some) in Hs. eauto. Qed.

Lemma same_view_counts es es' m dv :
  same_view es es' -> in_tree es' m dv = in_tree es m dv /\ refcount es' dv = refcount es dv.
Proof.
  intros Hs. specialize (Hs dv). unfold in_tree, refcount.
  destruct (es' !! dv) as [e'|], (es !! dv) as [e|]; try done.
  apply (inj Some) in Hs. injection Hs as Hh Hc _. unfold node_of. by rewrite Hh, Hc.
Qed.

(** A request moves and nothing that is counted changes. *)
Lemma refs_move w m w' r q :
  refs_inv ts w m -> r ∈ ts ->
  drc_xt (w_drc w') = drc_xt (w_drc w) -> drc_dupreq_q (w_drc w') = drc_dupreq_q (w_drc w) ->
  drc_size (w_drc w') = drc_size (w_drc w) -> w_next w' = w_next w ->
  same_view (w_entries w) (w_entries w') -> w_reqs w' = <[r := q]> (w_reqs w) ->
  own (rq_pc q) = own (pc_of r w) -> puts (rq_pc q) = puts (pc_of r w) ->
  unlinked (rq_pc q) = unlinked (pc_of r w) -> queued (rq_pc q) = None -> queued (pc_of r w) = None ->
  (rq_key q = rq_key (req_of r w) \/ own (rq_pc q) = None) -> refs_inv ts w' m.
Proof.
  intros [] Hr Hxt Hq Hsz Hn Hv Hw Ho Hp Hu Hqd Hqd0 Hk.
  assert (forall f dv, f Idle = None -> f (rq_pc q) = f (pc_of r w) -> nreq f dv w' = nreq f dv w) as Hcnt.
  { intros f dv Hf E. rewrite (nreq_insert f dv r q w w' Hf Hw), E. lia. }
  assert (forall r', pc_of r' w' = if decide (r = r') then rq_pc q else pc_of r' w) as Hpc
    by (intros; by apply pc_of_insert).
  constructor; rewrite ?Hxt, ?Hq, ?Hsz, ?Hn; try done.
  - rewrite Hw, dom_insert. set_solver.
  - intros k n Hm. destruct (ri_node0 k n Hm) as (e & He & <-).
    destruct (same_view_lookup_back _ _ _ _ Hv He) as (e' & He' & E). exists e'. split; [done|].
    injection E as E _ _. unfold node_of. by rewrite E.
  - intros dv. destruct (same_view_counts _ _ m dv Hv) as [-> ->]. by rewrite !Hcnt.
  - intros dv e He. destruct (same_view_lookup _ _ _ _ Hv He) as (e0 & He0 & [= _ -> _]). eauto.
  - intros dv. destruct (same_view_counts _ _ m dv Hv) as [-> _]. by rewrite Hcnt.
  - intros r' dv. rewrite Hpc. case_decide as E.
    + subst r'. split; [intros E; rewrite E in Hqd; done|]. intros (e & He & Hin).
      destruct (same_view_lookup _ _ _ _ Hv He) as (e0 & He0 & [= _ _ E]). rewrite E in Hin.
      assert (pc_of r w = Queued dv) as Hc by (apply ri_queued0; eauto). by rewrite Hc in Hqd0.
    + rewrite ri_queued0. split; intros (e & He & Hin).
      * destruct (same_view_lookup_back _ _ _ _ Hv He) as (e' & He' & [= _ _ E']). exists e'. by rewrite E'.
      * destruct (same_view_lookup _ _ _ _ Hv He) as (e' & He' & [= _ _ E']). exists e'. by rewrite <- E'.
  - intros dv e He. destruct (same_view_lookup _ _ _ _ Hv He) as (e0 & He0 & [= _ _ ->]). eauto.
  - intros dv e He. destruct (same_view_lookup _ _ _ _ Hv He) as (e0 & He0 & _). eauto.
  - intros r' dv e. rewrite Hpc, (req_of_insert _ _ _ _ _ Hw). intros Hown He.
    destruct (same_view_lookup _ _ _ _ Hv He) as (e0 & He0 & [= -> _ _]).
    case_decide; [|eauto]. subst r'. destruct Hk as [->|Hk]; [|congruence]. apply (ri_key0 r dv e0); [congruence|done].
Qed.

(** A request leaves point [pc] for the point of [q]. *)
Definition moves (w w' : world) (r : positive) (pc : req_pc) (q : nfs_request_t) : Prop :=
  pc_of r w = pc /\ w_reqs w' = <[r := q]> (w_reqs w).

Lemma moves_count w w' r pc q f dv :
  moves w w' r pc q -> f Idle = None ->
  nreq f dv w' = nreq f dv w - Z.b2z (bool_decide (f pc = Some dv)) + Z.b2z (bool_decide (f (rq_pc q) = Some dv)).
Proof. intros [<- Hw] Hf. by apply nreq_insert. Qed.

Lemma moves_pc w w' r pc q r' :
  moves w w' r pc q -> pc_of r' w' = if decide (r = r') then rq_pc q else pc_of r' w.
Proof. intros [_ Hw]. by apply pc_of_insert. Qed.

Lemma moves_dom w w' r pc q m : moves w w' r pc q -> refs_inv ts w m -> r ∈ ts -> dom (w_reqs w') ⊆ ts.
Proof. intros [_ ->] Hi Hr. pose proof (ri_dom _ _ _ Hi). rewrite dom_insert. set_solver. Qed.

(** A change of the links in the tree and the queue by a request that owns the same
    entry before and after. *)
Lemma refs_relink w m w' m' r pc q :
  refs_inv ts w m -> r ∈ ts -> moves w w' r pc q -> w_entries w' = w_entries w -> w_next w' = w_next w ->
  rq_key q = rq_key (req_of r w) -> own (rq_pc q) = own pc -> queued (rq_pc q) = None -> queued pc = None ->
  xt_rep dupreq_tcp_cmpf node_id node_hash (drc_xt (w_drc w')) m' ->
  (forall k n, m' !! k = Some n -> m !! k = Some n) ->
  (forall dv, nreq puts dv w' + Z.b2z (in_tree (w_entries w) m' dv) =
              nreq puts dv w + Z.b2z (in_tree (w_entries w) m dv)) ->
  (forall dv, Z.b2z (bool_decide (dv ∈ drc_dupreq_q (w_drc w'))) + nreq unlinked dv w' =
              Z.b2z (in_tree (w_entries w) m' dv)) ->
  NoDup (drc_dupreq_q (w_drc w')) ->
  drc_size (w_drc w') = u32 (Z.of_nat (length (drc_dupreq_q (w_drc w')))) -> refs_inv ts w' m'.
Proof.
  intros Hi Hr Hmv He Hn Hk Ho Hq Hq0 Hx Hm Hp Hl Hnd Hs.
  pose proof (moves_dom _ _ _ _ _ _ Hmv Hi Hr) as Hdom. destruct Hi.
  constructor; rewrite ?He, ?Hn; try done.
  - eauto.
  - intros dv. rewrite (moves_count _ _ _ _ _ own dv Hmv eq_refl), Ho.
    specialize (Hp dv). specialize (ri_refs0 dv). lia.
  - intros r' dv. rewrite (moves_pc _ _ _ _ _ r' Hmv), <- ri_queued0. case_decide; [|done]. subst r'.
    destruct Hmv as [-> _]. split; intros E; rewrite E in *; done.
  - intros r' dv e. rewrite (moves_pc _ _ _ _ _ r' Hmv). destruct Hmv as [<- Hw].
    rewrite (req_of_insert _ _ _ _ _ Hw). case_decide; [subst r'; rewrite Ho, Hk|]; eauto.
Qed.

(** A new entry enters the queue. *)
Lemma refs_enqueue w m w' r dv q :
  refs_inv ts w m -> r ∈ ts -> moves w w' r (Start_enqueue dv) q ->
  rq_key q = rq_key (req_of r w) -> rq_pc q = Execute dv ->
  w_entries w' = w_entries w -> w_next w' = w_next w -> drc_xt (w_drc w') = drc_xt (w_drc w) ->
  drc_dupreq_q (w_drc w') = drc_dupreq_q (w_drc w) ++ [dv] ->
  drc_size (w_drc w') = u32 (drc_size (w_drc w) + 1) -> refs_inv ts w' m.
Proof.
  intros Hi Hr Hmv Hk Hpc He Hn Hx Hq Hs. destruct (refs_unlinked w m r dv Hi) as [Hin Hnq].
  { by destruct Hmv as [-> _]. }
  eapply (refs_relink w m w' m r _ q); eauto; rewrite ?Hpc, ?Hx, ?Hq; try done.
  - by destruct Hi.
  - intros x. rewrite (moves_count _ _ _ _ _ puts x Hmv eq_refl), Hpc. simpl. lia.
  - intros x. rewrite (moves_count _ _ _ _ _ unlinked x Hmv eq_refl), Hpc. simpl.
    pose proof (ri_links _ _ _ Hi x) as Hl. destruct (decide (x = dv)) as [->|Hne].
    + rewrite !bool_decide_true by set_solver. rewrite bool_decide_false in Hl by done. simpl in *. lia.
    + rewrite (bool_decide_ext (x ∈ _ ++ [dv]) (x ∈ drc_dupreq_q (w_drc w))) by set_solver.
      rewrite (bool_decide_false (Some dv = Some x)) by congruence. simpl. lia.
  - apply NoDup_app. split_and!; [apply Hi|set_solver|apply NoDup_singleton].
  - rewrite Hs, (ri_size _ _ _ Hi), length_app. simpl. unfold u32, wrapu. rewrite Zplus_mod_idemp_l. f_equal. lia.
Qed.

Lemma length_remove_id (x : positive) l : NoDup l -> x ∈ l -> length l = S (length (remove_id x l)).
Proof.
  intros Hnd [l1 [l2 ->]]%list_elem_of_split. rewrite remove_id_split by done. rewrite !length_app. simpl. lia.
Qed.

(** A request takes an entry from the queue. *)
Lemma refs_dequeue w m w' r pc ov q :
  refs_inv ts w m -> r ∈ ts -> moves w w' r pc q -> ov ∈ drc_dupreq_q (w_drc w) ->
  rq_key q = rq_key (req_of r w) -> own (rq_pc q) = own pc -> puts (rq_pc q) = puts pc ->
  queued (rq_pc q) = None -> queued pc = None -> unlinked pc = None -> unlinked (rq_pc q) = Some ov ->
  w_entries w' = w_entries w -> w_next w' = w_next w -> drc_xt (w_drc w') = drc_xt (w_drc w) ->
  drc_dupreq_q (w_drc w') = remove_id ov (drc_dupreq_q (w_drc w)) ->
  drc_size (w_drc w') = u32 (drc_size (w_drc w) - 1) -> refs_inv ts w' m.
Proof.
  intros Hi Hr Hmv Hin Hk Ho Hp Hqd Hqd0 Hu Hu' He Hn Hx Hq Hs.
  eapply (refs_relink w m w' m r _ q); eauto; rewrite ?Hx, ?Hq; try done.
  - by destruct Hi.
  - intros x. rewrite (moves_count _ _ _ _ _ puts x Hmv eq_refl), Hp. lia.
  - intros x. rewrite (moves_count _ _ _ _ _ unlinked x Hmv eq_refl), Hu, Hu'.
    pose proof (ri_links _ _ _ Hi x) as Hl. rewrite (bool_decide_false (None = Some x)) by done.
    destruct (decide (x = ov)) as [->|Hne].
    + rewrite (bool_decide_false (ov ∈ _)) by (rewrite elem_of_remove_id; naive_solver).
      rewrite bool_decide_true in Hl by done. rewrite bool_decide_true by done. simpl in *. lia.
    + rewrite (bool_decide_ext (x ∈ remove_id _ _) (x ∈ drc_dupreq_q (w_drc w))).
      2:{ rewrite elem_of_remove_id. naive_solver. }
      rewrite (bool_decide_false (Some ov = Some x)) by congruence. simpl. lia.
  - apply NoDup_remove_id, Hi.
  - rewrite Hs, (ri_size _ _ _ Hi). rewrite (length_remove_id ov _ (ri_queue _ _ _ Hi) Hin).
    unfold u32, wrapu. rewrite Zminus_mod_idemp_l. f_equal. lia.
Qed.

(** A request takes an entry, which it has taken from the queue, from the tree. *)
Lemma refs_removed w m w' r pc ov e q :
  refs_inv ts w m -> r ∈ ts -> moves w w' r pc q -> w_entries w !! ov = Some e ->
  rq_key q = rq_key (req_of r w) -> own (rq_pc q) = own pc ->
  queued (rq_pc q) = None -> queued pc = None -> unlinked pc = Some ov -> unlinked (rq_pc q) = None ->
  puts pc = None -> puts (rq_pc q) = Some ov ->
  w_entries w' = w_entries w -> w_next w' = w_next w ->
  rbtree_x_cached_remove dupreq_tcp_cmpf (drc_xt (w_drc w)) (node_of ov e) (dk_hk (dv_hin e)) = Some (drc_xt (w_drc w')) ->
  drc_dupreq_q (w_drc w') = drc_dupreq_q (w_drc w) -> drc_size (w_drc w') = drc_size (w_drc w) ->
  refs_inv ts w' (delete (key_id (dv_hin e)) m).
Proof.
  intros Hi Hr Hmv Hov Hk Ho Hqd Hqd0 Hu Hu' Hp Hp' He Hn Hx Hq Hs.
  destruct (refs_unlinked w m r ov Hi) as [Hin Hnq]. { by destruct Hmv as [-> _]. }
  assert (m !! key_id (dv_hin e) = Some (node_of ov e)) as Hmo
    by (unfold in_tree in Hin; rewrite Hov in Hin; by apply bool_decide_eq_true in Hin).
  assert (forall x, in_tree (w_entries w) (delete (key_id (dv_hin e)) m) x =
            if decide (x = ov) then false else in_tree (w_entries w) m x) as Hit.
  { intros x. unfold in_tree. case_decide as E; [subst x; rewrite Hov; apply bool_decide_false; by rewrite lookup_delete_eq|].
    destruct (w_entries w !! x) as [ex|] eqn:Hex; [|done]. apply bool_decide_ext.
    rewrite lookup_delete_Some. split; [tauto|]. intros Hmx. split; [|done]. intros Ek.
    rewrite <- Ek, Hmo in Hmx. apply E. by simplify_eq/=. }
  eapply (refs_relink w m w' _ r _ q); eauto; rewrite ?Hq, ?Hs; try apply Hi.
  - destruct (rep_remove dupreq_tcp_cmpf node_id node_hash _ m (node_of ov e) (ri_rep _ _ _ Hi) Hmo) as (xt' & Hx' & Hrep).
    change (node_hash (node_of ov e)) with (dk_hk (dv_hin e)) in Hx'. rewrite Hx in Hx'. by injection Hx' as ->.
  - intros k n [_ ?]%lookup_delete_Some. done.
  - intros x. rewrite (moves_count _ _ _ _ _ puts x Hmv eq_refl), Hp, Hp', Hit.
    rewrite (bool_decide_false (None = _)) by done. destruct (decide (x = ov)) as [->|E].
    + rewrite Hin, bool_decide_true by done. simpl. lia.
    + rewrite bool_decide_false by congruence. simpl. lia.
  - intros x. rewrite (moves_count _ _ _ _ _ unlinked x Hmv eq_refl), Hu, Hu', Hit.
    rewrite (bool_decide_false (None = _)) by done. pose proof (ri_links _ _ _ Hi x) as Hl. destruct (decide (x = ov)) as [->|E].
    + rewrite Hin in Hl. rewrite (bool_decide_true (Some _ = _)) by done. simpl in *. lia.
    + rewrite (bool_decide_false (Some _ = _)) by congruence. simpl. lia.
Qed.

(** The entries after [dupreq_entry_put]. *)
Definition entries_put (es : gmap positive dupreq_entry) (dv : positive) (e : dupreq_entry) :
    gmap positive dupreq_entry :=
  if dv_refcnt e =? 1 then delete dv es else <[dv := set_refcnt (dv_refcnt e - 1) e]> es.

Lemma entries_put_lookup es dv e x ex :
  es !! dv = Some e -> entries_put es dv e !! x = Some ex ->
  exists ex0, es !! x = Some ex0 /\ dv_hin ex = dv_hin ex0 /\ dv_dupes ex = dv_dupes ex0 /\
    dv_refcnt ex = dv_refcnt ex0 - Z.b2z (bool_decide (x = dv)) /\ (x = dv -> dv_refcnt ex0 <> 1).
Proof.
  intros He. unfold entries_put. destruct (Z.eqb_spec (dv_refcnt e) 1).
  - rewrite lookup_delete_Some. intros [Hne Hx]. exists ex. rewrite bool_decide_false by done.
    simpl. split_and!; [done..|lia|]. naive_solver.
  - rewrite lookup_insert_Some. intros [[-> <-]|[Hne Hx]].
    + exists e. rewrite bool_decide_true by done. by split_and!.
    + exists ex. rewrite bool_decide_false by done. simpl. split_and!; [done..|lia|]. naive_solver.
Qed.

Lemma entries_put_other es dv e x : x <> dv -> entries_put es dv e !! x = es !! x.
Proof. intros. unfold entries_put. case_match; [by rewrite lookup_delete_ne|by rewrite lookup_insert_ne]. Qed.

Lemma in_tree_put es m dv e x :
  es !! dv = Some e -> (dv_refcnt e = 1 -> in_tree es m dv = false) ->
  in_tree (entries_put es dv e) m x = in_tree es m x.
Proof.
  intros He H1. destruct (decide (x = dv)) as [->|Hne]; [|unfold in_tree; by rewrite entries_put_other].
  unfold entries_put. destruct (Z.eqb_spec (dv_refcnt e) 1) as [E|E].
  - rewrite H1 by done. unfold in_tree. by rewrite lookup_delete_eq.
  - unfold in_tree. by rewrite lookup_insert_eq, He.
Qed.

(** Before a request releases a reference to [dv]: the last reference is not that of
    the tree, and no request waits in an entry with one reference. *)
Lemma refs_last w m w' r pc dv e q :
  refs_inv ts w m -> moves w w' r pc q -> w_entries w !! dv = Some e ->
  nreq own dv w' + nreq puts dv w' = nreq own dv w + nreq puts dv w - 1 -> queued pc = None ->
  (dv_refcnt e = 1 -> in_tree (w_entries w) m dv = false) /\
  (forall r', pc_of r' w = Queued dv -> dv_refcnt e <> 1).
Proof.
  intros Hi Hmv He Hc Hqd0. pose proof (ri_refs _ _ _ Hi dv) as Hrc. unfold refcount in Hrc. rewrite He in Hrc.
  pose proof (nreq_nonneg own dv w'). pose proof (nreq_nonneg puts dv w').
  assert (dv_refcnt e = 1 -> in_tree (w_entries w) m dv = false) as Hfree
    by (intros E; destruct (in_tree _ _ _); [simpl in Hrc; lia|done]).
  split; [done|]. intros r' Hq E. assert (0 < nreq own dv w').
  { apply (nreq_pos own dv r' w' eq_refl). rewrite (moves_pc _ _ _ _ _ r' Hmv).
    case_decide as Er; [|by rewrite Hq]. subst r'. destruct Hmv as [Hmv _]. rewrite Hmv in Hq. rewrite Hq in Hqd0. discriminate Hqd0. }
  pose proof (Hfree E) as Hf. rewrite Hf in Hrc. simpl in Hrc. lia.
Qed.

(** A request releases a reference to [dv]. *)
Lemma refs_put w m w' r pc dv e q :
  refs_inv ts w m -> r ∈ ts -> moves w w' r pc q -> w_entries w !! dv = Some e ->
  rq_key q = rq_key (req_of r w) ->
  (forall x, nreq own x w' + nreq puts x w' =
             nreq own x w + nreq puts x w - Z.b2z (bool_decide (x = dv))) ->
  (forall x, own (rq_pc q) = Some x -> own pc = Some x) ->
  queued (rq_pc q) = None -> queued pc = None -> unlinked pc = None -> unlinked (rq_pc q) = None ->
  w_drc w' = w_drc w -> w_next w' = w_next w -> w_entries w' = entries_put (w_entries w) dv e ->
  refs_inv ts w' m.
Proof.
  intros Hi Hr Hmv He Hk Hc Ho Hqd Hqd0 Hu Hu' Hd Hn He'.
  pose proof (moves_dom _ _ _ _ _ _ Hmv Hi Hr) as Hdom.
  destruct (refs_last w m w' r pc dv e q Hi Hmv He) as [Hfree Hwait]; [|done|].
  { specialize (Hc dv). rewrite bool_decide_true in Hc by done. done. }
  assert (forall x, in_tree (w_entries w') m x = in_tree (w_entries w) m x) as Hit
    by (intros; rewrite He'; by apply in_tree_put).
  destruct Hi. constructor; rewrite ?Hd, ?Hn; try done.
  - intros k n Hkn. destruct (ri_node0 k n Hkn) as (x & Hx & Hnx).
    assert (in_tree (w_entries w) m (nd_id n) = true) as Hin.
    { unfold in_tree. rewrite Hx. apply bool_decide_true. rewrite Hnx.
      assert (key_id (dv_hin x) = k) as ->; [|done].
      apply (xr_map _ _ _ _ _ ri_rep0) in Hkn as [_ <-]. by rewrite <- Hnx. }
    rewrite <- Hit in Hin. destruct (in_tree_entry _ _ _ Hin) as [y Hy]. exists y. split; [done|].
    rewrite He' in Hy. destruct (entries_put_lookup _ _ _ _ _ He Hy) as (y0 & Hy0 & Hh & _).
    simplify_eq. rewrite <- Hnx. unfold node_of at 1 2. by rewrite Hh.
  - intros x. specialize (Hc x). specialize (ri_refs0 x). rewrite Hit, He'. unfold refcount in *.
    destruct (decide (x = dv)) as [->|Hne].
    + rewrite bool_decide_true in Hc by done. rewrite He in *. simpl in Hc. unfold entries_put.
      destruct (Z.eqb_spec (dv_refcnt e) 1); [rewrite lookup_delete_eq|rewrite lookup_insert_eq; simpl]; lia.
    + rewrite bool_decide_false in Hc by done. rewrite entries_put_other by done. simpl in Hc. lia.
  - intros x ex. rewrite He'. intros Hx. destruct (entries_put_lookup _ _ _ _ _ He Hx) as (x0 & Hx0 & _ & _ & -> & Hne).
    pose proof (ri_pos0 x x0 Hx0). case_bool_decide; simpl; [specialize (Hne H0)|]; lia.
  - intros x. rewrite Hit, (moves_count _ _ _ _ _ unlinked x Hmv eq_refl), Hu, Hu'.
    specialize (ri_links0 x). lia.
  - intros r' x. rewrite (moves_pc _ _ _ _ _ r' Hmv), He'. case_decide as Er.
    + subst r'. split; [intros E; by rewrite E in Hqd|]. intros (ex & Hex & Hin).
      destruct (entries_put_lookup _ _ _ _ _ He Hex) as (x0 & Hx0 & _ & Hdp & _). rewrite Hdp in Hin.
      assert (pc_of r w = Queued x) as E by (apply ri_queued0; eauto). destruct Hmv as [Hmv _].
      rewrite Hmv in E. by rewrite E in Hqd0.
    + split.
      * intros Hq. destruct (proj1 (ri_queued0 r' x) Hq) as (ex & Hex & Hin).
        destruct (decide (x = dv)) as [->|Hne]; [|exists ex; by rewrite entries_put_other].
        simplify_eq. exists (set_refcnt (dv_refcnt e - 1) e). unfold entries_put.
        destruct (Z.eqb_spec (dv_refcnt e) 1); [by destruct (Hwait r' Hq)|]. by rewrite lookup_insert_eq.
      * intros (ex & Hex & Hin). destruct (entries_put_lookup _ _ _ _ _ He Hex) as (x0 & Hx0 & _ & Hdp & _).
        apply ri_queued0. exists x0. by rewrite <- Hdp.
  - intros x ex. rewrite He'. intros Hx.
    destruct (entries_put_lookup _ _ _ _ _ He Hx) as (x0 & Hx0 & _ & -> & _). eauto.
  - intros x ex. rewrite He'. intros Hx. destruct (entries_put_lookup _ _ _ _ _ He Hx) as (x0 & Hx0 & _). eauto.
  - intros r' x ex. rewrite He', (moves_pc _ _ _ _ _ r' Hmv). intros Hown Hx.
    destruct (entries_put_lookup _ _ _ _ _ He Hx) as (x0 & Hx0 & -> & _). destruct Hmv as [Hpc Hw].
    rewrite (req_of_insert _ _ _ _ _ Hw). case_decide; [|eauto]. subst r'. rewrite Hk.
    apply (ri_key0 r x x0); [rewrite Hpc; auto|done].
Qed.

(** A request finds an entry of the tree and takes a reference; it waits in the entry
    or goes on. *)
Lemma refs_gain w m w' r dv e e' q :
  refs_inv ts w m -> r ∈ ts -> moves w w' r Start q -> w_entries w !! dv = Some e ->
  rq_key q = rq_key (req_of r w) -> key_id (rq_key q) = key_id (dv_hin e) ->
  own (rq_pc q) = Some dv -> puts (rq_pc q) = None -> unlinked (rq_pc q) = None ->
  (rq_pc q = Queued dv /\ dv_dupes e' = dv_dupes e ++ [r] \/ queued (rq_pc q) = None /\ dv_dupes e' = dv_dupes e) ->
  dv_hin e' = dv_hin e -> dv_refcnt e' = dv_refcnt e + 1 ->
  drc_xt (w_drc w') = drc_xt (w_drc w) -> drc_dupreq_q (w_drc w') = drc_dupreq_q (w_drc w) ->
  drc_size (w_drc w') = drc_size (w_drc w) -> w_next w' = w_next w ->
  w_entries w' = <[dv := e']> (w_entries w) -> refs_inv ts w' m.
Proof.
  intros Hi Hr Hmv He Hk Hke Ho Hp Hu Hd Hh Hc Hx Hq Hs Hn He'.
  pose proof (moves_dom _ _ _ _ _ _ Hmv Hi Hr) as Hdom.
  assert (forall x, in_tree (w_entries w') m x = in_tree (w_entries w) m x) as Hit.
  { intros x. unfold in_tree. rewrite He', lookup_insert. case_decide; [|done]. subst x. rewrite He.
    unfold node_of. by rewrite Hh. }
  destruct Hi. assert (r ∉ dv_dupes e) as Hnr.
  { intros Hin. assert (pc_of r w = Queued dv) as E by (apply ri_queued0; eauto). destruct Hmv as [Hmv _]. congruence. }
  constructor; rewrite ?Hx, ?Hq, ?Hs, ?Hn; try done.
  - intros k n Hkn. destruct (ri_node0 k n Hkn) as (x & Hx' & Hnx). rewrite He', lookup_insert.
    case_decide; [|eauto]. subst dv. simplify_eq. exists e'. split; [done|]. rewrite <- Hnx. simpl.
    unfold node_of. by rewrite Hh.
  - intros x. rewrite Hit, (moves_count _ _ _ _ _ own x Hmv eq_refl), (moves_count _ _ _ _ _ puts x Hmv eq_refl), Ho, Hp.
    specialize (ri_refs0 x). simpl in *. rewrite ?(bool_decide_false (None = _)) by done.
    unfold refcount in *. rewrite He', lookup_insert. case_decide.
    + subst x. rewrite He in ri_refs0. rewrite bool_decide_true by done. simpl. lia.
    + rewrite bool_decide_false by congruence. simpl. lia.
  - intros x ex. rewrite He', lookup_insert_Some. intros [[<- <-]|[_ ?]]; [|eauto]. pose proof (ri_pos0 dv e He). lia.
  - intros x. rewrite Hit, (moves_count _ _ _ _ _ unlinked x Hmv eq_refl), Hu. specialize (ri_links0 x). simpl in *. lia.
  - intros r' x. rewrite (moves_pc _ _ _ _ _ r' Hmv), He'. case_decide as Er.
    + subst r'. split.
      * intros E. rewrite E in Ho. injection Ho as ->. exists e'. rewrite lookup_insert_eq. split; [done|].
        destruct Hd as [[_ ->]|[Hd _]]; [set_solver|by rewrite E in Hd].
      * intros (ex & Hex & Hin). apply lookup_insert_Some in Hex as [[<- <-]|[Hne Hex]].
        -- destruct Hd as [[? _]|[_ Hd]]; [done|]. by rewrite Hd in Hin.
        -- assert (pc_of r w = Queued x) as E by (apply ri_queued0; eauto). destruct Hmv as [Hmv _]. congruence.
    + rewrite ri_queued0. setoid_rewrite lookup_insert. destruct (decide (dv = x)) as [->|Hne]; [|done].
      split; intros (ex & Hex & Hin); simplify_eq; [exists e'|exists e]; (split; [done|]);
        destruct Hd as [[_ Hd]|[_ Hd]]; rewrite Hd in *; set_solver.
  - intros x ex. rewrite He', lookup_insert_Some. intros [[<- <-]|[_ ?]]; [|eauto].
    pose proof (ri_dupes0 dv e He). destruct Hd as [[_ ->]|[_ ->]]; [|done].
    apply NoDup_app. split_and!; [done|set_solver|apply NoDup_singleton].
  - intros x ex. rewrite He', lookup_insert_Some. intros [[<- <-]|[_ ?]]; eauto.
  - intros r' x ex. rewrite He', (moves_pc _ _ _ _ _ r' Hmv), lookup_insert_Some. destruct Hmv as [Hpc Hw].
    rewrite (req_of_insert _ _ _ _ _ Hw). intros Hown Hx'. case_decide.
    + subst r'. rewrite Ho in Hown. injection Hown as <-. destruct Hx' as [[_ <-]|[? _]]; [|done]. congruence.
    + destruct Hx' as [[<- <-]|[_ ?]]; [rewrite Hh|]; eauto.
Qed.

(** A request that finds no entry makes one. *)
Lemma refs_new w m w' r q xt' :
  refs_inv ts w m -> r ∈ ts -> moves w w' r Start q ->
  let dv := w_next w in
  let k := rq_key (req_of r w) in
  m !! key_id k = None -> rq_key q = k -> rq_pc q = Start_enqueue dv ->
  drc_xt (w_drc w') = xt' -> xt_rep dupreq_tcp_cmpf node_id node_hash xt' (<[key_id k := {| nd_key := k; nd_id := dv |}]> m) ->
  drc_dupreq_q (w_drc w') = drc_dupreq_q (w_drc w) -> drc_size (w_drc w') = drc_size (w_drc w) ->
  w_next w' = Pos.succ dv -> w_entries w' = <[dv := set_refcnt 2 (alloc_dupreq k)]> (w_entries w) ->
  refs_inv ts w' (<[key_id k := {| nd_key := k; nd_id := dv |}]> m).
Proof.
  intros Hi Hr Hmv dv k Hm Hk Hpc Hx Hrep Hq Hs Hn He'. set (m' := <[key_id k := _]> m) in *.
  pose proof (moves_dom _ _ _ _ _ _ Hmv Hi Hr) as Hdom. destruct Hi.
  assert (w_entries w !! dv = None) as Hnone.
  { destruct (w_entries w !! dv) as [e|] eqn:E; [|done]. apply ri_next0 in E. unfold dv in E. lia. }
  assert (forall x, in_tree (w_entries w') m' x = if decide (x = dv) then true else in_tree (w_entries w) m x) as Hit.
  { intros x. unfold in_tree. rewrite He', lookup_insert. destruct (decide (dv = x)) as [<-|Hne].
    - rewrite decide_True by done. apply bool_decide_true. unfold m'. by rewrite lookup_insert_eq.
    - rewrite decide_False by done. destruct (w_entries w !! x) as [ex|]; [|done]. apply bool_decide_ext.
      unfold m'. rewrite lookup_insert_Some. split; [|right; split; [congruence|done]].
      intros [[_ [= _ E]]|[_ ?]]; [by destruct Hne|done]. }
  pose proof (ri_refs0 dv) as Hrc. pose proof (ri_links0 dv) as Hlk. unfold refcount, in_tree in Hrc, Hlk.
  rewrite Hnone in Hrc, Hlk. simpl in Hrc, Hlk.
  pose proof (nreq_nonneg own dv w). pose proof (nreq_nonneg puts dv w). pose proof (nreq_nonneg unlinked dv w).
  constructor; rewrite ?Hq, ?Hs, ?Hn; try done.
  - by rewrite Hx.
  - intros k0 n. unfold m'. rewrite lookup_insert_Some, He'. intros [[<- <-]|[_ Hkn]]; simpl.
    + rewrite lookup_insert_eq. by eexists.
    + destruct (ri_node0 k0 n Hkn) as (x & Hx' & Hnx). exists x. rewrite lookup_insert_ne by congruence. done.
  - intros x. rewrite Hit, (moves_count _ _ _ _ _ own x Hmv eq_refl), (moves_count _ _ _ _ _ puts x Hmv eq_refl), Hpc.
    specialize (ri_refs0 x). simpl. rewrite ?(bool_decide_false (None = _)) by done. unfold refcount in *.
    rewrite He', lookup_insert. destruct (decide (dv = x)) as [<-|Hne].
    + rewrite decide_True, bool_decide_true by done. simpl. lia.
    + rewrite decide_False, bool_decide_false by congruence. simpl. lia.
  - intros x ex. rewrite He', lookup_insert_Some. intros [[<- <-]|[_ ?]]; [simpl; lia|eauto].
  - intros x. rewrite Hit, (moves_count _ _ _ _ _ unlinked x Hmv eq_refl), Hpc. specialize (ri_links0 x). simpl.
    rewrite ?(bool_decide_false (None = _)) by done. destruct (decide (x = dv)) as [->|Hne].
    + rewrite (bool_decide_true (Some _ = _)) by done. case_bool_decide; simpl in *; lia.
    + rewrite (bool_decide_false (Some _ = _)) by congruence. simpl. lia.
  - intros r' x. rewrite (moves_pc _ _ _ _ _ r' Hmv), He', Hpc. destruct (decide (r = r')) as [<-|Hne].
    + split; [done|]. intros (ex & Hex & Hin). apply lookup_insert_Some in Hex as [[<- <-]|[_ Hex]]; [set_solver|].
      assert (pc_of r w = Queued x) as E by (apply ri_queued0; eauto). destruct Hmv as [Hmv _]. congruence.
    + rewrite ri_queued0. setoid_rewrite lookup_insert_Some. split; [intros (ex & Hex & ?)|intros (ex & Hex & ?)].
      * exists ex. split; [|done]. right. split; [congruence|done].
      * destruct Hex as [[<- <-]|[_ ?]]; [set_solver|eauto].
  - intros x ex. rewrite He', lookup_insert_Some. intros [[<- <-]|[_ ?]]; [constructor|eauto].
  - intros x ex. rewrite He', lookup_insert_Some. intros [[<- <-]|[_ Hex]]; [lia|]. apply ri_next0 in Hex. unfold dv. lia.
  - intros r' x ex. rewrite He', (moves_pc _ _ _ _ _ r' Hmv), lookup_insert_Some. destruct Hmv as [Hpc0 Hw].
    rewrite (req_of_insert _ _ _ _ _ Hw). destruct (decide (r = r')) as [<-|].
    + rewrite Hpc. simpl. intros [= <-] [[_ <-]|[? _]]; [by rewrite Hk|done].
    + intros Hown [[<- <-]|[_ ?]]; [|eauto].
      pose proof (nreq_pos own dv r' w eq_refl Hown). lia.
Qed.

(** The first request that waits in [dv] is resumed. *)
Lemma refs_resume w m w' r dv e rest q :
  refs_inv ts w m -> moves w w' r (Queued dv) q -> w_entries w !! dv = Some e -> dv_dupes e = r :: rest ->
  r ∈ ts -> rq_key q = rq_key (req_of r w) -> rq_pc q = Resume dv ->
  w_drc w' = w_drc w -> w_next w' = w_next w ->
  w_entries w' = <[dv := set_dupes (dv_dupe_cnt e) rest e]> (w_entries w) -> refs_inv ts w' m.
Proof.
  intros Hi Hmv He Hd Hr Hk Hpc Hw Hn He'.
  pose proof (moves_dom _ _ _ _ _ _ Hmv Hi Hr) as Hdom. destruct Hi.
  assert (forall f x, f Idle = None -> f (Queued dv) = f (Resume dv) -> nreq f x w' = nreq f x w) as Hcnt.
  { intros f x Hf E. rewrite (moves_count _ _ _ _ _ f x Hmv Hf), Hpc, E. lia. }
  assert (forall x, in_tree (w_entries w') m x = in_tree (w_entries w) m x) as Hit.
  { intros x. unfold in_tree. rewrite He', lookup_insert. case_decide; [|done]. subst x. by rewrite He. }
  pose proof (ri_dupes0 dv e He) as Hnd. rewrite Hd in Hnd. apply NoDup_cons in Hnd as [Hnr Hnd].
  constructor; rewrite ?Hw, ?Hn; try done.
  - intros k n Hkn. destruct (ri_node0 k n Hkn) as (x & Hx' & Hnx). rewrite He', lookup_insert.
    case_decide; [|eauto]. subst dv. simplify_eq. eexists. split; [done|]. by rewrite <- Hnx.
  - intros x. rewrite Hit, !Hcnt by done. rewrite ri_refs0, He'. unfold refcount. rewrite lookup_insert.
    case_decide; [|done]. subst x. by rewrite He.
  - intros x ex. rewrite He', lookup_insert_Some. intros [[<- <-]|[_ ?]]; [simpl|]; eauto.
  - intros x. by rewrite Hit, Hcnt.
  - intros r' x. rewrite (moves_pc _ _ _ _ _ r' Hmv), He', Hpc. setoid_rewrite lookup_insert_Some.
    destruct (decide (r = r')) as [<-|Hne].
    + split; [done|]. intros (ex & [[<- <-]|[Hne Hex]] & Hin); [done|].
      assert (pc_of r w = Queued x) as E by (apply ri_queued0; eauto). destruct Hmv as [Hmv _]. congruence.
    + rewrite ri_queued0. split.
      * intros (ex & Hex & Hin). destruct (decide (dv = x)) as [<-|]; [|eauto]. simplify_eq. eexists. split; [by left|].
        simpl. rewrite Hd in Hin. set_solver.
      * intros (ex & [[<- <-]|[_ Hex]] & Hin); [|eauto]. exists e. split; [done|]. rewrite Hd. by right.
  - intros x ex. rewrite He', lookup_insert_Some. intros [[<- <-]|[_ ?]]; [done|eauto].
  - intros x ex. rewrite He', lookup_insert_Some. intros [[<- <-]|[_ ?]]; eauto.
  - intros r' x ex. rewrite He', (moves_pc _ _ _ _ _ r' Hmv), lookup_insert_Some. destruct Hmv as [Hpc0 Hws].
    rewrite (req_of_insert _ _ _ _ _ Hws). intros Hown Hx.
    assert (exists ex0, w_entries w !! x = Some ex0 /\ dv_hin ex = dv_hin ex0) as (ex0 & Hex0 & ->).
    { destruct Hx as [[<- <-]|[_ ?]]; eauto. }
    destruct (decide (r = r')) as [<-|]; [|eauto]. rewrite Hk. apply (ri_key0 r x ex0); [|done].
    rewrite Hpc0. by rewrite Hpc in Hown.
Qed.

Lemma refs_init npart cachesz maxsize hiwat :
  refs_inv ts (drc_world (alloc_tcp_drc npart cachesz maxsize hiwat)) ∅.
Proof.
  constructor; simpl; try done.
  - apply rep_init.
  - constructor.
  - intros r dv. split; [done|]. intros (e & He & _). by rewrite lookup_empty in He.
Qed.
End refs.

(** ** Who owns an entry *)

(** What a request may claim of the entries when it comes to a point. *)
Definition point_ok (es : gmap positive dupreq_entry) (pc : req_pc) : Prop :=
  match pc with
  | Send dv rc => rc <> NFS_REQ_XPRT_DIED /\ rc <> NFS_REQ_DROP /\ rc <> NFS_REQ_AUTH_ERR /\
      forall e, es !! dv = Some e -> is_Some (dv_res e)
  | Finish dv rc => rc <> NFS_REQ_DROP /\ rc <> NFS_REQ_AUTH_ERR /\
      forall e, es !! dv = Some e -> is_Some (dv_res e)
  | Delete dv rc => rc <> NFS_REQ_XPRT_DIED
  | Start_window dv | Replay dv | Finish_drc dv | Retire dv _ _ | Retire_remove dv _ _ | Retire_put dv _ _
  | Retire_again dv _ => forall e, es !! dv = Some e -> dv_complete e = true
  | Resend _ => False
  | _ => True
  end.

(** An unfinished entry has at most one request that works on it or hands it on.
    Nobody works on a finished entry; it has a result and a final status.  Nothing
    waits, and nothing has been resumed, on an entry whose reply could not be sent. *)
Record own_inv (w : world) : Prop := {
  oi_one dv e : w_entries w !! dv = Some e -> dv_complete e = false -> nreq baton dv w <= 1;
  oi_done dv e : w_entries w !! dv = Some e -> dv_complete e = true ->
    nreq active dv w = 0 /\ is_Some (dv_res e) /\ dv_rc e <> NFS_REQ_DROP /\ dv_rc e <> NFS_REQ_AUTH_ERR;
  oi_died dv e : w_entries w !! dv = Some e -> dv_rc e = NFS_REQ_XPRT_DIED ->
    dv_complete e = true /\ dv_dupes e = [] /\ nreq resumed dv w = 0;
  oi_points r : point_ok (w_entries w) (pc_of r w)
}.

(** The only request that works on an entry. *)
Lemma own_alone w r dv e :
  own_inv w -> w_entries w !! dv = Some e -> active (pc_of r w) = Some dv ->
  dv_complete e = false /\ nreq baton dv w = 1.
Proof.
  intros Hi He Ha. pose proof (nreq_pos active dv r w eq_refl Ha) as Hp.
  destruct (dv_complete e) eqn:Hc; [destruct (oi_done _ Hi dv e He Hc); lia|]. split; [done|].
  pose proof (oi_one _ Hi dv e He Hc). pose proof (nreq_le active baton dv w) as Hle.
  specialize (Hle ltac:(by intros []; simpl)). lia.
Qed.

(** No other request can resume, execute or finish it. *)
Lemma own_others w r dv e r' :
  own_inv w -> w_entries w !! dv = Some e -> active (pc_of r w) = Some dv -> r' <> r ->
  baton (pc_of r' w) <> Some dv.
Proof.
  intros Hi He Ha Hne Hb. destruct (own_alone _ _ _ _ Hi He Ha) as [_ H1].
  assert (baton (pc_of r w) = Some dv) as Hb0 by by destruct (pc_of r w).
  pose proof (nreq_two baton dv r' r w eq_refl Hne Hb Hb0). lia.
Qed.

Lemma nreq_zero f dv w : f Idle = None -> (forall r, f (pc_of r w) <> Some dv) -> nreq f dv w = 0.
Proof.
  intros Hf Hno. unfold nreq, count_threads. rewrite (proj2 (map_empty_filter _ _)); [by rewrite map_size_empty|].
  intros r q Hq. simpl. rewrite bool_decide_eq_true. intros E. apply (Hno r). unfold pc_of, req_of. by rewrite Hq.
Qed.

(** The members that ownership reads, apart from the requests that wait. *)
Definition own_view (e : dupreq_entry) : bool * option nfs_res_t * nfs_req_result :=
  (dv_complete e, dv_res e, dv_rc e).

(** [es'] has only entries of [es], with the same status; only an unfinished entry
    gets requests that wait. *)
Definition same_status (es es' : gmap positive dupreq_entry) : Prop :=
  forall dv e', es' !! dv = Some e' -> exists e, es !! dv = Some e /\ own_view e' = own_view e /\
    (dv_complete e = true -> dv_dupes e = [] -> dv_dupes e' = []).

Lemma point_ok_mono es es' pc :
  point_ok es pc ->
  (forall dv e', own pc = Some dv -> es' !! dv = Some e' -> exists e, es !! dv = Some e /\
     (is_Some (dv_res e) -> is_Some (dv_res e')) /\ (dv_complete e = true -> dv_complete e' = true)) ->
  point_ok es' pc.
Proof.
  intros Hp Hm. destruct pc; simpl in *; try done.
  all: split_and?; try by destruct_and?.
  all: intros e' He'; edestruct Hm as (e & He & Hr & Hc); [done..|].
  all: try apply Hc; try apply Hr; destruct_and?; eauto.
Qed.

(** A request moves; the entries keep their status. *)
Lemma own_move w w' r pc q :
  own_inv w -> moves w w' r pc q -> same_status (w_entries w) (w_entries w') ->
  (forall dv e, active (rq_pc q) = Some dv -> w_entries w !! dv = Some e ->
     active pc = Some dv \/ dv_complete e = false) ->
  (forall dv e, baton (rq_pc q) = Some dv -> w_entries w !! dv = Some e -> dv_complete e = false ->
     baton pc = Some dv) ->
  resumed (rq_pc q) = None -> point_ok (w_entries w') (rq_pc q) -> own_inv w'.
Proof.
  intros Hi Hmv Hs Ha Hb Hr Hp. pose proof Hi as []. constructor.
  - intros dv e' He' Hc. destruct (Hs dv e' He') as (e & He & [= Ec _ _] & _). rewrite Ec in Hc.
    rewrite (moves_count _ _ _ _ _ baton dv Hmv eq_refl). pose proof (oi_one0 dv e He Hc).
    case_bool_decide as E1; case_bool_decide as E2; simpl; try lia. by destruct E1; eapply Hb.
  - intros dv e' He' Hc. destruct (Hs dv e' He') as (e & He & [= Ec Er Erc] & _). rewrite Ec in Hc. rewrite Er, Erc.
    destruct (oi_done0 dv e He Hc) as [H0 Hres]. split; [|done].
    rewrite (moves_count _ _ _ _ _ active dv Hmv eq_refl). destruct Hmv as [Hpc _].
    rewrite (bool_decide_false (active pc = Some dv)).
    2:{ rewrite <- Hpc. intros E. pose proof (nreq_pos active dv r w eq_refl E). lia. }
    rewrite bool_decide_false; [simpl; lia|]. intros E. destruct (Ha dv e E He) as [E'|E']; [|congruence].
    rewrite <- Hpc in E'. pose proof (nreq_pos active dv r w eq_refl E'). lia.
  - intros dv e' He' Hd. destruct (Hs dv e' He') as (e & He & [= Ec Er Erc] & Hdup). rewrite Erc in Hd. rewrite Ec.
    destruct (oi_died0 dv e He Hd) as (Hc & Hde & H0). split_and!; [done|auto|].
    rewrite (moves_count _ _ _ _ _ resumed dv Hmv eq_refl), Hr. simpl. pose proof (nreq_nonneg resumed dv w').
    rewrite (moves_count _ _ _ _ _ resumed dv Hmv eq_refl), Hr in H. simpl in H. case_bool_decide; simpl in *; lia.
  - intros r'. rewrite (moves_pc _ _ _ _ _ r' Hmv). case_decide; [done|].
    apply (point_ok_mono (w_entries w)); [done|]. intros dv e' _ He'.
    destruct (Hs _ _ He') as (e & He & [= Ec Er _] & _). exists e. by rewrite Ec, Er.
Qed.

(** The request that works on [dv] changes its status. *)
Lemma own_update w w' r pc q dv e e' :
  own_inv w -> moves w w' r pc q -> w_entries w !! dv = Some e -> active pc = Some dv ->
  w_entries w' = <[dv := e']> (w_entries w) ->
  (forall x, baton (rq_pc q) = Some x -> x = dv) ->
  (dv_complete e' = true -> active (rq_pc q) = None /\ is_Some (dv_res e') /\
     dv_rc e' <> NFS_REQ_DROP /\ dv_rc e' <> NFS_REQ_AUTH_ERR) ->
  (dv_rc e' = NFS_REQ_XPRT_DIED -> dv_complete e' = true /\ dv_dupes e' = []) ->
  resumed (rq_pc q) = None -> point_ok (w_entries w') (rq_pc q) -> own_inv w'.
Proof.
  intros Hi Hmv He Ha He' Hb Hc Hd Hr Hp. destruct Hmv as [Hpc Hw]. subst pc.
  pose proof (own_alone _ _ _ _ Hi He Ha) as [Hinc H1]. pose proof (fun r' => own_others _ _ _ _ r' Hi He Ha) as Hoth.
  assert (moves w w' r (pc_of r w) q) as Hmv by done.
  assert (baton (pc_of r w) = Some dv) as Hb0 by by destruct (pc_of r w).
  pose proof Hi as []. constructor.
  - intros x ex Hx Hcx. rewrite (moves_count _ _ _ _ _ baton x Hmv eq_refl). rewrite Hb0.
    rewrite He' in Hx. apply lookup_insert_Some in Hx as [[<- <-]|[Hne Hx]].
    + rewrite (bool_decide_true (Some dv = Some dv)) by done. case_bool_decide; simpl; lia.
    + pose proof (oi_one0 x ex Hx Hcx). rewrite !bool_decide_false; [simpl; lia| |congruence].
      intros E. by apply Hb in E.
  - intros x ex Hx Hcx. rewrite (moves_count _ _ _ _ _ active x Hmv eq_refl), Ha.
    rewrite He' in Hx. apply lookup_insert_Some in Hx as [[<- <-]|[Hne Hx]].
    + destruct (Hc Hcx) as [Hn Hrest]. split; [|done]. rewrite Hn, bool_decide_true, bool_decide_false by done. simpl.
      pose proof (nreq_le active baton dv w ltac:(by intros []; simpl)).
      pose proof (nreq_pos active dv r w eq_refl Ha). lia.
    + destruct (oi_done0 x ex Hx Hcx) as [H0 Hrest]. split; [|done]. rewrite !bool_decide_false; [simpl; lia| |congruence].
      intros E. assert (baton (rq_pc q) = Some x) as E' by (destruct (rq_pc q); simpl in *; congruence). by apply Hb in E'.
  - intros x ex Hx Hdx. rewrite (moves_count _ _ _ _ _ resumed x Hmv eq_refl), Hr.
    assert (resumed (pc_of r w) = None) as -> by by destruct (pc_of r w). simpl.
    rewrite He' in Hx. apply lookup_insert_Some in Hx as [[<- <-]|[Hne Hx]].
    + destruct (Hd Hdx). split_and!; [done..|]. rewrite (nreq_zero resumed dv w eq_refl); [lia|].
      intros r' E. destruct (decide (r' = r)) as [->|Hne]; [by destruct (pc_of r w)|].
      apply (Hoth r' Hne). by destruct (pc_of r' w).
    + destruct (oi_died0 x ex Hx Hdx) as (? & ? & ?). split_and!; [done..|lia].
  - intros r'. rewrite (moves_pc _ _ _ _ _ r' Hmv). destruct (decide (r = r')) as [<-|Hne]; [done|].
    pose proof (oi_points0 r') as Hpt. specialize (Hoth r' ltac:(done)). rewrite He'.
    destruct (decide (own (pc_of r' w) = Some dv)) as [E|E].
    + destruct (pc_of r' w); simpl in *; simplify_eq; try done; specialize (Hpt e He); congruence.
    + apply (point_ok_mono (w_entries w)); [done|]. intros x ex Hx Hex.
      rewrite lookup_insert_ne in Hex by congruence. by exists ex.
Qed.

(** A new entry has its request. *)
Lemma own_new w w' r q dv k :
  own_inv w -> moves w w' r Start q -> nreq own dv w = 0 -> w_entries w !! dv = None ->
  w_entries w' = <[dv := set_refcnt 2 (alloc_dupreq k)]> (w_entries w) -> rq_pc q = Start_enqueue dv -> own_inv w'.
Proof.
  intros Hi Hmv H0 Hn He Hpc.
  assert (forall f x, f Idle = None -> f Start = None -> (forall pc, f pc = Some dv -> own pc = Some dv) ->
            (f (Start_enqueue dv) = Some x -> x = dv) ->
            nreq f x w' = if decide (x = dv) then Z.b2z (bool_decide (f (Start_enqueue dv) = Some dv)) else nreq f x w) as Hcnt.
  { intros f x Hf Hs Hfo Hx. rewrite (moves_count _ _ _ _ _ f x Hmv Hf), Hpc, Hs, (bool_decide_false (None = _)) by done.
    case_decide as E; [subst x|].
    - assert (nreq f dv w = 0) as -> by (pose proof (nreq_le f own dv w Hfo); pose proof (nreq_nonneg f dv w); lia).
      simpl. lia.
    - rewrite bool_decide_false by auto. simpl. lia. }
  destruct Hi. constructor.
  - intros x ex. rewrite He, lookup_insert_Some. intros [[<- <-]|[Hne Hx]] Hc.
    + rewrite Hcnt by (try done; try (by intros []); by intros [= ->]). rewrite decide_True by done. by case_bool_decide.
    + rewrite Hcnt by (try done; try (by intros []); by intros [= ->]). rewrite decide_False by done. eauto.
  - intros x ex. rewrite He, lookup_insert_Some. intros [[<- <-]|[Hne Hx]] Hc; [done|].
    rewrite Hcnt by (try done; try (by intros []); by intros [= ->]). rewrite decide_False by done. eauto.
  - intros x ex. rewrite He, lookup_insert_Some. intros [[<- <-]|[Hne Hx]] Hc; [done|].
    rewrite Hcnt by (try done; try (by intros []); by intros [= ->]). rewrite decide_False by done. eauto.
  - intros r'. rewrite (moves_pc _ _ _ _ _ r' Hmv), Hpc, He. case_decide; [done|].
    apply (point_ok_mono (w_entries w)); [done|]. intros x ex Hx. rewrite lookup_insert_Some.
    intros [[<- <-]|[_ ?]]; [|by exists ex]. pose proof (nreq_pos own dv r' w eq_refl Hx). lia.
Qed.

(** A request that waited takes over the entry from one that leaves. *)
Lemma own_resume w w' r q dv e rest :
  own_inv w -> moves w w' r (Queued dv) q -> w_entries w !! dv = Some e -> dv_dupes e = r :: rest ->
  (dv_complete e = false -> nreq baton dv w = 0) ->
  w_entries w' = <[dv := set_dupes (dv_dupe_cnt e) rest e]> (w_entries w) -> rq_pc q = Resume dv -> own_inv w'.
Proof.
  intros Hi Hmv He Hd Hb He' Hpc. destruct Hi. constructor.
  - intros x ex. rewrite He', lookup_insert_Some, (moves_count _ _ _ _ _ baton x Hmv eq_refl), Hpc. simpl.
    intros [[<- <-]|[Hne Hx]] Hc.
    + rewrite Hb by done. case_bool_decide; simpl; lia.
    + rewrite (bool_decide_false (Some dv = _)) by congruence. specialize (oi_one0 x ex Hx Hc). simpl. lia.
  - intros x ex. rewrite He', lookup_insert_Some, (moves_count _ _ _ _ _ active x Hmv eq_refl), Hpc. simpl.
    intros [[<- <-]|[Hne Hx]] Hc; [destruct (oi_done0 dv e He Hc)|destruct (oi_done0 x ex Hx Hc)]; split; try done; lia.
  - intros x ex. rewrite He', lookup_insert_Some, (moves_count _ _ _ _ _ resumed x Hmv eq_refl), Hpc. simpl.
    intros [[<- <-]|[Hne Hx]] Hc.
    + destruct (oi_died0 dv e He Hc) as (_ & E & _). congruence.
    + destruct (oi_died0 x ex Hx Hc) as (? & ? & ?). rewrite (bool_decide_false (Some dv = _)) by congruence.
      split_and!; [done..|simpl; lia].
  - intros r'. rewrite (moves_pc _ _ _ _ _ r' Hmv), Hpc, He'. case_decide; [done|].
    apply (point_ok_mono (w_entries w)); [done|]. intros x ex Hx. rewrite lookup_insert_Some.
    intros [[<- <-]|[_ ?]]; [by exists e|by exists ex].
Qed.

Lemma own_init npart cachesz maxsize hiwat : own_inv (drc_world (alloc_tcp_drc npart cachesz maxsize hiwat)).
Proof. constructor; simpl; try done. Qed.

(** ** The history *)

(** An answer was computed for the same request; a request that was answered is not
    executed again, and all its answers are the same. *)
Fixpoint log_ok (l : list drc_event) : Prop :=
  match l with
  | [] => True
  | Executed k dv a :: l => (forall k' b, Replied k' dv b ∉ l) /\ log_ok l
  | Replied k dv a :: l =>
      (exists k', Executed k' dv a ∈ l /\ key_id k' = key_id k) /\
      (forall k' b, Replied k' dv b ∈ l -> b = a) /\ log_ok l
  end.

Record log_inv (w : world) : Prop := {
  lg_ok : log_ok (w_log w);
  lg_res dv e a : w_entries w !! dv = Some e -> dv_res e = Some a -> exists k, Executed k dv a ∈ w_log w;
  lg_sent k dv a e : Replied k dv a ∈ w_log w -> w_entries w !! dv = Some e ->
    dv_res e = Some a /\ (dv_complete e = true \/ exists r rc, pc_of r w = Finish dv rc /\ rc <> NFS_REQ_XPRT_DIED);
  lg_key k dv a e : Executed k dv a ∈ w_log w -> w_entries w !! dv = Some e -> key_id k = key_id (dv_hin e);
  lg_next k dv a : Executed k dv a ∈ w_log w \/ Replied k dv a ∈ w_log w -> (dv < w_next w)%positive
}.

(** [es'] has only entries of [es], with their result, or entries without a result
    that were handed out after [next]. *)
Definition same_results (next : positive) (es es' : gmap positive dupreq_entry) : Prop :=
  forall dv e', es' !! dv = Some e' ->
    (exists e, es !! dv = Some e /\ dv_hin e' = dv_hin e /\ dv_res e' = dv_res e /\
       (dv_complete e = true -> dv_complete e' = true)) \/
    (next <= dv)%positive /\ dv_res e' = None.

Lemma log_move w w' r pc q :
  log_inv w -> moves w w' r pc q -> w_log w' = w_log w -> (w_next w <= w_next w')%positive ->
  same_results (w_next w) (w_entries w) (w_entries w') ->
  (forall dv rc e', pc = Finish dv rc -> rc <> NFS_REQ_XPRT_DIED -> w_entries w' !! dv = Some e' ->
     dv_complete e' = true) -> log_inv w'.
Proof.
  intros [] Hmv Hl Hn Hs Hf. constructor; rewrite ?Hl; try done.
  - intros dv e' a He' Ha. destruct (Hs dv e' He') as [(e & He & _ & Hr & _)|[_ Hr]]; [|congruence].
    rewrite Hr in Ha. eauto.
  - intros k dv a e' Hin He'. destruct (Hs dv e' He') as [(e & He & _ & -> & Hc)|[Hle _]].
    + destruct (lg_sent0 k dv a e Hin He) as [Hr [Hd|(r' & rc & Hp & Hrc)]]; (split; [done|]); [auto|].
      destruct (decide (r = r')) as [<-|Hne].
      * left. destruct Hmv as [Hpc _]. rewrite Hpc in Hp. eauto.
      * right. exists r', rc. rewrite (moves_pc _ _ _ _ _ r' Hmv). by rewrite decide_False.
    + specialize (lg_next0 k dv a (or_intror Hin)). lia.
  - intros k dv a e' Hin He'. destruct (Hs dv e' He') as [(e & He & -> & _ & _)|[Hle _]]; [eauto|].
    specialize (lg_next0 k dv a (or_introl Hin)). lia.
  - intros k dv a Hin. specialize (lg_next0 k dv a Hin). lia.
Qed.

(** A request is executed: nothing was sent for its entry before. *)
Lemma log_executed w w' r dv q k e a :
  log_inv w -> own_inv w -> moves w w' r (Execute dv) q -> w_entries w !! dv = Some e ->
  key_id k = key_id (dv_hin e) -> (dv < w_next w)%positive ->
  w_entries w' = <[dv := set_result a e]> (w_entries w) -> w_next w' = w_next w ->
  w_log w' = Executed k dv a :: w_log w -> log_inv w'.
Proof.
  intros Hi Ho Hmv He Hk Hlt He' Hn Hl. assert (active (pc_of r w) = Some dv) as Ha by by destruct Hmv as [-> _].
  destruct (own_alone _ _ _ _ Ho He Ha) as [Hinc _]. destruct Hi.
  assert (forall k' b, Replied k' dv b ∉ w_log w) as Hno.
  { intros k' b Hin. destruct (lg_sent0 _ _ _ _ Hin He) as [_ [?|(r' & rc & Hp & _)]]; [congruence|].
    apply (own_others _ _ _ _ r' Ho He Ha); [|by rewrite Hp]. intros ->. destruct Hmv. congruence. }
  constructor; rewrite ?Hl, ?He', ?Hn.
  - done.
  - intros x ex b. rewrite lookup_insert_Some. intros [[<- <-]|[_ Hx]] Hb.
    + simpl in Hb. injection Hb as <-. exists k. by left.
    + destruct (lg_res0 x ex b Hx Hb) as [k' ?]. exists k'. by right.
  - intros k' x b ex Hin. rewrite lookup_insert_Some. apply elem_of_cons in Hin as [?|Hin]; [done|].
    intros [[<- <-]|[_ Hx]]; [by destruct (Hno k' b)|].
    destruct (lg_sent0 _ _ _ _ Hin Hx) as [Hr Hd]. split; [done|]. destruct Hd as [?|(r' & rc & Hp & Hrc)]; [by left|].
    right. exists r', rc. rewrite (moves_pc _ _ _ _ _ r' Hmv). rewrite decide_False; [done|].
    intros <-. destruct Hmv. congruence.
  - intros k' x b ex Hin. rewrite lookup_insert_Some. apply elem_of_cons in Hin as [[= -> -> ->]|Hin].
    + intros [[_ <-]|[? _]]; done.
    + intros [[<- <-]|[_ Hx]]; simpl; eauto.
  - intros k' x b. rewrite !elem_of_cons. intros [[[= -> -> ->]|?]|[?|?]]; eauto; done.
Qed.

(** A result is sent, by the request that has computed it or for a finished entry. *)
Lemma log_replied w w' r pc dv q k e a :
  log_inv w -> moves w w' r pc q -> w_entries w !! dv = Some e -> dv_res e = Some a ->
  key_id k = key_id (dv_hin e) -> (dv < w_next w)%positive ->
  (forall x rc, pc <> Finish x rc) ->
  (dv_complete e = true \/ exists rc, rq_pc q = Finish dv rc /\ rc <> NFS_REQ_XPRT_DIED) ->
  w_entries w' = w_entries w -> w_next w' = w_next w -> w_log w' = Replied k dv a :: w_log w -> log_inv w'.
Proof.
  intros [] Hmv He Ha Hk Hlt Hnf Hdone He' Hn Hl. constructor; rewrite ?Hl, ?He', ?Hn.
  - split_and!; [|intros k' b Hin; destruct (lg_sent0 _ _ _ _ Hin He) as [E _]; congruence|done].
    destruct (lg_res0 dv e a He Ha) as [k' Hk']. exists k'. split; [done|]. by rewrite (lg_key0 _ _ _ _ Hk' He).
  - intros x ex b Hx Hb. destruct (lg_res0 x ex b Hx Hb) as [k' ?]. exists k'. by right.
  - intros k' x b ex Hin Hx. apply elem_of_cons in Hin as [[= -> -> ->]|Hin].
    + simplify_eq. split; [done|]. destruct Hdone as [?|(rc & Hq & Hrc)]; [by left|]. right. exists r, rc.
      rewrite (moves_pc _ _ _ _ _ r Hmv), decide_True by done. done.
    + destruct (lg_sent0 _ _ _ _ Hin Hx) as [Hr Hd]. split; [done|]. destruct Hd as [?|(r' & rc & Hp & Hrc)]; [by left|].
      right. exists r', rc. rewrite (moves_pc _ _ _ _ _ r' Hmv). rewrite decide_False; [done|].
      intros <-. destruct Hmv as [E _]. rewrite E in Hp. by destruct (Hnf x rc).
  - intros k' x b ex [?|Hin]%elem_of_cons Hx; [done|eauto].
  - intros k' x b. rewrite !elem_of_cons. intros [[?|?]|[[= -> -> ->]|?]]; eauto; done.
Qed.

Lemma log_init npart cachesz maxsize hiwat : log_inv (drc_world (alloc_tcp_drc npart cachesz maxsize hiwat)).
Proof.
  constructor; simpl; [done|done|by intros ? ? ? ? ?%elem_of_nil|by intros ? ? ? ? ?%elem_of_nil|].
  by intros ? ? ? [?%elem_of_nil|?%elem_of_nil].
Qed.
