(* ===== verification/DupreqTheorems.v ===== *)
(** * Theorems about the duplicate request cache

    Every step of a request keeps the invariants of [DupreqInv] and is defined, so
    that no assertion fails and no freed entry is used, however the requests
    interleave. *)
From S2P Require Import Prelude Compound RbtreeX Dupreq DupreqInv.
Local Open Scope Z_scope.

Lemma wp_get_dupreq dv e Q w : w_entries w !! dv = Some e -> Q e w -> wp (get_dupreq dv) Q w.
Proof. intros He HQ. unfold get_dupreq. wp_go. by eapply wp_deref. Qed.

Lemma wp_entry_get dv e Q w :
  w_entries w !! dv = Some e -> 1 <= dv_refcnt e < 2 ^ 31 - 1 ->
  Q tt (set_entries (<[dv := set_refcnt (dv_refcnt e + 1) e]> (w_entries w)) w) -> wp (dupreq_entry_get dv) Q w.
Proof.
  intros He Hc HQ. unfold dupreq_entry_get. apply wp_bind, (wp_get_dupreq dv e); [done|].
  rewrite u32_small by (unfold UINT32_MAX; lia). by apply wp_modify.
Qed.

(** [dupreq_entry_put] of an allocated entry. *)
Lemma wp_entry_put dv e Q w :
  w_entries w !! dv = Some e -> 1 <= dv_refcnt e < 2 ^ 31 - 1 ->
  Q tt (set_entries (entries_put (w_entries w) dv e) w) -> wp (dupreq_entry_put dv) Q w.
Proof.
  intros He Hc HQ. unfold dupreq_entry_put. apply wp_bind, (wp_get_dupreq dv e); [done|].
  rewrite u32_small by (unfold UINT32_MAX; lia). unfold put_dupreq. apply wp_bind, wp_modify.
  destruct (Z.leb_spec 2147483648 (dv_refcnt e - 1)); [lia|].
  unfold entries_put in HQ. apply wp_mwhen; destruct (Z.eqb_spec (dv_refcnt e - 1) 0) as [E|E]; try done; intros _.
  - unfold nfs_dupreq_free_dupreq. apply wp_bind, (wp_get_dupreq dv (set_refcnt (dv_refcnt e - 1) e));
      [simpl; by rewrite lookup_insert_eq|]. simpl. rewrite E. simpl. apply wp_modify.
    unfold set_entries in *. simpl. rewrite delete_insert_eq. by destruct (Z.eqb_spec (dv_refcnt e) 1); [|lia].
  - by destruct (Z.eqb_spec (dv_refcnt e) 1); [lia|].
Qed.

Lemma put_same_status es dv e : es !! dv = Some e -> same_status es (entries_put es dv e).
Proof.
  intros He x ex Hx. destruct (decide (x = dv)) as [->|Hne]; [|rewrite entries_put_other in Hx by done; by exists ex].
  unfold entries_put in Hx. exists e. split; [done|]. case_match; simplify_map_eq; done.
Qed.

Lemma put_same_results n es dv e : es !! dv = Some e -> same_results n es (entries_put es dv e).
Proof.
  intros He x ex Hx. left. destruct (decide (x = dv)) as [->|Hne]; [|rewrite entries_put_other in Hx by done; by exists ex].
  unfold entries_put in Hx. exists e. split; [done|]. case_match; simplify_map_eq; done.
Qed.

Lemma status_points es es' pc : point_ok es pc -> same_status es es' -> point_ok es' pc.
Proof.
  intros Hp Hs. apply (point_ok_mono es); [done|]. intros dv e' _ He'.
  destruct (Hs dv e' He') as (e & He & [= Ec Er _] & _). exists e. by rewrite Ec, Er.
Qed.

Section steps.
Context (ts : gset positive) (Hts : 2 * Z.of_nat (size ts) + 2 < 2 ^ 31).

Definition cache_inv (w : world) : Prop := exists m, refs_inv ts w m /\ own_inv w /\ log_inv w.

(** The entries agree in everything the invariants read, apart from the waiting
    requests of unfinished entries. *)
Definition same_entries (w w' : world) : Prop :=
  same_view (w_entries w) (w_entries w') /\ same_status (w_entries w) (w_entries w') /\
  same_results (w_next w) (w_entries w) (w_entries w').

Lemma same_status_refl es : same_status es es.
Proof. intros dv e He. by exists e. Qed.
Lemma same_results_refl n es : same_results n es es.
Proof. intros dv e He. left. by exists e. Qed.

Lemma same_entries_refl w w' : w_entries w' = w_entries w -> same_entries w w'.
Proof. intros E. unfold same_entries. rewrite E. split_and!; [done|apply same_status_refl|apply same_results_refl]. Qed.

(** One entry changes in members that no invariant reads. *)
Lemma same_entries_insert w w' dv e e' :
  w_entries w !! dv = Some e -> w_entries w' = <[dv := e']> (w_entries w) ->
  refs_view e' = refs_view e -> own_view e' = own_view e -> same_entries w w'.
Proof.
  intros He E Hv Ho. unfold same_entries. rewrite E. pose proof Hv as [= Eh _ Ed]. pose proof Ho as [= Ec Er _]. split_and!.
  - by apply (same_view_insert _ _ e).
  - intros x ex [[<- <-]|[_ Hx]]%lookup_insert_Some; [|by exists ex]. exists e. by rewrite Ed.
  - intros x ex [[<- <-]|[_ Hx]]%lookup_insert_Some; left; [|by exists ex]. exists e. by rewrite Ec.
Qed.

(** The DRC changes at most its window. *)
Definition same_drc (d d' : drc_t) : Prop :=
  drc_xt d' = drc_xt d /\ drc_dupreq_q d' = drc_dupreq_q d /\ drc_size d' = drc_size d.

(** The two points of a request count the same. *)
Definition same_counts (pc pc' : req_pc) : Prop :=
  own pc' = own pc /\ puts pc' = puts pc /\ unlinked pc' = unlinked pc /\ queued pc' = None /\ queued pc = None.

(** A request that stays with its entry, and takes up no work on it. *)
Lemma cache_move w w' r pc q :
  cache_inv w -> r ∈ ts -> moves w w' r pc q -> same_drc (w_drc w) (w_drc w') -> w_next w' = w_next w ->
  same_entries w w' -> w_log w' = w_log w -> same_counts pc (rq_pc q) ->
  (rq_key q = rq_key (req_of r w) \/ own (rq_pc q) = None) ->
  (forall dv e, active (rq_pc q) = Some dv -> w_entries w !! dv = Some e ->
     active pc = Some dv \/ dv_complete e = false) ->
  (forall dv e, baton (rq_pc q) = Some dv -> w_entries w !! dv = Some e -> dv_complete e = false ->
     baton pc = Some dv) ->
  resumed (rq_pc q) = None -> point_ok (w_entries w') (rq_pc q) ->
  (forall dv rc, pc = Finish dv rc -> rc = NFS_REQ_XPRT_DIED) -> cache_inv w'.
Proof.
  intros (m & Hr & Ho & Hl) Hin Hmv (Hx & Hq & Hs) Hn (He1 & He2 & He3) Hlog (Hc1 & Hc2 & Hc3 & Hc4 & Hc5) Hk Ha Hb Hre Hp Hf.
  exists m. split_and!.
  - destruct Hmv as [<- Hw]. by eapply (refs_move ts w m w' r q).
  - by eapply (own_move w w' r pc q).
  - eapply (log_move w w' r pc q); try done; [by rewrite Hn|]. intros dv rc e' E Hne. by destruct Hne; eapply Hf.
Qed.

(** The entry of a request, with what the invariants say of it. *)
Lemma owned_entry w r dv :
  cache_inv w -> own (pc_of r w) = Some dv ->
  exists e, w_entries w !! dv = Some e /\ key_id (rq_key (req_of r w)) = key_id (dv_hin e) /\
    (dv < w_next w)%positive.
Proof.
  intros (m & Hr & _ & _) Ho. destruct (refs_owned ts w m r dv Hr Ho) as [e He]. exists e.
  split_and!; [done|by eapply ri_key|by eapply ri_next].
Qed.

Lemma cache_points w r : cache_inv w -> point_ok (w_entries w) (pc_of r w).
Proof. intros (m & _ & [] & _). done. Qed.

(** ** Moves that change no entry *)

Ltac moved := (split; [eassumption|reflexivity]).

(** The proof of a step that only moves the request from [pc] to [pc']. *)
Ltac plain_move w r pc pc' :=
  eapply (cache_move w _ r pc {| rq_key := rq_key (req_of r w); rq_pc := pc' |});
  [eassumption|assumption|moved|by split_and!|reflexivity|by apply same_entries_refl|reflexivity|by split_and!|by left|
   simpl; try by (intros; simplify_eq; auto)..].

Lemma wp_enter r k w :
  cache_inv w -> r ∈ ts -> pc_of r w = Idle ->
  wp (modify (set_request r {| rq_key := k; rq_pc := Start |})) (fun _ => cache_inv) w.
Proof.
  intros Hi Hr Hpc. wp_go. eapply (cache_move w _ r Idle {| rq_key := k; rq_pc := Start |});
    [done|done|moved|by split_and!|done|by apply same_entries_refl|done|by split_and!|by right|done..].
Qed.

Lemma wp_leave r w :
  cache_inv w -> r ∈ ts -> pc_of r w = Put_drc -> wp (goto r Idle) (fun _ => cache_inv) w.
Proof. intros Hi Hr Hpc. unfold goto. wp_go. plain_move w r Put_drc Idle. Qed.

Lemma inc_retwnd_same d : same_drc d (drc_inc_retwnd d).
Proof. unfold drc_inc_retwnd. by repeat case_match. Qed.
Lemma dec_retwnd_same d : same_drc d (drc_dec_retwnd d).
Proof. unfold drc_dec_retwnd. by case_match. Qed.

Lemma wp_start_window r dv w :
  cache_inv w -> r ∈ ts -> pc_of r w = Start_window dv ->
  wp (start_window;; goto r (Replay dv)) (fun _ => cache_inv) w.
Proof.
  intros Hi Hr Hpc. pose proof (cache_points w r Hi) as Hp. rewrite Hpc in Hp.
  unfold start_window, on_drc, goto. wp_go.
  eapply (cache_move w _ r (Start_window dv) {| rq_key := _; rq_pc := Replay dv |});
    [done|done|moved|apply inc_retwnd_same|done|by apply same_entries_refl|done|by split_and!|by left|done..].
Qed.
(** Only the window and the threads that leave change. *)
Lemma cache_drc w w' :
  cache_inv w -> same_drc (w_drc w) (w_drc w') -> w_entries w' = w_entries w -> w_next w' = w_next w ->
  w_reqs w' = w_reqs w -> w_log w' = w_log w -> cache_inv w'.
Proof.
  intros (m & Hr & Ho & Hl) (E1 & E2 & E3) He Hn Hq Hlog. exists m.
  assert (forall f dv, nreq f dv w' = nreq f dv w) as Hc by (intros; unfold nreq; by rewrite Hq).
  assert (forall r, req_of r w' = req_of r w) as Hreq by (intros; unfold req_of; by rewrite Hq).
  assert (forall r, pc_of r w' = pc_of r w) as Hpc by (intros; unfold pc_of; by rewrite Hreq).
  split_and!.
  - destruct Hr. constructor; rewrite ?E1, ?E2, ?E3, ?He, ?Hn, ?Hq; try done; intros *; rewrite ?Hc, ?Hpc, ?Hreq; eauto.
  - destruct Ho. constructor; rewrite ?He; intros *; rewrite ?Hc, ?Hpc; eauto.
  - destruct Hl. constructor; rewrite ?He, ?Hlog, ?Hn; try done. setoid_rewrite Hpc. done.
Qed.

Lemma wp_window w : cache_inv w -> wp window_step (fun _ => cache_inv) w.
Proof.
  intros Hi. unfold window_step, start_window, on_drc. wp_go; [done|].
  eapply cache_drc; [done|apply inc_retwnd_same|done..].
Qed.

(** A request that is done with its finished entry moves on. *)
Lemma wp_goto_done r dv pc' w :
  cache_inv w -> r ∈ ts -> own (pc_of r w) = Some dv -> puts (pc_of r w) = None -> unlinked (pc_of r w) = None ->
  queued (pc_of r w) = None -> (forall x rc, pc_of r w <> Finish x rc) ->
  (forall e, w_entries w !! dv = Some e -> dv_complete e = true) ->
  own pc' = Some dv -> puts pc' = None -> unlinked pc' = None -> queued pc' = None ->
  active pc' = None -> resumed pc' = None -> point_ok (w_entries w) pc' ->
  wp (goto r pc') (fun _ => cache_inv) w.
Proof.
  intros Hi Hr Ho Hp Hu Hq Hnf Hc H1 H2 H3 H4 H5 H6 H7. unfold goto. wp_go.
  eapply (cache_move w _ r (pc_of r w) {| rq_key := _; rq_pc := pc' |});
    [done|done|by split|by split_and!|done|by apply same_entries_refl|done|
     unfold same_counts; simpl; split_and!; congruence|by left|..]; simpl; try done.
  - congruence.
  - intros x e Hb He Hce. assert (x = dv) as -> by (destruct pc'; simpl in *; congruence).
    rewrite (Hc e He) in Hce. done.
  - intros x rc E. by destruct (Hnf x rc).
Qed.

(** An entry of the queue is allocated. *)
Lemma queue_entry w dv : cache_inv w -> dv ∈ drc_dupreq_q (w_drc w) -> exists e, w_entries w !! dv = Some e.
Proof.
  intros (m & Hr & _) Hq. eapply in_tree_entry, (refs_linked ts w m); done.
Qed.

(** [dq_again] decides whether and what to retire. *)
Lemma wp_dq_again r dv cnt w :
  cache_inv w -> r ∈ ts -> pc_of r w = Finish_drc dv \/ pc_of r w = Retire_again dv cnt ->
  wp (dq_again r dv cnt) (fun _ => cache_inv) w.
Proof.
  intros Hi Hr Hpc. pose proof (cache_points w r Hi) as Hp. unfold dq_again.
  assert (forall pc', own pc' = Some dv -> puts pc' = None -> unlinked pc' = None -> queued pc' = None ->
            active pc' = None -> resumed pc' = None -> point_ok (w_entries w) pc' ->
            wp (goto r pc') (fun _ => cache_inv) w) as Hgo.
  { intros. destruct Hpc as [Hpc|Hpc]; rewrite Hpc in Hp; eapply (wp_goto_done r dv); rewrite ?Hpc; eauto; done. }
  apply wp_bind, wp_gets. destruct (drc_should_retire (w_drc w)); [|by apply Hgo].
  destruct (drc_dupreq_q (w_drc w)) as [|ov q] eqn:Eq; [by apply Hgo|].
  destruct (queue_entry w ov Hi) as [e He]; [rewrite Eq; left|].
  apply wp_bind, (wp_get_dupreq ov e); [done|]. apply Hgo; try done. by destruct Hpc as [Hpc|Hpc]; rewrite Hpc in Hp.
Qed.

Lemma wp_finish_drc r dv w :
  cache_inv w -> r ∈ ts -> pc_of r w = Finish_drc dv ->
  wp (on_drc drc_dec_retwnd;; dq_again r dv 0) (fun _ => cache_inv) w.
Proof.
  intros Hi Hr Hpc. unfold on_drc. apply wp_bind, wp_modify. apply wp_dq_again; [|done|by left].
  eapply cache_drc; [done|apply dec_retwnd_same|done..].
Qed.

(** The tail of [cache_inv] that a change of the links leaves alone. *)
Lemma cache_relink w w' r pc q m :
  cache_inv w -> moves w w' r pc q -> w_entries w' = w_entries w -> w_next w' = w_next w -> w_log w' = w_log w ->
  refs_inv ts w' m ->
  (forall dv, active (rq_pc q) = Some dv -> active pc = Some dv) ->
  (forall dv, baton (rq_pc q) = Some dv -> baton pc = Some dv) -> resumed (rq_pc q) = None ->
  point_ok (w_entries w) (rq_pc q) -> (forall x rc, pc <> Finish x rc) -> cache_inv w'.
Proof.
  intros (m0 & _ & Ho & Hl) Hmv He Hn Hlog Hr Ha Hb Hre Hp Hf. exists m. split_and!; [done|..].
  - eapply (own_move w w' r pc q); rewrite ?He; eauto. apply same_status_refl.
  - eapply (log_move w w' r pc q); rewrite ?He; eauto; [by rewrite Hn|apply same_results_refl|].
    intros x rc e' E. by destruct (Hf x rc).
Qed.

Lemma wp_start_enqueue r dv w :
  cache_inv w -> r ∈ ts -> pc_of r w = Start_enqueue dv ->
  wp (start_enqueue dv;; goto r (Execute dv)) (fun _ => cache_inv) w.
Proof.
  intros Hi Hr Hpc. unfold start_enqueue, on_drc, goto. wp_go. pose proof Hi as (m & Hrf & _).
  eapply (cache_relink w _ r (Start_enqueue dv) {| rq_key := _; rq_pc := Execute dv |} m);
    [done|by split|done|done|done| |done..].
  by eapply (refs_enqueue ts w m _ r dv {| rq_key := rq_key (req_of r w); rq_pc := Execute dv |}).
Qed.

Lemma remove_id_head (x : positive) l : NoDup (x :: l) -> remove_id x (x :: l) = l.
Proof. apply (remove_id_split x []). Qed.

Lemma wp_finish_dequeue r dv hk cnt w :
  cache_inv w -> r ∈ ts -> pc_of r w = Retire dv hk cnt ->
  wp (finish_dequeue r dv hk cnt) (fun _ => cache_inv) w.
Proof.
  intros Hi Hr Hpc. pose proof (cache_points w r Hi) as Hp. rewrite Hpc in Hp. unfold finish_dequeue.
  assert (wp (goto r (Rele dv)) (fun _ => cache_inv) w) as Hgo
    by (eapply (wp_goto_done r dv); rewrite ?Hpc; eauto; done).
  apply wp_bind, wp_gets. destruct (drc_dupreq_q (w_drc w)) as [|ov q] eqn:Eq; [done|].
  destruct (queue_entry w ov Hi) as [e He]; [rewrite Eq; left|].
  apply wp_bind, (wp_get_dupreq ov e); [done|]. destruct (negb _); [done|].
  unfold on_drc, goto. wp_go. pose proof Hi as (m & Hrf & _).
  eapply (cache_relink w _ r (Retire dv hk cnt) {| rq_key := _; rq_pc := Retire_remove dv ov cnt |} m);
    [done|by split|done|done|done| |done..].
  eapply (refs_dequeue ts w m _ r (Retire dv hk cnt) ov {| rq_key := rq_key (req_of r w); rq_pc := _ |}); try done.
  - rewrite Eq. left.
  - simpl. rewrite Eq, remove_id_head; [done|]. rewrite <- Eq. apply Hrf.
Qed.

Lemma wp_delete_dequeue r dv w :
  cache_inv w -> r ∈ ts -> pc_of r w = Delete_drc dv -> wp (delete_dequeue r dv) (fun _ => cache_inv) w.
Proof.
  intros Hi Hr Hpc. unfold delete_dequeue. apply wp_bind, wp_gets. case_bool_decide as Hin; simpl.
  - unfold on_drc, goto. wp_go. pose proof Hi as (m & Hrf & _).
    eapply (cache_relink w _ r (Delete_drc dv) {| rq_key := _; rq_pc := Delete_remove dv |} m);
      [done|by split|done|done|done| |done..].
    by eapply (refs_dequeue ts w m _ r (Delete_drc dv) dv {| rq_key := rq_key (req_of r w); rq_pc := _ |}).
  - unfold goto. wp_go. plain_move w r (Delete_drc dv) (Rele dv).
Qed.

(** A request takes [ov] from the tree. *)
Lemma wp_remove_from_tree r pc pc' ov w :
  cache_inv w -> r ∈ ts -> pc_of r w = pc -> unlinked pc = Some ov -> unlinked pc' = None ->
  puts pc = None -> puts pc' = Some ov -> own pc' = own pc -> queued pc = None -> queued pc' = None ->
  active pc' = active pc -> baton pc' = baton pc -> resumed pc' = None -> point_ok (w_entries w) pc' ->
  (forall x rc, pc <> Finish x rc) ->
  wp (remove_from_tree ov;; goto r pc') (fun _ => cache_inv) w.
Proof.
  intros Hi Hr Hpc Hu Hu' Hp Hp' Ho Hq Hq' Ha Hb Hre Hpt Hf. pose proof Hi as (m & Hrf & _).
  destruct (refs_unlinked ts w m r ov Hrf) as [Ht _]; [by rewrite Hpc|].
  destruct (in_tree_entry _ _ _ Ht) as [e He].
  assert (m !! node_id (node_of ov e) = Some (node_of ov e)) as Hm
    by (unfold in_tree in Ht; rewrite He in Ht; by apply bool_decide_eq_true in Ht).
  destruct (rep_remove dupreq_tcp_cmpf node_id node_hash _ m _ (ri_rep _ _ _ Hrf) Hm) as (xt' & Hx & _).
  unfold remove_from_tree. apply wp_bind, wp_bind, (wp_get_dupreq ov e); [done|].
  apply wp_bind, wp_gets, wp_bind, (wp_deref _ xt'); [done|]. unfold on_drc, goto. wp_go.
  eapply (cache_relink w _ r pc {| rq_key := _; rq_pc := pc' |} (delete (key_id (dv_hin e)) m));
    [done|by split|done|done|done| |simpl..]; try done.
  - by eapply (refs_removed ts w m _ r pc ov e {| rq_key := rq_key (req_of r w); rq_pc := pc' |}).
  - by rewrite Ha.
  - by rewrite Hb.
Qed.

(** ** Releasing an entry *)

(** A request releases one reference to [dv] and goes on. *)
Lemma wp_put r pc pc' dv w :
  cache_inv w -> r ∈ ts -> pc_of r w = pc ->
  own pc = Some dv /\ puts pc = None /\ own pc' = None /\ puts pc' = None \/
  puts pc = Some dv /\ own pc' = own pc /\ puts pc' = None ->
  queued pc' = None -> queued pc = None -> unlinked pc = None -> unlinked pc' = None -> resumed pc' = None ->
  (forall x, active pc' = Some x -> active pc = Some x) ->
  (forall x e, baton pc' = Some x -> w_entries w !! x = Some e -> dv_complete e = false -> baton pc = Some x) ->
  (forall es, point_ok (w_entries w) pc -> same_status (w_entries w) es -> point_ok es pc') ->
  (forall x rc, pc <> Finish x rc) ->
  wp (dupreq_entry_put dv;; goto r pc') (fun _ => cache_inv) w.
Proof using Hts.
  intros Hi Hr Hpc Hown Hq' Hq Hu Hu' Hre Ha Hb Hp Hf. pose proof Hi as (m & Hrf & Ho & Hl).
  assert (exists e, w_entries w !! dv = Some e) as [e He].
  { destruct Hown as [(E & _)|(E & _)]; [eapply (refs_used ts w m own r)|eapply (refs_used ts w m puts r)];
      rewrite ?Hpc; auto. }
  apply wp_bind, (wp_entry_put dv e); [done|by eapply refs_bound|]. unfold goto. wp_go.
  set (w' := set_request _ _ _). set (q := {| rq_key := rq_key (req_of r w); rq_pc := pc' |}).
  assert (moves w w' r pc q) as Hmv by by split. exists m. split_and!.
  - eapply (refs_put ts w m w' r pc dv e q); try done.
    + intros x. rewrite (moves_count _ _ _ _ _ own x Hmv eq_refl), (moves_count _ _ _ _ _ puts x Hmv eq_refl). simpl.
      destruct Hown as [(-> & -> & -> & ->)|(-> & -> & ->)]; rewrite ?(bool_decide_false (None = _)) by done.
      all: rewrite (bool_decide_ext (Some dv = Some x) (x = dv)) by naive_solver; simpl; lia.
    + simpl. intros x E. destruct Hown as [(_ & _ & E' & _)|(_ & E' & _)]; congruence.
  - eapply (own_move w w' r pc q); try done; [by apply put_same_status|by left; auto|].
    simpl. apply Hp; [rewrite <- Hpc; apply Ho|by apply put_same_status].
  - eapply (log_move w w' r pc q); try done; [by apply put_same_results|]. intros x rc e' E. by destruct (Hf x rc).
Qed.

(** ** Finishing and deleting *)

(** The request that works on [dv] changes status, result or waiting requests of the
    entry, but nothing that is counted. *)
Lemma cache_update w w' r pc q dv e e' :
  cache_inv w -> r ∈ ts -> moves w w' r pc q -> w_entries w !! dv = Some e -> active pc = Some dv ->
  w_entries w' = <[dv := e']> (w_entries w) -> refs_view e' = refs_view e -> w_drc w' = w_drc w ->
  w_next w' = w_next w -> log_inv w' -> same_counts pc (rq_pc q) -> rq_key q = rq_key (req_of r w) ->
  (forall x, baton (rq_pc q) = Some x -> x = dv) ->
  (dv_complete e' = true -> active (rq_pc q) = None /\ is_Some (dv_res e') /\
     dv_rc e' <> NFS_REQ_DROP /\ dv_rc e' <> NFS_REQ_AUTH_ERR) ->
  (dv_rc e' = NFS_REQ_XPRT_DIED -> dv_complete e' = true /\ dv_dupes e' = []) ->
  resumed (rq_pc q) = None -> point_ok (w_entries w') (rq_pc q) -> cache_inv w'.
Proof.
  intros (m & Hr & Ho & _) Hin Hmv He Ha He' Hv Hd Hn Hl (Hc1 & Hc2 & Hc3 & Hc4 & Hc5) Hk Hb Hc Hdie Hre Hp.
  exists m. split_and!; [|by eapply (own_update w w' r pc q dv e e')|done].
  destruct Hmv as [<- Hw]. eapply (refs_move ts w m w' r q); try done; try (by rewrite Hd); [|by left].
  rewrite He'. by apply (same_view_insert _ _ e).
Qed.

Lemma wp_finish r dv rc w :
  cache_inv w -> r ∈ ts -> pc_of r w = Finish dv rc -> wp (nfs_dupreq_finish r dv rc) (fun _ => cache_inv) w.
Proof.
  intros Hi Hr Hpc. destruct (owned_entry w r dv Hi) as (e & He & _ & _); [by rewrite Hpc|].
  pose proof (cache_points w r Hi) as Hp. rewrite Hpc in Hp. destruct Hp as (Hp1 & Hp2 & Hres).
  unfold nfs_dupreq_finish. apply wp_bind, (wp_get_dupreq dv e); [done|].
  destruct (negb _ && _) eqn:E; unfold put_dupreq, goto; wp_go.
  - apply andb_true_iff in E as [_ E]. apply bool_decide_eq_true in E. subst rc.
    plain_move w r (Finish dv NFS_REQ_XPRT_DIED) (Rele dv).
  - eapply (cache_update w _ r (Finish dv rc) {| rq_key := _; rq_pc := Finish_drc dv |} dv e (set_rc true rc e));
      [done|done|by split|done|done|done|done|done|done| |by split_and!|done|done|..]; simpl.
    + pose proof Hi as (m & _ & _ & Hl). eapply (log_move w _ r (Finish dv rc)); [done|by split|done|done|..]; simpl.
      * intros x ex [[<- <-]|[_ Hx]]%lookup_insert_Some; left; [by exists e|by exists ex].
      * intros x rc' ex [= <- <-] _. rewrite lookup_insert_eq. by intros [= <-].
    + intros _. split_and!; auto.
    + intros ->. split; [done|]. apply andb_false_iff in E as [E|E]; [|by rewrite bool_decide_true in E].
      apply negb_false_iff in E. by apply bool_decide_eq_true in E.
    + done.
    + intros ex. rewrite lookup_insert_eq. by intros [= <-].
Qed.

Lemma wp_delete r dv rc w :
  cache_inv w -> r ∈ ts -> pc_of r w = Delete dv rc -> wp (nfs_dupreq_delete r dv rc) (fun _ => cache_inv) w.
Proof.
  intros Hi Hr Hpc. destruct (owned_entry w r dv Hi) as (e & He & _ & _); [by rewrite Hpc|].
  pose proof (cache_points w r Hi) as Hp. rewrite Hpc in Hp. simpl in Hp. pose proof Hi as (m & _ & Ho & Hl).
  destruct (own_alone w r dv e Ho He) as [Hinc _]; [by rewrite Hpc|].
  unfold nfs_dupreq_delete. apply wp_bind, (wp_get_dupreq dv e); [done|].
  destruct (negb _); unfold put_dupreq, goto; wp_go.
  - eapply (cache_update w _ r (Delete dv rc) {| rq_key := _; rq_pc := Rele dv |} dv e (set_rc (dv_complete e) rc e));
      [done|done|by split|done|done|done|done|done|done| |by split_and!|done|by intros x [= ->]|..]; simpl.
    + eapply (log_move w _ r (Delete dv rc)); [done|by split|done|done|..]; simpl; [|done].
      intros x ex [[<- <-]|[_ Hx]]%lookup_insert_Some; left; [by exists e|by exists ex].
    + congruence.
    + done.
    + done.
    + done.
  - plain_move w r (Delete dv rc) (Delete_drc dv).
Qed.

(** ** Executing and replying *)

Lemma wp_process r dv i w :
  cache_inv w -> r ∈ ts -> pc_of r w = Execute dv -> wp (process_request r dv i) (fun _ => cache_inv) w.
Proof.
  intros Hi Hr Hpc. destruct (owned_entry w r dv Hi) as (e & He & Hk & Hlt); [by rewrite Hpc|].
  pose proof Hi as (m & _ & Ho & Hl). destruct (own_alone w r dv e Ho He) as [Hinc _]; [by rewrite Hpc|].
  assert (forall rc, rc <> NFS_REQ_XPRT_DIED -> wp (goto r (Delete dv rc)) (fun _ => cache_inv) w) as Hdel.
  { intros rc Hrc. unfold goto. wp_go. plain_move w r (Execute dv) (Delete dv rc). }
  assert (dv_rc e <> NFS_REQ_XPRT_DIED) as Hrc.
  { intros E. destruct (oi_died _ Ho dv e He E). congruence. }
  unfold process_request. destruct i as [|rc a| | |]; [by wp_go| |by apply Hdel|by wp_go|by wp_go].
  destruct rc; try (by wp_go); try (by apply Hdel).
  all: apply wp_bind, wp_gets, wp_bind, (wp_get_dupreq dv e); [done|]; unfold put_dupreq, goto; wp_go.
  all: eapply (cache_update w _ r (Execute dv) {| rq_key := _; rq_pc := Send dv _ |} dv e (set_result a e));
    [done|done|by split|done|done|done|done|done|done| |by split_and!|done|by intros x [= ->]|..]; simpl;
    [by eapply (log_executed w _ r dv _ _ e a)|congruence|done|done|].
  all: split_and!; [done..|]; intros ex; rewrite lookup_insert_eq; intros [= <-]; by eexists.
Qed.

(** A result is sent or not, and the request goes on. *)
Lemma wp_reply r pc pc' dv sent w :
  cache_inv w -> r ∈ ts -> pc_of r w = pc -> own pc = Some dv -> same_counts pc pc' ->
  (forall x rc, pc <> Finish x rc) ->
  (forall e, w_entries w !! dv = Some e -> is_Some (dv_res e) /\
     (sent = true -> dv_complete e = true \/ exists rc, pc' = Finish dv rc /\ rc <> NFS_REQ_XPRT_DIED)) ->
  (forall x e, active pc' = Some x -> w_entries w !! x = Some e -> active pc = Some x \/ dv_complete e = false) ->
  (forall x e, baton pc' = Some x -> w_entries w !! x = Some e -> dv_complete e = false -> baton pc = Some x) ->
  resumed pc' = None -> point_ok (w_entries w) pc' ->
  wp (svc_sendreply r dv sent;; goto r pc') (fun _ => cache_inv) w.
Proof.
  intros Hi Hr Hpc Ho Hc Hf Hdone Ha Hb Hre Hp. destruct (owned_entry w r dv Hi) as (e & He & Hk & Hlt); [by rewrite Hpc|].
  destruct (Hdone e He) as [[a Hres] Hd]. pose proof Hi as (m & Hrf & Hown & Hl).
  unfold svc_sendreply, goto. apply wp_bind, wp_bind, wp_gets, wp_bind, (wp_get_dupreq dv e); [done|]. rewrite Hres.
  assert (forall w', moves w w' r pc {| rq_key := rq_key (req_of r w); rq_pc := pc' |} -> w_drc w' = w_drc w ->
            w_entries w' = w_entries w -> w_next w' = w_next w -> log_inv w' -> cache_inv w') as Hgo.
  { intros w' Hmv E1 E2 E3 Hl'. exists m. destruct Hc as (? & ? & ? & ? & ?). split_and!; [| |done].
    - destruct Hmv as [<- Hw]. eapply (refs_move ts w m w' r _); try done; rewrite ?E1, ?E2; try done. by left.
    - eapply (own_move w w' r pc); rewrite ?E2; try done. apply same_status_refl. }
  apply wp_mwhen; intros ->; [apply wp_modify|]; apply wp_modify; apply Hgo; try done.
  - eapply (log_replied w _ r pc dv {| rq_key := _; rq_pc := pc' |} _ e a); try done. auto.
  - eapply (log_move w _ r pc); try done; [apply same_results_refl|].
    intros x rc e' E. by destruct (Hf x rc).
Qed.

Lemma wp_complete r dv rc sent w :
  cache_inv w -> r ∈ ts -> pc_of r w = Send dv rc -> wp (complete_request r dv rc sent) (fun _ => cache_inv) w.
Proof.
  intros Hi Hr Hpc. pose proof (cache_points w r Hi) as Hp. rewrite Hpc in Hp. destruct Hp as (H1 & H2 & H3 & Hres).
  unfold complete_request. eapply (wp_reply r (Send dv rc)); try done.
  - intros e He. split; [auto|]. intros ->. right. by exists rc.
  - intros x e E _. by left.
  - by split_and!; destruct sent.
Qed.

Lemma wp_replay r dv sent w :
  cache_inv w -> r ∈ ts -> pc_of r w = Replay dv ->
  wp (svc_sendreply r dv sent;; goto r (Rele dv)) (fun _ => cache_inv) w.
Proof.
  intros Hi Hr Hpc. pose proof (cache_points w r Hi) as Hp. rewrite Hpc in Hp. simpl in Hp.
  pose proof Hi as (m & _ & Ho & _). eapply (wp_reply r (Replay dv)); try done.
  - intros e He. specialize (Hp e He). destruct (oi_done _ Ho dv e He Hp) as (_ & ? & _). auto.
  - simpl. intros x e [= <-] He Hc. rewrite (Hp e He) in Hc. done.
Qed.

(** ** Duplicates *)

Lemma wp_resume r dv w :
  cache_inv w -> r ∈ ts -> pc_of r w = Resume dv -> wp (drc_resume r dv) (fun _ => cache_inv) w.
Proof.
  intros Hi Hr Hpc. destruct (owned_entry w r dv Hi) as (e & He & _ & _); [by rewrite Hpc|].
  pose proof Hi as (m & _ & Ho & _).
  assert (dv_rc e <> NFS_REQ_XPRT_DIED) as Hnd.
  { intros E. destruct (oi_died _ Ho dv e He E) as (_ & _ & H0).
    pose proof (nreq_pos resumed dv r w eq_refl ltac:(by rewrite Hpc)). lia. }
  assert (dv_rc e = NFS_REQ_DROP \/ dv_rc e = NFS_REQ_AUTH_ERR -> dv_complete e = false) as Hc.
  { intros E. destruct (dv_complete e) eqn:Hc; [|done].
    destruct (oi_done _ Ho dv e He Hc) as (_ & _ & ? & ?). naive_solver. }
  unfold drc_resume. apply wp_bind, (wp_get_dupreq dv e); [done|].
  destruct (dv_rc e) eqn:E; try done; unfold goto; wp_go.
  all: try (plain_move w r (Resume dv) (Rele dv)).
  all: plain_move w r (Resume dv) (Execute dv); intros x ex [= <-] Hx; simplify_eq; auto.
Qed.
Lemma request_in w r m : refs_inv ts w m -> pc_of r w <> Idle -> r ∈ ts.
Proof.
  intros Hr Hpc. apply (ri_dom _ _ _ Hr), elem_of_dom. unfold pc_of, req_of in Hpc.
  destruct (w_reqs w !! r); [by eexists|done].
Qed.

(** The entry gains and loses waiting requests, nothing else. *)
Lemma dupes_same_results n es dv e cnt l :
  es !! dv = Some e -> same_results n es (<[dv := set_dupes cnt l e]> es).
Proof. intros He x ex [[<- <-]|[_ Hx]]%lookup_insert_Some; left; [by exists e|by exists ex]. Qed.

(** The request at the head of the queue takes over. *)
Lemma cache_handover w r dv e req2 rest :
  cache_inv w -> r ∈ ts -> pc_of r w = Rele dv -> w_entries w !! dv = Some e -> dv_dupes e = req2 :: rest ->
  cache_inv (set_request r {| rq_key := rq_key (req_of r w); rq_pc := Put dv |}
    (set_request req2 {| rq_key := rq_key (req_of req2 w); rq_pc := Resume dv |}
      (set_entries (<[dv := set_dupes (dv_dupe_cnt e) rest e]> (w_entries w)) w))).
Proof.
  intros (m & Hrf & Ho & Hl) Hr Hpc He Hd. set (q := {| rq_key := _; rq_pc := Put dv |}).
  set (q2 := {| rq_key := _; rq_pc := Resume dv |}). set (w1 := set_request req2 q2 _). set (w' := set_request r q w1).
  assert (pc_of req2 w = Queued dv) as Hq2.
  { apply (ri_queued _ _ _ Hrf). exists e. split; [done|]. rewrite Hd. left. }
  assert (req2 ∈ ts) as Hr2 by (eapply (request_in w); [done|by rewrite Hq2]).
  assert (r <> req2) as Hne by (intros <-; congruence).
  assert (moves w w1 req2 (Queued dv) q2) as Hm1 by by split.
  assert (pc_of r w1 = Rele dv) as Hpc1 by (rewrite (moves_pc _ _ _ _ _ r Hm1); by rewrite decide_False).
  assert (req_of r w1 = req_of r w) as Hreq1 by (unfold req_of, w1; simpl; by rewrite lookup_insert_ne).
  assert (moves w1 w' r (Rele dv) q) as Hm2 by by split.
  exists m. split_and!.
  - eapply (refs_move ts w1 m w' r q); try done; rewrite ?Hpc1, ?Hreq1; try done; [|by left].
    by eapply (refs_resume ts w m w1 req2 dv e rest q2).
  - set (w2 := set_request r q w). assert (moves w w2 r (Rele dv) q) as Hm3 by by split.
    assert (own_inv w2) as Ho2 by (eapply (own_move w w2 r (Rele dv) q); try done; apply same_status_refl).
    eapply (own_resume w2 w' req2 q2 dv e rest); try done.
    + split; [|apply insert_insert_ne; congruence]. rewrite (moves_pc _ _ _ _ _ req2 Hm3). by rewrite decide_False.
    + intros Hc. rewrite (moves_count _ _ _ _ _ baton dv Hm3 eq_refl). pose proof (oi_one _ Ho dv e He Hc).
      pose proof (nreq_pos baton dv r w eq_refl ltac:(by rewrite Hpc)). simpl.
      rewrite (bool_decide_true (Some dv = Some dv)) by done. simpl. lia.
  - eapply (log_move w1 w' r (Rele dv) q); try done; [|apply same_results_refl].
    eapply (log_move w w1 req2 (Queued dv) q2); try done. by apply dupes_same_results.
Qed.

Lemma wp_rele r dv w :
  cache_inv w -> r ∈ ts -> pc_of r w = Rele dv -> wp (nfs_dupreq_rele r dv) (fun _ => cache_inv) w.
Proof.
  intros Hi Hr Hpc. destruct (owned_entry w r dv Hi) as (e & He & _ & _); [by rewrite Hpc|].
  unfold nfs_dupreq_rele. apply wp_bind, (wp_get_dupreq dv e); [done|].
  destruct (dv_dupes e) as [|req2 rest] eqn:Hd; unfold put_dupreq, goto; wp_go.
  - plain_move w r (Rele dv) (Put dv).
  - pose proof (cache_handover w r dv e req2 rest Hi Hr Hpc He Hd) as Hc.
    assert (r <> req2) as Hne.
    { intros <-. pose proof Hi as (m & Hrf & _). assert (pc_of r w = Queued dv) as E; [|congruence].
      apply (ri_queued _ _ _ Hrf). exists e. rewrite Hd. split; [done|left]. }
    rewrite (req_of_insert req2 _ (set_entries (<[dv:=set_dupes (dv_dupe_cnt e) rest e]> (w_entries w)) w)) by done.
    by rewrite decide_False.
Qed.

(** ** Starting *)

Lemma set_xt_same w : set_drc (set_xt (drc_xt (w_drc w)) (w_drc w)) w = w.
Proof. by destruct w as [[] ? ? ? ? ?]. Qed.

(** A request finds the entry [dv] of its key and takes a reference to it. *)
Lemma cache_gain w w' r dv e e' q :
  cache_inv w -> r ∈ ts -> moves w w' r Start q -> w_entries w !! dv = Some e ->
  rq_key q = rq_key (req_of r w) -> key_id (rq_key q) = key_id (dv_hin e) ->
  (rq_pc q = Queued dv /\ dv_dupes e' = dv_dupes e ++ [r] /\ dv_complete e = false \/
   rq_pc q = Start_window dv /\ dv_dupes e' = dv_dupes e /\ dv_complete e = true) ->
  dv_hin e' = dv_hin e -> dv_refcnt e' = dv_refcnt e + 1 -> own_view e' = own_view e ->
  w_drc w' = w_drc w -> w_next w' = w_next w -> w_log w' = w_log w ->
  w_entries w' = <[dv := e']> (w_entries w) -> cache_inv w'.
Proof.
  intros (m & Hrf & Ho & Hl) Hr Hmv He Hk Hke Hd Hh Hc Hv Hdrc Hn Hlog He'. pose proof Hv as [= Ec Er Erc].
  assert (own (rq_pc q) = Some dv /\ puts (rq_pc q) = None /\ unlinked (rq_pc q) = None /\ active (rq_pc q) = None /\
          baton (rq_pc q) = None /\ resumed (rq_pc q) = None) as (H1 & H2 & H3 & H4 & H5 & H6)
    by (by destruct Hd as [(-> & _)|(-> & _)]).
  exists m. split_and!.
  - eapply (refs_gain ts w m w' r dv e e' q); rewrite ?Hdrc; try done.
    destruct Hd as [(? & ? & _)|(E & ? & _)]; [by left|right]. by rewrite E.
  - eapply (own_move w w' r Start q); try done; rewrite ?H4, ?H5, ?He'; try done.
    + intros x ex [[<- <-]|[_ Hx]]%lookup_insert_Some; [|by exists ex]. exists e. split_and!; [done..|].
      destruct Hd as [(_ & _ & ?)|(_ & -> & _)]; [congruence|done].
    + destruct Hd as [(-> & _ & _)|(-> & _ & ?)]; [done|]. intros ex. rewrite lookup_insert_eq. intros [= <-]. congruence.
  - eapply (log_move w w' r Start q); try done; [by rewrite Hn|].
    rewrite He'. intros x ex [[<- <-]|[_ Hx]]%lookup_insert_Some; left; [|by exists ex]. exists e. split_and!; try done. congruence.
Qed.

(** A request finds no entry and makes one. *)
Lemma cache_new w r m :
  refs_inv ts w m -> own_inv w -> log_inv w -> r ∈ ts -> pc_of r w = Start ->
  let k := rq_key (req_of r w) in
  let dk := {| nd_key := k; nd_id := w_next w |} in
  m !! key_id k = None ->
  exists xt', rbtree_x_cached_insert dupreq_tcp_cmpf (drc_xt (w_drc w)) dk (dk_hk k) = Some (dk, xt') /\
  cache_inv (set_request r {| rq_key := k; rq_pc := Start_enqueue (w_next w) |}
    (set_drc (set_xt xt' (w_drc w))
      (set_next_dv (Pos.succ (w_next w)) (set_entries (<[w_next w := set_refcnt 2 (alloc_dupreq k)]> (w_entries w)) w)))).
Proof.
  intros Hrf Ho Hl Hr Hpc k dk Hm.
  destruct (rep_insert dupreq_tcp_cmpf node_id node_hash _ m dk (ri_rep _ _ _ Hrf) Hm) as (xt' & Hx & Hrep).
  exists xt'. split; [done|]. set (q := {| rq_key := k; rq_pc := _ |}). set (w' := set_request r q _).
  assert (moves w w' r Start q) as Hmv by by split.
  assert (w_entries w !! w_next w = None) as Hnone.
  { destruct (w_entries w !! w_next w) as [e|] eqn:E; [|done]. apply (ri_next _ _ _ Hrf) in E. lia. }
  assert (nreq own (w_next w) w = 0) as H0.
  { pose proof (ri_refs _ _ _ Hrf (w_next w)) as Hc. unfold refcount, in_tree in Hc. rewrite Hnone in Hc. simpl in Hc.
    pose proof (nreq_nonneg own (w_next w) w). pose proof (nreq_nonneg puts (w_next w) w). lia. }
  eexists. split_and!.
  - by eapply (refs_new ts w m w' r q xt').
  - by eapply (own_new w w' r q (w_next w) k).
  - eapply (log_move w w' r Start q); try done; [simpl; lia|].
    intros x ex. simpl. intros [[<- <-]|[_ Hx']]%lookup_insert_Some; [right; by split|left; by exists ex].
Qed.

Lemma wp_start r w :
  cache_inv w -> r ∈ ts -> pc_of r w = Start -> wp (nfs_dupreq_start r) (fun _ => cache_inv) w.
Proof using Hts.
  intros Hi Hr Hpc. pose proof Hi as (m & Hrf & Ho & Hl). unfold nfs_dupreq_start.
  apply wp_bind, wp_gets. unfold id. set (k := rq_key (req_of r w)). set (dk := {| nd_key := k; nd_id := w_next w |}).
  change (dk_hk k) with (node_hash dk).
  rewrite (rep_lookup dupreq_tcp_cmpf node_id node_hash _ m dk (ri_rep _ _ _ Hrf)).
  unfold on_drc. apply wp_bind, wp_modify. rewrite set_xt_same.
  destruct (m !! node_id dk) as [n|] eqn:Hm.
  - destruct (ri_node _ _ _ Hrf _ _ Hm) as (e & He & Hn).
    assert (key_id k = key_id (dv_hin e)) as Hk.
    { apply (xr_map _ _ _ _ _ (ri_rep _ _ _ Hrf)) in Hm as [_ E]. rewrite <- Hn in E. by symmetry. }
    pose proof (refs_bound ts w m (nd_id n) e Hts Hrf He) as Hb.
    apply wp_bind, (wp_get_dupreq _ e); [done|].
    destruct (dv_complete e) eqn:Hc; simpl.
    2: destruct (dv_dupe_cnt e + 1 <=? DUPREQ_MAX_DUPES); simpl.
    all: unfold put_dupreq, goto; apply wp_bind, wp_modify.
    + apply wp_bind, (wp_entry_get _ (set_dupes (dv_dupe_cnt e + 1) (dv_dupes e) e)); [simpl; by rewrite lookup_insert_eq|done|].
      apply wp_modify. simpl. rewrite insert_insert_eq. 
      eapply (cache_gain w _ r (nd_id n) e (set_refcnt _ (set_dupes _ _ e))); try done. by right.
    + apply wp_bind, (wp_entry_get _ (set_dupes (dv_dupe_cnt e + 1) (dv_dupes e ++ [r]) e)); [simpl; by rewrite lookup_insert_eq|done|].
      wp_go. rewrite insert_insert_eq. 
      eapply (cache_gain w _ r (nd_id n) e (set_refcnt _ (set_dupes _ _ e))); try done. by left.
    + wp_go. eapply (cache_move w _ r Start {| rq_key := k; rq_pc := Dropped |}); try done; [|by left].
      by eapply (same_entries_insert w _ (nd_id n) e).
  - destruct (cache_new w r m) as (xt' & Hx & Hnew); [done..|]. unfold put_dupreq, goto.
    do 2 apply wp_bind, wp_modify. apply wp_bind, (wp_deref _ (dk, xt')); [done|]. wp_go. apply Hnew.
Qed.
(** ** Every step *)

Lemma wp_retire_put r dv ov cnt w :
  cache_inv w -> r ∈ ts -> pc_of r w = Retire_put dv ov cnt ->
  wp (dupreq_entry_put ov;; goto r (if cnt <? DUPREQ_MAX_RETRIES then Retire_again dv (cnt + 1) else Rele dv))
     (fun _ => cache_inv) w.
Proof using Hts.
  intros Hi Hr Hpc. pose proof (cache_points w r Hi) as Hp. rewrite Hpc in Hp. simpl in Hp.
  destruct (cnt <? DUPREQ_MAX_RETRIES); eapply (wp_put r (Retire_put dv ov cnt)); try done; try by right.
  - intros es Hpt Hs. exact (status_points _ _ (Retire_again dv (cnt + 1)) Hpt Hs).
  - simpl. intros x e [= <-] He Hc. rewrite (Hp e He) in Hc. done.
Qed.

Lemma wp_request_step r i w :
  cache_inv w -> r ∈ ts -> wp (request_step r i) (fun _ => cache_inv) w.
Proof using Hts.
  intros Hi Hr. pose proof (cache_points w r Hi) as Hp. unfold request_step. apply wp_bind, wp_gets.
  destruct (pc_of r w) eqn:Hpc; try (by apply wp_ret).
  - destruct i; try (by apply wp_ret). by apply wp_enter.
  - by apply wp_start.
  - by apply wp_start_window.
  - by apply wp_start_enqueue.
  - by apply wp_process.
  - destruct i; try (by apply wp_ret). by apply wp_complete.
  - by apply wp_finish.
  - by apply wp_finish_drc.
  - by apply wp_finish_dequeue.
  - by eapply (wp_remove_from_tree r (Retire_remove dv ov cnt)).
  - by apply wp_retire_put.
  - apply wp_dq_again; auto.
  - by apply wp_delete.
  - by apply wp_delete_dequeue.
  - by eapply (wp_remove_from_tree r (Delete_remove dv)).
  - eapply (wp_put r (Delete_put dv)); try done. by right.
  - destruct i; try (by apply wp_ret). by apply wp_replay.
  - by apply wp_resume.
  - by apply wp_rele.
  - eapply (wp_put r (Put dv)); try done. by left.
  - by apply wp_leave.
Qed.

Lemma drc_reachable_inv npart cachesz maxsize hiwat w :
  drc_reachable npart cachesz maxsize hiwat ts w -> cache_inv w.
Proof using Hts.
  induction 1 as [|w w' _ IH [r i Hr Hstep|Hstep]].
  - exists ∅. split_and!; [apply refs_init|apply own_init|apply log_init].
  - destruct (proj1 (wp_run _ _ _) (wp_request_step r i w IH Hr)) as (a & w0 & E & Hi). congruence.
  - destruct (proj1 (wp_run _ _ _) (wp_window w IH)) as (a & w0 & E & Hi). congruence.
Qed.
End steps.

(** ** A step moves one request *)

(** What [view] shows of others than [r] is the same after [m]. *)
Definition keeps {W X A} (view : positive -> W -> X) (r : positive) (m : M W A) : Prop :=
  forall w a w', m w = Some (a, w') -> forall r', r' <> r -> view r' w' = view r' w.

Section keeps.
Context {W X : Type} (view : positive -> W -> X).

Lemma keeps_bind {A B} r (m : M W A) (f : A -> M W B) :
  keeps view r m -> (forall a, keeps view r (f a)) -> keeps view r (mbind f m).
Proof.
  intros Hm Hf w b w' E r' Hne. unfold mbind, M_bind in E. destruct (m w) as [[a w1]|] eqn:E1; [|done].
  by rewrite (Hf a w1 b w' E r' Hne), (Hm w a w1 E1 r' Hne).
Qed.
Lemma keeps_ret {A} r (a : A) : keeps view r (mret a).
Proof. by intros w b w' [= _ <-] r' _. Qed.
Lemma keeps_gets {A} r (f : W -> A) : keeps view r (gets f).
Proof. by intros w b w' [= _ <-] r' _. Qed.
Lemma keeps_deref {A} r (o : option A) : keeps view r (deref o).
Proof. destruct o; [apply keeps_ret|by intros w b w' E]. Qed.
Lemma keeps_undef {A} r : keeps view r (undef (A := A)).
Proof. by intros w b w' E. Qed.
Lemma keeps_modify r f : (forall w r', r' <> r -> view r' (f w) = view r' w) -> keeps view r (modify f).
Proof. intros Hf w b w' [= _ <-] r' Hne. by apply Hf. Qed.
Lemma keeps_mwhen r b (m : M W unit) : keeps view r m -> keeps view r (mwhen b m).
Proof. intros Hm. destruct b; [done|apply keeps_ret]. Qed.
End keeps.

Ltac keep_step :=
  lazymatch goal with
  | |- keeps _ _ (mbind _ _) => apply keeps_bind; [|intros ?]
  | |- keeps _ _ (mret _) => apply keeps_ret
  | |- keeps _ _ (gets _) => apply keeps_gets
  | |- keeps _ _ (deref _) => apply keeps_deref
  | |- keeps _ _ undef => apply keeps_undef
  | |- keeps _ _ (mwhen _ _) => apply keeps_mwhen
  | |- keeps _ _ (modify _) => apply keeps_modify; intros ? ? ?; simpl; try done; by rewrite lookup_insert_ne
  | |- keeps _ _ (match ?x with _ => _ end) => destruct x
  end.

(** No request but [r] moves. *)
Definition request_at (r : positive) (w : world) : option nfs_request_t := w_reqs w !! r.

Lemma keeps_entry_put r dv : keeps request_at r (dupreq_entry_put dv).
Proof. unfold request_at, dupreq_entry_put, nfs_dupreq_free_dupreq, put_dupreq, get_dupreq. repeat keep_step. Qed.
Lemma keeps_start r : keeps request_at r (nfs_dupreq_start r).
Proof. unfold request_at, nfs_dupreq_start, dupreq_entry_get, put_dupreq, get_dupreq, on_drc, goto. repeat keep_step. Qed.
Lemma keeps_sendreply r dv sent : keeps request_at r (svc_sendreply r dv sent).
Proof. unfold request_at, svc_sendreply, get_dupreq. repeat keep_step. Qed.

(** [nfs_dupreq_rele] resumes only a request that waits. *)
Lemma rele_idle ts r dv w w' r' :
  cache_inv ts w -> pc_of r w = Rele dv -> nfs_dupreq_rele r dv w = Some (tt, w') -> r' <> r ->
  pc_of r' w = Idle -> pc_of r' w' = Idle.
Proof.
  intros Hi Hpc E Hne Hp. destruct (owned_entry ts w r dv Hi) as (e & He & _); [by rewrite Hpc|].
  pose proof Hi as (m & Hr & _). unfold nfs_dupreq_rele, get_dupreq, mbind, M_bind, gets, deref in E. rewrite He in E.
  simpl in E. destruct (dv_dupes e) as [|req2 rest] eqn:Hd; unfold goto, put_dupreq, modify in E; simpl in E;
    injection E as <-; unfold pc_of, req_of in *; simpl in *.
  - by rewrite lookup_insert_ne.
  - rewrite lookup_insert_ne by done. destruct (decide (r' = req2)) as [->|Hne2]; [|by rewrite lookup_insert_ne].
    assert (pc_of req2 w = Queued dv) as Hq; [|unfold pc_of, req_of in Hq; congruence].
    apply (ri_queued _ _ _ Hr). exists e. split; [done|]. rewrite Hd. left.
Qed.

(** A step of [r] brings no other request into the call path. *)
Lemma request_step_idle ts r i w w' r' :
  cache_inv ts w -> request_step r i w = Some (tt, w') -> r' <> r -> pc_of r' w = Idle -> pc_of r' w' = Idle.
Proof.
  intros Hi E Hne Hp. unfold request_step in E. unfold mbind at 1, M_bind at 1, gets at 1 in E. cbv beta iota in E.
  destruct (pc_of r w) eqn:Hpc; cbv beta iota in E; try (by eapply rele_idle).
  all: match type of E with ?m _ = Some _ => assert (keeps request_at r m) as Hk end;
    [|specialize (Hk w tt w' E r' Hne); unfold request_at, pc_of, req_of in *; by rewrite Hk].
  all: unfold start_window, start_enqueue, process_request, complete_request, nfs_dupreq_finish, dq_again,
    finish_dequeue, remove_from_tree, nfs_dupreq_delete, delete_dequeue, drc_resume, get_dupreq, put_dupreq, on_drc, goto.
  all: try apply keeps_start; unfold request_at; repeat (keep_step || apply keeps_entry_put || apply keeps_sendreply).
Qed.

(** ** What the cache guarantees *)

(** The tree of the cache finds the entry under its key. *)
Definition in_cache (w : world) (dv : positive) (e : dupreq_entry) : bool :=
  bool_decide ((rbtree_x_cached_lookup dupreq_tcp_cmpf (drc_xt (w_drc w)) (node_of dv e) (dk_hk (dv_hin e))).1 =
               Some (node_of dv e)).

Lemma in_cache_tree ts w m dv e :
  refs_inv ts w m -> w_entries w !! dv = Some e -> in_cache w dv e = in_tree (w_entries w) m dv.
Proof.
  intros Hr He. unfold in_cache, in_tree. rewrite He. change (dk_hk (dv_hin e)) with (node_hash (node_of dv e)).
  by rewrite (rep_lookup dupreq_tcp_cmpf node_id node_hash _ m _ (ri_rep _ _ _ Hr)).
Qed.

Section reached.
Context (npart cachesz maxsize hiwat : Z) (ts : gset positive) (Hts : 2 * Z.of_nat (size ts) + 2 < 2 ^ 31).

(** C30: whatever the requests do and however their critical sections interleave: the next
    step of every request is defined, so that no freed entry is used, no assertion on
    a count fails and no result is sent that was not written; every entry is counted
    exactly by the requests that have it, by the tree, and by the request that is
    about to release the reference of the tree; the size of the queue is right. *)
Theorem dupreq_entries_safe w :
  drc_reachable npart cachesz maxsize hiwat ts w ->
  (forall r i, r ∈ ts -> exists w', request_step r i w = Some (tt, w')) /\
  (exists w', window_step w = Some (tt, w')) /\
  (forall dv e, w_entries w !! dv = Some e ->
     dv_refcnt e = nreq own dv w + nreq puts dv w + Z.b2z (in_cache w dv e) /\ 1 <= dv_refcnt e) /\
  (forall dv, dv ∈ drc_dupreq_q (w_drc w) -> exists e, w_entries w !! dv = Some e /\ in_cache w dv e = true) /\
  drc_size (w_drc w) = u32 (Z.of_nat (length (drc_dupreq_q (w_drc w)))).
Proof using Hts.
  intros Hw. apply (drc_reachable_inv ts Hts) in Hw. pose proof Hw as (m & Hr & _ & _). split_and!.
  - intros r i Hin. destruct (proj1 (wp_run _ _ _) (wp_request_step ts Hts r i w Hw Hin)) as ([] & w' & E & _). eauto.
  - destruct (proj1 (wp_run _ _ _) (wp_window ts w Hw)) as ([] & w' & E & _). eauto.
  - intros dv e He. rewrite (in_cache_tree ts w m dv e Hr He). pose proof (ri_refs _ _ _ Hr dv) as Hc.
    unfold refcount in Hc. rewrite He in Hc. split; [lia|]. by eapply ri_pos.
  - intros dv Hq. pose proof (refs_linked ts w m dv Hr Hq) as Ht. destruct (in_tree_entry _ _ _ Ht) as [e He].
    exists e. by rewrite (in_cache_tree ts w m dv e Hr He).
  - apply Hr.
Qed.

(** When no request is in the call path, every entry is in the queue and its count is
    one: what [drc_free_expired] asserts before it frees them. *)
Lemma entries_at_rest w :
  cache_inv ts w -> (forall r, own (pc_of r w) = None) ->
  forall dv e, w_entries w !! dv = Some e -> dv ∈ drc_dupreq_q (w_drc w) /\ dv_refcnt e = 1.
Proof.
  intros (m & Hr & _ & _) Hrest dv e He.
  assert (forall f, f Idle = None -> (forall pc, own pc = None -> f pc = None) -> nreq f dv w = 0) as H0.
  { intros f Hf Hfo. apply nreq_zero; [done|]. intros r. by rewrite Hfo. }
  pose proof (ri_refs _ _ _ Hr dv) as Hc. pose proof (ri_links _ _ _ Hr dv) as Hl. pose proof (ri_pos _ _ _ Hr dv e He).
  unfold refcount in Hc. rewrite He in Hc. rewrite (H0 own), (H0 puts) in Hc by (try done; by intros []).
  rewrite (H0 unlinked) in Hl by (try done; by intros []).
  destruct (in_tree (w_entries w) m dv); simpl in *; [|lia]. split; [|lia].
  case_bool_decide; simpl in Hl; [done|lia].
Qed.

Lemma log_ok_app l1 l2 : log_ok (l1 ++ l2) -> log_ok l2.
Proof. induction l1 as [|[] l1 IH]; simpl; [done|tauto..]. Qed.

Lemma log_ok_same l k k' dv a b : log_ok l -> Replied k dv a ∈ l -> Replied k' dv b ∈ l -> a = b.
Proof.
  induction l as [|ev l IH]; [by intros _ ?%elem_of_nil|]. intros Hl Ha Hb.
  apply elem_of_cons in Ha as [<-|Ha]; apply elem_of_cons in Hb as [Eb|Hb].
  - by simplify_eq.
  - destruct Hl as (_ & Hs & _). symmetry. eauto.
  - subst ev. destruct Hl as (_ & Hs & _). eauto.
  - destruct ev; simpl in Hl; apply IH; tauto.
Qed.

(** C31: a request is answered only with a result that was computed for a request with the
    same transaction id and checksum; once an answer has been sent the entry is never
    executed again; all answers of one entry are the same. *)
Theorem dupreq_answered_once w :
  drc_reachable npart cachesz maxsize hiwat ts w ->
  (forall l1 k dv a l2, w_log w = l1 ++ Replied k dv a :: l2 ->
     exists k', Executed k' dv a ∈ l2 /\ key_id k' = key_id k) /\
  (forall l1 k dv a l2 k' b, w_log w = l1 ++ Executed k dv a :: l2 -> Replied k' dv b ∉ l2) /\
  (forall k k' dv a b, Replied k dv a ∈ w_log w -> Replied k' dv b ∈ w_log w -> a = b).
Proof using Hts.
  intros Hw. apply (drc_reachable_inv ts Hts) in Hw as (m & _ & _ & Hl). pose proof (lg_ok _ Hl) as Hok. split_and!.
  - intros l1 k dv a l2 E. rewrite E in Hok. by apply log_ok_app in Hok as (? & _).
  - intros l1 k dv a l2 k' b E. rewrite E in Hok. apply log_ok_app in Hok as [Hno _]. apply Hno.
  - intros *. by apply log_ok_same.
Qed.

(** While the entry of a request is in the cache, a request with the same transaction
    id and checksum is not executed: it waits in the entry, is answered from it, or
    is dropped. *)
Theorem dupreq_cached_not_executed w dv e r i :
  drc_reachable npart cachesz maxsize hiwat ts w -> dv ∈ drc_dupreq_q (w_drc w) -> w_entries w !! dv = Some e ->
  r ∈ ts -> pc_of r w = Start -> key_id (rq_key (req_of r w)) = key_id (dv_hin e) ->
  exists w', request_step r i w = Some (tt, w') /\
    (pc_of r w' = Queued dv \/ (dv_complete e = true /\ pc_of r w' = Start_window dv) \/ pc_of r w' = Dropped).
Proof using Hts.
  intros Hw Hq He Hr Hpc Hk. apply (drc_reachable_inv ts Hts) in Hw as (m & Hrf & _ & _).
  pose proof (refs_linked ts w m dv Hrf Hq) as Ht. unfold in_tree in Ht. rewrite He in Ht.
  apply bool_decide_eq_true in Ht.
  assert (wp (request_step r i) (fun _ w' => pc_of r w' = Queued dv \/
            (dv_complete e = true /\ pc_of r w' = Start_window dv) \/ pc_of r w' = Dropped) w) as Hwp.
  { unfold request_step. apply wp_bind, wp_gets. rewrite Hpc. unfold nfs_dupreq_start.
    apply wp_bind, wp_gets. unfold id. set (k := rq_key (req_of r w)).
    set (dk := {| nd_key := k; nd_id := w_next w |}). change (dk_hk k) with (node_hash dk).
    rewrite (rep_lookup dupreq_tcp_cmpf node_id node_hash _ m dk (ri_rep _ _ _ Hrf)).
    unfold on_drc. apply wp_bind, wp_modify. rewrite set_xt_same.
    change (node_id dk) with (key_id k). fold k in Hk. rewrite Hk, Ht. simpl.
    assert (forall w' pc, pc_of r (set_request r {| rq_key := rq_key (req_of r w'); rq_pc := pc |} w') = pc) as Hat
      by (intros; unfold pc_of, req_of; simpl; by rewrite lookup_insert_eq).
    pose proof (refs_bound ts w m dv e Hts Hrf He) as Hb.
    apply wp_bind, (wp_get_dupreq _ e); [done|].
    destruct (dv_complete e) eqn:Hc; simpl; [|destruct (dv_dupe_cnt e + 1 <=? DUPREQ_MAX_DUPES); simpl];
      unfold put_dupreq, goto; apply wp_bind, wp_modify.
    - apply wp_bind, (wp_entry_get _ (set_dupes (dv_dupe_cnt e + 1) (dv_dupes e) e)); [simpl; by rewrite lookup_insert_eq|done|].
      apply wp_modify. rewrite Hat. auto.
    - apply wp_bind, (wp_entry_get _ (set_dupes (dv_dupe_cnt e + 1) (dv_dupes e ++ [r]) e)); [simpl; by rewrite lookup_insert_eq|done|].
      apply wp_bind, wp_modify, wp_modify. rewrite Hat. auto.
    - apply wp_modify. rewrite Hat. auto. }
  apply wp_run in Hwp as ([] & w' & E & Hw'). eauto.
Qed.

(** A duplicate that waited is never resumed to send the reply again, although
    [drc_resume] has a case for it: [nfs_dupreq_finish] does not record that the reply
    could not be sent when duplicates wait. *)
Theorem dupreq_never_resent w :
  drc_reachable npart cachesz maxsize hiwat ts w ->
  (forall r dv, pc_of r w <> Resend dv) /\
  (forall r dv e, pc_of r w = Resume dv -> w_entries w !! dv = Some e -> dv_rc e <> NFS_REQ_XPRT_DIED).
Proof using Hts.
  intros Hw. apply (drc_reachable_inv ts Hts) in Hw. split.
  - intros r dv Hpc. pose proof (cache_points ts w r Hw) as Hp. by rewrite Hpc in Hp.
  - destruct Hw as (m & _ & Ho & _). intros r dv e Hpc He E. destruct (oi_died _ Ho dv e He E) as (_ & _ & H0).
    pose proof (nreq_pos resumed dv r w eq_refl ltac:(by rewrite Hpc)). lia.
Qed.
End reached.

(** ** Which compounds are cached *)

(** Operations that make a compound cached whatever else it holds: those that create,
    and LAYOUTCOMMIT, whose bit is that of CREATE. *)
Definition always_cached (op : argop4) : bool :=
  match op with A_CREATE | A_OPEN true | A_LAYOUTCOMMIT => true | _ => false end.

(** Operations that otherwise keep it out of the cache: the ones the code lists, and
    LOOKUP, LOOKUPP and SETCLIENTID_CONFIRM, which have the bits of READDIR and LOCK. *)
Definition never_cached (op : argop4) : bool :=
  match op with
  | A_OPEN _ | A_OPEN_CONFIRM | A_OPEN_DOWNGRADE | A_CLOSE | A_LOCK | A_LOCKU | A_READ | A_READ_PLUS
  | A_READLINK | A_READDIR | A_LOOKUP | A_LOOKUPP | A_SETCLIENTID_CONFIRM => true
  | _ => false
  end.

Lemma lookahead_mask mask f ops :
  (forall op, negb (Z.land (argop4_lookahead op) mask =? 0) = f op) ->
  negb (Z.land (compound_lookahead ops) mask =? 0) = existsb f ops.
Proof.
  intros Hf. induction ops as [|op ops IH]; [done|]. unfold compound_lookahead in *. simpl.
  rewrite Z.land_lor_distr_l, <- Hf, <- IH. set (a := Z.land _ mask). set (b := Z.land _ mask).
  destruct (Z.eqb_spec (Z.lor a b) 0) as [E|E].
  - apply Z.lor_eq_0_iff in E as [-> ->]. done.
  - destruct (Z.eqb_spec a 0) as [->|]; [|done]. rewrite Z.lor_0_l in E. by destruct (Z.eqb_spec b 0).
Qed.

(** Exactly which compounds go through the cache, from the bits the decoder sets for
    their operations: those of minor version 0 that hold an operation that is always
    cached, or none that never is. *)
Theorem v4_cacheable_exact can_be_dup disabled minorversion ops :
  dupreq_wanted can_be_dup disabled true minorversion (compound_lookahead ops) =
  can_be_dup && negb disabled && negb (0 <? minorversion) &&
  (existsb always_cached ops || negb (existsb never_cached ops)).
Proof.
  unfold dupreq_wanted. destruct can_be_dup, disabled; try done. simpl.
  unfold nfs_dupreq_v4_cacheable. destruct (0 <? minorversion); [done|].
  rewrite (lookahead_mask _ always_cached) by (by intros [| | | | | | |[]| | | | | | | | | | | | | | |]).
  rewrite (lookahead_mask _ never_cached) by (by intros [| | | | | | |[]| | | | | | | | | | | | | | |]).
  by destruct (existsb always_cached ops), (existsb never_cached ops).
Qed.
