(* ===== verification/DrcRecycle.v ===== *)
(** * The caches of connections

    [RPCAL/nfs_dupreq.c]: which duplicate request cache a connection uses.  A cache is
    found by the address of the client, so that a client that reconnects gets the
    cache it had; it is counted by its connections and by the requests in their call
    path.  A cache without references waits in a queue and is freed when it has been
    there too long.  The requests inside a cache are those of [Dupreq].

    A step is a critical section of [drc_st_mtx] or of [drc_mtx]; [drc_st_mtx] is
    taken first where both are. *)
From S2P Require Import Prelude Compound RbtreeX Dupreq DupreqInv DupreqTheorems.
Local Open Scope Z_scope.

#[export] Instance sockaddr_storage_countable : Countable sockaddr_storage.
Proof.
  refine (inj_countable' (fun a => (ss_family a, sin_port a, sin_addr a, sin6_addr a))
            (fun '(f, p, a, s) => {| ss_family := f; sin_port := p; sin_addr := a; sin6_addr := s |}) _).
  by intros [].
Defined.

(** A cache with the members of [drc_t] that serve its life; [dc_world] is its inside. *)
Record drc_obj : Type := {
  dc_world : world;
  dc_addr : sockaddr_storage;
  dc_refcnt : Z;
  dc_recycle : bool;                    (* flags & DRC_FLAG_RECYCLE *)
  dc_recycle_time : Z
}.

Record svcxprt : Type := {
  xp_addr : sockaddr_storage;
  xp_u2 : option positive;
  xp_open : bool
}.

(** Where a thread is that works for a request, or destroys a connection. *)
Inductive conn_pc : Set :=
  | C_idle
  | C_get (x : positive)                (* nfs_dupreq_get_drc, about to look at xp_u2 *)
  | C_slow (x : positive)               (* xp_u2 was NULL *)
  | C_expire (x d : positive)           (* drc_free_expired *)
  | C_in (x d : positive)               (* the DRC is referenced *)
  | C_dropped (d : positive)            (* gone after DUPREQ_DROP *)
  | C_recycle (d : positive)            (* nfs_dupreq_put_drc, the count is 0 *)
  | C_unlock (d : positive).            (* its last PTHREAD_MUTEX_unlock *)

(** [struct drc_st] with all caches and connections.  [st_recycle_t] is the tree of the
    caches by address, which is right for addresses that [sockaddr_cmpf] orders: those
    of one family, with the bytes it does not read equal. *)
Record drc_st : Type := {
  st_drcs : gmap positive drc_obj;
  st_next : positive;
  st_xprts : gmap positive svcxprt;
  st_recycle_t : gmap sockaddr_storage positive;
  st_recycle_q : list positive;
  st_recycle_qlen : Z;
  st_last_check : Z;
  st_pcs : gmap positive conn_pc
}.

Definition conn_of (r : positive) (s : drc_st) : conn_pc := default C_idle (st_pcs s !! r).

Definition set_obj (d : positive) (o : drc_obj) (s : drc_st) : drc_st :=
  {| st_drcs := <[d := o]> (st_drcs s); st_next := st_next s; st_xprts := st_xprts s;
     st_recycle_t := st_recycle_t s; st_recycle_q := st_recycle_q s; st_recycle_qlen := st_recycle_qlen s;
     st_last_check := st_last_check s; st_pcs := st_pcs s |}.
Definition set_xprt (x : positive) (xp : svcxprt) (s : drc_st) : drc_st :=
  {| st_drcs := st_drcs s; st_next := st_next s; st_xprts := <[x := xp]> (st_xprts s);
     st_recycle_t := st_recycle_t s; st_recycle_q := st_recycle_q s; st_recycle_qlen := st_recycle_qlen s;
     st_last_check := st_last_check s; st_pcs := st_pcs s |}.
Definition set_recycle (q : list positive) (n : Z) (s : drc_st) : drc_st :=
  {| st_drcs := st_drcs s; st_next := st_next s; st_xprts := st_xprts s;
     st_recycle_t := st_recycle_t s; st_recycle_q := q; st_recycle_qlen := n;
     st_last_check := st_last_check s; st_pcs := st_pcs s |}.
Definition set_last_check (t : Z) (s : drc_st) : drc_st :=
  {| st_drcs := st_drcs s; st_next := st_next s; st_xprts := st_xprts s;
     st_recycle_t := st_recycle_t s; st_recycle_q := st_recycle_q s; st_recycle_qlen := st_recycle_qlen s;
     st_last_check := t; st_pcs := st_pcs s |}.
Definition set_conn (r : positive) (pc : conn_pc) (s : drc_st) : drc_st :=
  {| st_drcs := st_drcs s; st_next := st_next s; st_xprts := st_xprts s;
     st_recycle_t := st_recycle_t s; st_recycle_q := st_recycle_q s; st_recycle_qlen := st_recycle_qlen s;
     st_last_check := st_last_check s; st_pcs := <[r := pc]> (st_pcs s) |}.
(** A cache enters the table of addresses, or leaves it and is freed. *)
Definition add_drc (d : positive) (o : drc_obj) (s : drc_st) : drc_st :=
  {| st_drcs := <[d := o]> (st_drcs s); st_next := Pos.succ d; st_xprts := st_xprts s;
     st_recycle_t := <[dc_addr o := d]> (st_recycle_t s); st_recycle_q := st_recycle_q s;
     st_recycle_qlen := st_recycle_qlen s; st_last_check := st_last_check s; st_pcs := st_pcs s |}.
Definition del_drc (d : positive) (o : drc_obj) (s : drc_st) : drc_st :=
  {| st_drcs := delete d (st_drcs s); st_next := st_next s; st_xprts := st_xprts s;
     st_recycle_t := delete (dc_addr o) (st_recycle_t s); st_recycle_q := st_recycle_q s;
     st_recycle_qlen := st_recycle_qlen s; st_last_check := st_last_check s; st_pcs := st_pcs s |}.

Definition with_drc_refcnt (n : Z) (o : drc_obj) : drc_obj :=
  {| dc_world := dc_world o; dc_addr := dc_addr o; dc_refcnt := n; dc_recycle := dc_recycle o;
     dc_recycle_time := dc_recycle_time o |}.
Definition with_recycle (b : bool) (t : Z) (o : drc_obj) : drc_obj :=
  {| dc_world := dc_world o; dc_addr := dc_addr o; dc_refcnt := dc_refcnt o; dc_recycle := b;
     dc_recycle_time := t |}.
Definition with_world (w : world) (o : drc_obj) : drc_obj :=
  {| dc_world := w; dc_addr := dc_addr o; dc_refcnt := dc_refcnt o; dc_recycle := dc_recycle o;
     dc_recycle_time := dc_recycle_time o |}.

Definition get_drc (d : positive) : M drc_st drc_obj := o ← gets st_drcs; deref (o !! d).
Definition get_xprt (x : positive) : M drc_st svcxprt := xs ← gets st_xprts; deref (xs !! x).

Section params.
(** The parameters of [nfs_param.core_param.drc] and [drc_st->expire_delta]. *)
Context (npart cachesz maxsize hiwat recycle_hiwat expire_delta : Z).

Definition nfs_dupreq_ref_drc (o : drc_obj) : drc_obj := with_drc_refcnt (u32 (dc_refcnt o + 1)) o.
Definition nfs_dupreq_unref_drc (o : drc_obj) : drc_obj := with_drc_refcnt (u32 (dc_refcnt o - 1)) o.

(** A run of the requests inside the cache [d]. *)
Definition inside (d : positive) (m : M world unit) : M drc_st unit :=
  o ← get_drc d;
  match m (dc_world o) with
  | Some (_, w) => modify (set_obj d (with_world w o))
  | None => undef
  end.

(** [nfs_dupreq_get_drc] when [xp_u2] is set: the call path takes a reference. *)
Definition get_drc_fast (r x d : positive) : M drc_st unit :=
  o ← get_drc d;
  modify (set_obj d (nfs_dupreq_ref_drc o));;
  modify (set_conn r (C_in x d)).

(** It looks at [xp_u2]. *)
Definition get_drc_look (r x : positive) : M drc_st unit :=
  xp ← get_xprt x;
  match xp_u2 xp with
  | Some d => get_drc_fast r x d
  | None => modify (set_conn r (C_slow x))
  end.

(** Its section of [drc_st_mtx], with the reference of the call path that it takes
    under [drc_mtx] before anything else can see the cache. *)
Definition get_drc_slow (r x : positive) : M drc_st unit :=
  xp ← get_xprt x;
  match xp_u2 xp with
  | Some _ => modify (set_conn r (C_get x))
  | None =>
      s ← gets id;
      let attach d o :=
        modify (set_xprt x {| xp_addr := xp_addr xp; xp_u2 := Some d; xp_open := xp_open xp |});;
        modify (set_obj d (nfs_dupreq_ref_drc (with_recycle (dc_recycle o) 0 (nfs_dupreq_ref_drc o))));;
        modify (set_conn r (C_expire x d)) in
      match st_recycle_t s !! xp_addr xp with
      | Some d =>
          o ← get_drc d;
          if dc_refcnt o =? 0 then
            if negb (dc_recycle o) then modify (set_conn r (C_get x))
            else
              modify (set_recycle (remove_id d (st_recycle_q s)) (st_recycle_qlen s - 1));;
              attach d (with_recycle false (dc_recycle_time o) o)
          else attach d o
      | None =>
          let d := st_next s in
          let o := {| dc_world := drc_world (alloc_tcp_drc npart cachesz maxsize hiwat);
                      dc_addr := xp_addr xp; dc_refcnt := 0; dc_recycle := false; dc_recycle_time := 0 |} in
          modify (add_drc d o);;
          attach d o
      end
  end.

(** The entries of a cache that is freed. *)
Fixpoint free_entries (l : list positive) : M world unit :=
  match l with
  | [] => mret tt
  | dv :: l =>
      e ← get_dupreq dv;
      if negb (dv_refcnt e =? 1) then undef
      else dupreq_entry_put dv;; free_entries l
  end.

(** The loop of [drc_free_expired] over the queue [q]. *)
Fixpoint free_loop (now : Z) (q : list positive) : M drc_st unit :=
  s ← gets id;
  let over := recycle_hiwat <? st_recycle_qlen s in
  match q with
  | [] => if over then undef else modify (set_last_check now)
  | d :: q' =>
      o ← get_drc d;
      if (0 <? dc_recycle_time o) && (expire_delta <? now - dc_recycle_time o) || over then
        if negb (dc_refcnt o =? 0) then undef
        else
          match free_entries (drc_dupreq_q (w_drc (dc_world o))) (dc_world o) with
          | None => undef
          | Some _ =>
              modify (set_recycle q' (st_recycle_qlen s - 1));;
              modify (del_drc d o);;
              free_loop now q'
          end
      else modify (set_last_check now)
  end.

Definition drc_free_expired (now : Z) : M drc_st unit :=
  s ← gets id;
  if ((st_recycle_qlen s <? 1) || (now - st_last_check s <? 600)) && negb (recycle_hiwat <? st_recycle_qlen s)
  then mret tt
  else free_loop now (st_recycle_q s).

(** [nfs_dupreq_put_drc], its first section; a thread that is not the last is done. *)
Definition nfs_dupreq_put_drc (r d : positive) : M drc_st unit :=
  o ← get_drc d;
  let o' := nfs_dupreq_unref_drc o in
  modify (set_obj d o');;
  if negb (dc_refcnt o' =? 0) then modify (set_conn r C_idle) else modify (set_conn r (C_recycle d)).

(** Its second section, at time [now]. *)
Definition put_drc_recycle (r d : positive) (now : Z) : M drc_st unit :=
  o ← get_drc d;
  (if (dc_refcnt o =? 0) && negb (dc_recycle o) then
     modify (set_obj d (with_recycle true now o));;
     modify (fun s => set_recycle (st_recycle_q s ++ [d]) (st_recycle_qlen s + 1) s)
   else mret tt);;
  modify (set_conn r (C_unlock d)).

(** [nfs_rpc_free_user_data], when the connection is destroyed. *)
Definition nfs_rpc_free_user_data (r x : positive) : M drc_st unit :=
  xp ← get_xprt x;
  modify (set_xprt x {| xp_addr := xp_addr xp; xp_u2 := None; xp_open := false |});;
  match xp_u2 xp with
  | Some d => nfs_dupreq_put_drc r d
  | None => mret tt
  end.

(** The connection that a thread works for. *)
Definition on_xprt (pc : conn_pc) : option positive :=
  match pc with C_get x | C_slow x | C_expire x _ | C_in x _ => Some x | _ => None end.

(** Threads that leave a cache still use its mutex: the one that queued it, and those
    that queued a request in it and have not extended the window.  The model frees a
    cache when they have left it, which the time a cache stays in the queue is to
    ensure. *)
Definition drc_settled (s : drc_st) (d : positive) : Prop :=
  (forall r, conn_of r s <> C_unlock d) /\
  forall o, st_drcs s !! d = Some o -> w_windows (dc_world o) = O.

(** The steps of a thread [r]; [k] is the key of the request. *)
Inductive conn_step (r : positive) (s : drc_st) : M drc_st unit -> Prop :=
  | cs_accept x a : st_xprts s !! x = None ->
      conn_step r s (modify (set_xprt x {| xp_addr := a; xp_u2 := None; xp_open := true |}))
  | cs_request x xp : conn_of r s = C_idle -> st_xprts s !! x = Some xp -> xp_open xp = true ->
      conn_step r s (modify (set_conn r (C_get x)))
  | cs_look x : conn_of r s = C_get x -> conn_step r s (get_drc_look r x)
  | cs_slow x : conn_of r s = C_slow x -> conn_step r s (get_drc_slow r x)
  | cs_expire x d now : conn_of r s = C_expire x d -> 0 < now ->
      (forall d', d' ∈ st_recycle_q s -> drc_settled s d') ->
      conn_step r s (drc_free_expired now;; modify (set_conn r (C_in x d)))
  | cs_inside x d i o : conn_of r s = C_in x d -> st_drcs s !! d = Some o ->
      pc_of r (dc_world o) <> Put_drc -> pc_of r (dc_world o) <> Dropped ->
      conn_step r s (inside d (request_step r i))
  | cs_window d : conn_step r s (match st_drcs s !! d with Some _ => inside d window_step | None => mret tt end)
  | cs_put x d o : conn_of r s = C_in x d -> st_drcs s !! d = Some o -> pc_of r (dc_world o) = Put_drc ->
      conn_step r s (inside d (request_step r In_none);; nfs_dupreq_put_drc r d)
  | cs_drop x d o : conn_of r s = C_in x d -> st_drcs s !! d = Some o -> pc_of r (dc_world o) = Dropped ->
      conn_step r s (modify (set_conn r (C_dropped d)))
  | cs_recycle d now : conn_of r s = C_recycle d -> 0 < now -> conn_step r s (put_drc_recycle r d now)
  | cs_unlock d : conn_of r s = C_unlock d ->
      conn_step r s (_ ← get_drc d; modify (set_conn r C_idle))
  | cs_destroy x xp : conn_of r s = C_idle -> st_xprts s !! x = Some xp -> xp_open xp = true ->
      (forall r', on_xprt (conn_of r' s) <> Some x) ->
      conn_step r s (nfs_rpc_free_user_data r x).

Definition st_init : drc_st :=
  {| st_drcs := ∅; st_next := 1; st_xprts := ∅; st_recycle_t := ∅; st_recycle_q := []; st_recycle_qlen := 0;
     st_last_check := 0; st_pcs := ∅ |}.

(** One step of a thread of [ts], among connections of [xs]. *)
Definition conn_next (ts xs : gset positive) (s s' : drc_st) : Prop :=
  exists r m, r ∈ ts /\ conn_step r s m /\ m s = Some (tt, s') /\ dom (st_xprts s') ⊆ xs.

Definition st_reachable (ts xs : gset positive) (s : drc_st) : Prop := rtc (conn_next ts xs) st_init s.
End params.
