(* ===== verification/DrcRecycleInv.v ===== *)
(** * The life of the caches of connections

    What holds of [DrcRecycle] whatever the threads do: the references to a cache are
    counted exactly, the queue holds the caches without references, and only those are
    freed. *)
From S2P Require Import Prelude Compound RbtreeX Dupreq DupreqInv DupreqTheorems DrcRecycle.
Local Open Scope Z_scope.

(** The cache that a thread holds a reference to: in the call path, or for good after
    [DUPREQ_DROP]. *)
Definition holds (pc : conn_pc) : option positive :=
  match pc with C_expire _ d | C_in _ d | C_dropped d => Some d | _ => None end.
(** The cache that a thread is about to queue, or whose mutex it still has. *)
Definition recycles (pc : conn_pc) : option positive := match pc with C_recycle d => Some d | _ => None end.
Definition unlocks (pc : conn_pc) : option positive := match pc with C_unlock d => Some d | _ => None end.

Definition nconn (f : conn_pc -> option positive) (d : positive) (s : drc_st) : Z :=
  count_threads (fun pc => bool_decide (f pc = Some d)) (st_pcs s).
Definition nxprt (d : positive) (s : drc_st) : Z :=
  count_threads (fun xp => bool_decide (xp_u2 xp = Some d)) (st_xprts s).

Lemma nconn_insert f d r pc s s' :
  f C_idle = None -> st_pcs s' = <[r := pc]> (st_pcs s) ->
  nconn f d s' = nconn f d s - Z.b2z (bool_decide (f (conn_of r s) = Some d)) + Z.b2z (bool_decide (f pc = Some d)).
Proof.
  intros Hf E. unfold nconn. rewrite E. apply (count_threads_insert C_idle). by rewrite Hf.
Qed.

Lemma nconn_pos f d r s : f C_idle = None -> f (conn_of r s) = Some d -> 0 < nconn f d s.
Proof.
  intros Hf Hr. apply (count_threads_pos C_idle _ r); [by rewrite Hf|]. by apply bool_decide_eq_true.
Qed.

Lemma conn_of_insert r pc s s' r' :
  st_pcs s' = <[r := pc]> (st_pcs s) -> conn_of r' s' = if decide (r = r') then pc else conn_of r' s.
Proof. unfold conn_of. intros ->. rewrite lookup_insert. by case_decide. Qed.

Definition no_xprt : svcxprt := {| xp_addr := hin_addr (rq_key no_request); xp_u2 := None; xp_open := false |}.

Lemma nxprt_insert d x xp s s' :
  st_xprts s' = <[x := xp]> (st_xprts s) ->
  nxprt d s' = nxprt d s - Z.b2z (bool_decide (xp_u2 (default no_xprt (st_xprts s !! x)) = Some d)) +
               Z.b2z (bool_decide (xp_u2 xp = Some d)).
Proof. intros E. unfold nxprt. rewrite E. by apply (count_threads_insert no_xprt). Qed.

(** What a thread may rely on of the connections. *)
Definition conn_ok (xs : gmap positive svcxprt) (pc : conn_pc) : Prop :=
  match pc with
  | C_get x | C_slow x => is_Some (xs !! x)
  | C_expire x d | C_in x d => exists xp, xs !! x = Some xp /\ xp_u2 xp = Some d
  | _ => True
  end.

Record st_inv (ts xs : gset positive) (s : drc_st) : Prop := {
  si_dom : dom (st_pcs s) ⊆ ts;
  si_xdom : dom (st_xprts s) ⊆ xs;
  si_world d o : st_drcs s !! d = Some o -> cache_inv ts (dc_world o);
  si_refs d : nxprt d s + nconn holds d s = match st_drcs s !! d with Some o => dc_refcnt o | None => 0 end;
  si_zero d : nconn recycles d s =
    match st_drcs s !! d with Some o => Z.b2z ((dc_refcnt o =? 0) && negb (dc_recycle o)) | None => 0 end;
  si_unlock d : st_drcs s !! d = None -> nconn unlocks d s = 0;
  si_flag d o : st_drcs s !! d = Some o -> dc_recycle o = true -> dc_refcnt o = 0;
  si_nodup : NoDup (st_recycle_q s);
  si_queue d : d ∈ st_recycle_q s <-> exists o, st_drcs s !! d = Some o /\ dc_recycle o = true;
  si_qlen : st_recycle_qlen s = Z.of_nat (length (st_recycle_q s));
  si_table a d : st_recycle_t s !! a = Some d <-> exists o, st_drcs s !! d = Some o /\ dc_addr o = a;
  si_next d o : st_drcs s !! d = Some o -> (d < st_next s)%positive;
  si_conn r : conn_ok (st_xprts s) (conn_of r s);
  si_inside r d o : st_drcs s !! d = Some o -> pc_of r (dc_world o) <> Idle -> holds (conn_of r s) = Some d
}.

Section inv.
Context (ts xs : gset positive).

Lemma drc_held s d : st_inv ts xs s -> 0 < nxprt d s + nconn holds d s -> exists o, st_drcs s !! d = Some o.
Proof. intros Hi Hp. pose proof (si_refs _ _ _ Hi d). destruct (st_drcs s !! d) as [o|]; [by exists o|lia]. Qed.

Lemma nxprt_nonneg d s : 0 <= nxprt d s.
Proof. apply count_threads_nonneg. Qed.
Lemma nconn_nonneg f d s : 0 <= nconn f d s.
Proof. apply count_threads_nonneg. Qed.

Lemma drc_holds s r d : st_inv ts xs s -> holds (conn_of r s) = Some d -> exists o, st_drcs s !! d = Some o.
Proof.
  intros Hi Hr. apply drc_held; [done|]. pose proof (nconn_pos holds d r s eq_refl Hr). pose proof (nxprt_nonneg d s). lia.
Qed.

Lemma drc_of_xprt s x xp d :
  st_inv ts xs s -> st_xprts s !! x = Some xp -> xp_u2 xp = Some d -> exists o, st_drcs s !! d = Some o.
Proof.
  intros Hi Hx Hd. apply drc_held; [done|]. pose proof (nconn_nonneg holds d s).
  assert (0 < nxprt d s); [|lia]. apply (count_threads_pos no_xprt _ x); [done|].
  rewrite Hx. by apply bool_decide_eq_true.
Qed.

Lemma drc_bound s d o :
  2 * Z.of_nat (size ts) + 2 < 2 ^ 31 -> Z.of_nat (size xs) < 2 ^ 31 ->
  st_inv ts xs s -> st_drcs s !! d = Some o -> 0 <= dc_refcnt o < UINT32_MAX - 2.
Proof.
  intros Hts Hxs Hi Ho. pose proof (si_refs _ _ _ Hi d) as Hr. rewrite Ho in Hr.
  pose proof (nxprt_nonneg d s). pose proof (nconn_nonneg holds d s).
  pose proof (count_threads_bound (fun pc => bool_decide (holds pc = Some d)) ts _ (si_dom _ _ _ Hi)) as H1.
  pose proof (count_threads_bound (fun xp => bool_decide (xp_u2 xp = Some d)) xs _ (si_xdom _ _ _ Hi)) as H2.
  unfold nconn, nxprt in *. unfold UINT32_MAX. lia.
Qed.

(** A thread moves; the caches stay as they are. *)
Lemma st_move s s' r pc' :
  st_inv ts xs s -> r ∈ ts -> st_pcs s' = <[r := pc']> (st_pcs s) -> st_drcs s' = st_drcs s ->
  st_recycle_t s' = st_recycle_t s -> st_recycle_q s' = st_recycle_q s -> st_recycle_qlen s' = st_recycle_qlen s ->
  st_next s' = st_next s -> st_xprts s' = st_xprts s ->
  holds pc' = holds (conn_of r s) -> recycles pc' = recycles (conn_of r s) ->
  (forall d, unlocks pc' = Some d -> unlocks (conn_of r s) = Some d) ->
  conn_ok (st_xprts s) pc' -> st_inv ts xs s'.
Proof.
  intros [] Hr Hp E1 E2 E3 E4 E5 E6 Hh Hre Hu Hc.
  constructor; rewrite ?E1, ?E2, ?E3, ?E4, ?E5, ?E6; try done.
  - rewrite Hp, dom_insert. set_solver.
  - intros d. rewrite <- si_refs0, (nconn_insert holds d r pc' s s' eq_refl Hp), Hh. unfold nxprt. rewrite E6. lia.
  - intros d. rewrite <- si_zero0, (nconn_insert recycles d r pc' s s' eq_refl Hp), Hre. lia.
  - intros d Hd. rewrite (nconn_insert unlocks d r pc' s s' eq_refl Hp). specialize (si_unlock0 d Hd).
    pose proof (nconn_nonneg unlocks d s').  rewrite (nconn_insert unlocks d r pc' s s' eq_refl Hp) in H.
    case_bool_decide as E; case_bool_decide as E'; simpl in *; try lia. by destruct E; apply Hu.
  - intros r'. rewrite (conn_of_insert _ _ _ _ r' Hp). by case_decide.
  - intros r' d o Ho Hpc. rewrite (conn_of_insert _ _ _ _ r' Hp). case_decide; [subst r'; rewrite Hh|]; eauto.
Qed.

(** A thread moves and changes one cache, its place in the queue, and connections. *)
Lemma st_step s s' r pc' d o o' :
  st_inv ts xs s -> r ∈ ts -> st_pcs s' = <[r := pc']> (st_pcs s) ->
  st_drcs s !! d = Some o -> st_drcs s' = <[d := o']> (st_drcs s) -> dc_addr o' = dc_addr o ->
  st_recycle_t s' = st_recycle_t s -> st_next s' = st_next s -> dom (st_xprts s') ⊆ xs ->
  cache_inv ts (dc_world o') ->
  (forall y, y <> d -> nxprt y s' = nxprt y s) ->
  (forall y, y <> d -> (holds pc' = Some y <-> holds (conn_of r s) = Some y)) ->
  (forall y, y <> d -> (recycles pc' = Some y <-> recycles (conn_of r s) = Some y)) ->
  (forall y, y <> d -> unlocks pc' = Some y -> unlocks (conn_of r s) = Some y) ->
  nxprt d s' + nconn holds d s' = dc_refcnt o' ->
  nconn recycles d s' = Z.b2z ((dc_refcnt o' =? 0) && negb (dc_recycle o')) ->
  (dc_recycle o' = true -> dc_refcnt o' = 0) ->
  NoDup (st_recycle_q s') -> (forall y, y <> d -> (y ∈ st_recycle_q s' <-> y ∈ st_recycle_q s)) ->
  (d ∈ st_recycle_q s' <-> dc_recycle o' = true) ->
  st_recycle_qlen s' = Z.of_nat (length (st_recycle_q s')) ->
  (forall r', r' <> r -> conn_ok (st_xprts s) (conn_of r' s) -> conn_ok (st_xprts s') (conn_of r' s)) ->
  conn_ok (st_xprts s') pc' ->
  (forall r', pc_of r' (dc_world o') <> Idle -> holds (conn_of r' s') = Some d) -> st_inv ts xs s'.
Proof.
  intros [] Hr Hp Ho Hd Ha E2 E5 Hx Hw Hnx Hh Hre Hu Hrc Hz Hf Hnd Hq Hqd Hql Hc Hc' Hin.
  assert (forall f y, f C_idle = None -> (f pc' = Some y <-> f (conn_of r s) = Some y) -> nconn f y s' = nconn f y s) as Hcnt.
  { intros f y Hf0 Hy. rewrite (nconn_insert f y r pc' s s' Hf0 Hp). rewrite (bool_decide_ext _ _ Hy). lia. }
  assert (forall y oy, y <> d -> st_drcs s' !! y = Some oy <-> st_drcs s !! y = Some oy) as Hoth
    by (intros; rewrite Hd, lookup_insert_ne by done; done).
  assert (forall y oy, st_drcs s' !! y = Some oy -> (y = d /\ oy = o') \/ (y <> d /\ st_drcs s !! y = Some oy)) as Hcase.
  { intros y oy. rewrite Hd, lookup_insert_Some. naive_solver. }
  constructor; rewrite ?E2, ?E5; try done.
  - rewrite Hp, dom_insert. set_solver.
  - intros y oy [[-> ->]|[_ ?]]%Hcase; eauto.
  - intros y. rewrite Hd, lookup_insert. case_decide; [by subst y|].
    rewrite Hnx, (Hcnt holds) by (try done; auto). apply si_refs0.
  - intros y. rewrite Hd, lookup_insert. case_decide; [by subst y|].
    rewrite (Hcnt recycles) by (try done; auto). apply si_zero0.
  - intros y. rewrite Hd, lookup_insert. case_decide as Ey; [done|]. intros Hy.
    rewrite (nconn_insert unlocks y r pc' s s' eq_refl Hp). specialize (si_unlock0 y Hy).
    pose proof (nconn_nonneg unlocks y s'). rewrite (nconn_insert unlocks y r pc' s s' eq_refl Hp) in H.
    case_bool_decide as E; case_bool_decide as E'; simpl in *; try lia. by destruct E; apply Hu.
  - intros y oy [[-> ->]|[_ ?]]%Hcase; eauto.
  - intros y. rewrite Hd. destruct (decide (y = d)) as [->|Hne].
    + rewrite Hqd, lookup_insert_eq. naive_solver.
    + rewrite Hq, lookup_insert_ne by done. apply si_queue0.
  - intros a y. rewrite si_table0, Hd. destruct (decide (y = d)) as [->|Hne].
    + rewrite lookup_insert_eq, Ho. naive_solver congruence.
    + by rewrite lookup_insert_ne.
  - intros y oy [[-> ->]|[_ ?]]%Hcase; eauto.
  - intros r'. rewrite (conn_of_insert _ _ _ _ r' Hp). case_decide; [done|]. apply Hc; auto.
  - intros r' y oy [[-> ->]|[Hne Hy]]%Hcase Hpc; [eauto|]. pose proof (si_inside0 r' y oy Hy Hpc) as Hhy.
    rewrite (conn_of_insert _ _ _ _ r' Hp). case_decide; [subst r'|done]. by apply Hh.
Qed.
End inv.

Lemma wp_get_drc d o Q s : st_drcs s !! d = Some o -> Q o s -> wp (get_drc d) Q s.
Proof. intros Ho HQ. unfold get_drc. wp_go. by eapply wp_deref. Qed.
Lemma wp_get_xprt x xp Q s : st_xprts s !! x = Some xp -> Q xp s -> wp (get_xprt x) Q s.
Proof. intros Hx HQ. unfold get_xprt. wp_go. by eapply wp_deref. Qed.

(** Attaching a connection changes what a thread of another connection sees in no way. *)
Lemma conn_ok_attach xps x xp xp' pc :
  xps !! x = Some xp -> xp_u2 xp = None -> conn_ok xps pc -> conn_ok (<[x := xp']> xps) pc.
Proof.
  intros Hx Hn. destruct pc as [|y|y|y d|y d|d|d|d]; simpl; try done.
  1,2: intros [xp0 Hy]; rewrite lookup_insert; case_decide; eauto.
  all: intros (xp0 & Hy & Hd); exists xp0; rewrite lookup_insert; case_decide; [congruence|done].
Qed.

(** The state after a connection attached to the cache [d], which is now [o']. *)
Definition attached (s : drc_st) (r x d : positive) (xp : svcxprt) (o' : drc_obj) (q : list positive) (n : Z) : drc_st :=
  set_conn r (C_expire x d) (set_obj d o'
    (set_xprt x {| xp_addr := xp_addr xp; xp_u2 := Some d; xp_open := xp_open xp |} (set_recycle q n s))).

Lemma nxprt_attach s r x d xp o' q n y :
  st_xprts s !! x = Some xp -> xp_u2 xp = None ->
  nxprt y (attached s r x d xp o' q n) = nxprt y s + Z.b2z (bool_decide (Some d = Some y)).
Proof.
  intros Hx Hn. rewrite (nxprt_insert y x {| xp_addr := xp_addr xp; xp_u2 := Some d; xp_open := xp_open xp |} s) by done.
  rewrite Hx. simpl. rewrite Hn, (bool_decide_false (None = Some y)) by done. simpl. lia.
Qed.

Lemma ref_twice o :
  0 <= dc_refcnt o < UINT32_MAX - 2 ->
  nfs_dupreq_ref_drc (with_recycle (dc_recycle o) 0 (nfs_dupreq_ref_drc o)) =
  with_drc_refcnt (dc_refcnt o + 2) (with_recycle (dc_recycle o) 0 o).
Proof.
  intros Hb. unfold nfs_dupreq_ref_drc, with_drc_refcnt, with_recycle. simpl. rewrite !u32_small; [|lia|rewrite u32_small; lia].
  f_equal. lia.
Qed.

Lemma set_recycle_same s : set_recycle (st_recycle_q s) (st_recycle_qlen s) s = s.
Proof. by destruct s. Qed.

(** The state after the first section of [nfs_dupreq_put_drc]. *)
Definition put_pc (d : positive) (n : Z) : conn_pc := if n =? 0 then C_recycle d else C_idle.

Lemma wp_put_section r d o s Q :
  st_drcs s !! d = Some o -> 1 <= dc_refcnt o <= UINT32_MAX ->
  Q tt (set_conn r (put_pc d (dc_refcnt o - 1)) (set_obj d (with_drc_refcnt (dc_refcnt o - 1) o) s)) ->
  wp (nfs_dupreq_put_drc r d) Q s.
Proof.
  intros Ho Hb HQ. unfold nfs_dupreq_put_drc. apply wp_bind, (wp_get_drc d o); [done|].
  unfold nfs_dupreq_unref_drc. rewrite u32_small by lia. apply wp_bind, wp_modify. simpl.
  unfold put_pc in HQ. destruct (dc_refcnt o - 1 =? 0); simpl; by apply wp_modify.
Qed.

Section steps.
#[local] Set Default Proof Using "Type*".
Context (ts xs : gset positive) (Hts : 2 * Z.of_nat (size ts) + 2 < 2 ^ 31) (Hxs : Z.of_nat (size xs) < 2 ^ 31).
Context (npart cachesz maxsize hiwat recycle_hiwat expire_delta : Z).

(** ** Taking a reference *)

Lemma ref_small s d o :
  st_inv ts xs s -> st_drcs s !! d = Some o -> nfs_dupreq_ref_drc o = with_drc_refcnt (dc_refcnt o + 1) o /\
  (1 <= dc_refcnt o -> nfs_dupreq_unref_drc o = with_drc_refcnt (dc_refcnt o - 1) o).
Proof.
  intros Hi Ho. pose proof (drc_bound ts xs s d o Hts Hxs Hi Ho). unfold nfs_dupreq_ref_drc, nfs_dupreq_unref_drc.
  split; [|intros]; rewrite u32_small; (done || lia).
Qed.

(** A cache that is referenced is not being recycled. *)
Lemma held_not_recycled s d o :
  st_inv ts xs s -> st_drcs s !! d = Some o -> 0 < dc_refcnt o ->
  dc_recycle o = false /\ d ∉ st_recycle_q s /\ nconn recycles d s = 0.
Proof.
  intros Hi Ho Hp. assert (dc_recycle o = false) as Hf.
  { destruct (dc_recycle o) eqn:E; [|done]. pose proof (si_flag _ _ _ Hi d o Ho E). lia. }
  split_and!; [done| |].
  - intros Hq. apply (si_queue _ _ _ Hi) in Hq as (o' & Ho' & E). congruence.
  - rewrite (si_zero _ _ _ Hi d), Ho. destruct (Z.eqb_spec (dc_refcnt o) 0); [lia|done].
Qed.

(** The connection has its cache: the call path takes a reference. *)
Lemma wp_fast r x d xp s :
  st_inv ts xs s -> r ∈ ts -> conn_of r s = C_get x -> st_xprts s !! x = Some xp -> xp_u2 xp = Some d ->
  wp (get_drc_fast r x d) (fun _ => st_inv ts xs) s.
Proof.
  intros Hi Hr Hpc Hx Hd. destruct (drc_of_xprt ts xs s x xp d Hi Hx Hd) as [o Ho].
  unfold get_drc_fast. apply wp_bind, (wp_get_drc d o); [done|].
  destruct (ref_small s d o Hi Ho) as [-> _]. wp_go. set (s' := set_conn _ _ _).
  pose proof (si_refs _ _ _ Hi d) as Hrc. rewrite Ho in Hrc.
  assert (0 < nxprt d s).
  { apply (count_threads_pos no_xprt _ x); [done|]. rewrite Hx. by apply bool_decide_eq_true. }
  pose proof (nconn_nonneg holds d s). destruct (held_not_recycled s d o Hi Ho ltac:(lia)) as (Hf & Hq & Hz).
  eapply (st_step ts xs s s' r (C_in x d) d o (with_drc_refcnt (dc_refcnt o + 1) o)); try done; rewrite ?Hpc; try done.
  - apply Hi.
  - simpl. by eapply si_world.
  - simpl. intros y Hy. split; [congruence|done].
  - rewrite (nconn_insert holds d r (C_in x d) s s' eq_refl eq_refl), Hpc. simpl.
    rewrite (bool_decide_true (Some d = Some d)) by done. unfold nxprt in *. simpl. lia.
  - rewrite (nconn_insert recycles d r (C_in x d) s s' eq_refl eq_refl), Hpc, Hz. simpl.
    destruct (Z.eqb_spec (dc_refcnt o + 1) 0); [lia|done].
  - simpl. congruence.
  - apply Hi.
  - simpl. split; [done|congruence].
  - apply Hi.
  - simpl. by exists xp.
  - simpl. intros r' Hp'. pose proof (si_inside _ _ _ Hi r' d o Ho Hp') as Hh.
    rewrite (conn_of_insert r (C_in x d) s s' r' eq_refl). by case_decide.
Qed.

Lemma st_attach s r x d xp o o' q :
  st_inv ts xs s -> r ∈ ts -> conn_of r s = C_slow x -> st_xprts s !! x = Some xp -> xp_u2 xp = None ->
  st_drcs s !! d = Some o -> nconn recycles d s = 0 ->
  dc_addr o' = dc_addr o -> dc_world o' = dc_world o -> dc_refcnt o' = dc_refcnt o + 2 -> dc_recycle o' = false ->
  NoDup q -> (forall y, y <> d -> (y ∈ q <-> y ∈ st_recycle_q s)) -> d ∉ q ->
  st_inv ts xs (attached s r x d xp o' q (Z.of_nat (length q))).
Proof.
  intros Hi Hr Hpc Hx Hn Ho Hz Ha Hw Hc Hf Hnd Hq Hdq. set (s' := attached _ _ _ _ _ _ _ _).
  pose proof (si_refs _ _ _ Hi d) as Hrc. rewrite Ho in Hrc.
  pose proof (nxprt_nonneg d s). pose proof (nconn_nonneg holds d s).
  eapply (st_step ts xs s s' r (C_expire x d) d o o'); try done; rewrite ?Hpc; try done.
  - simpl. rewrite dom_insert_lookup_L by by eexists. apply Hi.
  - rewrite Hw. by eapply si_world.
  - intros y Hy. unfold s'. rewrite nxprt_attach by done. rewrite bool_decide_false by congruence. simpl. lia.
  - simpl. intros y Hy. split; [congruence|done].
  - unfold s' at 1. rewrite nxprt_attach by done.
    rewrite (nconn_insert holds d r (C_expire x d) s s' eq_refl eq_refl), Hpc. simpl.
    rewrite (bool_decide_true (Some d = Some d)) by done. simpl. lia.
  - rewrite (nconn_insert recycles d r (C_expire x d) s s' eq_refl eq_refl), Hpc, Hz, Hc. simpl.
    destruct (Z.eqb_spec (dc_refcnt o + 2) 0); [lia|done].
  - congruence.
  - simpl. rewrite Hf. done.
  - simpl. intros r' _. by apply (conn_ok_attach _ _ xp).
  - simpl. eexists. by rewrite lookup_insert_eq.
  - intros r' Hp'. rewrite Hw in Hp'. pose proof (si_inside _ _ _ Hi r' d o Ho Hp') as Hh.
    rewrite (conn_of_insert r (C_expire x d) s s' r' eq_refl). by case_decide.
Qed.
(** A client that is not known gets a new cache. *)
Lemma st_new s r x xp o' :
  st_inv ts xs s -> r ∈ ts -> conn_of r s = C_slow x -> st_xprts s !! x = Some xp -> xp_u2 xp = None ->
  st_recycle_t s !! xp_addr xp = None ->
  dc_addr o' = xp_addr xp -> dc_world o' = drc_world (alloc_tcp_drc npart cachesz maxsize hiwat) ->
  dc_refcnt o' = 2 -> dc_recycle o' = false ->
  let d := st_next s in
  st_inv ts xs (attached (add_drc d o' s) r x d xp o' (st_recycle_q s) (st_recycle_qlen s)).
Proof.
  intros Hi Hr Hpc Hx Hn Ht Ha Hw Hc Hf d. set (s0 := add_drc d o' s). set (s' := attached _ _ _ _ _ _ _ _).
  assert (st_drcs s !! d = None) as Hd.
  { destruct (st_drcs s !! d) as [o|] eqn:E; [|done]. apply (si_next _ _ _ Hi) in E. unfold d in E. lia. }
  pose proof (si_refs _ _ _ Hi d) as Hrc. pose proof (si_zero _ _ _ Hi d) as Hz. rewrite Hd in Hrc, Hz.
  pose proof (nxprt_nonneg d s). pose proof (nconn_nonneg holds d s).
  assert (st_drcs s' = <[d := o']> (st_drcs s)) as Ed by (simpl; by rewrite insert_insert_eq).
  assert (forall y, nxprt y s' = nxprt y s + Z.b2z (bool_decide (Some d = Some y))) as Hnx
    by (intros; by apply (nxprt_attach s0)).
  assert (forall y, nconn holds y s' = nconn holds y s + Z.b2z (bool_decide (Some d = Some y))) as Hnh.
  { intros y. rewrite (nconn_insert holds y r (C_expire x d) s s' eq_refl eq_refl), Hpc. simpl. lia. }
  assert (forall f y, f C_idle = None -> f (C_slow x) = None -> f (C_expire x d) = None -> nconn f y s' = nconn f y s) as Hnf.
  { intros f y F1 F2 F3. rewrite (nconn_insert f y r (C_expire x d) s s' F1 eq_refl), Hpc, F2, F3. lia. }
  destruct Hi. constructor; rewrite ?Ed; try done.
  - simpl. rewrite dom_insert. set_solver.
  - simpl. rewrite dom_insert_lookup_L by by eexists. done.
  - intros y oy [[<- <-]|[_ ?]]%lookup_insert_Some; [|eauto]. rewrite Hw.
    exists ∅. split_and!; [apply refs_init|apply own_init|apply log_init].
  - intros y. rewrite Hnx, Hnh, lookup_insert. specialize (si_refs0 y). destruct (decide (d = y)) as [<-|Hne].
    + rewrite bool_decide_true by done. simpl. lia.
    + rewrite bool_decide_false by congruence. simpl. lia.
  - intros y. rewrite Hnf, lookup_insert by done. destruct (decide (d = y)) as [<-|Hne]; [|done]. by rewrite Hc.
  - intros y. rewrite Hnf by done. rewrite lookup_insert. case_decide; [done|]. auto.
  - intros y oy [[<- <-]|[_ ?]]%lookup_insert_Some; [congruence|eauto].
  - intros y. simpl. rewrite si_queue0. destruct (decide (d = y)) as [<-|Hne].
    + rewrite lookup_insert_eq, Hd. split; [by intros (? & ? & _)|]. intros (oy & E & Hfy). congruence.
    + by rewrite lookup_insert_ne.
  - intros a y. simpl. rewrite Ha. rewrite lookup_insert_Some, si_table0.
    destruct (decide (d = y)) as [<-|Hne].
    + rewrite lookup_insert_eq, Hd. split; [|intros (oy & [= <-] & Ea); left; split; congruence].
      intros [[<- _]|[_ (oy & E & _)]]; [by exists o'|done].
    + rewrite lookup_insert_ne by done. split; [naive_solver|]. intros (oy & Ey & Ea). right. split; [|eauto].
      intros E. rewrite <- E in Ea. assert (st_recycle_t s !! xp_addr xp = Some y) by (apply si_table0; eauto). congruence.
  - intros y oy [[<- <-]|[_ Hy]]%lookup_insert_Some; simpl; [lia|]. apply si_next0 in Hy. unfold d. lia.
  - intros r'. rewrite (conn_of_insert r (C_expire x d) s s' r' eq_refl). simpl.
    destruct (decide (r = r')); [eexists; by rewrite lookup_insert_eq|]. by apply (conn_ok_attach _ _ xp).
  - intros r' y oy Hy Hp. apply lookup_insert_Some in Hy as [[<- <-]|[Hne Hy]].
    + rewrite Hw in Hp. by destruct Hp.
    + rewrite (conn_of_insert r (C_expire x d) s s' r' eq_refl). pose proof (si_inside0 r' y oy Hy Hp) as Hh.
      case_decide; [subst r'; rewrite Hpc in Hh|]; done.
Qed.

(** A plain move of the thread. *)
Ltac st_plain s r := eapply (st_move ts xs s _ r); try done.

Lemma wp_look r x s :
  st_inv ts xs s -> r ∈ ts -> conn_of r s = C_get x -> wp (get_drc_look r x) (fun _ => st_inv ts xs) s.
Proof.
  intros Hi Hr Hpc. pose proof (si_conn _ _ _ Hi r) as Hc. rewrite Hpc in Hc. destruct Hc as [xp Hx].
  unfold get_drc_look. apply wp_bind, (wp_get_xprt x xp); [done|].
  destruct (xp_u2 xp) as [d|] eqn:Hd; [by apply (wp_fast r x d xp)|].
  wp_go. st_plain s r; rewrite ?Hpc; try done. by exists xp.
Qed.

Lemma wp_slow r x s :
  st_inv ts xs s -> r ∈ ts -> conn_of r s = C_slow x ->
  wp (get_drc_slow npart cachesz maxsize hiwat r x) (fun _ => st_inv ts xs) s.
Proof.
  intros Hi Hr Hpc. pose proof (si_conn _ _ _ Hi r) as Hc. rewrite Hpc in Hc. destruct Hc as [xp Hx].
  assert (wp (modify (set_conn r (C_get x))) (fun _ => st_inv ts xs) s) as Hretry.
  { wp_go. st_plain s r; rewrite ?Hpc; try done. by exists xp. }
  unfold get_drc_slow. apply wp_bind, (wp_get_xprt x xp); [done|]. destruct (xp_u2 xp) as [d|] eqn:Hd; [done|].
  apply wp_bind, wp_gets. unfold id. destruct (st_recycle_t s !! xp_addr xp) as [d|] eqn:Ht.
  - pose proof Ht as (o & Ho & Ha)%(si_table _ _ _ Hi). apply wp_bind, (wp_get_drc d o); [done|].
    pose proof (drc_bound ts xs s d o Hts Hxs Hi Ho) as Hb.
    destruct (Z.eqb_spec (dc_refcnt o) 0) as [E0|E0]; [destruct (dc_recycle o) eqn:Ef; simpl; [|done]|].
    + assert (d ∈ st_recycle_q s) as Hq by (apply (si_queue _ _ _ Hi); eauto).
      apply wp_bind, wp_modify. wp_go.
      pose proof (ref_twice (with_recycle false (dc_recycle_time o) o) Hb) as Et. simpl in Et. rewrite Et.
      pose proof (length_remove_id d _ (si_nodup _ _ _ Hi) Hq) as Hlen.
      replace (st_recycle_qlen s - 1) with (Z.of_nat (length (remove_id d (st_recycle_q s))))
        by (rewrite (si_qlen _ _ _ Hi); lia).
      eapply (st_attach s r x d xp o); try done.
      * rewrite (si_zero _ _ _ Hi d), Ho, Ef. by rewrite andb_false_r.
      * apply NoDup_remove_id, Hi.
      * intros y Hy. rewrite elem_of_remove_id. tauto.
      * rewrite elem_of_remove_id. tauto.
    + destruct (held_not_recycled s d o Hi Ho ltac:(lia)) as (Hf & Hq & Hz).
      wp_go. rewrite (ref_twice o) by done.
      pose proof (st_attach s r x d xp o (with_drc_refcnt (dc_refcnt o + 2) (with_recycle (dc_recycle o) 0 o)) (st_recycle_q s)) as Hat.
      unfold attached in Hat. rewrite <- (si_qlen _ _ _ Hi), set_recycle_same in Hat.
      apply Hat; try done. apply Hi.
  - apply wp_bind, wp_modify. wp_go. set (d := st_next s). set (o := {| dc_world := _ |}).
    pose proof (ref_twice o ltac:(unfold o, UINT32_MAX; simpl; lia)) as Et. simpl in Et. rewrite Et.
    pose proof (st_new s r x xp (with_drc_refcnt (dc_refcnt o + 2) (with_recycle (dc_recycle o) 0 o)) Hi Hr Hpc Hx Hd Ht
                  eq_refl eq_refl eq_refl eq_refl) as Hnew. fold d in Hnew.
    assert (forall s1 s2, s1 = s2 -> st_inv ts xs s1 -> st_inv ts xs s2) as Heq by (by intros ? ? ->).
    revert Hnew. apply Heq. unfold attached, set_conn, set_obj, set_xprt, set_recycle, add_drc. simpl.
    by rewrite !insert_insert_eq.
Qed.

(** ** Requests inside a cache *)

(** Only the inside of one cache changes. *)
Lemma st_world s d o w' :
  st_inv ts xs s -> st_drcs s !! d = Some o -> cache_inv ts w' ->
  (forall r, pc_of r w' <> Idle -> holds (conn_of r s) = Some d) ->
  st_inv ts xs (set_obj d (with_world w' o) s).
Proof.
  intros Hi Ho Hw Hin. set (s' := set_obj _ _ _).
  assert (forall y oy, st_drcs s' !! y = Some oy -> exists o0, st_drcs s !! y = Some o0 /\ dc_addr oy = dc_addr o0 /\
            dc_refcnt oy = dc_refcnt o0 /\ dc_recycle oy = dc_recycle o0 /\
            (dc_world oy = dc_world o0 \/ y = d /\ dc_world oy = w')) as Hget.
  { intros y oy. simpl. rewrite lookup_insert_Some. intros [[<- <-]|[_ Hy]]; [exists o|exists oy]; naive_solver. }
  assert (forall y (B : Type) (f : Z -> bool -> B) (b : B),
            match st_drcs s' !! y with Some o => f (dc_refcnt o) (dc_recycle o) | None => b end =
            match st_drcs s !! y with Some o => f (dc_refcnt o) (dc_recycle o) | None => b end) as Hmatch.
  { intros. simpl. rewrite lookup_insert. case_decide; [|done]. subst y. by rewrite Ho. }
  destruct Hi. constructor; try done.
  - intros y oy Hy. destruct (Hget y oy Hy) as (o0 & H0 & _ & _ & _ & [E|[-> E]]); rewrite E; eauto.
  - intros y. rewrite (Hmatch y Z (fun n _ => n) 0). apply si_refs0.
  - intros y. rewrite (Hmatch y Z (fun n b => Z.b2z ((n =? 0) && negb b)) 0). apply si_zero0.
  - intros y. simpl. rewrite lookup_insert. case_decide; [done|]. apply si_unlock0.
  - intros y oy Hy Hf. destruct (Hget y oy Hy) as (o0 & H0 & _ & E1 & E2 & _). rewrite E1. rewrite E2 in Hf. eauto.
  - intros y. simpl. rewrite si_queue0. destruct (decide (d = y)) as [<-|Hne]; [|by rewrite lookup_insert_ne].
    rewrite lookup_insert_eq, Ho. split; intros (oy & [= <-] & Hf); eexists; by split.
  - intros a y. simpl. rewrite si_table0. destruct (decide (d = y)) as [<-|Hne]; [|by rewrite lookup_insert_ne].
    rewrite lookup_insert_eq, Ho. split; intros (oy & [= <-] & Hf); eexists; by split.
  - intros y oy Hy. destruct (Hget y oy Hy) as (o0 & H0 & _). eauto.
  - intros r y oy Hy Hp. destruct (Hget y oy Hy) as (o0 & H0 & _ & _ & _ & [E|[-> E]]); rewrite E in Hp; [eauto|].
    by apply Hin.
Qed.

Lemma wp_inside r x d i s :
  st_inv ts xs s -> r ∈ ts -> conn_of r s = C_in x d ->
  wp (inside d (request_step r i)) (fun _ s' => st_inv ts xs s' /\ exists o w', st_drcs s !! d = Some o /\
        request_step r i (dc_world o) = Some (tt, w') /\ s' = set_obj d (with_world w' o) s) s.
Proof.
  intros Hi Hr Hpc. destruct (drc_holds ts xs s r d Hi) as [o Ho]; [by rewrite Hpc|].
  pose proof (si_world _ _ _ Hi d o Ho) as Hw.
  destruct (proj1 (wp_run _ _ _) (wp_request_step ts Hts r i _ Hw Hr)) as ([] & w' & E & Hw').
  unfold inside. apply wp_bind, (wp_get_drc d o); [done|]. rewrite E. apply wp_modify. split; [|eauto].
  apply st_world; try done. intros r' Hp. destruct (decide (r' = r)) as [->|Hne]; [by rewrite Hpc|].
  apply (si_inside _ _ _ Hi r' d o Ho). intros Hidle. apply Hp. exact (request_step_idle ts r i _ w' r' Hw E Hne Hidle).
Qed.

Lemma wp_window_inside d o s :
  st_inv ts xs s -> st_drcs s !! d = Some o -> wp (inside d window_step) (fun _ => st_inv ts xs) s.
Proof.
  intros Hi Ho. pose proof (si_world _ _ _ Hi d o Ho) as Hw.
  destruct (proj1 (wp_run _ _ _) (wp_window ts _ Hw)) as ([] & w' & E & Hw').
  unfold inside. apply wp_bind, (wp_get_drc d o); [done|]. rewrite E. apply wp_modify.
  apply st_world; try done. intros r' Hp. apply (si_inside _ _ _ Hi r' d o Ho). intros Hidle. apply Hp.
  unfold window_step, start_window, on_drc, mbind, M_bind, gets, modify, mret, M_ret in E.
  destruct (w_windows (dc_world o)); injection E as <-; done.
Qed.

(** ** Releasing a reference *)

(** A reference to [d] is given up: by [r] in the call path, or by a connection. *)
Lemma st_put s s' r d o :
  st_inv ts xs s -> r ∈ ts -> st_drcs s !! d = Some o -> 1 <= dc_refcnt o ->
  st_pcs s' = <[r := put_pc d (dc_refcnt o - 1)]> (st_pcs s) ->
  st_drcs s' = <[d := with_drc_refcnt (dc_refcnt o - 1) o]> (st_drcs s) ->
  st_recycle_t s' = st_recycle_t s -> st_next s' = st_next s -> st_recycle_q s' = st_recycle_q s ->
  st_recycle_qlen s' = st_recycle_qlen s -> dom (st_xprts s') ⊆ xs ->
  (forall y, y <> d -> nxprt y s' = nxprt y s) -> nxprt d s' + nconn holds d s' = dc_refcnt o - 1 ->
  (forall y, holds (conn_of r s) = Some y -> y = d) -> recycles (conn_of r s) = None ->
  (forall r', r' <> r -> conn_ok (st_xprts s) (conn_of r' s) -> conn_ok (st_xprts s') (conn_of r' s)) ->
  (forall r', pc_of r' (dc_world o) <> Idle -> r' <> r) -> st_inv ts xs s'.
Proof.
  intros Hi Hr Ho Hp Epc Ed Et En Eq Eql Hdom Hnx Hrc Hh Hre Hconn Hidle.
  destruct (held_not_recycled s d o Hi Ho ltac:(lia)) as (Hf & Hq & Hz). set (n := dc_refcnt o - 1) in *.
  eapply (st_step ts xs s s' r (put_pc d n) d o (with_drc_refcnt n o)); rewrite ?Et, ?En, ?Eq, ?Eql; try done; try apply Hi.
  - exact (si_world _ _ _ Hi d o Ho).
  - intros y Hy. unfold put_pc. destruct (n =? 0); simpl; (split; [done|]); intros E; by destruct (Hh y E).
  - intros y Hy. rewrite Hre. unfold put_pc. destruct (n =? 0); simpl; split; congruence.
  - intros y Hy. unfold put_pc. by destruct (n =? 0).
  - rewrite (nconn_insert recycles d r (put_pc d n) s s' eq_refl Epc), Hre, Hz. simpl. rewrite Hf. unfold put_pc.
    destruct (n =? 0); simpl; [by rewrite bool_decide_true|done].
  - simpl. congruence.
  - simpl. split; [done|congruence].
  - unfold put_pc. by destruct (n =? 0).
  - simpl. intros r' Hp'. rewrite (conn_of_insert r _ s s' r' Epc). rewrite decide_False by (by apply not_eq_sym, Hidle).
    by apply (si_inside _ _ _ Hi r' d o).
Qed.

Lemma wp_put_call r x d o s :
  st_inv ts xs s -> r ∈ ts -> conn_of r s = C_in x d -> st_drcs s !! d = Some o -> pc_of r (dc_world o) = Put_drc ->
  wp (inside d (request_step r In_none);; nfs_dupreq_put_drc r d) (fun _ => st_inv ts xs) s.
Proof.
  intros Hi Hr Hpc Ho Hp. apply wp_bind. eapply wp_mono; [by apply (wp_inside r x d In_none s)|].
  intros [] s1 (Hi1 & o1 & w' & Ho1 & E & ->). assert (o1 = o) as -> by congruence. clear Ho1.
  assert (pc_of r w' = Idle) as Hidle.
  { unfold request_step, mbind, M_bind, gets in E. rewrite Hp in E. injection E as <-.
    unfold pc_of, req_of. simpl. by rewrite lookup_insert_eq. }
  set (s1 := set_obj _ _ _) in *. set (o' := with_world w' o) in *.
  assert (st_drcs s1 !! d = Some o') as Ho' by (simpl; by rewrite lookup_insert_eq).
  pose proof (si_refs _ _ _ Hi1 d) as Hrc. rewrite Ho' in Hrc.
  pose proof (nconn_pos holds d r s1 eq_refl ltac:(unfold conn_of; simpl; fold (conn_of r s); by rewrite Hpc)) as Hh.
  pose proof (nxprt_nonneg d s1). pose proof (drc_bound ts xs s1 d o' Hts Hxs Hi1 Ho').
  apply (wp_put_section r d o'); [done|lia|]. set (s' := set_conn _ _ _).
  eapply (st_put s1 s' r d o'); try done; try lia.
  - apply Hi1.
  - rewrite (nconn_insert holds d r (put_pc d (dc_refcnt o' - 1)) s1 s' eq_refl eq_refl).
    change (conn_of r s1) with (conn_of r s). rewrite Hpc. simpl. rewrite bool_decide_true by done.
    rewrite bool_decide_false by (unfold put_pc; by case_match). unfold nxprt in *. simpl in *. lia.
  - change (conn_of r s1) with (conn_of r s). rewrite Hpc. simpl. congruence.
  - change (conn_of r s1) with (conn_of r s). by rewrite Hpc.
  - intros r' Hp' ->. done.
Qed.

(** The thread that gave up the last reference queues the cache. *)
Lemma wp_recycle r d now s :
  st_inv ts xs s -> r ∈ ts -> conn_of r s = C_recycle d -> wp (put_drc_recycle r d now) (fun _ => st_inv ts xs) s.
Proof.
  intros Hi Hr Hpc. pose proof (nconn_pos recycles d r s eq_refl ltac:(by rewrite Hpc)) as Hp.
  pose proof (si_zero _ _ _ Hi d) as Hz. pose proof (si_refs _ _ _ Hi d) as Hrc.
  destruct (st_drcs s !! d) as [o|] eqn:Ho; [|lia].
  destruct ((dc_refcnt o =? 0) && negb (dc_recycle o)) eqn:E; simpl in Hz; [|lia].
  unfold put_drc_recycle. apply wp_bind, (wp_get_drc d o); [done|]. rewrite E. wp_go. set (s' := set_conn _ _ _).
  apply andb_true_iff in E as [E1%Z.eqb_eq E2%negb_true_iff].
  assert (d ∉ st_recycle_q s) as Hq by (intros (o' & Ho' & ?)%(si_queue _ _ _ Hi); congruence).
  eapply (st_step ts xs s s' r (C_unlock d) d o (with_recycle true now o)); rewrite ?Hpc; try done; try apply Hi.
  - exact (si_world _ _ _ Hi d o Ho).
  - simpl. intros y Hy. split; [done|congruence].
  - simpl. congruence.
  - rewrite (nconn_insert holds d r (C_unlock d) s s' eq_refl eq_refl), Hpc. simpl. unfold nxprt in *. simpl. lia.
  - rewrite (nconn_insert recycles d r (C_unlock d) s s' eq_refl eq_refl), Hpc, Hz. simpl.
    rewrite bool_decide_true, andb_false_r by done. done.
  - simpl. apply NoDup_app. split_and!; [apply Hi|set_solver|apply NoDup_singleton].
  - simpl. set_solver.
  - simpl. set_solver.
  - simpl. rewrite length_app, (si_qlen _ _ _ Hi). simpl. lia.
  - simpl. intros r' Hp'. pose proof (si_inside _ _ _ Hi r' d o Ho Hp') as Hh.
    pose proof (nconn_pos holds d r' s eq_refl Hh). pose proof (nxprt_nonneg d s). lia.
Qed.

Lemma wp_unlock r d s :
  st_inv ts xs s -> r ∈ ts -> conn_of r s = C_unlock d ->
  wp (_ ← get_drc d; modify (set_conn r C_idle)) (fun _ => st_inv ts xs) s.
Proof.
  intros Hi Hr Hpc. pose proof (nconn_pos unlocks d r s eq_refl ltac:(by rewrite Hpc)) as Hp.
  destruct (st_drcs s !! d) as [o|] eqn:Ho; [|rewrite (si_unlock _ _ _ Hi d Ho) in Hp; lia].
  apply wp_bind, (wp_get_drc d o); [done|]. wp_go. st_plain s r; by rewrite Hpc.
Qed.

(** ** Connections *)

Lemma conn_ok_other xps x xp' pc :
  on_xprt pc <> Some x -> conn_ok xps pc -> conn_ok (<[x := xp']> xps) pc.
Proof.
  intros Hn. destruct pc as [|y|y|y d|y d|d|d|d]; simpl in *; try done; rewrite lookup_insert_ne by congruence; done.
Qed.

(** A connection without a cache comes or goes. *)
Lemma st_xprt s x xp' :
  st_inv ts xs s -> xp_u2 xp' = None -> xp_u2 (default no_xprt (st_xprts s !! x)) = None ->
  (forall r, on_xprt (conn_of r s) <> Some x) -> dom (st_xprts (set_xprt x xp' s)) ⊆ xs ->
  st_inv ts xs (set_xprt x xp' s).
Proof.
  intros Hi Hn Hold Hon Hdom. set (s' := set_xprt x xp' s) in *.
  assert (forall y, nxprt y s' = nxprt y s) as Hnx.
  { intros y. rewrite (nxprt_insert y x xp' s s' eq_refl), Hn, Hold. lia. }
  destruct Hi. constructor; try done.
  - intros y. rewrite Hnx. apply si_refs0.
  - intros r. simpl. apply conn_ok_other; [apply Hon|apply si_conn0].
Qed.

Lemma wp_destroy r x xp s :
  st_inv ts xs s -> r ∈ ts -> conn_of r s = C_idle -> st_xprts s !! x = Some xp ->
  (forall r', on_xprt (conn_of r' s) <> Some x) -> wp (nfs_rpc_free_user_data r x) (fun _ => st_inv ts xs) s.
Proof.
  intros Hi Hr Hpc Hx Hon. unfold nfs_rpc_free_user_data. apply wp_bind, (wp_get_xprt x xp); [done|].
  apply wp_bind, wp_modify. set (xp' := {| xp_addr := _; xp_u2 := None |}). set (s1 := set_xprt x xp' s).
  assert (dom (st_xprts s1) ⊆ xs) as Hdom by (simpl; rewrite dom_insert_lookup_L by (by eexists); apply Hi).
  destruct (xp_u2 xp) as [d|] eqn:Hd; [|wp_go; apply st_xprt; try done; by rewrite Hx].
  destruct (drc_of_xprt ts xs s x xp d Hi Hx Hd) as [o Ho].
  pose proof (si_refs _ _ _ Hi d) as Hrc. rewrite Ho in Hrc. pose proof (nconn_nonneg holds d s).
  assert (forall y, nxprt y s1 = nxprt y s - Z.b2z (bool_decide (Some d = Some y))) as Hnx.
  { intros y. rewrite (nxprt_insert y x xp' s s1 eq_refl), Hx. simpl. rewrite Hd.
    rewrite ?(bool_decide_false (None = Some y)) by done. simpl. lia. }
  pose proof (Hnx d) as Hnd. rewrite bool_decide_true in Hnd by done. simpl in Hnd.
  pose proof (nxprt_nonneg d s1). pose proof (drc_bound ts xs s d o Hts Hxs Hi Ho).
  apply (wp_put_section r d o); [done|lia|]. set (s' := set_conn _ _ _).
  eapply (st_put s s' r d o); try done; rewrite ?Hpc; try done; try lia.
  - intros y Hy. change (nxprt y s') with (nxprt y s1). rewrite Hnx, bool_decide_false by congruence. simpl. lia.
  - change (nxprt d s') with (nxprt d s1).
    rewrite (nconn_insert holds d r (put_pc d (dc_refcnt o - 1)) s s' eq_refl eq_refl), Hpc. simpl.
    rewrite (bool_decide_false (holds (put_pc _ _) = _)) by (unfold put_pc; by case_match). simpl. lia.
  - intros r' _ Hc. simpl. by apply conn_ok_other.
  - intros r' Hp ->. pose proof (si_inside _ _ _ Hi r d o Ho Hp) as Hh. by rewrite Hpc in Hh.
Qed.

(** ** Freeing expired caches *)

(** A cache without references leaves no entry behind. *)
Lemma wp_free_entries l w :
  NoDup l -> (forall dv, dv ∈ l -> exists e, w_entries w !! dv = Some e /\ dv_refcnt e = 1) ->
  exists w', free_entries l w = Some (tt, w').
Proof.
  revert w. induction l as [|dv l IH]; intros w Hnd Hl; [by eexists|]. apply NoDup_cons in Hnd as [Hdv Hnd].
  destruct (Hl dv) as (e & He & E); [left|].
  assert (wp (free_entries (dv :: l)) (fun _ _ => True) w) as Hwp.
  { simpl. apply wp_bind, (wp_get_dupreq dv e); [done|]. rewrite E. simpl.
    apply wp_bind, (wp_entry_put dv e); [done|by rewrite E|].
    unfold entries_put. rewrite E. simpl. destruct (IH (set_entries (delete dv (w_entries w)) w)) as [w' Hw']; [done| |].
    - intros y Hy. destruct (Hl y) as (ey & Hey & E1); [by right|]. exists ey. simpl. rewrite lookup_delete_ne; [done|].
      intros ->. done.
    - apply wp_run. by exists tt, w'. }
  apply wp_run in Hwp as ([] & w' & Hw' & _). by exists w'.
Qed.

(** The first cache of the queue is freed. *)
Lemma st_free s d o q :
  st_inv ts xs s -> st_recycle_q s = d :: q -> st_drcs s !! d = Some o -> (forall r, conn_of r s <> C_unlock d) ->
  st_inv ts xs (del_drc d o (set_recycle q (st_recycle_qlen s - 1) s)).
Proof.
  intros Hi Eq Ho Hu. assert (d ∈ st_recycle_q s) as Hin by (rewrite Eq; left).
  pose proof Hin as (o0 & Ho0 & Hf)%(si_queue _ _ _ Hi). assert (o0 = o) as -> by congruence. clear Ho0.
  pose proof (si_flag _ _ _ Hi d o Ho Hf) as H0. pose proof (si_zero _ _ _ Hi d) as Hz. pose proof (si_refs _ _ _ Hi d) as Hrc.
  rewrite Ho in Hz, Hrc. rewrite H0, Hf in Hz. simpl in Hz. rewrite H0 in Hrc.
  pose proof (si_nodup _ _ _ Hi) as Hnd. rewrite Eq in Hnd. apply NoDup_cons in Hnd as [Hdq Hnd].
  assert (nconn unlocks d s = 0) as Hu0.
  { unfold nconn, count_threads. rewrite (proj2 (map_empty_filter _ _)); [by rewrite map_size_empty|].
    intros r pc Hr. simpl. rewrite bool_decide_eq_true. intros E. apply (Hu r). unfold conn_of. rewrite Hr.
    destruct pc; simpl in *; congruence. }
  set (s' := del_drc _ _ _).
  assert (forall y oy, st_drcs s' !! y = Some oy -> y <> d /\ st_drcs s !! y = Some oy) as Hget
    by (intros y oy; simpl; rewrite lookup_delete_Some; naive_solver).
  destruct Hi. constructor; try done.
  - intros y oy [_ Hy]%Hget. eauto.
  - intros y. simpl. destruct (decide (y = d)) as [->|Hne]; [by rewrite lookup_delete_eq|].
    rewrite lookup_delete_ne by done. apply si_refs0.
  - intros y. simpl. destruct (decide (y = d)) as [->|Hne]; [by rewrite lookup_delete_eq|].
    rewrite lookup_delete_ne by done. apply si_zero0.
  - intros y. simpl. destruct (decide (y = d)) as [->|Hne]; [done|]. rewrite lookup_delete_ne by done. apply si_unlock0.
  - intros y oy [_ Hy]%Hget. eauto.
  - intros y. simpl. destruct (decide (y = d)) as [->|Hne].
    + rewrite lookup_delete_eq. split; [done|]. by intros (? & ? & _).
    + rewrite lookup_delete_ne by done. rewrite <- si_queue0, Eq. set_solver.
  - simpl. rewrite si_qlen0, Eq. simpl. lia.
  - intros a y. simpl. rewrite lookup_delete_Some, si_table0. destruct (decide (y = d)) as [->|Hne].
    + rewrite lookup_delete_eq, Ho. split; [|by intros (? & ? & _)]. intros [Ha (oy & [= <-] & E)]. done.
    + rewrite lookup_delete_ne by done. split; [by intros [_ ?]|]. intros (oy & Hy & E). split; [|eauto]. intros Ea.
      assert (st_recycle_t s !! a = Some y) by (apply si_table0; eauto).
      assert (st_recycle_t s !! a = Some d) by (apply si_table0; eauto). congruence.
  - intros y oy [_ Hy]%Hget. eauto.
  - intros r y oy [_ Hy]%Hget. eauto.
Qed.

Context (Hhiwat : 0 <= recycle_hiwat).

Lemma wp_free_loop now q s :
  st_inv ts xs s -> st_recycle_q s = q -> (forall d, d ∈ q -> drc_settled s d) ->
  wp (free_loop recycle_hiwat expire_delta now q)
     (fun _ s' => st_inv ts xs s' /\ st_pcs s' = st_pcs s /\ st_xprts s' = st_xprts s) s.
Proof.
  revert s. induction q as [|d q IH]; intros s Hi Eq Hset; simpl; apply wp_bind, wp_gets; unfold id.
  - assert (st_recycle_qlen s = 0) as E0 by (by rewrite (si_qlen _ _ _ Hi), Eq).
    destruct (Z.ltb_spec recycle_hiwat (st_recycle_qlen s)); [lia|]. apply wp_modify.
    split; [|done]. destruct Hi. constructor; done.
  - assert (d ∈ st_recycle_q s) as Hin by (rewrite Eq; left).
    pose proof Hin as (o & Ho & Hf)%(si_queue _ _ _ Hi). apply wp_bind, (wp_get_drc d o); [done|].
    destruct (_ || _); [|apply wp_modify; split; [|done]; destruct Hi; constructor; done].
    pose proof (si_flag _ _ _ Hi d o Ho Hf) as H0. rewrite H0. simpl.
    pose proof (si_refs _ _ _ Hi d) as Hrc. rewrite Ho, H0 in Hrc. pose proof (nxprt_nonneg d s).
    pose proof (si_world _ _ _ Hi d o Ho) as Hw.
    assert (forall r, own (pc_of r (dc_world o)) = None) as Hrest.
    { intros r. destruct (decide (own (pc_of r (dc_world o)) = None)) as [|Hn]; [done|].
      assert (holds (conn_of r s) = Some d) as Hh.
      { apply (si_inside _ _ _ Hi r d o Ho). intros E. by rewrite E in Hn. }
      pose proof (nconn_pos holds d r s eq_refl Hh). lia. }
    destruct (wp_free_entries (drc_dupreq_q (w_drc (dc_world o))) (dc_world o)) as [w' ->].
    { destruct Hw as (m & Hr & _). apply Hr. }
    { intros dv Hdv. destruct (queue_entry ts _ dv Hw Hdv) as [e He]. exists e. split; [done|].
      by apply (entries_at_rest ts (dc_world o) Hw Hrest dv e). }
    wp_go. eapply wp_mono; [apply IH|]; simpl.
    + apply st_free; try done. apply Hset. left.
    + done.
    + intros y Hy. destruct (Hset y) as [H1 H2]; [by right|]. split; [exact H1|].
      intros oy. simpl. rewrite lookup_delete_Some. intros [_ ?]. auto.
    + by intros [] s' (? & ? & ?).
Qed.

Lemma wp_expire r x d now s :
  st_inv ts xs s -> r ∈ ts -> conn_of r s = C_expire x d -> (forall d', d' ∈ st_recycle_q s -> drc_settled s d') ->
  wp (drc_free_expired recycle_hiwat expire_delta now;; modify (set_conn r (C_in x d))) (fun _ => st_inv ts xs) s.
Proof.
  intros Hi Hr Hpc Hset.
  assert (forall s', st_inv ts xs s' -> st_pcs s' = st_pcs s -> st_inv ts xs (set_conn r (C_in x d) s')) as Hgo.
  { intros s' Hi' Ep. assert (conn_of r s' = C_expire x d) as E by (unfold conn_of; rewrite Ep; exact Hpc).
    st_plain s' r; rewrite ?E; try done. pose proof (si_conn _ _ _ Hi' r) as Hc. by rewrite E in Hc. }
  unfold drc_free_expired. apply wp_bind, wp_bind, wp_gets. unfold id. destruct (_ && _).
  - apply wp_ret, wp_modify. by apply Hgo.
  - eapply wp_mono; [by apply wp_free_loop|]. intros [] s' (Hi' & Ep & _). apply wp_modify. by apply Hgo.
Qed.

(** ** Every step *)

Lemma wp_conn_step r m s :
  st_inv ts xs s -> r ∈ ts -> conn_step npart cachesz maxsize hiwat recycle_hiwat expire_delta r s m ->
  wp m (fun _ s' => dom (st_xprts s') ⊆ xs -> st_inv ts xs s') s.
Proof.
  intros Hi Hr Hs.
  assert (wp m (fun _ => st_inv ts xs) s -> wp m (fun _ s' => dom (st_xprts s') ⊆ xs -> st_inv ts xs s') s) as Hd
    by (intros H; eapply wp_mono; [exact H|]; by intros).
  destruct Hs as [x a Hx|x xp Hc Hx _|x Hc|x Hc|x d now Hc _ Hset|x d i o Hc Ho _ _|d|x d o Hc Ho Hp|x d o Hc Ho Hp|
                  d now Hc _|d Hc|x xp Hc Hx _ Hon].
  - wp_go. intros Hdom. apply st_xprt; try done; [by rewrite Hx|]. intros r' E. pose proof (si_conn _ _ _ Hi r') as Hok.
    destruct (conn_of r' s); simpl in *; simplify_eq; rewrite Hx in Hok; try by destruct Hok. all: by destruct Hok as (? & ? & _).
  - apply Hd. wp_go. st_plain s r; rewrite ?Hc; try done. by exists xp.
  - by apply Hd, wp_look.
  - by apply Hd, wp_slow.
  - by apply Hd, wp_expire.
  - apply Hd. eapply wp_mono; [by apply (wp_inside r x d)|]. by intros [] s' [? _].
  - apply Hd. destruct (st_drcs s !! d) as [o|] eqn:Ho; [by eapply wp_window_inside|by apply wp_ret].
  - by apply Hd, (wp_put_call r x d o).
  - apply Hd. wp_go. st_plain s r; by rewrite Hc.
  - by apply Hd, wp_recycle.
  - by apply Hd, wp_unlock.
  - by eapply Hd, wp_destroy.
Qed.

Lemma st_inv_init : st_inv ts xs st_init.
Proof.
  constructor; simpl; try done.
  - constructor.
  - intros d. split; [by intros ?%elem_of_nil|]. intros (o & Ho & _). by rewrite lookup_empty in Ho.
  - intros a d. rewrite lookup_empty. split; [done|]. intros (o & Ho & _). by rewrite lookup_empty in Ho.
Qed.

Lemma conn_next_inv s s' :
  st_inv ts xs s -> conn_next npart cachesz maxsize hiwat recycle_hiwat expire_delta ts xs s s' -> st_inv ts xs s'.
Proof.
  intros Hi (r & m & Hr & Hs & E & Hdom). pose proof (wp_conn_step r m s Hi Hr Hs) as Hwp.
  apply wp_run in Hwp as ([] & s0 & E0 & Hi'). rewrite E in E0. injection E0 as <-. auto.
Qed.

Lemma st_reachable_inv s :
  st_reachable npart cachesz maxsize hiwat recycle_hiwat expire_delta ts xs s -> st_inv ts xs s.
Proof.
  apply (rtc_ind_r (st_inv ts xs) st_init); [apply st_inv_init|]. intros s1 s2 _ Hn Hi. by eapply conn_next_inv.
Qed.

(** C32: whatever the connections and requests of all clients do: every step is defined, so
    that no freed cache is used, and the assertions on the counts of a cache and of
    its entries hold when it is freed; a cache is counted exactly by its connections
    and by the requests that took a reference; the caches of connections and requests
    are allocated; the queue holds those without references, and no two caches serve
    the same address. *)
Theorem drc_lives_while_used s :
  st_reachable npart cachesz maxsize hiwat recycle_hiwat expire_delta ts xs s ->
  (forall r m, r ∈ ts -> conn_step npart cachesz maxsize hiwat recycle_hiwat expire_delta r s m ->
     exists s', m s = Some (tt, s')) /\
  (forall d o, st_drcs s !! d = Some o ->
     dc_refcnt o = nxprt d s + nconn holds d s /\ (d ∈ st_recycle_q s -> dc_refcnt o = 0) /\
     log_ok (w_log (dc_world o))) /\
  (forall x xp d, st_xprts s !! x = Some xp -> xp_u2 xp = Some d -> is_Some (st_drcs s !! d)) /\
  (forall r d, holds (conn_of r s) = Some d -> is_Some (st_drcs s !! d)) /\
  (forall d1 d2 o1 o2, st_drcs s !! d1 = Some o1 -> st_drcs s !! d2 = Some o2 -> dc_addr o1 = dc_addr o2 -> d1 = d2).
Proof.
  intros Hs. apply st_reachable_inv in Hs as Hi. split_and!.
  - intros r m Hr Hm. pose proof (wp_conn_step r m s Hi Hr Hm) as Hwp. apply wp_run in Hwp as ([] & s' & E & _). eauto.
  - intros d o Ho. pose proof (si_refs _ _ _ Hi d) as Hrc. rewrite Ho in Hrc. split_and!; [done| |].
    + intros (o' & Ho' & Hf)%(si_queue _ _ _ Hi). assert (o' = o) as -> by congruence. by eapply si_flag.
    + destruct (si_world _ _ _ Hi d o Ho) as (m & _ & _ & []). done.
  - intros x xp d Hx Hd. by eapply (drc_of_xprt ts xs s x xp).
  - intros r d Hh. by eapply (drc_holds ts xs s r).
  - intros d1 d2 o1 o2 H1 H2 E. assert (st_recycle_t s !! dc_addr o1 = Some d1) by (apply (si_table _ _ _ Hi); eauto).
    assert (st_recycle_t s !! dc_addr o1 = Some d2) by (apply (si_table _ _ _ Hi); eauto). congruence.
Qed.

(** ** Dropped requests *)

Definition conn_at (r : positive) (s : drc_st) : option conn_pc := st_pcs s !! r.

Lemma keeps_free_loop now q r : keeps conn_at r (free_loop recycle_hiwat expire_delta now q).
Proof. induction q as [|d q IH]; simpl; unfold get_drc; repeat (keep_step || done). Qed.

Lemma keeps_put_drc d r : keeps conn_at r (nfs_dupreq_put_drc r d).
Proof. unfold conn_at, nfs_dupreq_put_drc, get_drc. repeat keep_step. Qed.

(** A step of one thread moves no other, and none that is gone. *)
Lemma conn_step_other r m s s' r' d :
  conn_step npart cachesz maxsize hiwat recycle_hiwat expire_delta r s m -> m s = Some (tt, s') ->
  conn_of r' s = C_dropped d -> conn_of r' s' = C_dropped d.
Proof.
  intros Hs E Hd.
  assert (r' <> r -> keeps conn_at r m -> conn_of r' s' = C_dropped d) as Hother.
  { intros Hne Hk. unfold conn_of. specialize (Hk s tt s' E r' Hne). unfold conn_at in Hk. by rewrite Hk. }
  destruct Hs; try (apply Hother; [congruence|unfold conn_at,get_drc_look, get_drc_fast, get_drc_slow, drc_free_expired,
    inside, put_drc_recycle, nfs_rpc_free_user_data, get_drc, get_xprt;
    repeat (keep_step || apply keeps_free_loop || apply keeps_put_drc)]).
  - by injection E as <-.
  - destruct (st_drcs s !! d0); [|by injection E as <-].
    unfold inside, get_drc, mbind, M_bind, gets, deref in E. destruct (st_drcs s !! d0); [|done]. simpl in E.
    destruct (window_step _) as [[]|]; [|done]. by injection E as <-.
Qed.

(** A request that is dropped because too many of its duplicates wait never gives its
    reference to the cache back: the cache is never queued and never freed again. *)
Theorem dropped_request_keeps_drc s s' r d :
  st_reachable npart cachesz maxsize hiwat recycle_hiwat expire_delta ts xs s -> conn_of r s = C_dropped d ->
  rtc (conn_next npart cachesz maxsize hiwat recycle_hiwat expire_delta ts xs) s s' ->
  exists o, st_drcs s' !! d = Some o /\ 1 <= dc_refcnt o /\ d ∉ st_recycle_q s'.
Proof.
  intros Hs Hd Hsteps. assert (st_reachable npart cachesz maxsize hiwat recycle_hiwat expire_delta ts xs s') as Hs'
    by (unfold st_reachable in *; by etrans).
  apply st_reachable_inv in Hs' as Hi. clear Hs Hs'.
  assert (conn_of r s' = C_dropped d) as Hd'.
  { induction Hsteps as [|s1 s2 s3 (r1 & m & _ & Hm & E & _) _ IH]; [done|]. apply IH; [|done]. by eapply conn_step_other. }
  assert (holds (conn_of r s') = Some d) as Hh by by rewrite Hd'.
  destruct (drc_holds ts xs s' r d Hi Hh) as [o Ho]. exists o. pose proof (si_refs _ _ _ Hi d) as Hrc. rewrite Ho in Hrc.
  pose proof (nconn_pos holds d r s' eq_refl Hh). pose proof (nxprt_nonneg d s').
  destruct (held_not_recycled s' d o Hi Ho ltac:(lia)) as (_ & Hq & _). split_and!; [done|lia|done].
Qed.
End steps.
