(* ===== verification/DrcExamples.v ===== *)
(** * Runs of the duplicate request cache

    Concrete runs of [Dupreq] and [DrcRecycle]: the theorems about the cache applied to
    them, and the behaviours of the code that its comments do not promise. *)
From S2P Require Import Prelude Compound Rbtree RbtreeX Dupreq DupreqInv DupreqTheorems DrcRecycle DrcRecycleInv.
Local Open Scope Z_scope.

(** ** Runs inside one cache *)

Fixpoint drc_run (l : list (positive * input)) (w : world) : option world :=
  match l with
  | [] => Some w
  | (r, i) :: l => match request_step r i w with Some (_, w') => drc_run l w' | None => None end
  end.

Lemma drc_run_reachable npart cachesz maxsize hiwat ts l w w' :
  drc_reachable npart cachesz maxsize hiwat ts w -> Forall (fun ri => ri.1 ∈ ts) l -> drc_run l w = Some w' ->
  drc_reachable npart cachesz maxsize hiwat ts w'.
Proof.
  revert w. induction l as [|[r i] l IH]; intros w Hw Hl E; simpl in E; [by injection E as <-|].
  apply Forall_cons in Hl as [Hr Hl]. destruct (request_step r i w) as [[[] w1]|] eqn:E1; [|done].
  apply (IH w1); [|done|done]. eapply dr_step; [exact Hw|]. by apply (step_request _ _ _ r i).
Qed.

(** Requests of one client, by transaction id. *)
Definition xid (n : Z) : dupreq_key :=
  {| hin_addr := hin_addr (rq_key no_request); rq_xid := n; dk_hk := 1000 + n |}.

(** A request arrives and finds its entry. *)
Definition arrive (r : positive) (n : Z) : list (positive * input) := [(r, In_request (xid n)); (r, In_none)].
(** A new request arrives and starts to execute. *)
Definition start_new (r : positive) (n : Z) : list (positive * input) := arrive r n ++ [(r, In_none)].
(** Its handler answers [a] and the reply is sent, or not. *)
Definition answer (r : positive) (a : Z) (sent : bool) : list (positive * input) :=
  [(r, In_handled NFS_REQ_OK a); (r, In_sent sent)].
Definition steps (r : positive) (n : nat) : list (positive * input) := replicate n (r, In_none).

Definition callers : gset positive := {[1; 2; 3; 4; 5]}%positive.

(** A cache with 7 partitions of 3 slots that retires above 2 entries. *)
Definition empty_cache : world := drc_world (alloc_tcp_drc 7 3 4 2).
Definition run_from (l : list (positive * input)) : world := default empty_cache (drc_run l empty_cache).

Lemma run_from_reachable l :
  Forall (fun ri => ri.1 ∈ callers) l -> is_Some (drc_run l empty_cache) -> drc_reachable 7 3 4 2 callers (run_from l).
Proof.
  intros Hl [w E]. eapply drc_run_reachable; [apply dr_init|exact Hl|]. unfold run_from. unfold empty_cache in *. by rewrite E.
Qed.

Lemma callers_few : 2 * Z.of_nat (size callers) + 2 < 2 ^ 31.
Proof. vm_compute. reflexivity. Qed.

(** Request 1 is executed, answered and leaves; request 2, its retransmission, is
    answered from the cache; request 3, another one, has come to the cache. *)
Definition replayed : list (positive * input) :=
  start_new 1 7 ++ answer 1 42 true ++ steps 1 5 ++
  arrive 2 7 ++ [(2%positive, In_none); (2%positive, In_sent true)] ++ [(3%positive, In_request (xid 7))].

Lemma replayed_reachable : drc_reachable 7 3 4 2 callers (run_from replayed).
Proof. apply run_from_reachable; [by repeat constructor|by eexists; vm_compute]. Qed.

Lemma dupreq_entries_safe_witness :
  drc_reachable 7 3 4 2 callers (run_from replayed) /\
  exists w', request_step 2 In_none (run_from replayed) = Some (tt, w').
Proof.
  split; [apply replayed_reachable|].
  destruct (dupreq_entries_safe 7 3 4 2 callers callers_few (run_from replayed) replayed_reachable) as [H _].
  apply H. vm_compute. reflexivity.
Defined.

Lemma dupreq_answered_once_witness :
  w_log (run_from replayed) = [Replied (xid 7) 1 42; Replied (xid 7) 1 42; Executed (xid 7) 1 42] /\
  exists k', Executed k' 1 42 ∈ [Replied (xid 7) 1 42; Executed (xid 7) 1 42] /\ key_id k' = key_id (xid 7).
Proof.
  split; [vm_compute; reflexivity|].
  destruct (dupreq_answered_once 7 3 4 2 callers callers_few (run_from replayed) replayed_reachable) as [H _].
  apply (H [] (xid 7) 1%positive 42). vm_compute. reflexivity.
Defined.

Definition entry_of (w : world) (dv : positive) : dupreq_entry := default (alloc_dupreq (xid 0)) (w_entries w !! dv).

Lemma dupreq_cached_not_executed_witness :
  pc_of 3 (run_from replayed) = Start /\
  exists w', request_step 3 In_none (run_from replayed) = Some (tt, w') /\
    (pc_of 3 w' = Queued 1 \/ (dv_complete (entry_of (run_from replayed) 1) = true /\ pc_of 3 w' = Start_window 1) \/
     pc_of 3 w' = Dropped).
Proof.
  split; [vm_compute; reflexivity|].
  apply (dupreq_cached_not_executed 7 3 4 2 callers callers_few (run_from replayed) 1
           (entry_of (run_from replayed) 1) 3 In_none replayed_reachable).
  - vm_compute. left.
  - vm_compute. reflexivity.
  - vm_compute. reflexivity.
  - vm_compute. reflexivity.
  - vm_compute. reflexivity.
Defined.

(** Request 1 is executed while its retransmission 2 waits; its reply cannot be sent,
    and it resumes request 2. *)
Definition reply_lost : list (positive * input) :=
  start_new 1 7 ++ arrive 2 7 ++ answer 1 42 false ++ steps 1 2.

Lemma reply_lost_reachable : drc_reachable 7 3 4 2 callers (run_from reply_lost).
Proof. apply run_from_reachable; [by repeat constructor|by eexists; vm_compute]. Qed.

Lemma dupreq_never_resent_witness :
  pc_of 2 (run_from reply_lost) = Resume 1 /\
  dv_rc (entry_of (run_from reply_lost) 1) <> NFS_REQ_XPRT_DIED.
Proof.
  split; [vm_compute; reflexivity|].
  destruct (dupreq_never_resent 7 3 4 2 callers callers_few (run_from reply_lost) reply_lost_reachable) as [_ H].
  apply (H 2%positive 1%positive); vm_compute; reflexivity.
Defined.

(** ** Behaviours that the comments of the code do not promise *)

(** The request was executed, and its reply could not be sent.  The duplicate that
    waited leaves without sending it; the entry stays unfinished and nobody works on
    it, so that a further retransmission waits for ever. *)
Example lost_reply_is_not_resent :
  let w := run_from (reply_lost ++ steps 1 2 ++ steps 2 4 ++ arrive 3 7) in
  w_log w = [Executed (xid 7) 1 42] /\ pc_of 1 w = Idle /\ pc_of 2 w = Idle /\ pc_of 3 w = Queued 1 /\
  dv_complete (entry_of w 1) = false /\ nreq baton 1 w = 0.
Proof. vm_compute. repeat split. Qed.

(** The first attempt was dropped, the second executed the request and could not send
    the reply: the third duplicate sees the status of the first and executes it
    again. *)
Example executed_again_after_drop :
  let w := run_from (start_new 1 7 ++ arrive 2 7 ++ arrive 3 7 ++ [(1%positive, In_handled NFS_REQ_DROP 0)] ++
                     steps 1 4 ++ steps 2 1 ++ answer 2 42 false ++ steps 2 4 ++ steps 3 1 ++ answer 3 43 true) in
  w_log w = [Replied (xid 7) 1 43; Executed (xid 7) 1 43; Executed (xid 7) 1 42].
Proof. vm_compute. reflexivity. Qed.

(** An entry is retired while its request is executed: the retransmission gets an
    entry of its own, and the request is executed twice. *)
Example executed_twice_when_retired :
  let w := run_from (start_new 1 7 ++
                     start_new 2 8 ++ answer 2 50 true ++ steps 2 12 ++
                     start_new 2 9 ++ answer 2 51 true ++ steps 2 12 ++
                     start_new 2 10 ++ answer 2 52 true ++ steps 2 12 ++
                     start_new 3 7 ++ [(1%positive, In_handled NFS_REQ_OK 42); (3%positive, In_handled NFS_REQ_OK 43)]) in
  take 2 (w_log w) = [Executed (xid 7) 5 43; Executed (xid 7) 1 42].
Proof. vm_compute. reflexivity. Qed.

(** Removing a file through a LOOKUP is not cached, although removing it is. *)
Example lookup_hides_remove :
  nfs_dupreq_v4_cacheable 0 (compound_lookahead [A_OTHER; A_REMOVE]) = true /\
  nfs_dupreq_v4_cacheable 0 (compound_lookahead [A_OTHER; A_LOOKUP; A_REMOVE]) = false /\
  nfs_dupreq_v4_cacheable 0 (compound_lookahead [A_SETCLIENTID_CONFIRM]) = false.
Proof. by vm_compute. Qed.

(** Addresses of different families: each is greater than the other. *)
Example families_not_ordered :
  let v4 := {| ss_family := AF_INET; sin_port := 801; sin_addr := 0x0100000a; sin6_addr := 0 |} in
  let v6 := {| ss_family := AF_INET6; sin_port := 802; sin_addr := 0; sin6_addr := 0x20010db8000000000000000000000001 |} in
  sockaddr_cmpf v4 v6 false = 1 /\ sockaddr_cmpf v6 v4 false = 1.
Proof. by vm_compute. Qed.

(** ** Runs with connections *)

(** What happens next to a thread. *)
Inductive conn_input : Set :=
  | CI_accept (x : positive) (a : sockaddr_storage)
  | CI_request (x : positive)
  | CI_destroy (x : positive)
  | CI_go (now : Z) (i : input).

Section runs.
Context (npart cachesz maxsize hiwat recycle_hiwat expire_delta : Z) (ts xs : gset positive).

Definition open_xprt (x : positive) (s : drc_st) : bool :=
  match st_xprts s !! x with Some xp => xp_open xp | None => false end.

(** The step that a thread takes on an input, where the queue is empty when caches are
    to expire. *)
Definition conn_action (r : positive) (i : conn_input) (s : drc_st) : option (M drc_st unit) :=
  match i, conn_of r s with
  | CI_accept x a, _ =>
      match st_xprts s !! x with
      | None => Some (modify (set_xprt x {| xp_addr := a; xp_u2 := None; xp_open := true |}))
      | Some _ => None
      end
  | CI_request x, C_idle => if open_xprt x s then Some (modify (set_conn r (C_get x))) else None
  | CI_destroy x, C_idle =>
      if open_xprt x s && forallb (fun rp => bool_decide (on_xprt rp.2 <> Some x)) (map_to_list (st_pcs s))
      then Some (nfs_rpc_free_user_data r x) else None
  | CI_go _ _, C_get x => Some (get_drc_look r x)
  | CI_go _ _, C_slow x => Some (get_drc_slow npart cachesz maxsize hiwat r x)
  | CI_go now _, C_expire x d =>
      if (0 <? now) && bool_decide (st_recycle_q s = [])
      then Some (drc_free_expired recycle_hiwat expire_delta now;; modify (set_conn r (C_in x d))) else None
  | CI_go _ i, C_in x d =>
      match st_drcs s !! d with
      | Some o =>
          match pc_of r (dc_world o) with
          | Put_drc => Some (inside d (request_step r In_none);; nfs_dupreq_put_drc r d)
          | Dropped => Some (modify (set_conn r (C_dropped d)))
          | _ => Some (inside d (request_step r i))
          end
      | None => None
      end
  | CI_go now _, C_recycle d => if 0 <? now then Some (put_drc_recycle r d now) else None
  | CI_go _ _, C_unlock d => Some (_ ← get_drc d; modify (set_conn r C_idle))
  | _, _ => None
  end.

Lemma conn_action_step r i s m :
  conn_action r i s = Some m -> conn_step npart cachesz maxsize hiwat recycle_hiwat expire_delta r s m.
Proof.
  unfold conn_action, open_xprt. destruct i as [x a|x|x|now i], (conn_of r s) as [|y|y|y d|y d|d|d|d] eqn:Hc; intros E; try done.
  all: repeat case_match; simplify_eq; try (by econstructor); try (by eapply cs_inside; [done|done|congruence|congruence]).
  - apply andb_true_iff in H as [H1 H2].
    eapply cs_destroy; [done|done|done|]. intros r'. unfold conn_of. destruct (st_pcs s !! r') as [pc|] eqn:Hr; [|done].
    rewrite forallb_forall in H2. specialize (H2 (r', pc)). simpl. rewrite bool_decide_eq_true in H2. apply H2.
    apply list_elem_of_In. by apply elem_of_map_to_list.
  - apply andb_true_iff in H as [H1%Z.ltb_lt H2%bool_decide_eq_true]. constructor; [done|done|].
    rewrite H2. by intros ? ?%elem_of_nil.
  - constructor; [done|]. by apply Z.ltb_lt.
Qed.

Fixpoint conn_run (l : list (positive * conn_input)) (s : drc_st) : option drc_st :=
  match l with
  | [] => Some s
  | (r, i) :: l =>
      match conn_action r i s with
      | Some m =>
          match m s with
          | Some (_, s') => if bool_decide (r ∈ ts) && bool_decide (dom (st_xprts s') ⊆ xs) then conn_run l s' else None
          | None => None
          end
      | None => None
      end
  end.

Lemma conn_run_steps l s s' :
  conn_run l s = Some s' -> rtc (conn_next npart cachesz maxsize hiwat recycle_hiwat expire_delta ts xs) s s'.
Proof.
  revert s. induction l as [|[r i] l IH]; intros s E; simpl in E; [injection E as <-; reflexivity|].
  destruct (conn_action r i s) as [m|] eqn:Ea; [|done]. destruct (m s) as [[[] s1]|] eqn:Em; [|done].
  destruct (bool_decide _ && bool_decide _) eqn:Eb; [|done]. apply andb_true_iff in Eb as [H1 H2].
  apply bool_decide_eq_true in H1, H2. eapply rtc_l; [|by apply IH].
  exists r, m. split_and!; [done|by eapply conn_action_step|done|done].
Qed.
End runs.

(** One client on connection 1. *)
Definition the_xprts : gset positive := {[1; 2]}%positive.
Definition client : sockaddr_storage := {| ss_family := AF_INET; sin_port := 801; sin_addr := 0x0100000a; sin6_addr := 0 |}.

Definition conn_go (r : positive) (i : input) : positive * conn_input := (r, CI_go 1000 i).
Definition conn_steps (r : positive) (n : nat) : list (positive * conn_input) := replicate n (conn_go r In_none).

(** A request comes to its cache over a connection that has one. *)
Definition conn_arrive (r x : positive) (n : Z) : list (positive * conn_input) :=
  [(r, CI_request x); conn_go r In_none; conn_go r (In_request (xid n)); conn_go r In_none].

(** The first request of the connection starts; three duplicates wait, the fourth is
    dropped. *)
Definition too_many_dupes : list (positive * conn_input) :=
  [(1%positive, CI_accept 1 client); (1%positive, CI_request 1)] ++ conn_steps 1 3 ++
  [conn_go 1 (In_request (xid 7))] ++ conn_steps 1 2 ++
  conn_arrive 2 1 7 ++ conn_arrive 3 1 7 ++ conn_arrive 4 1 7 ++ conn_arrive 5 1 7 ++ conn_steps 5 1.

Definition conn_scene (l : list (positive * conn_input)) : drc_st :=
  default st_init (conn_run 7 3 4 2 1024 600 callers the_xprts l st_init).

Lemma too_many_dupes_reachable : st_reachable 7 3 4 2 1024 600 callers the_xprts (conn_scene too_many_dupes).
Proof. apply (conn_run_steps 7 3 4 2 1024 600 callers the_xprts too_many_dupes). vm_compute. reflexivity. Qed.

Lemma xprts_few : Z.of_nat (size the_xprts) < 2 ^ 31.
Proof. vm_compute. reflexivity. Qed.

Definition drc_of (s : drc_st) (d : positive) : option Z := dc_refcnt <$> st_drcs s !! d.

Lemma drc_lives_while_used_witness :
  drc_of (conn_scene too_many_dupes) 1 = Some 6 /\ is_Some (st_drcs (conn_scene too_many_dupes) !! 1%positive).
Proof.
  split; [vm_compute; reflexivity|].
  destruct (drc_lives_while_used callers the_xprts callers_few xprts_few 7 3 4 2 1024 600 ltac:(lia)
              (conn_scene too_many_dupes) too_many_dupes_reachable) as (_ & _ & _ & H & _).
  apply (H 5%positive). vm_compute. reflexivity.
Defined.

Lemma dropped_request_keeps_drc_witness :
  conn_of 5 (conn_scene too_many_dupes) = C_dropped 1 /\
  exists o, st_drcs (conn_scene too_many_dupes) !! 1%positive = Some o /\ 1 <= dc_refcnt o /\
    1%positive ∉ st_recycle_q (conn_scene too_many_dupes).
Proof.
  split; [vm_compute; reflexivity|].
  apply (dropped_request_keeps_drc callers the_xprts callers_few xprts_few 7 3 4 2 1024 600 ltac:(lia)
           (conn_scene too_many_dupes) (conn_scene too_many_dupes) 5 1 too_many_dupes_reachable).
  - vm_compute. reflexivity.
  - apply rtc_refl.
Defined.

(** A client whose reply was sent over connection 1 loses it, reconnects and sends the
    request again: it gets the cache back, and the same reply. *)
Example reconnected_client_gets_reply :
  let s := conn_scene ([(1%positive, CI_accept 1 client); (1%positive, CI_request 1)] ++ conn_steps 1 3 ++
                       [conn_go 1 (In_request (xid 7))] ++ conn_steps 1 2 ++
                       [conn_go 1 (In_handled NFS_REQ_OK 42); conn_go 1 (In_sent true)] ++ conn_steps 1 5 ++
                       [(2%positive, CI_destroy 1)] ++ conn_steps 2 2 ++ [(2%positive, CI_accept 2 client)]) in
  let s' := conn_scene ([(1%positive, CI_accept 1 client); (1%positive, CI_request 1)] ++ conn_steps 1 3 ++
                       [conn_go 1 (In_request (xid 7))] ++ conn_steps 1 2 ++
                       [conn_go 1 (In_handled NFS_REQ_OK 42); conn_go 1 (In_sent true)] ++ conn_steps 1 5 ++
                       [(2%positive, CI_destroy 1)] ++ conn_steps 2 2 ++ [(2%positive, CI_accept 2 client)] ++
                       [(3%positive, CI_request 2)] ++ conn_steps 3 3 ++ [conn_go 3 (In_request (xid 7))] ++
                       conn_steps 3 2 ++ [conn_go 3 (In_sent true)]) in
  st_recycle_q s = [1%positive] /\ drc_of s 1 = Some 0 /\
  st_recycle_q s' = [] /\ drc_of s' 1 = Some 2 /\
  (w_log ∘ dc_world <$> st_drcs s' !! 1%positive) =
    Some [Replied (xid 7) 1 42; Replied (xid 7) 1 42; Executed (xid 7) 1 42].
Proof. vm_compute. repeat split. Qed.

(** ** The tree of entries *)

(** Entries 1 to [n] in the order of their transaction ids. *)
Definition ascending (n : nat) : list (tree_op (node := dupreq_node)) :=
  (fun i => Insert {| nd_key := xid (Z.of_nat i); nd_id := Pos.of_nat i |}) <$> seq 1 n.

Definition the_entry (i : positive) : dupreq_node := {| nd_key := xid (Zpos i); nd_id := i |}.

(** A chain of insertions stays flat, and so does the tree after the removal of the root
    and of two other nodes. *)
Example ascending_tree :
  (fun t => (height (rt_root t), nd_id <$> nodes (rt_root t), rt_size t)) <$>
    tree_run dupreq_tcp_cmpf opr_rbtree_init
      (ascending 7 ++ [Remove (the_entry 4); Remove (the_entry 1); Remove (the_entry 6)]) =
  Some (3%nat, [2; 3; 5; 7]%positive, 4).
Proof. vm_compute. reflexivity. Qed.

Lemma rbtree_refines_map_witness :
  exists t, tree_run dupreq_tcp_cmpf opr_rbtree_init (ascending 7 ++ [Remove (the_entry 4)]) = Some t /\
    opr_rbtree_lookup dupreq_tcp_cmpf t (the_entry 4) = None /\
    opr_rbtree_lookup dupreq_tcp_cmpf t (the_entry 5) = Some (the_entry 5).
Proof.
  destruct (rbtree_refines_map dupreq_tcp_cmpf node_id (ascending 7 ++ [Remove (the_entry 4)]))
    as (t & Ht & Hl & _).
  exists t. split; [exact Ht|]. rewrite !Hl. split; vm_compute; reflexivity.
Defined.
