(* ===== verification/StateTable.v ===== *)
(** * NFSv4 states: the state table

    [SAL/nfs4_state.c] and the tables of [SAL/nfs4_state_id.c]: states ([state_t]) hashed
    by the "other" part of their stateid and by file and owner, linked on the lists of
    their file, owner and export, each link with a reference; the reference counts of
    states and of NFSv4 owners, and what happens when one reaches zero.

    Every function runs under the lock the source takes for it ([st_lock] and the mutexes
    of the structures), so a call is one step here. *)
From S2P Require Import Prelude Status Owners Lease VfsHandle.
Local Open Scope Z_scope.

(** ** Data *)

Inductive state_type_t : Set :=
  | STATE_TYPE_NONE | STATE_TYPE_SHARE | STATE_TYPE_DELEG | STATE_TYPE_LOCK
  | STATE_TYPE_LAYOUT | STATE_TYPE_NLM_LOCK | STATE_TYPE_NLM_SHARE | STATE_TYPE_9P_FID.
#[export] Instance state_type_t_eq_dec : EqDecision state_type_t.
Proof. solve_decision. Defined.

Inductive open_delegation_type4 : Set :=
  | OPEN_DELEGATE_NONE | OPEN_DELEGATE_READ | OPEN_DELEGATE_WRITE | OPEN_DELEGATE_NONE_EXT.
#[export] Instance open_delegation_type4_eq_dec : EqDecision open_delegation_type4.
Proof. solve_decision. Defined.

Record state_share_t : Set := {
  share_access : Z; share_deny : Z; share_access_prev : Z; share_deny_prev : Z
}.

(** The members of [union state_data] this code reads; the lists the members hold are
    families of the world below. *)
Inductive state_data_u : Set :=
  | data_share (share : state_share_t)
  | data_lock (openstate_key : list Z)
  | data_deleg (sd_type : open_delegation_type4)
  | data_none.

Record state_t : Set := {
  state_export : option positive;
  state_owner : option positive;
  state_obj : option positive;
  state_data : state_data_u;
  state_type : state_type_t;
  state_seqid : Z;
  state_refcount : Z;
  stateid_other : list Z
}.

Record stateid4 : Set := { seqid : Z; other : list Z }.
#[export] Instance stateid4_eq_dec : EqDecision stateid4.
Proof. solve_decision. Defined.

Inductive nfs_opnum4 : Set :=
  | NFS4_OP_CLOSE | NFS4_OP_LOCK | NFS4_OP_LOCKU | NFS4_OP_OPEN
  | NFS4_OP_OPEN_CONFIRM | NFS4_OP_OPEN_DOWNGRADE.
#[export] Instance nfs_opnum4_eq_dec : EqDecision nfs_opnum4.
Proof. solve_decision. Defined.

(** A response of one of those operations: all of them have the status in the same place
    and, when they succeed, a stateid. *)
Record nfs_resop4 : Set := { resop : nfs_opnum4; status : nfsstat4; res_stateid : stateid4 }.

(** The changing fields of an NFSv4 owner; the ones that identify it are in [OwnerMem].
    Of [so_args] only the operation is ever compared. *)
Record nfs4_owner_t : Set := {
  so_refcount : Z;
  so_confirmed : bool;
  so_seqid : Z;
  so_args : nfs_opnum4;
  so_last_entry : option positive;
  so_resp : nfs_resop4;
  so_cache_expire : Z
}.

Record v4_client_t : Set := {
  cid_clientid : Z;
  cid_stateid_counter : Z;
  cid_refcount : Z;
  cid_lease : nfs_client_id_t
}.

(** [state_hdl->file], without the lists. *)
Record state_file_t : Set := {
  fds_num_write_opens : Z;
  write_delegated : bool;
  write_deleg_client : option positive
}.

(** [L] is the state of the layers below: byte-range locks and the FSAL. *)
Record v4_world (L : Type) := {
  v4_states : gmap positive state_t;                 (* live states *)
  v4_owners : gmap positive nfs4_owner_t;            (* live NFSv4 owners *)
  v4_clients : gmap positive v4_client_t;            (* live client id records *)
  v4_files : gmap positive state_file_t;
  ht_state_id : gmap (list Z) positive;
  ht_state_obj : list positive;
  ht_nfs4_owner : list positive;
  ht_confirmed_client_id : gmap Z positive;
  list_of_states : gmap positive (list positive);    (* of a file *)
  so_state_list : gmap positive (list positive);     (* of an owner *)
  exp_state_list : gmap positive (list positive);    (* of an export *)
  share_lockstates : gmap positive (list positive);  (* of an open state *)
  cid_owners : gmap positive (list positive);        (* so_perclient, of a client *)
  cached_open_owners : list positive;
  obj_refs : gmap positive Z;                        (* references taken on a file *)
  export_refs : gmap positive Z;                     (* and on an export *)
  v4_next : positive;                                (* next address to allocate *)
  v4_lock : L
}.
Arguments v4_states {L} _.
Arguments v4_owners {L} _.
Arguments v4_clients {L} _.
Arguments v4_files {L} _.
Arguments ht_state_id {L} _.
Arguments ht_state_obj {L} _.
Arguments ht_nfs4_owner {L} _.
Arguments ht_confirmed_client_id {L} _.
Arguments list_of_states {L} _.
Arguments so_state_list {L} _.
Arguments exp_state_list {L} _.
Arguments share_lockstates {L} _.
Arguments cid_owners {L} _.
Arguments cached_open_owners {L} _.
Arguments obj_refs {L} _.
Arguments export_refs {L} _.
Arguments v4_next {L} _.
Arguments v4_lock {L} _.

(** Equality of worlds is equality of their fields. *)
Lemma v4_world_ext {L} (w w' : v4_world L) :
  v4_states w = v4_states w' -> v4_owners w = v4_owners w' -> v4_clients w = v4_clients w' ->
  v4_files w = v4_files w' -> ht_state_id w = ht_state_id w' -> ht_state_obj w = ht_state_obj w' ->
  ht_nfs4_owner w = ht_nfs4_owner w' -> ht_confirmed_client_id w = ht_confirmed_client_id w' ->
  list_of_states w = list_of_states w' -> so_state_list w = so_state_list w' ->
  exp_state_list w = exp_state_list w' -> share_lockstates w = share_lockstates w' ->
  cid_owners w = cid_owners w' -> cached_open_owners w = cached_open_owners w' ->
  obj_refs w = obj_refs w' -> export_refs w = export_refs w' -> v4_next w = v4_next w' ->
  v4_lock w = v4_lock w' ->
  w = w'.
Proof. destruct w, w'. simpl. intros. by subst. Qed.

(** Updates of one field. *)
Section setters.
Context {L : Type}.
Definition set_states (f : gmap positive state_t -> gmap positive state_t) (w : v4_world L) : v4_world L :=
  {| v4_states := f (v4_states w); v4_owners := v4_owners w; v4_clients := v4_clients w;
     v4_files := v4_files w; ht_state_id := ht_state_id w; ht_state_obj := ht_state_obj w;
     ht_nfs4_owner := ht_nfs4_owner w; ht_confirmed_client_id := ht_confirmed_client_id w;
     list_of_states := list_of_states w; so_state_list := so_state_list w;
     exp_state_list := exp_state_list w; share_lockstates := share_lockstates w;
     cid_owners := cid_owners w; cached_open_owners := cached_open_owners w; obj_refs := obj_refs w;
     export_refs := export_refs w; v4_next := v4_next w; v4_lock := v4_lock w |}.
Definition set_owners (f : gmap positive nfs4_owner_t -> gmap positive nfs4_owner_t) (w : v4_world L) : v4_world L :=
  {| v4_states := v4_states w; v4_owners := f (v4_owners w); v4_clients := v4_clients w;
     v4_files := v4_files w; ht_state_id := ht_state_id w; ht_state_obj := ht_state_obj w;
     ht_nfs4_owner := ht_nfs4_owner w; ht_confirmed_client_id := ht_confirmed_client_id w;
     list_of_states := list_of_states w; so_state_list := so_state_list w;
     exp_state_list := exp_state_list w; share_lockstates := share_lockstates w;
     cid_owners := cid_owners w; cached_open_owners := cached_open_owners w; obj_refs := obj_refs w;
     export_refs := export_refs w; v4_next := v4_next w; v4_lock := v4_lock w |}.
Definition set_clients (f : gmap positive v4_client_t -> gmap positive v4_client_t) (w : v4_world L) : v4_world L :=
  {| v4_states := v4_states w; v4_owners := v4_owners w; v4_clients := f (v4_clients w);
     v4_files := v4_files w; ht_state_id := ht_state_id w; ht_state_obj := ht_state_obj w;
     ht_nfs4_owner := ht_nfs4_owner w; ht_confirmed_client_id := ht_confirmed_client_id w;
     list_of_states := list_of_states w; so_state_list := so_state_list w;
     exp_state_list := exp_state_list w; share_lockstates := share_lockstates w;
     cid_owners := cid_owners w; cached_open_owners := cached_open_owners w; obj_refs := obj_refs w;
     export_refs := export_refs w; v4_next := v4_next w; v4_lock := v4_lock w |}.
Definition set_files (f : gmap positive state_file_t -> gmap positive state_file_t) (w : v4_world L) : v4_world L :=
  {| v4_states := v4_states w; v4_owners := v4_owners w; v4_clients := v4_clients w;
     v4_files := f (v4_files w); ht_state_id := ht_state_id w; ht_state_obj := ht_state_obj w;
     ht_nfs4_owner := ht_nfs4_owner w; ht_confirmed_client_id := ht_confirmed_client_id w;
     list_of_states := list_of_states w; so_state_list := so_state_list w;
     exp_state_list := exp_state_list w; share_lockstates := share_lockstates w;
     cid_owners := cid_owners w; cached_open_owners := cached_open_owners w; obj_refs := obj_refs w;
     export_refs := export_refs w; v4_next := v4_next w; v4_lock := v4_lock w |}.
Definition set_ht_id (f : gmap (list Z) positive -> gmap (list Z) positive) (w : v4_world L) : v4_world L :=
  {| v4_states := v4_states w; v4_owners := v4_owners w; v4_clients := v4_clients w;
     v4_files := v4_files w; ht_state_id := f (ht_state_id w); ht_state_obj := ht_state_obj w;
     ht_nfs4_owner := ht_nfs4_owner w; ht_confirmed_client_id := ht_confirmed_client_id w;
     list_of_states := list_of_states w; so_state_list := so_state_list w;
     exp_state_list := exp_state_list w; share_lockstates := share_lockstates w;
     cid_owners := cid_owners w; cached_open_owners := cached_open_owners w; obj_refs := obj_refs w;
     export_refs := export_refs w; v4_next := v4_next w; v4_lock := v4_lock w |}.
Definition set_ht_obj (f : list positive -> list positive) (w : v4_world L) : v4_world L :=
  {| v4_states := v4_states w; v4_owners := v4_owners w; v4_clients := v4_clients w;
     v4_files := v4_files w; ht_state_id := ht_state_id w; ht_state_obj := f (ht_state_obj w);
     ht_nfs4_owner := ht_nfs4_owner w; ht_confirmed_client_id := ht_confirmed_client_id w;
     list_of_states := list_of_states w; so_state_list := so_state_list w;
     exp_state_list := exp_state_list w; share_lockstates := share_lockstates w;
     cid_owners := cid_owners w; cached_open_owners := cached_open_owners w; obj_refs := obj_refs w;
     export_refs := export_refs w; v4_next := v4_next w; v4_lock := v4_lock w |}.
Definition set_ht_owner (f : list positive -> list positive) (w : v4_world L) : v4_world L :=
  {| v4_states := v4_states w; v4_owners := v4_owners w; v4_clients := v4_clients w;
     v4_files := v4_files w; ht_state_id := ht_state_id w; ht_state_obj := ht_state_obj w;
     ht_nfs4_owner := f (ht_nfs4_owner w); ht_confirmed_client_id := ht_confirmed_client_id w;
     list_of_states := list_of_states w; so_state_list := so_state_list w;
     exp_state_list := exp_state_list w; share_lockstates := share_lockstates w;
     cid_owners := cid_owners w; cached_open_owners := cached_open_owners w; obj_refs := obj_refs w;
     export_refs := export_refs w; v4_next := v4_next w; v4_lock := v4_lock w |}.
Definition set_file_list (f : gmap positive (list positive) -> gmap positive (list positive)) (w : v4_world L) : v4_world L :=
  {| v4_states := v4_states w; v4_owners := v4_owners w; v4_clients := v4_clients w;
     v4_files := v4_files w; ht_state_id := ht_state_id w; ht_state_obj := ht_state_obj w;
     ht_nfs4_owner := ht_nfs4_owner w; ht_confirmed_client_id := ht_confirmed_client_id w;
     list_of_states := f (list_of_states w); so_state_list := so_state_list w;
     exp_state_list := exp_state_list w; share_lockstates := share_lockstates w;
     cid_owners := cid_owners w; cached_open_owners := cached_open_owners w; obj_refs := obj_refs w;
     export_refs := export_refs w; v4_next := v4_next w; v4_lock := v4_lock w |}.
Definition set_owner_list (f : gmap positive (list positive) -> gmap positive (list positive)) (w : v4_world L) : v4_world L :=
  {| v4_states := v4_states w; v4_owners := v4_owners w; v4_clients := v4_clients w;
     v4_files := v4_files w; ht_state_id := ht_state_id w; ht_state_obj := ht_state_obj w;
     ht_nfs4_owner := ht_nfs4_owner w; ht_confirmed_client_id := ht_confirmed_client_id w;
     list_of_states := list_of_states w; so_state_list := f (so_state_list w);
     exp_state_list := exp_state_list w; share_lockstates := share_lockstates w;
     cid_owners := cid_owners w; cached_open_owners := cached_open_owners w; obj_refs := obj_refs w;
     export_refs := export_refs w; v4_next := v4_next w; v4_lock := v4_lock w |}.
Definition set_export_list (f : gmap positive (list positive) -> gmap positive (list positive)) (w : v4_world L) : v4_world L :=
  {| v4_states := v4_states w; v4_owners := v4_owners w; v4_clients := v4_clients w;
     v4_files := v4_files w; ht_state_id := ht_state_id w; ht_state_obj := ht_state_obj w;
     ht_nfs4_owner := ht_nfs4_owner w; ht_confirmed_client_id := ht_confirmed_client_id w;
     list_of_states := list_of_states w; so_state_list := so_state_list w;
     exp_state_list := f (exp_state_list w); share_lockstates := share_lockstates w;
     cid_owners := cid_owners w; cached_open_owners := cached_open_owners w; obj_refs := obj_refs w;
     export_refs := export_refs w; v4_next := v4_next w; v4_lock := v4_lock w |}.
Definition set_lockstates (f : gmap positive (list positive) -> gmap positive (list positive)) (w : v4_world L) : v4_world L :=
  {| v4_states := v4_states w; v4_owners := v4_owners w; v4_clients := v4_clients w;
     v4_files := v4_files w; ht_state_id := ht_state_id w; ht_state_obj := ht_state_obj w;
     ht_nfs4_owner := ht_nfs4_owner w; ht_confirmed_client_id := ht_confirmed_client_id w;
     list_of_states := list_of_states w; so_state_list := so_state_list w;
     exp_state_list := exp_state_list w; share_lockstates := f (share_lockstates w);
     cid_owners := cid_owners w; cached_open_owners := cached_open_owners w; obj_refs := obj_refs w;
     export_refs := export_refs w; v4_next := v4_next w; v4_lock := v4_lock w |}.
Definition set_cid_owners (f : gmap positive (list positive) -> gmap positive (list positive)) (w : v4_world L) : v4_world L :=
  {| v4_states := v4_states w; v4_owners := v4_owners w; v4_clients := v4_clients w;
     v4_files := v4_files w; ht_state_id := ht_state_id w; ht_state_obj := ht_state_obj w;
     ht_nfs4_owner := ht_nfs4_owner w; ht_confirmed_client_id := ht_confirmed_client_id w;
     list_of_states := list_of_states w; so_state_list := so_state_list w;
     exp_state_list := exp_state_list w; share_lockstates := share_lockstates w;
     cid_owners := f (cid_owners w); cached_open_owners := cached_open_owners w; obj_refs := obj_refs w;
     export_refs := export_refs w; v4_next := v4_next w; v4_lock := v4_lock w |}.
Definition set_cached (f : list positive -> list positive) (w : v4_world L) : v4_world L :=
  {| v4_states := v4_states w; v4_owners := v4_owners w; v4_clients := v4_clients w;
     v4_files := v4_files w; ht_state_id := ht_state_id w; ht_state_obj := ht_state_obj w;
     ht_nfs4_owner := ht_nfs4_owner w; ht_confirmed_client_id := ht_confirmed_client_id w;
     list_of_states := list_of_states w; so_state_list := so_state_list w;
     exp_state_list := exp_state_list w; share_lockstates := share_lockstates w;
     cid_owners := cid_owners w; cached_open_owners := f (cached_open_owners w); obj_refs := obj_refs w;
     export_refs := export_refs w; v4_next := v4_next w; v4_lock := v4_lock w |}.
Definition set_obj_refs (f : gmap positive Z -> gmap positive Z) (w : v4_world L) : v4_world L :=
  {| v4_states := v4_states w; v4_owners := v4_owners w; v4_clients := v4_clients w;
     v4_files := v4_files w; ht_state_id := ht_state_id w; ht_state_obj := ht_state_obj w;
     ht_nfs4_owner := ht_nfs4_owner w; ht_confirmed_client_id := ht_confirmed_client_id w;
     list_of_states := list_of_states w; so_state_list := so_state_list w;
     exp_state_list := exp_state_list w; share_lockstates := share_lockstates w;
     cid_owners := cid_owners w; cached_open_owners := cached_open_owners w; obj_refs := f (obj_refs w);
     export_refs := export_refs w; v4_next := v4_next w; v4_lock := v4_lock w |}.
Definition set_export_refs (f : gmap positive Z -> gmap positive Z) (w : v4_world L) : v4_world L :=
  {| v4_states := v4_states w; v4_owners := v4_owners w; v4_clients := v4_clients w;
     v4_files := v4_files w; ht_state_id := ht_state_id w; ht_state_obj := ht_state_obj w;
     ht_nfs4_owner := ht_nfs4_owner w; ht_confirmed_client_id := ht_confirmed_client_id w;
     list_of_states := list_of_states w; so_state_list := so_state_list w;
     exp_state_list := exp_state_list w; share_lockstates := share_lockstates w;
     cid_owners := cid_owners w; cached_open_owners := cached_open_owners w; obj_refs := obj_refs w;
     export_refs := f (export_refs w); v4_next := v4_next w; v4_lock := v4_lock w |}.
Definition set_v4_next (f : positive -> positive) (w : v4_world L) : v4_world L :=
  {| v4_states := v4_states w; v4_owners := v4_owners w; v4_clients := v4_clients w;
     v4_files := v4_files w; ht_state_id := ht_state_id w; ht_state_obj := ht_state_obj w;
     ht_nfs4_owner := ht_nfs4_owner w; ht_confirmed_client_id := ht_confirmed_client_id w;
     list_of_states := list_of_states w; so_state_list := so_state_list w;
     exp_state_list := exp_state_list w; share_lockstates := share_lockstates w;
     cid_owners := cid_owners w; cached_open_owners := cached_open_owners w; obj_refs := obj_refs w;
     export_refs := export_refs w; v4_next := f (v4_next w); v4_lock := v4_lock w |}.
Definition set_v4_lock (f : L -> L) (w : v4_world L) : v4_world L :=
  {| v4_states := v4_states w; v4_owners := v4_owners w; v4_clients := v4_clients w;
     v4_files := v4_files w; ht_state_id := ht_state_id w; ht_state_obj := ht_state_obj w;
     ht_nfs4_owner := ht_nfs4_owner w; ht_confirmed_client_id := ht_confirmed_client_id w;
     list_of_states := list_of_states w; so_state_list := so_state_list w;
     exp_state_list := exp_state_list w; share_lockstates := share_lockstates w;
     cid_owners := cid_owners w; cached_open_owners := cached_open_owners w; obj_refs := obj_refs w;
     export_refs := export_refs w; v4_next := v4_next w; v4_lock := f (v4_lock w) |}.
End setters.

(** ** What the layers below offer

    Byte-range locks and the FSAL keep their own state; lock entries hold references to
    states and owners, which are counted there. *)
Class LowerLayer (L : Type) := {
  ll_state_refs : L -> positive -> Z;        (* references held by lock entries *)
  ll_owner_refs : L -> positive -> Z;
  close2 : positive -> positive -> L -> L;   (* obj_ops->close2(obj, state) *)
  regular_file : positive -> bool;           (* obj->type == REGULAR_FILE *)
  export_is_ready : positive -> bool;
  so_clientrec : positive -> positive;       (* constant while the owner lives *)
  so_related_owner : positive -> option positive;
  ll_refs_nonneg l a : 0 <= ll_state_refs l a /\ 0 <= ll_owner_refs l a;
  close2_refs obj st l a :
    ll_state_refs (close2 obj st l) a = ll_state_refs l a /\
    ll_owner_refs (close2 obj st l) a = ll_owner_refs l a
}.

Section table.
Context `{OwnerMem} {L : Type} `{!LowerLayer L}.
Abbreviation VM := (M (v4_world L)).

(** ** Access through pointers *)

Definition get_st (a : positive) : VM state_t := o ← gets (fun w => v4_states w !! a); deref o.
Definition put_st (a : positive) (s : state_t) : VM unit := modify (set_states <[a := s]>).
Definition get_owner (o : positive) : VM nfs4_owner_t := x ← gets (fun w => v4_owners w !! o); deref x.
Definition put_owner (o : positive) (x : nfs4_owner_t) : VM unit := modify (set_owners <[o := x]>).
Definition get_client (c : positive) : VM v4_client_t := x ← gets (fun w => v4_clients w !! c); deref x.
Definition put_client (c : positive) (x : v4_client_t) : VM unit := modify (set_clients <[c := x]>).
Definition get_file (x : positive) : VM state_file_t := o ← gets (fun w => v4_files w !! x); deref o.
Definition put_file (x : positive) (f : state_file_t) : VM unit := modify (set_files <[x := f]>).

Definition with_state_refs (n : Z) (s : state_t) : state_t :=
  {| state_export := state_export s; state_owner := state_owner s; state_obj := state_obj s;
     state_data := state_data s; state_type := state_type s; state_seqid := state_seqid s;
     state_refcount := n; stateid_other := stateid_other s |}.
Definition with_links (export owner obj : option positive) (s : state_t) : state_t :=
  {| state_export := export; state_owner := owner; state_obj := obj;
     state_data := state_data s; state_type := state_type s; state_seqid := state_seqid s;
     state_refcount := state_refcount s; stateid_other := stateid_other s |}.
Definition with_seqid (n : Z) (s : state_t) : state_t :=
  {| state_export := state_export s; state_owner := state_owner s; state_obj := state_obj s;
     state_data := state_data s; state_type := state_type s; state_seqid := n;
     state_refcount := state_refcount s; stateid_other := stateid_other s |}.
Definition with_owner_refs (n : Z) (o : nfs4_owner_t) : nfs4_owner_t :=
  {| so_refcount := n; so_confirmed := so_confirmed o; so_seqid := so_seqid o; so_args := so_args o;
     so_last_entry := so_last_entry o; so_resp := so_resp o; so_cache_expire := so_cache_expire o |}.
Definition with_cache_expire (t : Z) (o : nfs4_owner_t) : nfs4_owner_t :=
  {| so_refcount := so_refcount o; so_confirmed := so_confirmed o; so_seqid := so_seqid o;
     so_args := so_args o; so_last_entry := so_last_entry o; so_resp := so_resp o; so_cache_expire := t |}.
Definition with_client_refs (n : Z) (c : v4_client_t) : v4_client_t :=
  {| cid_clientid := cid_clientid c; cid_stateid_counter := cid_stateid_counter c;
     cid_refcount := n; cid_lease := cid_lease c |}.
Definition with_counter (n : Z) (c : v4_client_t) : v4_client_t :=
  {| cid_clientid := cid_clientid c; cid_stateid_counter := n;
     cid_refcount := cid_refcount c; cid_lease := cid_lease c |}.
Definition with_write_opens (n : Z) (f : state_file_t) : state_file_t :=
  {| fds_num_write_opens := n; write_delegated := write_delegated f;
     write_deleg_client := write_deleg_client f |}.
Definition with_write_deleg (c : option positive) (f : state_file_t) : state_file_t :=
  {| fds_num_write_opens := fds_num_write_opens f;
     write_delegated := match c with Some _ => true | None => false end; write_deleg_client := c |}.

(** ** References *)

Definition ref_add (k : positive) (d : Z) (m : gmap positive Z) : gmap positive Z :=
  <[k := default 0 (m !! k) + d]> m.
Definition get_ref (obj : positive) : VM unit := modify (set_obj_refs (ref_add obj 1)).
Definition put_ref (obj : positive) : VM unit := modify (set_obj_refs (ref_add obj (-1))).
Definition get_gsh_export_ref (e : positive) : VM unit := modify (set_export_refs (ref_add e 1)).
Definition put_gsh_export (e : positive) : VM unit := modify (set_export_refs (ref_add e (-1))).

Definition inc_state_t_ref (a : positive) : VM unit :=
  s ← get_st a; put_st a (with_state_refs (state_refcount s + 1) s).

(** The count of the source is the one here plus the references of the lock entries. *)
Definition dec_nfs4_state_ref (a : positive) : VM unit :=
  s ← get_st a;
  l ← gets v4_lock;
  let n := state_refcount s - 1 in
  let refcount := n + ll_state_refs l a in
  if refcount <? 0 then undef
  else if 0 <? refcount then put_st a (with_state_refs n s)
  else modify (set_states (delete a)).

Definition inc_client_id_ref (c : positive) : VM unit :=
  x ← get_client c; put_client c (with_client_refs (cid_refcount x + 1) x).

Definition dec_client_id_ref (c : positive) : VM unit :=
  x ← get_client c;
  let n := cid_refcount x - 1 in
  if n <? 0 then undef
  else if 0 <? n then put_client c (with_client_refs n x)
  else if decide (cid_confirmed (cid_lease x) = EXPIRED_CLIENT_ID)
  then modify (set_clients (delete c))
  else undef.

Definition inc_state_owner_ref (o : positive) : VM unit :=
  x ← get_owner o; put_owner o (with_owner_refs (so_refcount x + 1) x).

(** [hashtable_getlatch] in the table of owners. *)
Definition find_owner (key : positive) (l : list positive) : option positive :=
  match filter (fun o => compare_nfs4_owner key o = true) l with o :: _ => Some o | [] => None end.

(** [dec_state_owner_ref] with [free_state_owner] and [free_nfs4_owner]: the last reference
    of a lock owner gives back the one it holds on its open owner, hence the recursion.
    The structure goes away first here: its two pointers are constants, and nothing else
    of it is read while it is being freed. *)
Fixpoint dec_owner_ref (fuel : nat) (o : positive) : VM unit :=
  match fuel with
  | O => undef
  | S fuel =>
      x ← get_owner o;
      l ← gets v4_lock;
      let n := so_refcount x - 1 in
      let refcount := n + ll_owner_refs l o in
      if refcount <? 0 then undef
      else if negb (refcount =? 0) then put_owner o (with_owner_refs n x)
      else
        ht ← gets ht_nfs4_owner;
        mwhen (bool_decide (find_owner o ht = Some o)) (modify (set_ht_owner (remove_id o)));;
        modify (set_owners (delete o));;
        match so_related_owner o with Some r => dec_owner_ref fuel r | None => mret tt end;;
        modify (set_cid_owners (glist_del o));;
        dec_client_id_ref (so_clientrec o)
  end.
Definition dec_state_owner_ref (o : positive) : VM unit := dec_owner_ref 3 o.

Definition get_state_owner_ref (a : positive) : VM (option positive) :=
  s ← get_st a;
  match state_owner s with
  | Some o => inc_state_owner_ref o;; mret (Some o)
  | None => mret None
  end.

Definition get_state_obj_ref (a : positive) : VM (option positive) :=
  s ← get_st a;
  match state_obj s with
  | Some x => get_ref x;; mret (Some x)
  | None => mret None
  end.

(** [get_state_obj_export_owner_refs] for the file and the owner, the references its
    callers for requests ask for. *)
Definition get_state_obj_owner_refs (state : option positive) : VM (option (positive * positive)) :=
  match state with
  | None => mret None
  | Some a =>
      obj ← get_state_obj_ref a;
      match obj with
      | None => mret None
      | Some x =>
          s ← get_st a;
          match state_owner s with
          | Some o => inc_state_owner_ref o;; mret (Some (x, o))
          | None => put_ref x;; mret None
          end
      end
  end.

(** ** The hash tables *)

(** [compare_state_obj] against the key made of [obj] and [owner]. *)
Definition compare_state_obj (obj owner : option positive) (w : v4_world L) (b : positive) : bool :=
  match v4_states w !! b with
  | Some s =>
      bool_decide (state_obj s = obj)
      && match owner, state_owner s with
         | Some o1, Some o2 => compare_nfs4_owner o1 o2
         | _, _ => false
         end
  | None => false
  end.
Definition find_obj (obj owner : option positive) (w : v4_world L) : option positive :=
  match filter (fun b => compare_state_obj obj owner w b = true) (ht_state_obj w) with
  | b :: _ => Some b
  | [] => None
  end.

Definition indexed_by_obj (t : state_type_t) : bool :=
  match t with STATE_TYPE_LOCK | STATE_TYPE_SHARE => true | _ => false end.

Definition nfs4_State_Set (a : positive) : VM state_status_t :=
  s ← get_st a;
  ids ← gets ht_state_id;
  match ids !! stateid_other s with
  | Some _ => mret STATE_ENTRY_EXISTS
  | None =>
      modify (set_ht_id <[stateid_other s := a]>);;
      if negb (indexed_by_obj (state_type s)) then mret STATE_SUCCESS
      else
        found ← gets (find_obj (state_obj s) (state_owner s));
        match found with
        | None => modify (set_ht_obj (fun l => l ++ [a]));; mret STATE_SUCCESS
        | Some _ => modify (set_ht_id (delete (stateid_other s)));; mret STATE_ENTRY_EXISTS
        end
  end.

Definition nfs4_State_Get_Pointer (other : list Z) : VM (option positive) :=
  ids ← gets ht_state_id;
  match ids !! other with
  | None => mret None
  | Some a => inc_state_t_ref a;; mret (Some a)
  end.

Definition nfs4_State_Get_Obj (obj owner : positive) : VM (option positive) :=
  found ← gets (find_obj (Some obj) (Some owner));
  match found with
  | None => mret None
  | Some a => inc_state_t_ref a;; mret (Some a)
  end.

Definition nfs4_State_Del (a : positive) : VM bool :=
  s ← get_st a;
  ids ← gets ht_state_id;
  match ids !! stateid_other s with
  | None => mret false
  | Some b =>
      modify (set_ht_id (delete (stateid_other s)));;
      if negb (bool_decide (a = b)) then undef          (* assert(state == old_value.addr) *)
      else if negb (indexed_by_obj (state_type s)) then mret true
      else
        found ← gets (find_obj (state_obj s) (state_owner s));
        match found with
        | Some b' =>
            if bool_decide (b' = a) then modify (set_ht_obj (remove_id a));; mret true
            else mret false
        | None => mret false
        end
  end.

(** [nfs4_BuildStateId_Other] on a little-endian machine. *)
Definition nfs4_BuildStateId_Other (c : positive) : VM (list Z) :=
  x ← get_client c;
  let my_stateid := u32 (cid_stateid_counter x + 1) in
  put_client c (with_counter my_stateid x);;
  mret (le_bytes 8 (cid_clientid x) ++ le_bytes 4 my_stateid).

(** ** Adding a state *)

Definition owner_matches (t : state_type_t) (owner : positive) : bool :=
  match t with
  | STATE_TYPE_SHARE => bool_decide (so_type (owner_at owner) = STATE_OPEN_OWNER_NFSV4)
  | STATE_TYPE_LOCK => bool_decide (so_type (owner_at owner) = STATE_LOCK_OWNER_NFSV4)
  | STATE_TYPE_DELEG | STATE_TYPE_LAYOUT =>
      bool_decide (so_type (owner_at owner) = STATE_CLIENTID_OWNER_NFSV4)
  | _ => true
  end.

(** What [alloc_state] returns: a cleared structure. *)
Definition fresh_state : state_t :=
  {| state_export := None; state_owner := None; state_obj := None; state_data := data_none;
     state_type := STATE_TYPE_NONE; state_seqid := 0; state_refcount := 0; stateid_other := [] |}.

Definition alloc_state : VM positive :=
  a ← gets v4_next;
  modify (set_v4_next Pos.succ);;
  put_st a fresh_state;;
  mret a.

(** The open state of a new lock state is only handed to the FSAL, so the reference to it
    is taken and given back. *)
Definition alloc_new_state (t : state_type_t) (d : state_data_u) : VM positive :=
  openstate ← match t, d with
              | STATE_TYPE_LOCK, data_lock key => nfs4_State_Get_Pointer key
              | STATE_TYPE_LOCK, _ => undef
              | _, _ => mret None
              end;
  a ← alloc_state;
  match openstate with Some os => dec_nfs4_state_ref os | None => mret tt end;;
  mret a.

Definition is_write_deleg (s : state_t) : bool :=
  match state_type s, state_data s with
  | STATE_TYPE_DELEG, data_deleg OPEN_DELEGATE_WRITE => true
  | _, _ => false
  end.

(** [*state] is [state]; the export of the request is [export]. *)
Definition state_add_impl (export obj : positive) (t : state_type_t) (d : state_data_u)
    (owner_input : positive) (state : option positive) : VM (state_status_t * option positive) :=
  if negb (export_is_ready export)
  then
    match state with
    | Some a => modify (set_v4_lock (close2 obj a));; modify (set_states (delete a))
    | None => mret tt
    end;;
    mret (STATE_ESTALE, None)
  else
    get_gsh_export_ref export;;
    a ← match state with
        | Some a => mret a
        | None => alloc_new_state t d
        end;
    other ← nfs4_BuildStateId_Other (so_clientrec owner_input);
    get_st a;;
    put_st a {| state_export := Some export; state_owner := Some owner_input; state_obj := Some obj;
                state_data := d; state_type := t; state_seqid := 0; state_refcount := 2;
                stateid_other := other |};;
    st ← nfs4_State_Set a;
    if decide (st = STATE_SUCCESS) then
      modify (set_export_list (add_tail export a));;
      modify (set_file_list (add_tail obj a));;
      get_ref obj;;
      inc_state_owner_ref owner_input;;
      modify (set_owner_list (add_tail owner_input a));;
      s ← get_st a;
      mwhen (is_write_deleg s)
        (f ← get_file obj;
         inc_client_id_ref (so_clientrec owner_input);;
         put_file obj (with_write_deleg (Some (so_clientrec owner_input)) f));;
      mret (STATE_SUCCESS, Some a)
    else
      modify (set_v4_lock (close2 obj a));;
      modify (set_states (delete a));;
      put_gsh_export export;;
      mret (st, None).

Definition state_add (export obj : positive) (t : state_type_t) (d : state_data_u)
    (owner_input : positive) (state : option positive) : VM (state_status_t * option positive) :=
  if negb (owner_matches t owner_input) then mret (STATE_BAD_TYPE, state)
  else state_add_impl export obj t d owner_input state.

(** ** Removing a state *)

Definition OPEN4_SHARE_ACCESS_READ : Z := 1.
Definition OPEN4_SHARE_ACCESS_WRITE : Z := 2.

(** The part of [_state_del_locked] that leaves the owner; [now] is the answer of [time]. *)
Definition unlink_owner (lease_lifetime now : Z) (a owner : positive) : VM unit :=
  s ← get_st a;
  modify (set_owner_list (glist_del a));;
  put_st a (with_links (state_export s) None (state_obj s) s);;
  rest ← gets (fun w => list_at owner (so_state_list w));
  cached ← gets cached_open_owners;
  if bool_decide (so_type (owner_at owner) = STATE_OPEN_OWNER_NFSV4)
     && bool_decide (rest = []) && bool_decide (owner ∉ cached)
  then
    x ← get_owner owner;
    put_owner owner (with_cache_expire (lease_lifetime + now) x);;
    modify (set_cached (fun l => l ++ [owner]))
  else dec_state_owner_ref owner.

(** What the type of the state asks for. *)
Definition unlink_data (a obj : positive) : VM unit :=
  s ← get_st a;
  match state_type s with
  | STATE_TYPE_LOCK => modify (set_lockstates (glist_del a))
  | STATE_TYPE_SHARE =>
      locks ← gets (fun w => list_at a (share_lockstates w));
      match state_data s, locks with
      | data_share sh, [] =>
          mwhen (negb (Z.land (share_access sh) OPEN4_SHARE_ACCESS_WRITE =? 0) && regular_file obj)
            (f ← get_file obj; put_file obj (with_write_opens (u32 (fds_num_write_opens f - 1)) f))
      | _, _ => undef
      end
  | STATE_TYPE_DELEG =>
      mwhen (is_write_deleg s)
        (f ← get_file obj;
         match write_deleg_client f with
         | Some c => dec_client_id_ref c;; put_file obj (with_write_deleg None f)
         | None => mret tt
         end)
  | _ => mret tt
  end.

Definition unlink_export (a : positive) : VM unit :=
  s ← get_st a;
  export ← deref (state_export s);
  modify (set_export_list (glist_del a));;
  put_st a (with_links None (state_owner s) (state_obj s) s);;
  put_gsh_export export.

Definition unlink_obj (a obj : positive) : VM unit :=
  s ← get_st a;
  modify (set_file_list (glist_del a));;
  put_ref obj;;
  put_st a (with_links (state_export s) (state_owner s) None s).

Definition state_del_locked (lease_lifetime now : Z) (a : positive) : VM unit :=
  deleted ← nfs4_State_Del a;
  if negb deleted then mret tt
  else
    obj ← get_state_obj_ref a;
    match obj with
    | None => mret tt
    | Some obj =>
        s ← get_st a;
        match state_owner s with
        | Some owner => unlink_owner lease_lifetime now a owner
        | None => mret tt
        end;;
        unlink_data a obj;;
        unlink_export a;;
        unlink_obj a obj;;
        modify (set_v4_lock (close2 obj a));;
        dec_nfs4_state_ref a;;
        put_ref obj
    end.

Definition state_del (lease_lifetime now : Z) (a : positive) : VM unit :=
  obj ← get_state_obj_ref a;
  match obj with
  | None => mret tt
  | Some obj => state_del_locked lease_lifetime now a;; put_ref obj
  end.

(** The types up to [STATE_TYPE_LAYOUT] are the NFSv4 ones. *)
Definition nfs4_type (t : state_type_t) : bool :=
  match t with
  | STATE_TYPE_NONE | STATE_TYPE_SHARE | STATE_TYPE_DELEG | STATE_TYPE_LOCK | STATE_TYPE_LAYOUT => true
  | _ => false
  end.

Fixpoint wipe_loop (lease_lifetime now : Z) (keep : state_type_t -> bool) (l : list positive) : VM unit :=
  match l with
  | [] => mret tt
  | a :: l' =>
      s ← get_st a;
      mwhen (negb (keep (state_type s))) (state_del_locked lease_lifetime now a);;
      wipe_loop lease_lifetime now keep l'
  end.

(** Both loops are [glist_for_each_safe]; a deletion takes only the visited state off the list. *)
Definition state_nfs4_state_wipe (lease_lifetime now : Z) (obj : positive) : VM unit :=
  l ← gets (fun w => list_at obj (list_of_states w));
  wipe_loop lease_lifetime now
    (fun t => negb (nfs4_type t) || bool_decide (t = STATE_TYPE_SHARE)) l;;
  l ← gets (fun w => list_at obj (list_of_states w));
  wipe_loop lease_lifetime now (fun t => negb (nfs4_type t)) l.

End table.
