(* ===== verification/StateInv.v ===== *)
(** * The invariant of the state table

    What holds of the tables, lists and reference counts of [StateTable] between any two
    steps.  [h] says which references are held from outside the tables: by a request in
    progress, by the confirmed client table, by the metadata cache. *)
From S2P Require Import Prelude Status Owners Lease VfsHandle StateTable.
Local Open Scope Z_scope.

Inductive rkey : Set :=
  | R_state (a : positive) | R_owner (o : positive) | R_obj (x : positive)
  | R_export (e : positive) | R_client (c : positive).
#[export] Instance rkey_eq_dec : EqDecision rkey.
Proof. solve_decision. Defined.

Abbreviation holds := (rkey -> Z).
Definition hold (k : rkey) (h : holds) : holds := fun k' => if decide (k' = k) then h k' + 1 else h k'.
Definition drop_ref (k : rkey) (h : holds) : holds := fun k' => if decide (k' = k) then h k' - 1 else h k'.

(** ** Lists of states *)

(** A family of lists holds exactly the states whose pointer says so, once. *)
Definition linked_on (key : state_t -> option positive) (states : gmap positive state_t)
    (m : gmap positive (list positive)) : Prop :=
  (forall k, NoDup (list_at k m)) /\
  (forall k a, a ∈ list_at k m <-> exists s, states !! a = Some s /\ key s = Some k).

Section linked_on.
Context (key : state_t -> option positive).

Lemma linked_update states m a s s' :
  states !! a = Some s -> key s' = key s -> linked_on key states m -> linked_on key (<[a := s']> states) m.
Proof.
  intros Ha Hk [Hnd Hl]. split; [done|]. intros k b. rewrite Hl.
  destruct (decide (a = b)) as [<-|Hne].
  - rewrite lookup_insert_eq. split; intros (t & ? & ?); simplify_eq; [exists s'|exists s]; naive_solver congruence.
  - by rewrite lookup_insert_ne.
Qed.

Lemma linked_add states m a s k :
  (forall s0, states !! a = Some s0 -> key s0 = None) -> key s = Some k ->
  linked_on key states m -> linked_on key (<[a := s]> states) (add_tail k a m).
Proof.
  intros Ha Hk [Hnd Hl]. assert (forall k', a ∉ list_at k' m) as Hn.
  { intros k' (s0 & ? & ?)%Hl. specialize (Ha s0). naive_solver congruence. }
  split; intros k'; unfold add_tail; [|intros b]; rewrite list_at_insert; case_decide as Hk'; subst.
  - apply NoDup_app. split; [done|]. split; [|apply NoDup_singleton].
    intros b Hb ->%list_elem_of_singleton. by apply (Hn k').
  - done.
  - rewrite elem_of_app, list_elem_of_singleton, Hl. destruct (decide (a = b)) as [<-|Hne].
    + rewrite lookup_insert_eq. naive_solver.
    + rewrite lookup_insert_ne by done. naive_solver.
  - rewrite Hl. destruct (decide (a = b)) as [<-|Hne].
    + rewrite lookup_insert_eq. split; intros (t & ? & ?); [|naive_solver].
      specialize (Ha t). naive_solver congruence.
    + by rewrite lookup_insert_ne.
Qed.

Lemma linked_unlink states m a s :
  key s = None -> linked_on key states m -> linked_on key (<[a := s]> states) (glist_del a m).
Proof.
  intros Hk [Hnd Hl]. split; intros k; [|intros b]; rewrite list_at_glist_del.
  - by apply NoDup_remove_id.
  - rewrite elem_of_remove_id, Hl. destruct (decide (a = b)) as [<-|Hne].
    + rewrite lookup_insert_eq. naive_solver congruence.
    + rewrite lookup_insert_ne by done. naive_solver.
Qed.

Lemma linked_free states m a s :
  states !! a = Some s -> key s = None -> linked_on key states m -> linked_on key (delete a states) m.
Proof.
  intros Ha Hk [Hnd Hl]. split; [done|]. intros k b. rewrite Hl.
  destruct (decide (a = b)) as [<-|Hne].
  - rewrite lookup_delete_eq. naive_solver congruence.
  - by rewrite lookup_delete_ne.
Qed.

Lemma linked_len_unlink states m a s k k' :
  states !! a = Some s -> key s = Some k -> linked_on key states m ->
  Z.of_nat (length (list_at k' (glist_del a m)))
  = Z.of_nat (length (list_at k' m)) - (if decide (k' = k) then 1 else 0).
Proof.
  intros Ha Hk [Hnd Hl]. rewrite list_at_glist_del. case_decide as Hd; subst.
  - assert (a ∈ list_at k m) as Hin by (apply Hl; eauto).
    apply list_elem_of_split in Hin as (l1 & l2 & He). pose proof (Hnd k) as Hn. rewrite He in *.
    rewrite remove_id_split by done. rewrite !length_app. simpl. lia.
  - rewrite remove_id_not_in; [lia|]. intros (t & ? & ?)%Hl. congruence.
Qed.

Lemma linked_len_add k a m k' :
  Z.of_nat (length (list_at k' (add_tail k a m)))
  = Z.of_nat (length (list_at k' m)) + (if decide (k' = k) then 1 else 0).
Proof.
  unfold add_tail. rewrite list_at_insert. repeat case_decide; subst; try done; [|lia].
  rewrite length_app. simpl. lia.
Qed.

End linked_on.

(** ** Counting in maps *)

Definition count_map {A} (P : positive -> A -> bool) (m : gmap positive A) : Z :=
  Z.of_nat (size (filter (fun kv => P kv.1 kv.2 = true) m)).

Section count_map.
Context {A : Type} (P : positive -> A -> bool).

Lemma count_map_delete k v m :
  m !! k = Some v -> count_map P m = count_map P (delete k m) + Z.b2z (P k v).
Proof.
  intros Hk. unfold count_map. rewrite <- (insert_id m k v) at 1 by done. rewrite <- insert_delete_eq.
  rewrite map_filter_insert. simpl. destruct (P k v); simpl.
  - rewrite map_size_insert_None; [lia|]. apply map_lookup_filter_None. left. apply lookup_delete_eq.
  - rewrite delete_delete_eq. lia.
Qed.

Lemma count_map_update k v v' m :
  m !! k = Some v -> count_map P (<[k := v']> m) = count_map P m - Z.b2z (P k v) + Z.b2z (P k v').
Proof.
  intros Hk. rewrite (count_map_delete k v' (<[k := v']> m)) by apply lookup_insert_eq.
  rewrite (count_map_delete k v m) by done. rewrite delete_insert_eq. lia.
Qed.

Lemma count_map_pos k v m : m !! k = Some v -> P k v = true -> 1 <= count_map P m.
Proof.
  intros Hk Hp. rewrite (count_map_delete k v m) by done. rewrite Hp. unfold count_map. simpl. lia.
Qed.

Lemma count_map_nonneg m : 0 <= count_map P m.
Proof. unfold count_map. lia. Qed.

End count_map.

(** ** The invariant *)
Section inv.
Context `{OwnerMem} {L : Type} `{!LowerLayer L}.
Abbreviation VM := (M (v4_world L)).

Definition is_hashed (w : v4_world L) (a : positive) (s : state_t) : Prop :=
  ht_state_id w !! stateid_other s = Some a.
#[export] Instance is_hashed_dec w a s : Decision (is_hashed w a s).
Proof. unfold is_hashed. apply _. Defined.

Definition related_to (r o : positive) (_ : nfs4_owner_t) : bool := bool_decide (so_related_owner o = Some r).
Definition owned_by (c o : positive) (_ : nfs4_owner_t) : bool := bool_decide (so_clientrec o = c).
Definition deleg_of (c x : positive) (f : state_file_t) : bool := bool_decide (write_deleg_client f = Some c).
Definition len_at (k : positive) (m : gmap positive (list positive)) : Z := Z.of_nat (length (list_at k m)).

(** Two states have the same key in the table by file and owner. *)
Definition same_key (s t : state_t) : Prop :=
  state_obj s = state_obj t /\
  exists o1 o2, state_owner s = Some o1 /\ state_owner t = Some o2 /\ compare_nfs4_owner o1 o2 = true.

Record v4_inv (h : holds) (w : v4_world L) : Prop := {
  vi_holds k : 0 <= h k;
  vi_id k a : ht_state_id w !! k = Some a -> exists s, v4_states w !! a = Some s /\
    stateid_other s = k /\ is_Some (state_export s) /\ is_Some (state_owner s) /\ is_Some (state_obj s);
  vi_refs a s : v4_states w !! a = Some s ->
    state_refcount s = (if decide (is_hashed w a s) then 1 else 0) + h (R_state a);
  vi_fresh a : is_Some (v4_states w !! a) -> (a < v4_next w)%positive;
  vi_data a s : v4_states w !! a = Some s -> state_type s = STATE_TYPE_SHARE ->
    exists sh, state_data s = data_share sh;
  vi_obj_nodup : NoDup (ht_state_obj w);
  vi_obj a : a ∈ ht_state_obj w <->
    exists s, v4_states w !! a = Some s /\ is_hashed w a s /\ indexed_by_obj (state_type s) = true;
  vi_obj_key a b s t : a ∈ ht_state_obj w -> b ∈ ht_state_obj w ->
    v4_states w !! a = Some s -> v4_states w !! b = Some t -> same_key s t -> a = b;
  vi_file_list : linked_on state_obj (v4_states w) (list_of_states w);
  vi_owner_list : linked_on state_owner (v4_states w) (so_state_list w);
  vi_export_list : linked_on state_export (v4_states w) (exp_state_list w);
  vi_lockstates k a : a ∈ list_at k (share_lockstates w) ->
    exists s, v4_states w !! a = Some s /\ state_type s = STATE_TYPE_LOCK /\ is_Some (state_export s);
  vi_locks_nodup k : NoDup (list_at k (share_lockstates w));
  vi_owner a s o : v4_states w !! a = Some s -> state_owner s = Some o -> is_Some (v4_owners w !! o);
  vi_file a s x : v4_states w !! a = Some s -> state_obj s = Some x -> is_Some (v4_files w !! x);
  vi_cached_nodup : NoDup (cached_open_owners w);
  vi_cached o : o ∈ cached_open_owners w -> is_Some (v4_owners w !! o);
  vi_related o r : is_Some (v4_owners w !! o) -> so_related_owner o = Some r ->
    is_Some (v4_owners w !! r) /\ so_related_owner r = None;
  vi_owner_refs o x : v4_owners w !! o = Some x ->
    so_refcount x = h (R_owner o) + len_at o (so_state_list w)
      + (if decide (o ∈ cached_open_owners w) then 1 else 0) + count_map (related_to o) (v4_owners w);
  vi_client o : is_Some (v4_owners w !! o) -> is_Some (v4_clients w !! so_clientrec o);
  vi_deleg x f c : v4_files w !! x = Some f -> write_deleg_client f = Some c -> is_Some (v4_clients w !! c);
  vi_client_refs c x : v4_clients w !! c = Some x -> 1 <= h (R_client c) /\
    cid_refcount x = h (R_client c) + count_map (owned_by c) (v4_owners w)
      + count_map (deleg_of c) (v4_files w);
  vi_obj_refs x : default 0 (obj_refs w !! x) = h (R_obj x) + len_at x (list_of_states w);
  vi_export_refs e : default 0 (export_refs w !! e) = h (R_export e) + len_at e (exp_state_list w)
}.

Lemma inv_ext h h' w : (forall k, h k = h' k) -> v4_inv h w -> v4_inv h' w.
Proof.
  intros Hh []. constructor; try done; intros *; rewrite <- ?Hh; eauto.
Qed.

(** A state whose identity, type and links stay: references and sequence id. *)
Definition same_shape (s s' : state_t) : Prop :=
  stateid_other s' = stateid_other s /\ state_type s' = state_type s /\ state_data s' = state_data s /\
  state_export s' = state_export s /\ state_owner s' = state_owner s /\ state_obj s' = state_obj s.

Definition agree_but (k : rkey) (h h' : holds) : Prop := forall k', k' <> k -> h' k' = h k'.

Lemma same_shape_refl s : same_shape s s.
Proof. done. Qed.

Lemma inv_update_state h h' w a s s' :
  v4_states w !! a = Some s -> same_shape s s' -> agree_but (R_state a) h h' ->
  0 <= h' (R_state a) -> state_refcount s' - state_refcount s = h' (R_state a) - h (R_state a) ->
  v4_inv h w -> v4_inv h' (set_states <[a := s']> w).
Proof.
  intros Ha Hs Hag Hn Hr Hi. set (w' := set_states _ w).
  assert (forall b t, v4_states w' !! b = Some t -> exists t0, v4_states w !! b = Some t0 /\ same_shape t0 t) as Hback.
  { intros b t. simpl. rewrite lookup_insert. case_decide; [intros; simplify_eq; eauto|].
    eauto using same_shape_refl. }
  assert (forall b t0, v4_states w !! b = Some t0 -> exists t, v4_states w' !! b = Some t /\ same_shape t0 t) as Hforth.
  { intros b t0. simpl. rewrite lookup_insert. case_decide; intros; simplify_eq; eauto using same_shape_refl. }
  assert (forall k, 0 <= h' k) as Hnn.
  { intros k. destruct (decide (k = R_state a)) as [->|Hne]; [done|]. rewrite Hag by done. apply Hi. }
  destruct Hi. constructor; try done; simpl in *; try (intros; rewrite Hag by done; eauto; fail).
  - intros k b (t0 & Hb & <- & Hl)%vi_id0. destruct (Hforth b t0 Hb) as (t & ? & E1 & E2 & E3 & E4 & E5 & E6).
    exists t. rewrite E1, E4, E5, E6. done.
  - intros b t. rewrite lookup_insert. case_decide; intros; simplify_eq.
    + destruct Hs as (E1 & _). specialize (vi_refs0 _ _ Ha). unfold is_hashed in *. simpl in *.
      repeat case_decide; rewrite ?E1 in *; first [lia|done].
    + rewrite Hag by congruence. by apply vi_refs0.
  - intros b [t Hb]. destruct (Hback b t Hb) as (t0 & ? & _). eauto.
  - intros b t Hb Ht. destruct (Hback b t Hb) as (t0 & ? & _ & E2 & E3 & _). rewrite E3. eapply vi_data0; [done|congruence].
  - intros b. rewrite vi_obj0. unfold is_hashed. simpl. split; intros (t & Hb & Hk & Ht).
    + destruct (Hforth b t Hb) as (t' & ? & E1 & E2 & _). exists t'. by rewrite E1, E2.
    + destruct (Hback b t Hb) as (t' & ? & E1 & E2 & _). exists t'. by rewrite <- E1, <- E2.
  - intros b c t u Hb Hc Ht Hu (Ko & o1 & o2 & K1 & K2 & K3).
    destruct (Hback b t Ht) as (t0 & ? & _ & _ & _ & _ & E5 & E6).
    destruct (Hback c u Hu) as (u0 & ? & _ & _ & _ & _ & F5 & F6).
    eapply (vi_obj_key0 b c t0 u0); try done. split; [congruence|]. exists o1, o2. split; [congruence|]. split; congruence.
  - destruct Hs as (_ & _ & _ & _ & _ & E6). by eapply linked_update.
  - destruct Hs as (_ & _ & _ & _ & E5 & _). by eapply linked_update.
  - destruct Hs as (_ & _ & _ & E4 & _). by eapply linked_update.
  - intros k b (t0 & Hb & ? & ?)%vi_lockstates0. destruct (Hforth b t0 Hb) as (t & ? & E1 & E2 & E3 & E4 & _).
    exists t. rewrite E2, E4. done.
  - intros b t o Hb Ho. destruct (Hback b t Hb) as (t0 & ? & _ & _ & _ & _ & E5 & _). eapply vi_owner0; [done|congruence].
  - intros b t o Hb Ho. destruct (Hback b t Hb) as (t0 & ? & _ & _ & _ & _ & _ & E6). eapply vi_file0; [done|congruence].
Qed.

(** ** Owners and clients *)

Lemma inv_update_owner h h' w o x x' :
  v4_owners w !! o = Some x -> agree_but (R_owner o) h h' -> 0 <= h' (R_owner o) ->
  so_refcount x' - so_refcount x = h' (R_owner o) - h (R_owner o) ->
  v4_inv h w -> v4_inv h' (set_owners <[o := x']> w).
Proof.
  intros Ho Hag Hn Hr Hi.
  assert (forall r, count_map (related_to r) (<[o := x']> (v4_owners w)) = count_map (related_to r) (v4_owners w)) as Hc1.
  { intros r. rewrite (count_map_update _ _ x) by done. unfold related_to. lia. }
  assert (forall c, count_map (owned_by c) (<[o := x']> (v4_owners w)) = count_map (owned_by c) (v4_owners w)) as Hc2.
  { intros r. rewrite (count_map_update _ _ x) by done. unfold owned_by. lia. }
  assert (forall k, is_Some (<[o := x']> (v4_owners w) !! k) <-> is_Some (v4_owners w !! k)) as Hdom.
  { intros k. rewrite lookup_insert. case_decide; subst; [|done]. rewrite Ho. split; eauto. }
  destruct Hi. constructor; simpl in *; try done; try (intros; rewrite Hag by done; eauto; fail);
    try (intros *; rewrite ?Hdom; eauto; fail).
  - intros k. destruct (decide (k = R_owner o)) as [->|]; [done|]. by rewrite Hag.
  - intros p y. rewrite Hc1, lookup_insert. case_decide; intros; simplify_eq.
    + specialize (vi_owner_refs0 _ _ Ho). lia.
    + rewrite Hag by congruence. eauto.
  - intros c y Hc. rewrite Hc2, Hag by done. eauto.
Qed.

Lemma inv_update_client h h' w c x x' :
  v4_clients w !! c = Some x -> agree_but (R_client c) h h' -> 1 <= h' (R_client c) ->
  cid_refcount x' - cid_refcount x = h' (R_client c) - h (R_client c) ->
  v4_inv h w -> v4_inv h' (set_clients <[c := x']> w).
Proof.
  intros Hc Hag Hn Hr Hi.
  assert (forall k, is_Some (<[c := x']> (v4_clients w) !! k) <-> is_Some (v4_clients w !! k)) as Hdom.
  { intros k. rewrite lookup_insert. case_decide; subst; [|done]. rewrite Hc. split; eauto. }
  destruct Hi. constructor; simpl in *; try done; try (intros; rewrite Hag by done; eauto; fail);
    try (intros *; rewrite ?Hdom; eauto; fail).
  - intros k. destruct (decide (k = R_client c)) as [->|]; [lia|]. by rewrite Hag.
  - intros d y. rewrite lookup_insert. case_decide; intros; simplify_eq.
    + specialize (vi_client_refs0 _ _ Hc). lia.
    + rewrite Hag by congruence. eauto.
Qed.

(** The references a freed owner gives back: on its open owner and on its client. *)
Definition give_back (o : positive) (h : holds) : holds :=
  let h := hold (R_client (so_clientrec o)) (drop_ref (R_owner o) h) in
  match so_related_owner o with Some r => hold (R_owner r) h | None => h end.

Lemma give_back_other o h k :
  (forall r, k <> R_owner r) -> (forall c, k <> R_client c) -> give_back o h k = h k.
Proof.
  intros Ho Hc. unfold give_back, hold, drop_ref.
  destruct (so_related_owner o); repeat case_decide; naive_solver.
Qed.

Lemma inv_free_owner h w o x :
  v4_owners w !! o = Some x -> 1 <= h (R_owner o) -> so_refcount x = 1 ->
  v4_inv h w -> v4_inv (give_back o h) (set_owners (delete o) w).
Proof.
  intros Ho Hh Hx Hi. pose proof (vi_owner_refs _ _ Hi _ _ Ho) as Hr.
  pose proof (count_map_nonneg (related_to o) (v4_owners w)) as Hc0.
  assert (0 <= len_at o (so_state_list w)) as Hl0 by (unfold len_at; lia).
  assert (len_at o (so_state_list w) = 0 /\ o ∉ cached_open_owners w /\
          count_map (related_to o) (v4_owners w) = 0) as (Hl & Hca & Hco).
  { case_decide; [lia|]. split; [lia|]. split; [done|lia]. }
  assert (forall p y, v4_owners w !! p = Some y -> so_related_owner p <> Some o) as Hnr.
  { intros p y Hp Hq. pose proof (count_map_pos (related_to o) p y _ Hp) as Hcp.
    unfold related_to in Hcp at 1. rewrite bool_decide_true in Hcp by done. specialize (Hcp eq_refl). lia. }
  assert (forall a s, v4_states w !! a = Some s -> state_owner s <> Some o) as Hns.
  { intros a s Ha Hs. assert (a ∈ list_at o (so_state_list w)) as Hin by (apply Hi; eauto).
    unfold len_at in Hl. destruct (list_at o (so_state_list w)); [by apply elem_of_nil in Hin|]. simpl in Hl. lia. }
  assert (forall p, p <> o -> is_Some (v4_owners w !! p) -> is_Some (delete o (v4_owners w) !! p)) as Hkeep.
  { intros p Hp. by rewrite lookup_delete_ne. }
  assert (forall p, is_Some (delete o (v4_owners w) !! p) -> p <> o /\ is_Some (v4_owners w !! p)) as Hold.
  { intros p. rewrite lookup_delete. destruct (decide (o = p)); [by intros [? ?]|]. intros. split; congruence. }
  destruct Hi. constructor; simpl in *; try done;
    try (intros; rewrite give_back_other by done; eauto; fail).
  - intros k. pose proof (vi_holds0 k). unfold give_back, hold, drop_ref.
    destruct (so_related_owner o); repeat case_decide; subst; lia.
  - intros a s p Ha Hs. apply Hkeep; [|by eapply vi_owner0]. intros ->. by apply (Hns a s).
  - intros p Hp. apply Hkeep; [|by apply vi_cached0]. intros ->. done.
  - intros p r [Hpo Hp]%Hold Hpr. destruct (vi_related0 p r Hp Hpr). split; [|done]. apply Hkeep; [|done].
    intros ->. destruct Hp as [y Hy]. by apply (Hnr p y).
  - intros p y Hp. rewrite lookup_delete_Some in Hp. destruct Hp as [Hpo Hp].
    rewrite (vi_owner_refs0 _ _ Hp). rewrite (count_map_delete (related_to p) o x (v4_owners w)) by done.
    unfold give_back, hold, drop_ref, related_to. destruct (so_related_owner o) as [r|].
    + destruct (decide (r = p)) as [->|Hrp].
      * rewrite bool_decide_true by done. simpl. repeat case_decide; simplify_eq; lia.
      * rewrite bool_decide_false by congruence. simpl. repeat case_decide; simplify_eq; lia.
    + rewrite bool_decide_false by done. simpl. repeat case_decide; simplify_eq; lia.
  - intros p [Hpo Hp]%Hold. eauto.
  - intros c y Hc. destruct (vi_client_refs0 _ _ Hc) as [Hc1 ->].
    rewrite (count_map_delete (owned_by c) o x (v4_owners w)) by done.
    unfold give_back, hold, drop_ref, owned_by. destruct (decide (so_clientrec o = c)) as [->|Hoc].
    + rewrite bool_decide_true by done. simpl. destruct (so_related_owner o); repeat case_decide; simplify_eq; lia.
    + rewrite bool_decide_false by done. simpl. destruct (so_related_owner o); repeat case_decide; simplify_eq; lia.
Qed.

(** What the release of owner references may change. *)
Definition forget_owners (w : v4_world L) : v4_world L :=
  set_owners (fun _ => ∅) (set_clients (fun _ => ∅) (set_ht_owner (fun _ => []) (set_cid_owners (fun _ => ∅) w))).

Record owner_side (w w' : v4_world L) : Prop := {
  os_rest : forget_owners w' = forget_owners w;
  os_clients c x : v4_clients w !! c = Some x -> exists n, v4_clients w' !! c = Some (with_client_refs n x);
  os_owners o x' : v4_owners w' !! o = Some x' -> exists n x, v4_owners w !! o = Some x /\ x' = with_owner_refs n x
}.

Lemma owner_side_refl w : owner_side w w.
Proof.
  constructor; [done|intros c [] ?; by eexists|intros o [] ?; by do 2 eexists].
Qed.

Lemma owner_side_trans w1 w2 w3 : owner_side w1 w2 -> owner_side w2 w3 -> owner_side w1 w3.
Proof.
  intros [E1 C1 O1] [E2 C2 O2]. constructor; [congruence| |].
  - intros c x (n & Hn)%C1. destruct (C2 _ _ Hn) as [m Hm]. by exists m.
  - intros o x (n & y & (m & z & Hz & ->)%O1 & ->)%O2. by exists n, z.
Qed.

(** ** Steps on one reference *)

Lemma hold_agree k h : agree_but k h (hold k h).
Proof. intros k' Hk. unfold hold. by rewrite decide_False. Qed.
Lemma drop_agree k h : agree_but k h (drop_ref k h).
Proof. intros k' Hk. unfold drop_ref. by rewrite decide_False. Qed.
Lemma hold_at k h : hold k h k = h k + 1.
Proof. unfold hold. by rewrite decide_True. Qed.
Lemma drop_at k h : drop_ref k h k = h k - 1.
Proof. unfold drop_ref. by rewrite decide_True. Qed.
Lemma drop_hold k h k' : drop_ref k (hold k h) k' = h k'.
Proof. unfold drop_ref, hold. repeat case_decide; lia. Qed.

Lemma wp_get_st a s (Q : state_t -> v4_world L -> Prop) w :
  v4_states w !! a = Some s -> Q s w -> wp (get_st a) Q w.
Proof. intros Ha HQ. unfold get_st. wp_step. wp_step. by rewrite Ha. Qed.

Lemma wp_get_owner o x (Q : nfs4_owner_t -> v4_world L -> Prop) w :
  v4_owners w !! o = Some x -> Q x w -> wp (get_owner o) Q w.
Proof. intros Ha HQ. unfold get_owner. wp_step. wp_step. by rewrite Ha. Qed.

Lemma wp_get_v4_client c x (Q : v4_client_t -> v4_world L -> Prop) w :
  v4_clients w !! c = Some x -> Q x w -> wp (get_client c) Q w.
Proof. intros Ha HQ. unfold get_client. wp_step. wp_step. by rewrite Ha. Qed.

Lemma wp_get_file x f (Q : state_file_t -> v4_world L -> Prop) w :
  v4_files w !! x = Some f -> Q f w -> wp (get_file x) Q w.
Proof. intros Ha HQ. unfold get_file. wp_step. wp_step. by rewrite Ha. Qed.

Lemma ref_add_at k d m k' :
  default 0 (ref_add k d m !! k') = default 0 (m !! k') + (if decide (k' = k) then d else 0).
Proof.
  unfold ref_add. rewrite lookup_insert. repeat case_decide; subst; try done; simpl; lia.
Qed.

Lemma inv_obj_ref h h' w x d :
  agree_but (R_obj x) h h' -> h' (R_obj x) = h (R_obj x) + d -> 0 <= h' (R_obj x) ->
  v4_inv h w -> v4_inv h' (set_obj_refs (ref_add x d) w).
Proof.
  intros Hag Hd Hn []. constructor; simpl in *; try done; try (intros; rewrite Hag by done; eauto; fail).
  - intros k. destruct (decide (k = R_obj x)) as [->|]; [done|]. by rewrite Hag.
  - intros y. rewrite ref_add_at, vi_obj_refs0. case_decide; subst; [lia|]. rewrite Hag by congruence. lia.
Qed.

Lemma inv_export_ref h h' w x d :
  agree_but (R_export x) h h' -> h' (R_export x) = h (R_export x) + d -> 0 <= h' (R_export x) ->
  v4_inv h w -> v4_inv h' (set_export_refs (ref_add x d) w).
Proof.
  intros Hag Hd Hn []. constructor; simpl in *; try done; try (intros; rewrite Hag by done; eauto; fail).
  - intros k. destruct (decide (k = R_export x)) as [->|]; [done|]. by rewrite Hag.
  - intros y. rewrite ref_add_at, vi_export_refs0. case_decide; subst; [lia|]. rewrite Hag by congruence. lia.
Qed.

Lemma inv_get_ref h w x : v4_inv h w -> v4_inv (hold (R_obj x) h) (set_obj_refs (ref_add x 1) w).
Proof.
  intros Hi. apply (inv_obj_ref h); try done; [apply hold_agree|apply hold_at|].
  rewrite hold_at. pose proof (vi_holds _ _ Hi (R_obj x)). lia.
Qed.

Lemma inv_put_ref h w x :
  1 <= h (R_obj x) -> v4_inv h w -> v4_inv (drop_ref (R_obj x) h) (set_obj_refs (ref_add x (-1)) w).
Proof.
  intros Hh Hi. apply (inv_obj_ref h); try done; [apply drop_agree|rewrite drop_at; lia|rewrite drop_at; lia].
Qed.

Lemma wp_inc_v4_state_ref h w a s :
  v4_states w !! a = Some s -> v4_inv h w ->
  wp (inc_state_t_ref a) (fun _ w' => v4_inv (hold (R_state a) h) w' /\
    w' = set_states <[a := with_state_refs (state_refcount s + 1) s]> w) w.
Proof.
  intros Ha Hi. unfold inc_state_t_ref. wp_step. eapply wp_get_st; [done|]. unfold put_st. wp_step. split; [|done].
  eapply inv_update_state; [done|done|apply hold_agree| | |done]; rewrite hold_at; simpl; [|lia].
  pose proof (vi_holds _ _ Hi (R_state a)). lia.
Qed.

Lemma wp_inc_state_owner_ref h w o x :
  v4_owners w !! o = Some x -> v4_inv h w ->
  wp (inc_state_owner_ref o) (fun _ w' => v4_inv (hold (R_owner o) h) w' /\
    w' = set_owners <[o := with_owner_refs (so_refcount x + 1) x]> w) w.
Proof.
  intros Ho Hi. unfold inc_state_owner_ref. wp_step. eapply wp_get_owner; [done|].
  unfold put_owner. wp_step. split; [|done].
  eapply inv_update_owner; [done|apply hold_agree| | |done]; rewrite hold_at; simpl; [|lia].
  pose proof (vi_holds _ _ Hi (R_owner o)). lia.
Qed.

(** A state that is no longer in the tables nor on a list is freed with its last reference. *)
Lemma inv_free_state h w a s :
  v4_states w !! a = Some s -> ~ is_hashed w a s ->
  state_export s = None -> state_owner s = None -> state_obj s = None ->
  1 <= h (R_state a) -> v4_inv h w -> v4_inv (drop_ref (R_state a) h) (set_states (delete a) w).
Proof.
  intros Ha Hn He Ho Hx Hh Hi.
  assert (forall b t, v4_states w !! b = Some t -> is_hashed w b t -> b <> a) as Hne.
  { intros b t Hb Ht ->. by simplify_eq. }
  assert (forall b t, delete a (v4_states w) !! b = Some t -> b <> a /\ v4_states w !! b = Some t) as Hold.
  { intros b t. rewrite lookup_delete_Some. naive_solver. }
  destruct Hi. constructor; simpl in *; try done; try (intros; rewrite drop_agree by done; eauto; fail);
    try (intros * [? ?]%Hold; eauto; fail).
  - intros k. destruct (decide (k = R_state a)) as [->|]; [rewrite drop_at; lia|]. by rewrite drop_agree.
  - intros k b Hk. destruct (vi_id0 k b Hk) as (t & Hb & <- & Hl). exists t. rewrite lookup_delete_ne; [done|].
    intros ->. by apply (Hne b t).
  - intros b t [Hb Ht]%Hold. rewrite drop_agree by congruence. by apply vi_refs0.
  - intros b [t [? ?]%Hold]. eauto.
  - intros b. rewrite vi_obj0. split; intros (t & Hb & Ht & Hi).
    + exists t. rewrite lookup_delete_ne; [done|]. intros ->. by apply (Hne b t).
    + apply Hold in Hb as [? ?]. eauto.
  - intros b c t u ? ? [? ?]%Hold [? ?]%Hold. eauto.
  - by eapply linked_free.
  - by eapply linked_free.
  - by eapply linked_free.
  - intros k b Hb. destruct (vi_lockstates0 k b Hb) as (t & Ht & ? & ?). exists t.
    rewrite lookup_delete_ne; [done|]. intros ->. simplify_eq. rewrite He in *. by destruct (is_Some_None (A := positive)).
Qed.

Lemma wp_dec_nfs4_state_ref h w a s :
  v4_states w !! a = Some s -> 1 <= h (R_state a) ->
  is_hashed w a s \/ (state_export s = None /\ state_owner s = None /\ state_obj s = None) ->
  v4_inv h w ->
  wp (dec_nfs4_state_ref a) (fun _ w' => v4_inv (drop_ref (R_state a) h) w' /\
    exists f, w' = set_states f w /\ (forall b m, b <> a -> f m !! b = m !! b) /\
      (is_hashed w a s -> f = <[a := with_state_refs (state_refcount s - 1) s]>) /\
      (forall m, f m !! a = None \/ f m !! a = Some (with_state_refs (state_refcount s - 1) s))) w.
Proof.
  intros Ha Hh Hl Hi. unfold dec_nfs4_state_ref. wp_step. eapply wp_get_st; [done|]. wp_step. wp_step.
  pose proof (vi_refs _ _ Hi _ _ Ha) as Hr. destruct (ll_refs_nonneg (v4_lock w) a) as [Hll _].
  assert (0 <= state_refcount s - 1) as Hn by (case_decide; lia).
  rewrite (proj2 (Z.ltb_ge _ 0)) by lia. destruct (Z.ltb_spec 0 (state_refcount s - 1 + ll_state_refs (v4_lock w) a)).
  - unfold put_st. wp_step. split.
    + eapply inv_update_state; [done|done|apply drop_agree| | |done]; rewrite drop_at; simpl; lia.
    + eexists. split; [done|]. split; [intros; by rewrite lookup_insert_ne|]. split; [done|].
      intros m. right. apply lookup_insert_eq.
  - wp_step. assert (~ is_hashed w a s) as Hnh.
    { intros Hsh. rewrite decide_True in Hr by done. lia. }
    destruct Hl as [?|(? & ? & ?)]; [done|]. split; [by eapply inv_free_state|].
    eexists. split; [done|]. split; [intros; by rewrite lookup_delete_ne|]. split; [done|].
    intros m. left. apply lookup_delete_eq.
Qed.

Lemma wp_dec_client_id_ref h w c :
  is_Some (v4_clients w !! c) -> 2 <= h (R_client c) -> v4_inv h w ->
  wp (dec_client_id_ref c) (fun _ w' => v4_inv (drop_ref (R_client c) h) w' /\ owner_side w w' /\
    v4_owners w' = v4_owners w) w.
Proof.
  intros [x Hx] Hh Hi. unfold dec_client_id_ref. wp_step. eapply wp_get_v4_client; [done|].
  destruct (vi_client_refs _ _ Hi _ _ Hx) as [_ Hr].
  pose proof (count_map_nonneg (owned_by c) (v4_owners w)).
  pose proof (count_map_nonneg (deleg_of c) (v4_files w)).
  rewrite (proj2 (Z.ltb_ge _ 0)) by lia. rewrite (proj2 (Z.ltb_lt 0 _)) by lia. unfold put_client. wp_step.
  split; [|split; [constructor|done]]; simpl.
  - eapply inv_update_client; [done|apply drop_agree| | |done]; rewrite drop_at; simpl; lia.
  - done.
  - intros d y. rewrite lookup_insert. case_decide; intros; simplify_eq; [by eexists|]. by destruct y; eexists.
  - intros o [] ?. by do 2 eexists.
Qed.

(** Tables that carry no invariant of their own. *)
Lemma inv_ht_owner h w f : v4_inv h w -> v4_inv h (set_ht_owner f w).
Proof. by intros []; constructor. Qed.
Lemma inv_cid_owners h w f : v4_inv h w -> v4_inv h (set_cid_owners f w).
Proof. by intros []; constructor. Qed.
Lemma inv_lock h w f : v4_inv h w -> v4_inv h (set_v4_lock f w).
Proof. by intros []; constructor. Qed.

Lemma owner_side_inv_ht w f : owner_side w (set_ht_owner f w).
Proof. destruct (owner_side_refl w). by constructor. Qed.
Lemma owner_side_inv_cid w f : owner_side w (set_cid_owners f w).
Proof. destruct (owner_side_refl w). by constructor. Qed.
Lemma owner_side_free w o : owner_side w (set_owners (delete o) w).
Proof.
  destruct (owner_side_refl w). constructor; [done|done|]. intros p x. simpl.
  rewrite lookup_delete_Some. intros [_ ?]. eauto.
Qed.
Lemma owner_side_put w o x n :
  v4_owners w !! o = Some x -> owner_side w (set_owners <[o := with_owner_refs n x]> w).
Proof.
  intros Ho. destruct (owner_side_refl w). constructor; [done|done|]. intros p y. simpl.
  rewrite lookup_insert. case_decide; intros; simplify_eq; eauto.
Qed.

(** The call of [dec_state_owner_ref] on the open owner of a freed lock owner. *)
Definition dec_related (fuel : nat) (o : positive) : VM unit :=
  match so_related_owner o with Some r => dec_owner_ref fuel r | None => mret tt end.

Lemma wp_dec_owner_step fuel h w o :
  (forall h w, (forall k, 0 <= h k) -> v4_inv (give_back o h) w ->
    (forall r, so_related_owner o = Some r -> is_Some (v4_owners w !! r) /\ so_related_owner r = None) ->
    wp (dec_related fuel o) (fun _ w' =>
      v4_inv (hold (R_client (so_clientrec o)) (drop_ref (R_owner o) h)) w' /\ owner_side w w') w) ->
  is_Some (v4_owners w !! o) -> 1 <= h (R_owner o) -> v4_inv h w ->
  wp (dec_owner_ref (S fuel) o) (fun _ w' => v4_inv (drop_ref (R_owner o) h) w' /\ owner_side w w') w.
Proof.
  intros Hrel [x Ho] Hh Hi. simpl. wp_step. eapply wp_get_owner; [done|]. wp_step. wp_step.
  pose proof (vi_owner_refs _ _ Hi _ _ Ho) as Hr. destruct (ll_refs_nonneg (v4_lock w) o) as [_ Hll].
  pose proof (count_map_nonneg (related_to o) (v4_owners w)) as Hc.
  assert (0 <= len_at o (so_state_list w)) as Hl by (unfold len_at; lia).
  assert (0 <= so_refcount x - 1) as Hn by (case_decide; lia).
  rewrite (proj2 (Z.ltb_ge _ 0)) by lia.
  destruct (Z.eqb_spec (so_refcount x - 1 + ll_owner_refs (v4_lock w) o) 0) as [Hz|Hz]; simpl.
  2:{ unfold put_owner. wp_step. split; [|by eapply owner_side_put].
      eapply inv_update_owner; [done|apply drop_agree| | |done]; rewrite drop_at; simpl; lia. }
  wp_step. wp_step. wp_step. apply wp_mono with (P := fun _ w' => v4_inv h w' /\ owner_side w w' /\ v4_owners w' = v4_owners w).
  { wp_step; [wp_step|]; auto using inv_ht_owner, owner_side_inv_ht, owner_side_refl. }
  intros _ w1 (Hi1 & Hs1 & Ho1). wp_step. wp_step. wp_step.
  assert (is_Some (v4_owners w !! o)) as Hso by eauto.
  eapply wp_mono; [apply (Hrel h)|].
  - apply Hi.
  - eapply inv_free_owner; [by rewrite Ho1|done|lia|done].
  - intros r Er. simpl. rewrite Ho1. destruct (vi_related _ _ Hi o r Hso Er) as [Hr1 Hr2].
    by rewrite lookup_delete_ne by congruence.
  - intros _ w2 [Hi2 Hs2]. wp_step. wp_step.
    destruct (vi_client _ _ Hi o Hso) as [cx Hcx]. destruct (os_clients _ _ Hs1 _ _ Hcx) as [n1 Hn1].
    destruct (os_clients _ _ Hs2 _ _ Hn1) as [n2 Hn2].
    destruct (vi_client_refs _ _ Hi _ _ Hcx) as [Hc1 _].
    eapply wp_mono; [apply wp_dec_client_id_ref; [|  |apply inv_cid_owners, Hi2]|].
    + simpl. by rewrite Hn2.
    + rewrite hold_at. unfold drop_ref. rewrite decide_False by done. lia.
    + intros _ w3 (Hi3 & Hs3 & _). split; [eapply inv_ext; [apply drop_hold|done]|].
      eapply owner_side_trans; [done|]. eapply owner_side_trans; [apply owner_side_free|].
      eapply owner_side_trans; [done|]. eapply owner_side_trans; [apply owner_side_inv_cid|done].
Qed.

(** [dec_state_owner_ref] gives back one reference, and frees what it was the last of. *)
Lemma wp_dec_state_owner_ref h w o :
  is_Some (v4_owners w !! o) -> 1 <= h (R_owner o) -> v4_inv h w ->
  wp (dec_state_owner_ref o) (fun _ w' => v4_inv (drop_ref (R_owner o) h) w' /\ owner_side w w') w.
Proof.
  intros Ho Hh Hi. apply wp_dec_owner_step; try done. clear h w Ho Hh Hi. intros h w Hh Hi Hr.
  unfold dec_related. destruct (so_related_owner o) as [r|] eqn:Er.
  2:{ wp_step. unfold give_back in Hi. rewrite Er in Hi. auto using owner_side_refl. }
  destruct (Hr r eq_refl) as [Hro Hrn]. unfold give_back in Hi. rewrite Er in Hi.
  eapply wp_mono; [apply wp_dec_owner_step; [|done| |exact Hi]|].
  - intros h' w' _ Hi' _. unfold dec_related. rewrite Hrn. wp_step. unfold give_back in Hi'. rewrite Hrn in Hi'.
    auto using owner_side_refl.
  - rewrite hold_at. unfold hold, drop_ref. rewrite !decide_False by congruence. specialize (Hh (R_owner r)). lia.
  - intros _ w' [Hi' Hs']. split; [|done]. eapply inv_ext; [apply drop_hold|done].
Qed.

End inv.
