(* ===== verification/StateOps.v ===== *)
(** * Operations of the state table keep its invariant

    [state_del_locked], [state_del], [state_nfs4_state_wipe] and [state_add]: run on tables
    that satisfy the invariant they have a defined result, which satisfies it again. *)
From S2P Require Import Prelude Status Owners Lease VfsHandle StateTable StateInv.
Local Open Scope Z_scope.

Section ops.
Context `{OwnerMem} {L : Type} `{!LowerLayer L}.
Abbreviation VM := (M (v4_world L)).

(** ** Taking a state out of the hash tables *)

Lemma compare_nfs4_owner_refl o : compare_nfs4_owner o o = true.
Proof. unfold compare_nfs4_owner. by rewrite decide_True. Qed.

Lemma same_key_sym s t : same_key s t -> same_key t s.
Proof.
  intros (Hx & o1 & o2 & E1 & E2 & Hc). split; [done|]. exists o2, o1. by rewrite compare_nfs4_owner_sym.
Qed.

Lemma compare_state_obj_key (s : state_t) (w : v4_world L) b t :
  v4_states w !! b = Some t -> is_Some (state_owner s) ->
  compare_state_obj (state_obj s) (state_owner s) w b = true <-> same_key s t.
Proof.
  intros Hb [o Ho]. unfold compare_state_obj, same_key. rewrite Hb, Ho.
  rewrite andb_true_iff, bool_decide_eq_true. split.
  - intros [Hx Hc]. split; [done|]. destruct (state_owner t) as [o2|] eqn:Et; [|done]. by exists o, o2.
  - intros (Hx & o1 & o2 & E1 & E2 & Hc). split; [done|]. rewrite E2. by simplify_eq.
Qed.

Lemma find_obj_Some obj owner (w : v4_world L) b :
  find_obj obj owner w = Some b -> b ∈ ht_state_obj w /\ compare_state_obj obj owner w b = true.
Proof.
  unfold find_obj. intros Hf. assert (b ∈ filter (fun b => compare_state_obj obj owner w b = true) (ht_state_obj w)) as Hin.
  { destruct (filter _ _); simplify_eq. by left. }
  apply list_elem_of_filter in Hin. tauto.
Qed.

Lemma find_obj_None obj owner (w : v4_world L) b :
  find_obj obj owner w = None -> b ∈ ht_state_obj w -> compare_state_obj obj owner w b = false.
Proof.
  unfold find_obj. intros Hf Hb. destruct (compare_state_obj obj owner w b) eqn:Ec; [|done].
  assert (b ∈ filter (fun b => compare_state_obj obj owner w b = true) (ht_state_obj w)) as Hin
    by by apply list_elem_of_filter.
  destruct (filter _ _); [by apply elem_of_nil in Hin|done].
Qed.

Lemma find_obj_own h w a s f :
  v4_inv h w -> v4_states w !! a = Some s -> a ∈ ht_state_obj w -> is_Some (state_owner s) ->
  find_obj (state_obj s) (state_owner s) (set_ht_id f w) = Some a.
Proof.
  intros Hi Ha Hin Ho. destruct (find_obj _ _ (set_ht_id f w)) as [b|] eqn:Ef.
  - f_equal. apply find_obj_Some in Ef as [Hb Hc]. simpl in Hb.
    destruct (vi_obj _ _ Hi b) as [(t & Ht & _) _]; [done|].
    apply (compare_state_obj_key s (set_ht_id f w) b t) in Hc; [|done|done].
    symmetry. by eapply (vi_obj_key _ _ Hi a b s t).
  - exfalso. pose proof (find_obj_None _ _ _ a Ef Hin) as Hc. destruct Ho as [o Ho].
    assert (compare_state_obj (state_obj s) (state_owner s) (set_ht_id f w) a = true) as Hc'; [|congruence].
    apply (compare_state_obj_key s (set_ht_id f w) a s); [done|by eexists|].
    split; [done|]. exists o, o. auto using compare_nfs4_owner_refl.
Qed.

Lemma inv_unhash h w a s f :
  v4_states w !! a = Some s -> is_hashed w a s -> f (ht_state_obj w) = remove_id a (ht_state_obj w) ->
  v4_inv h w -> v4_inv (hold (R_state a) h) (set_ht_obj f (set_ht_id (delete (stateid_other s)) w)).
Proof.
  intros Ha Hh Hf Hi.
  assert (forall b t, v4_states w !! b = Some t -> b <> a -> is_hashed w b t ->
    delete (stateid_other s) (ht_state_id w) !! stateid_other t = Some b) as Hkeep.
  { intros b t Hb Hne Ht. rewrite lookup_delete_ne; [done|]. intros He. unfold is_hashed in *. rewrite He in Hh. congruence. }
  assert (forall b t, delete (stateid_other s) (ht_state_id w) !! stateid_other t = Some b ->
    is_hashed w b t /\ b <> a \/ is_hashed w b t /\ stateid_other t <> stateid_other s) as Hold.
  { intros b t. rewrite lookup_delete_Some. intros [? ?]. right. split; [done|congruence]. }
  destruct Hi. constructor; simpl in *; try done; try (intros; rewrite hold_agree by done; eauto; fail).
  - intros k. specialize (vi_holds k). unfold hold. case_decide; lia.
  - intros k b [_ Hk]%lookup_delete_Some. eauto.
  - intros b t Hb. specialize (vi_refs b t Hb). unfold is_hashed in *. simpl. destruct (decide (b = a)) as [->|Hne].
    + simplify_eq. rewrite hold_at. rewrite decide_True in vi_refs by done.
      rewrite decide_False; [lia|]. rewrite lookup_delete_eq. done.
    + rewrite hold_agree by congruence. rewrite vi_refs. f_equal.
      destruct (decide (ht_state_id w !! stateid_other t = Some b)) as [Ht|Ht].
      * rewrite decide_True; [done|]. by apply (Hkeep b t).
      * rewrite decide_False; [done|]. intros [_ ?]%lookup_delete_Some. done.
  - rewrite Hf. by apply NoDup_remove_id.
  - intros b. rewrite Hf, elem_of_remove_id, vi_obj. unfold is_hashed. simpl. split.
    + intros [(t & Hb & Ht & Hx) Hne]. exists t. auto.
    + intros (t & Hb & [Hd Ht]%lookup_delete_Some & Hx). split; [eauto|]. intros ->. simplify_eq.
  - intros b c t u Hb Hc. rewrite Hf in Hb, Hc. apply elem_of_remove_id in Hb as [? _], Hc as [? _]. eauto.
Qed.

(** [nfs4_State_Del] of a hashed state. *)
Lemma wp_nfs4_State_Del h w a s :
  v4_states w !! a = Some s -> is_hashed w a s -> v4_inv h w ->
  wp (nfs4_State_Del a) (fun b w' => b = true /\ v4_inv (hold (R_state a) h) w' /\
    exists f, w' = set_ht_obj f (set_ht_id (delete (stateid_other s)) w)) w.
Proof.
  intros Ha Hh Hi. destruct (vi_id _ _ Hi _ _ Hh) as (s' & ? & _ & _ & Ho & _). simplify_eq.
  unfold nfs4_State_Del. wp_step. eapply wp_get_st; [done|]. wp_step. wp_step.
  unfold is_hashed in Hh. rewrite Hh. wp_step. wp_step. rewrite bool_decide_true by done. simpl.
  destruct (indexed_by_obj (state_type s)) eqn:Hx; simpl.
  - wp_step. wp_step. assert (a ∈ ht_state_obj w) as Hin by (apply Hi; eauto).
    rewrite (find_obj_own h w a s) by done. rewrite bool_decide_true by done. wp_step. wp_step. wp_step.
    split; [done|]. split; [by apply inv_unhash|by eexists].
  - wp_step. split; [done|].
    assert (set_ht_id (delete (stateid_other s)) w
            = set_ht_obj (fun l => l) (set_ht_id (delete (stateid_other s)) w)) as -> by done.
    split; [|by eexists]. apply inv_unhash; [done..| |done]. rewrite remove_id_not_in; [done|].
    intros (t & Ht & _ & Hx')%(vi_obj _ _ Hi). congruence.
Qed.

(** ** Taking a state off its lists *)

Definition forget_lists (w : v4_world L) : v4_world L :=
  set_states (fun _ => ∅) (set_file_list (fun _ => ∅) (set_owner_list (fun _ => ∅) (set_export_list (fun _ => ∅) w))).

(** A state that is not hashed loses links; the references that went with them are held. *)
Lemma inv_relink h h' w w' a s s' :
  v4_states w !! a = Some s -> ~ is_hashed w a s ->
  stateid_other s' = stateid_other s -> state_type s' = state_type s -> state_data s' = state_data s ->
  state_refcount s' = state_refcount s ->
  state_export s' = state_export s \/ (forall k, a ∉ list_at k (share_lockstates w)) ->
  (forall o, state_owner s' = Some o -> state_owner s = Some o) ->
  (forall x, state_obj s' = Some x -> state_obj s = Some x) ->
  v4_states w' = <[a := s']> (v4_states w) -> forget_lists w' = forget_lists w ->
  linked_on state_obj (v4_states w') (list_of_states w') ->
  linked_on state_owner (v4_states w') (so_state_list w') ->
  linked_on state_export (v4_states w') (exp_state_list w') ->
  (forall b, h' (R_state b) = h (R_state b)) -> (forall c, h' (R_client c) = h (R_client c)) ->
  (forall k, 0 <= h' k) ->
  (forall o, h' (R_owner o) + len_at o (so_state_list w') = h (R_owner o) + len_at o (so_state_list w)) ->
  (forall x, h' (R_obj x) + len_at x (list_of_states w') = h (R_obj x) + len_at x (list_of_states w)) ->
  (forall e, h' (R_export e) + len_at e (exp_state_list w') = h (R_export e) + len_at e (exp_state_list w)) ->
  v4_inv h w -> v4_inv h' w'.
Proof.
  intros Ha Hn E1 E2 E3 E4 E5 E6 E7 Est Erest Lf Lo Le Hs Hc Hnn Ho Hx He Hi.
  pose proof (f_equal v4_owners Erest) as Q0. simpl in Q0.
  pose proof (f_equal v4_clients Erest) as Q1. simpl in Q1.
  pose proof (f_equal v4_files Erest) as Q2. simpl in Q2.
  pose proof (f_equal ht_state_id Erest) as Q3. simpl in Q3.
  pose proof (f_equal ht_state_obj Erest) as Q4. simpl in Q4.
  pose proof (f_equal share_lockstates Erest) as Q5. simpl in Q5.
  pose proof (f_equal cached_open_owners Erest) as Q6. simpl in Q6.
  pose proof (f_equal obj_refs Erest) as Q7. simpl in Q7.
  pose proof (f_equal export_refs Erest) as Q8. simpl in Q8.
  pose proof (f_equal v4_next Erest) as Q9. simpl in Q9.
  assert (forall b t, <[a := s']> (v4_states w) !! b = Some t -> b = a /\ t = s' \/ b <> a /\ v4_states w !! b = Some t) as Hback.
  { intros b t. rewrite lookup_insert. case_decide; intros; simplify_eq; auto. }
  assert (forall b t, v4_states w !! b = Some t -> ht_state_id w !! stateid_other t = Some b -> b <> a) as Hne.
  { intros b t Hb Ht ->. by simplify_eq. }
  unfold is_hashed in *. destruct Hi. unfold is_hashed in *.
  constructor; unfold is_hashed; rewrite ?Q0, ?Q1, ?Q2, ?Q3, ?Q4, ?Q5, ?Q6, ?Q7, ?Q8, ?Q9; try done; try rewrite Est.
  - intros k b Hk. destruct (vi_id k b Hk) as (t & Hb & <- & Hl). exists t.
    rewrite lookup_insert_ne; [done|]. intros <-. by apply (Hne a t).
  - intros b t Ht. rewrite Hs. assert (exists t0, v4_states w !! b = Some t0 /\ stateid_other t = stateid_other t0 /\
      state_refcount t = state_refcount t0) as (t0 & Hb & F1 & F2) by (apply Hback in Ht as [[-> ->]|[? ?]]; eauto).
    specialize (vi_refs b t0 Hb). rewrite F2, vi_refs. f_equal.
    destruct (decide (ht_state_id w !! _ = _)), (decide (ht_state_id w' !! _ = _)); try done; rewrite Q3, F1 in *; done.
  - intros b [t [[-> ->]|[? Hb]]%Hback]; eauto.
  - intros b t [[-> ->]|[? Hb]]%Hback; [rewrite E2, E3|]; eauto.
  - intros b. rewrite vi_obj. split; intros (t & Hb & Ht & Hi).
    + exists t. rewrite lookup_insert_ne; [done|]. intros <-. by apply (Hne a t).
    + apply Hback in Hb as [[-> ->]|[? Hb]]; [|eauto]. rewrite E1 in Ht. done.
  - intros b c t u Hb Hc'. pose proof Hb as (t0 & ? & ? & ?)%vi_obj. pose proof Hc' as (u0 & ? & ? & ?)%vi_obj.
    assert (b <> a) by (by eapply Hne). assert (c <> a) by (by eapply Hne).
    rewrite !lookup_insert_ne by congruence. eauto.
  - intros k b Hb. destruct (vi_lockstates k b Hb) as (t & Ht & ? & ?). destruct (decide (a = b)) as [<-|Hab].
    + simplify_eq. exists s'. rewrite lookup_insert_eq, E2. destruct E5 as [->|E5]; [done|]. by destruct (E5 k).
    + exists t. by rewrite lookup_insert_ne.
  - intros b t o [[-> ->]|[? Hb]]%Hback Hto; [|by eapply vi_owner]. eapply vi_owner; [done|]. auto.
  - intros b t o [[-> ->]|[? Hb]]%Hback Hto; [|by eapply vi_file]. eapply vi_file; [done|]. auto.
  - intros o x Hox. rewrite (vi_owner_refs o x Hox). specialize (Ho o). lia.
  - intros c x Hcx. rewrite Hc. eauto.
  - intros x. rewrite vi_obj_refs. specialize (Hx x). lia.
  - intros e. rewrite vi_export_refs. specialize (He e). lia.
Qed.

Lemma hold_other k h k' : k' <> k -> hold k h k' = h k'.
Proof. apply hold_agree. Qed.

Lemma hold_nonneg k h : (forall k', 0 <= h k') -> forall k', 0 <= hold k h k'.
Proof. intros Hh k'. unfold hold. specialize (Hh k'). case_decide; lia. Qed.

(** One pointer of the state is cleared and its node leaves the lists of the family. *)
Local Ltac unlink Hi Hk :=
  simpl; auto;
  lazymatch goal with
  | |- linked_on _ _ (glist_del _ _) => apply linked_unlink; [done|apply Hi]
  | |- linked_on _ _ _ => eapply linked_update; [done|done|apply Hi]
  | |- forall k, 0 <= _ => apply hold_nonneg, Hi
  | |- forall k, _ + len_at k (glist_del _ _) = _ =>
      intros ?; unfold len_at; erewrite linked_len_unlink; [|done|exact Hk|apply Hi];
      unfold hold; repeat case_decide; simplify_eq; lia
  | _ => try (intros; rewrite hold_other by done; done)
  end.

Lemma inv_unlink_owner h w a s o :
  v4_states w !! a = Some s -> ~ is_hashed w a s -> state_owner s = Some o -> v4_inv h w ->
  v4_inv (hold (R_owner o) h)
    (set_states <[a := with_links (state_export s) None (state_obj s) s]> (set_owner_list (glist_del a) w)).
Proof.
  intros Ha Hn Ho Hi.
  eapply (inv_relink h _ w _ a s (with_links (state_export s) None (state_obj s) s)); try done; unlink Hi Ho.
Qed.

Lemma inv_unlink_export h w a s e :
  v4_states w !! a = Some s -> ~ is_hashed w a s -> state_export s = Some e ->
  (forall k, a ∉ list_at k (share_lockstates w)) -> v4_inv h w ->
  v4_inv (hold (R_export e) h)
    (set_states <[a := with_links None (state_owner s) (state_obj s) s]> (set_export_list (glist_del a) w)).
Proof.
  intros Ha Hn Ho Hk Hi.
  eapply (inv_relink h _ w _ a s (with_links None (state_owner s) (state_obj s) s)); try done; unlink Hi Ho.
Qed.

Lemma inv_unlink_obj h w a s x :
  v4_states w !! a = Some s -> ~ is_hashed w a s -> state_obj s = Some x -> v4_inv h w ->
  v4_inv (hold (R_obj x) h)
    (set_states <[a := with_links (state_export s) (state_owner s) None s]> (set_file_list (glist_del a) w)).
Proof.
  intros Ha Hn Ho Hi.
  eapply (inv_relink h _ w _ a s (with_links (state_export s) (state_owner s) None s)); try done; unlink Hi Ho.
Qed.

(** ** What the removal of a state leaves alone *)

(** The fields of an owner that order the requests of an NFSv4.0 client. *)
Definition same_seq (x x' : nfs4_owner_t) : Prop :=
  so_confirmed x' = so_confirmed x /\ so_seqid x' = so_seqid x /\ so_args x' = so_args x /\
  so_last_entry x' = so_last_entry x /\ so_resp x' = so_resp x.

Record del_frame (a : positive) (w w' : v4_world L) : Prop := {
  df_states b : b <> a -> v4_states w' !! b = v4_states w !! b;
  df_confirmed : ht_confirmed_client_id w' = ht_confirmed_client_id w;
  df_next : v4_next w' = v4_next w;
  df_lockstates k : list_at k (share_lockstates w') = list_at k (share_lockstates w) \/
    list_at k (share_lockstates w') = remove_id a (list_at k (share_lockstates w));
  df_clients c x : v4_clients w !! c = Some x -> exists n, v4_clients w' !! c = Some (with_client_refs n x);
  df_owners o x' : v4_owners w' !! o = Some x' -> exists x, v4_owners w !! o = Some x /\ same_seq x x'
}.

Lemma remove_id_twice (a : positive) l : remove_id a (remove_id a l) = remove_id a l.
Proof. apply remove_id_not_in. rewrite elem_of_remove_id. naive_solver. Qed.

Lemma del_frame_refl a w : del_frame a w w.
Proof.
  constructor; auto; [intros c [] ?; by eexists|intros o [] ?; by eexists].
Qed.

Lemma del_frame_trans a w1 w2 w3 : del_frame a w1 w2 -> del_frame a w2 w3 -> del_frame a w1 w3.
Proof.
  intros [] []. constructor; [intros; by rewrite df_states1, df_states0 by done|congruence|congruence| | |].
  - intros k. destruct (df_lockstates0 k) as [E|E], (df_lockstates1 k) as [F|F]; rewrite F, E; auto.
    right. apply remove_id_twice.
  - intros c x (n & Hn)%df_clients0. destruct (df_clients1 _ _ Hn) as [m Hm]. by exists m.
  - intros o x (y & (z & Hz & Q)%df_owners0 & R)%df_owners1. exists z. split; [done|].
    destruct Q as (? & ? & ? & ? & ?), R as (? & ? & ? & ? & ?). repeat split; congruence.
Qed.

Lemma del_frame_state a w w' s :
  v4_states w' = <[a := s]> (v4_states w) \/ v4_states w' = delete a (v4_states w) ->
  share_lockstates w' = share_lockstates w -> ht_confirmed_client_id w' = ht_confirmed_client_id w ->
  v4_next w' = v4_next w -> v4_clients w' = v4_clients w -> v4_owners w' = v4_owners w -> del_frame a w w'.
Proof.
  intros Es El Ec En Ek Eo. destruct (del_frame_refl a w). constructor; rewrite ?El, ?Ek, ?Eo; try done.
  intros b Hb. destruct Es as [->| ->]; [by rewrite lookup_insert_ne|by rewrite lookup_delete_ne].
Qed.

Lemma owner_side_frame a w w' : owner_side w w' -> del_frame a w w'.
Proof.
  intros [E C O]. constructor; try done.
  - intros b _. by rewrite (f_equal v4_states E : v4_states w' = v4_states w).
  - exact (f_equal ht_confirmed_client_id E).
  - exact (f_equal v4_next E).
  - intros k. left. by rewrite (f_equal share_lockstates E : share_lockstates w' = share_lockstates w).
  - intros o x' (n & x & Hx & ->)%O. exists x. done.
Qed.

(** ** The steps of [state_del_locked] *)

(** The reference of the last open state keeps a cached open owner alive. *)
Lemma inv_cache_owner h w o :
  o ∉ cached_open_owners w -> is_Some (v4_owners w !! o) -> (forall k, 0 <= h k) ->
  v4_inv (hold (R_owner o) h) w -> v4_inv h (set_cached (fun l => l ++ [o]) w).
Proof.
  intros Hn Ho Hh Hi.
  assert (forall k, (forall p, k <> R_owner p) -> hold (R_owner o) h k = h k) as Hag.
  { intros k Hk. apply hold_other. naive_solver. }
  destruct Hi. constructor; simpl in *; try done; try (intros; rewrite <- Hag by done; eauto; fail).
  - apply NoDup_app. split; [done|]. split; [|apply NoDup_singleton].
    intros p Hp ->%list_elem_of_singleton. done.
  - intros p [?| ->%list_elem_of_singleton]%elem_of_app; auto.
  - intros p x Hp. rewrite (vi_owner_refs p x Hp). unfold hold. destruct (decide (p = o)) as [->|Hpo].
    + rewrite decide_True by done. rewrite decide_False by done. rewrite decide_True; [lia|].
      apply elem_of_app. right. by apply list_elem_of_singleton.
    + rewrite decide_False by congruence. repeat case_decide; try lia.
      * exfalso. set_solver.
      * exfalso. set_solver.
Qed.

(** A state that has left the hash tables and is being taken apart. *)
Record dying (a : positive) (k : list Z) (t : state_type_t) (s : state_t) (w : v4_world L) : Prop := {
  dy_at : v4_states w !! a = Some s;
  dy_other : stateid_other s = k;
  dy_type : state_type s = t;
  dy_id : ht_state_id w !! k <> Some a
}.

Lemma dying_not_hashed a k t s w : dying a k t s w -> ~ is_hashed w a s.
Proof. intros [? <- ? ?]. done. Qed.

Lemma wp_unlink_owner lifetime now h w a s k t o :
  dying a k t s w -> state_owner s = Some o -> v4_inv h w ->
  wp (unlink_owner lifetime now a o) (fun _ w' => v4_inv h w' /\ del_frame a w w' /\
    ht_state_id w' = ht_state_id w /\ share_lockstates w' = share_lockstates w /\
    v4_states w' = <[a := with_links (state_export s) None (state_obj s) s]> (v4_states w)) w.
Proof.
  intros Hd Ho Hi. pose proof (inv_unlink_owner h w a s o (dy_at _ _ _ _ _ Hd) (dying_not_hashed _ _ _ _ _ Hd) Ho Hi) as Hi1.
  destruct (vi_owner _ _ Hi a s o (dy_at _ _ _ _ _ Hd) Ho) as [x Hx].
  unfold unlink_owner. wp_step. eapply wp_get_st; [apply Hd|]. wp_step. wp_step. wp_step. unfold put_st. wp_step. wp_step. wp_step.
  wp_step. wp_step. simpl.
  set (w1 := set_states _ _) in *.
  assert (del_frame a w w1) as Hf1 by by eapply del_frame_state; eauto.
  destruct (bool_decide _ && _ && _) eqn:Eb.
  - apply andb_true_iff in Eb as [[Et%bool_decide_eq_true El%bool_decide_eq_true]%andb_true_iff Ec%bool_decide_eq_true].
    wp_step. eapply wp_get_owner; [done|]. unfold put_owner. wp_step. wp_step. wp_step.
    split; [|split; [|done]].
    + apply inv_cache_owner; [done| |apply Hi|].
      * simpl. rewrite lookup_insert_eq. by eexists.
      * eapply (inv_update_owner (hold (R_owner o) h)); [done| | |simpl; lia|done]; [done|].
        apply hold_nonneg, Hi.
    + eapply del_frame_trans; [done|]. destruct (del_frame_refl a w1). constructor; auto. simpl.
      intros p y. rewrite lookup_insert. case_decide; intros; simplify_eq; [by exists x|auto].
  - eapply wp_mono; [apply (wp_dec_state_owner_ref (hold (R_owner o) h)); [by eexists| |done]|].
    + rewrite hold_at. pose proof (vi_holds _ _ Hi (R_owner o)). lia.
    + intros _ w2 [Hi2 Hs2]. split; [eapply inv_ext; [apply drop_hold|done]|].
      split; [eapply del_frame_trans; [done|by apply owner_side_frame]|]. destruct Hs2 as [E _ _].
      split; [exact (f_equal ht_state_id E)|]. split; [exact (f_equal share_lockstates E)|exact (f_equal v4_states E)].
Qed.

Lemma inv_lockstates_del h w a : v4_inv h w -> v4_inv h (set_lockstates (glist_del a) w).
Proof.
  intros []. constructor; simpl in *; try done.
  - intros k b. rewrite list_at_glist_del, elem_of_remove_id. intros [? _]. eauto.
  - intros k. rewrite list_at_glist_del. by apply NoDup_remove_id.
Qed.

Lemma inv_update_file h w x f f' :
  v4_files w !! x = Some f -> write_deleg_client f' = write_deleg_client f -> v4_inv h w ->
  v4_inv h (set_files <[x := f']> w).
Proof.
  intros Hx He Hi.
  assert (forall c, count_map (deleg_of c) (<[x := f']> (v4_files w)) = count_map (deleg_of c) (v4_files w)) as Hc.
  { intros c. rewrite (count_map_update _ _ f) by done. unfold deleg_of. rewrite He. lia. }
  destruct Hi. constructor; simpl in *; try done.
  - intros b t y Hb Hy. rewrite lookup_insert. case_decide; [by eexists|eauto].
  - intros y g c. rewrite lookup_insert. case_decide; intros; simplify_eq; [|eauto]. rewrite He in *. eauto.
  - intros c y Hy. rewrite Hc. eauto.
Qed.

(** A write delegation ends: the file lets go of the client. *)
Lemma inv_end_deleg h w x f c :
  v4_files w !! x = Some f -> write_deleg_client f = Some c -> v4_inv h w ->
  v4_inv (hold (R_client c) h) (set_files <[x := with_write_deleg None f]> w).
Proof.
  intros Hx Hf Hi.
  assert (forall d, count_map (deleg_of d) (<[x := with_write_deleg None f]> (v4_files w))
            = count_map (deleg_of d) (v4_files w) - (if decide (d = c) then 1 else 0)) as Hc.
  { intros d. rewrite (count_map_update _ _ f) by done.
    assert (deleg_of d x (with_write_deleg None f) = false) as -> by by apply bool_decide_eq_false.
    assert (deleg_of d x f = bool_decide (d = c)) as ->.
    { unfold deleg_of. rewrite Hf. apply bool_decide_ext. naive_solver. }
    case_decide as Hd; [rewrite bool_decide_true by done|rewrite bool_decide_false by done]; simpl; lia. }
  destruct Hi. constructor; simpl in *; try done; try (intros; rewrite hold_other by done; eauto; fail).
  - by apply hold_nonneg.
  - intros b t y Hb Hy. rewrite lookup_insert. case_decide; [by eexists|eauto].
  - intros y g d. rewrite lookup_insert. case_decide; intros; simplify_eq; eauto.
  - intros d y Hy. destruct (vi_client_refs d y Hy) as [? ->]. rewrite Hc. unfold hold.
    repeat case_decide; simplify_eq; lia.
Qed.

Lemma wp_end_deleg h w a x f c :
  v4_files w !! x = Some f -> write_deleg_client f = Some c -> v4_inv h w ->
  wp (dec_client_id_ref c;; put_file x (with_write_deleg None f)) (fun _ w' => v4_inv h w' /\ del_frame a w w' /\
    ht_state_id w' = ht_state_id w /\ v4_states w' = v4_states w /\ share_lockstates w' = share_lockstates w) w.
Proof.
  intros Hx Hf Hi. destruct (vi_deleg _ _ Hi x f c Hx Hf) as [y Hy].
  destruct (vi_client_refs _ _ Hi c y Hy) as [H1 Hr].
  pose proof (count_map_nonneg (owned_by c) (v4_owners w)).
  assert (1 <= count_map (deleg_of c) (v4_files w)) as H2.
  { apply (count_map_pos _ x f); [done|]. unfold deleg_of. by apply bool_decide_eq_true. }
  unfold dec_client_id_ref. wp_step. wp_step. eapply wp_get_v4_client; [done|].
  rewrite (proj2 (Z.ltb_ge _ 0)) by lia. rewrite (proj2 (Z.ltb_lt 0 _)) by lia.
  unfold put_client, put_file. wp_step. wp_step. split; [|split; [|done]].
  - apply (inv_end_deleg h w x f c) in Hi; [|done|done].
    change (v4_inv h (set_clients <[c := with_client_refs (cid_refcount y - 1) y]>
                        (set_files <[x := with_write_deleg None f]> w))).
    eapply inv_ext; [apply (drop_hold (R_client c))|].
    eapply (inv_update_client (hold (R_client c) h) _ (set_files <[x := with_write_deleg None f]> w));
      [exact Hy|apply drop_agree| | |done]; rewrite drop_hold; [lia|]. rewrite hold_at. simpl. lia.
  - destruct (del_frame_refl a w). constructor; auto. simpl.
    intros d z. rewrite lookup_insert. case_decide; intros; simplify_eq; [by eexists|]. by destruct z; eexists.
Qed.

Lemma wp_unlink_data h w a s k t x :
  dying a k t s w -> state_obj s = Some x ->
  (t = STATE_TYPE_SHARE -> list_at a (share_lockstates w) = []) -> v4_inv h w ->
  wp (unlink_data a x) (fun _ w' => v4_inv h w' /\ del_frame a w w' /\
    ht_state_id w' = ht_state_id w /\ v4_states w' = v4_states w /\
    forall k', a ∉ list_at k' (share_lockstates w')) w.
Proof.
  intros Hd Hx Hsh Hi. assert (t <> STATE_TYPE_LOCK -> forall k', a ∉ list_at k' (share_lockstates w)) as Hnl.
  { intros Ht k' (u & Hu & Hut & _)%(vi_lockstates _ _ Hi). destruct Hd. congruence. }
  destruct (vi_file _ _ Hi a s x (dy_at _ _ _ _ _ Hd) Hx) as [f Hf].
  unfold unlink_data. wp_step. eapply wp_get_st; [apply Hd|].
  destruct Hd as [Ha Hk Ht Hid]. rewrite Ht.
  destruct t; simpl; try specialize (Hnl ltac:(done)); try (wp_step; auto 7 using del_frame_refl; fail).
  - destruct (vi_data _ _ Hi a s Ha Ht) as [sh ->]. wp_step. wp_step. rewrite Hsh by done. wp_step.
    + wp_step. eapply wp_get_file; [done|]. unfold put_file. wp_step.
      split; [by eapply inv_update_file|]. split; [|auto]. by destruct (del_frame_refl a w).
    + auto 7 using del_frame_refl.
  - wp_step; [|auto 7 using del_frame_refl]. wp_step. eapply wp_get_file; [done|].
    destruct (write_deleg_client f) as [c|] eqn:Ec; [|wp_step; auto 7 using del_frame_refl].
    eapply wp_mono; [by apply (wp_end_deleg h w a x f c)|]. intros _ w' (? & ? & ? & ? & El). rewrite El. auto.
  - wp_step. split; [by apply inv_lockstates_del|]. split; [|split; [done|split; [done|]]].
    + destruct (del_frame_refl a w). constructor; auto. simpl. intros k'. right. apply list_at_glist_del.
    + intros k'. simpl. rewrite list_at_glist_del, elem_of_remove_id. naive_solver.
Qed.

Lemma wp_unlink_export h w a s k t e :
  dying a k t s w -> state_export s = Some e -> (forall k', a ∉ list_at k' (share_lockstates w)) -> v4_inv h w ->
  wp (unlink_export a) (fun _ w' => v4_inv h w' /\ del_frame a w w' /\
    ht_state_id w' = ht_state_id w /\ share_lockstates w' = share_lockstates w /\
    v4_states w' = <[a := with_links None (state_owner s) (state_obj s) s]> (v4_states w)) w.
Proof.
  intros Hd He Hk Hi. unfold unlink_export. wp_step. eapply wp_get_st; [apply Hd|]. rewrite He. simpl.
  wp_step. wp_step. wp_step. wp_step. wp_step. unfold put_st, put_gsh_export. wp_step. wp_step.
  split; [|split; [by eapply del_frame_state; eauto|done]].
  eapply inv_ext; [apply (drop_hold (R_export e))|]. eapply inv_export_ref; [apply drop_agree|rewrite drop_at; lia| |].
  - rewrite drop_hold. apply Hi.
  - eapply inv_unlink_export; [apply Hd|by eapply dying_not_hashed|done..].
Qed.

Lemma wp_unlink_obj h w a s k t x :
  dying a k t s w -> state_obj s = Some x -> v4_inv h w ->
  wp (unlink_obj a x) (fun _ w' => v4_inv h w' /\ del_frame a w w' /\
    ht_state_id w' = ht_state_id w /\ share_lockstates w' = share_lockstates w /\
    v4_states w' = <[a := with_links (state_export s) (state_owner s) None s]> (v4_states w)) w.
Proof.
  intros Hd Hx Hi. unfold unlink_obj. wp_step. eapply wp_get_st; [apply Hd|].
  wp_step. wp_step. wp_step. unfold put_st, put_ref. wp_step. wp_step.
  split; [|split; [by eapply del_frame_state; eauto|done]].
  change (v4_inv h (set_obj_refs (ref_add x (-1)) (set_states
    <[a := with_links (state_export s) (state_owner s) None s]> (set_file_list (glist_del a) w)))).
  eapply inv_ext; [apply (drop_hold (R_obj x))|].
  eapply inv_obj_ref; [apply drop_agree|rewrite drop_at; lia| |].
  - rewrite drop_hold. apply Hi.
  - eapply inv_unlink_obj; [apply Hd|by eapply dying_not_hashed|done..].
Qed.

(** ** The removal of a state *)

Record deleted (a : positive) (s : state_t) (w w' : v4_world L) : Prop := {
  de_frame : del_frame a w w';
  de_id : ht_state_id w' = delete (stateid_other s) (ht_state_id w);
  de_gone t : v4_states w' !! a = Some t -> state_export t = None /\ state_owner t = None /\ state_obj t = None;
  de_locks k : a ∉ list_at k (share_lockstates w')
}.

Lemma dying_step a k t s s' w w' :
  dying a k t s w -> v4_states w' = <[a := s']> (v4_states w) -> ht_state_id w' = ht_state_id w ->
  stateid_other s' = stateid_other s -> state_type s' = state_type s -> dying a k t s' w'.
Proof.
  intros [] Es Ei E1 E2. constructor; [rewrite Es; apply lookup_insert_eq|congruence|congruence|by rewrite Ei].
Qed.

Lemma wp_state_del_locked lifetime now h w a s :
  v4_states w !! a = Some s -> is_hashed w a s ->
  (state_type s = STATE_TYPE_SHARE -> list_at a (share_lockstates w) = []) -> v4_inv h w ->
  wp (state_del_locked lifetime now a) (fun _ w' => v4_inv h w' /\ deleted a s w w') w.
Proof.
  intros Ha Hh Hsh Hi. destruct (vi_id _ _ Hi _ _ Hh) as (s' & Ha' & _ & [e He] & [o Ho] & [x Hx]).
  rewrite Ha in Ha'. injection Ha' as <-. unfold state_del_locked. wp_step.
  eapply wp_mono; [by apply (wp_nfs4_State_Del h)|]. intros _ w1 (-> & Hi1 & f & Hw1). simpl.
  unfold get_state_obj_ref. wp_step. wp_step. eapply wp_get_st; [by rewrite Hw1|]. rewrite Hx.
  unfold get_ref. wp_step. wp_step. wp_step. apply (inv_get_ref _ _ x) in Hi1.
  set (w2 := set_obj_refs _ _) in *.
  assert (dying a (stateid_other s) (state_type s) s w2) as D2.
  { constructor; try done; rewrite ?Hw1; subst w2; simpl; rewrite Hw1; [done|]. simpl. by rewrite lookup_delete_eq. }
  assert (del_frame a w w2) as F2.
  { destruct (del_frame_refl a w). subst w2. rewrite Hw1. by constructor. }
  assert (ht_state_id w2 = delete (stateid_other s) (ht_state_id w)) as I2 by (subst w2; by rewrite Hw1).
  assert (share_lockstates w2 = share_lockstates w) as K2 by (subst w2; by rewrite Hw1).
  clearbody w2. clear f Hw1 w1. wp_step. eapply wp_get_st; [apply D2|]. rewrite Ho. wp_step.
  eapply wp_mono; [by eapply wp_unlink_owner|]. intros _ w3 (Hi3 & F3 & I3 & K3 & S3).
  eapply dying_step in S3 as D3; [|done..]. wp_step.
  eapply wp_mono; [eapply wp_unlink_data; [done|exact Hx| |done]|].
  { intros Ht. rewrite K3, K2. auto. }
  intros _ w4 (Hi4 & F4 & I4 & S4 & K4). assert (dying a (stateid_other s) (state_type s)
    (with_links (state_export s) None (state_obj s) s) w4) as D4.
  { destruct D3. constructor; rewrite ?S4, ?I4; done. }
  wp_step. eapply wp_mono; [eapply wp_unlink_export; [done|exact He|done|done]|].
  intros _ w5 (Hi5 & F5 & I5 & K5 & S5). simpl in S5. eapply dying_step in S5 as D5; [|done..]. wp_step.
  eapply wp_mono; [eapply wp_unlink_obj; [done|exact Hx|done]|].
  intros _ w6 (Hi6 & F6 & I6 & K6 & S6). simpl in S6. eapply dying_step in S6 as D6; [|done..].
  wp_step. wp_step. wp_step. set (w7 := set_v4_lock _ _).
  assert (v4_inv (hold (R_obj x) (hold (R_state a) h)) w7) as Hi7 by by apply inv_lock.
  eapply wp_mono; [eapply (wp_dec_nfs4_state_ref _ w7 a); [apply D6| |by right|done]|].
  { rewrite hold_other, hold_at by done. pose proof (vi_holds _ _ Hi (R_state a)). lia. }
  intros _ w8 (Hi8 & g & Hw8 & Hg & _ & Hga). unfold put_ref. wp_step. split.
  - apply (inv_put_ref _ _ x) in Hi8.
    + eapply inv_ext; [|exact Hi8]. intros r. unfold drop_ref, hold. repeat case_decide; simplify_eq; lia.
    + unfold drop_ref. rewrite decide_False, hold_at by done. rewrite hold_other by done.
      pose proof (vi_holds _ _ Hi (R_obj x)). lia.
  - assert (del_frame a w w6) as F by (repeat (eapply del_frame_trans; [done|]); apply del_frame_refl).
    constructor; simpl; rewrite ?Hw8; simpl.
    + eapply del_frame_trans; [exact F|]. destruct (del_frame_refl a w6). constructor; simpl; auto.
    + rewrite I6, I5, I4, I3. done.
    + intros t Ht. destruct (Hga (v4_states w6)) as [E|E]; rewrite E in Ht; simplify_eq. done.
    + intros k. rewrite K6, K5. apply K4.
Qed.

Lemma wp_state_del lifetime now h w a s :
  v4_states w !! a = Some s -> is_hashed w a s ->
  (state_type s = STATE_TYPE_SHARE -> list_at a (share_lockstates w) = []) -> v4_inv h w ->
  wp (state_del lifetime now a) (fun _ w' => v4_inv h w' /\ deleted a s w w') w.
Proof.
  intros Ha Hh Hsh Hi. destruct (vi_id _ _ Hi _ _ Hh) as (s' & Ha' & _ & _ & _ & [x Hx]).
  rewrite Ha in Ha'. injection Ha' as <-. unfold state_del, get_state_obj_ref. wp_step. wp_step.
  eapply wp_get_st; [done|]. rewrite Hx. unfold get_ref. wp_step. wp_step. wp_step. wp_step.
  eapply wp_mono; [apply wp_state_del_locked; [done|done|done|by apply inv_get_ref]|].
  intros _ w' [Hi' [F I G K]]. unfold put_ref. wp_step. split.
  - eapply inv_ext; [apply (drop_hold (R_obj x))|]. apply inv_put_ref; [|done]. rewrite hold_at.
    pose proof (vi_holds _ _ Hi (R_obj x)). lia.
  - constructor; simpl; try done. destruct F. by constructor.
Qed.

(** Between requests every state that is on the list of its export or of its file is hashed. *)
Definition settled (w : v4_world L) : Prop :=
  forall a s, v4_states w !! a = Some s -> is_Some (state_export s) \/ is_Some (state_obj s) -> is_hashed w a s.

Lemma settled_deleted a s w w' :
  v4_states w !! a = Some s -> is_hashed w a s -> deleted a s w w' -> settled w -> settled w'.
Proof.
  intros Ha Hh [F I G K] Hs b t Hb Ht. destruct (decide (b = a)) as [->|Hne].
  - destruct (G t Hb) as (E & _ & E'). rewrite E, E' in Ht. destruct Ht as [[]|[]]; done.
  - rewrite (df_states _ _ _ F) in Hb by done. specialize (Hs b t Hb Ht). unfold is_hashed in *. rewrite I.
    rewrite lookup_delete_ne; [done|]. intros E. rewrite E in Hh. congruence.
Qed.

(** ** Adding a state *)

(** The tables after a successful [state_add_impl], except for a write delegation. *)
Definition added (a e o x : positive) (s : state_t) (xo : nfs4_owner_t) (c : positive) (xc : v4_client_t)
    (w : v4_world L) : v4_world L :=
  set_owner_list (add_tail o a) (set_owners <[o := with_owner_refs (so_refcount xo + 1) xo]>
  (set_obj_refs (ref_add x 1) (set_file_list (add_tail x a) (set_export_list (add_tail e a)
  (set_ht_obj (fun l => if indexed_by_obj (state_type s) then l ++ [a] else l)
  (set_ht_id <[stateid_other s := a]> (set_states <[a := s]>
  (set_clients <[c := xc]> (set_v4_next Pos.succ (set_export_refs (ref_add e 1) w)))))))))).

Lemma inv_added h w a e o x s xo c xc n :
  a = v4_next w -> h (R_state a) = 0 ->
  state_export s = Some e -> state_owner s = Some o -> state_obj s = Some x ->
  state_refcount s = 2 -> (state_type s = STATE_TYPE_SHARE -> exists sh, state_data s = data_share sh) ->
  ht_state_id w !! stateid_other s = None ->
  (indexed_by_obj (state_type s) = true -> forall b t,
    b ∈ ht_state_obj w -> v4_states w !! b = Some t -> ~ same_key s t /\ ~ same_key t s) ->
  v4_owners w !! o = Some xo -> v4_clients w !! c = Some xc -> is_Some (v4_files w !! x) ->
  v4_inv h w -> v4_inv (hold (R_state a) h) (added a e o x s xo c (with_counter n xc) w).
Proof.
  intros Hfr Hh He Ho Hx Hr Hsh Hid Hkey Hxo Hc Hfx Hi.
  assert (v4_states w !! a = None) as Ha.
  { destruct (v4_states w !! a) as [t|] eqn:E; [|done]. pose proof (vi_fresh _ _ Hi a ltac:(by eexists)). subst a. lia. }
  assert (forall k, ht_state_id w !! k <> Some a) as Hna.
  { intros k (t & Ht & _)%(vi_id _ _ Hi). congruence. }
  assert (a ∉ ht_state_obj w) as Hao by (intros (t & Ht & _)%(vi_obj _ _ Hi); congruence).
  assert (forall b t, <[a := s]> (v4_states w) !! b = Some t ->
    b = a /\ t = s \/ b <> a /\ v4_states w !! b = Some t) as Hback.
  { intros b t. rewrite lookup_insert. case_decide; intros; simplify_eq; auto. }
  pose proof (vi_holds _ _ Hi) as Hnn. destruct (vi_client_refs _ _ Hi c xc Hc) as [Hc1 _].
  apply (inv_update_client h h w c xc (with_counter n xc)) in Hi; [|done|done|done|simpl; lia].
  eapply (inv_update_owner h (hold (R_owner o) h) _ o xo (with_owner_refs (so_refcount xo + 1) xo)) in Hi;
    [|done|apply hold_agree|by apply hold_nonneg|rewrite hold_at; simpl; lia].
  destruct Hi. constructor; simpl in *; auto; try (intros; rewrite !hold_other in * by done; eauto; fail).
  - by apply hold_nonneg.
  - intros k b. rewrite lookup_insert. case_decide; intros; simplify_eq.
    + exists s. rewrite lookup_insert_eq, He, Ho, Hx. auto.
    + destruct (vi_id k b) as (t & Ht & ? & Hl); [done|]. exists t. rewrite lookup_insert_ne; [done|congruence].
  - intros b t [[-> ->]|[Hb Ht]]%Hback.
    + rewrite hold_at, Hh, decide_True; [lia|]. unfold is_hashed. apply lookup_insert_eq.
    + specialize (vi_refs b t Ht). rewrite hold_other in vi_refs by done.
      rewrite hold_other by congruence. rewrite vi_refs. f_equal.
      unfold is_hashed. simpl. destruct (decide (ht_state_id w !! stateid_other t = Some b)) as [E|E].
      * rewrite decide_True; [done|]. rewrite lookup_insert_ne; congruence.
      * rewrite decide_False; [done|]. rewrite lookup_insert.
        destruct (decide (stateid_other s = stateid_other t)); congruence.
  - intros b [t [[-> ->]|[Hb Ht]]%Hback]; [subst a; lia|]. pose proof (vi_fresh b ltac:(by eexists)). lia.
  - intros b t [[-> ->]|[Hb Ht]]%Hback; eauto.
  - destruct (indexed_by_obj _); [|done]. apply NoDup_app. split; [done|]. split; [|apply NoDup_singleton].
    by intros b Hb ->%list_elem_of_singleton.
  - intros b. transitivity (b ∈ ht_state_obj w \/ b = a /\ indexed_by_obj (state_type s) = true).
    { destruct (indexed_by_obj _); [rewrite elem_of_app, list_elem_of_singleton|]; naive_solver. }
    unfold is_hashed in *. simpl. rewrite vi_obj. simpl. split.
    + intros [(t & Ht & Hb & Hix)|[-> Hix]].
      * exists t. rewrite !lookup_insert_ne by congruence. done.
      * exists s. by rewrite !lookup_insert_eq.
    + intros (t & [[-> ->]|[Hb Ht]]%Hback & Hid' & Hix); [by right|]. left. exists t. split; [done|]. split; [|done].
      rewrite lookup_insert in Hid'. case_decide; congruence.
  - intros b d t u Hb Hd Ht Hu Hk.
    assert (forall p, p ∈ (if indexed_by_obj (state_type s) then ht_state_obj w ++ [a] else ht_state_obj w) ->
      p <> a -> p ∈ ht_state_obj w) as Hin.
    { intros p. destruct (indexed_by_obj _); [|done]. rewrite elem_of_app, list_elem_of_singleton. naive_solver. }
    assert (forall p, p ∈ (if indexed_by_obj (state_type s) then ht_state_obj w ++ [a] else ht_state_obj w) ->
      p = a -> indexed_by_obj (state_type s) = true) as Hia.
    { intros p. destruct (indexed_by_obj _); [done|]. congruence. }
    apply Hback in Ht as [[-> ->]|[Hba Ht]], Hu as [[-> ->]|[Hda Hu]]; [done| | |eauto].
    + destruct (Hkey (Hia _ Hb eq_refl) d u (Hin _ Hd Hda) Hu). done.
    + destruct (Hkey (Hia _ Hd eq_refl) b t (Hin _ Hb Hba) Ht). done.
  - eapply linked_add; [congruence|done|done].
  - eapply linked_add; [congruence|done|done].
  - eapply linked_add; [congruence|done|done].
  - intros k b (t & Ht & ? & ?)%vi_lockstates. exists t. rewrite lookup_insert_ne; [done|congruence].
  - intros b t p [[-> ->]|[Hb Ht]]%Hback Hp; [|eauto]. simplify_eq. rewrite lookup_insert_eq. by eexists.
  - intros b t p [[-> ->]|[Hb Ht]]%Hback Hp; [|eauto]. by simplify_eq.
  - intros p y Hp. rewrite (vi_owner_refs p y Hp). unfold len_at. rewrite linked_len_add. unfold hold.
    repeat case_decide; simplify_eq; lia.
  - intros p. rewrite ref_add_at, vi_obj_refs. unfold len_at. rewrite linked_len_add. unfold hold.
    repeat case_decide; simplify_eq; lia.
  - intros p. rewrite ref_add_at, vi_export_refs. unfold len_at. rewrite linked_len_add. unfold hold.
    repeat case_decide; simplify_eq; lia.
Qed.

Lemma inv_next h w : v4_inv h w -> v4_inv h (set_v4_next Pos.succ w).
Proof.
  intros []. constructor; simpl in *; try done. intros a Ha. specialize (vi_fresh a Ha). lia.
Qed.

Lemma fresh_address h w : v4_inv h w -> v4_states w !! v4_next w = None.
Proof.
  intros Hi. destruct (v4_states w !! v4_next w) as [t|] eqn:E; [|done].
  pose proof (vi_fresh _ _ Hi (v4_next w) ltac:(by eexists)). lia.
Qed.

Lemma wp_alloc_new_state h w t d :
  (t = STATE_TYPE_LOCK -> exists key, d = data_lock key) -> v4_inv h w ->
  wp (alloc_new_state t d) (fun a w' => a = v4_next w /\
    w' = set_v4_next Pos.succ (set_states <[v4_next w := fresh_state]> w)) w.
Proof.
  intros Ht Hi. pose proof (fresh_address h w Hi) as Hf.
  assert (wp (a ← alloc_state; mret tt;; mret a) (fun a w' => a = v4_next w /\
    w' = set_v4_next Pos.succ (set_states <[v4_next w := fresh_state]> w)) w) as Hplain by done.
  unfold alloc_new_state. wp_step. destruct t; try (wp_step; exact Hplain).
  destruct (Ht eq_refl) as [key ->]. unfold nfs4_State_Get_Pointer. wp_step. wp_step.
  destruct (ht_state_id w !! key) as [os|] eqn:Ek; [|wp_step; exact Hplain].
  destruct (vi_id _ _ Hi _ _ Ek) as (s & Hs & Ho & _). pose proof (vi_refs _ _ Hi _ _ Hs) as Hr.
  unfold is_hashed in Hr. rewrite decide_True in Hr by by rewrite Ho. pose proof (vi_holds _ _ Hi (R_state os)).
  assert (os <> v4_next w) as Hne by congruence. destruct (ll_refs_nonneg (v4_lock w) os) as [Hll _].
  unfold inc_state_t_ref. wp_step. wp_step. eapply wp_get_st; [done|]. unfold put_st. wp_step. wp_step. wp_step.
  unfold alloc_state. wp_step. wp_step. wp_step. wp_step. wp_step. unfold put_st. wp_step. wp_step. wp_step.
  unfold dec_nfs4_state_ref. wp_step. eapply wp_get_st; [simpl; rewrite lookup_insert_ne by done; apply lookup_insert_eq|].
  wp_step. wp_step. simpl. rewrite (proj2 (Z.ltb_ge _ 0)) by lia. rewrite (proj2 (Z.ltb_lt 0 _)) by lia.
  unfold put_st. wp_step. wp_step. split; [done|]. unfold set_states, set_v4_next. simpl. f_equal.
  rewrite insert_insert_ne by done. f_equal. rewrite insert_insert_eq. rewrite insert_id; [done|]. rewrite Hs. f_equal.
  destruct s; unfold with_state_refs; simpl. f_equal. lia.
Qed.

(** What a failed [state_add_impl] leaves: a client that has used up one stateid. *)
Lemma inv_add_failed h w w' e c xc n :
  v4_inv h w -> v4_clients w !! c = Some xc ->
  w' = set_export_refs (fun m => ref_add e (-1) (ref_add e 1 m))
         (set_v4_next Pos.succ (set_clients <[c := with_counter n xc]> w)) -> v4_inv h w'.
Proof.
  intros Hi Hc ->.
  assert (v4_inv h (set_v4_next Pos.succ (set_clients <[c := with_counter n xc]> w))) as Hi1.
  { apply inv_next. eapply inv_update_client; [done|done| |simpl; lia|done]. by eapply vi_client_refs. }
  eapply inv_ext; [apply (drop_hold (R_export e))|].
  change (v4_inv (drop_ref (R_export e) (hold (R_export e) h)) (set_export_refs (ref_add e (-1)) (set_export_refs (ref_add e 1)
    (set_v4_next Pos.succ (set_clients <[c := with_counter n xc]> w))))).
  pose proof (vi_holds _ _ Hi (R_export e)). apply (inv_export_ref (hold (R_export e) h)); [apply drop_agree| | |].
  - rewrite drop_at. lia.
  - rewrite drop_hold. lia.
  - apply (inv_export_ref h); [apply hold_agree|apply hold_at|rewrite hold_at; lia|done].
Qed.

(** What [state_add_impl] is asked for makes sense: the owner and the file exist, the data
    is the one of the type, and a file has one write delegation. *)
Record add_ok (w : v4_world L) (x o : positive) (t : state_type_t) (d : state_data_u) : Prop := {
  ao_owner : is_Some (v4_owners w !! o);
  ao_file : is_Some (v4_files w !! x);
  ao_lock : t = STATE_TYPE_LOCK -> exists key, d = data_lock key;
  ao_share : t = STATE_TYPE_SHARE -> exists sh, d = data_share sh;
  ao_deleg f : t = STATE_TYPE_DELEG -> v4_files w !! x = Some f -> write_deleg_client f = None
}.

Definition new_state (e o x : positive) (t : state_type_t) (d : state_data_u) (k : list Z) : state_t :=
  {| state_export := Some e; state_owner := Some o; state_obj := Some x; state_data := d; state_type := t;
     state_seqid := 0; state_refcount := 2; stateid_other := k |}.

(** The stateid the client of [o] hands out next. *)
Definition next_other (o : positive) (w : v4_world L) : option (list Z) :=
  (fun xc => le_bytes 8 (cid_clientid xc) ++ le_bytes 4 (u32 (cid_stateid_counter xc + 1))) <$> v4_clients w !! so_clientrec o.

(** The owner already has an open or lock state on the file. *)
Definition key_taken (w : v4_world L) (o x : positive) (t : state_type_t) : Prop :=
  indexed_by_obj t = true /\ exists b u p, b ∈ ht_state_obj w /\ v4_states w !! b = Some u /\
    state_obj u = Some x /\ state_owner u = Some p /\ compare_nfs4_owner o p = true.

(** Why [state_add_impl] refuses. *)
Definition add_refused (w : v4_world L) (e o x : positive) (t : state_type_t) (st : state_status_t) : Prop :=
  (st = STATE_ESTALE /\ export_is_ready e = false) \/
  (st = STATE_ENTRY_EXISTS /\ export_is_ready e = true /\
   ((exists k, next_other o w = Some k /\ is_Some (ht_state_id w !! k)) \/ key_taken w o x t)).

(** The result of [state_add_impl]. *)
Definition add_result (h : holds) (w : v4_world L) (e o x : positive) (t : state_type_t) (d : state_data_u)
    (r : state_status_t * option positive) (w' : v4_world L) : Prop :=
  match r with
  | (STATE_SUCCESS, Some a) =>
      export_is_ready e = true /\ ~ key_taken w o x t /\
      exists k, next_other o w = Some k /\ ht_state_id w !! k = None /\ ht_state_id w' = <[k := a]> (ht_state_id w) /\
        a = v4_next w /\ v4_states w' = <[a := new_state e o x t d k]> (v4_states w) /\
        v4_inv (hold (R_state a) h) w'
  | (st, None) => add_refused w e o x t st /\ ht_state_id w' = ht_state_id w /\ v4_states w' = v4_states w /\ v4_inv h w'
  | _ => False
  end.

(** A write delegation begins: the file takes a reference to the client. *)
Lemma inv_begin_deleg h w x f c xc :
  v4_files w !! x = Some f -> write_deleg_client f = None -> v4_clients w !! c = Some xc -> v4_inv h w ->
  v4_inv h (set_files <[x := with_write_deleg (Some c) f]>
             (set_clients <[c := with_client_refs (cid_refcount xc + 1) xc]> w)).
Proof.
  intros Hx Hf Hc Hi. destruct (vi_client_refs _ _ Hi c xc Hc) as [Hc1 _].
  assert (forall d, count_map (deleg_of d) (<[x := with_write_deleg (Some c) f]> (v4_files w))
            = count_map (deleg_of d) (v4_files w) + (if decide (d = c) then 1 else 0)) as Hd.
  { intros d. rewrite (count_map_update _ _ f) by done.
    assert (deleg_of d x f = false) as -> by (apply bool_decide_eq_false; congruence).
    assert (deleg_of d x (with_write_deleg (Some c) f) = bool_decide (d = c)) as ->.
    { unfold deleg_of. simpl. apply bool_decide_ext. naive_solver. }
    case_decide as Hd; [rewrite bool_decide_true by done|rewrite bool_decide_false by done]; simpl; lia. }
  eapply (inv_update_client h (hold (R_client c) h) w c xc (with_client_refs (cid_refcount xc + 1) xc)) in Hi;
    [|done|apply hold_agree|rewrite hold_at; lia|rewrite hold_at; simpl; lia].
  destruct Hi. constructor; simpl in *; try done;
    try (intros; rewrite hold_other in * by done; eauto; fail).
  - intros k. specialize (vi_holds k). unfold hold in vi_holds. case_decide; [subst; lia|done].
  - intros b t y Hb Hy. rewrite lookup_insert. case_decide; [by eexists|eauto].
  - intros y g d. rewrite lookup_insert. case_decide; intros; simplify_eq; [|eauto]. simpl in *. simplify_eq.
    rewrite lookup_insert_eq. by eexists.
  - intros d y Hy. destruct (vi_client_refs d y Hy) as [H1 ->]. rewrite Hd. unfold hold in *.
    repeat case_decide; simplify_eq; lia.
Qed.

Section add.
Context (h : holds) (w : v4_world L) (e x o : positive) (t : state_type_t) (d : state_data_u).
Context (xo : nfs4_owner_t) (xc : v4_client_t) (k : list Z) (n : Z).
Local Abbreviation a := (v4_next w).

(** Before [nfs4_State_Set], and after a failure. *)
Definition built : v4_world L :=
  set_states <[a := new_state e o x t d k]> (set_clients <[so_clientrec o := with_counter n xc]>
  (set_v4_next Pos.succ (set_states <[a := fresh_state]> (set_export_refs (ref_add e 1) w)))).
Definition failed : v4_world L :=
  set_export_refs (fun m => ref_add e (-1) (ref_add e 1 m))
    (set_v4_next Pos.succ (set_clients <[so_clientrec o := with_counter n xc]> w)).

Context (Hi : v4_inv h w) (Hxo : v4_owners w !! o = Some xo) (Hxc : v4_clients w !! so_clientrec o = Some xc).
Context (Hready : export_is_ready e = true) (Hnext : next_other o w = Some k).

Lemma add_failed_tail W st :
  add_refused w e o x t st -> set_states (delete a) (set_export_refs (ref_add e (-1)) W) = failed ->
  wp (modify (set_v4_lock (close2 x a));; modify (set_states (delete a));; put_gsh_export e;; mret (st, None))
    (add_result h w e o x t d) W.
Proof using All.
  intros Hst HW. wp_step. wp_step. wp_step. wp_step. wp_step. unfold put_gsh_export. wp_step. wp_step.
  assert (v4_inv h (set_v4_lock (close2 x a) failed)) as Hf by by eapply inv_lock, inv_add_failed.
  unfold add_result.
  assert (set_export_refs (ref_add e (-1)) (set_states (delete a) (set_v4_lock (close2 x a) W))
          = set_v4_lock (close2 x a) failed) as -> by by rewrite <- HW.
  destruct st; done.
Qed.

(** The lists and references of a state that is in the hash tables. *)
Definition link_new : VM (state_status_t * option positive) :=
  modify (set_export_list (add_tail e a));;
  modify (set_file_list (add_tail x a));;
  get_ref x;;
  inc_state_owner_ref o;;
  modify (set_owner_list (add_tail o a));;
  s ← get_st a;
  mwhen (is_write_deleg s)
    (f ← get_file x;
     inc_client_id_ref (so_clientrec o);;
     put_file x (with_write_deleg (Some (so_clientrec o)) f));;
  mret (STATE_SUCCESS, Some a).

Lemma add_linked_tail g :
  add_ok w x o t d -> h (R_state a) = 0 -> ht_state_id w !! k = None ->
  (indexed_by_obj t = true -> forall b u, b ∈ ht_state_obj w -> v4_states w !! b = Some u ->
    ~ same_key (new_state e o x t d k) u /\ ~ same_key u (new_state e o x t d k)) ->
  g (ht_state_obj w) = (if indexed_by_obj t then ht_state_obj w ++ [a] else ht_state_obj w) ->
  wp link_new (add_result h w e o x t d) (set_ht_obj g (set_ht_id <[k := a]> built)).
Proof using All.
  intros [_ Hfx _ Hsh Hdl] Hh Hk Hkey Hg.
  assert (~ key_taken w o x t) as Hfree.
  { intros (Hix & b & u & p & Hb & Hu & Hux & Hup & Hc). destruct (Hkey Hix b u Hb Hu) as [Hn _]. apply Hn.
    split; [done|]. by exists o, p. }
  unfold link_new. wp_step. wp_step. wp_step. wp_step. wp_step. unfold get_ref. wp_step.
  wp_step. unfold inc_state_owner_ref. wp_step. eapply wp_get_owner; [exact Hxo|]. unfold put_owner. wp_step.
  wp_step. wp_step. wp_step. eapply wp_get_st; [simpl; apply lookup_insert_eq|].
  match goal with |- wp _ _ ?W => assert (W = added a e o x (new_state e o x t d k) xo (so_clientrec o) (with_counter n xc) w) as -> end.
  { apply v4_world_ext; simpl; try done. by rewrite insert_insert_eq. }
  pose proof (inv_added h w a e o x (new_state e o x t d k) xo (so_clientrec o) xc n eq_refl Hh eq_refl eq_refl eq_refl
    eq_refl Hsh Hk Hkey Hxo Hxc Hfx Hi) as Hia.
  wp_step. wp_step.
  - destruct Hfx as [f Hf]. wp_step. eapply wp_get_file; [exact Hf|]. wp_step. unfold inc_client_id_ref. wp_step.
    eapply wp_get_v4_client; [simpl; apply lookup_insert_eq|]. unfold put_client, put_file. wp_step. wp_step. wp_step.
    split; [done|]. split; [done|]. exists k. do 5 (split; [done|]).
    eapply inv_begin_deleg; [exact Hf| |simpl; apply lookup_insert_eq|done].
    apply Hdl; [|done]. unfold is_write_deleg in *. simpl in *. by destruct t.
  - wp_step. split; [done|]. split; [done|]. by exists k.
Qed.

End add.

Lemma wp_state_add_impl h w e x t d o :
  add_ok w x o t d -> h (R_state (v4_next w)) = 0 -> v4_inv h w ->
  wp (state_add_impl e x t d o None) (add_result h w e o x t d) w.
Proof.
  intros Hok Hh Hi. destruct (ao_owner _ _ _ _ _ Hok) as [xo Hxo]. unfold state_add_impl.
  destruct (export_is_ready e) eqn:Her; simpl.
  2:{ wp_step. wp_step. wp_step. split; [by left|done]. }
  unfold get_gsh_export_ref. wp_step. wp_step. wp_step.
  assert (v4_inv (hold (R_export e) h) (set_export_refs (ref_add e 1) w)) as Hi1.
  { pose proof (vi_holds _ _ Hi (R_export e)).
    apply (inv_export_ref h); [apply hold_agree|apply hold_at|rewrite hold_at; lia|done]. }
  eapply wp_mono; [eapply wp_alloc_new_state; [apply Hok|done]|]. simpl. intros ? w1 [-> ->].
  destruct (vi_client _ _ Hi o ltac:(by eexists)) as [xc Hxc]. pose proof (fresh_address h w Hi) as Hfa.
  unfold nfs4_BuildStateId_Other. wp_step. wp_step. eapply wp_get_v4_client; [exact Hxc|].
  set (n := u32 _). set (k := le_bytes 8 _ ++ _).
  assert (next_other o w = Some k) as Hnk by (unfold next_other; by rewrite Hxc). unfold put_client. wp_step. wp_step. wp_step. wp_step.
  eapply wp_get_st; [simpl; apply lookup_insert_eq|]. unfold put_st. wp_step. wp_step. wp_step.
  fold (new_state e o x t d k). fold (built w e x o t d xc k n).
  unfold nfs4_State_Set. wp_step. eapply wp_get_st; [simpl; apply lookup_insert_eq|].
  wp_step. wp_step. simpl.
  assert (forall m : gmap positive state_t, m !! v4_next w = None ->
    delete (v4_next w) (<[v4_next w := new_state e o x t d k]> (<[v4_next w := fresh_state]> m)) = m) as Hdel.
  { intros m Hm. rewrite insert_insert_eq. by rewrite delete_insert_id. }
  destruct (ht_state_id w !! k) as [b|] eqn:Ek.
  { wp_step. rewrite decide_False by done. eapply add_failed_tail; try done.
    - right. split; [done|]. split; [done|]. left. exists k. split; [done|]. by eexists.
    - apply v4_world_ext; simpl; try done. by apply Hdel. }
  wp_step. wp_step. destruct (indexed_by_obj t) eqn:Hix; simpl.
  2:{ wp_step. rewrite decide_True by done.
      change (set_ht_id <[k := v4_next w]> (built w e x o t d xc k n))
        with (set_ht_obj (fun l => l) (set_ht_id <[k := v4_next w]> (built w e x o t d xc k n))).
      eapply add_linked_tail; try done; [congruence|by rewrite Hix]. }
  wp_step. wp_step. destruct (find_obj _ _ _) as [b|] eqn:Ef.
  - wp_step. wp_step. wp_step. rewrite decide_False by done. eapply add_failed_tail; try done.
    + right. split; [done|]. split; [done|]. right. split; [done|].
      apply find_obj_Some in Ef as [Hb Hc]. simpl in Hb.
      destruct (proj1 (vi_obj _ _ Hi b) Hb) as (u & Hu & _). assert (b <> v4_next w) as Hne by congruence.
      unfold compare_state_obj in Hc. simpl in Hc. rewrite !lookup_insert_ne, Hu in Hc by done.
      apply andb_true_iff in Hc as [Hux Hc]. apply bool_decide_eq_true in Hux. destruct (state_owner u) as [p|] eqn:Hp; [|done].
      by exists b, u, p.
    + apply v4_world_ext; simpl; try done; [by apply Hdel|by rewrite delete_insert_id].
  - wp_step. wp_step. wp_step. rewrite decide_True by done. eapply add_linked_tail; try done; [|by rewrite Hix].
    intros _ b u Hb Hu. assert (~ same_key (new_state e o x t d k) u) as Hn.
    { pose proof (find_obj_None _ _ _ b Ef Hb) as Hc. rewrite <- not_true_iff_false in Hc. intros Hs. apply Hc.
      apply (compare_state_obj_key (new_state e o x t d k) _ b u); [|by eexists|done].
      simpl. rewrite !lookup_insert_ne by (intros <-; congruence). done. }
    split; [done|]. by intros ?%same_key_sym.
Qed.

End ops.
