(* ===== verification/StateId.v ===== *)
(** * Stateids, owner sequence ids and the requests they order

    [nfs4_Check_Stateid] and [update_stateid] of [SAL/nfs4_state_id.c], the replay check of
    NFSv4.0 owners ([Check_nfs4_seqid], [Copy_nfs4_state_req] of [SAL/nfs4_owner.c]) and the
    requests built on them: LOCKU, CLOSE, OPEN_CONFIRM and OPEN_DOWNGRADE. *)
From S2P Require Import Prelude Status Owners LockTable Acl Share Lease VfsHandle StateTable.
Local Open Scope Z_scope.

(** ** Data *)

(** The fields of [compound_data_t] these requests use, with the answers of
    [nfs4_Is_Fh_Empty], [nfs4_Is_Fh_Invalid] and [nfs4_Is_Fh_DSHandle] on its [currentFH],
    and [op_ctx->clientid] (the owner whose client id it points to). *)
Record v4_data : Set := {
  minorversion : Z;
  fh_empty : nfsstat4;
  fh_invalid : nfsstat4;
  fh_ds : bool;
  current_obj : option positive;
  current_filetype : object_file_type_t;
  current_stateid : stateid4;
  current_stateid_valid : bool;
  preserved_clientid : option positive;
  ctx_clientid : option positive
}.

Definition set_stateid (id : stateid4) (valid : bool) (d : v4_data) : v4_data :=
  {| minorversion := minorversion d; fh_empty := fh_empty d; fh_invalid := fh_invalid d; fh_ds := fh_ds d;
     current_obj := current_obj d; current_filetype := current_filetype d; current_stateid := id;
     current_stateid_valid := valid; preserved_clientid := preserved_clientid d; ctx_clientid := ctx_clientid d |}.
Definition set_valid (valid : bool) (d : v4_data) : v4_data := set_stateid (current_stateid d) valid d.
Definition set_preserved (c : option positive) (d : v4_data) : v4_data :=
  {| minorversion := minorversion d; fh_empty := fh_empty d; fh_invalid := fh_invalid d; fh_ds := fh_ds d;
     current_obj := current_obj d; current_filetype := current_filetype d; current_stateid := current_stateid d;
     current_stateid_valid := current_stateid_valid d; preserved_clientid := c; ctx_clientid := ctx_clientid d |}.
Definition set_ctx_clientid (o : option positive) (d : v4_data) : v4_data :=
  {| minorversion := minorversion d; fh_empty := fh_empty d; fh_invalid := fh_invalid d; fh_ds := fh_ds d;
     current_obj := current_obj d; current_filetype := current_filetype d; current_stateid := current_stateid d;
     current_stateid_valid := current_stateid_valid d; preserved_clientid := preserved_clientid d;
     ctx_clientid := o |}.

Record LOCKU4args : Set := {
  lu_locktype : Z; lu_seqid : Z; lu_stateid : stateid4; lu_offset : Z; lu_length : Z
}.
Record CLOSE4args : Set := { cl_seqid : Z; cl_stateid : stateid4 }.
Record OPEN_CONFIRM4args : Set := { oc_stateid : stateid4; oc_seqid : Z }.
Record OPEN_DOWNGRADE4args : Set := {
  od_stateid : stateid4; od_seqid : Z; od_share_access : Z; od_share_deny : Z
}.

Definition with_status (st : nfsstat4) (r : nfs_resop4) : nfs_resop4 :=
  {| resop := resop r; status := st; res_stateid := res_stateid r |}.
Definition with_resop (op : nfs_opnum4) (r : nfs_resop4) : nfs_resop4 :=
  {| resop := op; status := status r; res_stateid := res_stateid r |}.
Definition with_res_stateid (id : stateid4) (r : nfs_resop4) : nfs_resop4 :=
  {| resop := resop r; status := status r; res_stateid := id |}.

Definition STATEID_SPECIAL_ALL_0 : Z := 2.
Definition STATEID_SPECIAL_ALL_1 : Z := 4.
Definition STATEID_SPECIAL_CURRENT : Z := 8.
Definition STATEID_SPECIAL_CLOSE_40 : Z := 0x40.
Definition STATEID_SPECIAL_CLOSE_41 : Z := 0x80.
Definition STATEID_SPECIAL_FOR_LOCK : Z := STATEID_SPECIAL_CURRENT.
Definition STATEID_SPECIAL_FOR_CLOSE_40 : Z := STATEID_SPECIAL_CLOSE_40.
Definition STATEID_SPECIAL_FOR_CLOSE_41 : Z := Z.lor STATEID_SPECIAL_CLOSE_41 STATEID_SPECIAL_CURRENT.
Definition all_zero : list Z := replicate 12 0.
Definition all_ones : list Z := replicate 12 255.
Definition seqid_all_one : Z := 0xFFFFFFFF.

(** What these requests call besides the state table: byte-range locks, the FSAL, the release
    of everything an expired client holds (the rest of [nfs_client_id_expire]) and the return
    of layouts on the last close of NFSv4.1. *)
Class RequestLayer (L : Type) := {
  state_unlock_op : positive -> positive -> positive -> fsal_lock_param_t -> M L state_status_t;
  has_locks : L -> positive -> bool;    (* state_data.lock.state_locklist is not empty *)
  fsal_reopen2 : positive -> positive -> Z -> L -> fsal_errors_t * L;
  handle_cmp : positive -> positive -> bool;
  fs_maxfilesize : Z;
  lease_lifetime : Z;
  nfs_ServerEpoch : Z;
  release_client_state : positive -> M (v4_world L) unit;
  return_layouts : positive -> M (v4_world L) unit
}.

Section stateid.
Context `{OwnerMem} {L : Type} `{!LowerLayer L} `{!RequestLayer L}.
Abbreviation VM := (M (v4_world L)).

(** A step of the layers below. *)
Definition lower {A} (m : M L A) : VM A := fun w =>
  match m (v4_lock w) with Some (a, l) => Some (a, set_v4_lock (fun _ => l) w) | None => None end.

Definition with_lease (l : nfs_client_id_t) (c : v4_client_t) : v4_client_t :=
  {| cid_clientid := cid_clientid c; cid_stateid_counter := cid_stateid_counter c;
     cid_refcount := cid_refcount c; cid_lease := l |}.

(** [reserve_lease_or_expire]; false leaves [cid_mutex] unlocked, as true does. *)
Definition reserve_or_expire (now : Z) (c : positive) (update : bool) : VM bool :=
  x ← get_client c;
  let '(ok, l) := reserve_lease_or_expire lease_lifetime now update (cid_lease x) in
  put_client c (with_lease l x);;
  if ok then mret true else release_client_state c;; mret false.
Definition update_lease_of (now : Z) (c : positive) : VM unit :=
  x ← get_client c; put_client c (with_lease (update_lease now (cid_lease x)) x).

(** A lease reserved earlier in the compound is released before another is reserved. *)
Definition release_preserved (now : Z) (d : v4_data) : VM v4_data :=
  match preserved_clientid d with
  | Some p => update_lease_of now p;; mret (set_preserved None d)
  | None => mret d
  end.

Inductive clientid_status_t : Set :=
  | CLIENT_ID_SUCCESS | CLIENT_ID_INSERT_MALLOC_ERROR | CLIENT_ID_INVALID_ARGUMENT
  | CLIENT_ID_EXPIRED | CLIENT_ID_STALE.

Definition clientid_error_to_nfsstat (err : clientid_status_t) : nfsstat4 :=
  match err with
  | CLIENT_ID_SUCCESS => NFS4_OK
  | CLIENT_ID_INSERT_MALLOC_ERROR => NFS4ERR_RESOURCE
  | CLIENT_ID_INVALID_ARGUMENT => NFS4ERR_SERVERFAULT
  | CLIENT_ID_EXPIRED => NFS4ERR_EXPIRED
  | CLIENT_ID_STALE => NFS4ERR_STALE_CLIENTID
  end.

Definition epoch_low : Z := Z.land nfs_ServerEpoch 0xFFFFFFFF.

Definition nfs_client_id_get_confirmed (clientid : Z) : VM (clientid_status_t * option positive) :=
  if negb (Z.shiftr clientid 32 =? epoch_low) then mret (CLIENT_ID_STALE, None)
  else
    ht ← gets ht_confirmed_client_id;
    match ht !! clientid with
    | None => mret (CLIENT_ID_EXPIRED, None)
    | Some c =>
        inc_client_id_ref c;;
        x ← get_client c;
        if decide (cid_confirmed (cid_lease x) = STALE_CLIENT_ID)
        then dec_client_id_ref c;; mret (CLIENT_ID_STALE, None)
        else mret (CLIENT_ID_SUCCESS, Some c)
    end.

(** ** [nfs4_Check_Stateid] *)

(** The special stateids: the answer, or the stateid to look up. *)
Definition check_special (stateid : stateid4) (flags : Z) (d : v4_data) : stateid4 + nfsstat4 :=
  if decide (other stateid = all_zero) then
    if (seqid stateid =? 0) && has flags STATEID_SPECIAL_ALL_0 then inr NFS4_OK
    else if (seqid stateid =? 1) && has flags STATEID_SPECIAL_CURRENT then
      if current_stateid_valid d then inl (current_stateid d) else inr NFS4ERR_BAD_STATEID
    else inr NFS4ERR_BAD_STATEID
  else if decide (other stateid = all_ones) then
    if (seqid stateid =? seqid_all_one) && has flags STATEID_SPECIAL_ALL_1 then inr NFS4_OK
    else inr NFS4ERR_BAD_STATEID
  else inl stateid.

(** The sequence id of a found state against the one of the request. *)
Inductive seq_check : Set := Seq_current | Seq_replay | Seq_old | Seq_bad.
Definition check_state_seqid (req : Z) (s : state_t) (check_seqid : bool) (owner_seqid so_seqid : Z) : seq_check :=
  if bool_decide (state_type s = STATE_TYPE_LAYOUT) || negb (req =? 0) then
    let diff := i32 (req - state_seqid s) in
    if diff <? 0 then
      if check_seqid && ((diff =? -1) || (state_seqid s =? 1) && (req =? seqid_all_one))
         && (owner_seqid =? so_seqid)
      then Seq_replay else Seq_old
    else if (diff =? 0) && check_seqid && (owner_seqid =? so_seqid) then Seq_replay
    else if 0 <? diff then Seq_bad
    else Seq_current
  else Seq_current.

(** The labels [failure] and [replay]: give back what was taken. *)
Definition put_obj_owner (refs : option (positive * positive)) : VM unit :=
  match refs with Some (obj2, owner2) => put_ref obj2;; dec_state_owner_ref owner2 | None => mret tt end.
Definition check_failure (st : nfsstat4) (state2 : option positive) (refs : option (positive * positive))
    (id : stateid4) (d : v4_data) : VM (nfsstat4 * option positive * stateid4 * v4_data) :=
  match state2 with Some a => dec_nfs4_state_ref a | None => mret tt end;;
  put_obj_owner refs;;
  mret (st, None, id, set_valid false d).

(** The stateid names no state, or one that is going away. *)
Definition check_not_found (now : Z) (id : stateid4) (clientid : Z) (state2 : option positive) (flags : Z)
    (d : v4_data) : VM (nfsstat4 * option positive * stateid4 * v4_data) :=
  '(rc, pclientid) ← nfs_client_id_get_confirmed clientid;
  match pclientid with
  | None => check_failure (clientid_error_to_nfsstat rc) state2 None id d
  | Some c =>
      if has flags (Z.lor STATEID_SPECIAL_CLOSE_40 STATEID_SPECIAL_CLOSE_41) then
        d ← release_preserved now d;
        valid ← reserve_or_expire now c (has flags STATEID_SPECIAL_CLOSE_40);
        if negb valid then check_failure NFS4ERR_EXPIRED state2 None id d
        else
          let d := if has flags STATEID_SPECIAL_CLOSE_40 then d else set_preserved (Some c) d in
          mret (NFS4_OK, state2, id, set_valid false d)
      else
        match state2 with
        | None => dec_client_id_ref c;; check_failure NFS4ERR_BAD_STATEID None None id d
        | Some a =>
            valid ← reserve_or_expire now c true;
            dec_client_id_ref c;;
            check_failure (if (valid : bool) then NFS4ERR_STALE else NFS4ERR_EXPIRED) state2 None id d
        end
  end.

(** The state is found, with references to its file and its owner.  When the lease cannot be
    reserved the source unlocks [cid_mutex], which is not locked. *)
Definition check_found (now : Z) (id : stateid4) (a obj2 owner2 : positive) (fsal_obj : option positive)
    (owner_seqid : Z) (check_seqid : bool) (d : v4_data) :
    VM (nfsstat4 * option positive * stateid4 * v4_data) :=
  let refs := Some (obj2, owner2) in
  let c := so_clientrec owner2 in
  d ← (if decide (preserved_clientid d = Some c) then mret d
       else
         d ← release_preserved now d;
         valid ← reserve_or_expire now c false;
         if (valid : bool) then mret (set_preserved (Some c) d) else undef);
  if match fsal_obj with Some x => negb (handle_cmp x obj2) | None => false end
  then check_failure NFS4ERR_BAD_STATEID (Some a) refs id d
  else
    s ← get_st a;
    o ← get_owner owner2;
    match check_state_seqid (seqid id) s check_seqid owner_seqid (so_seqid o) with
    | Seq_replay =>
        put_obj_owner refs;;
        mret (NFS4ERR_REPLAY, Some a, id, set_valid false d)
    | Seq_old => check_failure NFS4ERR_OLD_STATEID (Some a) refs id d
    | Seq_bad => check_failure NFS4ERR_BAD_STATEID (Some a) refs id d
    | Seq_current =>
        put_obj_owner refs;;
        mret (NFS4_OK, Some a, id, set_stateid {| seqid := state_seqid s; other := other id |} true d)
    end.

(** The status, [*state], the stateid the argument was replaced with, and the compound data. *)
Definition nfs4_Check_Stateid (now : Z) (stateid : stateid4) (fsal_obj : option positive) (d : v4_data)
    (flags owner_seqid : Z) (check_seqid : bool) : VM (nfsstat4 * option positive * stateid4 * v4_data) :=
  match check_special stateid flags d with
  | inr st => mret (st, None, stateid, set_valid false d)
  | inl id =>
      let clientid := le_value (take 8 (other id)) in
      if negb (u32 (Z.shiftr clientid 32) =? epoch_low)
      then check_failure NFS4ERR_STALE_STATEID None None id d
      else
        state2 ← nfs4_State_Get_Pointer (other id);
        refs ← get_state_obj_owner_refs state2;
        match state2, refs with
        | Some a, Some (obj2, owner2) => check_found now id a obj2 owner2 fsal_obj owner_seqid check_seqid d
        | _, _ => check_not_found now id clientid state2 flags d
        end
  end.

Definition COPY_STATEID (s : state_t) : stateid4 := {| seqid := state_seqid s; other := stateid_other s |}.

Definition next_seqid (n : Z) : Z := let n' := u32 (n + 1) in if n' =? 0 then 1 else n'.

Definition update_stateid (a : positive) (d : v4_data) : VM (stateid4 * v4_data) :=
  s ← get_st a;
  let s := with_seqid (next_seqid (state_seqid s)) s in
  put_st a s;;
  mret (COPY_STATEID s, set_stateid (COPY_STATEID s) true d).

(** ** The replay check of an owner *)

Definition with_request (seqid : Z) (op : nfs_opnum4) (obj : option positive) (resp : nfs_resop4)
    (o : nfs4_owner_t) : nfs4_owner_t :=
  {| so_refcount := so_refcount o; so_confirmed := so_confirmed o; so_seqid := seqid; so_args := op;
     so_last_entry := obj; so_resp := resp; so_cache_expire := so_cache_expire o |}.
Definition with_confirmed (b : bool) (o : nfs4_owner_t) : nfs4_owner_t :=
  {| so_refcount := so_refcount o; so_confirmed := b; so_seqid := so_seqid o; so_args := so_args o;
     so_last_entry := so_last_entry o; so_resp := so_resp o; so_cache_expire := so_cache_expire o |}.

Definition Copy_nfs4_state_req (owner : positive) (seqid : Z) (op : nfs_opnum4) (obj : option positive)
    (resp : nfs_resop4) : VM unit :=
  o ← get_owner owner; put_owner owner (with_request seqid op obj resp o).

Definition Check_nfs4_seqid (owner : positive) (seqid : Z) (op : nfs_opnum4) (obj : option positive)
    (resp : nfs_resop4) : VM (bool * nfs_resop4) :=
  o ← get_owner owner;
  match so_last_entry o with
  | None => mret (true, resp)
  | Some _ =>
      if seqid =? u32 (so_seqid o + 1) then mret (true, resp)
      else
        let resp := with_status NFS4ERR_BAD_SEQID resp in
        if negb (so_seqid o =? seqid) then mret (false, resp)
        else if decide (op <> so_args o) then mret (false, resp)
        else if decide (so_last_entry o <> obj) then mret (false, resp)
        else mret (false, so_resp o)
  end.

(** ** Requests *)

Definition nfs4_sanity_check_FH (d : v4_data) (required_type : object_file_type_t) (ds_allowed : bool) :
    VM nfsstat4 :=
  if decide (fh_empty d <> NFS4_OK) then mret (fh_empty d)
  else if bool_decide (current_obj d = None) || bool_decide (current_filetype d = NO_FILE_TYPE) then undef
  else if decide (fh_invalid d <> NFS4_OK) then mret (fh_invalid d)
  else if bool_decide (required_type <> NO_FILE_TYPE) && bool_decide (current_filetype d <> required_type) then
    mret match required_type, current_filetype d with
         | DIRECTORY, SYMBOLIC_LINK => NFS4ERR_SYMLINK
         | DIRECTORY, _ => NFS4ERR_NOTDIR
         | SYMBOLIC_LINK, _ => NFS4ERR_INVAL
         | _, DIRECTORY => NFS4ERR_ISDIR
         | _, _ => NFS4ERR_INVAL
         end
  else if fh_ds d && negb ds_allowed then mret NFS4ERR_INVAL
  else mret NFS4_OK.

Definition STATE_LOCK_OFFSET_EOF : Z := UINT64_MAX.

(** The lock a LOCKU describes, before the checks of its range. *)
Definition locku_desc (arg : LOCKU4args) : option fsal_lock_param_t :=
  let desc t := {| lock_sle_type := FSAL_POSIX_LOCK; lock_type := t; lock_start := lu_offset arg;
                   lock_length := if lu_length arg =? STATE_LOCK_OFFSET_EOF then 0 else lu_length arg;
                   lock_reclaim := false |} in
  if (lu_locktype arg =? 1) || (lu_locktype arg =? 3) then Some (desc FSAL_LOCK_R)
  else if (lu_locktype arg =? 2) || (lu_locktype arg =? 4) then Some (desc FSAL_LOCK_W)
  else None.

(** From the checks of the range to the label [out]: the response, which is then recorded. *)
Definition locku_execute (arg : LOCKU4args) (a owner : positive) (lock : fsal_lock_param_t) (d : v4_data)
    (resp : nfs_resop4) : VM (nfs_resop4 * v4_data) :=
  if lu_length arg =? 0 then mret (with_status NFS4ERR_INVAL resp, d)
  else if STATE_LOCK_OFFSET_EOF - lock_start lock <? lock_length lock
  then mret (with_status NFS4ERR_INVAL resp, d)
  else
    let lock := if u64 (fs_maxfilesize - lock_start lock) <? lock_length lock
                then set_range (lock_start lock) 0 lock else lock in
    let d := if minorversion d =? 0 then set_ctx_clientid (Some owner) d else d in
    obj ← deref (current_obj d);
    st ← lower (state_unlock_op obj a owner lock);
    if decide (st <> STATE_SUCCESS) then mret (with_status (nfs4_Errno_state st) resp, d)
    else
      let d := if minorversion d =? 0 then set_ctx_clientid None d else d in
      '(id, d) ← update_stateid a d;
      mret (with_res_stateid id (with_status NFS4_OK resp), d).

Definition nfs4_op_locku (now : Z) (arg : LOCKU4args) (d : v4_data) (resp : nfs_resop4) :
    VM (nfs_resop4 * v4_data) :=
  let resp := with_resop NFS4_OP_LOCKU resp in
  st ← nfs4_sanity_check_FH d REGULAR_FILE false;
  let resp := with_status st resp in
  if decide (st <> NFS4_OK) then mret (resp, d)
  else
    match locku_desc arg with
    | None => mret (with_status NFS4ERR_INVAL resp, d)
    | Some lock =>
        '(st, state_found, _, d) ← nfs4_Check_Stateid now (lu_stateid arg) (current_obj d) d
          STATEID_SPECIAL_FOR_LOCK (lu_seqid arg) (minorversion d =? 0);
        if bool_decide (st <> NFS4_OK) && bool_decide (st <> NFS4ERR_REPLAY)
        then mret (with_status st resp, d)
        else
          a ← deref state_found;
          lock_owner ← get_state_owner_ref a;
          match lock_owner with
          | None => dec_nfs4_state_ref a;; mret (with_status NFS4ERR_STALE resp, d)
          | Some owner =>
              '(go, resp) ← (if minorversion d =? 0
                             then Check_nfs4_seqid owner (lu_seqid arg) NFS4_OP_LOCKU (current_obj d) resp
                             else mret (true, resp));
              '(resp, d) ← (if negb (go : bool) then mret (resp, d)
                            else
                              '(resp, d) ← locku_execute arg a owner lock d resp;
                              mwhen (minorversion d =? 0)
                                (Copy_nfs4_state_req owner (lu_seqid arg) NFS4_OP_LOCKU (current_obj d) resp);;
                              mret (resp, d));
              dec_state_owner_ref owner;;
              dec_nfs4_state_ref a;;
              mret (resp, d)
          end
    end.

Definition nfs4_op_open_confirm (now : Z) (arg : OPEN_CONFIRM4args) (d : v4_data) (resp : nfs_resop4) :
    VM (nfs_resop4 * v4_data) :=
  let resp := with_resop NFS4_OP_OPEN_CONFIRM resp in
  if 0 <? minorversion d then mret (with_status NFS4ERR_NOTSUPP resp, d)
  else
    st ← nfs4_sanity_check_FH d REGULAR_FILE false;
    let resp := with_status st resp in
    if decide (st <> NFS4_OK) then mret (resp, d)
    else
      '(st, state_found, _, d) ← nfs4_Check_Stateid now (oc_stateid arg) (current_obj d) d
        STATEID_SPECIAL_FOR_LOCK (oc_seqid arg) (minorversion d =? 0);
      if bool_decide (st <> NFS4_OK) && bool_decide (st <> NFS4ERR_REPLAY)
      then mret (with_status st resp, d)
      else
        a ← deref state_found;
        open_owner ← get_state_owner_ref a;
        match open_owner with
        | None => dec_nfs4_state_ref a;; mret (with_status NFS4ERR_STALE resp, d)
        | Some owner =>
            '(go, resp) ← Check_nfs4_seqid owner (oc_seqid arg) NFS4_OP_OPEN_CONFIRM (current_obj d) resp;
            '(resp, d) ← (if negb (go : bool) then mret (resp, d)
                          else
                            o ← get_owner owner;
                            if so_confirmed o then mret (with_status NFS4ERR_BAD_STATEID resp, d)
                            else
                              put_owner owner (with_confirmed true o);;
                              '(id, d) ← update_stateid a d;
                              let resp := with_res_stateid id resp in
                              Copy_nfs4_state_req owner (oc_seqid arg) NFS4_OP_OPEN_CONFIRM (current_obj d) resp;;
                              mret (resp, d));
            dec_state_owner_ref owner;;
            dec_nfs4_state_ref a;;
            mret (resp, d)
        end.

Definition downgrade_openflags (arg : OPEN_DOWNGRADE4args) : Z :=
  Z.lor (Z.lor (if has (od_share_access arg) OPEN4_SHARE_ACCESS_READ then FSAL_O_READ else 0)
               (if has (od_share_access arg) OPEN4_SHARE_ACCESS_WRITE then FSAL_O_WRITE else 0))
        (Z.lor (if has (od_share_deny arg) 1 then FSAL_O_DENY_READ else 0)
               (if has (od_share_deny arg) 2 then FSAL_O_DENY_WRITE_MAND else 0)).

Definition nfs4_do_open_downgrade (arg : OPEN_DOWNGRADE4args) (a : positive) (d : v4_data) : VM nfsstat4 :=
  s ← get_st a;
  match state_data s with
  | data_share sh =>
      if negb (Z.land (share_access sh) (od_share_access arg) =? od_share_access arg) then mret NFS4ERR_INVAL
      else if negb (Z.land (share_deny sh) (od_share_deny arg) =? od_share_deny arg) then mret NFS4ERR_INVAL
      else if negb (has (share_access_prev sh) (Z.shiftl 1 (od_share_access arg)))
              || negb (has (share_deny_prev sh) (Z.shiftl 1 (od_share_deny arg))) then mret NFS4ERR_INVAL
      else
        obj ← deref (current_obj d);
        fsal_status ← lower (fun l => Some (fsal_reopen2 obj a (downgrade_openflags arg) l));
        if decide (state_error_convert fsal_status <> STATE_SUCCESS) then mret NFS4ERR_SERVERFAULT
        else mret NFS4_OK
  | _ => undef
  end.

Definition nfs4_op_open_downgrade (now : Z) (arg : OPEN_DOWNGRADE4args) (d : v4_data) (resp : nfs_resop4) :
    VM (nfs_resop4 * v4_data) :=
  let resp := with_resop NFS4_OP_OPEN_DOWNGRADE resp in
  st ← nfs4_sanity_check_FH d NO_FILE_TYPE false;
  let resp := with_status st resp in
  if decide (st <> NFS4_OK) then mret (resp, d)
  else if decide (current_filetype d <> REGULAR_FILE) then mret (with_status NFS4ERR_INVAL resp, d)
  else
    '(st, state_found, _, d) ← nfs4_Check_Stateid now (od_stateid arg) (current_obj d) d
      STATEID_SPECIAL_FOR_LOCK (od_seqid arg) (minorversion d =? 0);
    if bool_decide (st <> NFS4_OK) && bool_decide (st <> NFS4ERR_REPLAY)
    then mret (with_status st resp, d)
    else
      a ← deref state_found;
      open_owner ← get_state_owner_ref a;
      match open_owner with
      | None => dec_nfs4_state_ref a;; mret (with_status NFS4ERR_STALE resp, d)
      | Some owner =>
          '(go, resp) ← (if minorversion d =? 0
                         then Check_nfs4_seqid owner (od_seqid arg) NFS4_OP_OPEN_DOWNGRADE (current_obj d) resp
                         else mret (true, resp));
          '(resp, d) ← (if negb (go : bool) then mret (resp, d)
                        else
                          st ← nfs4_do_open_downgrade arg a d;
                          let resp := with_status st resp in
                          if decide (st <> NFS4_OK) then mret (resp, d)
                          else
                            '(id, d) ← update_stateid a d;
                            let resp := with_res_stateid id resp in
                            mwhen (minorversion d =? 0)
                              (Copy_nfs4_state_req owner (od_seqid arg) NFS4_OP_OPEN_DOWNGRADE (current_obj d) resp);;
                            mret (resp, d));
          dec_state_owner_ref owner;;
          dec_nfs4_state_ref a;;
          mret (resp, d)
      end.

(** The lock states of the state being closed.  The source reads the list that is the first
    member of every variant of [state_data] without a look at the type: for a lock state that
    is its list of locks, for a delegation it is no list at all. *)
Definition lockstates_to_close (a : positive) : VM (list positive) :=
  s ← get_st a;
  match state_type s with
  | STATE_TYPE_SHARE => gets (fun w => list_at a (share_lockstates w))
  | STATE_TYPE_LOCK => l ← gets v4_lock; if has_locks l a then undef else mret []
  | _ => undef
  end.

Fixpoint delete_states (now : Z) (l : list positive) : VM unit :=
  match l with
  | [] => mret tt
  | b :: l' => state_del_locked lease_lifetime now b;; delete_states now l'
  end.

Definition share_access_of (s : state_t) : Z :=
  match state_type s, state_data s with STATE_TYPE_SHARE, data_share sh => share_access sh | _, _ => 0 end.

(** From [STATELOCK_lock] to the label [out]. *)
Definition close_execute (now : Z) (a state_obj : positive) (d : v4_data) (resp : nfs_resop4) :
    VM (nfs_resop4 * v4_data) :=
  s ← get_st a;
  let share_access_state := share_access_of s in
  locks ← lockstates_to_close a;
  l ← gets v4_lock;
  if existsb (has_locks l) locks then mret (with_status NFS4ERR_LOCKS_HELD resp, d)
  else
    '(id, d) ← (if minorversion d =? 0 then update_stateid a d
                else mret ({| seqid := UINT32_MAX; other := all_zero |}, d));
    let resp := with_res_stateid id resp in
    delete_states now locks;;
    state_del_locked lease_lifetime now a;;
    let d := set_valid false d in
    obj ← deref (current_obj d);
    mwhen (0 <? minorversion d) (return_layouts obj);;
    let d := if minorversion d =? 0 then set_ctx_clientid None d else d in
    mwhen (has share_access_state OPEN4_SHARE_ACCESS_WRITE && regular_file state_obj)
      (f ← get_file state_obj; put_file state_obj (with_write_opens (u32 (fds_num_write_opens f - 1)) f));;
    mret (with_status NFS4_OK resp, d).

Definition nfs4_op_close (now : Z) (arg : CLOSE4args) (d : v4_data) : VM (nfs_resop4 * v4_data) :=
  let resp := {| resop := NFS4_OP_CLOSE; status := NFS4_OK;
                 res_stateid := {| seqid := 0; other := all_zero |} |} in
  st ← nfs4_sanity_check_FH d REGULAR_FILE false;
  let resp := with_status st resp in
  if decide (st <> NFS4_OK) then mret (resp, d)
  else
    '(st, state_found, open_stateid, d) ← nfs4_Check_Stateid now (cl_stateid arg) (current_obj d) d
      (if minorversion d =? 0 then STATEID_SPECIAL_FOR_CLOSE_40 else STATEID_SPECIAL_FOR_CLOSE_41)
      (cl_seqid arg) (minorversion d =? 0);
    if bool_decide (st <> NFS4_OK) && bool_decide (st <> NFS4ERR_REPLAY)
    then mret (with_status st resp, d)
    else
      refs ← get_state_obj_owner_refs state_found;
      match state_found, refs with
      | Some a, Some (obj, owner) =>
          '(go, resp) ← (if minorversion d =? 0
                         then Check_nfs4_seqid owner (cl_seqid arg) NFS4_OP_CLOSE (Some obj) resp
                         else mret (true, resp));
          '(resp, d) ← (if negb (go : bool) then mret (resp, d)
                        else
                          '(resp, d) ← close_execute now a obj d resp;
                          mwhen (minorversion d =? 0)
                            (Copy_nfs4_state_req owner (cl_seqid arg) NFS4_OP_CLOSE (Some obj) resp);;
                          mret (resp, d));
          dec_state_owner_ref owner;;
          put_ref obj;;
          dec_nfs4_state_ref a;;
          mret (resp, d)
      | _, _ =>
          match state_found with Some a => dec_nfs4_state_ref a | None => mret tt end;;
          mret (with_res_stateid {| seqid := next_seqid (seqid open_stateid); other := other open_stateid |}
                  (with_status NFS4_OK resp), d)
      end.

(** The requests an NFSv4.0 client orders with the sequence ids of its owners. *)
Inductive v40_request : Set :=
  | LOCKU (arg : LOCKU4args) | CLOSE (arg : CLOSE4args) | OPEN_CONFIRM (arg : OPEN_CONFIRM4args)
  | OPEN_DOWNGRADE (arg : OPEN_DOWNGRADE4args).

Definition run_request (now : Z) (r : v40_request) (d : v4_data) (resp : nfs_resop4) : VM (nfs_resop4 * v4_data) :=
  match r with
  | LOCKU arg => nfs4_op_locku now arg d resp
  | CLOSE arg => nfs4_op_close now arg d
  | OPEN_CONFIRM arg => nfs4_op_open_confirm now arg d resp
  | OPEN_DOWNGRADE arg => nfs4_op_open_downgrade now arg d resp
  end.

End stateid.
