(* ===== verification/SeqidInv.v ===== *)
(** * Requests ordered by owner sequence ids: one run, then the same request again

    The effect of [nfs4_Check_Stateid] on a stateid that is in the table, of the replay check
    of an owner, and of the requests between them. *)
From S2P Require Import Prelude Status Owners LockTable Acl Share Lease VfsHandle StateTable StateInv StateOps StateId.
Local Open Scope Z_scope.

Section seqid.
Context `{OwnerMem} {L : Type} `{!LowerLayer L} `{!RequestLayer L}.
Abbreviation VM := (M (v4_world L)).

(** ** Running programs step by step *)

Lemma bind_run {A B} (m : VM A) (f : A -> VM B) w r w' : m w = Some (r, w') -> (m ≫= f) w = f r w'.
Proof. intros E. unfold mbind, M_bind. by rewrite E. Qed.

Lemma get_st_run a s (w : v4_world L) : v4_states w !! a = Some s -> get_st a w = Some (s, w).
Proof. intros E. unfold get_st, gets, mbind, M_bind. by rewrite E. Qed.
Lemma get_owner_run o xo (w : v4_world L) : v4_owners w !! o = Some xo -> get_owner o w = Some (xo, w).
Proof. intros E. unfold get_owner, gets, mbind, M_bind. by rewrite E. Qed.
Lemma get_client_run c xc (w : v4_world L) : v4_clients w !! c = Some xc -> get_client c w = Some (xc, w).
Proof. intros E. unfold get_client, gets, mbind, M_bind. by rewrite E. Qed.

(** ** What a request finds *)

(** The stateid [id] names the state [a] of the owner [o] on the file [x], with the references
    the tables hold. *)
Record finds (w : v4_world L) (k : list Z) (a : positive) (s : state_t) (o x : positive)
    (xo : nfs4_owner_t) (xc : v4_client_t) : Prop := {
  fi_id : ht_state_id w !! k = Some a;
  fi_state : v4_states w !! a = Some s;
  fi_owner : state_owner s = Some o;
  fi_obj : state_obj s = Some x;
  fi_so : v4_owners w !! o = Some xo;
  fi_client : v4_clients w !! so_clientrec o = Some xc;
  fi_srefs : 1 <= state_refcount s;
  fi_orefs : 1 <= so_refcount xo;
  fi_xrefs : is_Some (obj_refs w !! x)
}.

Lemma inv_finds h w k a :
  v4_inv h w -> ht_state_id w !! k = Some a -> exists s o x xo xc, finds w k a s o x xo xc /\ stateid_other s = k.
Proof.
  intros Hi Hk. destruct (vi_id _ _ Hi k a Hk) as (s & Hs & Ek & _ & [o Ho] & [x Hx]).
  destruct (vi_owner _ _ Hi a s o Hs Ho) as [xo Hxo].
  destruct (vi_client _ _ Hi o ltac:(by eexists)) as [xc Hxc].
  exists s, o, x, xo, xc. split; [|done]. constructor; try done.
  - rewrite (vi_refs _ _ Hi a s Hs). unfold is_hashed. rewrite decide_True by congruence.
    pose proof (vi_holds _ _ Hi (R_state a)). lia.
  - rewrite (vi_owner_refs _ _ Hi o xo Hxo). pose proof (vi_holds _ _ Hi (R_owner o)).
    pose proof (count_map_nonneg (related_to o) (v4_owners w)).
    assert (a ∈ list_at o (so_state_list w)) as Hin by (apply Hi; eauto).
    unfold len_at. destruct (list_at o (so_state_list w)); [by apply elem_of_nil in Hin|]. simpl. case_decide; lia.
  - pose proof (vi_obj_refs _ _ Hi x) as Hr. pose proof (vi_holds _ _ Hi (R_obj x)).
    assert (a ∈ list_at x (list_of_states w)) as Hin by (apply Hi; eauto).
    unfold len_at in Hr. destruct (list_at x (list_of_states w)); [by apply elem_of_nil in Hin|]. simpl in Hr.
    destruct (obj_refs w !! x); [by eexists|]. simpl in Hr. lia.
Qed.

(** ** Leases *)

Definition can_reserve (now : Z) (xc : v4_client_t) : bool := negb (_valid_lease lease_lifetime now (cid_lease xc) =? 0).

(** The client record with the lease reserved. *)
Definition reserved_client (now : Z) (xc : v4_client_t) : v4_client_t :=
  with_lease (reserve_lease_or_expire lease_lifetime now false (cid_lease xc)).2 xc.

(** The lease is reserved once in a compound. *)
Definition reserve_once (now : Z) (d : v4_data) (o : positive) (xc : v4_client_t) (w : v4_world L) : v4_world L :=
  if decide (preserved_clientid d = Some (so_clientrec o)) then w
  else set_clients <[so_clientrec o := reserved_client now xc]> w.
Definition preserve (o : positive) (d : v4_data) : v4_data := set_preserved (Some (so_clientrec o)) d.

Definition fresh_lease_slot (d : v4_data) (o : positive) : Prop :=
  preserved_clientid d = None \/ preserved_clientid d = Some (so_clientrec o).

(** ** [nfs4_Check_Stateid] on a stateid in the table *)

Definition plain_id (id : stateid4) : Prop := other id <> all_zero /\ other id <> all_ones.

Definition epoch_ok (k : list Z) : Prop := u32 (Z.shiftr (le_value (take 8 k)) 32) = epoch_low.

Definition kept (a : positive) (s : state_t) (w : v4_world L) : v4_world L :=
  set_states <[a := with_state_refs (state_refcount s + 1) s]> w.

Lemma with_state_refs_id (s : state_t) n m : n = state_refcount s -> with_state_refs n (with_state_refs m s) = s.
Proof. intros ->. by destruct s. Qed.

Lemma with_owner_refs_id (x : nfs4_owner_t) n m : n = so_refcount x -> with_owner_refs n (with_owner_refs m x) = x.
Proof. intros ->. by destruct x. Qed.

Lemma ref_add_back k (m : gmap positive Z) : is_Some (m !! k) -> ref_add k (-1) (ref_add k 1 m) = m.
Proof.
  intros [n Hn]. unfold ref_add. rewrite lookup_insert_eq, insert_insert_eq, Hn. simpl.
  apply insert_id. rewrite Hn. f_equal. lia.
Qed.

(** Giving back the reference to an owner that has others. *)
Lemma dec_owner_back o xo w :
  v4_owners w !! o = Some (with_owner_refs (so_refcount xo + 1) xo) -> 1 <= so_refcount xo ->
  dec_state_owner_ref o w = Some (tt, set_owners <[o := xo]> w).
Proof.
  intros Ho Hr. unfold dec_state_owner_ref. simpl. unfold get_owner, gets, deref, put_owner, modify.
  unfold mbind, M_bind. rewrite Ho. simpl. destruct (ll_refs_nonneg (v4_lock w) o) as [_ Hll].
  rewrite (proj2 (Z.ltb_ge _ 0)) by lia. rewrite (proj2 (Z.eqb_neq _ 0)) by lia. simpl.
  by rewrite with_owner_refs_id by lia.
Qed.

Lemma dec_state_back a s w :
  v4_states w !! a = Some (with_state_refs (state_refcount s + 1) s) -> 1 <= state_refcount s ->
  dec_nfs4_state_ref a w = Some (tt, set_states <[a := s]> w).
Proof.
  intros Ho Hr. unfold dec_nfs4_state_ref, get_st, gets, deref, put_st, modify.
  unfold mbind, M_bind. rewrite Ho. simpl. destruct (ll_refs_nonneg (v4_lock w) a) as [Hll _].
  rewrite (proj2 (Z.ltb_ge _ 0)) by lia. rewrite (proj2 (Z.ltb_lt 0 _)) by lia. simpl.
  by rewrite with_state_refs_id by lia.
Qed.

(** With references to the state, its file and its owner. *)
Definition grabbed (a : positive) (s : state_t) (o x : positive) (xo : nfs4_owner_t) (w : v4_world L) : v4_world L :=
  set_owners <[o := with_owner_refs (so_refcount xo + 1) xo]> (set_obj_refs (ref_add x 1) (kept a s w)).

Section found.
Context (w : v4_world L) (k : list Z) (a : positive) (s : state_t) (o x : positive)
  (xo : nfs4_owner_t) (xc : v4_client_t).
Context (Hf : finds w k a s o x xo xc).

Lemma get_obj_owner_refs_run :
  get_state_obj_owner_refs (Some a) (kept a s w) = Some (Some (x, o), grabbed a s o x xo w).
Proof using Hf.
  destruct Hf. unfold get_state_obj_owner_refs, get_state_obj_ref, get_st, gets, deref, mbind, M_bind. simpl.
  rewrite lookup_insert_eq. simpl. rewrite fi_obj0. simpl. rewrite lookup_insert_eq. simpl. rewrite fi_owner0.
  unfold inc_state_owner_ref, get_owner, gets, deref, mbind, M_bind. simpl. rewrite fi_so0. done.
Qed.

Lemma put_obj_owner_back g :
  put_obj_owner (Some (x, o)) (set_clients g (grabbed a s o x xo w)) = Some (tt, set_clients g (kept a s w)).
Proof using Hf.
  destruct Hf. unfold put_obj_owner, put_ref, modify, mbind, M_bind.
  rewrite (dec_owner_back o xo); [|simpl; apply lookup_insert_eq|done]. f_equal. f_equal.
  apply v4_world_ext; simpl; try done.
  - rewrite insert_insert_eq. by apply insert_id.
  - by apply ref_add_back.
Qed.

Lemma dec_state_kept g :
  dec_nfs4_state_ref a (set_clients g (kept a s w)) = Some (tt, set_clients g w).
Proof using Hf.
  destruct Hf. rewrite (dec_state_back a s); [|simpl; apply lookup_insert_eq|done]. f_equal. f_equal.
  apply v4_world_ext; simpl; try done. rewrite insert_insert_eq. by apply insert_id.
Qed.

Lemma check_failure_run g st id d :
  check_failure st (Some a) (Some (x, o)) id d (set_clients g (grabbed a s o x xo w))
  = Some ((st, None, id, set_valid false d), set_clients g w).
Proof using Hf.
  pose proof Hf as Hf'. destruct Hf'. unfold check_failure, mbind, M_bind.
  rewrite (dec_state_back a s); [|simpl; apply lookup_insert_eq|done].
  assert (set_states <[a := s]> (set_clients g (grabbed a s o x xo w))
    = set_clients g (set_owners <[o := with_owner_refs (so_refcount xo + 1) xo]> (set_obj_refs (ref_add x 1) w))) as ->.
  { apply v4_world_ext; simpl; try done. rewrite insert_insert_eq. by apply insert_id. }
  unfold put_obj_owner, put_ref, modify, mbind, M_bind.
  rewrite (dec_owner_back o xo); [|simpl; apply lookup_insert_eq|done]. unfold mret, M_ret. f_equal. f_equal.
  apply v4_world_ext; simpl; try done.
  - rewrite insert_insert_eq. by apply insert_id.
  - by apply ref_add_back.
Qed.

(** The clients after the lease was reserved. *)
Definition reserve_clients (now : Z) (d : v4_data) : gmap positive v4_client_t -> gmap positive v4_client_t :=
  if decide (preserved_clientid d = Some (so_clientrec o)) then (fun m => m)
  else <[so_clientrec o := reserved_client now xc]>.

(** The answer of [nfs4_Check_Stateid]: the status, and whether the state is returned. *)
Definition check_answer (cur : option positive) (req : Z) (chk : bool) (oseq : Z) : nfsstat4 * bool :=
  if match cur with Some y => negb (handle_cmp y x) | None => false end then (NFS4ERR_BAD_STATEID, false)
  else match check_state_seqid req s chk oseq (so_seqid xo) with
       | Seq_current => (NFS4_OK, true)
       | Seq_replay => (NFS4ERR_REPLAY, true)
       | Seq_old => (NFS4ERR_OLD_STATEID, false)
       | Seq_bad => (NFS4ERR_BAD_STATEID, false)
       end.

Lemma check_state_seqid_refs req n chk oseq m :
  check_state_seqid req (with_state_refs n s) chk oseq m = check_state_seqid req s chk oseq m.
Proof. done. Qed.

Lemma reserve_run now :
  can_reserve now xc = true ->
  reserve_or_expire now (so_clientrec o) false (grabbed a s o x xo w)
  = Some (true, set_clients <[so_clientrec o := reserved_client now xc]> (grabbed a s o x xo w)).
Proof using Hf.
  intros Hr. destruct Hf. unfold reserve_or_expire, get_client, gets, deref, mbind, M_bind. simpl.
  rewrite fi_client0. simpl. unfold reserved_client, reserve_lease_or_expire, can_reserve in *.
  destruct (_ =? 0); done.
Qed.

Lemma set_clients_id (w' : v4_world L) : set_clients (fun m => m) w' = w'.
Proof. by destruct w'. Qed.

(** The step of [check_found] that reserves the lease. *)
Lemma reserve_step_run now d :
  fresh_lease_slot d o -> can_reserve now xc = true ->
  (if decide (preserved_clientid d = Some (so_clientrec o)) then mret d
   else d' ← release_preserved now d;
        valid ← reserve_or_expire now (so_clientrec o) false;
        if (valid : bool) then mret (set_preserved (Some (so_clientrec o)) d') else undef)
    (grabbed a s o x xo w)
  = Some (preserve o d, set_clients (reserve_clients now d) (grabbed a s o x xo w)).
Proof using Hf.
  intros Hs Hr. unfold reserve_clients. case_decide as Hd.
  - rewrite set_clients_id. unfold mret, M_ret. f_equal. f_equal. unfold preserve. rewrite <- Hd. by destruct d.
  - destruct Hs as [Hs|Hs]; [|done]. unfold release_preserved, mbind, M_bind. rewrite Hs. simpl.
    rewrite reserve_run by done. done.
Qed.

(** The fields of the compound data that make the request. *)
Definition same_ctx (d d' : v4_data) : Prop :=
  minorversion d' = minorversion d /\ fh_empty d' = fh_empty d /\ fh_invalid d' = fh_invalid d /\
  fh_ds d' = fh_ds d /\ current_obj d' = current_obj d /\ current_filetype d' = current_filetype d.

Lemma check_hashed now id cur d flags oseq chk :
  other id = k -> plain_id id -> epoch_ok k -> fresh_lease_slot d o -> can_reserve now xc = true ->
  let '(st, keep) := check_answer cur (seqid id) chk oseq in
  exists d', same_ctx d d' /\
    nfs4_Check_Stateid now id cur d flags oseq chk w
    = Some ((st, if keep then Some a else None, id, d'),
            set_clients (reserve_clients now d) (if keep then kept a s w else w)).
Proof using Hf.
  intros Hk [Hz Ho] He Hs Hr. pose proof Hf as Hf'. destruct Hf'. unfold nfs4_Check_Stateid, check_special.
  rewrite decide_False, decide_False by done. rewrite Hk. unfold epoch_ok in He. rewrite He, Z.eqb_refl. simpl.
  assert (nfs4_State_Get_Pointer k w = Some (Some a, kept a s w)) as Hg.
  { unfold nfs4_State_Get_Pointer. rewrite (bind_run _ _ w (ht_state_id w) w) by done. rewrite fi_id0.
    rewrite (bind_run _ _ w tt (kept a s w)); [done|]. unfold inc_state_t_ref.
    by rewrite (bind_run _ _ w s w) by by apply get_st_run. }
  erewrite bind_run by done. erewrite bind_run by apply get_obj_owner_refs_run. unfold check_found.
  erewrite bind_run by by apply reserve_step_run.
  unfold check_answer. destruct (match cur with Some y => _ | None => false end) eqn:Ec.
  { rewrite check_failure_run. eexists. split; [|done]. done. }
  erewrite bind_run; [|apply get_st_run; simpl; apply lookup_insert_eq].
  erewrite bind_run; [|apply get_owner_run; simpl; apply lookup_insert_eq].
  rewrite check_state_seqid_refs. destruct (check_state_seqid _ _ _ _ _).
  - erewrite bind_run by apply put_obj_owner_back. eexists. split; [|done]. done.
  - erewrite bind_run by apply put_obj_owner_back. eexists. split; [|done]. done.
  - rewrite check_failure_run. eexists. split; [|done]. done.
  - rewrite check_failure_run. eexists. split; [|done]. done.
Qed.

End found.

(** ** Worlds that differ in client records only *)

Definition no_clients (w : v4_world L) : v4_world L := set_clients (fun _ => ∅) w.

(** Other requests of the client may have renewed or reserved its lease. *)
Definition leases_only (w w' : v4_world L) : Prop :=
  no_clients w' = no_clients w /\
  forall c xc, v4_clients w !! c = Some xc -> exists l, v4_clients w' !! c = Some (with_lease l xc).

Lemma no_clients_set g w : no_clients (set_clients g w) = no_clients w.
Proof. done. Qed.

Lemma finds_leases w w' k a s o x xo xc :
  finds w k a s o x xo xc -> leases_only w w' ->
  exists l, finds w' k a s o x xo (with_lease l xc).
Proof.
  intros [] [E Hl]. destruct (Hl _ _ fi_client0) as [l Hc]. exists l.
  pose proof (f_equal ht_state_id E) as E1. pose proof (f_equal v4_states E) as E2.
  pose proof (f_equal v4_owners E) as E3. pose proof (f_equal obj_refs E) as E4. simpl in *.
  constructor; rewrite ?E1, ?E2, ?E3, ?E4; done.
Qed.

(** ** The replay check *)

Definition seq_answer (xo : nfs4_owner_t) (seq : Z) (op : nfs_opnum4) (obj : option positive) (resp : nfs_resop4) :
    bool * nfs_resop4 :=
  match so_last_entry xo with
  | None => (true, resp)
  | Some _ =>
      if seq =? u32 (so_seqid xo + 1) then (true, resp)
      else
        let resp := with_status NFS4ERR_BAD_SEQID resp in
        if negb (so_seqid xo =? seq) then (false, resp)
        else if decide (op <> so_args xo) then (false, resp)
        else if decide (so_last_entry xo <> obj) then (false, resp)
        else (false, so_resp xo)
  end.

Lemma Check_nfs4_seqid_run o xo seq op obj resp (w : v4_world L) :
  v4_owners w !! o = Some xo ->
  Check_nfs4_seqid o seq op obj resp w = Some (seq_answer xo seq op obj resp, w).
Proof.
  intros Ho. unfold Check_nfs4_seqid, seq_answer. rewrite (bind_run _ _ w xo w) by by apply get_owner_run.
  destruct (so_last_entry xo); [|done]. repeat case_match; done.
Qed.

Lemma u32_succ_ne n : in_u 32 n -> n <> u32 (n + 1).
Proof.
  unfold wrapu, in_u. intros Hn. destruct (decide (n = 2 ^ 32 - 1)) as [->|]; [by vm_compute|].
  rewrite Z.mod_small by lia. lia.
Qed.

(** A recorded request is answered from the record. *)
Lemma seq_answer_recorded xo seq op obj resp r :
  in_u 32 seq -> is_Some obj ->
  seq_answer (with_request seq op obj r xo) seq op obj resp = (false, r).
Proof.
  intros Hs [y ->]. unfold seq_answer. simpl.
  pose proof (u32_succ_ne seq Hs).
  rewrite (proj2 (Z.eqb_neq _ _)) by done. rewrite Z.eqb_refl. simpl.
  rewrite decide_False by tauto. by rewrite decide_False by tauto.
Qed.

(** The next request of an owner passes, and only that one. *)
Lemma seq_answer_next xo seq op obj resp r :
  is_Some (so_last_entry xo) -> seq_answer xo seq op obj resp = (true, r) ->
  seq = u32 (so_seqid xo + 1) /\ r = resp.
Proof.
  intros [y Hy]. unfold seq_answer. rewrite Hy. destruct (Z.eqb_spec seq (u32 (so_seqid xo + 1))) as [E|E].
  - naive_solver.
  - repeat case_match; naive_solver.
Qed.

(** ** Sequence ids of states *)

Lemma next_seqid_u n : in_u 32 n -> in_u 32 (next_seqid n) /\ next_seqid n <> 0.
Proof.
  intros Hn. unfold next_seqid. pose proof (wrapu_in_u 32 (n + 1) ltac:(lia)).
  destruct (Z.eqb_spec (u32 (n + 1)) 0); [split; [unfold in_u|]; lia|done].
Qed.

Lemma i32_diff_zero a b : in_u 32 a -> in_u 32 b -> i32 (a - b) = 0 -> a = b.
Proof.
  unfold wraps, wrapu, in_u. intros Ha Hb. change (2 ^ (32 - 1)) with 2147483648. change (2 ^ 32) with 4294967296 in *.
  intros E. destruct (decide (a - b < 0)).
  - rewrite <- (Z_mod_plus_full (a - b) 1) in E. rewrite Z.mod_small in E by lia.
    destruct (_ <? _) eqn:?; lia.
  - rewrite Z.mod_small in E by lia. destruct (_ <? _) eqn:?; lia.
Qed.

Lemma i32_step n : in_u 32 n -> n <> UINT32_MAX -> i32 (n - next_seqid n) = -1.
Proof.
  unfold in_u, UINT32_MAX. change (2 ^ 32) with 4294967296. intros Hn Hm. unfold next_seqid, wrapu at 1 2.
  rewrite Z.mod_small by (change (2 ^ 32) with 4294967296; lia). rewrite (proj2 (Z.eqb_neq _ 0)) by lia.
  replace (n - (n + 1)) with (-1) by lia. done.
Qed.

(** What the state looks like after a request on it: its sequence id stays or advances. *)
Definition after_request (s s' : state_t) : Prop :=
  state_type s' = state_type s /\
  (state_seqid s' = state_seqid s \/ state_seqid s' = next_seqid (state_seqid s)).

(** A request that was the next one of its owner is, sent again, current or a replay. *)
Lemma check_again req s s' oseq m :
  in_u 32 req -> in_u 32 (state_seqid s) -> oseq <> m -> after_request s s' ->
  (check_state_seqid req s true oseq m = Seq_current \/ check_state_seqid req s true oseq m = Seq_replay) ->
  (check_state_seqid req s true oseq m = Seq_current /\
   (bool_decide (state_type s = STATE_TYPE_LAYOUT) || negb (req =? 0) = true -> req = state_seqid s)) /\
  (check_state_seqid req s' true oseq oseq = Seq_current \/ check_state_seqid req s' true oseq oseq = Seq_replay).
Proof.
  intros Hr Hs Hm [Ht Hn]. unfold check_state_seqid. rewrite Ht, (proj2 (Z.eqb_neq oseq m)), Z.eqb_refl by done.
  rewrite !andb_false_r. simpl. destruct (bool_decide _ || _) eqn:Hb; [|intros _; split; [by split|by left]].
  destruct (Z.ltb_spec (i32 (req - state_seqid s)) 0); [by intros [?|?]|].
  destruct (Z.ltb_spec 0 (i32 (req - state_seqid s))); [by intros [?|?]|]. intros _.
  assert (req = state_seqid s) as E by (apply i32_diff_zero; [done..|lia]). split; [auto|].
  destruct Hn as [->| ->]; rewrite <- E.
  - rewrite Z.sub_diag. by right.
  - destruct (decide (req = UINT32_MAX)) as [->|Hu]; [by right|]. rewrite i32_step by done. by right.
Qed.

(** ** The common shape of LOCKU, OPEN_CONFIRM and OPEN_DOWNGRADE *)

(** The stateid is checked, then the sequence id of the owner, then [body] runs. *)
Definition sequenced (chk : v4_data -> bool) (now : Z) (id : stateid4) (oseq : Z) (op : nfs_opnum4)
    (body : positive -> positive -> v4_data -> nfs_resop4 -> VM (nfs_resop4 * v4_data))
    (d : v4_data) (resp : nfs_resop4) : VM (nfs_resop4 * v4_data) :=
  '(st, state_found, _, d) ← nfs4_Check_Stateid now id (current_obj d) d
    STATEID_SPECIAL_FOR_LOCK oseq (minorversion d =? 0);
  if bool_decide (st <> NFS4_OK) && bool_decide (st <> NFS4ERR_REPLAY)
  then mret (with_status st resp, d)
  else
    a ← deref state_found;
    owner ← get_state_owner_ref a;
    match owner with
    | None => dec_nfs4_state_ref a;; mret (with_status NFS4ERR_STALE resp, d)
    | Some owner =>
        '(go, resp) ← (if chk d then Check_nfs4_seqid owner oseq op (current_obj d) resp else mret (true, resp));
        '(resp, d) ← (if negb (go : bool) then mret (resp, d) else body a owner d resp);
        dec_state_owner_ref owner;;
        dec_nfs4_state_ref a;;
        mret (resp, d)
    end.

(** The effect of a [body] that records its request. *)
Definition recorded (op : nfs_opnum4) (oseq : Z) (a o : positive) (s : state_t) (xo : nfs4_owner_t)
    (cur : option positive) (r : nfs_resop4) (w w1 : v4_world L) : Prop :=
  exists q b f, (q = state_seqid s \/ q = next_seqid (state_seqid s)) /\
    w1 = set_v4_lock f (set_owners <[o := with_request oseq op cur r (with_confirmed b xo)]>
           (set_states <[a := with_seqid q s]> w)).

(** [ok r] says which answers are recorded. *)
Definition body_ok (op : nfs_opnum4) (oseq : Z) (ok : nfs_resop4 -> Prop)
    (body : positive -> positive -> v4_data -> nfs_resop4 -> VM (nfs_resop4 * v4_data)) : Prop :=
  forall a o d resp w s xo r d1 w1,
    v4_states w !! a = Some s -> v4_owners w !! o = Some xo -> minorversion d = 0 ->
    body a o d resp w = Some ((r, d1), w1) -> ok r -> recorded op oseq a o s xo (current_obj d) r w w1.

(** A request on a stateid of the table, in the ranges the protocol has. *)
Record request_fits (id : stateid4) (oseq : Z) (k : list Z) (s : state_t) (xo : nfs4_owner_t) (d : v4_data) : Prop := {
  rf_other : other id = k;
  rf_plain : plain_id id;
  rf_epoch : epoch_ok k;
  rf_minor : minorversion d = 0;
  rf_obj : is_Some (current_obj d);
  rf_req : in_u 32 (seqid id);
  rf_state : in_u 32 (state_seqid s);
  rf_oseq : in_u 32 oseq;
  rf_so : in_u 32 (so_seqid xo);
  rf_last : is_Some (so_last_entry xo)
}.

(** After the checks: the world of the request, in which [body] runs. *)
Definition held_world (a : positive) (s : state_t) (o : positive) (xo : nfs4_owner_t)
    (g : gmap positive v4_client_t -> gmap positive v4_client_t) (w : v4_world L) : v4_world L :=
  set_owners <[o := with_owner_refs (so_refcount xo + 1) xo]> (set_clients g (kept a s w)).

Section run.
Context (chk : v4_data -> bool) (id : stateid4) (oseq : Z) (op : nfs_opnum4) (k : list Z).
Context (body : positive -> positive -> v4_data -> nfs_resop4 -> VM (nfs_resop4 * v4_data)).
Context (Hchk : forall d, minorversion d = 0 -> chk d = true).

(** The outcome of the checks decides how the request goes on. *)
Lemma sequenced_run now w a s o x xo xc d resp :
  finds w k a s o x xo xc -> request_fits id oseq k s xo d -> fresh_lease_slot d o -> can_reserve now xc = true ->
  let g := reserve_clients o xc now d in
  exists d', same_ctx d d' /\
  sequenced chk now id oseq op body d resp w =
  (let '(st, keep) := check_answer s x xo (current_obj d) (seqid id) true oseq in
   if negb keep then Some ((with_status st resp, d'), set_clients g w)
   else
     let '(go, r) := seq_answer xo oseq op (current_obj d) resp in
     ('(r, d1) ← (if negb (go : bool) then mret (r, d') else body a o d' r);
      dec_state_owner_ref o;; dec_nfs4_state_ref a;; mret (r, d1)) (held_world a s o xo g w)).
Proof using Hchk.
  intros Hf Hq Hs Hr g. pose proof Hf as []. destruct Hq.
  pose proof (check_hashed w k a s o x xo xc Hf now id (current_obj d) d STATEID_SPECIAL_FOR_LOCK oseq
    true rf_other0 rf_plain0 rf_epoch0 Hs Hr) as Hc.
  assert ((minorversion d =? 0) = true) as Hm by by rewrite rf_minor0.
  destruct (check_answer s x xo (current_obj d) (seqid id) true oseq) as [st keep] eqn:Ea.
  destruct Hc as (d' & Hd & Hc). exists d'. split; [done|]. unfold sequenced.
  rewrite Hm. erewrite bind_run by done. destruct keep; simpl negb.
  - assert (st = NFS4_OK \/ st = NFS4ERR_REPLAY) as Hst.
    { unfold check_answer in Ea. repeat case_match; simplify_eq; auto. }
    assert (bool_decide (st <> NFS4_OK) && bool_decide (st <> NFS4ERR_REPLAY) = false) as ->.
    { destruct Hst as [-> | ->]; done. }
    erewrite bind_run by done.
    assert (get_state_owner_ref a (set_clients g (kept a s w)) = Some (Some o, held_world a s o xo g w)) as Hg.
    { unfold get_state_owner_ref. erewrite bind_run; [|apply get_st_run; simpl; apply lookup_insert_eq].
      simpl. rewrite fi_owner0. unfold inc_state_owner_ref. rewrite (bind_run _ _ _ tt (held_world a s o xo g w)); [done|].
      erewrite bind_run by by apply get_owner_run. done. }
    erewrite bind_run by exact Hg. destruct Hd as (Hd1 & _ & _ & _ & Hd5 & _). rewrite Hchk by congruence. rewrite Hd5.
    erewrite bind_run; [|apply Check_nfs4_seqid_run; simpl; apply lookup_insert_eq].
    assert (seq_answer (with_owner_refs (so_refcount xo + 1) xo) oseq op (current_obj d) resp
            = seq_answer xo oseq op (current_obj d) resp) as -> by done.
    destruct (seq_answer _ _ _ _ _) as [go r]. done.
  - assert (bool_decide (st <> NFS4_OK) && bool_decide (st <> NFS4ERR_REPLAY) = true) as ->; [|done].
    unfold check_answer in Ea. repeat case_match; simplify_eq; done.
Qed.

(** The lease of the owner's client can be reserved at [now]. *)
Definition lease_valid (now : Z) (o : positive) (w : v4_world L) : Prop :=
  forall xc, v4_clients w !! so_clientrec o = Some xc -> can_reserve now xc = true.

Lemma finds_reserved w a s o x xo xc now d :
  finds w k a s o x xo xc ->
  exists xc', finds (set_clients (reserve_clients o xc now d) w) k a s o x xo xc'.
Proof.
  intros []. unfold reserve_clients. case_decide; [exists xc|eexists]; constructor; simpl; try done.
  apply lookup_insert_eq.
Qed.

(** Giving back the references of the request. *)
Lemma back_plain w a s o x xo xc g (r : nfs_resop4) (d1 : v4_data) :
  finds w k a s o x xo xc ->
  (dec_state_owner_ref o;; dec_nfs4_state_ref a;; mret (r, d1)) (held_world a s o xo g w)
  = Some ((r, d1), set_clients g w).
Proof.
  intros Hf. pose proof Hf as []. erewrite bind_run; [|apply (dec_owner_back o xo); [simpl; apply lookup_insert_eq|done]].
  erewrite bind_run; [|apply (dec_state_back a s); [simpl; apply lookup_insert_eq|done]].
  unfold mret, M_ret. f_equal. f_equal. apply v4_world_ext; simpl; try done; rewrite insert_insert_eq; by apply insert_id.
Qed.

Definition after (op oseq : _) (a o : positive) (s : state_t) (xo : nfs4_owner_t) cur r q b f
    (w : v4_world L) : v4_world L :=
  set_v4_lock f (set_owners <[o := with_request oseq op cur r (with_confirmed b xo)]>
    (set_states <[a := with_seqid q s]> w)).

Lemma back_recorded w a s o x xo xc g (r : nfs_resop4) (d1 : v4_data) cur q b f :
  finds w k a s o x xo xc ->
  (dec_state_owner_ref o;; dec_nfs4_state_ref a;; mret (r, d1))
    (after op oseq a o (with_state_refs (state_refcount s + 1) s) (with_owner_refs (so_refcount xo + 1) xo) cur r q b f
       (held_world a s o xo g w))
  = Some ((r, d1), after op oseq a o s xo cur r q b f (set_clients g w)).
Proof.
  intros Hf. pose proof Hf as [].
  erewrite bind_run; [|apply (dec_owner_back o (with_request oseq op cur r (with_confirmed b xo)));
    [simpl; apply lookup_insert_eq|done]].
  erewrite bind_run; [|apply (dec_state_back a (with_seqid q s)); [simpl; apply lookup_insert_eq|done]].
  unfold mret, M_ret. f_equal. f_equal. apply v4_world_ext; simpl; try done; by rewrite !insert_insert_eq.
Qed.

Lemma finds_after w a s o x xo xc cur r q b f :
  finds w k a s o x xo xc ->
  finds (after op oseq a o s xo cur r q b f w) k a (with_seqid q s) o x
    (with_request oseq op cur r (with_confirmed b xo)) xc.
Proof. intros []. constructor; simpl; try done; apply lookup_insert_eq. Qed.

Lemma back_result o a (r r' : nfs_resop4) (d1 d1' : v4_data) (w w' : v4_world L) :
  (dec_state_owner_ref o;; dec_nfs4_state_ref a;; mret (r, d1)) w = Some ((r', d1'), w') -> r = r'.
Proof.
  unfold mbind, M_bind. destruct (dec_state_owner_ref o w) as [[_ w2]|]; [|done].
  destruct (dec_nfs4_state_ref a w2) as [[_ w3]|]; [|done]. intros E. by injection E.
Qed.

(** The request a second time, after other requests have only touched leases. *)
Lemma sequenced_twice ok now w a s o x xo xc d resp r d1 w1 now' w1' d2 :
  body_ok op oseq ok body ->
  finds w k a s o x xo xc -> request_fits id oseq k s xo d -> fresh_lease_slot d o -> lease_valid now o w ->
  sequenced chk now id oseq op body d resp w = Some ((r, d1), w1) -> ok r ->
  leases_only w1 w1' -> lease_valid now' o w1' -> same_ctx d d2 -> fresh_lease_slot d2 o ->
  exists d3 w2, sequenced chk now' id oseq op body d2 resp w1' = Some ((r, d3), w2) /\ no_clients w2 = no_clients w1'.
Proof using Hchk.
  intros Hb Hf Hq Hs Hl Hrun Hok Hle Hl' Hd Hs'.
  assert (request_fits id oseq k s xo d2) as Hq2.
  { destruct Hq, Hd as (Hm & _ & _ & _ & Ho & _). constructor; try done; congruence. }
  assert (current_obj d2 = current_obj d) as Ho by by destruct Hd as (_ & _ & _ & _ & ? & _).
  destruct (sequenced_run now w a s o x xo xc d resp Hf Hq Hs (Hl _ (fi_client _ _ _ _ _ _ _ _ Hf))) as (d' & Hd' & Hr).
  rewrite Hr in Hrun. clear Hr. set (g := reserve_clients o xc now d) in *.
  destruct (finds_reserved w a s o x xo xc now d Hf) as [xc1 Hf1]. fold g in Hf1.
  destruct (check_answer s x xo (current_obj d) (seqid id) true oseq) as [st keep] eqn:Ea.
  assert (w1 = set_clients g w -> check_answer s x xo (current_obj d) (seqid id) true oseq = (st, keep) ->
    (keep = true -> exists r0, seq_answer xo oseq op (current_obj d) resp = (false, r) /\ r0 = r) ->
    (keep = false -> r = with_status st resp) ->
    exists d3 w2, sequenced chk now' id oseq op body d2 resp w1' = Some ((r, d3), w2) /\ no_clients w2 = no_clients w1') as Hsame.
  { intros -> _ Hk1 Hk0. destruct (finds_leases _ _ _ _ _ _ _ _ _ Hf1 Hle) as [l Hf2].
    destruct (sequenced_run now' w1' a s o x xo _ d2 resp Hf2 Hq2 Hs' (Hl' _ (fi_client _ _ _ _ _ _ _ _ Hf2))) as (d3 & _ & ->).
    rewrite Ho, Ea. destruct keep; simpl.
    - destruct (Hk1 eq_refl) as (r0 & -> & _). cbv beta iota. simpl negb. cbv iota. erewrite bind_run by done. cbv beta iota.
      erewrite back_plain by done. eauto.
    - rewrite (Hk0 eq_refl). eauto. }
  destruct keep; simpl in Hrun.
  2:{ injection Hrun as <- <- <-. by apply Hsame. }
  destruct (seq_answer xo oseq op (current_obj d) resp) as [go r0] eqn:Esq. destruct go; simpl in Hrun.
  2:{ erewrite bind_run in Hrun by done. cbv beta iota in Hrun. erewrite back_plain in Hrun by done. injection Hrun as <- <- <-.
      apply Hsame; try done. eauto. }
  clear Hsame. destruct (seq_answer_next _ _ _ _ _ _ (rf_last _ _ _ _ _ _ Hq) Esq) as [Hnext ->].
  destruct (body a o d' resp (held_world a s o xo g w)) as [[[r1 d1'] W]|] eqn:Ebody.
  2:{ unfold mbind, M_bind in Hrun. by rewrite Ebody in Hrun. }
  erewrite bind_run in Hrun by done. cbv beta iota in Hrun. assert (r1 = r) as -> by by eapply back_result.
  destruct (Hb a o d' resp (held_world a s o xo g w) (with_state_refs (state_refcount s + 1) s)
    (with_owner_refs (so_refcount xo + 1) xo) r d1' W) as (q & b & f & Hqn & ->);
    [simpl; apply lookup_insert_eq|simpl; apply lookup_insert_eq|destruct Hd', Hq; congruence|done|done|].
  fold (after op oseq a o (with_state_refs (state_refcount s + 1) s) (with_owner_refs (so_refcount xo + 1) xo)
    (current_obj d') r q b f (held_world a s o xo g w)) in Hrun.
  erewrite back_recorded in Hrun by done. injection Hrun as <- <-.
  pose proof (finds_after _ _ _ _ _ _ _ (current_obj d') r q b f Hf1) as Hf2.
  destruct (finds_leases _ _ _ _ _ _ _ _ _ Hf2 Hle) as [l Hf3]. assert (current_obj d' = current_obj d) as Ho' by apply Hd'.
  rewrite Ho' in *. pose proof Hq2 as []. assert (oseq <> so_seqid xo) as Hne.
  { rewrite Hnext. intros E. by apply (u32_succ_ne (so_seqid xo)). }
  assert (after_request s (with_seqid q s)) as Har by by split.
  destruct (check_again (seqid id) s (with_seqid q s) oseq (so_seqid xo) rf_req0 rf_state0 Hne Har) as [_ Hagain].
  { unfold check_answer in Ea. repeat case_match; simplify_eq; auto. }
  assert (request_fits id oseq k (with_seqid q s) (with_request oseq op (current_obj d) r (with_confirmed b xo)) d2) as Hq3.
  { constructor; try done; simpl; [|congruence]. destruct Hqn as [->| ->]; [done|]. by apply next_seqid_u. }
  destruct (sequenced_run now' w1' _ _ _ _ _ _ d2 resp Hf3 Hq3 Hs' (Hl' _ (fi_client _ _ _ _ _ _ _ _ Hf3))) as (d3 & _ & ->).
  assert (exists st', check_answer (with_seqid q s) x (with_request oseq op (current_obj d) r (with_confirmed b xo))
    (current_obj d2) (seqid id) true oseq = (st', true)) as [st' ->].
  { rewrite Ho. unfold check_answer in *. simpl. destruct (match current_obj d with Some y => _ | None => _ end); [done|].
    destruct Hagain as [-> | ->]; eauto. }
  rewrite Ho, seq_answer_recorded by (try done; congruence). simpl negb. cbv beta iota.
  erewrite bind_run by done. cbv beta iota. erewrite back_plain by done. eauto.
Qed.

End run.

End seqid.
