(* ===== verification/SeqidTheorems.v ===== *)
(** * At-most-once execution for NFSv4.0 owners, and the contract of the state table *)
From S2P Require Import Prelude Status Owners LockTable Acl Share Lease VfsHandle StateTable StateInv StateOps StateId SeqidInv.
Local Open Scope Z_scope.

Section bodies.
Context `{OwnerMem} {L : Type} `{!LowerLayer L} `{!RequestLayer L}.
Abbreviation VM := (M (v4_world L)).

(** ** What runs once the checks have passed *)

Definition locku_body (arg : LOCKU4args) (lock : fsal_lock_param_t) (a owner : positive) (d : v4_data)
    (resp : nfs_resop4) : VM (nfs_resop4 * v4_data) :=
  '(resp, d) ← locku_execute arg a owner lock d resp;
  mwhen (minorversion d =? 0) (Copy_nfs4_state_req owner (lu_seqid arg) NFS4_OP_LOCKU (current_obj d) resp);;
  mret (resp, d).

Definition confirm_body (arg : OPEN_CONFIRM4args) (a owner : positive) (d : v4_data) (resp : nfs_resop4) :
    VM (nfs_resop4 * v4_data) :=
  o ← get_owner owner;
  if so_confirmed o then mret (with_status NFS4ERR_BAD_STATEID resp, d)
  else
    put_owner owner (with_confirmed true o);;
    '(id, d) ← update_stateid a d;
    let resp := with_res_stateid id resp in
    Copy_nfs4_state_req owner (oc_seqid arg) NFS4_OP_OPEN_CONFIRM (current_obj d) resp;;
    mret (resp, d).

Definition downgrade_body (arg : OPEN_DOWNGRADE4args) (a owner : positive) (d : v4_data) (resp : nfs_resop4) :
    VM (nfs_resop4 * v4_data) :=
  st ← nfs4_do_open_downgrade arg a d;
  let resp := with_status st resp in
  if decide (st <> NFS4_OK) then mret (resp, d)
  else
    '(id, d) ← update_stateid a d;
    let resp := with_res_stateid id resp in
    mwhen (minorversion d =? 0)
      (Copy_nfs4_state_req owner (od_seqid arg) NFS4_OP_OPEN_DOWNGRADE (current_obj d) resp);;
    mret (resp, d).

(** The check of the current file handle, before [m]. *)
Definition checked (t : object_file_type_t) (resp : nfs_resop4) (d : v4_data) (m : nfs_resop4 -> VM (nfs_resop4 * v4_data)) :
    VM (nfs_resop4 * v4_data) :=
  st ← nfs4_sanity_check_FH d t false;
  if decide (st <> NFS4_OK) then mret (with_status st resp, d) else m (with_status st resp).

Lemma locku_shape now arg d resp :
  nfs4_op_locku now arg d resp =
  checked REGULAR_FILE (with_resop NFS4_OP_LOCKU resp) d (fun resp =>
    match locku_desc arg with
    | None => mret (with_status NFS4ERR_INVAL resp, d)
    | Some lock => sequenced (fun d => minorversion d =? 0) now (lu_stateid arg) (lu_seqid arg) NFS4_OP_LOCKU
                     (locku_body arg lock) d resp
    end).
Proof. reflexivity. Qed.

Lemma confirm_shape now arg d resp :
  nfs4_op_open_confirm now arg d resp =
  (if 0 <? minorversion d then mret (with_status NFS4ERR_NOTSUPP (with_resop NFS4_OP_OPEN_CONFIRM resp), d)
   else checked REGULAR_FILE (with_resop NFS4_OP_OPEN_CONFIRM resp) d
     (sequenced (fun _ => true) now (oc_stateid arg) (oc_seqid arg) NFS4_OP_OPEN_CONFIRM (confirm_body arg) d)).
Proof. reflexivity. Qed.

Lemma downgrade_shape now arg d resp :
  nfs4_op_open_downgrade now arg d resp =
  checked NO_FILE_TYPE (with_resop NFS4_OP_OPEN_DOWNGRADE resp) d (fun resp =>
    if decide (current_filetype d <> REGULAR_FILE) then mret (with_status NFS4ERR_INVAL resp, d)
    else sequenced (fun d => minorversion d =? 0) now (od_stateid arg) (od_seqid arg) NFS4_OP_OPEN_DOWNGRADE
           (downgrade_body arg) d resp).
Proof. reflexivity. Qed.

(** ** They record their request *)

Lemma update_stateid_run a s d (w : v4_world L) :
  v4_states w !! a = Some s ->
  let s' := with_seqid (next_seqid (state_seqid s)) s in
  update_stateid a d w = Some ((COPY_STATEID s', set_stateid (COPY_STATEID s') true d), set_states <[a := s']> w).
Proof. intros Ha s'. unfold update_stateid. by rewrite (bind_run _ _ w s w) by by apply get_st_run. Qed.

Lemma Copy_run o xo seq op obj r (w : v4_world L) :
  v4_owners w !! o = Some xo ->
  Copy_nfs4_state_req o seq op obj r w = Some (tt, set_owners <[o := with_request seq op obj r xo]> w).
Proof. intros Ho. unfold Copy_nfs4_state_req. by rewrite (bind_run _ _ w xo w) by by apply get_owner_run. Qed.

(** A recorded request that left the state alone, or gave it its next sequence id. *)
Lemma recorded_same op oseq a o s xo cur r (w : v4_world L) f :
  v4_states w !! a = Some s ->
  recorded op oseq a o s xo cur r w (set_owners <[o := with_request oseq op cur r xo]> (set_v4_lock f w)).
Proof.
  intros Ha. exists (state_seqid s), (so_confirmed xo), f. split; [by left|].
  apply v4_world_ext; simpl; try done.
  rewrite insert_id; [done|]. rewrite Ha. by destruct s.
Qed.

Lemma recorded_next op oseq a o s xo cur r (w : v4_world L) f b :
  recorded op oseq a o s xo cur r w
    (set_owners <[o := with_request oseq op cur r (with_confirmed b xo)]>
      (set_states <[a := with_seqid (next_seqid (state_seqid s)) s]> (set_v4_lock f w))).
Proof. exists (next_seqid (state_seqid s)), b, f. split; [by right|]. by apply v4_world_ext. Qed.

Lemma locku_execute_run arg a o lock d resp (w : v4_world L) s r d1 w1 :
  v4_states w !! a = Some s -> locku_execute arg a o lock d resp w = Some ((r, d1), w1) ->
  minorversion d1 = minorversion d /\ current_obj d1 = current_obj d /\
  exists f, w1 = set_v4_lock f w \/
    w1 = set_states <[a := with_seqid (next_seqid (state_seqid s)) s]> (set_v4_lock f w).
Proof.
  intros Ha. assert (set_v4_lock (fun l => l) w = w) as Hid by by destruct w. unfold locku_execute.
  destruct (lu_length arg =? 0). { intros E. injection E as <- <- <-. split; [done|]. split; [done|]. eauto. }
  destruct (_ <? lock_length lock). { intros E. injection E as <- <- <-. split; [done|]. split; [done|]. eauto. }
  set (d0 := if minorversion d =? 0 then set_ctx_clientid (Some o) d else d).
  assert (minorversion d0 = minorversion d /\ current_obj d0 = current_obj d) as [Hm Ho] by (subst d0; by destruct (_ =? _)).
  destruct (current_obj d0) as [y|] eqn:Ey; [|done]. rewrite (bind_run (deref (Some y)) _ w y w) by done.
  unfold mbind at 1, M_bind at 1. unfold lower. destruct (state_unlock_op y a o _ (v4_lock w)) as [[st l]|]; [|done].
  case_decide.
  { intros E. injection E as <- <- <-. split; [done|]. split; [congruence|]. eauto. }
  rewrite Hm. set (d2 := if minorversion d =? 0 then set_ctx_clientid None d0 else d0).
  assert (minorversion d2 = minorversion d /\ current_obj d2 = current_obj d) as [Hm2 Ho2]
    by (subst d2; destruct (_ =? _); simpl; split; congruence).
  erewrite bind_run by by apply update_stateid_run. intros E. injection E as <- <- <-.
  split; [done|]. split; [done|]. eauto.
Qed.

Lemma locku_body_ok arg lock : body_ok NFS4_OP_LOCKU (lu_seqid arg) (fun _ => True) (locku_body arg lock).
Proof.
  intros a o d resp w s xo r d1 w1 Ha Ho Hm Hrun _. unfold locku_body in Hrun.
  destruct (locku_execute arg a o lock d resp w) as [[[r' d'] w']|] eqn:E.
  2:{ unfold mbind, M_bind in Hrun. by rewrite E in Hrun. }
  erewrite bind_run in Hrun by done. cbv beta iota in Hrun.
  destruct (locku_execute_run _ _ _ _ _ _ _ _ _ _ _ Ha E) as (Hm' & Ho' & f & Hw).
  rewrite Hm', Hm in Hrun. simpl mwhen in Hrun. rewrite Ho' in Hrun.
  erewrite bind_run in Hrun; [|apply Copy_run; destruct Hw as [->| ->]; exact Ho]. injection Hrun as <- <- <-.
  destruct Hw as [->| ->]; [by apply recorded_same|].
  replace xo with (with_confirmed (so_confirmed xo) xo) at 2 by by destruct xo. apply recorded_next.
Qed.

Definition answered_ok (r : nfs_resop4) : Prop := status r = NFS4_OK.

Lemma confirm_body_ok arg :
  body_ok NFS4_OP_OPEN_CONFIRM (oc_seqid arg) answered_ok (confirm_body arg).
Proof.
  intros a o d resp w s xo r d1 w1 Ha Ho Hm Hrun Hok. unfold confirm_body in Hrun.
  rewrite (bind_run _ _ w xo w) in Hrun by by apply get_owner_run. destruct (so_confirmed xo).
  { injection Hrun as <- <- <-. done. }
  erewrite bind_run in Hrun by done. erewrite bind_run in Hrun by by apply update_stateid_run. cbv beta iota zeta in Hrun.
  erewrite bind_run in Hrun; [|apply Copy_run; simpl; apply lookup_insert_eq]. injection Hrun as <- <- <-.
  exists (next_seqid (state_seqid s)), true, (fun l => l). split; [by right|].
  apply v4_world_ext; simpl; try done. by rewrite insert_insert_eq.
Qed.

Lemma downgrade_body_ok arg :
  body_ok NFS4_OP_OPEN_DOWNGRADE (od_seqid arg) answered_ok (downgrade_body arg).
Proof.
  intros a o d resp w s xo r d1 w1 Ha Ho Hm Hrun Hok. unfold downgrade_body in Hrun.
  destruct (nfs4_do_open_downgrade arg a d w) as [[st w']|] eqn:E.
  2:{ unfold mbind, M_bind in Hrun. by rewrite E in Hrun. }
  erewrite bind_run in Hrun by done. case_decide as Hst; [injection Hrun as <- <- <-; done|].
  assert (exists f, w' = set_v4_lock f w) as [f ->].
  { unfold nfs4_do_open_downgrade in E. rewrite (bind_run _ _ w s w) in E by by apply get_st_run.
    destruct (state_data s); try done. assert (w = set_v4_lock (fun l => l) w) as Hid by by destruct w.
    destruct (negb _); [injection E as <- <-; eauto|]. destruct (negb _); [injection E as <- <-; eauto|].
    destruct (_ || _); [injection E as <- <-; eauto|].
    destruct (current_obj d) as [y|]; [|done]. rewrite (bind_run (deref (Some y)) _ w y w) in E by done.
    unfold mbind, M_bind, lower in E. destruct (fsal_reopen2 y a _ (v4_lock w)) as [fs l].
    case_decide; injection E as <- <-; eauto. }
  erewrite bind_run in Hrun by by apply update_stateid_run. cbv beta iota zeta in Hrun. simpl minorversion in Hrun. rewrite Hm in Hrun. simpl mwhen in Hrun.
  erewrite bind_run in Hrun; [|apply Copy_run; exact Ho]. injection Hrun as <- <- <-.
  replace xo with (with_confirmed (so_confirmed xo) xo) at 2 by by destruct xo. apply recorded_next.
Qed.

(** ** CLOSE *)

(** What is left of [w] when some states other than [a] have been deleted. *)
Record others_deleted (a : positive) (l : list positive) (w w' : v4_world L) : Prop := {
  od_state : v4_states w' !! a = v4_states w !! a;
  od_id s : v4_states w !! a = Some s -> is_hashed w a s -> is_hashed w' a s;
  od_confirmed : ht_confirmed_client_id w' = ht_confirmed_client_id w;
  od_clients c xc : v4_clients w !! c = Some xc -> exists n, v4_clients w' !! c = Some (with_client_refs n xc);
  od_locks b : b ∈ list_at a (share_lockstates w') -> b ∈ list_at a (share_lockstates w) /\ b ∉ l
}.

(** The loop over the lock states of an open state. *)
Lemma wp_delete_states now h a l w :
  NoDup l -> a ∉ l ->
  (forall b, b ∈ l -> exists s, v4_states w !! b = Some s /\ is_hashed w b s /\ state_type s = STATE_TYPE_LOCK) ->
  v4_inv h w -> settled w ->
  wp (delete_states now l) (fun _ w' => v4_inv h w' /\ settled w' /\ others_deleted a l w w') w.
Proof.
  revert w. induction l as [|b l IH]; intros w Hnd Ha Hl Hi Hs.
  { simpl. wp_step. split; [done|]. split; [done|]. constructor; try done; [intros c [] ?; by eexists|].
    intros b Hb. split; [done|]. apply not_elem_of_nil. }
  apply NoDup_cons in Hnd as [Hb Hnd]. apply not_elem_of_cons in Ha as [Hab Ha].
  destruct (Hl b ltac:(by left)) as (sb & Hsb & Hhb & Htb). simpl. wp_step.
  eapply wp_mono; [apply (wp_state_del_locked _ _ h w b sb); try done; by rewrite Htb|].
  intros _ w1 [Hi1 Hd]. pose proof (settled_deleted _ _ _ _ Hsb Hhb Hd Hs) as Hs1. destruct Hd as [[] I G K].
  assert (forall c t, c <> b -> v4_states w !! c = Some t -> is_hashed w c t -> is_hashed w1 c t) as Hkeep.
  { intros c t Hc Ht Hh. unfold is_hashed in *. rewrite I, lookup_delete_ne; [done|]. intros E. rewrite E in Hhb. congruence. }
  eapply wp_mono; [apply IH; try done|].
  - intros c Hc. destruct (Hl c ltac:(by right)) as (sc & Hsc & Hhc & Htc). exists sc.
    assert (c <> b) by (intros ->; done). rewrite df_states by done. auto.
  - intros _ w2 (Hi2 & Hs2 & []). split; [done|]. split; [done|]. constructor.
    + rewrite od_state0. by apply df_states.
    + intros s Has Hh. apply od_id0; [by rewrite df_states|]. by apply Hkeep.
    + congruence.
    + intros c xc (n & Hn)%df_clients. destruct (od_clients0 _ _ Hn) as [m Hm]. by exists m.
    + intros c Hc. apply od_locks0 in Hc as [Hc Hcl]. assert (c <> b) as Hcb by (intros ->; by apply (K a)).
      split; [|by rewrite not_elem_of_cons]. destruct (df_lockstates a) as [E|E]; rewrite E in Hc; [done|].
      by apply elem_of_remove_id in Hc as [? _].
Qed.

Lemma lockstates_run a s w locks w' :
  v4_states w !! a = Some s -> lockstates_to_close a w = Some (locks, w') ->
  w' = w /\ (state_type s = STATE_TYPE_SHARE /\ locks = list_at a (share_lockstates w) \/
             state_type s = STATE_TYPE_LOCK /\ locks = []).
Proof.
  intros Ha. unfold lockstates_to_close. rewrite (bind_run _ _ w s w) by by apply get_st_run.
  destruct (state_type s); try done.
  - intros E. injection E as <- <-. auto.
  - erewrite bind_run by done. destruct (has_locks (v4_lock w) a); [done|]. intros E. injection E as <- <-. auto.
Qed.

(** Both deletions of a close: the lock states, then the state itself. *)
Lemma wp_close_states now h w a s locks :
  v4_inv h w -> settled w -> v4_states w !! a = Some s -> is_hashed w a s ->
  (state_type s = STATE_TYPE_SHARE /\ locks = list_at a (share_lockstates w) \/
   state_type s = STATE_TYPE_LOCK /\ locks = []) ->
  wp (delete_states now locks;; state_del_locked lease_lifetime now a) (fun _ w' =>
    v4_inv h w' /\ ht_state_id w' !! stateid_other s = None /\
    (forall t, v4_states w' !! a = Some t -> state_export t = None /\ state_owner t = None /\ state_obj t = None) /\
    ht_confirmed_client_id w' = ht_confirmed_client_id w /\
    (forall c xc, v4_clients w !! c = Some xc -> exists n, v4_clients w' !! c = Some (with_client_refs n xc))) w.
Proof.
  intros Hi Hs Ha Hh Hl.
  assert (forall b, b ∈ locks -> exists sb, v4_states w !! b = Some sb /\ is_hashed w b sb /\
    state_type sb = STATE_TYPE_LOCK) as Hlock.
  { intros b Hb. destruct Hl as [[_ ->]|[_ ->]]; [|by apply elem_of_nil in Hb].
    destruct (vi_lockstates _ _ Hi a b Hb) as (sb & Hsb & Ht & He). exists sb. auto. }
  wp_step. eapply wp_mono; [apply (wp_delete_states now h a locks w); try done|].
  - destruct Hl as [[_ ->]|[_ ->]]; [apply Hi|constructor].
  - intros Hin. destruct (Hlock a Hin) as (sb & Hsb & _ & Ht). rewrite Ha in Hsb. injection Hsb as <-.
    destruct Hl as [[Hl _]|[_ ->]]; [congruence|by apply elem_of_nil in Hin].
  - intros _ w1 (Hi1 & Hs1 & []). rewrite <- od_state0 in Ha.
    assert (is_hashed w1 a s) as Hh1 by (apply od_id0; congruence).
    eapply wp_mono; [apply (wp_state_del_locked _ _ h w1 a s); try done|].
    + intros Ht. destruct Hl as [[_ ->]|[Hl _]]; [|congruence].
      destruct (list_at a (share_lockstates w1)) as [|b l] eqn:El; [done|].
      destruct (od_locks0 b ltac:(by left)). done.
    + intros _ w2 [Hi2 [[] I G K]]. split; [done|]. split; [rewrite I; apply lookup_delete_eq|]. split; [done|].
      split; [congruence|]. intros c xc (n & Hn)%od_clients0. destruct (df_clients _ _ Hn) as [m Hm]. by exists m.
Qed.

(** A close that goes through: the stateid is no longer in the table, the client still is. *)
Lemma close_execute_run now h w a s x d resp r d1 w1 :
  v4_inv h w -> settled w -> v4_states w !! a = Some s -> is_hashed w a s -> minorversion d = 0 ->
  close_execute now a x d resp w = Some ((r, d1), w1) ->
  minorversion d1 = 0 /\
  (r = with_status NFS4ERR_LOCKS_HELD resp /\ w1 = w \/
   r = with_status NFS4_OK (with_res_stateid (COPY_STATEID (with_seqid (next_seqid (state_seqid s)) s)) resp) /\
   v4_inv h w1 /\ ht_state_id w1 !! stateid_other s = None /\
   (forall t, v4_states w1 !! a = Some t -> state_export t = None /\ state_owner t = None /\ state_obj t = None) /\
   ht_confirmed_client_id w1 = ht_confirmed_client_id w /\
   (forall c xc, v4_clients w !! c = Some xc -> exists n, v4_clients w1 !! c = Some (with_client_refs n xc))).
Proof.
  intros Hi Hs Ha Hh Hm. unfold close_execute. rewrite (bind_run _ _ w s w) by by apply get_st_run.
  destruct (lockstates_to_close a w) as [[locks w0]|] eqn:El.
  2:{ unfold mbind, M_bind. by rewrite El. }
  destruct (lockstates_run _ _ _ _ _ Ha El) as [-> Hlocks]. erewrite bind_run by done. erewrite bind_run by done.
  destruct (existsb _ _); [intros E; injection E as <- <- <-; auto|].
  rewrite Hm. simpl (0 =? 0). cbv iota. erewrite bind_run by by apply update_stateid_run. cbv beta iota zeta.
  set (s' := with_seqid _ s). set (w2 := set_states _ w).
  assert (v4_inv h w2) as Hi2.
  { eapply inv_update_state; [done|done|done|apply Hi|simpl; lia|done]. }
  assert (settled w2) as Hs2.
  { intros b t Hb Ht. unfold is_hashed. simpl in *. rewrite lookup_insert in Hb. case_decide; simplify_eq; [done|].
    by apply Hs. }
  pose proof (wp_close_states now h w2 a s' locks Hi2 Hs2 ltac:(apply lookup_insert_eq) Hh Hlocks) as Hwp.
  apply wp_run in Hwp as ([] & w3 & Hrun & Hi3 & Hid & Hgone & Hconf & Hcl).
  unfold mbind at 1, M_bind at 1 in Hrun. unfold mbind at 1, M_bind at 1.
  destruct (delete_states now locks w2) as [[[] w2']|]; [|done]. erewrite bind_run by done. simpl current_obj. simpl minorversion.
  destruct (current_obj d); [|done]. erewrite bind_run by done. rewrite Hm. simpl mwhen at 1. erewrite bind_run by done.
  simpl (0 =? 0). cbv iota. unfold mwhen. destruct (has _ _ && _).
  - destruct (v4_files w3 !! x) as [f|] eqn:Ef.
    + rewrite (bind_run _ _ w3 tt (set_files <[x := with_write_opens (u32 (fds_num_write_opens f - 1)) f]> w3)).
      2:{ unfold get_file, gets, deref, mbind, M_bind. by rewrite Ef. }
      intros E. injection E as <- <- <-. split; [done|]. right. split; [done|]. simpl. split; [by eapply inv_update_file|]. auto.
    + unfold get_file, gets, deref, mbind, M_bind. rewrite Ef. done.
  - erewrite bind_run by done. intros E. injection E as <- <- <-. split; [done|]. right. auto 10.
Qed.

(** The response a CLOSE starts from. *)
Definition close_resp : nfs_resop4 :=
  {| resop := NFS4_OP_CLOSE; status := NFS4_OK; res_stateid := {| seqid := 0; other := all_zero |} |}.

(** From the replay check to the end. *)
Definition close_rest (now : Z) (arg : CLOSE4args) (a x o : positive) (d : v4_data) (resp : nfs_resop4) :
    VM (nfs_resop4 * v4_data) :=
  '(go, resp) ← (if minorversion d =? 0 then Check_nfs4_seqid o (cl_seqid arg) NFS4_OP_CLOSE (Some x) resp
                 else mret (true, resp));
  '(resp, d) ← (if negb (go : bool) then mret (resp, d)
                else
                  '(resp, d) ← close_execute now a x d resp;
                  mwhen (minorversion d =? 0) (Copy_nfs4_state_req o (cl_seqid arg) NFS4_OP_CLOSE (Some x) resp);;
                  mret (resp, d));
  dec_state_owner_ref o;;
  put_ref x;;
  dec_nfs4_state_ref a;;
  mret (resp, d).

(** All of it after the check of the file handle. *)
Definition close_checked (now : Z) (arg : CLOSE4args) (d : v4_data) (resp : nfs_resop4) : VM (nfs_resop4 * v4_data) :=
  '(st, state_found, open_stateid, d) ← nfs4_Check_Stateid now (cl_stateid arg) (current_obj d) d
    (if minorversion d =? 0 then STATEID_SPECIAL_FOR_CLOSE_40 else STATEID_SPECIAL_FOR_CLOSE_41)
    (cl_seqid arg) (minorversion d =? 0);
  if bool_decide (st <> NFS4_OK) && bool_decide (st <> NFS4ERR_REPLAY)
  then mret (with_status st resp, d)
  else
    refs ← get_state_obj_owner_refs state_found;
    match state_found, refs with
    | Some a, Some (obj, owner) => close_rest now arg a obj owner d resp
    | _, _ =>
        match state_found with Some a => dec_nfs4_state_ref a | None => mret tt end;;
        mret (with_res_stateid {| seqid := next_seqid (seqid open_stateid); other := other open_stateid |}
                (with_status NFS4_OK resp), d)
    end.

Lemma close_shape now arg d : nfs4_op_close now arg d = checked REGULAR_FILE close_resp d (close_checked now arg d).
Proof. reflexivity. Qed.

Lemma close_run now arg w k a s o x xo xc d :
  finds w k a s o x xo xc -> request_fits (cl_stateid arg) (cl_seqid arg) k s xo d ->
  fresh_lease_slot d o -> can_reserve now xc = true ->
  let g := reserve_clients o xc now d in
  exists d', same_ctx d d' /\
  close_checked now arg d close_resp w =
  (let '(st, keep) := check_answer s x xo (current_obj d) (seqid (cl_stateid arg)) true (cl_seqid arg) in
   if negb keep then Some ((with_status st close_resp, d'), set_clients g w)
   else close_rest now arg a x o d' close_resp (grabbed a s o x xo (set_clients g w))).
Proof.
  intros Hf Hq Hs Hr g. pose proof Hq as [].
  assert ((minorversion d =? 0) = true) as Hm by by rewrite rf_minor.
  pose proof (check_hashed w k a s o x xo xc Hf now (cl_stateid arg) (current_obj d) d STATEID_SPECIAL_FOR_CLOSE_40
    (cl_seqid arg) true rf_other rf_plain rf_epoch Hs Hr) as Hc.
  destruct (check_answer s x xo (current_obj d) _ true _) as [st keep] eqn:Ea. destruct Hc as (d' & Hd & Hc).
  exists d'. split; [done|]. unfold close_checked. rewrite Hm.
  erewrite bind_run by done. destruct keep; simpl negb; cbv iota.
  - assert (bool_decide (st <> NFS4_OK) && bool_decide (st <> NFS4ERR_REPLAY) = false) as ->.
    { unfold check_answer in Ea. repeat case_match; simplify_eq; done. }
    destruct (finds_reserved k w a s o x xo xc now d Hf) as [xc1 Hf1]. fold g in Hf1.
    rewrite (bind_run _ _ _ (Some (x, o)) (grabbed a s o x xo (set_clients g w))); [done|].
    exact (get_obj_owner_refs_run (set_clients g w) k a s o x xo xc1 Hf1).
  - assert (bool_decide (st <> NFS4_OK) && bool_decide (st <> NFS4ERR_REPLAY) = true) as ->; [|done].
    unfold check_answer in Ea. repeat case_match; simplify_eq; done.
Qed.

(** Giving back what a close has taken. *)
Lemma close_back w k a s o x xo xc rq (r : nfs_resop4) (d : v4_data) :
  finds w k a s o x xo xc -> (forall n y, rq (with_owner_refs n y) = with_owner_refs n (rq y)) ->
  so_refcount (rq xo) = so_refcount xo ->
  (dec_state_owner_ref o;; put_ref x;; dec_nfs4_state_ref a;; mret (r, d))
    (set_owners <[o := rq (with_owner_refs (so_refcount xo + 1) xo)]> (grabbed a s o x xo w))
  = Some ((r, d), set_owners <[o := rq xo]> w).
Proof.
  intros Hf Hrq Hn. pose proof Hf as [].
  erewrite bind_run; [|apply (dec_owner_back o (rq xo)); [simpl; rewrite lookup_insert_eq, Hrq; by rewrite Hn|by rewrite Hn]].
  erewrite bind_run by done. erewrite bind_run; [|apply (dec_state_back a s); [simpl; apply lookup_insert_eq|done]].
  unfold mret, M_ret. f_equal. f_equal. apply v4_world_ext; simpl; try done.
  - rewrite insert_insert_eq. by apply insert_id.
  - by rewrite !insert_insert_eq.
  - by apply ref_add_back.
Qed.

(** A CLOSE that is answered from the record, or refused by the replay check. *)
Lemma close_refused now arg w k a s o x xo xc d r :
  finds w k a s o x xo xc -> minorversion d = 0 ->
  seq_answer xo (cl_seqid arg) NFS4_OP_CLOSE (Some x) close_resp = (false, r) ->
  close_rest now arg a x o d close_resp (grabbed a s o x xo w) = Some ((r, d), w).
Proof.
  intros Hf Hm Hsq. unfold close_rest. rewrite Hm. simpl (0 =? 0). cbv iota.
  erewrite bind_run; [|apply Check_nfs4_seqid_run; simpl; apply lookup_insert_eq].
  change (seq_answer (with_owner_refs (so_refcount xo + 1) xo)) with (seq_answer xo). rewrite Hsq. cbv beta iota.
  erewrite bind_run by done. cbv beta iota.
  assert (grabbed a s o x xo w = set_owners <[o := (fun y => y) (with_owner_refs (so_refcount xo + 1) xo)]>
            (grabbed a s o x xo w)) as ->.
  { apply v4_world_ext; simpl; try done. by rewrite insert_insert_eq. }
  rewrite (close_back w k a s o x xo xc (fun y => y) r d Hf) by done. f_equal. f_equal. destruct Hf. apply v4_world_ext; simpl; try done. by apply insert_id.
Qed.

Lemma inv_grabbed h w k a s o x xo xc :
  v4_inv h w -> finds w k a s o x xo xc ->
  v4_inv (hold (R_owner o) (hold (R_obj x) (hold (R_state a) h))) (grabbed a s o x xo w).
Proof.
  intros Hi []. unfold grabbed, kept.
  assert (v4_inv (hold (R_obj x) (hold (R_state a) h)) (set_obj_refs (ref_add x 1)
    (set_states <[a := with_state_refs (state_refcount s + 1) s]> w))) as Hi2.
  { apply inv_get_ref. eapply inv_update_state; [done|done|apply hold_agree| | |done]; rewrite hold_at; simpl; [|lia].
    pose proof (vi_holds _ _ Hi (R_state a)). lia. }
  eapply inv_update_owner; [done|apply hold_agree| | |done]; rewrite hold_at; simpl; [|lia].
  pose proof (vi_holds _ _ Hi2 (R_owner o)). lia.
Qed.

Lemma inv_reserved h w o xc now d :
  v4_inv h w -> v4_clients w !! so_clientrec o = Some xc -> v4_inv h (set_clients (reserve_clients o xc now d) w).
Proof.
  intros Hi Hc. unfold reserve_clients. case_decide; [by rewrite set_clients_id|].
  eapply inv_update_client; [done|done| |simpl; lia|done]. by eapply vi_client_refs.
Qed.

Lemma dec_state_frame a (w w' : v4_world L) u : dec_nfs4_state_ref a w = Some (u, w') -> exists f, w' = set_states f w.
Proof.
  unfold dec_nfs4_state_ref, get_st, gets, deref, mbind, M_bind. destruct (v4_states w !! a) as [t|]; [|done]. simpl.
  destruct (_ <? 0); [done|]. destruct (0 <? _); intros E; injection E as <- <-; by eexists.
Qed.

(** The client a stateid was made for is confirmed. *)
Definition client_known (w : v4_world L) (k : list Z) (o : positive) : Prop :=
  ht_confirmed_client_id w !! le_value (take 8 k) = Some (so_clientrec o) /\
  Z.shiftr (le_value (take 8 k)) 32 = epoch_low.

(** Its record can be used at [now]. *)
Definition client_usable (now : Z) (o : positive) (w : v4_world L) : Prop :=
  forall xc, v4_clients w !! so_clientrec o = Some xc ->
    can_reserve now xc = true /\ cid_confirmed (cid_lease xc) <> STALE_CLIENT_ID.

Lemma epoch_low_u : 0 <= epoch_low < 2 ^ 32.
Proof.
  unfold epoch_low. change 0xFFFFFFFF with (Z.ones 32). rewrite Z.land_ones by lia. apply Z.mod_pos_bound. lia.
Qed.

Lemma known_epoch w k o : client_known w k o -> epoch_ok k.
Proof.
  intros [_ E]. unfold epoch_ok. rewrite E. apply wrapu_small. unfold in_u. apply epoch_low_u.
Qed.

(** A stateid that is gone, of a client that is not: the close counts as done. *)
Lemma close_gone now arg w k o xc d :
  other (cl_stateid arg) = k -> plain_id (cl_stateid arg) -> minorversion d = 0 -> preserved_clientid d = None ->
  ht_state_id w !! k = None -> client_known w k o -> client_usable now o w ->
  v4_clients w !! so_clientrec o = Some xc ->
  exists d' f, close_checked now arg d close_resp w
    = Some ((with_res_stateid {| seqid := next_seqid (seqid (cl_stateid arg)); other := k |}
              (with_status NFS4_OK close_resp), d'), set_clients f w).
Proof.
  intros Hk [Hz Ho] Hm Hp Hid Hkn Hu Hc. pose proof (known_epoch _ _ _ Hkn) as He. destruct Hkn as [Hcf Hep].
  destruct (Hu _ Hc) as [Hr Hst]. unfold close_checked. rewrite Hm.
  simpl (0 =? 0). cbv iota.
  assert (exists f, nfs4_Check_Stateid now (cl_stateid arg) (current_obj d) d STATEID_SPECIAL_FOR_CLOSE_40 (cl_seqid arg) true w
    = Some ((NFS4_OK, None, cl_stateid arg, set_valid false d), set_clients f w)) as [f Hck].
  { unfold nfs4_Check_Stateid, check_special. rewrite decide_False, decide_False by done. rewrite Hk.
    unfold epoch_ok in He. rewrite He, Z.eqb_refl. cbn [negb]. cbv beta iota zeta.
    set (xc1 := with_client_refs (cid_refcount xc + 1) xc).
    exists (fun m => <[so_clientrec o := with_lease (update_lease now (set_reservations
      (cid_lease_reservations (cid_lease xc) + 1) (cid_lease xc))) xc1]> (<[so_clientrec o := xc1]> m)).
    rewrite (bind_run (nfs4_State_Get_Pointer k) _ w None w). 2:{ unfold nfs4_State_Get_Pointer. erewrite bind_run by done. by rewrite Hid. }
    erewrite bind_run by done. unfold check_not_found.
    rewrite (bind_run _ _ w (CLIENT_ID_SUCCESS, Some (so_clientrec o)) (set_clients <[so_clientrec o := xc1]> w)).
    2:{ unfold nfs_client_id_get_confirmed. rewrite Hep, Z.eqb_refl. cbn [negb]. cbv iota. erewrite bind_run by done.
        rewrite Hcf. unfold inc_client_id_ref. rewrite (bind_run _ _ w tt (set_clients <[so_clientrec o := xc1]> w)).
        2:{ by rewrite (bind_run _ _ w xc w) by by apply get_client_run. }
        erewrite bind_run; [|apply get_client_run; simpl; apply lookup_insert_eq]. simpl. by rewrite decide_False. }
    cbv beta iota. change (has STATEID_SPECIAL_FOR_CLOSE_40 (Z.lor STATEID_SPECIAL_CLOSE_40 STATEID_SPECIAL_CLOSE_41)) with true.
    cbv iota. unfold release_preserved. rewrite Hp. erewrite bind_run by done. unfold reserve_or_expire.
    unfold mbind at 1, M_bind at 1.
    erewrite bind_run; [|apply get_client_run; simpl; apply lookup_insert_eq]. unfold reserve_lease_or_expire.
    unfold can_reserve in Hr. apply negb_true_iff in Hr. change (cid_lease xc1) with (cid_lease xc). rewrite Hr. cbv beta iota.
    reflexivity. }
  erewrite bind_run by done. cbv beta iota.
  exists (set_valid false d), f. rewrite <- Hk. reflexivity.
Qed.

(** The stateid is out of the table, the clients are still there. *)
Record closed (k : list Z) (w w1 : v4_world L) : Prop := {
  cd_id : ht_state_id w1 !! k = None;
  cd_confirmed : ht_confirmed_client_id w1 = ht_confirmed_client_id w;
  cd_clients c : is_Some (v4_clients w !! c) -> is_Some (v4_clients w1 !! c)
}.

(** Recording the answer and giving back the references keeps it so. *)
Lemma closed_tail h k w0 w a o x rq (r r' : nfs_resop4) (d d' : v4_data) w1 :
  v4_inv h w -> 1 <= h (R_owner o) -> closed k w0 w ->
  (forall y, so_refcount (rq y) = so_refcount y) ->
  (y ← get_owner o; put_owner o (rq y)) w = Some (tt, w1) ->
  forall w2, (dec_state_owner_ref o;; put_ref x;; dec_nfs4_state_ref a;; mret (r, d)) w1 = Some ((r', d'), w2) ->
  r' = r /\ d' = d /\ closed k w0 w2.
Proof.
  intros Hi Hh [] Hrq Hc w2.
  unfold get_owner, gets, deref, put_owner, modify, mbind, M_bind in Hc.
  destruct (v4_owners w !! o) as [y|] eqn:Ho; [|done]. injection Hc as <-.
  assert (v4_inv h (set_owners <[o := rq y]> w)) as Hi1.
  { eapply inv_update_owner; [done|done|apply Hi|rewrite Hrq; lia|done]. }
  pose proof (wp_dec_state_owner_ref h (set_owners <[o := rq y]> w) o ltac:(simpl; rewrite lookup_insert_eq; by eexists) Hh Hi1) as Hwp.
  apply wp_run in Hwp as ([] & w3 & Hrun & Hi3 & [E C _]).
  rewrite (bind_run _ _ _ tt w3) by done. erewrite bind_run by done. unfold mbind, M_bind.
  destruct (dec_nfs4_state_ref a _) as [[[] w4]|] eqn:Ed; [|done]. intros Ew. injection Ew as <- <- <-.
  destruct (dec_state_frame _ _ _ _ Ed) as [f ->]. split; [done|]. split; [done|].
  pose proof (f_equal ht_state_id E) as E1. pose proof (f_equal ht_confirmed_client_id E) as E2. simpl in E1, E2.
  constructor; simpl; [congruence|congruence|]. intros c [xc Hxc]%cd_clients0.
  destruct (C c xc Hxc) as [n ->]. by eexists.
Qed.

Lemma settled_grabbed a s o x xo (w : v4_world L) :
  settled w -> v4_states w !! a = Some s -> settled (grabbed a s o x xo w).
Proof.
  intros Hs Ha b t Hb Ht. unfold is_hashed in *. simpl in *. rewrite lookup_insert in Hb.
  case_decide; simplify_eq; [apply (Hs _ s)|apply (Hs _ t)]; done.
Qed.

Lemma bind_assoc {A B C} (m : VM A) (f : A -> VM B) (g : B -> VM C) w :
  ((m ≫= f) ≫= g) w = (m ≫= fun y => f y ≫= g) w.
Proof. unfold mbind, M_bind. by destruct (m w) as [[? ?]|]. Qed.

(** The request goes through: it is answered LOCKS_HELD, or the stateid is closed. *)
Lemma close_rest_run now arg h w a s o x xo xc d r d1 w1 :
  v4_inv h w -> settled w -> finds w (stateid_other s) a s o x xo xc -> minorversion d = 0 ->
  seq_answer xo (cl_seqid arg) NFS4_OP_CLOSE (Some x) close_resp = (true, close_resp) ->
  close_rest now arg a x o d close_resp (grabbed a s o x xo w) = Some ((r, d1), w1) ->
  (r = with_status NFS4ERR_LOCKS_HELD close_resp /\
   w1 = set_owners <[o := with_request (cl_seqid arg) NFS4_OP_CLOSE (Some x) r xo]> w) \/
  (r = with_status NFS4_OK (with_res_stateid (COPY_STATEID (with_seqid (next_seqid (state_seqid s)) s)) close_resp) /\
   closed (stateid_other s) w w1).
Proof.
  intros Hi Hs Hf Hm Hsq. pose proof Hf as []. set (g := grabbed a s o x xo w).
  assert (v4_inv (hold (R_owner o) (hold (R_obj x) (hold (R_state a) h))) g) as Hg by by eapply inv_grabbed.
  set (h' := hold _ _) in Hg. unfold close_rest. rewrite Hm. simpl (0 =? 0). cbv iota.
  erewrite bind_run; [|apply Check_nfs4_seqid_run; simpl; apply lookup_insert_eq].
  change (seq_answer (with_owner_refs (so_refcount xo + 1) xo)) with (seq_answer xo). rewrite Hsq. cbn [negb]. cbv beta iota.
  rewrite bind_assoc. destruct (close_execute now a x d close_resp g) as [[[r0 d0] w0]|] eqn:Ex.
  2:{ unfold mbind at 1, M_bind at 1. by rewrite Ex. }
  erewrite bind_run by done. cbv beta iota. rewrite bind_assoc.
  destruct (close_execute_run now h' g a (with_state_refs (state_refcount s + 1) s) x d close_resp r0 d0 w0 Hg)
    as [Hm0 Hcase]; try done; [by apply settled_grabbed|simpl; apply lookup_insert_eq|].
  rewrite Hm0. simpl (0 =? 0). unfold mwhen.
  destruct Hcase as [[-> ->]|(Er & Hi0 & Hid & _ & Hcf & Hcl)].
  - erewrite bind_run; [|apply Copy_run; simpl; apply lookup_insert_eq]. erewrite bind_run by done. cbv beta iota.
    rewrite (close_back w _ a s o x xo xc (with_request (cl_seqid arg) NFS4_OP_CLOSE (Some x) _) _ d0 Hf) by done.
    intros E. injection E as <- <- <-. by left.
  - destruct (Copy_nfs4_state_req o (cl_seqid arg) NFS4_OP_CLOSE (Some x) r0 w0) as [[[] w3]|] eqn:Ec.
    2:{ unfold mbind at 1, M_bind at 1. by rewrite Ec. }
    do 2 (erewrite bind_run by done). cbv beta iota. intros Hrun.
    assert (1 <= h' (R_owner o)) as Hho.
    { subst h'. rewrite hold_at. unfold hold. rewrite !decide_False by done. pose proof (vi_holds _ _ Hi (R_owner o)). lia. }
    assert (closed (stateid_other s) w w0) as Hcd.
    { constructor; [done|done|]. intros c [xc' Hc]. destruct (Hcl c xc' Hc) as [n ->]. by eexists. }
    destruct (closed_tail h' (stateid_other s) w w0 a o x (with_request (cl_seqid arg) NFS4_OP_CLOSE (Some x) r0)
      r0 r d0 d1 w3 Hi0 Hho Hcd (fun y => eq_refl) Ec w1 Hrun) as (-> & _ & Hcd1). right. by rewrite Er.
Qed.

(** The checks of the current file handle depend on the request alone. *)
Lemma sanity_ctx d d2 t b : same_ctx d d2 -> nfs4_sanity_check_FH (L := L) d2 t b = nfs4_sanity_check_FH d t b.
Proof.
  intros (_ & E1 & E2 & E3 & E4 & E5). unfold nfs4_sanity_check_FH. by rewrite E1, E2, E3, E4, E5.
Qed.

Lemma sanity_run d t b (w : v4_world L) st w' :
  nfs4_sanity_check_FH d t b w = Some (st, w') -> w' = w /\ forall w2, nfs4_sanity_check_FH (L := L) d t b w2 = Some (st, w2).
Proof.
  unfold nfs4_sanity_check_FH, mret, M_ret, undef. repeat case_match; intros E; try done; injection E as <- <-; done.
Qed.

(** A CLOSE that is sent again is checked against what the first one left. *)
Lemma close_again now arg w k a s o x xo xc d r :
  finds w k a s o x xo xc -> request_fits (cl_stateid arg) (cl_seqid arg) k s xo d ->
  preserved_clientid d = None -> can_reserve now xc = true ->
  (let '(st, keep) := check_answer s x xo (current_obj d) (seqid (cl_stateid arg)) true (cl_seqid arg) in
   if negb keep then r = with_status st close_resp
   else seq_answer xo (cl_seqid arg) NFS4_OP_CLOSE (Some x) close_resp = (false, r)) ->
  exists d' w', close_checked now arg d close_resp w = Some ((r, d'), w') /\ no_clients w' = no_clients w.
Proof.
  intros Hf Hq Hp Hr Hans. assert (fresh_lease_slot d o) as Hs by by left.
  destruct (close_run now arg w k a s o x xo xc d Hf Hq Hs Hr) as (d' & Hd & ->).
  destruct (check_answer s x xo (current_obj d) _ true _) as [st keep]. destruct keep; simpl in *.
  - destruct (finds_reserved k w a s o x xo xc now d Hf) as [xc1 Hf1].
    rewrite (close_refused now arg _ k a s o x xo xc1 d' r Hf1); [eauto| |done]. destruct Hd, Hq. congruence.
  - subst. eauto.
Qed.

(** After an answer that was recorded without a change of the state. *)
Lemma close_again_recorded now arg w k a s o x xo xc d r :
  let xo' := with_request (cl_seqid arg) NFS4_OP_CLOSE (Some x) r xo in
  finds w k a s o x xo' xc -> request_fits (cl_stateid arg) (cl_seqid arg) k s xo' d ->
  preserved_clientid d = None -> can_reserve now xc = true ->
  (check_answer s x xo (current_obj d) (seqid (cl_stateid arg)) true (cl_seqid arg)).2 = true ->
  cl_seqid arg <> so_seqid xo ->
  exists d' w', close_checked now arg d close_resp w = Some ((r, d'), w') /\ no_clients w' = no_clients w.
Proof.
  intros xo' Hf Hq Hp Hr Ha Hne. eapply close_again; try done.
  assert (exists st', check_answer s x xo' (current_obj d) (seqid (cl_stateid arg)) true (cl_seqid arg) = (st', true)) as [st' ->].
  { unfold check_answer in *. destruct (match current_obj d with Some y => _ | None => _ end); [done|].
    destruct (check_again (seqid (cl_stateid arg)) s s (cl_seqid arg) (so_seqid xo) (rf_req _ _ _ _ _ _ Hq)
      (rf_state _ _ _ _ _ _ Hq) Hne ltac:(split; auto)) as [_ Hagain].
    { destruct (check_state_seqid _ _ _ _ _); auto; done. }
    simpl. destruct Hagain as [-> | ->]; eauto. }
  simpl. apply seq_answer_recorded; [apply Hq|by eexists].
Qed.

(** After the state was closed. *)
Lemma close_again_closed now arg w w1 w1' s o xo d :
  let k := stateid_other s in
  closed k w w1 -> leases_only w1 w1' -> client_known w k o -> client_usable now o w1' ->
  is_Some (v4_clients w !! so_clientrec o) -> request_fits (cl_stateid arg) (cl_seqid arg) k s xo d ->
  preserved_clientid d = None -> seqid (cl_stateid arg) = state_seqid s ->
  exists d' w', close_checked now arg d close_resp w1'
    = Some ((with_status NFS4_OK (with_res_stateid (COPY_STATEID (with_seqid (next_seqid (state_seqid s)) s)) close_resp), d'), w')
    /\ no_clients w' = no_clients w1'.
Proof.
  intros k [] [E Hle] Hkn Hu Hc Hq Hp Hseq. pose proof (f_equal ht_state_id E) as E1.
  pose proof (f_equal ht_confirmed_client_id E) as E2. simpl in E1, E2.
  destruct (cd_clients0 _ Hc) as [xc2 Hxc2]. destruct (Hle _ _ Hxc2) as [l Hxc3].
  destruct (close_gone now arg w1' k o (with_lease l xc2) d) as (d3 & f & ->); try done; try apply Hq.
  - by rewrite E1.
  - unfold client_known. rewrite E2, cd_confirmed0. done.
  - exists d3, (set_clients f w1'). split; [|done]. unfold COPY_STATEID. simpl. by rewrite Hseq.
Qed.

Lemma close_twice now arg h w a s o x xo xc d r d1 w1 now' w1' d2 :
  let k := stateid_other s in
  v4_inv h w -> settled w -> finds w k a s o x xo xc ->
  request_fits (cl_stateid arg) (cl_seqid arg) k s xo d -> seqid (cl_stateid arg) <> 0 ->
  fresh_lease_slot d o -> client_known w k o -> client_usable now o w ->
  close_checked now arg d close_resp w = Some ((r, d1), w1) ->
  leases_only w1 w1' -> client_usable now' o w1' -> same_ctx d d2 -> preserved_clientid d2 = None ->
  exists d3 w2, close_checked now' arg d2 close_resp w1' = Some ((r, d3), w2) /\ no_clients w2 = no_clients w1'.
Proof.
  intros k Hi Hset Hf Hq Hz Hs Hkn Hu Hrun Hle Hu' Hd Hp.
  assert (Hc := fi_client _ _ _ _ _ _ _ _ Hf). destruct (Hu _ Hc) as [Hr _].
  destruct (close_run now arg w k a s o x xo xc d Hf Hq Hs Hr) as (d' & Hd' & Hrun'). rewrite Hrun' in Hrun. clear Hrun'.
  destruct (finds_reserved k w a s o x xo xc now d Hf) as [xc1 Hf1].
  pose proof (inv_reserved h w o xc now d Hi Hc) as Hi1. set (g := reserve_clients o xc now d) in *.
  assert (current_obj d2 = current_obj d) as Ho by apply Hd.
  assert (forall xo', in_u 32 (so_seqid xo') -> is_Some (so_last_entry xo') ->
    request_fits (cl_stateid arg) (cl_seqid arg) k s xo' d2) as Hq2.
  { intros xo' Hx Hx'. destruct Hq, Hd as (Hm & _). constructor; try done; congruence. }
  assert (minorversion d' = 0) as Hm by (destruct Hq, Hd'; congruence).
  destruct (check_answer s x xo (current_obj d) _ true _) as [st keep] eqn:Ea.
  assert (w1 = set_clients g w -> (if negb keep then r = with_status st close_resp
     else seq_answer xo (cl_seqid arg) NFS4_OP_CLOSE (Some x) close_resp = (false, r)) ->
    exists d3 w2, close_checked now' arg d2 close_resp w1' = Some ((r, d3), w2) /\ no_clients w2 = no_clients w1') as Hsame.
  { intros -> Hans. destruct (finds_leases _ _ _ _ _ _ _ _ _ Hf1 Hle) as [l Hf2].
    eapply close_again; [exact Hf2|apply Hq2; apply Hq|done| |by rewrite Ho, Ea].
    by destruct (Hu' _ (fi_client _ _ _ _ _ _ _ _ Hf2)). }
  destruct keep; cbn [negb] in *.
  2:{ injection Hrun as <- <- <-. by apply Hsame. }
  destruct (seq_answer xo (cl_seqid arg) NFS4_OP_CLOSE (Some x) close_resp) as [go r0] eqn:Esq. destruct go.
  2:{ erewrite close_refused in Hrun by done. injection Hrun as <- <- <-. by apply Hsame. }
  clear Hsame. destruct (seq_answer_next _ _ _ _ _ _ (rf_last _ _ _ _ _ _ Hq) Esq) as [Hnext ->].
  assert (cl_seqid arg <> so_seqid xo) as Hne.
  { rewrite Hnext. intros E. apply (u32_succ_ne (so_seqid xo)); [apply Hq|done]. }
  destruct (close_rest_run now arg h _ a s o x xo xc1 d' r d1 w1 Hi1 ltac:(done) Hf1 Hm Esq Hrun) as [[Er ->]|[-> Hcd]].
  - assert (finds (set_owners <[o := with_request (cl_seqid arg) NFS4_OP_CLOSE (Some x) r xo]> (set_clients g w)) k a s o x
      (with_request (cl_seqid arg) NFS4_OP_CLOSE (Some x) r xo) xc1) as Hf2.
    { destruct Hf1. constructor; simpl; try done. apply lookup_insert_eq. }
    destruct (finds_leases _ _ _ _ _ _ _ _ _ Hf2 Hle) as [l Hf3].
    eapply close_again_recorded; [exact Hf3|apply Hq2; [apply Hq|by eexists]|done| |by rewrite Ho, Ea|done].
    by destruct (Hu' _ (fi_client _ _ _ _ _ _ _ _ Hf3)).
  - eapply (close_again_closed _ _ _ _ _ _ _ xo); eauto; [destruct Hf1; by eexists|apply Hq2; apply Hq|].
    apply (check_again (seqid (cl_stateid arg)) s s (cl_seqid arg) (so_seqid xo)); try apply Hq; [done|split; auto| |].
    + unfold check_answer in Ea. repeat case_match; simplify_eq; auto.
    + rewrite (proj2 (Z.eqb_neq _ 0)) by done. apply orb_true_r.
Qed.

(** ** A request that is sent again *)

Definition request_stateid (q : v40_request) : stateid4 :=
  match q with
  | LOCKU arg => lu_stateid arg | CLOSE arg => cl_stateid arg
  | OPEN_CONFIRM arg => oc_stateid arg | OPEN_DOWNGRADE arg => od_stateid arg
  end.
Definition request_seqid (q : v40_request) : Z :=
  match q with
  | LOCKU arg => lu_seqid arg | CLOSE arg => cl_seqid arg
  | OPEN_CONFIRM arg => oc_seqid arg | OPEN_DOWNGRADE arg => od_seqid arg
  end.

(** The answers the server repeats: OPEN_CONFIRM and OPEN_DOWNGRADE record the successful ones
    only, and a CLOSE is recognised afterwards by its stateid. *)
Definition repeated (q : v40_request) (r : nfs_resop4) : Prop :=
  match q with
  | LOCKU _ => True
  | CLOSE arg => seqid (cl_stateid arg) <> 0
  | OPEN_CONFIRM _ | OPEN_DOWNGRADE _ => status r = NFS4_OK
  end.

(** [q] names the state [s] of the owner [o], whose client is confirmed. *)
Record sent_for (w : v4_world L) (q : v40_request) (d : v4_data) (a : positive) (s : state_t) (o : positive)
    (xo : nfs4_owner_t) : Prop := {
  sf_id : ht_state_id w !! other (request_stateid q) = Some a;
  sf_state : v4_states w !! a = Some s;
  sf_owner : state_owner s = Some o;
  sf_so : v4_owners w !! o = Some xo;
  sf_known : client_known w (other (request_stateid q)) o;
  sf_fits : request_fits (request_stateid q) (request_seqid q) (other (request_stateid q)) s xo d
}.

Lemma sent_for_finds h w q d a s o xo :
  v4_inv h w -> sent_for w q d a s o xo ->
  stateid_other s = other (request_stateid q) /\ exists x xc, finds w (other (request_stateid q)) a s o x xo xc.
Proof.
  intros Hi []. destruct (inv_finds _ _ _ _ Hi sf_id0) as (s' & o' & x & xo' & xc & Hf & Hk).
  pose proof Hf as []. simplify_eq. eauto.
Qed.

(** The check of the file handle answers both times, or neither. *)
Lemma checked_twice t resp (m m2 : nfs_resop4 -> VM (nfs_resop4 * v4_data)) d d2 r d1 w w1 w1' :
  same_ctx d d2 -> checked t resp d m w = Some ((r, d1), w1) ->
  (m (with_status NFS4_OK resp) w = Some ((r, d1), w1) ->
   exists d3 w2, m2 (with_status NFS4_OK resp) w1' = Some ((r, d3), w2) /\ no_clients w2 = no_clients w1') ->
  exists d3 w2, checked t resp d2 m2 w1' = Some ((r, d3), w2) /\ no_clients w2 = no_clients w1'.
Proof.
  unfold checked. intros Hd Hrun Hm. destruct (nfs4_sanity_check_FH d t false w) as [[st w0]|] eqn:E.
  2:{ unfold mbind, M_bind in Hrun. by rewrite E in Hrun. }
  destruct (sanity_run _ _ _ _ _ _ E) as [-> Hfh]. rewrite <- (sanity_ctx d d2) in Hfh by done.
  erewrite bind_run in Hrun by done. erewrite bind_run by apply Hfh.
  destruct (decide (st <> NFS4_OK)) as [Hst|Hst]; [injection Hrun as <- <- <-; eauto|].
  apply dec_stable in Hst as ->. auto.
Qed.

Lemma usable_lease now o (w : v4_world L) : client_usable now o w -> lease_valid now o w.
Proof. intros Hu xc Hc. by destruct (Hu xc Hc). Qed.

(** C39: a LOCKU, CLOSE, OPEN_CONFIRM or OPEN_DOWNGRADE of an NFSv4.0 client on a stateid of the
    table that is sent again, after other requests have at most renewed leases, gets the answer
    of the first time and changes nothing but client records: it is executed at most once.
    [repeated] says which answers the server repeats.  The lease of the client has to be usable,
    at the first request and again when it is resent: its client id not made stale, its lease not
    run out.  After the expiry of the lease the resent request gets an error, or runs into the
    double unlock of [nfs4_Check_Stateid]. *)
Theorem retransmission_once h w q d a s o xo resp now r d1 w1 now' w1' d2 :
  v4_inv h w -> settled w -> sent_for w q d a s o xo -> fresh_lease_slot d o -> client_usable now o w ->
  run_request now q d resp w = Some ((r, d1), w1) -> repeated q r ->
  leases_only w1 w1' -> client_usable now' o w1' -> same_ctx d d2 -> preserved_clientid d2 = None ->
  exists d3 w2, run_request now' q d2 resp w1' = Some ((r, d3), w2) /\ no_clients w2 = no_clients w1'.
Proof.
  intros Hi Hset Hq Hs Hu Hrun Hok Hle Hu' Hd Hp. destruct (sent_for_finds _ _ _ _ _ _ _ _ Hi Hq) as (Hk & x & xc & Hf).
  destruct Hq as [_ _ _ _ Hkn Hq]. pose proof (usable_lease _ _ _ Hu) as Hl. pose proof (usable_lease _ _ _ Hu') as Hl'.
  assert (fresh_lease_slot d2 o) as Hs2 by by left. assert (minorversion d = 0) as Hm by apply Hq.
  destruct q as [arg|arg|arg|arg]; cbn [run_request request_stateid request_seqid repeated] in *.
  - rewrite locku_shape in *. eapply checked_twice; [done|exact Hrun|]. clear Hrun. intros Hrun.
    destruct (locku_desc arg); [|injection Hrun as <- <- <-; eexists _, _; by split].
    eapply sequenced_twice; eauto using locku_body_ok. intros. by rewrite H0.
  - rewrite close_shape in *. rewrite <- Hk in *. eapply checked_twice; [done|exact Hrun|]. intros. eapply close_twice; eauto.
  - rewrite confirm_shape in *. replace (minorversion d2) with (minorversion d) by (symmetry; apply Hd).
    rewrite Hm in *. cbv iota in *. eapply checked_twice; [done|exact Hrun|]. clear Hrun. intros Hrun.
    eapply sequenced_twice; eauto using confirm_body_ok.
  - rewrite downgrade_shape in *. eapply checked_twice; [done|exact Hrun|]. clear Hrun. intros Hrun.
    replace (current_filetype d2) with (current_filetype d) by (symmetry; apply Hd).
    destruct (decide (current_filetype d <> REGULAR_FILE)); [injection Hrun as <- <- <-; eexists _, _; by split|].
    eapply sequenced_twice; eauto using downgrade_body_ok. intros. by rewrite H0.
Qed.

End bodies.
