(* ===== verification/StateRefine.v ===== *)
(** * The state table refines a map from stateids to states

    The functions of [SAL/nfs4_state.c] seen by their callers: a finite map from the "other"
    part of stateids to what a state is (its export, owner, file, type and data). *)
From S2P Require Import Prelude Status Owners Lease VfsHandle StateTable StateInv StateOps.
Local Open Scope Z_scope.

(** What does not change while a state is in the table. *)
Record state_core : Set := {
  sc_export : option positive; sc_owner : option positive; sc_obj : option positive;
  sc_type : state_type_t; sc_data : state_data_u
}.
Definition core_of (s : state_t) : state_core :=
  {| sc_export := state_export s; sc_owner := state_owner s; sc_obj := state_obj s;
     sc_type := state_type s; sc_data := state_data s |}.

Abbreviation table := (gmap (list Z) state_core).

Inductive table_op : Set :=
  | T_add (e x : positive) (t : state_type_t) (d : state_data_u) (o : positive)
  | T_get (k : list Z)
  | T_del (k : list Z)
  | T_wipe (x : positive).

Inductive table_res : Set :=
  | R_added (st : state_status_t) (k : option (list Z))
  | R_found (c : option state_core)
  | R_done.

Section refine.
Context `{OwnerMem} {L : Type} `{!LowerLayer L}.
Abbreviation VM := (M (v4_world L)).

(** ** Operations, each with the release of the reference it returns *)

Definition run_op (lease_lifetime now : Z) (op : table_op) : VM table_res :=
  match op with
  | T_add e x t d o =>
      '(st, r) ← state_add e x t d o None;
      match r with
      | Some a => s ← get_st a; dec_nfs4_state_ref a;; mret (R_added st (Some (stateid_other s)))
      | None => mret (R_added st None)
      end
  | T_get k =>
      r ← nfs4_State_Get_Pointer k;
      match r with
      | Some a => s ← get_st a; dec_nfs4_state_ref a;; mret (R_found (Some (core_of s)))
      | None => mret (R_found None)
      end
  | T_del k =>
      ids ← gets ht_state_id;
      match ids !! k with
      | Some a => state_del lease_lifetime now a;; mret R_done
      | None => mret R_done
      end
  | T_wipe x => state_nfs4_state_wipe lease_lifetime now x;; mret R_done
  end.

(** ** The specification *)

Definition same_owner_on (o x : positive) (c : state_core) : Prop :=
  indexed_by_obj (sc_type c) = true /\ sc_obj c = Some x /\
  exists p, sc_owner c = Some p /\ compare_nfs4_owner o p = true.

(** An owner has one open or lock state on a file. *)
Definition conflicts (t : state_type_t) (o x : positive) (m : table) : Prop :=
  indexed_by_obj t = true /\ exists k c, m !! k = Some c /\ same_owner_on o x c.

Definition wiped (x : positive) (c : state_core) : Prop := sc_obj c = Some x /\ nfs4_type (sc_type c) = true.
#[export] Instance wiped_dec x c : Decision (wiped x c).
Proof. unfold wiped. apply _. Defined.

(** [nxt] is the stateid the owner's client hands out next. *)
Inductive spec_step (nxt : positive -> option (list Z)) : table_op -> table_res -> table -> table -> Prop :=
  | sp_added e x t d o k m :
      owner_matches t o = true -> export_is_ready e = true -> nxt o = Some k -> m !! k = None -> ~ conflicts t o x m ->
      spec_step nxt (T_add e x t d o) (R_added STATE_SUCCESS (Some k)) m
        (<[k := {| sc_export := Some e; sc_owner := Some o; sc_obj := Some x; sc_type := t; sc_data := d |}]> m)
  | sp_bad_type e x t d o m :
      owner_matches t o = false -> spec_step nxt (T_add e x t d o) (R_added STATE_BAD_TYPE None) m m
  | sp_stale e x t d o m :
      owner_matches t o = true -> export_is_ready e = false ->
      spec_step nxt (T_add e x t d o) (R_added STATE_ESTALE None) m m
  | sp_exists e x t d o m :
      owner_matches t o = true -> export_is_ready e = true ->
      (exists k, nxt o = Some k /\ is_Some (m !! k)) \/ conflicts t o x m ->
      spec_step nxt (T_add e x t d o) (R_added STATE_ENTRY_EXISTS None) m m
  | sp_get k m : spec_step nxt (T_get k) (R_found (m !! k)) m m
  | sp_del k m : spec_step nxt (T_del k) R_done m (delete k m)
  | sp_wipe x m : spec_step nxt (T_wipe x) R_done m (filter (fun kc => ~ wiped x kc.2) m).

(** ** The abstraction *)

Definition table_view (w : v4_world L) : table := omap (fun a => core_of <$> v4_states w !! a) (ht_state_id w).

Lemma view_at w k : table_view w !! k = ht_state_id w !! k ≫= fun a => core_of <$> v4_states w !! a.
Proof. unfold table_view. by rewrite lookup_omap. Qed.

(** Between requests: nobody holds a reference to a state. *)
Record idle (h : holds) (w : v4_world L) : Prop := {
  id_inv : v4_inv h w;
  id_settled : settled w;
  id_unheld a : h (R_state a) = 0
}.

(** What the callers of the operations see to: an open state is deleted after its lock states,
    and the lock states of an open state are on its file. *)
Definition op_ok (w : v4_world L) (op : table_op) : Prop :=
  match op with
  | T_add e x t d o => add_ok w x o t d
  | T_get _ => True
  | T_del k => forall a, ht_state_id w !! k = Some a -> list_at a (share_lockstates w) = []
  | T_wipe x => forall a b s, b ∈ list_at a (share_lockstates w) -> v4_states w !! a = Some s -> state_obj s = Some x ->
      exists t, v4_states w !! b = Some t /\ state_obj t = Some x
  end.

(** ** Deleting *)

Lemma view_deleted h w w' a s :
  v4_inv h w -> v4_states w !! a = Some s -> is_hashed w a s -> deleted a s w w' ->
  table_view w' = delete (stateid_other s) (table_view w).
Proof.
  intros Hi Ha Hh [F I G K]. apply map_eq. intros k. rewrite view_at, I.
  destruct (decide (k = stateid_other s)) as [->|Hne]; [by rewrite !lookup_delete_eq|].
  rewrite !lookup_delete_ne, view_at by done. destruct (ht_state_id w !! k) as [b|] eqn:Ek; [|done]. simpl.
  destruct (vi_id _ _ Hi k b Ek) as (t & Ht & Eo & _). rewrite (df_states _ _ _ F); [done|]. congruence.
Qed.

(** An entry of the view is a state of the table. *)
Lemma view_Some h w k c :
  v4_inv h w -> table_view w !! k = Some c <->
  exists a s, ht_state_id w !! k = Some a /\ v4_states w !! a = Some s /\ is_hashed w a s /\ stateid_other s = k /\ c = core_of s.
Proof.
  intros Hi. rewrite view_at. split.
  - destruct (ht_state_id w !! k) as [a|] eqn:Ek; [|done]. simpl. destruct (vi_id _ _ Hi k a Ek) as (s & Hs & Eo & _).
    rewrite Hs. intros E. injection E as <-. exists a, s. unfold is_hashed. rewrite Eo. done.
  - intros (a & s & -> & Hs & _ & _ & ->). simpl. by rewrite Hs.
Qed.

(** What a loop over [l] leaves that deletes what [keep] does not keep. *)
Record swept (keep : state_type_t -> bool) (l : list positive) (w w' : v4_world L) : Prop := {
  sw_view k c : table_view w' !! k = Some c <->
    table_view w !! k = Some c /\ (forall b, ht_state_id w !! k = Some b -> b ∈ l -> keep (sc_type c) = true);
  sw_states b s : v4_states w' !! b = Some s -> is_Some (state_obj s) -> v4_states w !! b = Some s;
  sw_locks k b : b ∈ list_at k (share_lockstates w') -> b ∈ list_at k (share_lockstates w) /\
    (b ∈ l -> forall s, v4_states w !! b = Some s -> keep (state_type s) = true)
}.

Lemma swept_keep keep a s l w w' :
  v4_states w !! a = Some s -> keep (state_type s) = true -> is_hashed w a s ->
  swept keep l w w' -> swept keep (a :: l) w w'.
Proof.
  intros Ha Hk Hh []. constructor; [|done|].
  - intros k c. rewrite sw_view0. split; intros [Hv Hkeep]; (split; [done|]); intros b Hb Hin; [|by eapply Hkeep; [|right]].
    apply elem_of_cons in Hin as [->|Hin]; [|by eapply Hkeep].
    rewrite view_at, Hb in Hv. simpl in Hv. rewrite Ha in Hv. by injection Hv as <-.
  - intros k b Hb. apply sw_locks0 in Hb as [Hb Hkeep]. split; [done|]. intros [->|Hin]%elem_of_cons t Ht; [congruence|auto].
Qed.

Lemma swept_delete h keep a s l w w1 w' :
  v4_inv h w -> v4_states w !! a = Some s -> keep (state_type s) = false -> is_hashed w a s -> a ∉ l ->
  (forall b, b ∈ l -> exists t, v4_states w !! b = Some t /\ is_hashed w b t) ->
  deleted a s w w1 -> swept keep l w1 w' -> swept keep (a :: l) w w'.
Proof.
  intros Hi Ha Hk Hh Hal Hl Hd []. pose proof (view_deleted _ _ _ _ _ Hi Ha Hh Hd) as Hv. destruct Hd as [[] I G K]. constructor.
  - intros k c. rewrite sw_view0, Hv, I. destruct (decide (k = stateid_other s)) as [->|Hne].
    { rewrite !lookup_delete_eq. split; [by intros []|]. intros [Hc Hkeep]. specialize (Hkeep a Hh ltac:(by left)).
      rewrite view_at, Hh in Hc. simpl in Hc. rewrite Ha in Hc. injection Hc as <-. simpl in Hkeep. congruence. }
    rewrite !lookup_delete_ne by done. split; intros [Hc Hkeep]; (split; [done|]); intros b Hb Hin; [|eapply Hkeep; [done|by right]].
    apply elem_of_cons in Hin as [->|Hin]; [|eauto]. destruct (vi_id _ _ Hi _ _ Hb) as (t & Ht & Eo & _). congruence.
  - intros b t Hb Ht. specialize (sw_states0 b t Hb Ht). destruct (decide (b = a)) as [->|Hba].
    + destruct (G t sw_states0) as (_ & _ & E). rewrite E in Ht. by destruct Ht.
    + by rewrite df_states in sw_states0.
  - intros k b Hb. apply sw_locks0 in Hb as [Hb Hkeep]. assert (b <> a) as Hba by (intros ->; by apply (K k)). split.
    + destruct (df_lockstates k) as [E|E]; rewrite E in Hb; [done|]. by apply elem_of_remove_id in Hb as [? _].
    + intros [->|Hin]%elem_of_cons t Ht; [done|]. apply Hkeep; [done|]. by rewrite df_states.
Qed.

Lemma wp_wipe_loop lifetime now h keep l w :
  NoDup l ->
  (forall b, b ∈ l -> exists s, v4_states w !! b = Some s /\ is_hashed w b s /\
    (keep (state_type s) = false -> state_type s = STATE_TYPE_SHARE -> list_at b (share_lockstates w) = [])) ->
  v4_inv h w -> settled w ->
  wp (wipe_loop lifetime now keep l) (fun _ w' => v4_inv h w' /\ settled w' /\ swept keep l w w') w.
Proof.
  revert w. induction l as [|a l IH]; intros w Hnd Hl Hi Hs.
  { simpl. wp_step. split; [done|]. split; [done|]. constructor; [|done|].
    - intros k c. split; [intros ?; split; [done|]|tauto]. by intros b _ ?%elem_of_nil.
    - intros k b ?. split; [done|]. by intros ?%elem_of_nil. }
  apply NoDup_cons in Hnd as [Ha Hnd]. destruct (Hl a ltac:(by left)) as (s & Hsa & Hha & Hsh). simpl. wp_step.
  eapply wp_get_st; [done|]. wp_step. unfold mwhen. destruct (keep (state_type s)) eqn:Ek; simpl.
  - wp_step. eapply wp_mono; [apply IH; try done|].
    + intros b Hb. apply Hl. by right.
    + intros _ w' (? & ? & ?). split; [done|]. split; [done|]. by eapply swept_keep.
  - eapply wp_mono; [apply (wp_state_del_locked _ _ h w a s); try done; by apply Hsh|]. intros _ w1 [Hi1 Hd].
    pose proof (settled_deleted _ _ _ _ Hsa Hha Hd Hs) as Hs1.
    assert (forall b, b ∈ l -> exists t, v4_states w !! b = Some t /\ is_hashed w b t) as Hl'.
    { intros b Hb. destruct (Hl b ltac:(by right)) as (t & ? & ? & _). eauto. }
    eapply wp_mono; [apply IH; try done|].
    + intros b Hb. destruct (Hl b ltac:(by right)) as (t & Ht & Hht & Hsht). exists t. destruct Hd as [[] I G K].
      assert (b <> a) as Hba by (intros ->; done). rewrite df_states by done. split; [done|]. split.
      * unfold is_hashed in *. rewrite I, lookup_delete_ne; [done|]. intros E. rewrite E in Hha. congruence.
      * intros Hk Hty. specialize (Hsht Hk Hty). destruct (df_lockstates b) as [->| ->]; [done|]. by rewrite Hsht.
    + intros _ w' (? & ? & ?). split; [done|]. split; [done|]. by eapply (swept_delete h).
Qed.

(** The states of a file are hashed. *)
Lemma file_states h w x b :
  v4_inv h w -> settled w -> b ∈ list_at x (list_of_states w) ->
  exists s, v4_states w !! b = Some s /\ is_hashed w b s /\ state_obj s = Some x.
Proof.
  intros Hi Hs Hb. apply (proj2 (vi_file_list _ _ Hi)) in Hb as (s & Hb & Hx). exists s. split; [done|]. split; [|done].
  apply Hs; [done|]. right. by rewrite Hx.
Qed.

Lemma wp_wipe lifetime now h w x :
  v4_inv h w -> settled w -> op_ok w (T_wipe x) ->
  wp (state_nfs4_state_wipe lifetime now x) (fun _ w' => v4_inv h w' /\ settled w' /\
    table_view w' = filter (fun kc => ~ wiped x kc.2) (table_view w)) w.
Proof.
  intros Hi Hs Hok. unfold state_nfs4_state_wipe. wp_step. wp_step.
  set (keep1 := fun t => negb (nfs4_type t) || bool_decide (t = STATE_TYPE_SHARE)).
  wp_step. eapply wp_mono; [apply (wp_wipe_loop _ _ h); try done|].
  - apply Hi.
  - intros b Hb. destruct (file_states _ _ _ _ Hi Hs Hb) as (s & ? & ? & ?). exists s. split; [done|]. split; [done|].
    intros Hk E. by rewrite E in Hk.
  - intros _ w1 (Hi1 & Hs1 & Hsw1). wp_step. wp_step. eapply wp_mono; [apply (wp_wipe_loop _ _ h); try done|].
    + apply Hi1.
    + intros b Hb. destruct (file_states _ _ _ _ Hi1 Hs1 Hb) as (s & Hsb & Hhb & Hx). exists s. split; [done|]. split; [done|].
      intros _ _. destruct (list_at b (share_lockstates w1)) as [|c l] eqn:El; [done|].
      destruct (sw_locks _ _ _ _ Hsw1 b c) as [Hc Hkeep]; [rewrite El; by left|].
      pose proof (sw_states _ _ _ _ Hsw1 b s Hsb ltac:(by rewrite Hx)) as Hsb0.
      destruct (Hok b c s Hc Hsb0 Hx) as (t & Ht & Htx). destruct (vi_lockstates _ _ Hi b c Hc) as (t' & Ht' & Hty & _).
      assert (keep1 (state_type t) = true) as Hk1.
      { apply Hkeep; [|done]. apply (proj2 (vi_file_list _ _ Hi)). eauto. }
      rewrite Ht in Ht'. injection Ht' as <-. by rewrite Hty in Hk1.
    + intros _ w2 (Hi2 & Hs2 & Hsw2). split; [done|]. split; [done|]. apply map_eq. intros k. apply option_eq. intros c.
      rewrite map_lookup_filter_Some, (sw_view _ _ _ _ Hsw2), (sw_view _ _ _ _ Hsw1). simpl. split.
      * intros [[Hv Hk1] Hk2]. split; [done|]. intros [Hx Hty].
        destruct (proj1 (view_Some h w1 k c Hi1)) as (b & t & Hb1 & Ht1 & _ & _ & ->); [by apply Hsw1|]. simpl in *.
        specialize (Hk2 b Hb1 ltac:(apply (proj2 (vi_file_list _ _ Hi1)); eauto)). by rewrite Hty in Hk2.
      * intros [Hv Hn].
        assert (forall w0 b, v4_inv h w0 -> table_view w0 !! k = Some c -> ht_state_id w0 !! k = Some b ->
          b ∈ list_at x (list_of_states w0) -> nfs4_type (sc_type c) = false) as Hout.
        { intros w0 b Hi0 Hv0 Hb Hin. rewrite view_at, Hb in Hv0. simpl in Hv0.
          apply (proj2 (vi_file_list _ _ Hi0)) in Hin as (t & Ht & Hx). rewrite Ht in Hv0. injection Hv0 as <-.
          apply not_true_iff_false. intros Hty. by apply Hn. }
        assert (table_view w !! k = Some c /\ (forall b, ht_state_id w !! k = Some b -> b ∈ list_at x (list_of_states w) ->
          keep1 (sc_type c) = true)) as Hv1.
        { split; [done|]. intros b Hb Hin. unfold keep1. by rewrite (Hout w b). }
        split; [done|]. intros b Hb Hin. rewrite (Hout w1 b); [done|done|by apply Hsw1|done|done].
Qed.

(** ** Adding *)

Lemma key_taken_view h w o x t : v4_inv h w -> key_taken w o x t <-> conflicts t o x (table_view w).
Proof.
  intros Hi. unfold key_taken, conflicts, same_owner_on. split; intros [Hix Hex]; (split; [done|]).
  - destruct Hex as (b & u & p & Hb & Hu & Hux & Hup & Hc). destruct (proj1 (vi_obj _ _ Hi b) Hb) as (u' & Hu' & Hh & Hixb).
    rewrite Hu in Hu'. injection Hu' as <-. exists (stateid_other u), (core_of u). split.
    + apply (view_Some h w); [done|]. by exists b, u.
    + simpl. eauto.
  - destruct Hex as (k & c & (b & u & _ & Hu & Hh & _ & ->)%(view_Some h) & Hixb & Hux & p & Hup & Hc); [|done].
    exists b, u, p. split; [|done]. apply Hi. eauto.
Qed.

Lemma next_in_use h w k : v4_inv h w -> is_Some (ht_state_id w !! k) <-> is_Some (table_view w !! k).
Proof.
  intros Hi. rewrite view_at. split; [|destruct (ht_state_id w !! k); [by eexists|by intros []]].
  intros [b Hb]. rewrite Hb. simpl. destruct (vi_id _ _ Hi _ _ Hb) as (s & -> & _). by eexists.
Qed.

(** The caller of an operation drops its reference to a state of the table. *)
Lemma wp_drop_state h w a s (Q : unit -> v4_world L -> Prop) :
  v4_states w !! a = Some s -> is_hashed w a s -> v4_inv (hold (R_state a) h) w -> (forall k, 0 <= h k) ->
  (forall n, v4_inv h (set_states <[a := with_state_refs n s]> w) -> Q tt (set_states <[a := with_state_refs n s]> w)) ->
  wp (dec_nfs4_state_ref a) Q w.
Proof.
  intros Ha Hh Hi Hn HQ. eapply wp_mono; [apply (wp_dec_nfs4_state_ref (hold (R_state a) h) w a s Ha)|].
  - rewrite hold_at. specialize (Hn (R_state a)). lia.
  - by left.
  - done.
  - intros [] w' (Hi' & f & -> & _ & Hf & _). rewrite (Hf Hh) in *. apply HQ. eapply inv_ext; [apply drop_hold|done].
Qed.

Lemma idle_refs w a s n :
  v4_states w !! a = Some s -> settled w -> settled (set_states <[a := with_state_refs n s]> w) /\
  table_view (set_states <[a := with_state_refs n s]> w) = table_view w.
Proof.
  intros Ha Hs. split.
  - intros b t Hb Ht. unfold is_hashed in *. simpl in *. rewrite lookup_insert in Hb. case_decide; simplify_eq; [|by apply Hs].
    by apply (Hs _ s).
  - apply map_eq. intros k. rewrite !view_at. simpl. destruct (ht_state_id w !! k) as [b|]; [|done]. simpl.
    rewrite lookup_insert. case_decide; simplify_eq; [|done]. by rewrite Ha.
Qed.

(** ** One step of each operation *)

Definition refines (h : holds) (w : v4_world L) (op : table_op) : table_res -> v4_world L -> Prop := fun r w' =>
  spec_step (fun o => next_other o w) op r (table_view w) (table_view w') /\ idle h w'.

Lemma wp_op_get lifetime now h w k : idle h w -> wp (run_op lifetime now (T_get k)) (refines h w (T_get k)) w.
Proof.
  intros [Hi Hs Hu]. simpl. unfold nfs4_State_Get_Pointer. wp_step. wp_step. wp_step.
  destruct (ht_state_id w !! k) as [a|] eqn:Ek.
  2:{ wp_step. wp_step. split; [|done]. replace None with (table_view w !! k) by by rewrite view_at, Ek. constructor. }
  destruct (vi_id _ _ Hi k a Ek) as (s & Ha & Eo & _). assert (is_hashed w a s) as Hh by (unfold is_hashed; by rewrite Eo).
  wp_step. eapply wp_mono; [by apply (wp_inc_v4_state_ref h w a s)|]. intros _ w1 [Hi1 ->]. wp_step. wp_step.
  eapply wp_get_st; [simpl; apply lookup_insert_eq|]. wp_step.
  eapply (wp_drop_state h); [simpl; apply lookup_insert_eq|exact Hh|done|apply Hi|]. intros n Hi2. wp_step.
  assert (set_states <[a := with_state_refs n (with_state_refs (state_refcount s + 1) s)]>
    (set_states <[a := with_state_refs (state_refcount s + 1) s]> w) = set_states <[a := with_state_refs n s]> w) as E.
  { apply v4_world_ext; simpl; try done. by rewrite insert_insert_eq. }
  rewrite E in *. destruct (idle_refs w a s n Ha Hs) as [Hs' Hv]. split; [|done]. rewrite Hv.
  assert (table_view w !! k = Some (core_of (with_state_refs (state_refcount s + 1) s))) as <-; [|constructor].
  rewrite view_at, Ek. simpl. by rewrite Ha.
Qed.

Lemma wp_op_del lifetime now h w k :
  idle h w -> op_ok w (T_del k) -> wp (run_op lifetime now (T_del k)) (refines h w (T_del k)) w.
Proof.
  intros [Hi Hs Hu] Hok. simpl in *. wp_step. wp_step. destruct (ht_state_id w !! k) as [a|] eqn:Ek.
  2:{ wp_step. split; [|done].
      assert (delete k (table_view w) = table_view w) as E by (apply delete_id; by rewrite view_at, Ek).
      rewrite <- E at 2. constructor. }
  destruct (vi_id _ _ Hi k a Ek) as (s & Ha & Eo & _). assert (is_hashed w a s) as Hh by (unfold is_hashed; by rewrite Eo).
  wp_step. eapply wp_mono; [apply (wp_state_del _ _ h w a s); auto|]. intros _ w1 [Hi1 Hd]. wp_step. split.
  - rewrite (view_deleted h w w1 a s), Eo by done. constructor.
  - constructor; [done| |done]. by eapply settled_deleted.
Qed.

Lemma wp_op_wipe lifetime now h w x :
  idle h w -> op_ok w (T_wipe x) -> wp (run_op lifetime now (T_wipe x)) (refines h w (T_wipe x)) w.
Proof.
  intros [Hi Hs Hu] Hok. simpl. wp_step. eapply wp_mono; [by apply (wp_wipe _ _ h)|]. intros _ w' (Hi' & Hs' & Hv).
  wp_step. split; [|done]. rewrite Hv. constructor.
Qed.

(** The tables after a successful addition. *)
Lemma settled_added (w w' : v4_world L) a k s :
  settled w -> ht_state_id w !! k = None -> v4_states w !! a = None ->
  ht_state_id w' = <[k := a]> (ht_state_id w) -> v4_states w' = <[a := s]> (v4_states w) -> stateid_other s = k -> settled w'.
Proof.
  intros Hs Hk Ha Ei Es Eo b t. unfold is_hashed. rewrite Es, Ei, !lookup_insert. intros Hb Ht.
  case_decide; simplify_eq; [by rewrite decide_True|]. specialize (Hs b t Hb Ht). unfold is_hashed in Hs.
  by rewrite decide_False by congruence.
Qed.

Lemma view_added h w w' a k s :
  v4_inv h w -> v4_states w !! a = None ->
  ht_state_id w' = <[k := a]> (ht_state_id w) -> v4_states w' = <[a := s]> (v4_states w) ->
  table_view w' = <[k := core_of s]> (table_view w).
Proof.
  intros Hi Ha Ei Es. apply map_eq. intros k'. rewrite view_at, Ei, Es. destruct (decide (k' = k)) as [->|Hne].
  - rewrite !lookup_insert_eq. simpl. by rewrite lookup_insert_eq.
  - rewrite !lookup_insert_ne, view_at by done. destruct (ht_state_id w !! k') as [b|] eqn:Eb; [|done]. simpl.
    destruct (vi_id _ _ Hi _ _ Eb) as (t & Ht & _). rewrite lookup_insert_ne; [done|]. congruence.
Qed.

Lemma wp_op_add lifetime now h w e x t d o :
  idle h w -> op_ok w (T_add e x t d o) -> wp (run_op lifetime now (T_add e x t d o)) (refines h w (T_add e x t d o)) w.
Proof.
  intros [Hi Hs Hu] Hok. simpl in *. unfold state_add. wp_step. destruct (owner_matches t o) eqn:Em; simpl.
  2:{ wp_step. wp_step. split; [|done]. by constructor. }
  eapply wp_mono; [apply (wp_state_add_impl h); [done|apply Hu|done]|]. intros [st r] w1 Hr. simpl in Hr.
  destruct r as [a|].
  - destruct st; try done. destruct Hr as (Her & Hfree & k & Hnx & Hk & Ei & -> & Es & Hi1).
    pose proof (fresh_address h w Hi) as Hfa. set (a := v4_next w) in *. set (s := new_state e o x t d k) in *.
    assert (v4_states w1 !! a = Some s) as Ha by (rewrite Es; apply lookup_insert_eq).
    wp_step. eapply wp_get_st; [done|]. wp_step. eapply (wp_drop_state h); [done| |done|apply Hi|].
    { unfold is_hashed. rewrite Ei. apply lookup_insert_eq. }
    intros n Hi2. wp_step. assert (settled w1) as Hs1 by by eapply settled_added.
    destruct (idle_refs w1 a s n Ha Hs1) as [Hs2 Hv]. split; [|done]. rewrite Hv, (view_added h w w1 a k s) by done.
    apply sp_added; try done; [|by rewrite <- (key_taken_view h) by done].
    apply eq_None_not_Some. rewrite <- (next_in_use h) by done. rewrite Hk. by intros [].
  - assert (add_refused w e o x t st /\ ht_state_id w1 = ht_state_id w /\ v4_states w1 = v4_states w /\ v4_inv h w1)
      as (Hwhy & Ei & Es & Hi1) by by destruct st.
    wp_step. assert (table_view w1 = table_view w) as Hv by (unfold table_view; by rewrite Ei, Es).
    assert (settled w1) as Hs1. { intros b u. unfold is_hashed. rewrite Ei, Es. apply Hs. }
    split; [|done]. rewrite Hv. destruct Hwhy as [[-> Her]|(-> & Her & Hwhy)]; [by constructor|].
    apply sp_exists; [done|done|]. destruct Hwhy as [(k & Hnx & Hk)|Hkt]; [left|right].
    + exists k. split; [done|]. by apply (next_in_use h).
    + by apply (key_taken_view h).
Qed.

(** C40: the table is a map from stateids to states: between requests, every operation its callers
    may ask for returns, with the answer and the change the map has, and what is counted and
    linked stays consistent. *)
Theorem state_table_refines_map lifetime now h w op :
  idle h w -> op_ok w op ->
  exists r w', run_op lifetime now op w = Some (r, w') /\
    spec_step (fun o => next_other o w) op r (table_view w) (table_view w') /\ idle h w'.
Proof.
  intros Hi Hok. apply (wp_run (run_op lifetime now op) (refines h w op)). destruct op.
  - by apply wp_op_add.
  - by apply wp_op_get.
  - by apply wp_op_del.
  - by apply wp_op_wipe.
Qed.

End refine.
