(* ===== verification/StateExamples.v ===== *)
(** * NFSv4 states on the lock manager, on concrete inputs

    The interfaces of [StateTable] and [StateId] met by the lock manager of [LockManager]
    and an FSAL that always succeeds; a server with one client, one open owner and one file. *)
From S2P Require Import Prelude Status Owners LockTable LockManager Acl Share Lease VfsHandle StateTable StateInv StateOps StateId SeqidInv SeqidTheorems StateRefine.
Local Open Scope Z_scope.

Module V4Scenario.

#[export] Instance mem : OwnerMem := {|
  owner_at := fun p => {| so_type := STATE_OPEN_OWNER_NFSV4; so_owner_val := [Zpos p]; so_owner := so_nfs4_owner 7 None |};
  nlm_client_at := fun c => {| slc_nsm_client := c; slc_client_type := 0; slc_server_addr := sockaddr_in 1 111;
                               slc_nlm_caller_name := [] |};
  nsm_client_at := fun c => {| ssc_nlm_caller_name := [Zpos c]; ssc_client := None |};
  unknown_owner := 9
|}.

#[export] Instance fsal : Env unit := {|
  fso_lock_support := false;
  fso_lock_support_async_block := false;
  lock_op2 := fun s _ _ _ _ _ l => (ERR_FSAL_NO_ERROR, l, s);
  fridgethr_submit := fun s => (0, s);
  export_ready := fun _ => true;
  LockManager.state_seqid := fun _ => 1;
  is_regular_file := fun _ => true;
  gc_boot := (17, 4)
|}.

(** References the lock entries hold: the ones on the lists of their state and owner. *)
Definition lock_refs (k : bkey) (l : lock_world unit) : Z := Z.of_nat (length (default [] (w_lists l !! k))).

#[export] Program Instance locks_below : LowerLayer (lock_world unit) := {|
  ll_state_refs := fun l a => lock_refs (K_state a) l;
  ll_owner_refs := fun l o => lock_refs (K_owner o) l;
  close2 := fun _ _ l => l;
  regular_file := fun _ => true;
  export_is_ready := fun _ => true;
  so_clientrec := fun _ => 1%positive;
  so_related_owner := fun _ => None
|}.
Next Obligation. intros l a. unfold lock_refs. lia. Qed.
Next Obligation. done. Qed.

#[export] Instance requests : RequestLayer (lock_world unit) := {|
  state_unlock_op := fun obj a o lock =>
    state_unlock {| ctx_export := 1; client := None |} obj (Some a) (Some o) false 0 lock;
  has_locks := fun l a => negb (lock_refs (K_state a) l =? 0);
  fsal_reopen2 := fun _ _ _ l => (ERR_FSAL_NO_ERROR, l);
  handle_cmp := Pos.eqb;
  fs_maxfilesize := 2 ^ 63 - 1;
  lease_lifetime := 60;
  nfs_ServerEpoch := 5;
  release_client_state := fun _ => mret tt;
  return_layouts := fun _ => mret tt
|}.

Definition clientid : Z := Z.lor (Z.shiftl 5 32) 7.
Definition empty_resp : nfs_resop4 :=
  {| resop := NFS4_OP_OPEN; status := NFS4_OK; res_stateid := {| seqid := 0; other := [] |} |}.

(** An OPEN has made the owner and still holds it; there is no state yet. *)
Definition start : v4_world (lock_world unit) := {|
  v4_states := ∅;
  v4_owners := {[1%positive := {| so_refcount := 1; so_confirmed := true; so_seqid := 3; so_args := NFS4_OP_OPEN;
                                  so_last_entry := None; so_resp := empty_resp; so_cache_expire := 0 |}]};
  v4_clients := {[1%positive := {| cid_clientid := clientid; cid_stateid_counter := 41; cid_refcount := 2;
                                   cid_lease := {| cid_confirmed := CONFIRMED_CLIENT_ID; cid_lease_reservations := 0;
                                                   cid_last_renew := 100 |} |}]};
  v4_files := {[4%positive := {| fds_num_write_opens := 0; write_delegated := false; write_deleg_client := None |}]};
  ht_state_id := ∅; ht_state_obj := []; ht_nfs4_owner := [1%positive];
  ht_confirmed_client_id := {[clientid := 1%positive]};
  list_of_states := ∅; so_state_list := ∅; exp_state_list := ∅; share_lockstates := ∅;
  cid_owners := {[1%positive := [1%positive]]}; cached_open_owners := []; obj_refs := ∅; export_refs := ∅;
  v4_next := 1%positive;
  v4_lock := {| w_heap := ∅; w_files := ∅; w_blocked := []; w_cookies := ∅; w_ht := ∅; w_sched := [];
                w_next := 1%positive; w_gc_cookie := 0; w_lists := ∅; w_refs := ∅; w_fsal := tt |}
|}.

(** The references outside the tables: the OPEN's on the owner, the hash table's on the client. *)
Definition held : holds := fun k =>
  match k with R_owner 1%positive | R_client 1%positive => 1 | _ => 0 end.

Lemma linked_none key : linked_on key ∅ ∅.
Proof.
  split; [constructor|]. intros k a. split; [by intros ?%elem_of_nil|].
  intros (s & Hs & _). by rewrite lookup_empty in Hs.
Qed.

Lemma start_idle : idle held start.
Proof.
  constructor; [|by intros a s Ha|done].
  constructor; simpl; auto using linked_none, NoDup_nil_2; try (intros *; rewrite ?lookup_empty; done);
    try (by intros ? ?%elem_of_nil); try (by intros ? ? ?%elem_of_nil).
  - by intros [?|[]|?|?|[]].
  - intros a. split; [by intros ?%elem_of_nil|]. intros (s & Hs & _). by rewrite lookup_empty in Hs.
  - intros o x [<- <-]%lookup_singleton_Some. by vm_compute.
  - by intros x f c [<- <-]%lookup_singleton_Some.
  - intros c x [<- <-]%lookup_singleton_Some. by vm_compute.
Qed.

(** The open state, then what the OPEN that made it leaves: its sequence id is 1 and the request
    is recorded with the owner. *)
Definition share_rw : state_share_t :=
  {| share_access := 3; share_deny := 0; share_access_prev := 10; share_deny_prev := 1 |}.
Definition open_op : table_op := T_add 1 4 STATE_TYPE_SHARE (data_share share_rw) 1.
Definition added_world : v4_world (lock_world unit) :=
  match run_op 60 110 open_op start with Some (_, w) => w | None => start end.
Definition open_other : list Z := le_bytes 8 clientid ++ le_bytes 4 42.
Definition open_state : state_t := with_seqid 1 (default fresh_state (v4_states added_world !! 1%positive)).
Definition open_owner : nfs4_owner_t :=
  {| so_refcount := 2; so_confirmed := true; so_seqid := 3; so_args := NFS4_OP_OPEN; so_last_entry := Some 4%positive;
     so_resp := empty_resp; so_cache_expire := 0 |}.
Definition opened : v4_world (lock_world unit) :=
  set_owners <[1%positive := open_owner]> (set_states <[1%positive := open_state]> added_world).

Lemma open_op_ok : op_ok start open_op.
Proof. constructor; try done; intros _; by eexists. Qed.

Lemma settled_same (w : v4_world (lock_world unit)) a s s' f :
  v4_states w !! a = Some s -> same_shape s s' -> settled w -> settled (set_owners f (set_states <[a := s']> w)).
Proof.
  intros Ha (E1 & _ & _ & E4 & _ & E6) Hs b t Hb Ht. unfold is_hashed. simpl in *. rewrite lookup_insert in Hb.
  case_decide; simplify_eq; [|by apply Hs]. rewrite E4, E6 in Ht. rewrite E1. by apply Hs.
Qed.

Lemma opened_idle : v4_inv held opened /\ settled opened.
Proof.
  destruct (proj1 (wp_run _ _ _) (wp_op_add 60 110 held start 1 4 STATE_TYPE_SHARE (data_share share_rw) 1 start_idle open_op_ok))
    as (r & w' & Hrun & _ & [Hi Hs _]).
  assert (added_world = w') as E. { unfold added_world, open_op. by rewrite Hrun. }
  rewrite <- E in Hi, Hs. clear E Hrun r w'. split.
  - assert (v4_inv held (set_states <[1%positive := open_state]> added_world)) as Hi1.
    { apply (inv_update_state held held added_world 1%positive (with_seqid 0 open_state)); try exact Hi;
        [vm_compute; reflexivity|repeat split|intros k _; reflexivity|vm_compute; congruence|vm_compute; reflexivity]. }
    apply (inv_update_owner held held (set_states <[1%positive := open_state]> added_world) 1%positive
      (default open_owner (v4_owners added_world !! 1%positive)));
      [vm_compute; reflexivity|intros k _; reflexivity|vm_compute; congruence|vm_compute; reflexivity|exact Hi1].
  - apply (settled_same added_world 1%positive (with_seqid 0 open_state)); [vm_compute; reflexivity|repeat split|exact Hs].
Qed.

(** A CLOSE of that state, and the compound it is in. *)
Definition close_req : v40_request :=
  CLOSE {| cl_seqid := 4; cl_stateid := {| seqid := 1; other := open_other |} |}.
Definition data0 : v4_data :=
  {| minorversion := 0; fh_empty := NFS4_OK; fh_invalid := NFS4_OK; fh_ds := false; current_obj := Some 4%positive;
     current_filetype := REGULAR_FILE; current_stateid := {| seqid := 0; other := [] |}; current_stateid_valid := false;
     preserved_clientid := None; ctx_clientid := None |}.

Lemma close_fits : request_fits (request_stateid close_req) 4 open_other open_state open_owner data0.
Proof.
  constructor; [reflexivity|split; vm_compute; congruence|vm_compute; reflexivity|reflexivity|by eexists| | | | |by eexists];
    vm_compute; split; congruence.
Qed.

Lemma close_sent : sent_for opened close_req data0 1 open_state 1 open_owner.
Proof.
  constructor; [vm_compute; reflexivity|vm_compute; reflexivity|vm_compute; reflexivity|vm_compute; reflexivity| |exact close_fits].
  split; vm_compute; reflexivity.
Qed.

Lemma client_usable_at w now l :
  v4_clients w !! 1%positive = Some l -> can_reserve now l = true -> cid_confirmed (cid_lease l) <> STALE_CLIENT_ID ->
  client_usable now 1 w.
Proof. intros Hl Hr Hc xc Hxc. simpl in Hxc. by simplify_eq. Qed.

End V4Scenario.

Import V4Scenario.

(** The open state is closed, and the CLOSE is sent again ten seconds later. *)
Lemma retransmission_once_witness :
  exists r d1 w1, run_request 120 close_req data0 empty_resp opened = Some ((r, d1), w1) /\ status r = NFS4_OK /\
    exists d3 w2, run_request 130 close_req data0 empty_resp w1 = Some ((r, d3), w2) /\ no_clients w2 = no_clients w1.
Proof.
  destruct opened_idle as [Hi Hs].
  destruct (run_request 120 close_req data0 empty_resp opened) as [[[r d1] w1]|] eqn:Hrun; [|by vm_compute in Hrun].
  exists r, d1, w1. split; [done|]. split; [vm_compute in Hrun; by injection Hrun as <- _ _|].
  refine (retransmission_once held opened close_req data0 1 open_state 1 open_owner empty_resp 120 r d1 w1 130 w1 data0
    Hi Hs close_sent _ _ Hrun _ _ _ _ _).
  - by left.
  - eapply client_usable_at; [vm_compute; reflexivity|vm_compute; reflexivity|vm_compute; congruence].
  - done.
  - split; [done|]. intros c xc Hxc. exists (cid_lease xc). rewrite Hxc. by destruct xc.
  - vm_compute in Hrun. injection Hrun as _ _ <-. eapply client_usable_at; [vm_compute; reflexivity|vm_compute; reflexivity|vm_compute; congruence].
  - done.
  - done.
Defined.

(** Adding the open state to the empty table. *)
Lemma state_table_refines_map_witness :
  idle held start /\ op_ok start open_op /\ exists r w', run_op 60 110 open_op start = Some (r, w') /\
    spec_step (fun o => next_other o start) open_op r (table_view start) (table_view w') /\ idle held w'.
Proof.
  split; [apply start_idle|]. split; [apply open_op_ok|].
  exact (state_table_refines_map 60 110 held start open_op start_idle open_op_ok).
Defined.

(** ** Behaviour of the code on that server *)

Definition after {A} (m : option (A * v4_world (lock_world unit))) : v4_world (lock_world unit) :=
  match m with Some (_, w) => w | None => start end.
Definition answer (m : option (nfs_resop4 * v4_data * v4_world (lock_world unit))) : option nfsstat4 :=
  match m with Some (r, _, _) => Some (status r) | None => None end.

Example open_result : option_map fst (run_op 60 110 open_op start) = Some (R_added STATE_SUCCESS (Some open_other)).
Proof. vm_compute. reflexivity. Qed.

(** The file is open for writing once. *)
Definition opened_for_write : v4_world (lock_world unit) :=
  set_files (fmap (with_write_opens 1)) opened.

(** CLOSE counts the end of that open twice: once itself, once in [_state_del_locked]. *)
Example close_counts_write_open_twice :
  let w := after (run_request 120 close_req data0 empty_resp opened_for_write) in
  fds_num_write_opens <$> v4_files w !! 4%positive = Some (2 ^ 32 - 1).
Proof. vm_compute. reflexivity. Qed.

(** A CLOSE that is answered as a replay keeps a reference to the client record. *)
Example replayed_close_keeps_client_reference :
  let w1 := after (run_request 120 close_req data0 empty_resp opened) in
  let w2 := after (run_request 130 close_req data0 empty_resp w1) in
  (cid_refcount <$> v4_clients w1 !! 1%positive, cid_refcount <$> v4_clients w2 !! 1%positive) = (Some 2, Some 3).
Proof. vm_compute. reflexivity. Qed.

(** With the lease expired, a stateid in the table: [cid_mutex] is unlocked twice. *)
Example expired_lease_unlocks_twice : run_request 1000 close_req data0 empty_resp opened = None.
Proof. vm_compute. reflexivity. Qed.

(** An OPEN_DOWNGRADE that is refused is not recorded: the next request of the owner, with the
    next sequence id, is answered with NFS4ERR_BAD_SEQID. *)
Example refused_downgrade_not_recorded :
  let down := OPEN_DOWNGRADE {| od_stateid := {| seqid := 1; other := open_other |}; od_seqid := 4;
                                od_share_access := 1; od_share_deny := 3 |} in
  let close5 := CLOSE {| cl_seqid := 5; cl_stateid := {| seqid := 1; other := open_other |} |} in
  let r1 := run_request 120 down data0 empty_resp opened in
  (answer r1, answer (run_request 121 close5 data0 empty_resp (after r1))) = (Some NFS4ERR_INVAL, Some NFS4ERR_BAD_SEQID).
Proof. vm_compute. reflexivity. Qed.

(** An OPEN_DOWNGRADE that is accepted leaves the share access of the state as it was. *)
Example downgrade_keeps_share_access :
  let down := OPEN_DOWNGRADE {| od_stateid := {| seqid := 1; other := open_other |}; od_seqid := 4;
                                od_share_access := 1; od_share_deny := 0 |} in
  let r1 := run_request 120 down data0 empty_resp opened in
  (answer r1, state_data <$> v4_states (after r1) !! 1%positive) = (Some NFS4_OK, Some (data_share share_rw)).
Proof. vm_compute. reflexivity. Qed.
